(* ===== verification/_CoqProject ===== *)
-Q . S2P
Prelude.v
StrOps.v
Json.v
Serde.v
Canonical.v
Identity.v
Fs.v
Revocation.v
Epoch.v
Receipt.v
Expiry.v
ReceiptStore.v
Session.v
SessionStore.v
SessionLock.v
Metrics.v
Float.v
Router.v
Upstream.v
UpstreamConfig.v
AciVerifier.v
Chutes.v
ExternalVerifier.v
UpstreamManager.v
RouterBackend.v
Errors.v
Verifiers.v
Claims.v
E2ee.v
E2eeFields.v
Sse.v
ChutesE2ee.v
Service.v
E2eeRequest.v
Forward.v
Streaming.v
MiddlewareForward.v
JsonWf.v
RequestTransform.v
RequestTypes.v
ResponseTransform.v
StreamTransform.v
MessageStream.v
KeepAlive.v
Completion.v
StreamedCompletion.v
OutcomeLog.v
Access.v
Reports.v
Dstack.v
RouterHandler.v
DirectBackend.v
Endpoint.v
Gateway.v
Maintenance.v
Launcher.v
RelyingParty.v
KmsRoot.v
