(* ===== verification/Prelude.v ===== *)
(** * Private AI Gateway: a verification development

    The gateway (Rust, under [src/]) stands between clients and AI providers. It
    runs in a trusted execution environment, forwards a request only to an
    upstream it has verified, over a channel bound to what was verified, and
    gives the client a signed receipt of what happened. Its parts and the files
    that model them, bottom up:

    - [src/aci/canonical.rs], the canonical JSON under every digest:
      [Canonical.v], on the JSON values of [Json.v]. Objects keep insertion
      order, as [serde_json] does with [preserve_order].
    - [src/aci/identity.rs], [src/aci/types.rs], the keyset, its digest, the
      attestation statement and the report data: [Identity.v].
    - [src/aggregator/revocation_store.rs] and [keyset_epoch.rs], revocations and
      the epoch the launcher serves: [Revocation.v] and [Epoch.v], on the file
      system of [Fs.v], in which each operation can be made to fail.
    - [src/aci/receipt.rs], the event log builder and the signed receipt:
      [Receipt.v]; [src/aggregator/service/receipt_store.rs]: [ReceiptStore.v].
    - [src/aggregator/session.rs], content-addressed attested sessions:
      [Session.v]; [session_store.rs], their index and JSON-lines log:
      [SessionStore.v], and the lock that keeps a log to one gateway:
      [SessionLock.v]. Both stores share the deadline index of [Expiry.v].
    - [src/aggregator/metrics.rs], the counters: [Metrics.v].
    - [src/aci/upstream/] without Chutes, the backend trait, the OpenAI-compatible
      forwarder, TLS pinning and the model router: [Upstream.v], with
      [serde_json]'s text functions as parameters ([Serde.v]).
    - [src/aci/upstream/chutes/], nonce pools and session acquisition: [Chutes.v];
      the sealed exchange with an instance (which is the one of
      [tests/provider_e2e.rs], with its own derivation) and the decrypting stream:
      [ChutesE2ee.v].
    - [src/aci/verifier/], the attestation of ACI services ([AciVerifier.v]) and of
      external providers through a bridge process ([ExternalVerifier.v]).
    - [src/aggregator/upstream_config/], configuration data and validation
      ([UpstreamConfig.v]), construction of backends and verifiers and the manager
      that replaces them at run time ([UpstreamManager.v]), the background rounds
      that verify every channel and refresh nonce pools ([Maintenance.v]).
    - [src/middleware/router.rs], load- and cache-aware routing: [Router.v] on the
      floating point of [Float.v]; route lists, failover order, routing text and
      metrics in [RouterBackend.v], its handlers in [RouterHandler.v].
    - [src/aci/verifier/simple.rs] and [upstream_config/dynamic.rs], the constant
      verifiers and the one that follows the configuration: [Verifiers.v].
    - [src/aggregator/service/claims.rs], what an attested session may claim:
      [Claims.v].
    - [src/aci/e2ee.rs], the four encryption suites: [E2ee.v];
      [service/e2ee_crypto.rs], the encryption of JSON fields: [E2eeFields.v];
      [service/e2ee.rs], accepting encrypted requests and the replay cache:
      [E2eeRequest.v]; its reports, with the construction of the service
      ([service/mod.rs]): [Service.v].
    - [src/aggregator/service/forward.rs], a request from verification to the
      receipt: [Forward.v]; [service/streaming.rs], the streams that hash and
      finalize, poll by poll: [Streaming.v], with the event machines of [Sse.v];
      [service/middleware.rs], failover over candidates: [MiddlewareForward.v].
    - [src/middleware/request_transform.rs]: [RequestTransform.v] and the typing of
      its output in [RequestTypes.v]; [response_transform.rs]:
      [ResponseTransform.v]; [stream_transform.rs]: [StreamTransform.v] and
      [MessageStream.v]; [sse.rs]: [KeepAlive.v]; [errors.rs]: [Errors.v].
    - [src/middleware/completion.rs], a completion from the routes to the response
      the client gets: [Completion.v]; [StreamedCompletion.v] composes all the
      streams of a streaming one; what may be logged of it: [OutcomeLog.v].
    - [src/http/app/], the HTTP front end: who may read receipts and sessions
      ([Access.v]), reports ([Reports.v]), the completion endpoints
      ([Endpoint.v]), requests without the middleware ([DirectBackend.v]), and
      administration and the routes, every request a step of one state, but a
      completion two: its checks, and later what it does once admitted
      ([Gateway.v]).
    - [src/dstack.rs], the keys the service runs with: [Dstack.v], the instance of
      the key interfaces the service is proved against.
    - [src/main.rs], the start of the gateway: [Launcher.v].
    - [examples/], what a client runs: the check of a report, a receipt and a
      session ([RelyingParty.v]) and the tool that reads a KMS root off a report
      ([KmsRoot.v]).

    [StrOps.v] has the string functions of the Rust library the parsers use,
    [JsonWf.v] the rules by which a JSON value is seen to be well formed.

    ** Conventions

    Rust structs are records and enums inductive types; where Rocq needs distinct
    names a field has a prefix ([p_], [vr_], [x_]). A fallible function returns
    [result E A]; [?] is the monad's bind. State is passed and returned; the
    service's own code is in the state and error monad [Svc] of [Forward.v]. [u64],
    [usize] and [i64] are [Z] with the wrapping or saturating operation the source
    uses; [String] is a string of UTF-8 bytes, and [chars] decodes it where the
    source works on characters; [HashMap] and [BTreeMap] are [gmap], the latter
    iterated in key order. Locks are modelled by their critical sections: an
    operation is atomic exactly where the source holds the lock, and what other
    tasks do in between is an argument (a list of operations). Clock readings are
    arguments, or answers of the [Outside] interface where a request reads the
    clock several times. Where only the text of an error message matters to
    nobody, an error is a constructor instead of its text ([ConfigIssue]).

    A stream is the list of its answers to polls, [None] being pending, and the
    end is what follows the last; a poll function returns the answer and the
    stream after it. What a stream does to shared state when it answers is kept
    with the answer ([Answer]). What a request does to the verifier and the
    upstream is recorded in a trace of actions, sends with whether they met a
    binding mismatch, against which the protocol of [Forward.v] is stated.

    Code that is not in the repository is a parameter, a class of operations with a
    separate class of laws where a theorem needs them: [Digest] (SHA-256, hex),
    [SerdeJson], [JsonCodec], [LogCodec], [ConfigCodec], [BridgeCodec],
    [ChutesCodec], [EventValues] (serde's printers and parsers of given types),
    [Base64] and [Base64Error], [Crypto] (hashes and key recovery), [CurveLibs]
    (key agreement, HKDF and AES-GCM), [Signers] (signature schemes), [ChutesLibs]
    (ML-KEM, ChaCha20-Poly1305, gzip), [Keccak], [DstackSdk] (the guest agent),
    [VerifierLibs] (quote verification and parsing, URL parsing, HTTP fetches),
    [HttpClient], [Http] and [HeaderText] (header names and values),
    [LauncherLibs] (the configuration file, PEM and X.509), [Prometheus], [VerifierBuild],
    [StrDebug] ([{:?}] of a string), the texts of errors ([HandlerText],
    [AuditText], [MaintenanceText]) and the printer of floats.

    Interfaces between modelled parts are classes too, and the clients are proved
    against them: [KeyProvider], [E2eeKeys] and [Quoter] (given by [Dstack.v]),
    [UpstreamVerifier] (instances in [Verifiers.v]), [SessionStoreOps] (both stores of [SessionStore.v];
    [Maintenance.v] proves its rounds against [IndexedStore], which both meet),
    [ChutesTransport] (given by [ChutesE2ee.v]) and [Outside], the clock and the
    upstream as a request sees them.
    SHA-256 is never assumed injective: a theorem that needs it ends in an
    explicit collision. Every law class has an instance among the witnesses.

    ** Theorems

    Digests and signatures: canonical bytes are equal exactly for equal JSON
    values ([canonicalize_faithful]); report data, content ids and signing bytes
    determine what they were computed from ([report_data_binds],
    [content_id_binds], [signing_bytes_bind]), the signed payloads of different
    purposes never coincide ([signed_payloads_disjoint]), and a finished receipt
    is signed over what a verifier recomputes ([finalize_signs],
    [event_log_append_only]).

    Keyset life cycle: no epoch served is revoked, versions grow, restarts are
    stable, and a crash at any file operation leaves an old or the new record
    ([launcher_*], [record_*]); a gateway that has started enforces every
    revocation on disk ([launch_serves_unrevoked]), and a revocation it has
    acknowledged is final, for every request not yet admitted
    ([revocation_final]).

    Stores: with a clock that does not run backwards the receipt store and the
    session index answer like stores that forget only what has expired
    ([receipt_store_refines], [session_index_refines]); the session log admits
    only records that match their content id, an append is durable, compaction
    and reopening agree ([replay_integrity], [put_session_durable],
    [compact_reopen]), however the gateways of a host interleave, as long as no
    write was torn before ([acknowledged_session_kept]); a verification round asks
    about every channel once and leaves the sessions of the verified ones in the
    store ([round_fills_sessions]).

    Verification and forwarding: an event reported as verified has an attestation
    behind it ([verified_event_attested], [external_event_vouched],
    [quote_not_replayable]); what was verified is what is sent
    ([prepare_binds_route]) and only over a channel that matches
    ([client_for_event_fail_closed]); Chutes nonces are those of the verified
    instance, unexpired, and used once ([acquired_session_verified],
    [nonce_single_use]), nothing but sealed payloads goes to it
    ([chutes_sends_sealed]), what it answers is read back
    ([chutes_exchange_roundtrip]), however the bytes arrive
    ([chutes_stream_chunking]).

    Configuration and routing: validation is exact ([validate_config_iff]), the
    tables built are those configured ([built_routes_aligned],
    [add_routes_spec], [verification_targets_exact]), replacement is atomic
    ([replace_atomic]); the router never picks a blocked upstream while another
    is free, tries every route once, counts requests in flight exactly, and
    matches on a bounded prefix of the prompt ([select_avoids_blocked],
    [failover_order], [in_flight_exact], [routing_text_is_prefix]).

    The service: a request follows the verification protocol and fails closed
    ([request_refines_protocol], [required_sends_verified]), sending again only
    after a binding mismatch, also when it fails
    over ([failover_in_order]); the receipts of buffered and streaming requests,
    with and without the middleware, tell exactly what happened
    ([exchange_receipt_truthful], [streaming_receipt_truthful],
    [middleware_receipt_truthful], [middleware_stream_receipt_truthful]), and
    streams come to their end ([streams_finish]); a session claims no more than
    its evidence, under the right label, an instance's no more than its own
    ([session_claims_honest], [per_instance_claims_local]); the
    service's own report passes its own verifier ([report_self_validates]).

    The front end: a completion request is refused or passes every check
    ([endpoint_fail_closed]), its receipt is given to its owner and to nobody
    else ([receipt_retrievable], [receipt_for_its_owner]), only the admin token
    changes configuration or revocations ([admin_guarded]), reports of gateways
    that name each other as ACI services end ([nested_reports_end]), and a completion keeps the
    in-flight counters exact ([completion_slot]).

    End to end: with the keys of the dstack provider what a client encrypts is
    decrypted ([dstack_keys_decrypt]), receipts verify and the custody of the
    identity key is as the KMS released it ([dstack_receipts_verify],
    [dstack_report_custody]); the client's program accepts the report, the
    receipt and the session of an exchange ([audit_accepts_exchange]), and the
    tool and the verifier read the same KMS root ([kms_root_agrees]); a domain's
    report is bound to its certificate ([launch_binds_domains]). Counters count
    what was recorded and never panic ([metrics_count]); a logged line names the
    model and the route cut and without control characters, and carries what an
    upstream said only at debug level ([outcome_line_clean]).

    Encryption: fields decrypt to what was encrypted, in all suites and for whole
    responses ([e2ee_roundtrip], [encrypted_response_readable]); a ciphertext is
    bound to its place ([e2ee_aad_binds]); replays are refused
    ([e2ee_replay_rejected]); an encrypted event stream does not depend on how
    bytes arrive ([sse_transform_chunking]).

    The middleware: shaped requests contain what the tables say, within bounds, and
    can be printed ([request_fields_accounted], [request_numbers_clamped],
    [stream_usage_requested], with [request_well_formed] for the printer); turns survive translation
    ([tool_use_roundtrip], [response_turn_preserved], [response_well_formed]);
    streams are shaped exactly, stay bracketed and are not disturbed by
    keep-alives ([stream_shaping_exact], [message_stream_bracketed],
    [keepalive_transparent]); upstream errors do not leak through it
    ([upstream_error_confined], of [Completion.v]); and what the client is told of a receipt is true,
    through all layers ([completion_receipted], [streamed_completion_receipted]).

    Fifteen theorems state behaviour the code should not have:
    [record_retry_after_failure], [torn_append_swallows_next],
    [torn_seed_blocks_start], [aci_refresh_serves_cache],
    [app_id_payload_not_measured], [last_origin_verifies],
    [messages_response_cleartext], [e2ee_replay_reaccepted],
    [text_block_index_reused], [keepalive_splits_event],
    [expiring_receipt_unguarded], [legacy_report_outlives_revocation],
    [direct_error_headers_relayed], [cached_tokens_counted_twice],
    [nearai_cycle_endless].

    ** Bounds

    Recursion is structural, with these kinds of fuel. [chars] decodes with the
    length of the string, and each character takes at least one byte. The
    launcher's loop runs as often as the source lets it, once more than there are
    revocations plus one, which [launcher_never_serves_revoked] shows is enough.
    Eviction takes as much fuel as there are deadlines. The event adapter drains
    its buffer with the buffer's length, a separator being taken out each time
    ([drain_loop_ok]), and the Chutes stream takes the lines out of its buffer in
    the same way. A request for a report takes the depth the source lets it nest,
    with any more fuel giving the same answer ([nested_reports_end]).
    [Completion.v] computes the answers of a chain of streams
    with as many polls as can give an answer, which [polls_enough_ok] proves.

    ** Not modelled

    Binding the listener, and the handshake signature checks that
    [src/aci/upstream/tls.rs] hands to rustls. The calls that count and log on
    the request path: nothing reads counters and lines back but the metrics
    endpoint, so [Metrics.v] and [OutcomeLog.v] model them on their own. The concurrency
    of tasks inside a gateway is in the arguments described above, not in a
    scheduler. Test modules, the live smoke test of [examples/], the TypeScript
    client under [clients/] and the Python bridge under [scripts/], whose output
    is an input of [ExternalVerifier.v]. *)
From stdpp Require Export base gmap strings list sorting.
From Stdlib Require Export ZArith NArith Ascii Lia ZifyN ZifyNat.
From Stdlib Require Import DecimalString DecimalZ DecimalFacts DecimalPos.

#[global] Open Scope Z_scope.

(** ** Results: Rust's [Result], error type first so that it is a monad *)

Inductive result (E A : Type) : Type :=
| Ok (a : A)
| Err (e : E).
Arguments Ok {E A} a.
Arguments Err {E A} e.

#[export] Instance result_ret {E} : MRet (result E) := fun A a => Ok a.
#[export] Instance result_bind {E} : MBind (result E) := fun A B f m =>
  match m with Ok a => f a | Err e => Err e end.
#[export] Instance result_fmap {E} : FMap (result E) := fun A B f m =>
  match m with Ok a => Ok (f a) | Err e => Err e end.

Definition ok_or {E A} (o : option A) (e : E) : result E A :=
  match o with Some a => Ok a | None => Err e end.

Definition map_err {E E' A} (f : E -> E') (r : result E A) : result E' A :=
  match r with Ok a => Ok a | Err e => Err (f e) end.

Definition ok {E A} (r : result E A) : option A :=
  match r with Ok a => Some a | Err _ => None end.

Lemma result_bind_Ok {E A B} (m : result E A) (f : A -> result E B) b :
  m ≫= f = Ok b <-> exists a, m = Ok a /\ f a = Ok b.
Proof.
  destruct m as [a|e]; cbn; split.
  - eauto.
  - by intros (a' & [= ->] & ?).
  - done.
  - by intros (a' & ? & ?).
Qed.

(** ** Machine integers: values of [u64]/[usize] are [Z] in range *)

Definition u64_max : Z := 2 ^ 64 - 1.
Definition is_u64 (x : Z) : Prop := 0 <= x <= u64_max.
Definition i64_min : Z := - 2 ^ 63.
Definition i64_max : Z := 2 ^ 63 - 1.

(** Release-build arithmetic wraps; the named methods saturate or check. *)
Definition u64_add (x y : Z) : Z := (x + y) mod 2 ^ 64.
Definition u64_saturating_add (x y : Z) : Z := Z.min (x + y) u64_max.
Definition u64_saturating_sub (x y : Z) : Z := Z.max (x - y) 0.
Definition u64_checked_add (x y : Z) : option Z :=
  if x + y <=? u64_max then Some (x + y) else None.

Lemma u64_add_small x y : is_u64 x -> 0 <= y -> x + y <= u64_max -> u64_add x y = x + y.
Proof. unfold is_u64, u64_add, u64_max. intros. apply Z.mod_small. lia. Qed.

Lemma u64_add_range x y : is_u64 (u64_add x y).
Proof.
  unfold is_u64, u64_add, u64_max.
  pose proof (Z.mod_pos_bound (x + y) (2 ^ 64)). lia.
Qed.

Lemma u64_saturating_add_range x y :
  is_u64 x -> 0 <= y -> is_u64 (u64_saturating_add x y).
Proof. unfold is_u64, u64_saturating_add, u64_max. lia. Qed.

(** ** Orders given by a three-way comparison *)

Class CmpOrder {A} (cmp : A -> A -> comparison) : Prop := {
  cmp_refl x : cmp x x = Eq;
  cmp_sym x y : cmp y x = CompOpp (cmp x y);
  cmp_trans c x y z : cmp x y = c -> cmp y z = c -> cmp x z = c;
  cmp_eq_l x y z : cmp x y = Eq -> cmp x z = cmp y z;
}.

(** A comparison whose [Eq] is Leibniz equality. *)
Class CmpTotal {A} (cmp : A -> A -> comparison) : Prop := {
  cmp_total_order :: CmpOrder cmp;
  cmp_eq x y : cmp x y = Eq -> x = y;
}.

Arguments cmp_refl {A} cmp {_} x.
Arguments cmp_sym {A} cmp {_} x y.
Arguments cmp_trans {A} cmp {_} c x y z.
Arguments cmp_eq_l {A} cmp {_} x y z.
Arguments cmp_eq {A} cmp {_} x y.

Definition cmp_le {A} (cmp : A -> A -> comparison) (x y : A) : Prop := cmp x y <> Gt.

Section cmp.
Context {A : Type} (cmp : A -> A -> comparison).

Lemma cmp_eq_r `{!CmpOrder cmp} x y z : cmp y z = Eq -> cmp x y = cmp x z.
Proof.
  intros H. rewrite (cmp_sym cmp y x), (cmp_sym cmp z x). by rewrite (cmp_eq_l cmp y z x H).
Qed.

#[export] Instance cmp_le_trans `{!CmpOrder cmp} : Transitive (cmp_le cmp).
Proof.
  intros x y z. unfold cmp_le.
  destruct (cmp x y) eqn:Hxy; [|destruct (cmp y z) eqn:Hyz|]; try done; intros _ H.
  - by rewrite (cmp_eq_l cmp x y z Hxy).
  - by rewrite <- (cmp_eq_r x y z Hyz), Hxy.
  - by rewrite (cmp_trans cmp Lt x y z Hxy Hyz).
Qed.

Lemma cmp_le_total `{!CmpOrder cmp} x y : cmp_le cmp x y \/ cmp_le cmp y x.
Proof. unfold cmp_le. rewrite (cmp_sym cmp x y). destruct (cmp x y); cbn; auto. Qed.

Lemma cmp_gt_le `{!CmpOrder cmp} x y : cmp x y = Gt -> cmp_le cmp y x.
Proof. intros H. unfold cmp_le. by rewrite (cmp_sym cmp x y), H. Qed.

#[export] Instance cmp_le_antisymm `{!CmpTotal cmp} : AntiSymm eq (cmp_le cmp).
Proof.
  intros x y. unfold cmp_le. rewrite (cmp_sym cmp x y).
  destruct (cmp x y) eqn:H; cbn; try done. intros _ _. by apply (cmp_eq cmp).
Qed.
End cmp.

(** Rust's [Ordering::then_with]. *)
Definition then_with (a b : comparison) : comparison :=
  match a with Eq => b | _ => a end.

(** [slice::sort_by], a stable sort; by insertion. *)
Fixpoint insert_by {A} (cmp : A -> A -> comparison) (x : A) (l : list A) : list A :=
  match l with
  | [] => [x]
  | y :: l' => match cmp x y with Gt => y :: insert_by cmp x l' | _ => x :: l end
  end.

Fixpoint sort_by {A} (cmp : A -> A -> comparison) (l : list A) : list A :=
  match l with [] => [] | x :: l' => insert_by cmp x (sort_by cmp l') end.

Section sort_by.
Context {A : Type} (cmp : A -> A -> comparison).

Lemma insert_by_perm x l : insert_by cmp x l ≡ₚ x :: l.
Proof.
  induction l as [|y l IH]; cbn; [done|].
  destruct (cmp x y); try done. rewrite IH. apply Permutation_swap.
Qed.

Lemma sort_by_perm l : sort_by cmp l ≡ₚ l.
Proof.
  induction l as [|x l IH]; cbn; [done|]. by rewrite insert_by_perm, IH.
Qed.

Lemma insert_by_sorted `{!CmpOrder cmp} x l :
  StronglySorted (cmp_le cmp) l -> StronglySorted (cmp_le cmp) (insert_by cmp x l).
Proof.
  induction 1 as [|y l Hl IH Hy]; cbn; [repeat constructor|].
  destruct (cmp x y) eqn:Hxy.
  1,2: constructor; [by constructor|]; constructor;
    [by unfold cmp_le; rewrite Hxy|];
    eapply Forall_impl; [exact Hy|]; intros z Hz; cbn;
    (transitivity y; [|exact Hz]); unfold cmp_le; by rewrite Hxy.
  constructor; [done|]. rewrite insert_by_perm. constructor; [by apply cmp_gt_le|done].
Qed.

Lemma sort_by_sorted `{!CmpOrder cmp} l : StronglySorted (cmp_le cmp) (sort_by cmp l).
Proof. induction l; cbn; [constructor|]. by apply insert_by_sorted. Qed.

(** With a total comparison the sorted list is determined by the elements. *)
Lemma sort_by_unique `{!CmpTotal cmp} l1 l2 : l1 ≡ₚ l2 -> sort_by cmp l1 = sort_by cmp l2.
Proof.
  intros Hp. apply (StronglySorted_unique (cmp_le cmp)); [apply sort_by_sorted..|].
  by rewrite !sort_by_perm.
Qed.

Lemma sort_by_length l : length (sort_by cmp l) = length l.
Proof. by rewrite sort_by_perm. Qed.
End sort_by.

Lemma sort_by_map {A B} (f : A -> B) (cmp : B -> B -> comparison) l :
  map f (sort_by (fun x y => cmp (f x) (f y)) l) = sort_by cmp (map f l).
Proof.
  assert (Hins : forall x l, map f (insert_by (fun x y => cmp (f x) (f y)) x l)
                 = insert_by cmp (f x) (map f l)).
  { intros x l'. induction l' as [|y l' IH]; cbn; [done|].
    destruct (cmp (f x) (f y)); cbn; by rewrite ?IH. }
  induction l as [|x l IH]; cbn; [done|]. by rewrite Hins, IH.
Qed.

(** Lexicographic comparison of lists: [Ord] for slices. *)
Fixpoint lex_compare {A} (cmp : A -> A -> comparison) (a b : list A) : comparison :=
  match a, b with
  | [], [] => Eq
  | [], _ :: _ => Lt
  | _ :: _, [] => Gt
  | x :: a', y :: b' => match cmp x y with Eq => lex_compare cmp a' b' | c => c end
  end.

#[export] Instance lex_compare_order {A} (cmp : A -> A -> comparison) :
  CmpOrder cmp -> CmpOrder (lex_compare cmp).
Proof.
  intros Hc. split.
  - induction x; cbn; [done|]. by rewrite cmp_refl.
  - induction x as [|a x IH]; intros [|b y]; cbn; try done.
    rewrite (cmp_sym cmp a b), IH. by destruct (cmp a b).
  - intros c. induction x as [|a x IH]; intros [|b y] [|d z]; cbn; try congruence.
    destruct (cmp a b) eqn:Hab; [rewrite (cmp_eq_l cmp _ _ d Hab); destruct (cmp b d); try done; by apply IH| |];
    destruct (cmp b d) eqn:Hbd; intros <-; try done;
    try (rewrite <- (cmp_eq_r cmp a b d Hbd), Hab; done);
    by rewrite (cmp_trans cmp _ a b d Hab Hbd).
  - induction x as [|a x IH]; intros [|b y] [|d z]; cbn; try congruence.
    destruct (cmp a b) eqn:Hab; try done. intros H.
    rewrite (cmp_eq_l cmp _ _ d Hab). destruct (cmp b d); try done. by apply IH.
Qed.

#[export] Instance lex_compare_total {A} (cmp : A -> A -> comparison) :
  CmpTotal cmp -> CmpTotal (lex_compare cmp).
Proof.
  intros Hc. split; [apply _|].
  induction x as [|a x IH]; intros [|b y]; cbn; try done.
  destruct (cmp a b) eqn:Hab; try done. intros H.
  f_equal; [by apply (cmp_eq cmp)|by apply IH].
Qed.

#[export] Instance N_compare_total : CmpTotal N.compare.
Proof.
  repeat split.
  - intros; apply N.compare_refl.
  - intros; apply N.compare_antisym.
  - intros [] x y z; rewrite ?N.compare_eq_iff, ?N.compare_lt_iff, ?N.compare_gt_iff; lia.
  - intros x y z ->%N.compare_eq_iff. done.
  - intros x y. apply N.compare_eq_iff.
Qed.

#[export] Instance Z_compare_total : CmpTotal Z.compare.
Proof.
  repeat split.
  - intros; apply Z.compare_refl.
  - intros; apply Z.compare_antisym.
  - intros [] x y z; rewrite ?Z.compare_eq_iff, ?Z.compare_lt_iff, ?Z.compare_gt_iff; lia.
  - intros x y z ->%Z.compare_eq_iff. done.
  - intros x y. apply Z.compare_eq_iff.
Qed.

(** Comparison through a key. *)
Definition cmp_on {A B} (f : A -> B) (cmp : B -> B -> comparison) (x y : A) : comparison :=
  cmp (f x) (f y).

#[export] Instance cmp_on_order {A B} (f : A -> B) cmp : CmpOrder cmp -> CmpOrder (cmp_on f cmp).
Proof.
  intros Hc. unfold cmp_on. split; intros.
  - apply (cmp_refl cmp).
  - apply (cmp_sym cmp).
  - by eapply (cmp_trans cmp).
  - by eapply cmp_eq_l.
Qed.

(** Tuples compare componentwise. *)
Definition pair_compare {A B} (ca : A -> A -> comparison) (cb : B -> B -> comparison)
    (p q : A * B) : comparison := then_with (ca p.1 q.1) (cb p.2 q.2).

#[export] Instance pair_compare_total {A B} (ca : A -> A -> comparison) (cb : B -> B -> comparison) :
  CmpTotal ca -> CmpTotal cb -> CmpTotal (pair_compare ca cb).
Proof.
  intros Ha Hb. unfold pair_compare, then_with. repeat split.
  - intros [a b]; cbn. by rewrite (cmp_refl ca), (cmp_refl cb).
  - intros [a b] [a' b']; cbn. rewrite (cmp_sym ca a a'), (cmp_sym cb b b'). by destruct (ca a a').
  - intros c [a1 b1] [a2 b2] [a3 b3]; cbn.
    destruct (ca a1 a2) eqn:H12.
    + rewrite (cmp_eq_l ca _ _ a3 H12). destruct (ca a2 a3); try done. apply (cmp_trans cb).
    + intros <-. destruct (ca a2 a3) eqn:H23; try done.
      * by rewrite <- (cmp_eq_r ca a1 a2 a3 H23), H12.
      * by rewrite (cmp_trans ca _ a1 a2 a3 H12 H23).
    + intros <-. destruct (ca a2 a3) eqn:H23; try done.
      * by rewrite <- (cmp_eq_r ca a1 a2 a3 H23), H12.
      * by rewrite (cmp_trans ca _ a1 a2 a3 H12 H23).
  - intros [a1 b1] [a2 b2] [a3 b3]; cbn.
    destruct (ca a1 a2) eqn:H12; try done. intros H.
    rewrite (cmp_eq_l ca _ _ a3 H12). destruct (ca a2 a3); try done. by apply (cmp_eq_l cb).
  - intros [a1 b1] [a2 b2]; cbn.
    destruct (ca a1 a2) eqn:H12; try done. intros H. f_equal; [by apply (cmp_eq ca)|by apply (cmp_eq cb)].
Qed.

#[export] Instance cmp_on_total {A B} (f : A -> B) cmp :
  Inj (=) (=) f -> CmpTotal cmp -> CmpTotal (cmp_on f cmp).
Proof.
  intros Hf Hc. split; [apply _|]. unfold cmp_on. intros x y H. apply Hf. by apply (cmp_eq cmp).
Qed.

(** ** Strings

    A Rust [str] or byte buffer is a [string] of bytes; a [str] holds the UTF-8
    encoding of a sequence of Unicode scalar values, which [chars] decodes. *)

#[global] Arguments String.append !_ _ / : simpl nomatch.

Fixpoint string_bytes (s : string) : list N :=
  match s with
  | EmptyString => []
  | String a s' => N_of_ascii a :: string_bytes s'
  end.

(** [Ord] for [str] is the order of the bytes. *)
Definition str_compare (a b : string) : comparison :=
  lex_compare N.compare (string_bytes a) (string_bytes b).

#[export] Instance string_bytes_inj : Inj (=) (=) string_bytes.
Proof.
  intros a. induction a as [|x a IH]; intros [|y b]; cbn; try done.
  intros [= Hxy Hab]. f_equal; [|by apply IH].
  by rewrite <- (ascii_N_embedding x), <- (ascii_N_embedding y), Hxy.
Qed.

#[export] Instance str_compare_total : CmpTotal str_compare.
Proof. exact (cmp_on_total string_bytes (lex_compare N.compare) _ _). Qed.

Definition byte (n : N) : ascii := ascii_of_N n.

(** [char::encode_utf8]. *)
Definition encode_utf8 (c : N) : string :=
  (if c <? 0x80 then String (byte c) ""
   else if c <? 0x800 then
     String (byte (0xC0 + c / 64)) (String (byte (0x80 + c mod 64)) "")
   else if c <? 0x10000 then
     String (byte (0xE0 + c / 4096)) (String (byte (0x80 + (c / 64) mod 64))
       (String (byte (0x80 + c mod 64)) ""))
   else
     String (byte (0xF0 + c / 262144)) (String (byte (0x80 + (c / 4096) mod 64))
       (String (byte (0x80 + (c / 64) mod 64)) (String (byte (0x80 + c mod 64)) ""))))%N.

(** Decoding of the first character of a valid UTF-8 buffer. *)
Definition decode_utf8 (s : string) : option (N * string) :=
  match s with
  | EmptyString => None
  | String a0 s1 =>
      let b0 := N_of_ascii a0 in
      if (b0 <? 0x80)%N then Some (b0, s1) else
      match s1 with
      | EmptyString => None
      | String a1 s2 =>
          let b1 := (N_of_ascii a1 - 0x80)%N in
          if (b0 <? 0xE0)%N then Some ((b0 - 0xC0) * 64 + b1, s2)%N else
          match s2 with
          | EmptyString => None
          | String a2 s3 =>
              let b2 := (N_of_ascii a2 - 0x80)%N in
              if (b0 <? 0xF0)%N then Some ((b0 - 0xE0) * 4096 + b1 * 64 + b2, s3)%N else
              match s3 with
              | EmptyString => None
              | String a3 s4 =>
                  let b3 := (N_of_ascii a3 - 0x80)%N in
                  Some ((b0 - 0xF0) * 262144 + b1 * 4096 + b2 * 64 + b3, s4)%N
              end
          end
      end
  end.

(** [str::chars]. *)
Fixpoint chars_fuel (fuel : nat) (s : string) : list N :=
  match fuel with
  | O => []
  | S fuel' =>
      match decode_utf8 s with
      | None => []
      | Some (c, s') => c :: chars_fuel fuel' s'
      end
  end.

Definition chars (s : string) : list N := chars_fuel (String.length s) s.

(** Collecting characters back into a [String]. *)
Fixpoint of_chars (cs : list N) : string :=
  match cs with
  | [] => ""
  | c :: cs' => encode_utf8 c +:+ of_chars cs'
  end.

(** Unicode scalar values: every code point but the surrogates. *)
Definition is_scalar (c : N) : Prop := (c < 0xD800 \/ 0xE000 <= c <= 0x10FFFF)%N.

(** The invariant of [str]: valid UTF-8. *)
Definition valid_utf8 (s : string) : Prop :=
  exists cs, Forall is_scalar cs /\ s = of_chars cs.

Lemma string_app_assoc (a b c : string) : (a +:+ b) +:+ c = a +:+ (b +:+ c).
Proof. induction a; cbn; congruence. Qed.

Lemma string_app_nil_r (a : string) : a +:+ "" = a.
Proof. induction a; cbn; congruence. Qed.

Lemma string_app_inv_head (a b c : string) : a +:+ b = a +:+ c -> b = c.
Proof. induction a; cbn; [done|]. intros [=]; auto. Qed.

Lemma string_app_length (a b : string) :
  String.length (a +:+ b) = (String.length a + String.length b)%nat.
Proof. induction a; cbn; congruence. Qed.

Lemma decode_encode_utf8 c s :
  (c <= 0x10FFFF)%N -> decode_utf8 (encode_utf8 c +:+ s) = Some (c, s).
Proof.
  intros Hc. unfold encode_utf8, decode_utf8, byte.
  destruct (N.ltb_spec c 0x80); [|destruct (N.ltb_spec c 0x800); [|destruct (N.ltb_spec c 0x10000)]];
    cbn [String.append]; rewrite !N_ascii_embedding by lia;
    repeat (match goal with |- context [(?a <? ?b)%N] => destruct (N.ltb_spec a b); [try (exfalso; lia)|try (exfalso; lia)] end);
    repeat f_equal; lia.
Qed.

Lemma encode_utf8_length c : (0 < String.length (encode_utf8 c))%nat.
Proof. unfold encode_utf8. repeat destruct (_ <? _)%N; cbn; lia. Qed.

Lemma chars_fuel_of_chars cs fuel :
  Forall is_scalar cs -> (String.length (of_chars cs) <= fuel)%nat ->
  chars_fuel fuel (of_chars cs) = cs.
Proof.
  intros Hcs. revert fuel.
  induction Hcs as [|c cs Hc _ IH]; intros [|fuel] Hlen; try done.
  - cbn in Hlen. rewrite string_app_length in Hlen.
    pose proof (encode_utf8_length c). lia.
  - cbn. rewrite decode_encode_utf8 by (unfold is_scalar in Hc; lia). f_equal. apply IH.
    cbn in Hlen. rewrite string_app_length in Hlen.
    pose proof (encode_utf8_length c). lia.
Qed.

Lemma chars_of_chars cs : Forall is_scalar cs -> chars (of_chars cs) = cs.
Proof. intros. by apply chars_fuel_of_chars. Qed.

Lemma of_chars_chars s : valid_utf8 s -> of_chars (chars s) = s.
Proof. intros (cs & Hcs & ->). by rewrite chars_of_chars. Qed.

Lemma chars_scalar s : valid_utf8 s -> Forall is_scalar (chars s).
Proof. intros (cs & Hcs & ->). by rewrite chars_of_chars. Qed.

Lemma chars_inj s1 s2 : valid_utf8 s1 -> valid_utf8 s2 -> chars s1 = chars s2 -> s1 = s2.
Proof. intros H1 H2 H. by rewrite <- (of_chars_chars s1), <- (of_chars_chars s2), H. Qed.

Lemma of_chars_app cs1 cs2 : of_chars (cs1 ++ cs2) = of_chars cs1 +:+ of_chars cs2.
Proof. induction cs1 as [|c cs1 IH]; cbn; [done|]. by rewrite IH, string_app_assoc. Qed.

Lemma valid_utf8_app s1 s2 : valid_utf8 s1 -> valid_utf8 s2 -> valid_utf8 (s1 +:+ s2).
Proof.
  intros (cs1 & H1 & ->) (cs2 & H2 & ->). exists (cs1 ++ cs2).
  split; [by apply Forall_app|by rewrite of_chars_app].
Qed.

Lemma valid_utf8_of_chars cs : Forall is_scalar cs -> valid_utf8 (of_chars cs).
Proof. intros. by exists cs. Qed.

(** Decimal printing, [i64::to_string] and [u64::to_string]. *)
Definition z_to_string (z : Z) : string := NilZero.string_of_int (Z.to_int z).

Definition string_to_z (s : string) : option Z := Z.of_int <$> NilZero.int_of_string s.

Lemma string_to_z_to_string z : string_to_z (z_to_string z) = Some z.
Proof.
  unfold string_to_z, z_to_string. rewrite NilZero.isi.
  - cbn. by rewrite DecimalZ.of_to.
  - destruct z; cbn; try done. intros [= Hp]. pose proof (Unsigned.to_uint_nonnil p). congruence.
  - destruct z; cbn; try done. intros [= Hp]. pose proof (Unsigned.to_uint_nonnil p). congruence.
Qed.

Lemma string_to_z_nonneg a s z : string_to_z (String a s) = Some z -> a <> "-"%char -> 0 <= z.
Proof.
  unfold string_to_z. intros (i & Hi & ->)%fmap_Some Ha. unfold NilZero.int_of_string in Hi.
  destruct (Ascii.eqb_spec a "-"); [done|]. destruct (NilZero.uint_of_string _); [|done]. injection Hi as <-. cbn. unfold Z.of_uint. lia.
Qed.

#[export] Instance z_to_string_inj : Inj (=) (=) z_to_string.
Proof.
  intros x y H. apply (f_equal string_to_z) in H. rewrite !string_to_z_to_string in H. by injection H.
Qed.

(** The characters of a printed integer: digits and the minus sign. *)
Definition is_num_char (a : ascii) : bool :=
  let n := N_of_ascii a in ((48 <=? n) && (n <=? 57))%N || (n =? 45)%N.

Fixpoint string_forallb (p : ascii -> bool) (s : string) : bool :=
  match s with EmptyString => true | String a s' => p a && string_forallb p s' end.

Lemma uint_num_chars d : string_forallb is_num_char (NilEmpty.string_of_uint d) = true.
Proof. induction d; cbn; done. Qed.

Lemma z_to_string_num_chars z : string_forallb is_num_char (z_to_string z) = true.
Proof.
  unfold z_to_string, NilZero.string_of_int.
  destruct (Z.to_int z) as [d|d]; cbn; unfold NilZero.string_of_uint;
    destruct d; try done; apply (uint_num_chars (_ _)).
Qed.

Lemma z_to_string_nonempty z : exists a s, z_to_string z = String a s /\ is_num_char a = true.
Proof.
  pose proof (z_to_string_num_chars z) as H.
  destruct (z_to_string z) as [|a s] eqn:E.
  - unfold z_to_string, NilZero.string_of_int in E.
    destruct (Z.to_int z) as [d|d]; [|done]. by destruct d.
  - cbn in H. apply andb_true_iff in H as [H _]. eauto.
Qed.

(** Splitting a string at the longest prefix satisfying [p]. *)
Lemma string_span_eq p a b r1 r2 :
  string_forallb p a = true -> string_forallb p b = true ->
  (forall x s, r1 = String x s -> p x = false) ->
  (forall x s, r2 = String x s -> p x = false) ->
  a +:+ r1 = b +:+ r2 -> a = b /\ r1 = r2.
Proof.
  revert b. induction a as [|x a IH]; intros [|y b]; cbn; intros Ha Hb H1 H2 E.
  - done.
  - apply andb_true_iff in Hb as [Hy _]. by rewrite (H1 _ _ E) in Hy.
  - apply andb_true_iff in Ha as [Hx _]. by rewrite (H2 _ _ (eq_sym E)) in Hx.
  - apply andb_true_iff in Ha as [_ Ha]. apply andb_true_iff in Hb as [_ Hb].
    injection E as -> E. by destruct (IH b Ha Hb H1 H2 E) as [-> ->].
Qed.

(** ** Lists *)

Lemma filter_all {A} (P : A -> Prop) `{!forall x, Decision (P x)} (l : list A) :
  (forall x, x ∈ l -> P x) -> filter P l = l.
Proof.
  induction l as [|x l IH]; intros Hall; [done|].
  rewrite filter_cons_True by (apply Hall; left).
  f_equal. apply IH. intros y Hy. apply Hall. by right.
Qed.

Lemma existsb_perm {A} (p : A -> bool) (l1 l2 : list A) :
  l1 ≡ₚ l2 -> existsb p l1 = existsb p l2.
Proof.
  induction 1 as [|x l1 l2 _ IH|x y l|l1 l2 l3 _ IH1 _ IH2]; cbn; try congruence.
  by destruct (p x), (p y).
Qed.

Lemma existsb_map {A B} (p : B -> bool) (f : A -> B) (l : list A) :
  existsb p (map f l) = existsb (fun x => p (f x)) l.
Proof. induction l; cbn; congruence. Qed.

Lemma map_inj_on {A B} (g : A -> B) (l1 l2 : list A) :
  (forall x y, x ∈ l1 -> y ∈ l2 -> g x = g y -> x = y) -> map g l1 = map g l2 -> l1 = l2.
Proof.
  revert l2. induction l1 as [|x l1 IH]; intros [|y l2] Hg; cbn; try done.
  intros [= Exy El]. f_equal.
  - apply Hg; [left..|done].
  - apply IH; [|done]. intros x' y' ? ?. apply Hg; by right.
Qed.

Lemma Forall2_elem_l {A B} (R : A -> B -> Prop) l1 l2 x :
  Forall2 R l1 l2 -> x ∈ l1 -> exists y, y ∈ l2 /\ R x y.
Proof.
  induction 1 as [|x' y' l1 l2 HR _ IH]; intros Hx; [by apply elem_of_nil in Hx|].
  apply elem_of_cons in Hx as [->|Hx]; [exists y'; split; [left|done]|].
  destruct (IH Hx) as (y & ? & ?). exists y. split; [by right|done].
Qed.

(** ** Deciding validity *)

Definition is_scalarb (c : N) : bool := ((c <? 0xD800) || ((0xE000 <=? c) && (c <=? 0x10FFFF)))%N.

Definition valid_utf8b (s : string) : bool :=
  forallb is_scalarb (chars s) && String.eqb (of_chars (chars s)) s.

Lemma valid_utf8b_sound s : valid_utf8b s = true -> valid_utf8 s.
Proof.
  unfold valid_utf8b. rewrite andb_true_iff, forallb_forall, String.eqb_eq. intros [H1 H2].
  exists (chars s). split; [|done]. apply Forall_forall. intros c Hc.
  apply list_elem_of_In, H1 in Hc. unfold is_scalarb in Hc. unfold is_scalar.
  rewrite orb_true_iff, andb_true_iff, N.ltb_lt, !N.leb_le in Hc. lia.
Qed.

Lemma valid_utf8b_complete s : valid_utf8 s -> valid_utf8b s = true.
Proof.
  intros Hv. unfold valid_utf8b. rewrite of_chars_chars, String.eqb_refl, andb_true_r by done.
  apply forallb_forall. intros c Hc%list_elem_of_In.
  pose proof (chars_scalar s Hv) as HF. rewrite Forall_forall in HF. apply HF in Hc.
  unfold is_scalar in Hc. unfold is_scalarb.
  rewrite orb_true_iff, andb_true_iff, N.ltb_lt, !N.leb_le. lia.
Qed.

Definition is_ascii (a : ascii) : bool := (N_of_ascii a <? 128)%N.

Lemma string_forallb_app p a b : string_forallb p (a +:+ b) = string_forallb p a && string_forallb p b.
Proof. induction a as [|c a IH]; cbn; [done|]. by rewrite IH, andb_assoc. Qed.

Lemma string_forallb_impl (p q : ascii -> bool) s :
  (forall a, p a = true -> q a = true) -> string_forallb p s = true -> string_forallb q s = true.
Proof.
  intros Hpq. induction s as [|a s IH]; cbn; [done|]. rewrite !andb_true_iff. intros [??]; auto.
Qed.

Lemma ascii_valid_utf8 s : string_forallb is_ascii s = true -> valid_utf8 s.
Proof.
  induction s as [|a s IH]; [intros _; by apply valid_utf8b_sound|].
  cbn. rewrite andb_true_iff. unfold is_ascii. intros [Ha%N.ltb_lt Hs].
  destruct (IH Hs) as (cs & Hcs & ->). exists (N_of_ascii a :: cs). split.
  - constructor; [unfold is_scalar; lia|done].
  - cbn. unfold encode_utf8. destruct (N.ltb_spec (N_of_ascii a) 0x80); [|lia].
    cbn. unfold byte. by rewrite ascii_N_embedding.
Qed.

Lemma ascii_valid_utf8b s : string_forallb is_ascii s = true -> valid_utf8b s = true.
Proof. intros. by apply valid_utf8b_complete, ascii_valid_utf8. Qed.

Lemma num_char_ascii a : is_num_char a = true -> is_ascii a = true.
Proof. by destruct a as [[] [] [] [] [] [] [] []]. Qed.

Lemma z_to_string_valid z : valid_utf8 (z_to_string z).
Proof. apply ascii_valid_utf8. apply (string_forallb_impl _ _ _ num_char_ascii (z_to_string_num_chars z)). Qed.

(** A pigeonhole principle: a list longer than its set of images under [f] has
    two positions with the same image. *)
Lemma not_NoDup_map {A B} `{EqDecision B} (f : A -> B) l :
  ~ NoDup (map f l) -> exists l1 a l2 b l3, l = l1 ++ a :: l2 ++ b :: l3 /\ f a = f b.
Proof.
  induction l as [|a l IH]; cbn; intros Hn; [by destruct Hn; constructor|].
  destruct (decide (f a ∈ map f l)) as [(b & E & Hb)%list_elem_of_fmap|Hin].
  - apply list_elem_of_split in Hb as (l2 & l3 & ->). by exists [], a, l2, b, l3.
  - destruct IH as (l1 & x & l2 & y & l3 & -> & E); [intros ?; apply Hn; by constructor|].
    by exists (a :: l1), x, l2, y, l3.
Qed.

Lemma pigeonhole {A B} `{EqDecision B} (f : A -> B) (l : list A) (bs : list B) :
  (forall a, a ∈ l -> f a ∈ bs) -> (length bs < length l)%nat ->
  exists l1 a l2 b l3, l = l1 ++ a :: l2 ++ b :: l3 /\ f a = f b.
Proof.
  intros Hin Hlen. apply not_NoDup_map. intros Hnd.
  assert (Hs : map f l ⊆+ bs).
  { apply NoDup_submseteq; [done|]. intros b (a & -> & Ha)%list_elem_of_fmap. auto. }
  apply submseteq_length in Hs. rewrite length_map in Hs. lia.
Qed.

Lemma NoDup_map_inj {A B} (f : A -> B) l x y :
  NoDup (map f l) -> x ∈ l -> y ∈ l -> f x = f y -> x = y.
Proof.
  induction l as [|a l IH]; cbn; intros Hnd Hx Hy E; [by apply elem_of_nil in Hx|].
  apply NoDup_cons in Hnd as [Ha Hl]. apply elem_of_cons in Hx as [->|Hx], Hy as [->|Hy]; auto.
  - destruct Ha. rewrite E. by apply list_elem_of_fmap_2.
  - destruct Ha. rewrite <- E. by apply list_elem_of_fmap_2.
Qed.

Lemma triple_eta {A B C} (x : A * B * C) a : x.1.1 = a -> x = (a, x.1.2, x.2).
Proof. destruct x as [[??]?]. cbn. by intros ->. Qed.

(** ** White space *)

(** [str::trim] removes the characters of the Unicode property White_Space. *)
Definition char_is_whitespace (c : N) : bool :=
  ((9 <=? c) && (c <=? 13) || (c =? 32) || (c =? 0x85) || (c =? 0xA0) || (c =? 0x1680)
   || (0x2000 <=? c) && (c <=? 0x200A) || (c =? 0x2028) || (c =? 0x2029) || (c =? 0x202F)
   || (c =? 0x205F) || (c =? 0x3000))%N.

(** [text.trim().is_empty()] *)
Definition is_blank (text : string) : bool := forallb char_is_whitespace (chars text).

Fixpoint trim_front (l : list N) : list N :=
  match l with
  | c :: l' => if char_is_whitespace c then trim_front l' else l
  | [] => []
  end.

Definition str_trim (s : string) : string :=
  of_chars (rev (trim_front (rev (trim_front (chars s))))).

(** [str::to_ascii_lowercase] and [char::to_ascii_lowercase] *)
Definition ascii_to_lowercase (a : ascii) : ascii :=
  let n := N_of_ascii a in if ((65 <=? n) && (n <=? 90))%N then ascii_of_N (n + 32) else a.

Fixpoint to_ascii_lowercase (s : string) : string :=
  match s with EmptyString => "" | String a s' => String (ascii_to_lowercase a) (to_ascii_lowercase s') end.
