(* ===== verification/StrOps.v ===== *)
(** * String and byte operations of the Rust standard library

    The operations the middleware and the service perform on [str] and on byte
    slices: search, prefixes and suffixes, splitting, lossy decoding. *)
From S2P Require Import Prelude.

Definition starts_with (prefix s : string) : bool := String.prefix prefix s.

(** The bytes from position [n] on. *)
Fixpoint str_drop (n : nat) (s : string) : string :=
  match n, s with
  | O, _ => s
  | S n, String _ s => str_drop n s
  | S _, EmptyString => ""
  end.

Fixpoint str_take (n : nat) (s : string) : string :=
  match n, s with
  | S n, String c s => String c (str_take n s)
  | _, _ => ""
  end.

Definition strip_prefix (prefix s : string) : option string :=
  if starts_with prefix s then Some (str_drop (String.length prefix) s) else None.

Definition ends_with (suffix s : string) : bool :=
  (Nat.leb (String.length suffix) (String.length s))
  && String.eqb (str_drop (String.length s - String.length suffix) s) suffix.

(** [find]: the position of the first occurrence. *)
Fixpoint find_sub (needle s : string) : option nat :=
  if starts_with needle s then Some O
  else match s with EmptyString => None | String _ s => S <$> find_sub needle s end.

Definition contains (needle s : string) : bool :=
  match find_sub needle s with Some _ => true | None => false end.

(** The longest prefix of bytes that satisfy [p]. *)
Fixpoint take_while (p : ascii -> bool) (s : string) : string :=
  match s with
  | String c s => if p c then String c (take_while p s) else ""
  | EmptyString => ""
  end.

Fixpoint drop_while (p : ascii -> bool) (s : string) : string :=
  match s with
  | String c s' => if p c then drop_while p s' else s
  | EmptyString => ""
  end.

(** [split] by a predicate on single bytes. *)
Fixpoint split_by (p : ascii -> bool) (s : string) : list string :=
  match s with
  | EmptyString => [""]
  | String c s =>
      if p c then "" :: split_by p s
      else match split_by p s with [] => [String c ""] | l :: ls => String c l :: ls end
  end.

Definition is_ascii_alphanumeric (c : ascii) : bool :=
  let n := N_of_ascii c in
  ((48 <=? n) && (n <=? 57) || (65 <=? n) && (n <=? 90) || (97 <=? n) && (n <=? 122))%N.

Fixpoint str_join (sep : string) (l : list string) : string :=
  match l with [] => "" | [s] => s | s :: l => s +:+ sep +:+ str_join sep l end.

Definition eq_ignore_ascii_case (a b : string) : bool := String.eqb (to_ascii_lowercase a) (to_ascii_lowercase b).

(** ** [String::from_utf8_lossy] *)

Definition replacement : string := encode_utf8 0xFFFD.

(** The width a first byte announces and the range of the byte after it. *)
Definition utf8_lead (b : N) : option (nat * N * N) :=
  (if (0xC2 <=? b) && (b <=? 0xDF) then Some (2%nat, 0x80, 0xBF)
   else if b =? 0xE0 then Some (3%nat, 0xA0, 0xBF)
   else if b =? 0xED then Some (3%nat, 0x80, 0x9F)
   else if (0xE1 <=? b) && (b <=? 0xEF) then Some (3%nat, 0x80, 0xBF)
   else if b =? 0xF0 then Some (4%nat, 0x90, 0xBF)
   else if (0xF1 <=? b) && (b <=? 0xF3) then Some (4%nat, 0x80, 0xBF)
   else if b =? 0xF4 then Some (4%nat, 0x80, 0x8F)
   else None)%N.

Definition in_range (lo hi : N) (a : ascii) : bool := ((lo <=? N_of_ascii a) && (N_of_ascii a <=? hi))%N.
Definition is_cont : ascii -> bool := in_range 0x80 0xBF.

(** Each longest run of bytes that starts a character but does not complete it
    becomes one replacement character. *)
Fixpoint from_utf8_lossy (s : string) : string :=
  match s with
  | EmptyString => ""
  | String a s1 =>
      if is_ascii a then String a (from_utf8_lossy s1)
      else
        match utf8_lead (N_of_ascii a), s1 with
        | None, _ => replacement +:+ from_utf8_lossy s1
        | Some _, EmptyString => replacement
        | Some (w, lo, hi), String b s2 =>
            if negb (in_range lo hi b) then replacement +:+ from_utf8_lossy s1
            else if Nat.eqb w 2 then String a (String b (from_utf8_lossy s2))
            else
              match s2 with
              | EmptyString => replacement
              | String c s3 =>
                  if negb (is_cont c) then replacement +:+ from_utf8_lossy s2
                  else if Nat.eqb w 3 then String a (String b (String c (from_utf8_lossy s3)))
                  else
                    match s3 with
                    | EmptyString => replacement
                    | String d s4 =>
                        if negb (is_cont d) then replacement +:+ from_utf8_lossy s3
                        else String a (String b (String c (String d (from_utf8_lossy s4))))
                    end
              end
        end
  end.

(** [i64] arithmetic of a release build wraps. *)
Definition i64_wrap (x : Z) : Z := (x + 2 ^ 63) mod 2 ^ 64 - 2 ^ 63.
Definition i64_add (x y : Z) : Z := i64_wrap (x + y).
Definition i64_sub (x y : Z) : Z := i64_wrap (x - y).

Lemma i64_wrap_small x : i64_min <= x <= i64_max -> i64_wrap x = x.
Proof. unfold i64_min, i64_max, i64_wrap. intros. rewrite Z.mod_small; lia. Qed.

(** ** Lemmas *)

Lemma starts_with_app p s : starts_with p (p +:+ s) = true.
Proof. induction p; cbn; [by destruct s|]. by rewrite (proj2 (Ascii.eqb_eq _ _)) || (case_match; done). Qed.

Lemma starts_with_spec p s : starts_with p s = true <-> exists r, s = p +:+ r.
Proof.
  unfold starts_with. split.
  - revert s. induction p as [|c p IH]; intros s Hp; [by exists s|].
    destruct s as [|d s]; [done|]. cbn in Hp. destruct (ascii_dec c d) as [->|]; [|done].
    destruct (IH _ Hp) as [r ->]. by exists r.
  - intros [r ->]. apply starts_with_app.
Qed.

Lemma str_drop_app a b : str_drop (String.length a) (a +:+ b) = b.
Proof. induction a; cbn; auto. Qed.

Lemma str_take_app a b : str_take (String.length a) (a +:+ b) = a.
Proof. induction a as [|c a IH]; cbn; [by destruct b|]. by rewrite IH. Qed.

Lemma str_take_drop n s : str_take n s +:+ str_drop n s = s.
Proof. revert s. induction n as [|n IH]; intros [|c s]; cbn; [done..|]. by rewrite IH. Qed.

Lemma strip_prefix_Some p s r : strip_prefix p s = Some r <-> s = p +:+ r.
Proof.
  unfold strip_prefix. destruct (starts_with p s) eqn:E.
  - apply starts_with_spec in E as [r' ->]. rewrite str_drop_app. split; [by intros [= ->]|].
    by intros ->%string_app_inv_head.
  - split; [done|]. intros ->. by rewrite starts_with_app in E.
Qed.

(** A match splits the string around the first occurrence. *)
Lemma find_sub_Some needle s n :
  find_sub needle s = Some n -> s = str_take n s +:+ needle +:+ str_drop (n + String.length needle) s.
Proof.
  revert n. induction s as [|c s IH]; intros n; cbn [find_sub].
  - destruct (starts_with needle "") eqn:E; [|done]. intros [= <-].
    apply starts_with_spec in E as [r E]. destruct needle; [done|discriminate].
  - destruct (starts_with needle (String c s)) eqn:E.
    + intros [= <-]. apply starts_with_spec in E as [r ->]. cbn. by rewrite str_drop_app.
    + intros (m & Hm & ->)%fmap_Some. specialize (IH _ Hm). cbn. by rewrite <- IH.
Qed.

Lemma contains_spec needle s : contains needle s = true <-> exists a b, s = a +:+ needle +:+ b.
Proof.
  unfold contains. split.
  - destruct (find_sub needle s) as [n|] eqn:E; [|done]. intros _. apply find_sub_Some in E. eauto.
  - intros (a & b & ->). induction a as [|c a IH].
    + cbn [String.append]. pose proof (starts_with_app needle b) as E.
      destruct (needle +:+ b); cbn [find_sub]; by rewrite E.
    + cbn [String.append find_sub]. destruct (starts_with needle (String c (a +:+ needle +:+ b))) ; [done|].
      by destruct (find_sub needle (a +:+ needle +:+ b)).
Qed.

(** A token of a split has no separator in it. *)
Lemma split_by_tokens p s t : t ∈ split_by p s -> string_forallb (fun c => negb (p c)) t = true.
Proof.
  revert t. induction s as [|c s IH]; cbn; intros t.
  - by intros ->%list_elem_of_singleton.
  - destruct (p c) eqn:Hp.
    + intros [->|Ht]%elem_of_cons; auto.
    + destruct (split_by p s) as [|l ls] eqn:E.
      * intros ->%list_elem_of_singleton. cbn. by rewrite Hp.
      * intros [->|Ht]%elem_of_cons; [cbn; rewrite Hp; apply IH; left|apply IH; by right].
Qed.

(** ** Lossy decoding leaves text alone *)

Ltac lead_cases :=
  unfold utf8_lead, in_range, is_cont;
  repeat match goal with
         | |- context [(?x <=? ?y)%N] => destruct (N.leb_spec x y); [try (exfalso; lia)|try (exfalso; lia)]
         | |- context [(?x =? ?y)%N] => destruct (N.eqb_spec x y); [try (exfalso; lia)|try (exfalso; lia)]
         end.

(** The bytes of a character of two, three and four bytes pass the checks. *)
Lemma lead2 b0 : (0xC2 <= b0 <= 0xDF)%N -> utf8_lead b0 = Some (2%nat, 0x80%N, 0xBF%N).
Proof. intros. lead_cases. done. Qed.

Lemma lead3 b0 b1 :
  (0xE0 <= b0 <= 0xEF)%N -> (0x80 <= b1 <= 0xBF)%N -> (b0 = 0xE0 -> 0xA0 <= b1)%N -> (b0 = 0xED -> b1 <= 0x9F)%N ->
  exists lo hi, utf8_lead b0 = Some (3%nat, lo, hi) /\ ((lo <=? b1) && (b1 <=? hi))%N = true.
Proof. intros. lead_cases; eexists _, _; (split; [reflexivity|rewrite andb_true_iff, !N.leb_le; lia]). Qed.

Lemma lead4 b0 b1 :
  (0xF0 <= b0 <= 0xF4)%N -> (0x80 <= b1 <= 0xBF)%N -> (b0 = 0xF0 -> 0x90 <= b1)%N -> (b0 = 0xF4 -> b1 <= 0x8F)%N ->
  exists lo hi, utf8_lead b0 = Some (4%nat, lo, hi) /\ ((lo <=? b1) && (b1 <=? hi))%N = true.
Proof. intros. lead_cases; eexists _, _; (split; [reflexivity|rewrite andb_true_iff, !N.leb_le; lia]). Qed.

Lemma not_ascii b : (0x80 <= b)%N -> (b <? 128)%N = false.
Proof. intros. by apply N.ltb_ge. Qed.

Lemma cont_range x : ((0x80 <=? 0x80 + x mod 64) && (0x80 + x mod 64 <=? 0xBF))%N = true.
Proof. rewrite andb_true_iff, !N.leb_le. lia. Qed.

Lemma from_utf8_lossy_char c s : is_scalar c -> from_utf8_lossy (encode_utf8 c +:+ s) = encode_utf8 c +:+ from_utf8_lossy s.
Proof.
  intros Hc. unfold is_scalar in Hc. unfold encode_utf8, byte.
  destruct (N.ltb_spec c 0x80); [|destruct (N.ltb_spec c 0x800); [|destruct (N.ltb_spec c 0x10000)]];
    cbn [String.append from_utf8_lossy]; unfold is_ascii, is_cont, in_range; rewrite !N_ascii_embedding by lia.
  - destruct (N.ltb_spec c 128); [done|lia].
  - rewrite not_ascii, lead2, cont_range by lia. done.
  - rewrite not_ascii by lia. destruct (lead3 (0xE0 + c / 4096) (0x80 + (c / 64) mod 64)) as (lo & hi & -> & ->); [lia..|].
    rewrite cont_range. done.
  - rewrite not_ascii by lia. destruct (lead4 (0xF0 + c / 262144) (0x80 + (c / 4096) mod 64)) as (lo & hi & -> & ->); [lia..|].
    rewrite !cont_range. done.
Qed.

Lemma from_utf8_lossy_valid s : valid_utf8 s -> from_utf8_lossy s = s.
Proof.
  intros (cs & Hcs & ->). induction Hcs as [|c cs Hc _ IH]; [done|]. cbn [of_chars].
  by rewrite from_utf8_lossy_char, IH.
Qed.
