(* ===== verification/Json.v ===== *)
(** * JSON values

    The data model the gateway works on: [serde_json::Value] with the
    [preserve_order] feature, so an object is a list of entries in insertion
    order with distinct keys.  [serde_json] is a dependency: what is modelled is
    the data type and the documented behaviour of the accessors the sources
    call; its parser and printer stay parameters of the components that call
    them. *)
From Stdlib Require Export SpecFloat.
From S2P Require Import Prelude.

(** A [Number] is an unsigned integer, a negative integer or a finite [f64]. *)
Inductive Number : Type :=
| PosInt (u : Z)
| NegInt (i : Z)
| Float (f : spec_float).

#[local] Unset Elimination Schemes.
Inductive Value : Type :=
| Null
| Bool (b : bool)
| Num (n : Number)
| Str (s : string)
| Arr (l : list Value)
| Obj (m : list (string * Value)).
#[local] Set Elimination Schemes.

(** Structural induction with the hypothesis for every nested value. *)
Lemma Value_ind (P : Value -> Prop)
  (Hnull : P Null) (Hbool : forall b, P (Bool b)) (Hnum : forall n, P (Num n))
  (Hstr : forall s, P (Str s)) (Harr : forall l, Forall P l -> P (Arr l))
  (Hobj : forall m, Forall (fun kv => P kv.2) m -> P (Obj m)) :
  forall v, P v.
Proof.
  fix IH 1. intros [ | | | |l|m]; [done..| |].
  - apply Harr. induction l as [|x l IHl]; constructor; [apply IH|apply IHl].
  - apply Hobj. induction m as [|[k x] m IHm]; constructor; [apply IH|apply IHm].
Qed.

(** The object notation of the [json!] macro. *)
Declare Scope json_scope.
Notation "k ≔ v" := (k, v) (at level 60, only parsing) : json_scope.
Notation "'{{' x ; .. ; y '}}'" := (Obj (cons x .. (cons y nil) ..))
  (at level 0, only parsing) : json_scope.
Notation "'{{' '}}'" := (Obj nil) (at level 0, only parsing) : json_scope.
Open Scope json_scope.

(** ** Object entries: [serde_json::Map] *)

Section Map.
Context {A : Type}.

Fixpoint map_get (k : string) (m : list (string * A)) : option A :=
  match m with
  | [] => None
  | (k', v) :: m' => if String.eqb k k' then Some v else map_get k m'
  end.

(** An existing key keeps its place. *)
Fixpoint map_insert (k : string) (v : A) (m : list (string * A)) : list (string * A) :=
  match m with
  | [] => [(k, v)]
  | (k', v') :: m' => if String.eqb k k' then (k', v) :: m' else (k', v') :: map_insert k v m'
  end.

Definition map_keys (m : list (string * A)) : list string := map fst m.

(** [Map::remove] is [swap_remove]: the last entry takes the freed place. *)
Fixpoint map_remove_at (k : string) (m : list (string * A)) : option nat :=
  match m with
  | [] => None
  | (k', _) :: m' => if String.eqb k k' then Some O else S <$> map_remove_at k m'
  end.

Definition map_remove (k : string) (m : list (string * A)) : list (string * A) :=
  match map_remove_at k m with
  | None => m
  | Some i =>
      match last m with
      | None => m
      | Some e =>
          if decide (S i = length m) then removelast m
          else removelast (<[i := e]> m)
      end
  end.

Lemma map_get_elem k v m : NoDup (map_keys m) -> (k, v) ∈ m -> map_get k m = Some v.
Proof.
  induction m as [|[k' v'] m IH]; cbn; [by intros _ ?%elem_of_nil|].
  intros [Hk Hm]%NoDup_cons [[= -> ->]|Hin]%elem_of_cons.
  - by rewrite String.eqb_refl.
  - destruct (String.eqb_spec k k') as [->|]; [|by apply IH].
    exfalso. apply Hk. apply list_elem_of_fmap. by exists (k', v).
Qed.

Lemma map_get_Some k v m : map_get k m = Some v -> (k, v) ∈ m.
Proof.
  induction m as [|[k' v'] m IH]; cbn; [done|].
  destruct (String.eqb_spec k k') as [->|].
  - intros [= ->]. apply elem_of_cons; auto.
  - intros ?%IH. apply elem_of_cons; auto.
Qed.

Lemma map_get_None k m : map_get k m = None <-> k ∉ map_keys m.
Proof.
  induction m as [|[k' v'] m IH]; cbn; [split; [by intros _ ?%elem_of_nil|done]|].
  rewrite not_elem_of_cons. destruct (String.eqb_spec k k') as [|Hne].
  - split; [done|]. by intros [? _].
  - rewrite IH. tauto.
Qed.

Lemma map_get_is_Some k m : is_Some (map_get k m) <-> k ∈ map_keys m.
Proof.
  rewrite <- not_eq_None_Some, map_get_None. split; [|tauto]. by intros ?%dec_stable.
Qed.

Lemma map_get_insert k k' v m :
  map_get k' (map_insert k v m) = if String.eqb k' k then Some v else map_get k' m.
Proof.
  induction m as [|[k0 v0] m IH]; cbn; [done|].
  destruct (String.eqb_spec k k0) as [->|Hne]; cbn.
  - by destruct (String.eqb_spec k' k0).
  - destruct (String.eqb_spec k' k0) as [->|]; [|done].
    by destruct (String.eqb_spec k0 k) as [->|].
Qed.

Lemma map_keys_insert k v m :
  map_keys (map_insert k v m) = if decide (k ∈ map_keys m) then map_keys m else map_keys m ++ [k].
Proof.
  unfold map_keys.
  induction m as [|[k0 v0] m IH]; cbn; [done|].
  destruct (String.eqb_spec k k0) as [->|Hne]; cbn.
  - rewrite decide_True; [done|apply elem_of_cons; auto].
  - rewrite IH. repeat case_decide; set_solver.
Qed.

Lemma map_insert_nodup k v m : NoDup (map_keys m) -> NoDup (map_keys (map_insert k v m)).
Proof.
  intros H. rewrite map_keys_insert. case_decide; [done|].
  apply NoDup_app. repeat split; [done| |apply NoDup_singleton].
  intros x Hx ->%list_elem_of_singleton. done.
Qed.

Lemma map_insert_elem k v m e :
  e ∈ map_insert k v m -> e = (k, v) \/ e ∈ m.
Proof.
  induction m as [|[k0 v0] m IH]; cbn; [intros ->%list_elem_of_singleton; auto|].
  destruct (String.eqb_spec k k0) as [->|Hne]; rewrite !elem_of_cons; naive_solver.
Qed.
End Map.

(** Order-insensitive equality of two maps, as [IndexMap] compares them. *)
Lemma map_get_perm {A} (m1 m2 : list (string * A)) k :
  NoDup (map_keys m1) -> m1 ≡ₚ m2 -> map_get k m1 = map_get k m2.
Proof.
  intros Hnd Hp.
  assert (Hnd2 : NoDup (map_keys m2)) by (unfold map_keys; by rewrite <- Hp).
  destruct (map_get k m1) as [v|] eqn:E.
  - symmetry. apply map_get_elem; [done|]. rewrite <- Hp. by apply map_get_Some.
  - symmetry. apply map_get_None. apply map_get_None in E. unfold map_keys. by rewrite <- Hp.
Qed.

(** [map_remove] drops exactly the entry of its key, up to order. *)
Lemma map_remove_perm {A} k (m : list (string * A)) :
  NoDup (map_keys m) ->
  map_remove k m ≡ₚ filter (fun kv => kv.1 <> k) m.
Proof.
  intros Hnd. unfold map_remove.
  assert (Hat : match map_remove_at k m with
                | None => Forall (fun kv => kv.1 <> k) m
                | Some i => exists l1 v l2, m = l1 ++ (k, v) :: l2 /\ length l1 = i
                end).
  { clear Hnd. induction m as [|[k' v'] m IH]; cbn; [done|].
    destruct (String.eqb_spec k k') as [->|Hne]; [by exists [], v', m|].
    destruct (map_remove_at k m) as [i|]; cbn.
    - destruct IH as (l1 & v & l2 & -> & <-). by exists ((k', v') :: l1), v, l2.
    - constructor; [cbn; congruence|done]. }
  destruct (map_remove_at k m) as [i|].
  2: { rewrite filter_all; [done|]. by apply Forall_forall. }
  destruct Hat as (l1 & v & l2 & -> & <-).
  assert (Hf : filter (fun kv : string * A => kv.1 <> k) (l1 ++ (k, v) :: l2) = l1 ++ l2).
  { unfold map_keys in Hnd. rewrite map_app in Hnd. cbn in Hnd.
    apply NoDup_app in Hnd as (_ & Hd & [Hk2 _]%NoDup_cons).
    rewrite filter_app, filter_cons_False by (cbn; tauto).
    rewrite !filter_all; [done| |]; intros x Hx Hxk.
    - apply Hk2. rewrite <- Hxk. by apply list_elem_of_fmap_2.
    - apply (Hd x.1); [by apply list_elem_of_fmap_2|]. rewrite Hxk. left. }
  rewrite Hf. destruct l2 as [|e l2 _] using rev_ind.
  - rewrite last_app; cbn. rewrite decide_True by (rewrite length_app; cbn; lia).
    by rewrite removelast_last, app_nil_r.
  - rewrite app_comm_cons, app_assoc, last_snoc, decide_False.
    2: { rewrite !length_app; cbn; rewrite ?length_app; cbn; lia. }
    rewrite insert_app_l by (rewrite length_app; cbn; lia).
    rewrite removelast_last, insert_app_r_alt by lia. rewrite Nat.sub_diag. cbn.
    apply Permutation_app_head, Permutation_cons_append.
Qed.

(** ** Accessors of [Value] *)

Definition get (v : Value) (k : string) : option Value :=
  match v with Obj m => map_get k m | _ => None end.

Definition as_str (v : Value) : option string :=
  match v with Str s => Some s | _ => None end.

Definition as_array (v : Value) : option (list Value) :=
  match v with Arr l => Some l | _ => None end.

Definition as_bool (v : Value) : option bool :=
  match v with Bool b => Some b | _ => None end.

Definition num_as_i64 (n : Number) : option Z :=
  match n with
  | PosInt u => if u <=? i64_max then Some u else None
  | NegInt i => Some i
  | Float _ => None
  end.

Definition num_as_u64 (n : Number) : option Z :=
  match n with PosInt u => Some u | _ => None end.

Definition as_i64 (v : Value) : option Z :=
  match v with Num n => num_as_i64 n | _ => None end.

(** [Value::from] for the integer types. *)
Definition from_u64 (x : Z) : Value := Num (PosInt x).
Definition from_i64 (x : Z) : Value := Num (if x <? 0 then NegInt x else PosInt x).

(** [json!] of an optional string: [None] is [null]. *)
Definition from_opt_str (o : option string) : Value :=
  match o with Some s => Str s | None => Null end.

(** ** Equality: [Value]'s [PartialEq] *)

Definition number_eqb (a b : Number) : bool :=
  match a, b with
  | PosInt x, PosInt y => x =? y
  | NegInt x, NegInt y => x =? y
  | Float x, Float y => SFeqb x y
  | _, _ => false
  end.

(** Arrays compare in order, objects by key whatever the order. *)
Fixpoint value_eqb (a b : Value) {struct a} : bool :=
  match a, b with
  | Null, Null => true
  | Bool x, Bool y => Bool.eqb x y
  | Num x, Num y => number_eqb x y
  | Str x, Str y => String.eqb x y
  | Arr l1, Arr l2 =>
      (fix go (l1 l2 : list Value) : bool :=
         match l1, l2 with
         | [], [] => true
         | x :: l1', y :: l2' => value_eqb x y && go l1' l2'
         | _, _ => false
         end) l1 l2
  | Obj m1, Obj m2 =>
      Nat.eqb (length m1) (length m2) &&
      (fix go (m1 : list (string * Value)) : bool :=
         match m1 with
         | [] => true
         | (k, v) :: m1' =>
             match map_get k m2 with Some v' => value_eqb v v' | None => false end && go m1'
         end) m1
  | _, _ => false
  end.

Lemma value_eqb_Arr l1 l2 :
  value_eqb (Arr l1) (Arr l2) = true <-> Forall2 (fun x y => value_eqb x y = true) l1 l2.
Proof.
  cbn. revert l2. induction l1 as [|x l1 IH]; intros [|y l2]; split; try done; intros H.
  1,2: by inversion H.
  - apply andb_true_iff in H as [? ?]. constructor; [done|by apply IH].
  - inversion H; subst. apply andb_true_iff. split; [done|by apply IH].
Qed.

Lemma value_eqb_Obj m1 m2 :
  value_eqb (Obj m1) (Obj m2) = true <->
  length m1 = length m2 /\
  Forall (fun kv => exists v', map_get kv.1 m2 = Some v' /\ value_eqb kv.2 v' = true) m1.
Proof.
  cbn. rewrite andb_true_iff, Nat.eqb_eq.
  assert (Hgo : forall m1, (fix go (m1 : list (string * Value)) : bool :=
         match m1 with
         | [] => true
         | (k, v) :: m1' =>
             match map_get k m2 with Some v' => value_eqb v v' | None => false end && go m1'
         end) m1 = true <->
    Forall (fun kv => exists v', map_get kv.1 m2 = Some v' /\ value_eqb kv.2 v' = true) m1).
  { clear m1. induction m1 as [|[k v] m1 IH]; [by split|].
    rewrite andb_true_iff, IH, Forall_cons. cbn.
    destruct (map_get k m2) as [v'|]; naive_solver. }
  by rewrite Hgo.
Qed.

(** ** Well-formed values: the invariants of the Rust types *)

Definition wf_number (n : Number) : Prop :=
  match n with
  | PosInt u => is_u64 u
  | NegInt i => i64_min <= i < 0
  | Float f => match f with S754_zero _ | S754_finite _ _ _ => True | _ => False end
  end.

Fixpoint wf_value (v : Value) : Prop :=
  match v with
  | Null | Bool _ => True
  | Num n => wf_number n
  | Str s => valid_utf8 s
  | Arr l =>
      (fix go (l : list Value) : Prop :=
         match l with [] => True | x :: l' => wf_value x /\ go l' end) l
  | Obj m =>
      NoDup (map_keys m) /\
      (fix go (m : list (string * Value)) : Prop :=
         match m with [] => True | (k, x) :: m' => valid_utf8 k /\ wf_value x /\ go m' end) m
  end.

Lemma wf_value_Arr l : wf_value (Arr l) <-> Forall wf_value l.
Proof.
  cbn. induction l as [|x l IH]; [by split|]. by rewrite IH, Forall_cons.
Qed.

Lemma wf_value_Obj m :
  wf_value (Obj m) <->
  NoDup (map_keys m) /\ Forall (fun kv => valid_utf8 kv.1 /\ wf_value kv.2) m.
Proof.
  cbn. f_equiv. induction m as [|[k x] m IH]; [by split|].
  rewrite IH, Forall_cons. cbn. tauto.
Qed.

(** An executable check of well-formedness. *)
Fixpoint wf_valueb (v : Value) : bool :=
  match v with
  | Null | Bool _ => true
  | Num (PosInt u) => (0 <=? u) && (u <=? u64_max)
  | Num (NegInt i) => (i64_min <=? i) && (i <? 0)
  | Num (Float f) => match f with S754_zero _ | S754_finite _ _ _ => true | _ => false end
  | Str s => valid_utf8b s
  | Arr l => forallb wf_valueb l
  | Obj m => bool_decide (NoDup (map_keys m)) && forallb (fun kv => valid_utf8b kv.1 && wf_valueb kv.2) m
  end.

Lemma wf_valueb_sound v : wf_valueb v = true -> wf_value v.
Proof.
  induction v as [|b|n|s|l IH|m IH] using Value_ind; intros H; try done.
  - cbn in *. destruct n as [u|i|[]]; cbn in *; unfold is_u64; try done; lia.
  - by apply valid_utf8b_sound.
  - apply wf_value_Arr. cbn in H. rewrite forallb_forall in H. rewrite Forall_forall in *.
    intros x Hx. apply IH; [done|]. apply H. by apply list_elem_of_In.
  - apply wf_value_Obj. cbn in H. apply andb_true_iff in H as [Hnd H].
    apply bool_decide_eq_true in Hnd. split; [done|].
    rewrite forallb_forall in H. rewrite Forall_forall in *. intros kv Hkv.
    specialize (IH kv Hkv). apply list_elem_of_In, H, andb_true_iff in Hkv as [??].
    split; [by apply valid_utf8b_sound|auto].
Qed.

Lemma wf_valueb_complete v : wf_value v -> wf_valueb v = true.
Proof.
  induction v as [|b|n|s|l IH|m IH] using Value_ind; intros H; try done.
  - cbn in *. destruct n as [u|i|[]]; cbn in *; unfold is_u64 in *; try done; lia.
  - by apply valid_utf8b_complete.
  - apply wf_value_Arr in H. cbn. apply forallb_forall. intros x Hx%list_elem_of_In.
    rewrite Forall_forall in IH, H. auto.
  - apply wf_value_Obj in H as [Hnd H]. cbn. rewrite bool_decide_eq_true_2 by done. cbn.
    apply forallb_forall. intros x Hx%list_elem_of_In. rewrite Forall_forall in IH, H.
    destruct (H x Hx). rewrite valid_utf8b_complete by done. cbn. auto.
Qed.

(** Equal objects agree key by key. *)
Lemma value_eqb_get m1 m2 :
  NoDup (map_keys m1) -> NoDup (map_keys m2) -> value_eqb (Obj m1) (Obj m2) = true ->
  forall k, match map_get k m1, map_get k m2 with
            | Some v1, Some v2 => value_eqb v1 v2 = true
            | None, None => True
            | _, _ => False
            end.
Proof.
  intros Hnd1 Hnd2 [Hlen HF]%value_eqb_Obj k. rewrite Forall_forall in HF.
  destruct (map_get k m1) as [v1|] eqn:E1.
  - apply map_get_Some, HF in E1 as (v2 & E2 & E). cbn in E2. rewrite E2. exact E.
  - destruct (map_get k m2) as [v2|] eqn:E2; [|done]. apply map_get_None in E1. apply E1.
    assert (Hperm : map_keys m1 ≡ₚ map_keys m2).
    { apply submseteq_length_Permutation; [|unfold map_keys; rewrite !length_map; lia].
      apply NoDup_submseteq; [done|]. intros x ([k' v'] & -> & Hin)%list_elem_of_fmap.
      apply HF in Hin as (v'' & Hg & _). apply map_get_is_Some. by rewrite Hg. }
    rewrite Hperm. apply map_get_is_Some. by rewrite E2.
Qed.
