(* ===== verification/Serde.v ===== *)
(** * JSON text

    [serde_json]'s parser and printer, as parameters with the behaviour the
    gateway relies on.  Floats need not survive a round trip digit for digit
    (the [float_roundtrip] feature is off), and the parser refuses texts nested
    deeper than its recursion limit. *)
From S2P Require Import Prelude Json.

Class SerdeJson : Type := {
  from_slice : string -> result string Value;
  to_vec : Value -> result string string;
}.

(** Nesting of containers; the parser's recursion limit of 128 admits 127. *)
Fixpoint depth (v : Value) : nat :=
  match v with
  | Arr l => S (fold_right (fun x acc => Nat.max (depth x) acc) O l)
  | Obj m => S (fold_right (fun kv acc => Nat.max (depth kv.2) acc) O m)
  | _ => O
  end.

Definition MAX_DEPTH : nat := 127.

(** A value with its floats blanked. *)
Fixpoint erase_floats (v : Value) : Value :=
  match v with
  | Num (Float _) => Null
  | Arr l => Arr (map erase_floats l)
  | Obj m => Obj (map (fun kv => (kv.1, erase_floats kv.2)) m)
  | v => v
  end.

Class SerdeJsonLaws `{SerdeJson} : Prop := {
  from_slice_wf t v : from_slice t = Ok v -> wf_value v /\ (depth v <= MAX_DEPTH)%nat;
  to_vec_total v : wf_value v -> exists t, to_vec v = Ok t;
  from_slice_to_vec v t : wf_value v -> (depth v <= MAX_DEPTH)%nat -> to_vec v = Ok t ->
    exists v', from_slice t = Ok v' /\ erase_floats v' = erase_floats v;
  from_slice_empty v : from_slice "" <> Ok v;
  to_vec_utf8 v t : wf_value v -> to_vec v = Ok t -> valid_utf8 t;
}.

(** ** Lemmas *)

Lemma map_get_erase k m :
  map_get k (map (fun kv => (kv.1, erase_floats kv.2)) m) = option_map erase_floats (map_get k m).
Proof. induction m as [|[k' v] m IH]; cbn; [done|]. by destruct (String.eqb k k'). Qed.

(** Two texts of one object agree on their string fields. *)
Lemma erase_floats_get_str v v' k s :
  erase_floats v = erase_floats v' -> get v k = Some (Str s) -> get v' k = Some (Str s).
Proof.
  intros E. destruct v as [| |[]| | |m]; try done. destruct v' as [| |[]| | |m']; try done.
  cbn in E. injection E as E. cbn. intros Hk.
  pose proof (map_get_erase k m) as H1. rewrite E, map_get_erase, Hk in H1. cbn in H1.
  destruct (map_get k m') as [[| |[]| | |]|]; cbn in H1; by simplify_eq.
Qed.

Lemma map_insert_forall {A} (P : string * A -> Prop) k v m :
  Forall P m -> (forall k', String.eqb k k' = true -> P (k', v)) -> Forall P (map_insert k v m).
Proof.
  intros Hm Hv. induction Hm as [|[k' v'] m Hx Hm IH]; cbn.
  - constructor; [apply Hv, String.eqb_refl|constructor].
  - destruct (String.eqb k k') eqn:E; constructor; auto.
Qed.

Lemma wf_value_insert k v m :
  valid_utf8 k -> wf_value v -> wf_value (Obj m) -> wf_value (Obj (map_insert k v m)).
Proof.
  intros Hk Hv. rewrite !wf_value_Obj. intros [Hnd HF]. split; [by apply map_insert_nodup|].
  apply map_insert_forall; [done|]. intros k' Hk'%String.eqb_eq. by subst k'.
Qed.

Lemma depth_insert_leaf k v m :
  depth v = O -> (depth (Obj (map_insert k v m)) <= depth (Obj m))%nat.
Proof.
  intros Hv. cbn. apply le_n_S. induction m as [|[k' v'] m IH]; cbn; [by rewrite Hv|].
  destruct (String.eqb k k'); cbn; [rewrite Hv|]; lia.
Qed.

(** ** A concrete codec, for the witnesses: the number of the value *)

#[export] Instance spec_float_eq_dec : EqDecision spec_float.
Proof. solve_decision. Defined.

#[export] Instance spec_float_countable : Countable spec_float.
Proof.
  refine (inj_countable'
    (fun f => match f with
              | S754_zero s => inl (inl s)
              | S754_infinity s => inl (inr s)
              | S754_nan => inr (inl tt)
              | S754_finite s m e => inr (inr (s, m, e))
              end)
    (fun c => match c with
              | inl (inl s) => S754_zero s
              | inl (inr s) => S754_infinity s
              | inr (inl tt) => S754_nan
              | inr (inr (s, m, e)) => S754_finite s m e
              end) _).
  by intros [].
Defined.

#[export] Instance Number_eq_dec : EqDecision Number.
Proof. solve_decision. Defined.

#[export] Instance Number_countable : Countable Number.
Proof.
  refine (inj_countable' (fun n => match n with PosInt u => inl u | NegInt i => inr (inl i) | Float f => inr (inr f) end)
    (fun c => match c with inl u => PosInt u | inr (inl i) => NegInt i | inr (inr f) => Float f end) _).
  by intros [].
Defined.

(** Leaves of the tree encoding. *)
Definition leaf : Type := (unit + bool + Number + string)%type.

Fixpoint value_tree (v : Value) : gen_tree leaf :=
  match v with
  | Null => GenLeaf (inl (inl (inl tt)))
  | Bool b => GenLeaf (inl (inl (inr b)))
  | Num n => GenLeaf (inl (inr n))
  | Str s => GenLeaf (inr s)
  | Arr l => GenNode 0 (map value_tree l)
  | Obj m => GenNode 1 (map (fun kv => GenNode 2 [GenLeaf (inr kv.1); value_tree kv.2]) m)
  end.

Fixpoint tree_value (t : gen_tree leaf) : Value :=
  match t with
  | GenLeaf (inl (inl (inl tt))) => Null
  | GenLeaf (inl (inl (inr b))) => Bool b
  | GenLeaf (inl (inr n)) => Num n
  | GenLeaf (inr s) => Str s
  | GenNode 0 l => Arr (map tree_value l)
  | GenNode _ l => Obj (map (fun t => match t with
                                      | GenNode _ [GenLeaf (inr k); v] => (k, tree_value v)
                                      | _ => ("", Null)
                                      end) l)
  end.

Lemma tree_value_tree v : tree_value (value_tree v) = v.
Proof.
  induction v as [| | | |l IH|m IH] using Value_ind; cbn; try done.
  - f_equal. rewrite map_map. induction IH as [|x l Hx _ IHl]; cbn; congruence.
  - f_equal. rewrite map_map. induction IH as [|[k x] m Hx _ IHm]; cbn in *; congruence.
Qed.

#[export] Instance Value_eq_dec : EqDecision Value.
Proof.
  refine (fun a b => cast_if (decide (value_tree a = value_tree b))).
  - rewrite <- (tree_value_tree a), <- (tree_value_tree b). by f_equal.
  - congruence.
Defined.

#[export] Instance Value_countable : Countable Value := inj_countable' value_tree tree_value tree_value_tree.

Fixpoint bits (p : positive) : string :=
  match p with xH => "" | xO p => String "0" (bits p) | xI p => String "1" (bits p) end.

Fixpoint of_bits (s : string) : positive :=
  match s with
  | EmptyString => xH
  | String a s => if Ascii.eqb a "0" then xO (of_bits s) else xI (of_bits s)
  end.

Lemma of_bits_bits p : of_bits (bits p) = p.
Proof. induction p as [p IH|p IH|]; cbn; congruence. Qed.

Lemma bits_ascii p : string_forallb is_ascii (bits p) = true.
Proof. by induction p. Qed.

Definition demo_serde : SerdeJson := {|
  to_vec v := Ok (String "#" (bits (encode v)));
  from_slice t :=
    match t with
    | String _ t =>
        match decode (of_bits t) with
        | Some v => if wf_valueb v && Nat.leb (depth v) MAX_DEPTH then Ok v else Err "recursion limit"
        | None => Err "syntax"
        end
    | EmptyString => Err "EOF"
    end |}.

Lemma demo_serde_laws : @SerdeJsonLaws demo_serde.
Proof.
  split.
  - intros [|c t] v; cbn; [done|]. destruct (decode _) as [v'|]; [|done]. destruct (_ && _) eqn:E; [|done].
    intros [= <-]. apply andb_true_iff in E as [Hwf Hd]. split; [by apply wf_valueb_sound|by apply Nat.leb_le].
  - eauto.
  - intros v t Hwf Hd [= <-]. exists v. split; [|done]. cbn. rewrite of_bits_bits, decode_encode.
    rewrite wf_valueb_complete by done. apply Nat.leb_le in Hd. by rewrite Hd.
  - done.
  - intros v t _ [= <-]. apply ascii_valid_utf8. cbn. apply bits_ascii.
Qed.
