(* ===== verification/Canonical.v ===== *)
(** * Canonical JSON

    Model of [src/aci/canonical.rs]: the JCS subset every ACI digest goes
    through.  The output buffer is threaded through the writers as in the
    source.  The main results: the writers only append, the bytes of a value do
    not depend on the insertion order of object keys, and two well-formed values
    have the same canonical bytes exactly when they are equal JSON values. *)
From S2P Require Import Prelude Json.

Inductive CanonicalError : Type :=
| FloatNotAllowed
| NonStringKey
| Serialize (e : string).

(** SHA-256 and hex come from the crates [sha2] and [hex]. *)
Class Digest : Type := {
  sha256 : string -> string;
  hex_encode : string -> string;
}.

Definition dquote : string := String (ascii_of_nat 34) EmptyString.

(** ** Object keys: UTF-16 code unit order *)

Definition encode_utf16 (c : N) : list N :=
  (if c <? 0x10000 then [c]
   else [0xD800 + (c - 0x10000) / 1024; 0xDC00 + (c - 0x10000) mod 1024])%N.

Definition utf16_units (s : string) : list N := flat_map encode_utf16 (chars s).

Definition utf16_compare (a b : string) : comparison :=
  lex_compare N.compare (utf16_units a) (utf16_units b).

(** ** Writers *)

Definition hex_digit (n : N) : ascii :=
  (if n <? 10 then ascii_of_N (48 + n) else ascii_of_N (87 + n))%N.

(** [format!("\\u{:04x}", c as u32)] *)
Definition format_u4 (c : N) : string :=
  ("\u" +:+ String (hex_digit (c / 4096 mod 16)) (String (hex_digit (c / 256 mod 16))
     (String (hex_digit (c / 16 mod 16)) (String (hex_digit (c mod 16)) ""))))%N.

Definition write_char (c : N) : string :=
  (if c =? 0x22 then "\" +:+ dquote
   else if c =? 0x5C then "\\"
   else if c =? 0x08 then "\b"
   else if c =? 0x09 then "\t"
   else if c =? 0x0A then "\n"
   else if c =? 0x0C then "\f"
   else if c =? 0x0D then "\r"
   else if c <? 0x20 then format_u4 c
   else encode_utf8 c)%N.

Fixpoint write_chars (out : string) (cs : list N) : string :=
  match cs with
  | [] => out
  | c :: cs' => write_chars (out +:+ write_char c) cs'
  end.

Definition write_string (out : string) (s : string) : string :=
  write_chars (out +:+ dquote) (chars s) +:+ dquote.

Definition write_number (out : string) (n : Number) : result CanonicalError string :=
  match num_as_i64 n with
  | Some i => Ok (out +:+ z_to_string i)
  | None =>
      match num_as_u64 n with
      | Some u => Ok (out +:+ z_to_string u)
      | None => Err FloatNotAllowed
      end
  end.

(** The loop of the array case: [write] is the writer of an item. *)
Fixpoint write_items (out : string) (i : nat)
    (items : list (string -> result CanonicalError string)) : result CanonicalError string :=
  match items with
  | [] => Ok out
  | write :: items' =>
      out ← write (if Nat.ltb 0 i then out +:+ "," else out);
      write_items out (S i) items'
  end.

(** The loop of [write_object] over the sorted keys; [m] holds the writer of
    each entry's value. *)
Fixpoint write_entries (m : list (string * (string -> result CanonicalError string)))
    (out : string) (i : nat) (keys : list string) : result CanonicalError string :=
  match keys with
  | [] => Ok out
  | key :: keys' =>
      let out := write_string (if Nat.ltb 0 i then out +:+ "," else out) key +:+ ":" in
      write ← ok_or (map_get key m) NonStringKey;
      out ← write out;
      write_entries m out (S i) keys'
  end.

Definition write_object (out : string)
    (m : list (string * (string -> result CanonicalError string))) :
    result CanonicalError string :=
  let keys := sort_by utf16_compare (map_keys m) in
  out ← write_entries m (out +:+ "{") 0 keys;
  Ok (out +:+ "}").

Fixpoint write_value (v : Value) (out : string) {struct v} : result CanonicalError string :=
  match v with
  | Null => Ok (out +:+ "null")
  | Bool b => Ok (out +:+ if b then "true" else "false")
  | Num n => write_number out n
  | Str s => Ok (write_string out s)
  | Arr items =>
      out ← write_items (out +:+ "[") 0 (map write_value items);
      Ok (out +:+ "]")
  | Obj m => write_object out (map (fun kv => (kv.1, write_value kv.2)) m)
  end.

Definition canonicalize (value : Value) : result CanonicalError string :=
  write_value value "".

Definition sha256_hex `{Digest} (payload : string) : string :=
  "sha256:" +:+ hex_encode (sha256 payload).

Definition jcs_sha256_hex `{Digest} (value : Value) : result CanonicalError string :=
  bytes ← canonicalize value;
  Ok ("sha256:" +:+ hex_encode (sha256 bytes)).

Definition jcs_sha256_raw `{Digest} (value : Value) : result CanonicalError string :=
  bytes ← canonicalize value;
  Ok (sha256 bytes).

Example canonicalize_ex :
  canonicalize {{ "b" ≔ Arr [from_u64 1; from_i64 (-20); Null]; "a" ≔ Str "x\" }} =
  Ok ("{" +:+ dquote +:+ "a" +:+ dquote +:+ ":" +:+ dquote +:+ "x\\" +:+ dquote +:+ ","
      +:+ dquote +:+ "b" +:+ dquote +:+ ":[1,-20,null]}").
Proof. vm_compute. reflexivity. Qed.

(** ** The bytes appended by the writers *)

Fixpoint concat_strings (l : list string) : string :=
  match l with [] => "" | x :: l' => x +:+ concat_strings l' end.

Definition escape_string (s : string) : string :=
  dquote +:+ concat_strings (map write_char (chars s)) +:+ dquote.

#[global] Arguments escape_string : simpl never.

Definition commas (es : list string) : string := concat_strings (map (String.append ",") es).

#[global] Arguments commas : simpl never.

Definition join (es : list string) : string :=
  match es with [] => "" | e :: es' => e +:+ commas es' end.

Definition entry_bytes (kv : string * string) : string :=
  escape_string kv.1 +:+ ":" +:+ kv.2.

#[global] Arguments entry_bytes : simpl never.

Definition sorted_entries {A} (m : list (string * A)) : list (string * A) :=
  sort_by (cmp_on fst utf16_compare) m.

Fixpoint has_float (v : Value) : bool :=
  match v with
  | Num (Float _) => true
  | Arr l => existsb has_float l
  | Obj m => existsb (fun kv => has_float kv.2) m
  | _ => false
  end.

Definition number_bytes (n : Number) : string :=
  match n with PosInt z | NegInt z => z_to_string z | Float _ => "" end.

(** The canonical bytes of a value without floats, as a pure function. *)
Fixpoint value_bytes (v : Value) : string :=
  match v with
  | Null => "null"
  | Bool b => if b then "true" else "false"
  | Num n => number_bytes n
  | Str s => escape_string s
  | Arr l => "[" +:+ join (map value_bytes l) +:+ "]"
  | Obj m =>
      "{" +:+ join (map entry_bytes (sorted_entries (map (fun kv => (kv.1, value_bytes kv.2)) m)))
      +:+ "}"
  end.

Lemma write_chars_app out cs :
  write_chars out cs = out +:+ concat_strings (map write_char cs).
Proof.
  revert out. induction cs as [|c cs IH]; intros out; cbn; [by rewrite string_app_nil_r|].
  by rewrite IH, string_app_assoc.
Qed.

Lemma write_string_app out s : write_string out s = out +:+ escape_string s.
Proof.
  unfold write_string, escape_string. by rewrite write_chars_app, !string_app_assoc.
Qed.

Lemma write_number_app out n :
  wf_number n ->
  write_number out n =
    match n with Float _ => Err FloatNotAllowed | _ => Ok (out +:+ number_bytes n) end.
Proof.
  unfold write_number. destruct n as [u|i|f]; cbn; intros Hwf; try done.
  by destruct (u <=? i64_max).
Qed.

(** What one writer does to the buffer. *)
Definition writes (w : string -> result CanonicalError string) (float : bool) (e : string) : Prop :=
  forall out, w out = if float then Err FloatNotAllowed else Ok (out +:+ e).

Lemma commas_cons e es : commas (e :: es) = "," +:+ e +:+ commas es.
Proof. done. Qed.

Lemma write_items_suffix out i ws fs es :
  Forall3 writes ws fs es -> (0 < i)%nat ->
  write_items out i ws =
    if existsb id fs then Err FloatNotAllowed else Ok (out +:+ commas es).
Proof.
  intros H. revert out i.
  induction H as [|w f e ws fs es Hw _ IH]; intros out i Hi; cbn.
  - by rewrite string_app_nil_r.
  - destruct i as [|i]; [lia|]. cbn. rewrite Hw. destruct f; cbn; [done|].
    rewrite IH by lia. by rewrite commas_cons, !string_app_assoc.
Qed.

Lemma write_items_app out ws fs es :
  Forall3 writes ws fs es ->
  write_items out 0 ws =
    if existsb id fs then Err FloatNotAllowed else Ok (out +:+ join es).
Proof.
  intros H. destruct H as [|w f e ws fs es Hw Hws]; cbn; [by rewrite string_app_nil_r|].
  rewrite Hw. destruct f; cbn; [done|].
  rewrite (write_items_suffix _ _ _ _ _ Hws) by lia. by rewrite string_app_assoc.
Qed.

(** The writer of one object entry, looked up by key. *)
Definition write_entry (m : list (string * (string -> result CanonicalError string)))
    (key : string) (out : string) : result CanonicalError string :=
  write ← ok_or (map_get key m) NonStringKey;
  write (write_string out key +:+ ":").

Lemma write_entries_items m out i keys :
  write_entries m out i keys = write_items out i (map (write_entry m) keys).
Proof.
  revert out i. induction keys as [|k keys IH]; intros out i; cbn; [done|].
  unfold write_entry at 2. destruct (map_get k m) as [w|]; cbn; [|done].
  destruct (w _); cbn; [apply IH|done].
Qed.

Lemma utf16_compare_order : CmpOrder utf16_compare.
Proof. exact (cmp_on_order utf16_units (lex_compare N.compare) _). Qed.
#[export] Existing Instance utf16_compare_order.

Lemma sorted_entries_perm {A} (m : list (string * A)) : sorted_entries m ≡ₚ m.
Proof. apply sort_by_perm. Qed.

Lemma sorted_entries_keys {A} (m : list (string * A)) :
  sort_by utf16_compare (map_keys m) = map_keys (sorted_entries m).
Proof. symmetry. apply (sort_by_map fst). Qed.

Lemma sorted_entries_map {A B} (f : A -> B) (m : list (string * A)) :
  sorted_entries (map (fun kv => (kv.1, f kv.2)) m) =
  map (fun kv => (kv.1, f kv.2)) (sorted_entries m).
Proof.
  symmetry. unfold sorted_entries.
  exact (sort_by_map (fun kv => (kv.1, f kv.2)) (cmp_on fst utf16_compare) m).
Qed.

Lemma write_object_app out m fs es :
  NoDup (map_keys m) ->
  Forall3 (fun kv f e => writes kv.2 f e) (sorted_entries m) fs es ->
  write_object out m =
    if existsb id fs then Err FloatNotAllowed
    else Ok (out +:+ "{" +:+ join (map entry_bytes (zip (map_keys (sorted_entries m)) es)) +:+ "}").
Proof.
  intros Hnd H. unfold write_object. rewrite write_entries_items, sorted_entries_keys.
  assert (HF : Forall3 writes (map (write_entry m) (map_keys (sorted_entries m))) fs
     (map entry_bytes (zip (map_keys (sorted_entries m)) es))).
  { assert (Hin : forall kv, kv ∈ sorted_entries m -> map_get kv.1 m = Some kv.2).
    { intros [k w] Hk. apply map_get_elem; [done|]. by rewrite sorted_entries_perm in Hk. }
    clear Hnd. induction H as [|[k w] f e l fs es Hw _ IH]; cbn; constructor.
    - intros out'. unfold write_entry. pose proof (Hin (k, w) ltac:(left)) as E. cbn in E.
      rewrite E. cbn. rewrite Hw, write_string_app. unfold entry_bytes. cbn [fst snd].
      destruct f; [done|]. by rewrite !string_app_assoc.
    - apply IH. intros kv ?. apply Hin. by right. }
  rewrite (write_items_app _ _ _ _ HF).
  destruct (existsb id fs); cbn; [done|]. by rewrite !string_app_assoc.
Qed.

(** Every writer appends the bytes of its value, or reports a float. *)
Lemma write_value_app v : wf_value v -> writes (write_value v) (has_float v) (value_bytes v).
Proof.
  induction v as [|b|n|s|l IH|m IH] using Value_ind; intros Hwf out; cbn.
  - done.
  - by destruct b.
  - rewrite write_number_app by done. by destruct n.
  - by rewrite write_string_app.
  - apply wf_value_Arr in Hwf.
    rewrite (write_items_app _ _ (map has_float l) (map value_bytes l)).
    + rewrite existsb_map. change (fun a => id (has_float a)) with has_float.
      destruct (existsb has_float l); cbn; [done|]. by rewrite !string_app_assoc.
    + clear -IH Hwf. induction l as [|x l IHl]; cbn; constructor.
      * inversion IH; inversion Hwf; auto.
      * inversion IH; inversion Hwf; auto.
  - apply wf_value_Obj in Hwf as [Hnd Hwf].
    rewrite (write_object_app _ _ (map (fun kv => has_float kv.2) (sorted_entries m))
               (map (fun kv => value_bytes kv.2) (sorted_entries m))).
    + rewrite sorted_entries_map, existsb_map.
      rewrite (existsb_perm _ _ m) by apply sorted_entries_perm.
      change (fun a => id (has_float a.2)) with (fun kv : string * Value => has_float kv.2).
      destruct (existsb _ m); [done|]. do 3 f_equal.
      rewrite sorted_entries_map. f_equal. f_equal. unfold map_keys. rewrite map_map.
      clear. induction (sorted_entries m) as [|[k v] l IHl]; cbn; [done|]. by f_equal.
    + unfold map_keys. by rewrite map_map.
    + rewrite sorted_entries_map.
      assert (Hs : Forall (fun kv => writes (write_value kv.2) (has_float kv.2) (value_bytes kv.2))
                     (sorted_entries m)).
      { rewrite sorted_entries_perm. rewrite Forall_forall in IH, Hwf |- *.
        intros kv Hkv. apply IH; [done|]. by apply Hwf. }
      clear -Hs. induction Hs; cbn; by constructor.
Qed.

(** ** Unambiguity of the encoding *)

(** What may follow a value inside canonical bytes. *)
Definition closes (a : ascii) : Prop := a = ","%char \/ a = "]"%char \/ a = "}"%char.
Definition delimited (r : string) : Prop :=
  match r with EmptyString => True | String a _ => closes a end.

Lemma closes_not_num a : closes a -> is_num_char a = false.
Proof. by intros [->|[->| ->]]. Qed.

(** Reading one escaped character back. *)
Definition read_char (s : string) : option (N * string) :=
  match s with
  | String a s1 =>
      if ascii_dec a (ascii_of_nat 92) then
        match s1 with
        | String b s2 =>
            if ascii_dec b "u" then
              match s2 with
              | String _ (String _ (String h (String l s3))) =>
                  let d x := (let n := N_of_ascii x in if n <? 58 then n - 48 else n - 87)%N in
                  Some (d h * 16 + d l, s3)%N
              | _ => None
              end
            else if ascii_dec b "b" then Some (8, s2)%N
            else if ascii_dec b "t" then Some (9, s2)%N
            else if ascii_dec b "n" then Some (10, s2)%N
            else if ascii_dec b "f" then Some (12, s2)%N
            else if ascii_dec b "r" then Some (13, s2)%N
            else Some (N_of_ascii b, s2)
        | EmptyString => None
        end
      else decode_utf8 s
  | EmptyString => None
  end.

Lemma encode_utf8_head c :
  (0x20 <= c <= 0x10FFFF)%N -> c <> 0x22%N -> c <> 0x5C%N ->
  exists a s, encode_utf8 c = String a s /\ a <> ascii_of_nat 34 /\ a <> ascii_of_nat 92.
Proof.
  intros Hc Hq Hb. unfold encode_utf8, byte.
  assert (Hne : forall n, (n < 256)%N -> n <> 0x22%N -> n <> 0x5C%N ->
    ascii_of_N n <> ascii_of_nat 34 /\ ascii_of_N n <> ascii_of_nat 92).
  { intros n Hn H1 H2. split; intros E; apply (f_equal N_of_ascii) in E;
      rewrite N_ascii_embedding in E by done; [by apply H1|by apply H2]. }
  destruct (N.ltb_spec c 0x80); [|destruct (N.ltb_spec c 0x800); [|destruct (N.ltb_spec c 0x10000)]];
    eexists _, _; (split; [reflexivity|]); apply Hne; lia.
Qed.

(** The control characters, one by one. *)
Lemma below_20 (P : N -> Prop) :
  Forall P (N.of_nat <$> seq 0 32) -> forall c, (c < 0x20)%N -> P c.
Proof.
  intros H c Hc. rewrite Forall_forall in H. apply H.
  apply list_elem_of_fmap. exists (N.to_nat c). split; [lia|]. apply elem_of_seq. lia.
Qed.

Lemma write_char_spec c r :
  is_scalar c ->
  read_char (write_char c +:+ r) = Some (c, r) /\
  exists a s, write_char c = String a s /\ a <> ascii_of_nat 34.
Proof.
  intros Hc. destruct (decide (c < 0x20)%N) as [H20|H20].
  { clear Hc. revert c H20. apply below_20. cbn.
    repeat (constructor; [split; [reflexivity|eexists _, _; split; [reflexivity|done]]|]).
    constructor. }
  unfold is_scalar in Hc. unfold write_char.
  destruct (N.eqb_spec c 0x22) as [->|H22]; [split; [done|]; by eexists _, _|].
  destruct (N.eqb_spec c 0x5C) as [->|H5C]; [split; [done|]; by eexists _, _|].
  rewrite !(proj2 (N.eqb_neq _ _)) by lia. rewrite (proj2 (N.ltb_ge _ _)) by lia.
  destruct (encode_utf8_head c) as (a & s & E & Ha1 & Ha2); [lia|done..|].
  split; [|by exists a, s].
  rewrite <- (decode_encode_utf8 c r) by lia. rewrite E. cbn [String.append read_char].
  by destruct (ascii_dec a (ascii_of_nat 92)).
Qed.

Lemma write_chars_unamb cs1 cs2 r1 r2 :
  Forall is_scalar cs1 -> Forall is_scalar cs2 ->
  concat_strings (map write_char cs1) +:+ dquote +:+ r1 =
  concat_strings (map write_char cs2) +:+ dquote +:+ r2 -> cs1 = cs2 /\ r1 = r2.
Proof.
  intros H1. revert cs2.
  induction H1 as [|c1 cs1 Hc1 Hcs1 IH]; intros ? [|c2 cs2 Hc2 Hcs2]; cbn.
  - by intros [= ->].
  - destruct (write_char_spec c2 "" Hc2) as (_ & a & s & -> & Ha). cbn. by intros [= <-].
  - destruct (write_char_spec c1 "" Hc1) as (_ & a & s & -> & Ha). cbn. by intros [= ->].
  - rewrite !string_app_assoc. intros E.
    apply (f_equal read_char) in E.
    rewrite (proj1 (write_char_spec c1 _ Hc1)), (proj1 (write_char_spec c2 _ Hc2)) in E.
    injection E as -> E. by destruct (IH _ Hcs2 E) as [-> ->].
Qed.

Lemma escape_string_unamb s1 s2 r1 r2 :
  valid_utf8 s1 -> valid_utf8 s2 ->
  escape_string s1 +:+ r1 = escape_string s2 +:+ r2 -> s1 = s2 /\ r1 = r2.
Proof.
  intros H1 H2 E. unfold escape_string in E. rewrite !string_app_assoc in E.
  apply string_app_inv_head, write_chars_unamb in E as [E ->]; [|by apply chars_scalar..].
  split; [|done]. by apply chars_inj.
Qed.

Lemma number_bytes_unamb n1 n2 r1 r2 :
  wf_number n1 -> wf_number n2 -> (if n1 is Float _ then False else True) ->
  (if n2 is Float _ then False else True) -> delimited r1 -> delimited r2 ->
  number_bytes n1 +:+ r1 = number_bytes n2 +:+ r2 -> number_eqb n1 n2 = true /\ r1 = r2.
Proof.
  intros Hw1 Hw2 Hf1 Hf2 Hd1 Hd2 E.
  assert (Hn : forall n, string_forallb is_num_char (number_bytes n) = true)
    by (intros []; apply z_to_string_num_chars || done).
  apply (string_span_eq is_num_char) in E as [E ->]; try apply Hn; try (intros ? ? ->; by apply closes_not_num).
  split; [|done].
  destruct n1, n2; try done; cbn in *; apply (inj z_to_string) in E; subst;
    (apply Z.eqb_refl || (unfold is_u64, i64_min in *; lia)).
Qed.

Section items.
Context {A : Type} (f : A -> string) (R : A -> A -> Prop) (close : ascii).
Hypothesis Hclose : closes close /\ close <> ","%char.

(** [x] and [y] are told apart by their bytes whatever follows. *)
Definition unamb (x y : A) : Prop := forall s1 s2,
  delimited s1 -> delimited s2 -> f x +:+ s1 = f y +:+ s2 -> R x y /\ s1 = s2.

Lemma commas_delimited es r : delimited (commas es +:+ String close r).
Proof. destruct es; [apply Hclose|by left]. Qed.

Lemma commas_unamb l1 l2 r1 r2 :
  (forall x y, x ∈ l1 -> y ∈ l2 -> unamb x y) ->
  commas (map f l1) +:+ String close r1 = commas (map f l2) +:+ String close r2 ->
  Forall2 R l1 l2 /\ r1 = r2.
Proof.
  revert l2. induction l1 as [|x l1 IH]; intros [|y l2] HU E; cbn in E; rewrite ?commas_cons in E.
  - injection E as ->. by split.
  - injection E as E _. by destruct Hclose.
  - injection E as E _. by destruct Hclose.
  - injection E as E. rewrite !string_app_assoc in E.
    apply (HU x y) in E as [HR E]; [|by left|by left|apply commas_delimited..].
    apply IH in E as [? ->]; [by split; [constructor|]|].
    intros x' y' ? ?. apply HU; by right.
Qed.

Lemma join_unamb l1 l2 r1 r2 :
  (forall x y, x ∈ l1 -> y ∈ l2 -> unamb x y) ->
  (forall x, x ∈ l1 ++ l2 -> exists a s, f x = String a s /\ ~ closes a) ->
  join (map f l1) +:+ String close r1 = join (map f l2) +:+ String close r2 ->
  Forall2 R l1 l2 /\ r1 = r2.
Proof.
  intros HU Hst E. destruct l1 as [|x l1], l2 as [|y l2]; cbn in E.
  - injection E as ->. by split.
  - destruct (Hst y) as (a & s & Hy & Ha); [by left|]. rewrite Hy in E. cbn in E.
    injection E as -> _. by destruct Ha; destruct Hclose.
  - destruct (Hst x) as (a & s & Hx & Ha); [by left|]. rewrite Hx in E. cbn in E.
    injection E as -> _. by destruct Ha; destruct Hclose.
  - rewrite !string_app_assoc in E.
    apply (HU x y) in E as [HR E]; [|by left|by left|apply commas_delimited..].
    apply commas_unamb in E as [? ->]; [by split; [constructor|]|].
    intros x' y' ? ?. apply HU; by right.
Qed.
End items.

Lemma value_bytes_head v :
  wf_value v -> has_float v = false -> exists a s, value_bytes v = String a s /\ ~ closes a.
Proof.
  assert (Hq : forall s, exists a s', escape_string s = String a s' /\ ~ closes a).
  { intros s. unfold escape_string. eexists _, _. split; [reflexivity|]. by intros [?|[?|?]]. }
  destruct v as [|b|n|s|l|m]; intros Hwf Hf; cbn.
  - eexists _, _. split; [reflexivity|]. by intros [?|[?|?]].
  - destruct b; eexists _, _; (split; [reflexivity|]); by intros [?|[?|?]].
  - destruct n as [u|i|g]; try done; cbn.
    + destruct (z_to_string_nonempty u) as (a & s & -> & Ha). eexists _, _. split; [done|].
      intros Hc%closes_not_num. congruence.
    + destruct (z_to_string_nonempty i) as (a & s & -> & Ha). eexists _, _. split; [done|].
      intros Hc%closes_not_num. congruence.
  - apply Hq.
  - eexists _, _. split; [reflexivity|]. by intros [?|[?|?]].
  - eexists _, _. split; [reflexivity|]. by intros [?|[?|?]].
Qed.

Lemma entry_bytes_head k e : exists a s, entry_bytes (k, e) = String a s /\ ~ closes a.
Proof.
  unfold entry_bytes, escape_string. cbn.
  eexists _, _. split; [reflexivity|]. by intros [?|[?|?]].
Qed.

Lemma value_bytes_kind v1 v2 r1 r2 :
  wf_value v1 -> wf_value v2 -> has_float v1 = false -> has_float v2 = false ->
  value_bytes v1 +:+ r1 = value_bytes v2 +:+ r2 ->
  match v1, v2 with
  | Null, Null | Bool _, Bool _ | Num _, Num _ | Str _, Str _ | Arr _, Arr _ | Obj _, Obj _ => True
  | _, _ => False
  end.
Proof.
  assert (Hn : forall n, has_float (Num n) = false ->
    exists a s, number_bytes n = String a s /\ is_num_char a = true).
  { intros [u|i|f]; [intros _; apply z_to_string_nonempty..|done]. }
  destruct v1 as [|b1|n1|s1|l1|m1], v2 as [|b2|n2|s2|l2|m2]; cbn; intros Hw1 Hw2 Hf1 Hf2 E; try done;
    try (destruct b1); try (destruct b2); try done;
    try (destruct (Hn n1 Hf1) as (a & s & Hs & Ha); rewrite Hs in E; cbn in E; injection E as -> _; done);
    try (destruct (Hn n2 Hf2) as (a & s & Hs & Ha); rewrite Hs in E; cbn in E; injection E as <- _; done).
Qed.

Lemma utf16_units_inj s1 s2 :
  valid_utf8 s1 -> valid_utf8 s2 -> utf16_units s1 = utf16_units s2 -> s1 = s2.
Proof.
  intros H1 H2 E. apply chars_inj; [done..|]. unfold utf16_units in E.
  apply chars_scalar in H1, H2. revert E H2. generalize (chars s2). clear s2.
  induction H1 as [|c1 cs1 Hc1 _ IH]; intros cs2 E H2; destruct H2 as [|c2 cs2 Hc2 Hcs2]; cbn in E.
  - done.
  - unfold encode_utf16 in E. by destruct (c2 <? 0x10000)%N.
  - unfold encode_utf16 in E. by destruct (c1 <? 0x10000)%N.
  - unfold encode_utf16, is_scalar in *.
    destruct (N.ltb_spec c1 0x10000), (N.ltb_spec c2 0x10000); cbn in E;
      injection E; intros; subst; try lia; f_equal; try (by apply IH); lia.
Qed.

(** Sorting the entries forgets the insertion order. *)
Lemma sorted_entries_unique {A} (m1 m2 : list (string * A)) :
  NoDup (map_keys m1) -> Forall valid_utf8 (map_keys m1) -> m1 ≡ₚ m2 ->
  sorted_entries m1 = sorted_entries m2.
Proof.
  intros Hnd Hv Hp. apply (map_inj_on (fun kv => utf16_units kv.1)).
  - intros [k1 v1] [k2 v2] Hin1 Hin2 E. cbn in E.
    rewrite sorted_entries_perm in Hin1, Hin2. rewrite <- Hp in Hin2.
    assert (Hk : forall k v, (k, v) ∈ m1 -> valid_utf8 k).
    { intros k v Hin. rewrite Forall_forall in Hv. apply Hv. by apply (list_elem_of_fmap_2 fst _ (k, v)). }
    apply utf16_units_inj in E as ->; [|by eapply Hk..].
    apply map_get_elem in Hin1, Hin2; [|done..]. congruence.
  - pose proof (sort_by_map (fun kv : string * A => utf16_units kv.1) (lex_compare N.compare)) as Hs.
    etransitivity; [apply Hs|]. etransitivity; [|symmetry; apply Hs].
    apply sort_by_unique; [apply _|]. by rewrite Hp.
Qed.

Lemma value_bytes_Obj m :
  value_bytes (Obj m) =
  "{" +:+ join (map (fun kv => entry_bytes (kv.1, value_bytes kv.2)) (sorted_entries m)) +:+ "}".
Proof.
  cbn. do 2 f_equal. rewrite sorted_entries_map, map_map. done.
Qed.

Lemma has_float_Arr l x : has_float (Arr l) = false -> x ∈ l -> has_float x = false.
Proof.
  cbn. intros H Hx. apply not_true_iff_false. intros Hf.
  apply not_true_iff_false in H. apply H. apply existsb_exists. exists x.
  by rewrite <- list_elem_of_In.
Qed.

Lemma has_float_Obj m kv : has_float (Obj m) = false -> kv ∈ m -> has_float kv.2 = false.
Proof.
  cbn. intros H Hx. apply not_true_iff_false. intros Hf.
  apply not_true_iff_false in H. apply H. apply existsb_exists. exists kv.
  by rewrite <- list_elem_of_In.
Qed.

Definition entry_eqb (a b : string * Value) : Prop :=
  a.1 = b.1 /\ value_eqb a.2 b.2 = true.

Lemma sorted_entries_eqb m1 m2 :
  NoDup (map_keys m2) ->
  Forall2 entry_eqb (sorted_entries m1) (sorted_entries m2) ->
  value_eqb (Obj m1) (Obj m2) = true.
Proof.
  intros Hnd HF. apply value_eqb_Obj. split.
  - apply Forall2_length in HF. by rewrite !sorted_entries_perm in HF.
  - apply Forall_forall. intros [k v] Hin. rewrite <- sorted_entries_perm in Hin.
    destruct (Forall2_elem_l _ _ _ _ HF Hin) as ([k' v'] & Hin' & Hk & Hv). cbn in *. subst k'.
    exists v'. split; [|done]. apply map_get_elem; [done|]. by rewrite sorted_entries_perm in Hin'.
Qed.

Lemma entry_unamb m1 m2 kv1 kv2 :
  (forall v2 r1 r2, wf_value v2 -> has_float v2 = false -> delimited r1 -> delimited r2 ->
     value_bytes kv1.2 +:+ r1 = value_bytes v2 +:+ r2 -> value_eqb kv1.2 v2 = true /\ r1 = r2) ->
  wf_value (Obj m1) -> wf_value (Obj m2) -> has_float (Obj m2) = false ->
  kv1 ∈ m1 -> kv2 ∈ m2 ->
  unamb (fun kv => entry_bytes (kv.1, value_bytes kv.2)) entry_eqb kv1 kv2.
Proof.
  intros IH [_ Hw1]%wf_value_Obj [_ Hw2]%wf_value_Obj Hf Hin1 Hin2 s1 s2 Hd1 Hd2 E.
  rewrite Forall_forall in Hw1, Hw2. unfold entry_bytes in E. cbn [fst snd] in E.
  rewrite !string_app_assoc in E.
  apply escape_string_unamb in E as [Ek E]; [|by apply Hw1|by apply Hw2].
  cbn in E. injection E as E.
  apply IH in E as [? ->]; [done|by apply Hw2|by eapply has_float_Obj|done..].
Qed.

Lemma value_bytes_unamb v1 v2 r1 r2 :
  wf_value v1 -> wf_value v2 -> has_float v1 = false -> has_float v2 = false ->
  delimited r1 -> delimited r2 ->
  value_bytes v1 +:+ r1 = value_bytes v2 +:+ r2 -> value_eqb v1 v2 = true /\ r1 = r2.
Proof.
  revert v2 r1 r2.
  induction v1 as [|b1|n1|s1|l1 IH|m1 IH] using Value_ind; intros v2 r1 r2 Hw1 Hw2 Hf1 Hf2 Hd1 Hd2 E;
    pose proof (value_bytes_kind _ _ _ _ Hw1 Hw2 Hf1 Hf2 E) as Hk;
    destruct v2 as [|b2|n2|s2|l2|m2]; try done; clear Hk.
  - by injection E.
  - destruct b1, b2; by injection E.
  - apply number_bytes_unamb in E; try done; [by destruct n1|by destruct n2].
  - apply escape_string_unamb in E as [-> ->]; try done. split; [|done]. apply String.eqb_refl.
  - cbn in E. injection E as E. rewrite !string_app_assoc in E. cbn in E.
    rewrite wf_value_Arr, Forall_forall in Hw1, Hw2. rewrite Forall_forall in IH.
    apply (join_unamb _ (fun x y => value_eqb x y = true)) in E as [HF ->].
    + split; [|done]. by apply value_eqb_Arr.
    + split; [by right; left|done].
    + intros x y Hx Hy t1 t2. apply IH; try done; eauto using has_float_Arr.
    + intros x [Hx|Hx]%elem_of_app; apply value_bytes_head; eauto using has_float_Arr.
  - rewrite !value_bytes_Obj in E. cbn in E. injection E as E.
    rewrite !string_app_assoc in E. cbn in E.
    apply (join_unamb _ entry_eqb) in E as [HF ->].
    + split; [|done]. apply sorted_entries_eqb; [by apply wf_value_Obj in Hw2 as [??]|done].
    + split; [by right; right|done].
    + intros x y Hx Hy. rewrite sorted_entries_perm in Hx, Hy. rewrite Forall_forall in IH.
      apply (entry_unamb m1 m2); try done. intros v2 t1 t2 ? ?. apply IH; try done.
      * apply wf_value_Obj in Hw1 as [_ Hw1]. rewrite Forall_forall in Hw1. by apply Hw1.
      * exact (has_float_Obj m1 x Hf1 Hx).
    + intros [k v] _. apply entry_bytes_head.
Qed.

Lemma NoDup_entries {A} (m : list (string * A)) : NoDup (map_keys m) -> NoDup m.
Proof. intros H. by apply (NoDup_fmap_1 fst). Qed.

Lemma value_bytes_eqb v1 v2 :
  wf_value v1 -> wf_value v2 -> has_float v1 = false -> value_eqb v1 v2 = true ->
  value_bytes v1 = value_bytes v2.
Proof.
  revert v2.
  induction v1 as [|b1|n1|s1|l1 IH|m1 IH] using Value_ind; intros v2 Hw1 Hw2 Hf E;
    destruct v2 as [|b2|n2|s2|l2|m2]; try done.
  - cbn in E. by apply eqb_prop in E as ->.
  - cbn in E |- *. destruct n1, n2; try done; cbn in *; by apply Z.eqb_eq in E as ->.
  - cbn in E. by apply String.eqb_eq in E as ->.
  - apply value_eqb_Arr in E. cbn. do 3 f_equal.
    rewrite wf_value_Arr in Hw1, Hw2. cbn in Hf. revert IH Hw1 Hw2 Hf.
    induction E as [|x y l1 l2 Exy _ IHl]; intros IH Hw1 Hw2 Hf; cbn; [done|].
    inversion IH; inversion Hw1; inversion Hw2; subst. apply orb_false_iff in Hf as [Hf1 Hf2].
    f_equal; auto.
  - apply value_eqb_Obj in E as [Hlen HF]. cbn. do 4 f_equal.
    apply wf_value_Obj in Hw1 as [Hnd1 Hw1]. apply wf_value_Obj in Hw2 as [Hnd2 Hw2].
    rewrite Forall_forall in HF, Hw1, Hw2, IH.
    assert (Hk : forall m, map_keys (map (fun kv => (kv.1, value_bytes kv.2)) m) = map_keys m)
      by (intros; unfold map_keys; by rewrite map_map).
    apply sorted_entries_unique; rewrite ?Hk; [done| |].
    { apply Forall_forall. intros k ([k' v] & -> & Hin)%list_elem_of_fmap. by apply Hw1 in Hin as [??]. }
    apply NoDup_Permutation_bis.
    + apply NoDup_ListNoDup, NoDup_entries. by rewrite Hk.
    + rewrite !length_map. lia.
    + intros e He. apply list_elem_of_In in He. apply list_elem_of_In.
      apply list_elem_of_fmap in He as ([k v] & -> & Hin).
      destruct (HF _ Hin) as (v' & Hg & Hv). cbn in *.
      apply list_elem_of_fmap. exists (k, v'). apply map_get_Some in Hg. split; [|done].
      cbn. f_equal. apply (IH (k, v)); [done|by apply Hw1|by apply Hw2 in Hg as [??]| |done].
      by apply (has_float_Obj m1 (k, v)).
Qed.

(** ** Properties *)

Lemma canonicalize_bytes v :
  wf_value v ->
  canonicalize v = if has_float v then Err FloatNotAllowed else Ok (value_bytes v).
Proof. intros Hwf. unfold canonicalize. by rewrite (write_value_app v Hwf ""). Qed.

Lemma canonicalize_Ok v b :
  wf_value v -> canonicalize v = Ok b -> has_float v = false /\ b = value_bytes v.
Proof.
  intros Hwf. rewrite canonicalize_bytes by done. destruct (has_float v); [done|]. by intros [= ->].
Qed.

Lemma canonicalize_inj v1 v2 b :
  wf_value v1 -> wf_value v2 -> canonicalize v1 = Ok b -> canonicalize v2 = Ok b ->
  value_eqb v1 v2 = true.
Proof.
  intros Hw1 Hw2 [Hf1 E1]%canonicalize_Ok [Hf2 E2]%canonicalize_Ok; [|done..].
  apply (value_bytes_unamb v1 v2 "" ""); try done. rewrite !string_app_nil_r. congruence.
Qed.

(** C32: the canonical bytes identify the logical value: two well-formed JSON
    values have the same canonical bytes exactly when they are equal as JSON
    values (arrays in order, objects by key whatever the insertion order). *)
Theorem canonicalize_faithful v1 v2 b1 b2 :
  wf_value v1 -> wf_value v2 -> canonicalize v1 = Ok b1 -> canonicalize v2 = Ok b2 ->
  b1 = b2 <-> value_eqb v1 v2 = true.
Proof.
  intros Hw1 Hw2 E1 E2. split.
  - intros ->. by eapply canonicalize_inj.
  - intros E. apply canonicalize_Ok in E1 as [Hf1 ->]; [|done].
    apply canonicalize_Ok in E2 as [_ ->]; [|done]. by apply value_bytes_eqb.
Qed.

Definition demo_ab : Value := {{ "a" ≔ from_u64 1; "b" ≔ Str "x" }}.
Definition demo_ba : Value := {{ "b" ≔ Str "x"; "a" ≔ from_u64 1 }}.

Lemma demo_wf : wf_value demo_ab /\ wf_value demo_ba.
Proof. split; apply wf_valueb_sound; vm_compute; reflexivity. Qed.

Lemma canonicalize_faithful_witness :
  value_eqb demo_ab demo_ba = true /\ exists b, canonicalize demo_ab = Ok b /\ canonicalize demo_ba = Ok b.
Proof.
  split; [|eexists; split; vm_compute; reflexivity].
  refine (proj1 (canonicalize_faithful demo_ab demo_ba _ _ (proj1 demo_wf) (proj2 demo_wf) _ _) eq_refl);
    vm_compute; reflexivity.
Defined.

(** The insertion order of the keys of an object does not change its
    canonical bytes. *)
Theorem canonicalize_order_independent m1 m2 :
  wf_value (Obj m1) -> m1 ≡ₚ m2 -> canonicalize (Obj m1) = canonicalize (Obj m2).
Proof.
  intros Hwf Hp.
  assert (Hwf2 : wf_value (Obj m2)) by (rewrite wf_value_Obj in *; unfold map_keys in *; by rewrite <- Hp).
  rewrite !canonicalize_bytes by done. cbn [has_float].
  rewrite (existsb_perm _ _ _ Hp), !value_bytes_Obj. apply wf_value_Obj in Hwf as [Hnd Hwf].
  rewrite (sorted_entries_unique m1 m2); [done|done| |done].
  apply Forall_fmap. eapply Forall_impl; [exact Hwf|]. by intros ? [??].
Qed.

Lemma canonicalize_order_independent_witness : canonicalize demo_ab = canonicalize demo_ba.
Proof. apply canonicalize_order_independent; [exact (proj1 demo_wf)|apply Permutation_swap]. Defined.

(** Canonicalisation never fails for any reason but a non-integer number:
    a well-formed value is written unless it holds a float, and then the error
    is [FloatNotAllowed]. *)
Theorem canonicalize_total v :
  wf_value v ->
  (has_float v = false -> exists b, canonicalize v = Ok b) /\
  (has_float v = true -> canonicalize v = Err FloatNotAllowed).
Proof. intros Hwf. rewrite canonicalize_bytes by done. destruct (has_float v); naive_solver. Qed.

Lemma canonicalize_total_witness :
  canonicalize (Arr [Num (Float (S754_finite false 1 (-1)))]) = Err FloatNotAllowed.
Proof.
  refine (proj2 (canonicalize_total _ (wf_valueb_sound _ _)) _); vm_compute; reflexivity.
Defined.

(** ** Canonical projections

    What a protocol structure must provide for its digest to identify it: a
    JSON projection without floats that is injective up to JSON equality. *)

Class Canonical (A : Type) : Type := {
  to_canonical_value : A -> Value;
  canon_wf : A -> Prop;
  canon_value_wf a : canon_wf a -> wf_value (to_canonical_value a);
  canon_value_int a : canon_wf a -> has_float (to_canonical_value a) = false;
  canon_value_inj a b :
    value_eqb (to_canonical_value a) (to_canonical_value b) = true -> a = b;
}.

(** Two different inputs with the same hex digest. *)
Definition collision `{Digest} (x y : string) : Prop :=
  x <> y /\ hex_encode (sha256 x) = hex_encode (sha256 y).

(** SHA-256 collides on the canonical forms of two different values. *)
Definition value_collision `{Digest} (v v' : Value) : Prop :=
  exists b b', canonicalize v = Ok b /\ canonicalize v' = Ok b' /\ collision b b'.

Section digests.
Context `{CA : Canonical A} `{Digest}.

Lemma canonical_total (a : A) :
  canon_wf a -> exists b, canonicalize (to_canonical_value a) = Ok b.
Proof.
  intros Hwf. rewrite canonicalize_bytes by by apply canon_value_wf.
  rewrite canon_value_int by done. eauto.
Qed.

Lemma canonical_inj (a a' : A) b :
  canon_wf a -> canon_wf a' ->
  canonicalize (to_canonical_value a) = Ok b -> canonicalize (to_canonical_value a') = Ok b ->
  a = a'.
Proof.
  intros Hw Hw' E E'. apply canon_value_inj.
  eapply canonicalize_inj; [by apply canon_value_wf..|done|done].
Qed.

Lemma jcs_sha256_hex_Ok v d :
  jcs_sha256_hex v = Ok d ->
  exists b, canonicalize v = Ok b /\ d = "sha256:" +:+ hex_encode (sha256 b).
Proof.
  unfold jcs_sha256_hex. rewrite result_bind_Ok. intros (b & Hb & [= <-]). eauto.
Qed.

(** Equal digests come from equal values, unless SHA-256 collides on the two
    canonical forms. *)
Lemma jcs_value_binds v v' d :
  wf_value v -> wf_value v' -> jcs_sha256_hex v = Ok d -> jcs_sha256_hex v' = Ok d ->
  value_eqb v v' = true \/ value_collision v v'.
Proof.
  intros Hw Hw' (b & Hb & ->)%jcs_sha256_hex_Ok (b' & Hb' & E)%jcs_sha256_hex_Ok.
  destruct (decide (b = b')) as [->|Hne].
  - left. by eapply canonicalize_inj.
  - right. exists b, b'. split; [done|]. split; [done|]. split; [done|]. by injection E.
Qed.

Lemma jcs_raw_binds v v' d :
  wf_value v -> wf_value v' -> jcs_sha256_raw v = Ok d -> jcs_sha256_raw v' = Ok d ->
  value_eqb v v' = true \/ value_collision v v'.
Proof.
  intros Hw Hw' [b [Hb [= Ed]]]%result_bind_Ok [b' [Hb' [= Ed']]]%result_bind_Ok.
  destruct (decide (b = b')) as [->|Hne].
  - left. by eapply canonicalize_inj.
  - right. exists b, b'. split; [done|]. split; [done|]. split; [done|]. by rewrite Ed, Ed'.
Qed.

Lemma jcs_digest_binds (a a' : A) d :
  canon_wf a -> canon_wf a' ->
  jcs_sha256_hex (to_canonical_value a) = Ok d ->
  jcs_sha256_hex (to_canonical_value a') = Ok d ->
  a = a' \/ value_collision (to_canonical_value a) (to_canonical_value a').
Proof.
  intros Hw Hw' E E'.
  destruct (jcs_value_binds _ _ _ (canon_value_wf a Hw) (canon_value_wf a' Hw') E E'); [|by right].
  left. by apply canon_value_inj.
Qed.
End digests.

(** What the development relies on of the [hex] crate: its output is ASCII. *)
Class DigestLaws `{Digest} : Prop := hex_valid b : valid_utf8 (hex_encode b).

Lemma digest_string_valid `{DigestLaws} b : valid_utf8 ("sha256:" +:+ hex_encode (sha256 b)).
Proof. apply valid_utf8_app; [by apply valid_utf8b_sound|apply hex_valid]. Qed.

(** A concrete digest with the hex alphabet, for the witnesses: the bytes
    themselves in hex. *)
Fixpoint demo_hex (s : string) : string :=
  match s with
  | EmptyString => ""
  | String a s' =>
      String (hex_digit (N_of_ascii a / 16)) (String (hex_digit (N_of_ascii a mod 16)) "")
      +:+ demo_hex s'
  end.

Definition demo_digest : Digest := {| sha256 := fun s => s; hex_encode := demo_hex |}.

Lemma demo_digest_laws : @DigestLaws demo_digest.
Proof.
  intros b. change (valid_utf8 (demo_hex b)). induction b as [|a b IH]; [by apply valid_utf8b_sound|].
  apply valid_utf8_app; [|exact IH]. apply valid_utf8b_sound.
  destruct a as [[] [] [] [] [] [] [] []]; reflexivity.
Qed.

(** A short digest: the sum of the bytes. *)
Definition sum_digest : Digest := {|
  sha256 s := String (ascii_of_N (fold_right N.add 0%N (string_bytes s) mod 256)) "";
  hex_encode := demo_hex |}.

Lemma sum_digest_laws : @DigestLaws sum_digest.
Proof. exact demo_digest_laws. Qed.
