(* ===== verification/Identity.v ===== *)
(** * Workload identity, keysets and attestation statements

    Model of the digested structures of [src/aci/types.rs] and of
    [src/aci/identity.rs].  Each structure has its canonical projection, which
    is shown to be injective, so that every digest of the module identifies
    what it was computed from. *)
From S2P Require Import Prelude Json Canonical.

Module Types.

Record PublicKeyMaterial := { pk_algo : string; pk_public_key_hex : string }.

Definition PublicKeyMaterial_value (k : PublicKeyMaterial) : Value :=
  {{ "algo" ≔ Str (pk_algo k); "public_key" ≔ Str (pk_public_key_hex k) }}.

Record KeyedPublicKey := { key_id : string; algo : string; public_key_hex : string }.

Definition KeyedPublicKey_value (k : KeyedPublicKey) : Value :=
  {{ "key_id" ≔ Str (key_id k); "algo" ≔ Str (algo k); "public_key" ≔ Str (public_key_hex k) }}.

Record TlsSpki := { domain : option string; spki_sha256_hex : string }.

Definition TlsSpki_value (t : TlsSpki) : Value :=
  let value := [("spki_sha256", Str (spki_sha256_hex t))] in
  match domain t with
  | Some d => Obj (map_insert "domain" (Str d) value)
  | None => Obj value
  end.

Record WorkloadIdentity := { public_key : PublicKeyMaterial; subject : option string }.

Definition WorkloadIdentity_value (i : WorkloadIdentity) : Value :=
  {{ "public_key" ≔ PublicKeyMaterial_value (public_key i);
     "subject" ≔ from_opt_str (subject i) }}.

Record KeysetEpoch := { version : Z; not_after : Z }.

Definition KeysetEpoch_value (e : KeysetEpoch) : Value :=
  {{ "version" ≔ from_u64 (version e); "not_after" ≔ from_u64 (not_after e) }}.

Record WorkloadKeyset := {
  workload_identity : WorkloadIdentity;
  keyset_epoch : KeysetEpoch;
  receipt_signing_keys : list KeyedPublicKey;
  e2ee_public_keys : list KeyedPublicKey;
  tls_public_keys : list TlsSpki;
}.

Definition WorkloadKeyset_value (k : WorkloadKeyset) : Value :=
  {{ "workload_identity" ≔ WorkloadIdentity_value (workload_identity k);
     "keyset_epoch" ≔ KeysetEpoch_value (keyset_epoch k);
     "receipt_signing_keys" ≔ Arr (map KeyedPublicKey_value (receipt_signing_keys k));
     "e2ee_public_keys" ≔ Arr (map KeyedPublicKey_value (e2ee_public_keys k));
     "tls_public_keys" ≔ Arr (map TlsSpki_value (tls_public_keys k)) }}.

Definition REPORT_DATA_PURPOSE : string := "aci.report_data.v1".
Definition KEYSET_ENDORSEMENT_PURPOSE : string := "aci.keyset.endorsement.v1".
Definition KEYSET_REVOCATION_PURPOSE : string := "aci.keyset.revocation.v1".

Record AttestationStatement := {
  st_workload_id : string;
  st_workload_keyset_digest : string;
  st_nonce : option string;
}.

Definition AttestationStatement_value (s : AttestationStatement) : Value :=
  {{ "purpose" ≔ Str REPORT_DATA_PURPOSE;
     "workload_id" ≔ Str (st_workload_id s);
     "workload_keyset_digest" ≔ Str (st_workload_keyset_digest s);
     "nonce" ≔ from_opt_str (st_nonce s) }}.

Definition KeysetEndorsementPayload_value (workload_keyset_digest : string) : Value :=
  {{ "purpose" ≔ Str KEYSET_ENDORSEMENT_PURPOSE;
     "workload_keyset_digest" ≔ Str workload_keyset_digest }}.

Definition KeysetRevocationPayload_value (workload_keyset_digest : string) : Value :=
  {{ "purpose" ≔ Str KEYSET_REVOCATION_PURPOSE;
     "workload_keyset_digest" ≔ Str workload_keyset_digest }}.

End Types.
Import Types.

(** ** [src/aci/identity.rs] *)

Section Identity.
Context `{Digest}.

Definition workload_id_for_key (pk : PublicKeyMaterial) : result CanonicalError string :=
  jcs_sha256_hex (PublicKeyMaterial_value pk).

Definition workload_id (identity : WorkloadIdentity) : result CanonicalError string :=
  workload_id_for_key (public_key identity).

Definition workload_keyset_digest (keyset : WorkloadKeyset) : result CanonicalError string :=
  jcs_sha256_hex (WorkloadKeyset_value keyset).

Definition attestation_statement (keyset : WorkloadKeyset) (nonce : option string) :
    result CanonicalError AttestationStatement :=
  id ← workload_id (workload_identity keyset);
  digest ← workload_keyset_digest keyset;
  Ok {| st_workload_id := id; st_workload_keyset_digest := digest; st_nonce := nonce |}.

Definition report_data (statement : AttestationStatement) : result CanonicalError string :=
  jcs_sha256_raw (AttestationStatement_value statement).

Definition keyset_endorsement_payload (keyset : WorkloadKeyset) : result CanonicalError string :=
  digest ← workload_keyset_digest keyset;
  canonicalize (KeysetEndorsementPayload_value digest).

Definition keyset_revocation_payload (digest : string) : result CanonicalError string :=
  canonicalize (KeysetRevocationPayload_value digest).

Definition keyset_material_fingerprint (keyset : WorkloadKeyset) : result CanonicalError string :=
  match WorkloadKeyset_value keyset with
  | Obj obj => jcs_sha256_hex (Obj (map_remove "keyset_epoch" obj))
  | value => jcs_sha256_hex value
  end.
End Identity.

(** ** Well-formed structures: UTF-8 strings and [u64] numbers *)

Definition wf_opt (o : option string) : Prop :=
  match o with Some s => valid_utf8 s | None => True end.

Definition wf_public_key (k : PublicKeyMaterial) : Prop :=
  valid_utf8 (pk_algo k) /\ valid_utf8 (pk_public_key_hex k).

Definition wf_keyed (k : KeyedPublicKey) : Prop :=
  valid_utf8 (key_id k) /\ valid_utf8 (algo k) /\ valid_utf8 (public_key_hex k).

Definition wf_tls (t : TlsSpki) : Prop := wf_opt (domain t) /\ valid_utf8 (spki_sha256_hex t).

Definition wf_identity (i : WorkloadIdentity) : Prop :=
  wf_public_key (public_key i) /\ wf_opt (subject i).

Definition wf_epoch (e : KeysetEpoch) : Prop := is_u64 (version e) /\ is_u64 (not_after e).

Record wf_keyset (k : WorkloadKeyset) : Prop := {
  wf_keyset_identity : wf_identity (workload_identity k);
  wf_keyset_epoch : wf_epoch (keyset_epoch k);
  wf_keyset_receipt : Forall wf_keyed (receipt_signing_keys k);
  wf_keyset_e2ee : Forall wf_keyed (e2ee_public_keys k);
  wf_keyset_tls : Forall wf_tls (tls_public_keys k);
}.

Create HintDb canon.
Lemma valid_key_literal s : valid_utf8b s = true -> valid_utf8 s.
Proof. apply valid_utf8b_sound. Qed.
#[export] Hint Extern 1 (valid_utf8 _) => (apply valid_key_literal; reflexivity) : canon.
#[export] Hint Extern 0 (valid_utf8 _) => assumption : canon.

Lemma wf_Obj_entries m :
  bool_decide (NoDup (map_keys m)) = true ->
  Forall (fun kv => valid_utf8 kv.1 /\ wf_value kv.2) m -> wf_value (Obj m).
Proof. intros Hnd%bool_decide_eq_true HF. by apply wf_value_Obj. Qed.

Lemma wf_from_opt_str o : wf_opt o -> wf_value (from_opt_str o).
Proof. by destruct o. Qed.

Lemma wf_Arr_map {A} (f : A -> Value) (P : A -> Prop) l :
  (forall a, P a -> wf_value (f a)) -> Forall P l -> wf_value (Arr (map f l)).
Proof.
  intros Hf Hl. apply wf_value_Arr, Forall_fmap. eapply Forall_impl; [exact Hl|]. exact Hf.
Qed.

(** Walk down an object literal. *)
Ltac wf_obj :=
  apply wf_Obj_entries; [reflexivity|];
  repeat (apply Forall_cons; split; [split; [cbn; eauto with canon|cbn [snd]]|]); [..|constructor].

Lemma has_float_Obj_intro m : Forall (fun kv : string * Value => has_float kv.2 = false) m -> has_float (Obj m) = false.
Proof. cbn. induction 1 as [|[k v] m Hv _ IH]; cbn; [done|]. cbn in Hv. by rewrite Hv. Qed.

Lemma has_float_Arr_map {A} (f : A -> Value) l :
  (forall a, has_float (f a) = false) -> has_float (Arr (map f l)) = false.
Proof. intros Hf. cbn. induction l; cbn; [done|]. by rewrite Hf. Qed.

Lemma value_eqb_Arr_map {A} (f : A -> Value) l1 l2 :
  (forall a b, value_eqb (f a) (f b) = true -> a = b) ->
  value_eqb (Arr (map f l1)) (Arr (map f l2)) = true -> l1 = l2.
Proof.
  intros Hf. rewrite value_eqb_Arr. revert l2.
  induction l1 as [|a l1 IH]; intros [|b l2] HF; try by inversion HF.
  inversion HF; subst. f_equal; auto.
Qed.

Lemma from_opt_str_eqb o1 o2 : value_eqb (from_opt_str o1) (from_opt_str o2) = true -> o1 = o2.
Proof. destruct o1, o2; cbn; try done. by intros ->%String.eqb_eq. Qed.

Lemma Str_eqb s1 s2 : value_eqb (Str s1) (Str s2) = true -> s1 = s2.
Proof. cbn. by intros ->%String.eqb_eq. Qed.

Lemma from_u64_eqb x y : value_eqb (from_u64 x) (from_u64 y) = true -> x = y.
Proof. cbn. apply Z.eqb_eq. Qed.

(** Equality of two object literals with the same keys, entry by entry. *)
Ltac obj_eqb H :=
  apply value_eqb_Obj in H as [_ H];
  repeat (let Hv := fresh "Hv" in apply Forall_cons in H as [(? & [= <-] & Hv) H]; cbn [snd] in Hv);
  clear H.

(** ** Canonical projections of the structures *)

#[export] Program Instance public_key_canonical : Canonical PublicKeyMaterial := {|
  to_canonical_value := PublicKeyMaterial_value; canon_wf := wf_public_key |}.
Next Obligation. intros a [??]. wf_obj; done. Qed.
Next Obligation. done. Qed.
Next Obligation.
  intros [a1 p1] [a2 p2] E. obj_eqb E. apply Str_eqb in Hv, Hv0. by subst.
Qed.

#[export] Program Instance keyed_canonical : Canonical KeyedPublicKey := {|
  to_canonical_value := KeyedPublicKey_value; canon_wf := wf_keyed |}.
Next Obligation. intros a (?&?&?). wf_obj; done. Qed.
Next Obligation. done. Qed.
Next Obligation.
  intros [i1 a1 p1] [i2 a2 p2] E. obj_eqb E. apply Str_eqb in Hv, Hv0, Hv1. by subst.
Qed.

#[export] Program Instance tls_canonical : Canonical TlsSpki := {|
  to_canonical_value := TlsSpki_value; canon_wf := wf_tls |}.
Next Obligation.
  intros [[d|] s] [? ?]; unfold TlsSpki_value; cbn [domain spki_sha256_hex map_insert]; wf_obj; done.
Qed.
Next Obligation. intros [[d|] s] _; done. Qed.
Next Obligation.
  intros [[d1|] s1] [[d2|] s2] E; unfold TlsSpki_value in E; try done;
    cbn [domain spki_sha256_hex map_insert] in E;
    obj_eqb E; try apply Str_eqb in Hv; try apply Str_eqb in Hv0; by subst.
Qed.

#[export] Program Instance identity_canonical : Canonical WorkloadIdentity := {|
  to_canonical_value := WorkloadIdentity_value; canon_wf := wf_identity |}.
Next Obligation.
  intros a [??]. wf_obj; [exact (canon_value_wf (public_key a) H)|by apply wf_from_opt_str].
Qed.
Next Obligation. intros [p [s|]] _; done. Qed.
Next Obligation.
  intros [p1 s1] [p2 s2] E. obj_eqb E.
  pose proof (canon_value_inj p1 p2 Hv). apply from_opt_str_eqb in Hv0.
  cbn in *. by subst.
Qed.

#[export] Program Instance epoch_canonical : Canonical KeysetEpoch := {|
  to_canonical_value := KeysetEpoch_value; canon_wf := wf_epoch |}.
Next Obligation. intros a [??]. wf_obj; done. Qed.
Next Obligation. done. Qed.
Next Obligation.
  intros [v1 n1] [v2 n2] E. obj_eqb E. apply from_u64_eqb in Hv, Hv0. cbn in *. by subst.
Qed.

#[export] Program Instance keyset_canonical : Canonical WorkloadKeyset := {|
  to_canonical_value := WorkloadKeyset_value; canon_wf := wf_keyset |}.
Next Obligation.
  intros a [Hi He Hr Hk Ht]. wf_obj.
  - exact (canon_value_wf (workload_identity a) Hi).
  - exact (canon_value_wf (keyset_epoch a) He).
  - eapply wf_Arr_map; [exact (canon_value_wf (A := KeyedPublicKey))|done].
  - eapply wf_Arr_map; [exact (canon_value_wf (A := KeyedPublicKey))|done].
  - eapply wf_Arr_map; [exact (canon_value_wf (A := TlsSpki))|done].
Qed.
Next Obligation.
  intros a [Hi He _ _ _].
  pose proof (canon_value_int (workload_identity a) Hi) as Ei.
  pose proof (canon_value_int (keyset_epoch a) He) as Ee.
  apply has_float_Obj_intro. repeat (apply Forall_cons; split; [cbn [snd]|]); try done.
  1,2: by apply has_float_Arr_map.
  apply has_float_Arr_map. by intros [[]].
Qed.
Next Obligation.
  intros [i1 e1 r1 k1 t1] [i2 e2 r2 k2 t2] E. obj_eqb E. cbn in *.
  pose proof (canon_value_inj i1 i2 Hv). pose proof (canon_value_inj e1 e2 Hv0).
  apply value_eqb_Arr_map in Hv1; [|exact (canon_value_inj (A := KeyedPublicKey))].
  apply value_eqb_Arr_map in Hv2; [|exact (canon_value_inj (A := KeyedPublicKey))].
  apply value_eqb_Arr_map in Hv3; [|exact (canon_value_inj (A := TlsSpki))].
  by subst.
Qed.


#[export] Program Instance statement_canonical : Canonical AttestationStatement := {|
  to_canonical_value := AttestationStatement_value;
  canon_wf s := valid_utf8 (st_workload_id s) /\ valid_utf8 (st_workload_keyset_digest s)
                /\ wf_opt (st_nonce s) |}.
Next Obligation.
  intros a (?&?&?). wf_obj; [by apply valid_utf8b_sound|done|done|by apply wf_from_opt_str].
Qed.
Next Obligation. intros [w d [n|]] _; done. Qed.
Next Obligation.
  intros [w1 d1 n1] [w2 d2 n2] E. obj_eqb E. cbn in *.
  apply Str_eqb in Hv0, Hv1. apply from_opt_str_eqb in Hv2. by subst.
Qed.

(** ** What the digests and payloads identify *)

(** The keyset with another epoch. *)
Definition with_epoch (k : WorkloadKeyset) (e : KeysetEpoch) : WorkloadKeyset :=
  {| workload_identity := workload_identity k; keyset_epoch := e;
     receipt_signing_keys := receipt_signing_keys k;
     e2ee_public_keys := e2ee_public_keys k; tls_public_keys := tls_public_keys k |}.

(** The value the material fingerprint digests, once the epoch is removed. *)
Definition material_value (k : WorkloadKeyset) : Value :=
  match WorkloadKeyset_value k with
  | Obj obj => Obj (map_remove "keyset_epoch" obj)
  | value => value
  end.

Lemma material_value_wf k : wf_keyset k -> wf_value (material_value k).
Proof.
  intros [Hi He Hr Hk Ht].
  unfold material_value, WorkloadKeyset_value, map_remove; cbn [map_remove_at String.eqb Ascii.eqb Bool.eqb].
  cbn. wf_obj.
  - exact (canon_value_wf (workload_identity k) Hi).
  - eapply wf_Arr_map; [exact (canon_value_wf (A := TlsSpki))|done].
  - eapply wf_Arr_map; [exact (canon_value_wf (A := KeyedPublicKey))|done].
  - eapply wf_Arr_map; [exact (canon_value_wf (A := KeyedPublicKey))|done].
Qed.

Lemma material_value_inj k1 k2 :
  value_eqb (material_value k1) (material_value k2) = true ->
  k1 = with_epoch k2 (keyset_epoch k1).
Proof.
  destruct k1 as [i1 e1 r1 x1 t1], k2 as [i2 e2 r2 x2 t2]. unfold material_value, with_epoch. cbn.
  intros E. obj_eqb E. cbn in *.
  pose proof (canon_value_inj i1 i2 Hv).
  apply value_eqb_Arr_map in Hv0; [|exact (canon_value_inj (A := TlsSpki))].
  apply value_eqb_Arr_map in Hv1; [|exact (canon_value_inj (A := KeyedPublicKey))].
  apply value_eqb_Arr_map in Hv2; [|exact (canon_value_inj (A := KeyedPublicKey))].
  by subst.
Qed.

Lemma fingerprint_digest `{Digest} k : keyset_material_fingerprint k = jcs_sha256_hex (material_value k).
Proof. reflexivity. Qed.

Lemma endorsement_wf d : valid_utf8 d -> wf_value (KeysetEndorsementPayload_value d).
Proof. intros. wf_obj; [by apply valid_utf8b_sound|done]. Qed.

Lemma revocation_wf d : valid_utf8 d -> wf_value (KeysetRevocationPayload_value d).
Proof. intros. wf_obj; [by apply valid_utf8b_sound|done]. Qed.

Lemma attestation_statement_Ok `{Digest} k n s :
  attestation_statement k n = Ok s ->
  workload_keyset_digest k = Ok (st_workload_keyset_digest s) /\ st_nonce s = n
  /\ workload_id (workload_identity k) = Ok (st_workload_id s).
Proof.
  unfold attestation_statement. rewrite result_bind_Ok. intros (i & Hi & E).
  apply result_bind_Ok in E as (d & Hd & [= <-]). done.
Qed.

Lemma jcs_sha256_hex_valid `{DigestLaws} v d : jcs_sha256_hex v = Ok d -> valid_utf8 d.
Proof. intros (b & _ & ->)%jcs_sha256_hex_Ok. apply digest_string_valid. Qed.

Lemma statement_wf `{DigestLaws} k n s :
  wf_opt n -> attestation_statement k n = Ok s -> canon_wf s.
Proof.
  intros Hn (Hd & Hsn & Hi)%attestation_statement_Ok. split_and!.
  - by eapply jcs_sha256_hex_valid.
  - by eapply jcs_sha256_hex_valid.
  - by rewrite Hsn.
Qed.

Lemma statement_binds `{DigestLaws} k1 k2 n1 n2 s1 s2 r :
  wf_keyset k1 -> wf_keyset k2 -> wf_opt n1 -> wf_opt n2 ->
  attestation_statement k1 n1 = Ok s1 -> attestation_statement k2 n2 = Ok s2 ->
  report_data s1 = Ok r -> report_data s2 = Ok r ->
  (k1 = k2 /\ n1 = n2) \/
  value_collision (AttestationStatement_value s1) (AttestationStatement_value s2) \/
  value_collision (WorkloadKeyset_value k1) (WorkloadKeyset_value k2).
Proof.
  intros Hk1 Hk2 Hn1 Hn2 E1 E2 Hr1 Hr2.
  pose proof (canon_value_wf s1 (statement_wf _ _ _ Hn1 E1)) as Hw1.
  pose proof (canon_value_wf s2 (statement_wf _ _ _ Hn2 E2)) as Hw2.
  destruct (jcs_raw_binds _ _ r Hw1 Hw2 Hr1 Hr2) as [Heq|Hc]; [|by right; left].
  pose proof (canon_value_inj s1 s2 Heq) as ->.
  apply attestation_statement_Ok in E1 as (Hd1 & Hsn1 & _), E2 as (Hd2 & Hsn2 & _).
  destruct (jcs_digest_binds (CA := keyset_canonical) k1 k2 _ Hk1 Hk2 Hd1 Hd2) as [->|Hc]; [left|by right; right].
  split; [done|congruence].
Qed.

(** The hardware report identifies what the gateway attests: two
    attestation statements with the same [report_data] are for the same keyset
    and the same caller nonce, unless SHA-256 collides on the two statements or
    on the two keysets themselves. *)
Theorem report_data_binds `{DigestLaws} k1 k2 n1 n2 s1 s2 r :
  wf_keyset k1 -> wf_keyset k2 -> wf_opt n1 -> wf_opt n2 ->
  attestation_statement k1 n1 = Ok s1 -> attestation_statement k2 n2 = Ok s2 ->
  report_data s1 = Ok r -> report_data s2 = Ok r ->
  (k1 = k2 /\ n1 = n2) \/
  value_collision (AttestationStatement_value s1) (AttestationStatement_value s2) \/
  value_collision (WorkloadKeyset_value k1) (WorkloadKeyset_value k2).
Proof. apply statement_binds. Qed.

(** A concrete keyset. *)
Definition demo_key (id : string) : KeyedPublicKey :=
  {| key_id := id; algo := "ecdsa-secp256k1"; public_key_hex := "02ab" |}.

Definition demo_keyset (v : Z) : WorkloadKeyset :=
  {| workload_identity := {| public_key := {| pk_algo := "ecdsa-secp256k1"; pk_public_key_hex := "03cd" |};
                             subject := Some "gateway.example" |};
     keyset_epoch := {| version := v; not_after := 1900000000 |};
     receipt_signing_keys := [demo_key "receipt-1"];
     e2ee_public_keys := [demo_key "e2ee-1"];
     tls_public_keys := [{| domain := Some "gateway.example"; spki_sha256_hex := "aa" |}] |}.

Lemma demo_keyset_wf v : is_u64 v -> wf_keyset (demo_keyset v).
Proof.
  intros Hv. split; cbn.
  - repeat split; by apply valid_utf8b_sound.
  - split; [done|]. split; done.
  - repeat constructor; by apply valid_utf8b_sound.
  - repeat constructor; by apply valid_utf8b_sound.
  - repeat constructor; by apply valid_utf8b_sound.
Qed.

Lemma is_u64_small x : (0 <=? x) && (x <=? u64_max) = true -> is_u64 x.
Proof. rewrite andb_true_iff, !Z.leb_le. done. Qed.

Lemma report_data_binds_witness :
  let D := demo_digest in
  exists s r, attestation_statement (demo_keyset 3) (Some "n") = Ok s /\ report_data s = Ok r /\
    ((demo_keyset 3 = demo_keyset 3 /\ Some "n" = Some "n") \/
     value_collision (AttestationStatement_value s) (AttestationStatement_value s) \/
     value_collision (WorkloadKeyset_value (demo_keyset 3)) (WorkloadKeyset_value (demo_keyset 3))).
Proof.
  intros D.
  destruct (attestation_statement (demo_keyset 3) (Some "n")) as [s|] eqn:E; [|vm_compute in E; discriminate E].
  destruct (report_data s) as [r|] eqn:Er; [|vm_compute in E; injection E as <-; vm_compute in Er; discriminate Er].
  exists s, r. split; [reflexivity|]. split; [exact Er|].
  refine (report_data_binds (H0 := demo_digest_laws) _ _ _ _ s s r _ _ _ _ E E Er Er);
    first [apply demo_keyset_wf; apply is_u64_small; reflexivity | apply valid_utf8b_sound; reflexivity].
Defined.

(** The material fingerprint depends on nothing but the key material: it
    ignores the epoch, and two keysets with the same fingerprint differ at most
    in their epoch, unless SHA-256 collides on their material. *)
Theorem fingerprint_binds_material `{Digest} k1 k2 d :
  wf_keyset k1 -> wf_keyset k2 ->
  keyset_material_fingerprint k1 = Ok d -> keyset_material_fingerprint k2 = Ok d ->
  (forall e, keyset_material_fingerprint (with_epoch k1 e) = Ok d) /\
  (k1 = with_epoch k2 (keyset_epoch k1) \/ value_collision (material_value k1) (material_value k2)).
Proof.
  rewrite !fingerprint_digest. intros Hk1 Hk2 E1 E2. split; [intros e; exact E1|].
  destruct (jcs_value_binds _ _ d (material_value_wf _ Hk1) (material_value_wf _ Hk2) E1 E2); [|by right].
  left. by apply material_value_inj.
Qed.

Lemma fingerprint_binds_material_witness :
  let D := demo_digest in
  exists d, keyset_material_fingerprint (demo_keyset 3) = Ok d /\
    (demo_keyset 3 = with_epoch (demo_keyset 4) (keyset_epoch (demo_keyset 3)) \/
     value_collision (material_value (demo_keyset 3)) (material_value (demo_keyset 4))).
Proof.
  intros D. eexists. split; [vm_compute; reflexivity|].
  refine (proj2 (fingerprint_binds_material (demo_keyset 3) (demo_keyset 4) _ _ _ _ _));
    [apply demo_keyset_wf; apply is_u64_small; reflexivity..|vm_compute; reflexivity|vm_compute; reflexivity].
Defined.

(** Signatures of the identity key cannot be replayed across purposes: the
    bytes signed to endorse a keyset are never the bytes signed to revoke one,
    and neither are the bytes of an attestation statement, whatever the digests
    and the caller's nonce are. *)
Theorem signed_payloads_disjoint `{DigestLaws} k dr s n be br bs :
  valid_utf8 dr -> wf_opt n ->
  keyset_endorsement_payload k = Ok be ->
  keyset_revocation_payload dr = Ok br ->
  attestation_statement k n = Ok s -> canonicalize (AttestationStatement_value s) = Ok bs ->
  be <> br /\ be <> bs /\ br <> bs.
Proof.
  intros Hdr Hn (d & Hd & He)%result_bind_Ok Hr Hs Hbs.
  pose proof (endorsement_wf d (jcs_sha256_hex_valid _ _ Hd)) as We.
  pose proof (revocation_wf dr Hdr) as Wr.
  pose proof (canon_value_wf s (statement_wf _ _ _ Hn Hs)) as Ws.
  split_and!; intros <-.
  - by pose proof (canonicalize_inj _ _ _ We Wr He Hr).
  - by pose proof (canonicalize_inj _ _ _ We Ws He Hbs).
  - by pose proof (canonicalize_inj _ _ _ Wr Ws Hr Hbs).
Qed.

Lemma signed_payloads_disjoint_witness :
  let D := demo_digest in
  exists s be br bs, attestation_statement (demo_keyset 1) None = Ok s /\
    keyset_endorsement_payload (demo_keyset 1) = Ok be /\ keyset_revocation_payload "sha256:00" = Ok br /\
    canonicalize (AttestationStatement_value s) = Ok bs /\ be <> br /\ be <> bs /\ br <> bs.
Proof.
  intros D.
  destruct (attestation_statement (demo_keyset 1) None) as [s|] eqn:Es; [|vm_compute in Es; discriminate Es].
  destruct (keyset_endorsement_payload (demo_keyset 1)) as [be|] eqn:Ee; [|vm_compute in Ee; discriminate Ee].
  destruct (keyset_revocation_payload "sha256:00") as [br|] eqn:Er; [|vm_compute in Er; discriminate Er].
  destruct (canonicalize (AttestationStatement_value s)) as [bs|] eqn:Eb;
    [|vm_compute in Es; injection Es as <-; vm_compute in Eb; discriminate Eb].
  exists s, be, br, bs. split; [reflexivity|]. split; [reflexivity|]. split; [reflexivity|].
  split; [exact Eb|].
  refine (signed_payloads_disjoint (H0 := demo_digest_laws) (demo_keyset 1) "sha256:00" s None be br bs
            _ _ Ee Er Es Eb); [apply valid_utf8b_sound; reflexivity|exact I].
Defined.
