(* ===== verification/Fs.v ===== *)
(** * Files: the part of [std::fs] and [std::path] the gateway uses

    The world holds the regular files and a list of injected faults.  Every
    operation consumes the head of the list: [None] lets it run, [Some f] makes
    it fail, a failing write leaving an arbitrary prefix of its data behind.
    Past the end of the list no operation fails. *)
From S2P Require Import Prelude.

(** A path of the state directory: the directory and the file name. *)
Definition Path : Type := (string * string)%type.

Definition path_display (p : Path) : string := p.1 +:+ "/" +:+ p.2.

(** A path given as text: what precedes its last slash, and its file name. *)
Fixpoint split_last_slash (s : string) : option (string * string) :=
  match s with
  | EmptyString => None
  | String c rest =>
      match split_last_slash rest with
      | Some (dir, name) => Some (String c dir, name)
      | None => if Ascii.eqb c "/" then Some ("", rest) else None
      end
  end.

Definition path_of (s : string) : Path := default ("", s) (split_last_slash s).

Fixpoint rsplit_dot_rev (acc : list ascii) (l : list ascii) : option (list ascii * list ascii) :=
  match l with
  | [] => None
  | c :: l' => if Ascii.eqb c "." then Some (rev l', acc) else rsplit_dot_rev (c :: acc) l'
  end.

(** [Path::file_stem]: the name before its last dot, the whole name when there
    is no dot or only a leading one. *)
Definition file_stem (name : string) : string :=
  if String.eqb name ".." then name
  else match rsplit_dot_rev [] (rev (String.list_ascii_of_string name)) with
       | Some (before, _) => if bool_decide (before = []) then name else String.string_of_list_ascii before
       | None => name
       end.

Definition with_extension (p : Path) (ext : string) : Path :=
  (p.1, file_stem p.2 +:+ "." +:+ ext).

Inductive ErrorKind := NotFound | InvalidData | WouldBlock | OtherIo.

Record io_error := { kind : ErrorKind; message : string }.

(** An injected failure of an operation: its message, and for a write the
    number of bytes that reach the file. *)
Record Fault := mkFault { fault_message : string; fault_written : nat }.

Definition fault_error (f : Fault) : io_error := {| kind := OtherIo; message := fault_message f |}.

Record World := {
  files : gmap Path string;
  faults : list (option Fault);
}.

(** The world without faults to come: what a restart reads. *)
Definition settled (w : World) : World := {| files := files w; faults := [] |}.

Definition Io (A : Type) : Type := World -> result io_error A * World.

#[export] Instance io_ret : MRet Io := fun A a w => (Ok a, w).
#[export] Instance io_bind : MBind Io := fun A B f m w =>
  match m w with
  | (Ok a, w') => f a w'
  | (Err e, w') => (Err e, w')
  end.

Definition io_err {A : Type} (e : io_error) : Io A := fun w => (Err e, w).
Definition io_of_result {A : Type} (r : result io_error A) : Io A := fun w => (r, w).

(** Run one operation under the next fault. *)
Definition with_fault {A : Type} (on_fault : Fault -> gmap Path string -> gmap Path string)
    (op : gmap Path string -> result io_error A * gmap Path string) : Io A := fun w =>
  match faults w with
  | Some f :: fs => (Err (fault_error f), {| files := on_fault f (files w); faults := fs |})
  | None :: fs => let '(r, m) := op (files w) in (r, {| files := m; faults := fs |})
  | [] => let '(r, m) := op (files w) in (r, {| files := m; faults := [] |})
  end.

Definition not_found : io_error := {| kind := NotFound; message := "No such file or directory" |}.

Definition not_utf8 : io_error :=
  {| kind := InvalidData; message := "stream did not contain valid UTF-8" |}.

Definition read_to_string (p : Path) : Io string :=
  with_fault (fun _ m => m)
    (fun m => match m !! p with
              | Some t => (if valid_utf8b t then Ok t else Err not_utf8, m)
              | None => (Err not_found, m)
              end).

(** [fs::write] truncates, then writes; a fault leaves a prefix. *)
Definition fs_write (p : Path) (text : string) : Io unit :=
  with_fault (fun f m => <[p := String.substring 0 (fault_written f) text]> m)
    (fun m => (Ok tt, <[p := text]> m)).

Definition fs_rename (from to : Path) : Io unit :=
  with_fault (fun _ m => m)
    (fun m => match m !! from with
              | Some t => (Ok tt, <[to := t]> (delete from m))
              | None => (Err not_found, m)
              end).

(** Reading raw bytes, [File::open] and a read to the end. *)
Definition read_bytes (p : Path) : Io string :=
  with_fault (fun _ m => m)
    (fun m => match m !! p with Some t => (Ok t, m) | None => (Err not_found, m) end).

(** [OpenOptions::new().create(true).append(true).open(p)] *)
Definition open_append (p : Path) : Io unit :=
  with_fault (fun _ m => m) (fun m => (Ok tt, <[p := default "" (m !! p)]> m)).

(** [write_all] on an append handle; a fault leaves a prefix. *)
Definition fs_append (p : Path) (text : string) : Io unit :=
  with_fault (fun f m => <[p := default "" (m !! p) +:+ String.substring 0 (fault_written f) text]> m)
    (fun m => (Ok tt, <[p := default "" (m !! p) +:+ text]> m)).

(** An operation on an open handle that changes no contents, [sync_all]. *)
Definition fs_sync (p : Path) : Io unit := with_fault (fun _ m => m) (fun m => (Ok tt, m)).

(** Directories are not part of the world: creating them succeeds or faults. *)
Definition create_dir_all (dir : string) : Io unit :=
  with_fault (fun _ m => m) (fun m => (Ok tt, m)).

(** ** Temp file plus atomic rename *)

Definition write_atomic (p : Path) (text : string) : Io unit :=
  create_dir_all p.1 ≫= fun _ =>
  let tmp := with_extension p "json.tmp" in
  fs_write tmp text ≫= fun _ => fs_rename tmp p.

Definition newline : string := String "010" "".

(** ** JSON text of a serialised type, from [serde_json] *)

Class JsonCodec (A : Type) : Type := {
  to_string_pretty : A -> result string string;
  from_str : string -> result string A;
}.

(** What the stores rely on: printing a value that fits its Rust type succeeds,
    prints UTF-8 and no blank text, and reading the text back, with the newline the
    stores append, gives the value. *)
Class JsonCodecLaws (A : Type) `{JsonCodec A} (fits : A -> Prop) : Prop := {
  codec_total a : fits a -> exists t, to_string_pretty a = Ok t;
  codec_roundtrip a t : fits a -> to_string_pretty a = Ok t ->
    from_str (t +:+ newline) = Ok a /\ is_blank (t +:+ newline) = false
    /\ valid_utf8b (t +:+ newline) = true;
}.

(** ** Lemmas *)

Lemma rsplit_dot_rev_spec l acc before after :
  rsplit_dot_rev acc l = Some (before, after) ->
  rev l ++ acc = before ++ "."%char :: after /\ (forall c, c ∈ after -> c ∈ acc \/ c <> "."%char).
Proof.
  revert acc. induction l as [|c l IH]; intros acc; cbn [rsplit_dot_rev]; [done|].
  destruct (Ascii.eqb_spec c ".") as [->|Hc].
  - intros [= <- <-]. cbn. rewrite <- app_assoc. split; [done|]. auto.
  - intros [E Hin]%IH. cbn. rewrite <- app_assoc. split; [exact E|].
    intros x [[->|?]%elem_of_cons|?]%Hin; auto.
Qed.

Lemma list_ascii_app (a b : string) :
  String.list_ascii_of_string (a +:+ b) = String.list_ascii_of_string a ++ String.list_ascii_of_string b.
Proof. induction a; cbn; congruence. Qed.

(** An extension with a dot inside never gives the path back: the temporary
    file of an atomic write is not the target. *)
Lemma with_extension_neq p ext : "."%char ∈ String.list_ascii_of_string ext -> with_extension p ext <> p.
Proof.
  intros Hext. destruct p as [d name]. unfold with_extension. cbn [fst snd]. intros [= E].
  apply (f_equal String.list_ascii_of_string) in E. rewrite list_ascii_app in E.
  unfold file_stem in E.
  destruct (String.eqb name ".."); [apply (f_equal length) in E; rewrite length_app in E; cbn in E; lia|].
  destruct (rsplit_dot_rev [] _) as [[before after]|] eqn:Hs;
    [|apply (f_equal length) in E; rewrite length_app in E; cbn in E; lia].
  apply rsplit_dot_rev_spec in Hs as [Hs Hin]. rewrite rev_involutive, app_nil_r in Hs.
  case_bool_decide as Hb; [apply (f_equal length) in E; rewrite length_app in E; cbn in E; lia|].
  rewrite Hs, String.list_ascii_of_string_of_list_ascii in E. apply app_inv_head in E.
  cbn in E. injection E as E. rewrite E in Hext.
  by destruct (Hin "."%char Hext) as [?%elem_of_nil|].
Qed.

Lemma tmp_neq p : with_extension p "json.tmp" <> p.
Proof. apply with_extension_neq. cbn. set_solver. Qed.

(** What an atomic write does under any faults: it succeeds and the target has
    the text, or it fails and the target is as it was; no other file but the
    temporary one changes. *)
Lemma write_atomic_spec p text w r w' :
  write_atomic p text w = (r, w') ->
  match r with
  | Ok _ => files w' !! p = Some text
  | Err _ => files w' !! p = files w !! p
  end /\
  (forall q, q <> p -> q <> with_extension p "json.tmp" -> files w' !! q = files w !! q).
Proof.
  unfold write_atomic, mbind, io_bind, create_dir_all, fs_write, fs_rename, with_fault.
  pose proof (tmp_neq p) as Hne. destruct w as [m fs]. cbn [files faults].
  destruct fs as [|[f1|] [|[f2|] [|[f3|] fs]]]; cbn [files faults];
    rewrite ?lookup_insert_eq; cbn [files faults]; intros [= <- <-]; cbn [files faults];
    rewrite ?lookup_insert_eq; (split; [simplify_map_eq; done|]); intros q H1 H2; simplify_map_eq; done.
Qed.

Lemma write_atomic_ok p text w : faults w = [] -> (write_atomic p text w).1 = Ok tt.
Proof.
  intros Hf. unfold write_atomic, mbind, io_bind, create_dir_all, fs_write, fs_rename, with_fault.
  rewrite Hf. cbn. by rewrite lookup_insert_eq.
Qed.

(** A concrete codec of any countable type, for the witnesses: the number of
    the value in brackets. *)
Definition drop_last (s : string) : string := String.substring 0 (String.length s - 1) s.

Definition countable_codec (A : Type) `{Countable A} : JsonCodec A := {|
  to_string_pretty a := Ok ("[" +:+ z_to_string (Zpos (encode a)));
  from_str t :=
    match t with
    | String _ t' =>
        match string_to_z (drop_last t') with
        | Some (Zpos p) => ok_or (decode p) "unknown"
        | _ => Err "syntax"
        end
    | EmptyString => Err "syntax"
    end |}.

Lemma substring_prefix s t : String.substring 0 (String.length s) (s +:+ t) = s.
Proof. induction s as [|c s IH]; cbn; [by destruct t|]. by rewrite IH. Qed.

Lemma drop_last_newline s : drop_last (s +:+ newline) = s.
Proof. unfold drop_last. rewrite string_app_length, Nat.add_sub. apply substring_prefix. Qed.

Lemma countable_codec_laws (A : Type) `{Countable A} : @JsonCodecLaws A (countable_codec A) (fun _ => True).
Proof.
  split.
  - eauto.
  - intros a t _ [= <-]. split; [|split; [reflexivity|]].
    2: { apply ascii_valid_utf8b. cbn -[z_to_string]. rewrite string_forallb_app.
         rewrite (string_forallb_impl _ _ _ num_char_ascii (z_to_string_num_chars _)). reflexivity. }
    cbn -[z_to_string string_to_z drop_last newline].
    rewrite drop_last_newline, string_to_z_to_string. by rewrite decode_encode.
Qed.

Lemma codec_laws_weaken (A : Type) `{JsonCodec A} (P Q : A -> Prop) :
  (forall a, Q a -> P a) -> JsonCodecLaws A P -> JsonCodecLaws A Q.
Proof. intros HPQ [H1 H2]. split; eauto. Qed.
