(* ===== verification/Revocation.v ===== *)
(** * Keyset revocations

    Model of [src/aggregator/revocation_store.rs], and of the key provider trait
    of [src/aci/keys.rs] as far as the service signs with it. *)
From S2P Require Import Prelude Json Canonical Identity Fs.
Import Types.

(** ** Keys: the trait [KeyProvider] *)

Inductive KeyError :=
| UnknownReceiptKeyId (key_id : string)
| UnknownE2eeKeyId (key_id : string)
| UnsupportedAlgo (algo : string)
| Crypto (reason : string)
| Quote (reason : string).

Class KeyProvider : Type := {
  identity_public_key : PublicKeyMaterial;
  sign_keyset_endorsement : string -> result KeyError string;
  sign_keyset_revocation : string -> result KeyError string;
  receipt_keys : list KeyedPublicKey;
  sign_receipt : string -> string -> result KeyError string;
}.

(** ** The store *)

Record RevocationSignature := { rs_algo : string; value_hex : string }.

Record RevocationStatement := {
  rv_workload_id : string;
  rv_workload_keyset_digest : string;
  purpose : string;
  revocation : RevocationSignature;
  revoked_at : Z;
}.

#[export] Instance RevocationSignature_eq_dec : EqDecision RevocationSignature.
Proof. solve_decision. Defined.
#[export] Instance RevocationStatement_eq_dec : EqDecision RevocationStatement.
Proof. solve_decision. Defined.

Definition revocation_purpose : string := KEYSET_REVOCATION_PURPOSE.

Definition RevocationStatement_new (workload_id workload_keyset_digest algo value_hex : string)
    (revoked_at : Z) : RevocationStatement :=
  {| rv_workload_id := workload_id;
     rv_workload_keyset_digest := workload_keyset_digest;
     purpose := revocation_purpose;
     revocation := {| rs_algo := algo; value_hex := value_hex |};
     revoked_at := revoked_at |}.

Record RevocationStore := {
  store_path : option Path;
  statements : list RevocationStatement;
}.

Definition in_memory : RevocationStore := {| store_path := None; statements := [] |}.

Section store.
Context `{JsonCodec (list RevocationStatement)}.

(** The read is matched on, so its error is a value here. *)
Definition open_store (path : Path) : Io RevocationStore := fun w =>
  let '(read, w') := read_to_string path w in
  let statements :=
    match read with
    | Ok text =>
        if is_blank text then Ok []
        else map_err (fun e => {| kind := InvalidData;
               message := "invalid revocation store " +:+ path_display path +:+ ": " +:+ e |})
             (from_str text)
    | Err e => match kind e with NotFound => Ok [] | _ => Err e end
    end in
  ((fun l => {| store_path := Some path; statements := l |}) <$> statements, w').

Definition list_statements (s : RevocationStore) : list RevocationStatement := statements s.

Definition is_revoked (s : RevocationStore) (workload_keyset_digest : string) : bool :=
  existsb (fun st => String.eqb (rv_workload_keyset_digest st) workload_keyset_digest) (statements s).

Definition persist (s : RevocationStore) (statements : list RevocationStatement) : Io unit :=
  match store_path s with
  | None => mret tt
  | Some path =>
      create_dir_all path.1 ≫= fun _ =>
      io_of_result (map_err (fun e => {| kind := InvalidData; message := e |})
        (to_string_pretty statements)) ≫= fun text =>
      let tmp := with_extension path "json.tmp" in
      fs_write tmp (text +:+ newline) ≫= fun _ => fs_rename tmp path
  end.

(** The statement is pushed under the lock, then the whole set is persisted. *)
Definition record (s : RevocationStore) (st : RevocationStatement) (w : World) :
    result io_error unit * RevocationStore * World :=
  if existsb (fun x => String.eqb (rv_workload_keyset_digest x) (rv_workload_keyset_digest st))
       (statements s)
  then (Ok tt, s, w)
  else
    let s' := {| store_path := store_path s; statements := statements s ++ [st] |} in
    let '(r, w') := persist s' (statements s') w in (r, s', w').
End store.

(** ** Properties *)

Definition digests (s : RevocationStore) : list string := map rv_workload_keyset_digest (statements s).

Lemma is_revoked_elem s d : is_revoked s d = true <-> d ∈ digests s.
Proof.
  unfold is_revoked, digests. rewrite existsb_exists, list_elem_of_fmap. split.
  - intros (st & Hin & E%String.eqb_eq). exists st. split; [done|]. by apply list_elem_of_In.
  - intros (st & -> & Hin). exists st. split; [by apply list_elem_of_In|]. apply String.eqb_refl.
Qed.

(** The invariant of the store: one statement per digest. *)
Definition store_inv (s : RevocationStore) : Prop := NoDup (digests s).

(** What a statement is once it fits its Rust type. *)
Definition wf_statement (st : RevocationStatement) : Prop :=
  valid_utf8 (rv_workload_id st) /\ valid_utf8 (rv_workload_keyset_digest st) /\ valid_utf8 (purpose st)
  /\ valid_utf8 (rs_algo (revocation st)) /\ valid_utf8 (value_hex (revocation st)) /\ is_u64 (revoked_at st).

Section properties.
Context `{JsonCodec (list RevocationStatement)}.

(** The file of the store reads back as the store. *)
Definition synced (s : RevocationStore) (w : World) : Prop :=
  forall p, store_path s = Some p -> (open_store p (settled w)).1 = Ok s.

Lemma record_known s st w :
  rv_workload_keyset_digest st ∈ digests s -> record s st w = (Ok tt, s, w).
Proof.
  intros Hin. unfold record. apply is_revoked_elem in Hin. unfold is_revoked in Hin. by rewrite Hin.
Qed.

Lemma record_new s st w :
  rv_workload_keyset_digest st ∉ digests s ->
  record s st w =
  let s' := {| store_path := store_path s; statements := statements s ++ [st] |} in
  let '(r, w') := persist s' (statements s') w in (r, s', w').
Proof.
  intros Hin. unfold record. rewrite <- is_revoked_elem in Hin. unfold is_revoked in Hin.
  by destruct (existsb _ _).
Qed.

(** Persisting to a file is an atomic write of the printed statements. *)
Lemma persist_spec s l p w r w' :
  store_path s = Some p -> persist s l w = (r, w') ->
  match r with
  | Ok _ => exists t, to_string_pretty l = Ok t /\ files w' !! p = Some (t +:+ newline)
  | Err _ => files w' !! p = files w !! p
  end.
Proof.
  intros Hp. unfold persist. rewrite Hp. destruct (to_string_pretty l) as [t|e] eqn:Et.
  - intros E. assert (Ew : write_atomic p (t +:+ newline) w = (r, w')).
    { rewrite <- E. unfold write_atomic, mbind, io_bind, io_of_result.
      by destruct (create_dir_all _ w) as [[]?]. }
    apply write_atomic_spec in Ew as [Ew _]. destruct r; [eauto|done].
  - unfold mbind, io_bind, io_of_result, create_dir_all, with_fault.
    by destruct (faults w) as [|[]]; intros [= <- <-].
Qed.
End properties.

(** Recording a revocation takes effect at once and for good, whatever the
    file system does: the digest is revoked afterwards, every earlier statement
    stays in its place, at most one statement is added, no digest is ever
    listed twice, and a digest that is already revoked leaves the store and the
    files alone. *)
Theorem record_revokes `{JsonCodec (list RevocationStatement)} s st w r s' w' :
  store_inv s -> record s st w = (r, s', w') ->
  is_revoked s' (rv_workload_keyset_digest st) = true /\ store_inv s' /\ store_path s' = store_path s /\
  (statements s' = statements s ++ [st] \/ (statements s' = statements s /\ r = Ok tt /\ w' = w)).
Proof.
  intros Hinv. destruct (decide (rv_workload_keyset_digest st ∈ digests s)) as [Hin|Hin].
  - rewrite record_known by done. intros [= <- <- <-]. rewrite is_revoked_elem. split_and!; auto.
  - rewrite record_new by done. cbn zeta. destruct (persist _ _ w) as [r' w''].
    intros [= <- <- <-]. rewrite is_revoked_elem. unfold store_inv, digests in *. cbn. rewrite map_app.
    split; [set_solver|]. split; [|by auto].
    apply NoDup_app. split; [done|]. split; [|apply NoDup_singleton]. set_solver.
Qed.

(** A successful revocation survives a restart: when the file of the store
    agreed with it, it still does after [record] returned [Ok]. *)
Theorem record_durable `{JsonCodec (list RevocationStatement), !JsonCodecLaws (list RevocationStatement) (Forall wf_statement)}
    s st w s' w' :
  synced s w -> Forall wf_statement (statements s) -> wf_statement st ->
  record s st w = (Ok tt, s', w') -> synced s' w'.
Proof.
  intros Hs Hwf Hst. destruct (decide (rv_workload_keyset_digest st ∈ digests s)) as [Hin|Hin].
  { rewrite record_known by done. by intros [= <- <-]. }
  rewrite record_new by done. cbn zeta. set (s1 := {| store_path := _ |}).
  destruct (persist s1 _ w) as [r w1] eqn:Ep. intros [= Er <- <-] p Hp. subst r.
  pose proof (persist_spec _ _ p _ _ _ Hp Ep) as (t & Ht & Hf).
  apply codec_roundtrip in Ht as (Hr & Hb & Hu); [|by apply Forall_app; auto].
  unfold open_store, read_to_string, with_fault, settled. cbn [files faults].
  rewrite Hf, Hu. cbn. by rewrite Hb, Hr, <- Hp.
Qed.

(** A revocation whose write failed is not retried: the digest is revoked
    in memory, so a second [record] of it reports success without writing, and
    a restart reads a store in which the digest is not revoked. *)
Theorem record_retry_after_failure `{JsonCodec (list RevocationStatement)} s st w e s' w' p :
  synced s w -> store_path s = Some p -> is_revoked s (rv_workload_keyset_digest st) = false ->
  record s st w = (Err e, s', w') ->
  record s' st w' = (Ok tt, s', w') /\ (open_store p (settled w')).1 = Ok s /\ s' <> s.
Proof.
  intros Hs Hp Hn. assert (Hin : rv_workload_keyset_digest st ∉ digests s).
  { intros Hin%is_revoked_elem. congruence. }
  rewrite record_new by done. cbn zeta. set (s1 := {| store_path := _ |}).
  destruct (persist s1 _ w) as [r w1] eqn:Ep. intros [= Er <- <-]. subst r. split_and!.
  - apply record_known. unfold digests, s1. cbn [statements]. rewrite map_app.
    apply elem_of_app. right. constructor.
  - pose proof (persist_spec _ _ p _ _ _ Hp Ep) as Hf. cbn in Hf. specialize (Hs p Hp).
    unfold open_store, read_to_string, with_fault, settled in *. cbn [files faults] in *. rewrite Hf. by destruct (files w !! p).
  - intros E. apply (f_equal statements) in E. cbn in E. apply (f_equal length) in E.
    rewrite length_app in E. cbn in E. lia.
Qed.

(** ** A concrete store *)

Definition demo_statement (d : string) : RevocationStatement :=
  RevocationStatement_new "sha256:01" d "ecdsa-secp256k1" "ff" 1700000000.

#[export] Instance RevocationSignature_countable : Countable RevocationSignature.
Proof.
  refine (inj_countable' (fun s => (rs_algo s, value_hex s))
    (fun p => {| rs_algo := p.1; value_hex := p.2 |}) _). by intros [].
Defined.
#[export] Instance RevocationStatement_countable : Countable RevocationStatement.
Proof.
  refine (inj_countable'
    (fun s => (rv_workload_id s, rv_workload_keyset_digest s, purpose s, revocation s, revoked_at s))
    (fun '(a, b, c, d, e) => {| rv_workload_id := a; rv_workload_keyset_digest := b; purpose := c;
                                revocation := d; revoked_at := e |}) _). by intros [].
Defined.

Definition demo_codec : JsonCodec (list RevocationStatement) := countable_codec _.

Definition demo_path : Path := ("/state", "revocations.json").
Definition demo_store : RevocationStore := {| store_path := Some demo_path; statements := [] |}.
Definition demo_world (fs : list (option Fault)) : World := {| files := ∅; faults := fs |}.

Lemma record_revokes_witness :
  is_revoked (record (H := demo_codec) demo_store (demo_statement "sha256:aa") (demo_world [])).1.2
    "sha256:aa" = true.
Proof.
  pose (x := record (H := demo_codec) demo_store (demo_statement "sha256:aa") (demo_world [])).
  refine (proj1 (record_revokes (H := demo_codec) demo_store (demo_statement "sha256:aa") (demo_world [])
    x.1.1 x.1.2 x.2 _ _)); [apply NoDup_nil_2|vm_compute; reflexivity].
Defined.

Lemma demo_statement_wf d : valid_utf8b d = true -> wf_statement (demo_statement d).
Proof. intros Hd. repeat split; try (by apply valid_utf8b_sound); done. Qed.

Lemma record_durable_witness :
  let C := demo_codec in
  let x := record demo_store (demo_statement "sha256:aa") (demo_world []) in
  synced x.1.2 x.2.
Proof.
  intros C x.
  refine (record_durable (H := demo_codec) (JsonCodecLaws0 := _) demo_store (demo_statement "sha256:aa")
    (demo_world []) x.1.2 x.2 _ _ _ _).
  - apply (codec_laws_weaken _ (fun _ => True)); [done|apply countable_codec_laws].
  - intros p [= <-]. reflexivity.
  - constructor.
  - apply demo_statement_wf. reflexivity.
  - vm_compute. reflexivity.
Defined.

Lemma record_retry_after_failure_witness :
  let C := demo_codec in
  let w := demo_world [None; Some (mkFault "disk full" 1)] in
  let x := record demo_store (demo_statement "sha256:aa") w in
  record x.1.2 (demo_statement "sha256:aa") x.2 = (Ok tt, x.1.2, x.2) /\
  (open_store demo_path (settled x.2)).1 = Ok demo_store /\ x.1.2 <> demo_store.
Proof.
  intros C w x.
  refine (record_retry_after_failure (H := demo_codec) demo_store (demo_statement "sha256:aa") w
    {| kind := OtherIo; message := "disk full" |} x.1.2 x.2 demo_path _ _ _ _);
    [|reflexivity|reflexivity|vm_compute; reflexivity].
  intros p [= <-]. vm_compute. reflexivity.
Defined.
