(* ===== verification/Epoch.v ===== *)
(** * The managed keyset epoch

    Model of [src/aggregator/keyset_epoch.rs]: the decision of the epoch at
    startup, the walk past revoked digests, and the persisted record. *)
From S2P Require Import Prelude Json Canonical Identity Fs Revocation.
Import Types.

Definition DEFAULT_KEYSET_EPOCH_WINDOW_SECONDS : Z := 30 * 24 * 60 * 60.

Record PersistedKeysetEpoch := {
  pe_version : Z;
  pe_not_after : Z;
  pe_material_fingerprint : string;
}.

#[export] Instance PersistedKeysetEpoch_eq_dec : EqDecision PersistedKeysetEpoch.
Proof. solve_decision. Defined.

Definition epoch (p : PersistedKeysetEpoch) : KeysetEpoch :=
  {| version := pe_version p; not_after := pe_not_after p |}.

Definition resolve_epoch (previous : option PersistedKeysetEpoch) (material_fingerprint : string)
    (now window_seconds : Z) : PersistedKeysetEpoch :=
  match previous with
  | Some prev =>
      if String.eqb (pe_material_fingerprint prev) material_fingerprint && (now <? pe_not_after prev)
      then prev
      else {| pe_version := u64_add (pe_version prev) 1;
              pe_not_after := u64_saturating_add now window_seconds;
              pe_material_fingerprint := material_fingerprint |}
  | None => {| pe_version := 1;
               pe_not_after := u64_saturating_add now window_seconds;
               pe_material_fingerprint := material_fingerprint |}
  end.

Definition roll_forward (previous : PersistedKeysetEpoch) (now window_seconds : Z) :
    PersistedKeysetEpoch :=
  {| pe_version := u64_add (pe_version previous) 1;
     pe_not_after := u64_saturating_add now window_seconds;
     pe_material_fingerprint := pe_material_fingerprint previous |}.

(** The [Display] of [CanonicalError]. *)
Definition CanonicalError_to_string (e : CanonicalError) : string :=
  match e with
  | FloatNotAllowed => "JCS: float / non-integer numeric is not allowed in the ACI value space (RFC 8785 §3.2.2.3 number canonicalisation would require ECMAScript-262 serialisation)"
  | NonStringKey => "JCS: object key must be a string"
  | Serialize e => "JCS: value could not be serialized to JSON: " +:+ e
  end.

Section epoch.
Context `{Digest, JsonCodec PersistedKeysetEpoch}.

Definition load (path : Path) : Io (option PersistedKeysetEpoch) := fun w =>
  let '(read, w') := read_to_string path w in
  let loaded :=
    match read with
    | Ok text =>
        if is_blank text then Ok None
        else map_err (fun e => {| kind := InvalidData;
               message := "invalid keyset epoch state " +:+ path_display path +:+ ": " +:+ e |})
             (Some <$> from_str text)
    | Err e => match kind e with NotFound => Ok None | _ => Err e end
    end in
  (loaded, w').

Definition store (path : Path) (state : PersistedKeysetEpoch) : Io unit :=
  create_dir_all path.1 ≫= fun _ =>
  io_of_result (map_err (fun e => {| kind := InvalidData; message := e |})
    (to_string_pretty state)) ≫= fun text =>
  let tmp := with_extension path "json.tmp" in
  fs_write tmp (text +:+ newline) ≫= fun _ => fs_rename tmp path.

Definition invalid (e : CanonicalError) : io_error :=
  {| kind := InvalidData; message := CanonicalError_to_string e |}.

(** The body of the loop [for _ in 0..=max_rolls], [n] iterations left. *)
Fixpoint roll_loop (make_keyset : KeysetEpoch -> WorkloadKeyset) (revocations : RevocationStore)
    (now window_seconds : Z) (n : nat) (resolved : PersistedKeysetEpoch) :
    result io_error PersistedKeysetEpoch :=
  match n with
  | O => Ok resolved
  | S n' =>
      digest ← map_err invalid (workload_keyset_digest (make_keyset (epoch resolved)));
      if negb (is_revoked revocations digest) then Ok resolved
      else roll_loop make_keyset revocations now window_seconds n'
             (roll_forward resolved now window_seconds)
  end.

Definition resolve_launcher_epoch (state_path : Path) (make_keyset : KeysetEpoch -> WorkloadKeyset)
    (revocations : RevocationStore) (now window_seconds : Z) : Io KeysetEpoch :=
  io_of_result (map_err invalid
    (keyset_material_fingerprint (make_keyset {| version := 0; not_after := 0 |}))) ≫= fun fingerprint =>
  load state_path ≫= fun previous =>
  let resolved := resolve_epoch previous fingerprint now window_seconds in
  let max_rolls := S (length (list_statements revocations)) in
  io_of_result (roll_loop make_keyset revocations now window_seconds (S max_rolls) resolved)
  ≫= fun resolved =>
  (if decide (previous = Some resolved) then mret tt else store state_path resolved) ≫= fun _ =>
  mret (epoch resolved).
End epoch.

(** ** Lemmas *)

(** The states the loop tries, in order. *)
Fixpoint candidates (now window : Z) (n : nat) (st : PersistedKeysetEpoch) : list PersistedKeysetEpoch :=
  match n with
  | O => []
  | S n' => st :: candidates now window n' (roll_forward st now window)
  end.

Lemma candidates_versions now window n st :
  is_u64 (pe_version st) -> pe_version st + Z.of_nat n <= u64_max ->
  Forall (fun c => pe_version st <= pe_version c < pe_version st + Z.of_nat n
                   /\ pe_material_fingerprint c = pe_material_fingerprint st)
    (candidates now window n st).
Proof.
  revert st. induction n as [|n IH]; intros st Hu Hb; [constructor|].
  assert (Hv : pe_version (roll_forward st now window) = pe_version st + 1).
  { cbn. apply u64_add_small; [done|lia|lia]. }
  constructor; [split; [lia|done]|].
  eapply Forall_impl; [apply IH|]; rewrite ?Hv; [unfold is_u64 in *; lia|lia|].
  intros c [? ?]. split; [lia|done].
Qed.

Lemma candidates_nodup now window n st :
  is_u64 (pe_version st) -> pe_version st + Z.of_nat n <= u64_max ->
  NoDup (map pe_version (candidates now window n st)).
Proof.
  revert st. induction n as [|n IH]; intros st Hu Hb; [constructor|].
  assert (Hv : pe_version (roll_forward st now window) = pe_version st + 1).
  { cbn. apply u64_add_small; [done|lia|lia]. }
  cbn [candidates map]. constructor.
  - intros (c & Hc & Hin)%list_elem_of_fmap.
    pose proof (candidates_versions now window n (roll_forward st now window)) as HF.
    rewrite Forall_forall in HF. apply HF in Hin; rewrite ?Hv in *; unfold is_u64 in *; lia.
  - apply IH; rewrite Hv; [unfold is_u64 in *; lia|lia].
Qed.

Section lemmas.
Context `{Digest, JsonCodec PersistedKeysetEpoch}.
Variable base : WorkloadKeyset.
Variable revs : RevocationStore.

(** The digest under which a state would be served. *)
Definition served_digest (st : PersistedKeysetEpoch) : result CanonicalError string :=
  workload_keyset_digest (with_epoch base (epoch st)).

(** Served and not revoked. *)
Definition unrevoked (st : PersistedKeysetEpoch) : Prop :=
  exists d, served_digest st = Ok d /\ is_revoked revs d = false.

Lemma roll_loop_inv now window n st r :
  roll_loop (with_epoch base) revs now window n st = Ok r ->
  (r ∈ candidates now window n st /\ unrevoked r) \/
  Forall (fun c => exists d, served_digest c = Ok d /\ d ∈ digests revs) (candidates now window n st).
Proof.
  revert st. induction n as [|n IH]; intros st; cbn [roll_loop candidates]; [intros _; right; constructor|].
  rewrite result_bind_Ok. intros (d & Hd & E). fold (served_digest st) in Hd.
  destruct (served_digest st) as [d'|] eqn:Hs; [|done]. injection Hd as ->.
  destruct (is_revoked revs d) eqn:Hrev; cbn [negb] in E.
  - apply is_revoked_elem in Hrev. destruct (IH _ E) as [[Hin Hun]|HF].
    + left. split; [by right|done].
    + right. constructor; eauto.
  - injection E as <-. left. split; [by left|]. by exists d.
Qed.

Lemma with_epoch_wf e : wf_keyset base -> wf_epoch e -> wf_keyset (with_epoch base e).
Proof. by intros [????] ?. Qed.

(** The states the loop may try fit [u64]. *)
Lemma candidates_wf now window n st :
  wf_epoch (epoch st) -> is_u64 now -> 0 <= window ->
  Forall (fun c => wf_epoch (epoch c)) (candidates now window n st).
Proof.
  intros Hst Hn Hw. revert st Hst. induction n as [|n IH]; intros st Hst; cbn; constructor; [done|].
  apply IH. split; cbn; [apply u64_add_range|by apply u64_saturating_add_range].
Qed.

(** The loop ends on an unrevoked state, or two of the states it tried have
    colliding digests. *)
Lemma roll_loop_unrevoked now window st r :
  let n := S (S (length (statements revs))) in
  wf_keyset base -> wf_epoch (epoch st) -> is_u64 now -> 0 <= window ->
  pe_version st + Z.of_nat n <= u64_max ->
  roll_loop (with_epoch base) revs now window n st = Ok r ->
  (r ∈ candidates now window n st /\ unrevoked r) \/
  exists c1 c2, c1 ∈ candidates now window n st /\ c2 ∈ candidates now window n st /\
    value_collision (WorkloadKeyset_value (with_epoch base (epoch c1)))
      (WorkloadKeyset_value (with_epoch base (epoch c2))).
Proof.
  intros n Hb Hst Hn Hw Hv E. destruct (roll_loop_inv _ _ _ _ _ E) as [?|HF]; [by left|right].
  rewrite Forall_forall in HF.
  pose (f c := match served_digest c with Ok d => d | Err _ => "" end).
  destruct (pigeonhole f (candidates now window n st) (digests revs)) as (l1 & c1 & l2 & c2 & l3 & El & Ef).
  { intros c (d & Hd & Hin)%HF. unfold f. by rewrite Hd. }
  { unfold digests. rewrite length_map. clear. assert (H : forall n st, length (candidates now window n st) = n)
      by (induction n0; intros; cbn; auto). rewrite H. unfold n. lia. }
  assert (H1 : c1 ∈ candidates now window n st) by (rewrite El; set_solver).
  assert (H2 : c2 ∈ candidates now window n st) by (rewrite El; set_solver).
  exists c1, c2. split; [done|]. split; [done|].
  destruct (HF _ H1) as (d1 & Hd1 & _), (HF _ H2) as (d2 & Hd2 & _).
  unfold f in Ef. rewrite Hd1, Hd2 in Ef. subst d2.
  pose proof (candidates_wf now window n st Hst Hn Hw) as Hwf. rewrite Forall_forall in Hwf.
  destruct (jcs_digest_binds (CA := keyset_canonical) _ _ d1 (with_epoch_wf _ Hb (Hwf _ H1))
    (with_epoch_wf _ Hb (Hwf _ H2)) Hd1 Hd2) as [Heq|Hc]; [|exact Hc].
  exfalso. injection Heq as Hver Hna.
  pose proof (candidates_nodup now window n st (proj1 Hst) Hv) as Hnd. rewrite El in Hnd.
  rewrite map_app in Hnd. apply NoDup_app in Hnd as (_ & _ & Hnd). cbn in Hnd.
  apply NoDup_cons in Hnd as [Hnin _]. apply Hnin. rewrite map_app. cbn. set_solver.
Qed.
End lemmas.

(** The version the loop ends on: never below the first, and the same only when
    nothing was rolled. *)
Lemma roll_loop_version `{Digest} base revs now window n st r :
  is_u64 (pe_version st) -> pe_version st + Z.of_nat n <= u64_max ->
  roll_loop (with_epoch base) revs now window n st = Ok r ->
  pe_version st <= pe_version r /\ (pe_version r = pe_version st -> r = st).
Proof.
  revert st. induction n as [|n IH]; intros st Hu Hb; cbn [roll_loop]; [by intros [= ->]|].
  rewrite result_bind_Ok. intros (d & _ & E).
  destruct (negb _); [by injection E as ->|].
  assert (Hv : pe_version (roll_forward st now window) = pe_version st + 1).
  { cbn. apply u64_add_small; [done|lia|lia]. }
  destruct (IH _ ltac:(rewrite Hv; unfold is_u64 in *; lia) ltac:(rewrite Hv; lia) E) as [Hge _].
  rewrite Hv in Hge. split; lia.
Qed.

(** What the loop ends on keeps the material, and is the first state or one
    with a fresh window. *)
Lemma roll_loop_fresh `{Digest} mk revs now window n st r :
  roll_loop mk revs now window n st = Ok r ->
  pe_material_fingerprint r = pe_material_fingerprint st /\
  (r = st \/ (pe_not_after r = u64_saturating_add now window /\ is_u64 (pe_version r))).
Proof.
  revert st. induction n as [|n IH]; intros st; cbn [roll_loop]; [intros [= ->]; auto|].
  rewrite result_bind_Ok. intros (d & _ & E). destruct (negb _); [injection E as ->; auto|].
  destruct (IH _ E) as [Hf [->|[Hn Hv]]]; (split; [by rewrite ?Hf|]); right; [|done].
  split; [done|]. apply u64_add_range.
Qed.

Definition wf_persisted (st : PersistedKeysetEpoch) : Prop :=
  wf_epoch (epoch st) /\ valid_utf8 (pe_material_fingerprint st).

Section launcher.
Context `{Digest, JsonCodec PersistedKeysetEpoch}.

(** What the file of the launcher holds. *)
Definition on_disk (path : Path) (w : World) (previous : option PersistedKeysetEpoch) : Prop :=
  (load path (settled w)).1 = Ok previous.

Lemma load_settled path w previous w1 :
  load path w = (Ok previous, w1) -> on_disk path w previous /\ files w1 = files w.
Proof.
  unfold on_disk, load, read_to_string, with_fault, settled. cbn [files faults].
  destruct (faults w) as [|[f|] fs]; cbn [files faults]; [|intros [=]|];
    destruct (files w !! path) as [t|]; cbn; intros E; injection E as E <-; cbn; rewrite ?E; auto.
Qed.

Lemma store_spec path st w r w' :
  store path st w = (r, w') ->
  match r with
  | Ok _ => exists t, to_string_pretty st = Ok t /\ files w' !! path = Some (t +:+ newline)
  | Err _ => files w' !! path = files w !! path
  end.
Proof.
  unfold store. destruct (to_string_pretty st) as [t|e] eqn:Et.
  - intros E. assert (Ew : write_atomic path (t +:+ newline) w = (r, w')).
    { rewrite <- E. unfold write_atomic, mbind, io_bind, io_of_result.
      by destruct (create_dir_all _ w) as [[]?]. }
    apply write_atomic_spec in Ew as [Ew _]. destruct r; [eauto|done].
  - unfold mbind, io_bind, io_of_result, create_dir_all, with_fault.
    by destruct (faults w) as [|[]]; intros [= <- <-].
Qed.

Lemma on_disk_file path w w' previous :
  files w' !! path = files w !! path -> on_disk path w previous -> on_disk path w' previous.
Proof.
  unfold on_disk, load, read_to_string, with_fault, settled. cbn [files faults].
  intros ->. by destruct (files w !! path).
Qed.

Lemma store_on_disk `{!JsonCodecLaws PersistedKeysetEpoch wf_persisted} path st w w' :
  wf_persisted st -> store path st w = (Ok tt, w') -> on_disk path w' (Some st).
Proof.
  intros Hwf (t & Ht & Hf)%store_spec. apply codec_roundtrip in Ht as (Hr & Hb & Hu); [|done].
  unfold on_disk, load, read_to_string, with_fault, settled. cbn [files faults].
  rewrite Hf, Hu. cbn. by rewrite Hb, Hr.
Qed.

(** A successful launch, taken apart. *)
Lemma resolve_launcher_epoch_Ok path mk revs now window w e w' :
  resolve_launcher_epoch path mk revs now window w = (Ok e, w') ->
  exists fp previous w1 resolved,
    keyset_material_fingerprint (mk {| version := 0; not_after := 0 |}) = Ok fp /\
    load path w = (Ok previous, w1) /\
    roll_loop mk revs now window (S (S (length (statements revs))))
      (resolve_epoch previous fp now window) = Ok resolved /\
    e = epoch resolved /\
    ((previous = Some resolved /\ w' = w1) \/ store path resolved w1 = (Ok tt, w')).
Proof.
  unfold resolve_launcher_epoch, mbind, io_bind, io_of_result.
  destruct (keyset_material_fingerprint _) as [fp|] eqn:Hfp; cbn [map_err]; [|done].
  destruct (load path w) as [[previous|] w1] eqn:Hl; [|done].
  destruct (roll_loop _ _ _ _ _ _) as [resolved|] eqn:Hr; [|done].
  destruct (decide (previous = Some resolved)) as [Heq|Hne].
  - intros [= <- <-]. exists fp, previous, w1, resolved. auto 10.
  - destruct (store path resolved w1) as [[[]|] w2] eqn:Hs; [|done].
    intros [= <- <-]. exists fp, previous, w1, resolved. auto 10.
Qed.

Lemma load_on_disk path w previous :
  on_disk path w previous -> load path (settled w) = (Ok previous, settled w).
Proof.
  unfold on_disk, load, read_to_string, with_fault, settled. cbn [files faults].
  destruct (files w !! path); cbn; intros ->; done.
Qed.

(** A failed launch leaves the file alone. *)
Lemma resolve_launcher_epoch_Err path mk revs now window w e w' :
  resolve_launcher_epoch path mk revs now window w = (Err e, w') ->
  files w' !! path = files w !! path.
Proof.
  unfold resolve_launcher_epoch, mbind, io_bind, io_of_result.
  destruct (keyset_material_fingerprint _) as [fp|] eqn:Hfp; cbn [map_err]; [|by intros [= _ <-]].
  destruct (load path w) as [l w1] eqn:Hl.
  assert (Hw1 : files w1 = files w).
  { revert Hl. unfold load, read_to_string, with_fault.
    destruct (faults w) as [|[f|] fs]; cbn; try destruct (files w !! path); by intros [= _ <-]. }
  destruct l as [previous|]; [|intros [= _ <-]; by rewrite Hw1].
  destruct (roll_loop _ _ _ _ _ _) as [resolved|]; [|intros [= _ <-]; by rewrite Hw1].
  destruct (decide (previous = Some resolved)); [done|].
  destruct (store path resolved w1) as [[[]|] w2] eqn:Hs; [done|].
  intros [= _ <-]. apply store_spec in Hs. by rewrite Hs, Hw1.
Qed.
End launcher.

(** How the first candidate relates to the record on disk. *)
Lemma resolve_epoch_wf previous fp now window :
  (forall p, previous = Some p -> wf_epoch (epoch p)) -> is_u64 now -> 0 <= window ->
  wf_epoch (epoch (resolve_epoch previous fp now window)).
Proof.
  intros Hp Hn Hw. destruct previous as [p|]; cbn.
  - destruct (_ && _); [by apply Hp|]. split; cbn; [apply u64_add_range|by apply u64_saturating_add_range].
  - split; cbn; [done|by apply u64_saturating_add_range].
Qed.

Definition start_version (previous : option PersistedKeysetEpoch) : Z :=
  match previous with Some p => pe_version p | None => 0 end.

Lemma resolve_epoch_version previous fp now window :
  0 <= start_version previous < u64_max ->
  start_version previous <= pe_version (resolve_epoch previous fp now window)
    <= start_version previous + 1.
Proof.
  intros Hb. destruct previous as [p|]; cbn in *; [|lia].
  destruct (_ && _); [lia|]. cbn. rewrite u64_add_small; unfold is_u64; lia.
Qed.

Lemma resolve_epoch_fingerprint previous fp now window :
  pe_material_fingerprint (resolve_epoch previous fp now window) = fp.
Proof.
  destruct previous as [p|]; cbn; [|done].
  destruct (String.eqb_spec (pe_material_fingerprint p) fp); cbn; [|done]. by destruct (_ <? _).
Qed.

(** ** Properties *)

(** The launcher's environment: a well-formed keyset, a clock and a window in
    range, a record on disk that fits, and versions far from overflow. *)
Record launch_ok (base : WorkloadKeyset) (revs : RevocationStore) (now window : Z)
    (previous : option PersistedKeysetEpoch) : Prop := {
  launch_keyset : wf_keyset base;
  launch_now : is_u64 now;
  launch_window : 0 <= window;
  launch_previous p : previous = Some p -> wf_persisted p;
  launch_version : 0 <= start_version previous /\
    start_version previous + Z.of_nat (length (statements revs)) + 4 <= u64_max;
}.

Lemma launch_start base revs now window previous fp :
  launch_ok base revs now window previous ->
  let st := resolve_epoch previous fp now window in
  wf_epoch (epoch st) /\ pe_version st + Z.of_nat (S (S (length (statements revs)))) <= u64_max.
Proof.
  intros [Hk Hn Hw Hp Hv]. cbn zeta. split.
  - apply resolve_epoch_wf; [|done..]. by intros p [? _]%Hp.
  - pose proof (resolve_epoch_version previous fp now window). lia.
Qed.

(** The launcher never serves a revoked keyset.  Whatever the disk holds
    and whichever operations fail, an epoch it returns has a keyset digest that
    no recorded revocation names; the only way out is a SHA-256 collision
    between two of the at most [revocations + 2] keysets it tried. *)
Theorem launcher_never_serves_revoked `{Digest, JsonCodec PersistedKeysetEpoch}
    path base revs now window w previous e w' :
  on_disk path w previous -> launch_ok base revs now window previous ->
  resolve_launcher_epoch path (with_epoch base) revs now window w = (Ok e, w') ->
  (exists d, workload_keyset_digest (with_epoch base e) = Ok d /\ is_revoked revs d = false) \/
  (exists fp c1 c2, keyset_material_fingerprint base = Ok fp /\
     let tried := candidates now window (S (S (length (statements revs))))
                    (resolve_epoch previous fp now window) in
     c1 ∈ tried /\ c2 ∈ tried /\
     value_collision (WorkloadKeyset_value (with_epoch base (epoch c1)))
       (WorkloadKeyset_value (with_epoch base (epoch c2)))).
Proof.
  intros Hdisk Hok (fp & prev & w1 & r & Hfp & Hl & Hr & -> & _)%resolve_launcher_epoch_Ok.
  apply load_settled in Hl as [Hl _]. unfold on_disk in *. rewrite Hdisk in Hl. injection Hl as <-.
  destruct (launch_start _ _ _ _ _ fp Hok) as [Hwf Hv]. destruct Hok as [Hk Hn Hw Hp _].
  destruct (roll_loop_unrevoked base revs now window _ r Hk Hwf Hn Hw Hv Hr) as [[_ Hun]|(c1 & c2 & ?)];
    [left; exact Hun|right]. by exists fp, c1, c2.
Qed.

(** Epochs only move forward: against the record on disk the version never
    decreases, it grows whenever the key material changed or the old window has
    lapsed, and when it stays the epoch is exactly the recorded one. *)
Theorem launcher_version_monotone `{Digest, JsonCodec PersistedKeysetEpoch}
    path base revs now window w p e w' :
  on_disk path w (Some p) -> launch_ok base revs now window (Some p) ->
  resolve_launcher_epoch path (with_epoch base) revs now window w = (Ok e, w') ->
  pe_version p <= version e /\
  (keyset_material_fingerprint base <> Ok (pe_material_fingerprint p) \/ pe_not_after p <= now ->
   pe_version p < version e) /\
  (version e = pe_version p -> e = epoch p).
Proof.
  intros Hdisk Hok (fp & prev & w1 & r & Hfp & Hl & Hr & -> & _)%resolve_launcher_epoch_Ok.
  apply load_settled in Hl as [Hl _]. unfold on_disk in *. rewrite Hdisk in Hl. injection Hl as <-.
  change (keyset_material_fingerprint base = Ok fp) in Hfp. rewrite Hfp.
  destruct (launch_start _ _ _ _ _ fp Hok) as [[Hu _] Hv].
  pose proof (roll_loop_version base revs now window _ _ r Hu Hv Hr) as [Hge Heq].
  pose proof (launch_version _ _ _ _ _ Hok) as Hb. cbn in Hb, Hge, Heq, Hu.
  assert (Hadd : u64_add (pe_version p) 1 = pe_version p + 1) by (apply u64_add_small; unfold is_u64; lia).
  destruct (String.eqb_spec (pe_material_fingerprint p) fp) as [<-|Hne]; cbn in Hge, Heq; cycle 1.
  { rewrite Hadd in Hge. split_and!; [cbn; lia|cbn; lia|]. cbn. intros. lia. }
  destruct (Z.ltb_spec now (pe_not_after p)); cbn in Hge, Heq.
  - split_and!; [done|intros [?|?]; [done|lia]|]. intros E. cbn in E. by rewrite (Heq E).
  - rewrite Hadd in Hge. split_and!; cbn; lia.
Qed.

(** Every served epoch is live and bounded: it expires after now, and no
    later than one window from now unless it is the unchanged epoch on disk. *)
Theorem launcher_epoch_bounded `{Digest, JsonCodec PersistedKeysetEpoch}
    path base revs now window w previous e w' :
  on_disk path w previous -> launch_ok base revs now window previous ->
  0 < window -> now < u64_max ->
  resolve_launcher_epoch path (with_epoch base) revs now window w = (Ok e, w') ->
  now < not_after e /\ (not_after e <= now + window \/ exists p, previous = Some p /\ e = epoch p).
Proof.
  intros Hdisk Hok Hw Hn (fp & prev & w1 & r & Hfp & Hl & Hr & -> & _)%resolve_launcher_epoch_Ok.
  apply load_settled in Hl as [Hl _]. unfold on_disk in *. rewrite Hdisk in Hl. injection Hl as <-.
  assert (Hfresh : now < u64_saturating_add now window <= now + window)
    by (unfold u64_saturating_add; lia).
  destruct (roll_loop_fresh _ _ _ _ _ _ _ Hr) as [_ [->|[Hna _]]]; cbn; [|rewrite Hna; by auto with lia].
  destruct previous as [p|]; cbn; [|by auto with lia].
  destruct (String.eqb _ _) eqn:E1; cbn; [|by auto with lia].
  destruct (Z.ltb_spec now (pe_not_after p)); cbn; [by eauto|by auto with lia].
Qed.

Lemma launch_resolved_wf `{DigestLaws} base revs now window previous fp r n :
  launch_ok base revs now window previous ->
  keyset_material_fingerprint base = Ok fp ->
  roll_loop (with_epoch base) revs now window n (resolve_epoch previous fp now window) = Ok r ->
  wf_persisted r.
Proof.
  intros Hok Hfp Hr. destruct (roll_loop_fresh _ _ _ _ _ _ _ Hr) as [Hf Hst].
  rewrite resolve_epoch_fingerprint in Hf. split.
  - destruct Hst as [->|[Hn Hv]]; [by destruct (launch_start _ _ _ _ _ fp Hok)|].
    split; cbn; [done|]. rewrite Hn. destruct Hok. by apply u64_saturating_add_range.
  - rewrite Hf. exact (jcs_sha256_hex_valid (material_value base) fp Hfp).
Qed.

(** The record on disk is never lost or torn, whichever operation fails: a
    launch that succeeds leaves exactly the served epoch on disk, with the
    fingerprint of its keys, and a launch that fails leaves what was there. *)
Theorem launcher_crash_safe `{DigestLaws, JsonCodec PersistedKeysetEpoch,
    !JsonCodecLaws PersistedKeysetEpoch wf_persisted} path base revs now window w previous r w' :
  on_disk path w previous -> launch_ok base revs now window previous ->
  resolve_launcher_epoch path (with_epoch base) revs now window w = (r, w') ->
  match r with
  | Ok e => exists fp, keyset_material_fingerprint base = Ok fp /\
      on_disk path w' (Some {| pe_version := version e; pe_not_after := not_after e;
                               pe_material_fingerprint := fp |})
  | Err _ => on_disk path w' previous
  end.
Proof.
  intros Hdisk Hok E. destruct r as [e|err].
  - apply resolve_launcher_epoch_Ok in E as (fp & prev & w1 & r & Hfp & Hl & Hr & -> & Hend).
    apply load_settled in Hl as [Hl Hw1]. unfold on_disk in Hdisk, Hl.
    rewrite Hdisk in Hl. injection Hl as <-. exists fp. split; [done|].
    assert (Hrec : {| pe_version := version (epoch r); pe_not_after := not_after (epoch r);
                      pe_material_fingerprint := fp |} = r).
    { destruct (roll_loop_fresh _ _ _ _ _ _ _ Hr) as [Hf _]. rewrite resolve_epoch_fingerprint in Hf.
      destruct r; cbn in *. congruence. }
    rewrite Hrec. destruct Hend as [[-> ->]|Hs].
    + eapply on_disk_file; [by rewrite Hw1|done].
    + eapply store_on_disk; [|done]. by eapply launch_resolved_wf.
  - apply (on_disk_file path w); [|done]. by eapply resolve_launcher_epoch_Err.
Qed.

(** A restart with the same keys inside the window changes nothing: the
    launcher returns the very epoch it served before and writes no file, as long
    as that epoch's digest has not been revoked since. *)
Theorem launcher_restart_stable `{DigestLaws, JsonCodec PersistedKeysetEpoch,
    !JsonCodecLaws PersistedKeysetEpoch wf_persisted}
    path base revs revs' now now' window window' w previous e w' d :
  on_disk path w previous -> launch_ok base revs now window previous ->
  resolve_launcher_epoch path (with_epoch base) revs now window w = (Ok e, w') ->
  workload_keyset_digest (with_epoch base e) = Ok d -> is_revoked revs' d = false ->
  now' < not_after e ->
  resolve_launcher_epoch path (with_epoch base) revs' now' window' (settled w') = (Ok e, settled w').
Proof.
  intros Hdisk Hok E Hd Hrev Hnow.
  apply resolve_launcher_epoch_Ok in E as (fp & prev & w1 & r & Hfp & Hl & Hr & -> & Hend).
  apply load_settled in Hl as [Hl Hw1]. unfold on_disk in Hl. unfold on_disk in Hdisk.
  rewrite Hdisk in Hl. injection Hl as <-.
  assert (Hl : on_disk path w' (Some r)).
  { destruct Hend as [[-> ->]|Hs].
    - eapply on_disk_file; [by rewrite Hw1|done].
    - eapply store_on_disk; [|done]. by eapply launch_resolved_wf. }
  destruct (roll_loop_fresh _ _ _ _ _ _ _ Hr) as [Hf _]. rewrite resolve_epoch_fingerprint in Hf.
  unfold resolve_launcher_epoch, mbind, io_bind, io_of_result. rewrite Hfp. cbn [map_err].
  rewrite (load_on_disk _ _ _ Hl). cbn [resolve_epoch]. rewrite Hf, String.eqb_refl.
  destruct (Z.ltb_spec now' (pe_not_after r)) as [_|?]; [|cbn in Hnow; lia]. cbn [andb roll_loop].
  rewrite Hd. cbn [map_err mbind result_bind]. rewrite Hrev. cbn [negb].
  by rewrite decide_True.
Qed.

(** ** A concrete launch *)

#[export] Instance PersistedKeysetEpoch_countable : Countable PersistedKeysetEpoch.
Proof.
  refine (inj_countable' (fun s => (pe_version s, pe_not_after s, pe_material_fingerprint s))
    (fun '(a, b, c) => {| pe_version := a; pe_not_after := b; pe_material_fingerprint := c |}) _).
  by intros [].
Defined.

Definition epoch_codec : JsonCodec PersistedKeysetEpoch := countable_codec _.

Lemma epoch_codec_laws : @JsonCodecLaws _ epoch_codec wf_persisted.
Proof. apply (codec_laws_weaken _ (fun _ => True)); [done|apply countable_codec_laws]. Qed.

Definition demo_epoch_path : Path := ("/state", "keyset_epoch.json").

(** The digest of the first epoch has been revoked. *)
Definition demo_revs : RevocationStore :=
  {| store_path := None;
     statements := match workload_keyset_digest (H := sum_digest)
                           (with_epoch (demo_keyset 0) {| version := 1; not_after := 1002000 |}) with
                   | Ok d => [demo_statement d]
                   | Err _ => []
                   end |}.

Definition demo_launch (now : Z) (w : World) : result io_error KeysetEpoch * World :=
  resolve_launcher_epoch (H := sum_digest) (H0 := epoch_codec) demo_epoch_path
    (with_epoch (demo_keyset 0)) demo_revs now 2000 w.

Definition demo_first : World := (demo_launch 1000000 (demo_world [])).2.

Example demo_launch_rolls :
  (demo_launch 1000000 (demo_world [])).1 = Ok {| version := 2; not_after := 1002000 |}.
Proof. vm_compute. reflexivity. Qed.

Definition demo_persisted : PersistedKeysetEpoch :=
  {| pe_version := 2; pe_not_after := 1002000;
     pe_material_fingerprint :=
       match keyset_material_fingerprint (H := sum_digest) (demo_keyset 0) with Ok d => d | Err _ => "" end |}.

Lemma demo_launch_ok now previous :
  is_u64 now -> (previous = None \/ previous = Some demo_persisted) ->
  launch_ok (demo_keyset 0) demo_revs now 2000 previous.
Proof.
  intros Hn Hp. split; [by apply demo_keyset_wf|done|done| |].
  - intros p ->. destruct Hp as [|[= ->]]; [done|].
    split; [split; by apply is_u64_small|]. apply valid_utf8b_sound. vm_compute. reflexivity.
  - destruct Hp as [->| ->]; vm_compute; split; congruence.
Qed.

Lemma launcher_never_serves_revoked_witness :
  (exists d, workload_keyset_digest (H := sum_digest)
     (with_epoch (demo_keyset 0) {| version := 2; not_after := 1002000 |}) = Ok d /\ is_revoked demo_revs d = false) \/
  (exists fp c1 c2, keyset_material_fingerprint (H := sum_digest) (demo_keyset 0) = Ok fp /\
     let tried := candidates 1000000 2000 3 (resolve_epoch None fp 1000000 2000) in
     c1 ∈ tried /\ c2 ∈ tried /\
     value_collision (H := sum_digest) (WorkloadKeyset_value (with_epoch (demo_keyset 0) (epoch c1)))
       (WorkloadKeyset_value (with_epoch (demo_keyset 0) (epoch c2)))).
Proof.
  refine (launcher_never_serves_revoked (H := sum_digest) (H0 := epoch_codec) demo_epoch_path (demo_keyset 0)
    demo_revs 1000000 2000 (demo_world []) None _ demo_first _ (demo_launch_ok _ _ _ _) _);
    [reflexivity|apply is_u64_small; reflexivity|left; reflexivity|vm_compute; reflexivity].
Defined.

Lemma launcher_version_monotone_witness :
  (demo_launch 1003000 demo_first).1 = Ok {| version := 3; not_after := 1005000 |} /\ 2 < 3.
Proof.
  split; [vm_compute; reflexivity|].
  refine (proj1 (proj2 (launcher_version_monotone (H := sum_digest) (H0 := epoch_codec) demo_epoch_path
    (demo_keyset 0) demo_revs 1003000 2000 demo_first demo_persisted
    {| version := 3; not_after := 1005000 |} (demo_launch 1003000 demo_first).2 _ (demo_launch_ok _ _ _ _) _)) _);
    [vm_compute; reflexivity|apply is_u64_small; reflexivity|right; reflexivity|vm_compute; reflexivity|].
  right. vm_compute. congruence.
Defined.

Lemma launcher_epoch_bounded_witness : 1000000 < 1002000 /\
  (1002000 <= 1000000 + 2000 \/
   exists p, None = Some p /\ {| version := 2; not_after := 1002000 |} = epoch p).
Proof.
  refine (launcher_epoch_bounded (H := sum_digest) (H0 := epoch_codec) demo_epoch_path (demo_keyset 0)
    demo_revs 1000000 2000 (demo_world []) None {| version := 2; not_after := 1002000 |} demo_first
    _ (demo_launch_ok _ _ _ _) _ _ _);
    [reflexivity|apply is_u64_small; reflexivity|left; reflexivity|reflexivity|reflexivity|vm_compute; reflexivity].
Defined.

(** The rename of the second launch fails. *)
Lemma launcher_crash_safe_witness :
  let w := {| files := files demo_first; faults := [None; None; None; Some (mkFault "crash" 0)] |} in
  on_disk (H0 := epoch_codec) demo_epoch_path (demo_launch 1003000 w).2 (Some demo_persisted).
Proof.
  intros w.
  refine (launcher_crash_safe (H := sum_digest) (H0 := sum_digest_laws) (H1 := epoch_codec)
    (JsonCodecLaws0 := epoch_codec_laws) demo_epoch_path (demo_keyset 0)
    demo_revs 1003000 2000 w (Some demo_persisted) (Err {| kind := OtherIo; message := "crash" |}) _
    _ (demo_launch_ok _ _ _ _) _);
    [vm_compute; reflexivity|apply is_u64_small; reflexivity|right; reflexivity|vm_compute; reflexivity].
Defined.

Lemma launcher_restart_stable_witness :
  demo_launch 1000500 (settled demo_first) = (Ok {| version := 2; not_after := 1002000 |}, settled demo_first).
Proof.
  pose (d := match workload_keyset_digest (H := sum_digest)
                (with_epoch (demo_keyset 0) {| version := 2; not_after := 1002000 |}) with
             | Ok d => d | Err _ => "" end).
  refine (launcher_restart_stable (H := sum_digest) (H0 := sum_digest_laws) (H1 := epoch_codec)
    (JsonCodecLaws0 := epoch_codec_laws) demo_epoch_path (demo_keyset 0) demo_revs demo_revs
    1000000 1000500 2000 2000 (demo_world []) None _ demo_first d _ (demo_launch_ok _ _ _ _) _ _ _ _);
    [reflexivity|apply is_u64_small; reflexivity|left; reflexivity|vm_compute; reflexivity
    |vm_compute; reflexivity|vm_compute; reflexivity|vm_compute; reflexivity].
Defined.
