(* ===== verification/Receipt.v ===== *)
(** * Receipts

    Model of [src/aci/receipt.rs] and of the receipt structures of
    [src/aci/types.rs]: the builder of the per-request event log, the signed
    receipt, and the bytes its signature covers. *)
From S2P Require Import Prelude Json Canonical Identity Fs Revocation.
Import Types.

Definition EVENT_REQUEST_RECEIVED : string := "request.received".
Definition EVENT_REQUEST_FORWARDED : string := "request.forwarded".
Definition EVENT_MIDDLEWARE_FORWARDED : string := "middleware.forwarded".
Definition EVENT_ROUTE_SELECTED : string := "route.selected".
Definition EVENT_UPSTREAM_VERIFIED : string := "upstream.verified".
Definition EVENT_RESPONSE_RECEIVED : string := "response.received".
Definition EVENT_RESPONSE_RETURNED : string := "response.returned".
Definition EVENT_TRANSPARENCY_REQUEST_MODIFIED : string := "transparency.request_modified".
Definition EVENT_TRANSPARENCY_RESPONSE_MODIFIED : string := "transparency.response_modified".

Inductive ReceiptError :=
| FirstEventMustBeRequestReceived (event_type : string)
| MissingRequiredEvent (event_type : string)
| EmptyReceipt
| ReservedField (key : string)
| ReservedEventType (event_type : string)
| InvalidVerificationResult (got : string)
| Receipt_Canonical (e : CanonicalError)
| Receipt_Key (e : KeyError).

(** ** Event log and receipt *)

Record ReceiptEvent := { seq : Z; event_type : string; fields : Value }.

Definition ReceiptEvent_value (e : ReceiptEvent) : Value :=
  let obj := map_insert "type" (Str (event_type e)) (map_insert "seq" (from_u64 (seq e)) []) in
  Obj (match fields e with
       | Obj map => fold_left (fun obj kv => map_insert kv.1 kv.2 obj) map obj
       | _ => obj
       end).

Record ReceiptSignature := { sig_algo : string; sig_key_id : string; sig_value_hex : string }.

Record Receipt := {
  api_version : string;
  receipt_id : string;
  chat_id : option string;
  model : option string;
  r_workload_id : string;
  r_workload_keyset_digest : string;
  endpoint : string;
  method : string;
  served_at : Z;
  event_log : list ReceiptEvent;
  signature : ReceiptSignature;
}.

Definition Receipt_value (r : Receipt) (include_signature_value : bool) : Value :=
  let sig :=
    if include_signature_value then
      {{ "algo" ≔ Str (sig_algo (signature r)); "key_id" ≔ Str (sig_key_id (signature r));
         "value" ≔ Str (sig_value_hex (signature r)) }}
    else
      {{ "algo" ≔ Str (sig_algo (signature r)); "key_id" ≔ Str (sig_key_id (signature r)) }} in
  {{ "api_version" ≔ Str (api_version r);
     "receipt_id" ≔ Str (receipt_id r);
     "chat_id" ≔ from_opt_str (chat_id r);
     "model" ≔ from_opt_str (model r);
     "workload_id" ≔ Str (r_workload_id r);
     "workload_keyset_digest" ≔ Str (r_workload_keyset_digest r);
     "endpoint" ≔ Str (endpoint r);
     "method" ≔ Str (method r);
     "served_at" ≔ from_u64 (served_at r);
     "event_log" ≔ Arr (map ReceiptEvent_value (event_log r));
     "signature" ≔ sig }}.

(** ** The verifier event *)

Inductive VerificationResult := Verified | Failed.

#[export] Instance VerificationResult_eq_dec : EqDecision VerificationResult.
Proof. solve_decision. Defined.

Definition VerificationResult_as_str (r : VerificationResult) : string :=
  match r with Verified => "verified" | Failed => "failed" end.

Inductive ChannelBinding :=
| TlsSpkiSha256 (origin spki_sha256 : string)
| TlsCertificateSha256 (origin certificate_sha256 : string)
| E2eePublicKeySha256 (provider : string) (key_id : option string) (algorithm public_key_sha256 : string).

#[export] Instance ChannelBinding_eq_dec : EqDecision ChannelBinding.
Proof. solve_decision. Defined.

(** The serialised form: tagged by [type], an absent key id left out. *)
Definition ChannelBinding_value (b : ChannelBinding) : Value :=
  match b with
  | TlsSpkiSha256 origin spki =>
      {{ "type" ≔ Str "tls_spki_sha256"; "origin" ≔ Str origin; "spki_sha256" ≔ Str spki }}
  | TlsCertificateSha256 origin cert =>
      {{ "type" ≔ Str "tls_certificate_sha256"; "origin" ≔ Str origin; "certificate_sha256" ≔ Str cert }}
  | E2eePublicKeySha256 provider (Some kid) algorithm pk =>
      {{ "type" ≔ Str "e2ee_public_key_sha256"; "provider" ≔ Str provider; "key_id" ≔ Str kid;
         "algorithm" ≔ Str algorithm; "public_key_sha256" ≔ Str pk }}
  | E2eePublicKeySha256 provider None algorithm pk =>
      {{ "type" ≔ Str "e2ee_public_key_sha256"; "provider" ≔ Str provider;
         "algorithm" ≔ Str algorithm; "public_key_sha256" ≔ Str pk }}
  end.

Record UpstreamVerifiedEvent := {
  upstream_name : string;
  provider_type : option string;
  model_id : string;
  url_origin : option string;
  verifier_id : string;
  uv_result : VerificationResult;
  required : bool;
  reason : option string;
  evidence : option Value;
  channel_bindings : list ChannelBinding;
  provider_claims : option Value;
}.

(** [Default]: fail-closed. *)
Definition UpstreamVerifiedEvent_default : UpstreamVerifiedEvent := {|
  upstream_name := ""; provider_type := None; model_id := ""; url_origin := None; verifier_id := "";
  uv_result := Failed; required := false; reason := None; evidence := None;
  channel_bindings := []; provider_claims := None |}.

Definition from_opt_value (o : option Value) : Value := match o with Some v => v | None => Null end.

Definition to_fields (e : UpstreamVerifiedEvent) : list (string * Value) :=
  [("upstream_name", Str (upstream_name e));
   ("provider_type", from_opt_str (provider_type e));
   ("model_id", Str (model_id e));
   ("url_origin", from_opt_str (url_origin e));
   ("verifier_id", Str (verifier_id e));
   ("result", Str (VerificationResult_as_str (uv_result e)));
   ("required", Bool (required e));
   ("reason", from_opt_str (reason e));
   ("channel_bindings", Arr (map ChannelBinding_value (channel_bindings e)));
   ("provider_claims", from_opt_value (provider_claims e))].

Inductive TransparencyEventKind := RequestModified | ResponseModified.

Definition transparency_event_type (k : TransparencyEventKind) : string :=
  match k with
  | RequestModified => EVENT_TRANSPARENCY_REQUEST_MODIFIED
  | ResponseModified => EVENT_TRANSPARENCY_RESPONSE_MODIFIED
  end.

(** ** The builder *)

Record ReceiptBuilder := {
  rb_receipt_id : string;
  rb_chat_id : option string;
  rb_model : option string;
  rb_workload_id : string;
  rb_workload_keyset_digest : string;
  rb_endpoint : string;
  rb_method : string;
  rb_served_at : Z;
  rb_events : list ReceiptEvent;
  next_seq : Z;
}.

Definition ReceiptBuilder_new (receipt_id : string) (chat_id model : option string)
    (workload_id workload_keyset_digest endpoint method : string) (served_at : Z) : ReceiptBuilder :=
  {| rb_receipt_id := receipt_id; rb_chat_id := chat_id; rb_model := model;
     rb_workload_id := workload_id; rb_workload_keyset_digest := workload_keyset_digest;
     rb_endpoint := endpoint; rb_method := method; rb_served_at := served_at;
     rb_events := []; next_seq := 0 |}.

Definition set_events (b : ReceiptBuilder) (evs : list ReceiptEvent) (next : Z) : ReceiptBuilder :=
  {| rb_receipt_id := rb_receipt_id b; rb_chat_id := rb_chat_id b; rb_model := rb_model b;
     rb_workload_id := rb_workload_id b; rb_workload_keyset_digest := rb_workload_keyset_digest b;
     rb_endpoint := rb_endpoint b; rb_method := rb_method b; rb_served_at := rb_served_at b;
     rb_events := evs; next_seq := next |}.

(** A method on [&mut self]. *)
Definition Build (A : Type) : Type := ReceiptBuilder -> result ReceiptError A * ReceiptBuilder.

#[export] Instance build_ret : MRet Build := fun A a b => (Ok a, b).
#[export] Instance build_bind : MBind Build := fun A B f m b =>
  match m b with
  | (Ok a, b') => f a b'
  | (Err e, b') => (Err e, b')
  end.

(** The first key of the map that is structural. *)
Definition reserved_key (map : list (string * Value)) : option string :=
  find (fun k => String.eqb k "seq" || String.eqb k "type") (map_keys map).

Definition append (event_type : string) (fields : Value) : Build unit := fun b =>
  if (next_seq b =? 0) && negb (String.eqb event_type EVENT_REQUEST_RECEIVED)
  then (Err (FirstEventMustBeRequestReceived event_type), b)
  else
    match (match fields with Obj obj => reserved_key obj | _ => None end) with
    | Some k => (Err (ReservedField k), b)
    | None =>
        (Ok tt, set_events b
           (rb_events b ++ [{| seq := next_seq b; event_type := event_type; fields := fields |}])
           (u64_add (next_seq b) 1))
    end.

Section builder.
Context `{Digest}.

Definition add_request_received (body : string) : Build string :=
  let digest := sha256_hex body in
  append EVENT_REQUEST_RECEIVED {{ "body_hash" ≔ Str digest }} ≫= fun _ => mret digest.

Definition add_request_forwarded (body : string) : Build string :=
  let digest := sha256_hex body in
  append EVENT_REQUEST_FORWARDED {{ "body_hash" ≔ Str digest }} ≫= fun _ => mret digest.

Definition add_middleware_forwarded (body : string) : Build string :=
  let digest := sha256_hex body in
  append EVENT_MIDDLEWARE_FORWARDED {{ "body_hash" ≔ Str digest }} ≫= fun _ => mret digest.

Definition add_route_selected (target_route_id : string) : Build unit :=
  append EVENT_ROUTE_SELECTED {{ "target_route_id" ≔ Str target_route_id }}.

Definition add_upstream_verified (event : UpstreamVerifiedEvent) : Build unit :=
  append EVENT_UPSTREAM_VERIFIED (Obj (to_fields event)).

(** [claims] is the result of [serde_json::to_value] on the typed claims. *)
Definition add_upstream_verified_with_session (event : UpstreamVerifiedEvent) (session_id : string)
    (claims : result string Value) : Build unit :=
  let fields := to_fields event in
  let fields := map_insert "session_id" (Str session_id) fields in
  let fields := map_insert "claims" (match claims with Ok v => v | Err _ => Null end) fields in
  append EVENT_UPSTREAM_VERIFIED (Obj fields).

Definition add_transparency_event (kind : TransparencyEventKind) : Build unit :=
  append (transparency_event_type kind) (Obj []).

Definition add_response_received_hash (cleartext_hash : string) : Build unit :=
  append EVENT_RESPONSE_RECEIVED {{ "cleartext_hash" ≔ Str cleartext_hash }}.

Definition add_response_received (cleartext : string) : Build string :=
  let digest := sha256_hex cleartext in
  add_response_received_hash digest ≫= fun _ => mret digest.

Definition add_response_returned_hashes (cleartext_hash wire_hash : string) : Build unit :=
  append EVENT_RESPONSE_RETURNED
    {{ "cleartext_hash" ≔ Str cleartext_hash; "wire_hash" ≔ Str wire_hash }}.

Definition add_response_returned (cleartext wire : string) : Build (string * string) :=
  let cleartext_hash := sha256_hex cleartext in
  let wire_hash := sha256_hex wire in
  add_response_returned_hashes cleartext_hash wire_hash ≫= fun _ => mret (cleartext_hash, wire_hash).

Definition add_extension_event (event_type : string) (fields : Value) : Build unit := fun b =>
  if existsb (String.eqb event_type)
       [EVENT_REQUEST_RECEIVED; EVENT_REQUEST_FORWARDED; EVENT_UPSTREAM_VERIFIED;
        EVENT_RESPONSE_RECEIVED; EVENT_RESPONSE_RETURNED]
  then (Err (ReservedEventType event_type), b)
  else append event_type fields b.

Definition events (b : ReceiptBuilder) : list ReceiptEvent := rb_events b.

Definition set_chat_id (chat_id : option string) (b : ReceiptBuilder) : ReceiptBuilder :=
  {| rb_receipt_id := rb_receipt_id b; rb_chat_id := chat_id; rb_model := rb_model b;
     rb_workload_id := rb_workload_id b; rb_workload_keyset_digest := rb_workload_keyset_digest b;
     rb_endpoint := rb_endpoint b; rb_method := rb_method b; rb_served_at := rb_served_at b;
     rb_events := rb_events b; next_seq := next_seq b |}.

(** The loop over the events: the first [upstream.verified] one is changed. *)
Fixpoint set_model_id_in (model_id : string) (evs : list ReceiptEvent) : list ReceiptEvent :=
  match evs with
  | [] => []
  | ev :: evs' =>
      if String.eqb (event_type ev) EVENT_UPSTREAM_VERIFIED then
        match fields ev with
        | Obj fs => {| seq := seq ev; event_type := event_type ev;
                       fields := Obj (map_insert "model_id" (Str model_id) fs) |} :: evs'
        | _ => ev :: evs'
        end
      else ev :: set_model_id_in model_id evs'
  end.

Definition set_upstream_verified_model_id (model_id : option string) (b : ReceiptBuilder) :
    ReceiptBuilder :=
  let model_id := match model_id with Some m => m | None => "unknown" end in
  set_events b (set_model_id_in model_id (rb_events b)) (next_seq b).

(** The first required event type that is absent. *)
Definition missing_required (evs : list ReceiptEvent) : option string :=
  find (fun required => negb (existsb (fun e => String.eqb (event_type e) required) evs))
    [EVENT_REQUEST_RECEIVED; EVENT_REQUEST_FORWARDED; EVENT_RESPONSE_RETURNED].

Definition canonical_bytes_for_signing (r : Receipt) : result ReceiptError string :=
  map_err Receipt_Canonical (canonicalize (Receipt_value r false)).

Definition sign_with (r : Receipt) (value_hex : string) : Receipt :=
  {| api_version := api_version r; receipt_id := receipt_id r; chat_id := chat_id r; model := model r;
     r_workload_id := r_workload_id r; r_workload_keyset_digest := r_workload_keyset_digest r;
     endpoint := endpoint r; method := method r; served_at := served_at r; event_log := event_log r;
     signature := {| sig_algo := sig_algo (signature r); sig_key_id := sig_key_id (signature r);
                     sig_value_hex := value_hex |} |}.

Definition finalize `{KeyProvider} (b : ReceiptBuilder) (key : string) : result ReceiptError Receipt :=
  if bool_decide (rb_events b = []) then Err EmptyReceipt
  else
    match missing_required (rb_events b) with
    | Some required => Err (MissingRequiredEvent required)
    | None =>
        match find (fun k => String.eqb (key_id k) key) receipt_keys with
        | None => Err (Receipt_Key (UnknownReceiptKeyId key))
        | Some receipt_key =>
            let unsigned :=
              {| api_version := "aci/1"; receipt_id := rb_receipt_id b; chat_id := rb_chat_id b;
                 model := rb_model b; r_workload_id := rb_workload_id b;
                 r_workload_keyset_digest := rb_workload_keyset_digest b; endpoint := rb_endpoint b;
                 method := rb_method b; served_at := rb_served_at b; event_log := rb_events b;
                 signature := {| sig_algo := algo receipt_key; sig_key_id := key_id receipt_key;
                                 sig_value_hex := "" |} |} in
            canonical_bytes ← map_err Receipt_Canonical (canonicalize (Receipt_value unsigned false));
            sig ← map_err Receipt_Key (sign_receipt (key_id receipt_key) canonical_bytes);
            Ok (sign_with unsigned (hex_encode sig))
        end
    end.
End builder.

(** ** The log invariant *)

(** One call of a public method of the builder. *)
Inductive builder_step `{Digest} : ReceiptBuilder -> ReceiptBuilder -> Prop :=
| step_request_received body b : builder_step b (add_request_received body b).2
| step_request_forwarded body b : builder_step b (add_request_forwarded body b).2
| step_middleware_forwarded body b : builder_step b (add_middleware_forwarded body b).2
| step_route_selected id b : builder_step b (add_route_selected id b).2
| step_upstream_verified ev b : builder_step b (add_upstream_verified ev b).2
| step_upstream_verified_with_session ev sid claims b :
    builder_step b (add_upstream_verified_with_session ev sid claims b).2
| step_transparency kind b : builder_step b (add_transparency_event kind b).2
| step_response_received text b : builder_step b (add_response_received text b).2
| step_response_received_hash h b : builder_step b (add_response_received_hash h b).2
| step_response_returned text wire b : builder_step b (add_response_returned text wire b).2
| step_response_returned_hashes h h' b : builder_step b (add_response_returned_hashes h h' b).2
| step_extension ty f b : builder_step b (add_extension_event ty f b).2
| step_set_chat_id c b : builder_step b (set_chat_id c b)
| step_set_model_id m b : builder_step b (set_upstream_verified_model_id m b).

Definition unreserved (v : Value) : Prop :=
  match v with Obj m => reserved_key m = None | _ => True end.

(** The log is numbered from zero, starts with [request.received], and no event
    carries a field that would shadow its number or its type. *)
Record log_inv (b : ReceiptBuilder) : Prop := {
  log_next : next_seq b = Z.of_nat (length (rb_events b)) mod 2 ^ 64;
  log_events i e : rb_events b !! i = Some e -> seq e = Z.of_nat i mod 2 ^ 64 /\ unreserved (fields e);
  log_first e : rb_events b !! 0%nat = Some e -> event_type e = EVENT_REQUEST_RECEIVED;
}.

(** What a call may not change of the log so far. *)
Definition event_tag (e : ReceiptEvent) : Z * string := (seq e, event_type e).

Definition extends (b b' : ReceiptBuilder) : Prop :=
  map event_tag (rb_events b) `prefix_of` map event_tag (rb_events b').

#[export] Instance extends_preorder : PreOrder extends.
Proof. split; [intros b|intros b1 b2 b3]; unfold extends; [done|apply transitivity]. Qed.

Lemma append_preserves ty f b : log_inv b -> log_inv (append ty f b).2 /\ extends b (append ty f b).2.
Proof.
  intros Hinv. unfold append.
  destruct ((next_seq b =? 0) && _) eqn:Hfirst; [by split|].
  destruct (match f with Obj m => reserved_key m | _ => None end) eqn:Hres; [by split|].
  destruct Hinv as [Hn He Hf]. cbn. split; [split|]; cbn.
  - rewrite length_app, Hn. unfold u64_add. cbn [length]. rewrite Zplus_mod_idemp_l. f_equal. lia.
  - intros i e [Hi|[Hlen Hi]]%lookup_app_Some; [by apply He|].
    apply list_lookup_singleton_Some in Hi as [Hi <-]. cbn. split.
    + rewrite Hn. do 2 f_equal. lia.
    + destruct f; done.
  - intros e. destruct (rb_events b) as [|e0 evs] eqn:Hev; cbn; [|by apply Hf].
    intros [= <-]. cbn. rewrite Hn in Hfirst. cbn in Hfirst.
    apply negb_false_iff, String.eqb_eq in Hfirst. done.
  - unfold extends. cbn. rewrite map_app. by apply prefix_app_r.
Qed.

Lemma build_ret_state {A B} (m : Build A) (g : A -> B) b : ((m ≫= (fun a => mret (g a))) b).2 = (m b).2.
Proof. unfold mbind, build_bind. by destruct (m b) as [[] ?]. Qed.

Lemma reserved_key_None m : reserved_key m = None <-> ("seq" ∉ map_keys m) /\ ("type" ∉ map_keys m).
Proof.
  unfold reserved_key. induction (map_keys m) as [|k ks IH]; cbn; [set_solver|].
  destruct (String.eqb_spec k "seq") as [->|H1]; cbn; [set_solver|].
  destruct (String.eqb_spec k "type") as [->|H2]; cbn; [set_solver|].
  rewrite IH. set_solver.
Qed.

Lemma reserved_key_insert k v m :
  k <> "seq" -> k <> "type" -> reserved_key m = None -> reserved_key (map_insert k v m) = None.
Proof.
  rewrite !reserved_key_None. intros H1 H2 [??].
  rewrite !map_keys_insert. destruct (decide (k ∈ map_keys m)); set_solver.
Qed.

Lemma set_model_id_in_tags m evs : map event_tag (set_model_id_in m evs) = map event_tag evs.
Proof.
  induction evs as [|e evs IH]; cbn; [done|].
  destruct (String.eqb _ _); cbn; [|by rewrite IH]. by destruct (fields e).
Qed.

Lemma set_model_id_in_unreserved m evs :
  Forall (fun e => unreserved (fields e)) evs ->
  Forall (fun e => unreserved (fields e)) (set_model_id_in m evs).
Proof.
  induction 1 as [|e evs He Hevs IH]; cbn; [done|].
  destruct (String.eqb _ _); [|by constructor].
  destruct (fields e) as [| | | | |m'] eqn:Hf; constructor; try done.
  1-5: cbn; by rewrite Hf.
  cbn in *. by apply reserved_key_insert.
Qed.

Lemma same_tags_inv b evs :
  map event_tag evs = map event_tag (rb_events b) -> Forall (fun e => unreserved (fields e)) evs ->
  log_inv b -> log_inv (set_events b evs (next_seq b)).
Proof.
  intros Ht Hu [Hn He Hf].
  assert (Hl : length evs = length (rb_events b)).
  { apply (f_equal length) in Ht. by rewrite !length_map in Ht. }
  assert (Hi : forall i e, evs !! i = Some e -> exists e', rb_events b !! i = Some e' /\ event_tag e = event_tag e').
  { intros i e E. assert (E' : map event_tag evs !! i = Some (event_tag e)) by by apply list_lookup_fmap_Some; eauto.
    rewrite Ht in E'. apply list_lookup_fmap_Some in E' as (e' & E' & ?). eauto. }
  split; cbn.
  - by rewrite Hl.
  - intros i e E. split; [|by eapply Forall_lookup_1 in Hu].
    destruct (Hi i e E) as (e' & E' & [= -> _]). by apply He in E' as [? _].
  - intros e E. destruct (Hi _ _ E) as (e' & E' & [= _ ->]). by apply Hf.
Qed.

Lemma log_unreserved b : log_inv b -> Forall (fun e => unreserved (fields e)) (rb_events b).
Proof. intros [_ He _]. apply Forall_lookup_2. intros i e E. by apply He in E as [_ ?]. Qed.

Create HintDb receipt.
#[export] Hint Resolve append_preserves : receipt.

Lemma step_preserves `{Digest} b b' : builder_step b b' -> log_inv b -> log_inv b' /\ extends b b'.
Proof.
  intros Hs Hinv. destruct Hs; unfold add_request_received, add_request_forwarded, add_middleware_forwarded,
    add_response_received, add_response_returned; cbn zeta; rewrite ?build_ret_state; eauto with receipt.
  - unfold add_extension_event. destruct (existsb _ _); [by split|auto with receipt].
  - destruct Hinv. split; [split; cbn; assumption|by unfold extends].
  - unfold set_upstream_verified_model_id. split.
    + apply same_tags_inv; [apply set_model_id_in_tags| |done].
      by apply set_model_id_in_unreserved, log_unreserved.
    + unfold extends. cbn. by rewrite set_model_id_in_tags.
Qed.

(** The event log is well formed and append-only, in any sequence of calls
    and whatever their arguments: events are numbered consecutively from zero,
    the first one is [request.received], no event has a field named [seq] or
    [type], and no call removes, renumbers, retypes or reorders an event that
    is already in the log. *)
Theorem event_log_append_only `{Digest} rid chat mdl wid wkd ep mth at_ b b' :
  rtc builder_step (ReceiptBuilder_new rid chat mdl wid wkd ep mth at_) b -> rtc builder_step b b' ->
  log_inv b' /\ extends b b'.
Proof.
  assert (Hrtc : forall b b', rtc builder_step b b' -> log_inv b -> log_inv b' /\ extends b b').
  { intros x y Hxy. induction Hxy as [x|x y z Hs _ IH]; intros Hx; [by split|].
    destruct (step_preserves _ _ Hs Hx) as [Hy Hp], (IH Hy) as [Hz Hp']. split; [done|].
    unfold extends in *. by etrans. }
  intros H1 H2. apply Hrtc in H1 as [Hb _]; [by apply Hrtc|]. by split.
Qed.

(** ** What the signature covers *)

Lemma map_insert_fresh (k : string) (v : Value) m : k ∉ map_keys m -> map_insert k v m = m ++ [(k, v)].
Proof.
  induction m as [|[k0 v0] m IH]; cbn; [done|]. rewrite not_elem_of_cons. intros [Hne Hk].
  destruct (String.eqb_spec k k0); [done|]. by rewrite IH.
Qed.

Lemma fold_insert_fresh (m acc : list (string * Value)) :
  NoDup (map_keys acc ++ map_keys m) ->
  fold_left (fun obj kv => map_insert kv.1 kv.2 obj) m acc = acc ++ m.
Proof.
  revert acc. induction m as [|[k v] m IH]; intros acc Hnd; cbn; [by rewrite app_nil_r|].
  rewrite IH.
  - rewrite map_insert_fresh; [by rewrite <- app_assoc|].
    apply NoDup_app in Hnd as (_ & Hd & _). intros Hin. apply (Hd k); [done|]. cbn. by left.
  - rewrite map_insert_fresh; [unfold map_keys in *; rewrite map_app; cbn; by rewrite <- app_assoc|].
    apply NoDup_app in Hnd as (_ & Hd & _). intros Hin. apply (Hd k); [done|]. cbn. by left.
Qed.

Record event_wf (e : ReceiptEvent) : Prop := {
  event_wf_seq : is_u64 (seq e);
  event_wf_type : valid_utf8 (event_type e);
  event_wf_fields : exists m, fields e = Obj m /\ reserved_key m = None /\ wf_value (Obj m);
}.

Lemma ReceiptEvent_value_flat e m :
  fields e = Obj m -> reserved_key m = None -> NoDup (map_keys m) ->
  ReceiptEvent_value e = Obj (("seq", from_u64 (seq e)) :: ("type", Str (event_type e)) :: m).
Proof.
  intros Hf [H1 H2]%reserved_key_None Hnd. unfold ReceiptEvent_value. rewrite Hf.
  rewrite fold_insert_fresh; [done|]. cbn. apply NoDup_cons. split; [set_solver|].
  apply NoDup_cons. done.
Qed.

Lemma ReceiptEvent_value_wf e : event_wf e -> wf_value (ReceiptEvent_value e).
Proof.
  intros [Hs Ht (m & Hf & Hr & Hm)]. pose proof Hm as [Hnd Hall]%wf_value_Obj.
  rewrite (ReceiptEvent_value_flat e m) by done. apply reserved_key_None in Hr as [H1 H2].
  apply wf_value_Obj. split.
  - cbn. apply NoDup_cons. split; [set_solver|]. by apply NoDup_cons.
  - constructor; [split; [by apply valid_utf8b_sound|done]|].
    constructor; [split; [by apply valid_utf8b_sound|done]|done].
Qed.

Definition event_wfb (e : ReceiptEvent) : bool :=
  (0 <=? seq e) && (seq e <=? u64_max) && valid_utf8b (event_type e) &&
  match fields e with Obj m => bool_decide (reserved_key m = None) && wf_valueb (Obj m) | _ => false end.

Lemma event_wfb_sound l : forallb event_wfb l = true -> Forall event_wf l.
Proof.
  intros H. apply Forall_forall. intros e He. apply list_elem_of_In in He.
  eapply forallb_forall in H; [|exact He]. unfold event_wfb in H.
  rewrite !andb_true_iff in H. destruct H as [[[H1%Z.leb_le H2%Z.leb_le] H3] H4]. split; [done|by apply valid_utf8b_sound|].
  destruct (fields e) as [| | | | |m]; try done. apply andb_true_iff in H4 as [Hr%bool_decide_eq_true Hw].
  exists m. split; [done|]. split; [done|]. by apply wf_valueb_sound.
Qed.

(** Events and receipts up to the order of JSON keys. *)
Definition event_same (e1 e2 : ReceiptEvent) : Prop :=
  seq e1 = seq e2 /\ event_type e1 = event_type e2 /\ value_eqb (fields e1) (fields e2) = true.

Lemma ReceiptEvent_value_same e1 e2 :
  event_wf e1 -> event_wf e2 ->
  value_eqb (ReceiptEvent_value e1) (ReceiptEvent_value e2) = true -> event_same e1 e2.
Proof.
  intros [_ _ (m1 & Hf1 & Hr1 & [Hnd1 Hw1]%wf_value_Obj)] [_ _ (m2 & Hf2 & Hr2 & [Hnd2 Hw2]%wf_value_Obj)].
  rewrite (ReceiptEvent_value_flat e1 m1), (ReceiptEvent_value_flat e2 m2) by done.
  intros [Hlen HF]%value_eqb_Obj. apply Forall_cons in HF as [(v1 & [= <-] & Hv1) HF].
  apply Forall_cons in HF as [(v2 & [= <-] & Hv2) HF]. cbn in Hv1, Hv2.
  apply Z.eqb_eq in Hv1. apply String.eqb_eq in Hv2. split; [done|]. split; [done|].
  rewrite Hf1, Hf2. apply value_eqb_Obj. split; [cbn in Hlen; lia|].
  rewrite Forall_forall in HF |- *. intros [k v] Hin. destruct (HF _ Hin) as (v' & Hg & Hv').
  exists v'. split; [|done]. apply reserved_key_None in Hr1 as [Hs Ht]. cbn in Hg |- *.
  assert (Hk : k ∈ map_keys m1) by (apply list_elem_of_fmap; by exists (k, v)).
  destruct (String.eqb_spec k "seq") as [->|_]; [done|].
  destruct (String.eqb_spec k "type") as [->|_]; [done|]. done.
Qed.

Record receipt_wf (r : Receipt) : Prop := {
  receipt_wf_strings : Forall valid_utf8 [api_version r; receipt_id r; r_workload_id r;
    r_workload_keyset_digest r; endpoint r; method r; sig_algo (signature r); sig_key_id (signature r)];
  receipt_wf_opts : wf_opt (chat_id r) /\ wf_opt (model r);
  receipt_wf_served : is_u64 (served_at r);
  receipt_wf_events : Forall event_wf (event_log r);
}.

(** The same receipt but for the signature value. *)
Record receipt_same (r1 r2 : Receipt) : Prop := {
  same_api : api_version r1 = api_version r2;
  same_id : receipt_id r1 = receipt_id r2;
  same_chat : chat_id r1 = chat_id r2;
  same_model : model r1 = model r2;
  same_workload : r_workload_id r1 = r_workload_id r2;
  same_keyset : r_workload_keyset_digest r1 = r_workload_keyset_digest r2;
  same_endpoint : endpoint r1 = endpoint r2 /\ method r1 = method r2;
  same_served : served_at r1 = served_at r2;
  same_signer : sig_algo (signature r1) = sig_algo (signature r2)
                /\ sig_key_id (signature r1) = sig_key_id (signature r2);
  same_events : Forall2 event_same (event_log r1) (event_log r2);
}.

Lemma Receipt_value_wf r : receipt_wf r -> wf_value (Receipt_value r false).
Proof.
  intros [Hs [Hc Hm] Hserved He]. rewrite !Forall_cons in Hs. destruct Hs as (?&?&?&?&?&?&?&?&_).
  wf_obj; try done; try by apply wf_from_opt_str.
  - eapply wf_Arr_map; [exact ReceiptEvent_value_wf|done].
  - wf_obj; done.
Qed.

Lemma Receipt_value_same r1 r2 :
  receipt_wf r1 -> receipt_wf r2 ->
  value_eqb (Receipt_value r1 false) (Receipt_value r2 false) = true -> receipt_same r1 r2.
Proof.
  intros Hw1 Hw2 E. unfold Receipt_value in E. obj_eqb E.
  apply Str_eqb in Hv, Hv0, Hv3, Hv4, Hv5, Hv6. apply from_opt_str_eqb in Hv1, Hv2. apply from_u64_eqb in Hv7.
  obj_eqb Hv9. apply Str_eqb in Hv10, Hv11.
  split; auto. apply value_eqb_Arr in Hv8. apply Forall2_fmap in Hv8.
  pose proof (receipt_wf_events _ Hw1) as H1. pose proof (receipt_wf_events _ Hw2) as H2.
  clear -Hv8 H1 H2. induction Hv8 as [|e1 e2 l1 l2 He _ IH]; constructor.
  - inversion H1; inversion H2; subst. by apply ReceiptEvent_value_same.
  - inversion H1; inversion H2; subst. auto.
Qed.

Lemma canonical_bytes_canonicalize r b :
  canonical_bytes_for_signing r = Ok b -> canonicalize (Receipt_value r false) = Ok b.
Proof. unfold canonical_bytes_for_signing. destruct (canonicalize _); [|done]. by intros [= ->]. Qed.

(** C33: a receipt signature covers the whole receipt: two receipts with the same
    signing bytes agree on every field, the complete event log and the key that
    signed, and can differ in the signature value alone. *)
Theorem signing_bytes_bind r1 r2 b :
  receipt_wf r1 -> receipt_wf r2 ->
  canonical_bytes_for_signing r1 = Ok b -> canonical_bytes_for_signing r2 = Ok b ->
  receipt_same r1 r2.
Proof.
  intros Hw1 Hw2 E1%canonical_bytes_canonicalize E2%canonical_bytes_canonicalize.
  apply Receipt_value_same; [done..|].
  exact (canonicalize_inj _ _ _ (Receipt_value_wf _ Hw1) (Receipt_value_wf _ Hw2) E1 E2).
Qed.

(** What a finished receipt is: its signature is the provider's signature
    under a listed key with the requested id over exactly the bytes a verifier
    recomputes from the receipt; it carries the builder's log and identity
    unchanged, and the log has the received, forwarded and returned events. *)
Lemma finalize_signs `{Digest, KeyProvider} b key r :
  finalize b key = Ok r ->
  exists bytes sig k,
    canonical_bytes_for_signing r = Ok bytes /\ sign_receipt key bytes = Ok sig /\
    signature r = {| sig_algo := algo k; sig_key_id := key; sig_value_hex := hex_encode sig |} /\
    k ∈ receipt_keys /\ key_id k = key /\
    event_log r = rb_events b /\ r_workload_id r = rb_workload_id b /\
    r_workload_keyset_digest r = rb_workload_keyset_digest b /\ receipt_id r = rb_receipt_id b /\
    (forall ty, ty ∈ [EVENT_REQUEST_RECEIVED; EVENT_REQUEST_FORWARDED; EVENT_RESPONSE_RETURNED] ->
       ty ∈ map event_type (event_log r)).
Proof.
  unfold finalize. case_bool_decide as Hev; [done|].
  destruct (missing_required _) eqn:Hm; [done|].
  destruct (find _ receipt_keys) as [k|] eqn:Hk; [|done].
  rewrite result_bind_Ok. intros (bytes & Hb & E). apply result_bind_Ok in E as (sig & Hs & [= <-]).
  apply find_some in Hk as [Hin Hid%String.eqb_eq]. subst key.
  exists bytes, sig, k. split; [exact Hb|]. split; [by destruct (sign_receipt _ _); [injection Hs as ->|]|].
  split; [done|]. split; [by apply list_elem_of_In|]. do 5 (split; [done|]).
  intros ty Hty. apply list_elem_of_In in Hty. unfold missing_required in Hm.
  apply (find_none _ _ Hm) in Hty. apply negb_false_iff, existsb_exists in Hty as (e & He & <-%String.eqb_eq).
  apply list_elem_of_fmap. exists e. split; [done|]. by apply list_elem_of_In.
Qed.

(** ** A concrete receipt *)

Definition demo_keys : KeyProvider := {|
  identity_public_key := {| pk_algo := "ecdsa-secp256k1"; pk_public_key_hex := "03cd" |};
  sign_keyset_endorsement p := Ok p;
  sign_keyset_revocation p := Ok p;
  receipt_keys := [demo_key "receipt-1"];
  sign_receipt kid bytes :=
    if String.eqb kid "receipt-1" then Ok (String.substring 0 4 bytes) else Err (UnknownReceiptKeyId kid);
|}.

Definition demo_builder : ReceiptBuilder :=
  ReceiptBuilder_new "rcpt-1" None (Some "m") "sha256:01" "sha256:02" "/v1/chat/completions" "POST" 1700000000.

Definition demo_event : UpstreamVerifiedEvent := {|
  upstream_name := "u"; provider_type := Some "tinfoil"; model_id := "m"; url_origin := Some "https://u";
  verifier_id := "v"; uv_result := Verified; required := true; reason := None; evidence := None;
  channel_bindings := [TlsSpkiSha256 "https://u" "aa"]; provider_claims := None |}.

Section demo.
#[local] Instance demo_digest_inst : Digest := demo_digest.
#[local] Instance demo_keys_inst : KeyProvider := demo_keys.

Definition demo_received : ReceiptBuilder := (add_request_received "body" demo_builder).2.
Definition demo_forwarded : ReceiptBuilder := (add_request_forwarded "body" demo_received).2.
Definition demo_verified : ReceiptBuilder := (add_upstream_verified demo_event demo_forwarded).2.
Definition demo_full : ReceiptBuilder := (add_response_returned "text" "wire" demo_verified).2.

Definition demo_receipt : Receipt :=
  match finalize demo_full "receipt-1" with
  | Ok r => r
  | Err _ => {| api_version := ""; receipt_id := ""; chat_id := None; model := None; r_workload_id := "";
                r_workload_keyset_digest := ""; endpoint := ""; method := ""; served_at := 0;
                event_log := []; signature := {| sig_algo := ""; sig_key_id := ""; sig_value_hex := "" |} |}
  end.

Example demo_order :
  (add_request_forwarded "body" demo_builder).1 = Err (FirstEventMustBeRequestReceived "request.forwarded")
  /\ finalize demo_builder "receipt-1" = Err EmptyReceipt
  /\ finalize demo_verified "receipt-1" = Err (MissingRequiredEvent "response.returned")
  /\ finalize demo_full "receipt-2" = Err (Receipt_Key (UnknownReceiptKeyId "receipt-2")).
Proof. vm_compute. auto. Qed.

Lemma event_log_append_only_witness : log_inv demo_full /\ extends demo_forwarded demo_full.
Proof.
  refine (event_log_append_only "rcpt-1" None (Some "m") "sha256:01" "sha256:02" "/v1/chat/completions" "POST"
    1700000000 demo_forwarded demo_full _ _).
  - eapply rtc_l; [apply (step_request_received "body")|]. apply rtc_once. apply (step_request_forwarded "body").
  - eapply rtc_l; [apply (step_upstream_verified demo_event)|]. apply rtc_once.
    apply (step_response_returned "text" "wire").
Defined.

Lemma demo_receipt_wf sig : receipt_wf (sign_with demo_receipt sig).
Proof.
  split.
  - repeat constructor; apply valid_utf8b_sound; vm_compute; reflexivity.
  - split; [exact I|]. apply valid_utf8b_sound; vm_compute; reflexivity.
  - apply is_u64_small. vm_compute. reflexivity.
  - apply event_wfb_sound. vm_compute. reflexivity.
Qed.

(** Only the signature value of the receipt is free. *)
Lemma signing_bytes_bind_witness : exists b,
  canonical_bytes_for_signing (sign_with demo_receipt "aa") = Ok b /\
  receipt_same (sign_with demo_receipt "aa") (sign_with demo_receipt "bb").
Proof.
  eexists. split; [vm_compute; reflexivity|].
  eapply (signing_bytes_bind (sign_with demo_receipt "aa") (sign_with demo_receipt "bb"));
    [apply demo_receipt_wf|apply demo_receipt_wf|vm_compute; reflexivity|vm_compute; reflexivity].
Defined.
End demo.
