(* ===== verification/Expiry.v ===== *)
(** * Expiry indexes

    The deadline index shared by the receipt store and the session store: a
    [BTreeMap] from deadlines to sets of ids, with the operations both stores
    perform on it. *)
From S2P Require Import Prelude.

(** [BTreeMap::first_key_value], the key part. *)
Definition first_key (m : gmap Z (gset string)) : option Z :=
  fold_right (fun k acc => Some (match acc with Some k' => Z.min k k' | None => k end)) None
    (map fst (map_to_list m)).

(** [rid] is in the bucket of [t]. *)
Definition hinted (m : gmap Z (gset string)) (t : Z) (rid : string) : Prop :=
  exists ids, m !! t = Some ids /\ rid ∈ ids.

(** Remove an id from a bucket, and the bucket when it becomes empty. *)
Definition drop_hint (m : gmap Z (gset string)) (t : Z) (rid : string) : gmap Z (gset string) :=
  match m !! t with
  | Some ids => let ids := ids ∖ {[rid]} in if decide (ids = ∅) then delete t m else <[t := ids]> m
  | None => m
  end.

(** [entry(t).or_default().insert(rid)] *)
Definition add_hint (m : gmap Z (gset string)) (t : Z) (rid : string) : gmap Z (gset string) :=
  <[t := {[rid]} ∪ default ∅ (m !! t)]> m.

Definition no_empty (m : gmap Z (gset string)) : Prop := forall t, m !! t <> Some ∅.

Lemma first_key_Some m t : first_key m = Some t -> is_Some (m !! t) /\ forall t', is_Some (m !! t') -> t <= t'.
Proof.
  unfold first_key. intros H.
  assert (Hmin : t ∈ map fst (map_to_list m) /\ Forall (fun t' => t <= t') (map fst (map_to_list m))).
  { revert t H. induction (map fst (map_to_list m)) as [|k l IH]; intros t; cbn; [done|].
    destruct (fold_right _ _ l) as [k'|] eqn:E.
    - intros [= <-]. destruct (IH k' eq_refl) as [Hin HF]. split.
      + destruct (Z.min_spec k k') as [[_ ->]|[_ ->]]; [by left|by right].
      + constructor; [lia|]. eapply Forall_impl; [exact HF|]. cbn. lia.
    - intros [= ->]. destruct l; [|done]. split; [by left|]. repeat constructor. lia. }
  destruct Hmin as [([t1 ids] & -> & Hin)%list_elem_of_fmap HF]. split.
  - apply elem_of_map_to_list in Hin. by exists ids.
  - intros t' [ids' Ht']. rewrite Forall_forall in HF. apply HF. apply list_elem_of_fmap.
    exists (t', ids'). split; [done|]. by apply elem_of_map_to_list.
Qed.

Lemma first_key_None m : first_key m = None -> m = ∅.
Proof.
  unfold first_key. intros H. apply map_to_list_empty_iff.
  destruct (map_to_list m) as [|[k v] l]; [done|]. cbn in H. done.
Qed.

Lemma hinted_drop m t rid t' x :
  hinted (drop_hint m t rid) t' x <-> hinted m t' x /\ ~ (t' = t /\ x = rid).
Proof.
  unfold hinted, drop_hint. destruct (m !! t) as [ids|] eqn:E; cbn zeta.
  - destruct (decide (t' = t)) as [->|Ht].
    + rewrite E. case_decide as Hemp.
      * rewrite lookup_delete_eq. split; [by intros (? & ? & _)|].
        intros [(? & [= <-] & Hx) Hn]. exfalso. apply Hn. split; [done|]. set_solver.
      * rewrite lookup_insert_eq. split.
        -- intros (? & [= <-] & Hx). split; [exists ids; set_solver|set_solver].
        -- intros [(? & [= <-] & Hx) Hn]. exists (ids ∖ {[rid]}). set_solver.
    + assert (Hs : (if decide (ids ∖ {[rid]} = ∅) then delete t m else <[t := ids ∖ {[rid]}]> m) !! t' = m !! t').
      { case_decide; [by rewrite lookup_delete_ne|by rewrite lookup_insert_ne]. }
      rewrite Hs. tauto.
  - split; [|tauto]. intros Hx. split; [done|]. intros [-> ->]. destruct Hx as (ids & ? & _). congruence.
Qed.

Lemma hinted_add m t rid t' x :
  hinted (add_hint m t rid) t' x <-> hinted m t' x \/ (t' = t /\ x = rid).
Proof.
  unfold hinted, add_hint. destruct (decide (t' = t)) as [->|Ht].
  - rewrite lookup_insert_eq. destruct (m !! t) as [ids|]; cbn; split.
    + intros (? & [= <-] & [?%elem_of_singleton|?]%elem_of_union); eauto.
    + intros [(? & [= <-] & Hx)|[_ ->]]; eexists; (split; [done|]); set_solver.
    + intros (? & [= <-] & [?%elem_of_singleton|?]%elem_of_union); [eauto|set_solver].
    + intros [(? & ? & _)|[_ ->]]; [done|]. eexists; (split; [done|]); set_solver.
  - rewrite lookup_insert_ne by done. tauto.
Qed.

Lemma hinted_delete m t t' x : hinted (delete t m) t' x <-> hinted m t' x /\ t' <> t.
Proof.
  unfold hinted. destruct (decide (t' = t)) as [->|Ht].
  - rewrite lookup_delete_eq. naive_solver.
  - rewrite lookup_delete_ne by done. tauto.
Qed.

Lemma no_empty_drop m t rid : no_empty m -> no_empty (drop_hint m t rid).
Proof.
  intros Hm t'. unfold drop_hint. destruct (m !! t); [|apply Hm]. cbn zeta. case_decide.
  - rewrite lookup_delete_Some. intros [_ ?]. by apply (Hm t').
  - rewrite lookup_insert_Some. intros [[_ ?]|[_ ?]]; [done|]. by apply (Hm t').
Qed.

Lemma no_empty_add m t rid : no_empty m -> no_empty (add_hint m t rid).
Proof.
  intros Hm t'. unfold add_hint. rewrite lookup_insert_Some. intros [[_ ?]|[_ ?]]; [set_solver|].
  by apply (Hm t').
Qed.

Lemma no_empty_delete m t : no_empty m -> no_empty (delete t m).
Proof. intros Hm t'. rewrite lookup_delete_Some. intros [_ ?]. by apply (Hm t'). Qed.
