(* ===== verification/ReceiptStore.v ===== *)
(** * The receipt store

    Model of [src/aggregator/service/receipt_store.rs] with its three indexes,
    its invariant, and the proof that with a clock that does not run backwards
    it answers as a store that never forgets anything but expired receipts. *)
From S2P Require Import Prelude Json Canonical Identity Expiry Receipt.

Record ReceiptOwner := { auth_token_sha256 : string }.

Record StoredReceipt := {
  sr_receipt : Receipt;
  sr_owner : option ReceiptOwner;
  expires_at : Z;
}.

(** [HashMap]s and the [BTreeMap] by deadline. *)
Record InMemoryReceiptStoreInner := {
  by_receipt : gmap string StoredReceipt;
  by_chat : gmap string string;
  by_expiry : gmap Z (gset string);
}.

Definition store_default : InMemoryReceiptStoreInner :=
  {| by_receipt := ∅; by_chat := ∅; by_expiry := ∅ |}.

Definition drop_chat_mapping (entry : StoredReceipt) (rid : string) (s : InMemoryReceiptStoreInner) :
    InMemoryReceiptStoreInner :=
  match chat_id (sr_receipt entry) with
  | Some c =>
      if decide (by_chat s !! c = Some rid)
      then {| by_receipt := by_receipt s; by_chat := delete c (by_chat s); by_expiry := by_expiry s |}
      else s
  | None => s
  end.

Definition drop_expiry_hint (rid : string) (t : Z) (s : InMemoryReceiptStoreInner) :
    InMemoryReceiptStoreInner :=
  match by_expiry s !! t with
  | Some ids =>
      let ids := ids ∖ {[rid]} in
      {| by_receipt := by_receipt s; by_chat := by_chat s;
         by_expiry := if decide (ids = ∅) then delete t (by_expiry s) else <[t := ids]> (by_expiry s) |}
  | None => s
  end.

Definition remove (rid : string) (s : InMemoryReceiptStoreInner) : InMemoryReceiptStoreInner :=
  match by_receipt s !! rid with
  | Some entry =>
      let s := {| by_receipt := delete rid (by_receipt s); by_chat := by_chat s; by_expiry := by_expiry s |} in
      drop_expiry_hint rid (expires_at entry) (drop_chat_mapping entry rid s)
  | None => s
  end.

Definition insert_receipt (r : Receipt) (owner : option ReceiptOwner) (t : Z)
    (s : InMemoryReceiptStoreInner) : InMemoryReceiptStoreInner :=
  let rid := receipt_id r in
  let s := remove rid s in
  let chat := match chat_id r with Some c => <[c := rid]> (by_chat s) | None => by_chat s end in
  {| by_receipt := <[rid := {| sr_receipt := r; sr_owner := owner; expires_at := t |}]> (by_receipt s);
     by_chat := chat;
     by_expiry := <[t := {[rid]} ∪ default ∅ (by_expiry s !! t)]> (by_expiry s) |}.

(** Drop one id of a popped bucket. *)
Definition drop_popped (s : InMemoryReceiptStoreInner) (rid : string) : InMemoryReceiptStoreInner :=
  match by_receipt s !! rid with
  | Some entry =>
      drop_chat_mapping entry rid
        {| by_receipt := delete rid (by_receipt s); by_chat := by_chat s; by_expiry := by_expiry s |}
  | None => s
  end.

(** Pop the bucket at [t] and drop its receipts. *)
Definition pop_bucket (t : Z) (s : InMemoryReceiptStoreInner) : InMemoryReceiptStoreInner :=
  let ids := default ∅ (by_expiry s !! t) in
  fold_left drop_popped (elements ids)
    {| by_receipt := by_receipt s; by_chat := by_chat s; by_expiry := delete t (by_expiry s) |}.

(** The loop, one bucket per iteration. *)
Fixpoint evict_loop (fuel : nat) (now : Z) (s : InMemoryReceiptStoreInner) : InMemoryReceiptStoreInner :=
  match fuel with
  | O => s
  | S fuel' =>
      match first_key (by_expiry s) with
      | Some t => if now <? t then s else evict_loop fuel' now (pop_bucket t s)
      | None => s
      end
  end.

Definition evict_expired (now : Z) (s : InMemoryReceiptStoreInner) : InMemoryReceiptStoreInner :=
  evict_loop (S (size (by_expiry s))) now s.

(** ** The trait [ReceiptStore] *)

Definition put (r : Receipt) (owner : option ReceiptOwner) (now t : Z) (s : InMemoryReceiptStoreInner) :
    InMemoryReceiptStoreInner :=
  insert_receipt r owner t (evict_expired now s).

Definition get_by_receipt_id (rid : string) (now : Z) (s : InMemoryReceiptStoreInner) :
    option Receipt * InMemoryReceiptStoreInner :=
  match by_receipt s !! rid with
  | None => (None, s)
  | Some entry =>
      if expires_at entry <=? now then (None, remove rid s)
      else (sr_receipt <$> by_receipt s !! rid, s)
  end.

Definition get_by_chat_id (c : string) (now : Z) (s : InMemoryReceiptStoreInner) :
    option Receipt * InMemoryReceiptStoreInner :=
  match by_chat s !! c with
  | None => (None, s)
  | Some rid =>
      match by_receipt s !! rid with
      | None => (None, s)
      | Some entry =>
          if expires_at entry <=? now then (None, remove rid s)
          else (sr_receipt <$> by_receipt s !! rid, s)
      end
  end.

Definition owner_of (rid : string) (now : Z) (s : InMemoryReceiptStoreInner) :
    option ReceiptOwner * InMemoryReceiptStoreInner :=
  match by_receipt s !! rid with
  | None => (None, s)
  | Some entry =>
      if expires_at entry <=? now then (None, remove rid s)
      else (by_receipt s !! rid ≫= sr_owner, s)
  end.

(** ** Invariant *)

Record store_wf (s : InMemoryReceiptStoreInner) : Prop := {
  wf_id rid e : by_receipt s !! rid = Some e -> receipt_id (sr_receipt e) = rid;
  wf_chat c rid : by_chat s !! c = Some rid ->
    exists e, by_receipt s !! rid = Some e /\ chat_id (sr_receipt e) = Some c;
  wf_expiry t rid :
    (exists ids, by_expiry s !! t = Some ids /\ rid ∈ ids) <->
    (exists e, by_receipt s !! rid = Some e /\ expires_at e = t);
  wf_buckets t : by_expiry s !! t <> Some ∅;
}.

(** ** Removing a set of receipts *)

(** [s'] is [s] without the receipts of [D] and the chat mappings to them. *)
Record cut (D : gset string) (s s' : InMemoryReceiptStoreInner) : Prop := {
  cut_receipt rid : by_receipt s' !! rid = if decide (rid ∈ D) then None else by_receipt s !! rid;
  cut_chat c : by_chat s' !! c = (by_chat s !! c ≫= fun rid => if decide (rid ∈ D) then None else Some rid);
}.

(** [rid] is in the bucket of [t]. *)
Definition hint (s : InMemoryReceiptStoreInner) (t : Z) (rid : string) : Prop :=
  exists ids, by_expiry s !! t = Some ids /\ rid ∈ ids.

Definition chat_wf (s : InMemoryReceiptStoreInner) : Prop :=
  forall c rid, by_chat s !! c = Some rid ->
    exists e, by_receipt s !! rid = Some e /\ chat_id (sr_receipt e) = Some c.

Lemma cut_refl s : cut ∅ s s.
Proof.
  split; [intros rid; by rewrite decide_False by set_solver|].
  intros c. destruct (by_chat s !! c); cbn; [|done]. by rewrite decide_False by set_solver.
Qed.

Lemma cut_trans D1 D2 s s1 s2 : cut D1 s s1 -> cut D2 s1 s2 -> cut (D1 ∪ D2) s s2.
Proof.
  intros [R1 C1] [R2 C2]. split.
  - intros rid. rewrite R2, R1. repeat case_decide; set_solver.
  - intros c. rewrite C2, C1. destruct (by_chat s !! c) as [rid|]; cbn; [|done].
    repeat case_decide; cbn; repeat case_decide; set_solver.
Qed.

Lemma cut_chat_wf D s s' : chat_wf s -> cut D s s' -> chat_wf s'.
Proof.
  intros Hc [R C] c rid. rewrite C. destruct (by_chat s !! c) as [rid'|] eqn:E; cbn; [|done].
  case_decide; [done|]. intros [= <-]. rewrite R, decide_False by done. by apply Hc.
Qed.

(** Removing the receipt and its chat mapping, the expiry index aside. *)
Lemma drop_entry_cut s rid e :
  chat_wf s -> by_receipt s !! rid = Some e ->
  let s' := drop_chat_mapping e rid
    {| by_receipt := delete rid (by_receipt s); by_chat := by_chat s; by_expiry := by_expiry s |} in
  cut {[rid]} s s' /\ by_expiry s' = by_expiry s.
Proof.
  intros Hc He. cbn zeta. unfold drop_chat_mapping.
  assert (Hr : forall x, delete rid (by_receipt s) !! x
                = if decide (x ∈ ({[rid]} : gset string)) then None else by_receipt s !! x).
  { intros x. case_decide as Hx.
    - apply elem_of_singleton in Hx as ->. apply lookup_delete_eq.
    - apply lookup_delete_ne. set_solver. }
  assert (Hother : forall c, by_chat s !! c = Some rid -> chat_id (sr_receipt e) = Some c).
  { intros c Hcr. destruct (Hc c rid Hcr) as (e' & He' & ?). by simplify_eq. }
  destruct (chat_id (sr_receipt e)) as [c0|] eqn:Hch; cbn [by_chat].
  - case_decide as Hm; (split; [|done]); split; cbn; try done; intros c.
    + destruct (decide (c = c0)) as [->|Hne].
      * rewrite lookup_delete_eq, Hm. cbn. by rewrite decide_True by set_solver.
      * rewrite lookup_delete_ne by done. destruct (by_chat s !! c) as [x|] eqn:Hx; cbn; [|done].
        case_decide as Hd; [|done]. apply elem_of_singleton in Hd as ->. apply Hother in Hx. congruence.
    + destruct (by_chat s !! c) as [x|] eqn:Hx; cbn; [|done].
      case_decide as Hd; [|done]. apply elem_of_singleton in Hd as ->.
      pose proof (Hother c Hx) as [= ->]. done.
  - split; [|done]. split; cbn; [done|]. intros c. destruct (by_chat s !! c) as [x|] eqn:Hx; cbn; [|done].
    case_decide as Hd; [|done]. apply elem_of_singleton in Hd as ->. by apply Hother in Hx.
Qed.

Lemma drop_popped_cut s rid :
  chat_wf s -> cut {[rid]} s (drop_popped s rid) /\ by_expiry (drop_popped s rid) = by_expiry s.
Proof.
  intros Hc. unfold drop_popped. destruct (by_receipt s !! rid) as [e|] eqn:He; [by apply drop_entry_cut|].
  split; [|done]. split.
  - intros x. case_decide as Hx; [|done]. by apply elem_of_singleton in Hx as ->.
  - intros c. destruct (by_chat s !! c) as [x|] eqn:Hx; cbn; [|done].
    case_decide as Hd; [|done]. apply elem_of_singleton in Hd as ->.
    destruct (Hc c rid Hx) as (e & ? & _). congruence.
Qed.

Lemma drop_all_cut l s :
  chat_wf s -> cut (list_to_set l) s (fold_left drop_popped l s)
               /\ by_expiry (fold_left drop_popped l s) = by_expiry s.
Proof.
  revert s. induction l as [|rid l IH]; intros s Hc; cbn; [split; [apply cut_refl|done]|].
  destruct (drop_popped_cut s rid Hc) as [H1 E1].
  destruct (IH _ (cut_chat_wf _ _ _ Hc H1)) as [H2 E2].
  split; [by eapply cut_trans|by rewrite E2].
Qed.

(** A cut whose hints are exactly the others keeps the store well formed. *)
Lemma cut_wf D s s' :
  store_wf s -> cut D s s' -> (forall t rid, hint s' t rid <-> hint s t rid /\ rid ∉ D) ->
  (forall t, by_expiry s' !! t <> Some ∅) -> store_wf s'.
Proof.
  intros Hwf Hcut Hh Hb. pose proof Hcut as [R C]. split; [| | |done].
  - intros rid e. rewrite R. case_decide; [done|]. apply (wf_id s Hwf).
  - apply (cut_chat_wf D s s'); [exact (wf_chat s Hwf)|done].
  - intros t rid. rewrite R. fold (hint s' t rid). rewrite Hh.
    pose proof (wf_expiry s Hwf t rid) as Hx. fold (hint s t rid) in Hx.
    rewrite Hx. case_decide; naive_solver.
Qed.

Lemma remove_spec rid s :
  store_wf s -> cut {[rid]} s (remove rid s) /\ store_wf (remove rid s).
Proof.
  intros Hwf. unfold remove. destruct (by_receipt s !! rid) as [e|] eqn:He.
  2: { destruct (drop_popped_cut s rid (wf_chat s Hwf)) as [Hcut _].
       unfold drop_popped in Hcut. rewrite He in Hcut. done. }
  destruct (drop_entry_cut s rid e (wf_chat s Hwf) He) as [Hcut Hexp]. cbn zeta.
  set (s1 := drop_chat_mapping e rid _) in *.
  assert (Hin : hint s (expires_at e) rid) by (apply (wf_expiry s Hwf); eauto).
  destruct Hin as (ids & Hids & Hrid).
  unfold drop_expiry_hint. rewrite Hexp, Hids. cbn zeta.
  set (s2 := {| by_receipt := by_receipt s1 |}).
  assert (Hcut2 : cut {[rid]} s s2) by (destruct Hcut; by split).
  assert (Hrest : forall t ids', by_expiry s !! t = Some ids' -> rid ∈ ids' -> t = expires_at e).
  { intros t ids' Ht Hr. destruct (proj1 (wf_expiry s Hwf t rid)) as (e' & ? & <-); [eauto|]. by simplify_eq. }
  split; [done|]. apply (cut_wf {[rid]} s s2 Hwf Hcut2).
  - intros t x. unfold hint, s2. cbn [by_expiry].
    destruct (decide (t = expires_at e)) as [->|Ht].
    + rewrite Hids. case_decide as Hemp.
      * rewrite lookup_delete_eq. split; [by intros (? & ? & _)|].
        intros [(? & [= <-] & Hx) Hn]. exfalso. set_solver.
      * rewrite lookup_insert_eq. split.
        -- intros (? & [= <-] & Hx). split; [exists ids; set_solver|set_solver].
        -- intros [(? & [= <-] & Hx) Hn]. exists (ids ∖ {[rid]}). set_solver.
    + assert (Hsame : (if decide (ids ∖ {[rid]} = ∅) then delete (expires_at e) (by_expiry s)
                       else <[expires_at e := ids ∖ {[rid]}]> (by_expiry s)) !! t = by_expiry s !! t).
      { case_decide; [by rewrite lookup_delete_ne|by rewrite lookup_insert_ne]. }
      rewrite Hsame. split; [|by intros [? _]]. intros (ids' & Hi & Hx).
      split; [by exists ids'|]. intros ->%elem_of_singleton. by apply Ht, (Hrest t ids').
  - intros t. unfold s2. cbn [by_expiry]. case_decide as Hemp.
    + rewrite lookup_delete_Some. intros [_ ?]. by apply (wf_buckets s Hwf t).
    + rewrite lookup_insert_Some. intros [[_ ?]|[_ ?]]; [done|]. by apply (wf_buckets s Hwf t).
Qed.

Lemma pop_bucket_spec t ids s :
  store_wf s -> by_expiry s !! t = Some ids ->
  cut ids s (pop_bucket t s) /\ store_wf (pop_bucket t s) /\ by_expiry (pop_bucket t s) = delete t (by_expiry s).
Proof.
  intros Hwf Hids. unfold pop_bucket. rewrite Hids. cbn [default].
  set (s1 := {| by_receipt := by_receipt s |}).
  destruct (drop_all_cut (elements ids) s1) as [Hcut Hexp]; [exact (wf_chat s Hwf)|].
  rewrite list_to_set_elements_L in Hcut.
  assert (Hcut' : cut ids s (fold_left drop_popped (elements ids) s1)) by (destruct Hcut; by split).
  cbn [id] in *. split; [done|]. split; [|by rewrite Hexp].
  apply (cut_wf ids s _ Hwf Hcut').
  - intros t' rid. unfold hint. rewrite Hexp. cbn [by_expiry s1].
    destruct (decide (t' = t)) as [->|Hne].
    + rewrite lookup_delete_eq, Hids. naive_solver.
    + rewrite lookup_delete_ne by done. split; [|by intros [? _]]. intros (ids' & Hi & Hr).
      split; [by exists ids'|]. intros Hr'. apply Hne.
      destruct (proj1 (wf_expiry s Hwf t' rid)) as (e' & ? & <-); [eauto|].
      destruct (proj1 (wf_expiry s Hwf t rid)) as (e & ? & <-); [eauto|]. by simplify_eq.
  - intros t'. rewrite Hexp. cbn [by_expiry s1]. rewrite lookup_delete_Some. intros [_ ?].
    by apply (wf_buckets s Hwf t').
Qed.

(** Eviction removes exactly the receipts whose deadline has passed. *)
Lemma evict_loop_spec fuel now s :
  store_wf s -> (size (by_expiry s) <= fuel)%nat ->
  exists D, cut D s (evict_loop fuel now s) /\ store_wf (evict_loop fuel now s) /\
    forall rid e, by_receipt s !! rid = Some e -> rid ∈ D <-> expires_at e <= now.
Proof.
  revert s. induction fuel as [|fuel IH]; intros s Hwf Hsize; cbn [evict_loop].
  { assert (Hempty : by_expiry s = ∅) by (apply map_size_empty_iff; lia).
    exists ∅. split; [apply cut_refl|]. split; [done|]. intros rid e He.
    destruct (proj2 (wf_expiry s Hwf (expires_at e) rid)) as (ids & Hi & _); [eauto|].
    rewrite Hempty in Hi. done. }
  destruct (first_key (by_expiry s)) as [t|] eqn:Hk.
  - apply first_key_Some in Hk as [[ids Hids] Hmin].
    destruct (Z.ltb_spec now t) as [Hlt|Hge].
    + exists ∅. split; [apply cut_refl|]. split; [done|]. intros rid e He.
      destruct (proj2 (wf_expiry s Hwf (expires_at e) rid)) as (ids' & Hi & _); [eauto|].
      specialize (Hmin (expires_at e) ltac:(eauto)). split; [set_solver|lia].
    + destruct (pop_bucket_spec t ids s Hwf Hids) as (Hcut & Hwf' & Hexp).
      destruct (IH (pop_bucket t s) Hwf') as (D & Hcut' & Hwf'' & HD).
      { rewrite Hexp, map_size_delete, Hids. cbn. lia. }
      exists (ids ∪ D). split; [by eapply cut_trans|]. split; [done|]. intros rid e He.
      rewrite elem_of_union. destruct (decide (rid ∈ ids)) as [Hin|Hnin].
      * destruct (proj1 (wf_expiry s Hwf t rid)) as (e' & ? & <-); [eauto|]. simplify_eq. tauto.
      * rewrite (HD rid e); [tauto|]. rewrite (cut_receipt _ _ _ Hcut), decide_False by done. done.
  - apply first_key_None in Hk. exists ∅. split; [apply cut_refl|]. split; [done|]. intros rid e He.
    destruct (proj2 (wf_expiry s Hwf (expires_at e) rid)) as (ids & Hi & _); [eauto|].
    rewrite Hk in Hi. done.
Qed.

Lemma evict_expired_spec now s :
  store_wf s ->
  exists D, cut D s (evict_expired now s) /\ store_wf (evict_expired now s) /\
    forall rid e, by_receipt s !! rid = Some e -> rid ∈ D <-> expires_at e <= now.
Proof. intros Hwf. apply evict_loop_spec; [done|lia]. Qed.

Lemma insert_receipt_wf r owner t s : store_wf s -> store_wf (insert_receipt r owner t s).
Proof.
  intros Hwf0. destruct (remove_spec (receipt_id r) s Hwf0) as [Hcut Hwf].
  unfold insert_receipt. cbn zeta. set (s1 := remove (receipt_id r) s) in *. set (rid := receipt_id r) in *.
  assert (Hgone : by_receipt s1 !! rid = None).
  { rewrite (cut_receipt _ _ _ Hcut). by rewrite decide_True by set_solver. }
  split; cbn.
  - intros x e. rewrite lookup_insert_Some. intros [[<- <-]|[_ ?]]; [done|]. by apply (wf_id s1 Hwf).
  - intros c x Hc. destruct (decide (x = rid)) as [->|Hne].
    + rewrite lookup_insert_eq. eexists. split; [done|]. cbn. destruct (chat_id r) as [c0|].
      * apply lookup_insert_Some in Hc as [[-> _]|[_ Hc]]; [done|].
        apply (wf_chat s1 Hwf) in Hc as (e & ? & _). congruence.
      * apply (wf_chat s1 Hwf) in Hc as (e & ? & _). congruence.
    + rewrite lookup_insert_ne by done. apply (wf_chat s1 Hwf).
      destruct (chat_id r) as [c0|]; [|done]. apply lookup_insert_Some in Hc as [[_ ?]|[_ ?]]; [congruence|done].
  - intros t' x. destruct (decide (x = rid)) as [->|Hne].
    + rewrite lookup_insert_eq. split.
      * intros (ids & [[-> <-]|[Hne Hi]]%lookup_insert_Some & Hx); [by eauto|].
        destruct (proj1 (wf_expiry s1 Hwf t' rid)) as (e & ? & _); [eauto|]. congruence.
      * intros (e & [= <-] & <-). cbn. exists ({[rid]} ∪ default ∅ (by_expiry s1 !! t)).
        rewrite lookup_insert_eq. set_solver.
    + rewrite (lookup_insert_ne (by_receipt s1) rid x) by done. rewrite <- (wf_expiry s1 Hwf t' x).
      destruct (decide (t' = t)) as [->|Ht]; [rewrite lookup_insert_eq|by rewrite lookup_insert_ne].
      destruct (by_expiry s1 !! t) as [ids|]; cbn; split; intros (ids' & [= <-] & Hx); try set_solver.
      eexists. split; [done|]. set_solver.
  - intros t'. rewrite lookup_insert_Some. intros [[_ H]|[_ H]]; [set_solver|]. by apply (wf_buckets s1 Hwf t').
Qed.

Lemma store_default_wf : store_wf store_default.
Proof.
  split; cbn; try done. intros t rid. split; [intros (? & ? & _)|intros (? & ? & _)]; done.
Qed.

(** ** The specification: everything ever put, newest first *)

Fixpoint latest (rid : string) (h : list StoredReceipt) : option StoredReceipt :=
  match h with
  | [] => None
  | p :: h' => if String.eqb (receipt_id (sr_receipt p)) rid then Some p else latest rid h'
  end.

(** The newest receipt of a chat, unless a later one took its receipt id. *)
Fixpoint latest_chat (c : string) (h : list StoredReceipt) : option StoredReceipt :=
  match h with
  | [] => None
  | p :: h' =>
      if decide (chat_id (sr_receipt p) = Some c) then Some p
      else match latest_chat c h' with
           | Some q => if String.eqb (receipt_id (sr_receipt q)) (receipt_id (sr_receipt p)) then None else Some q
           | None => None
           end
  end.

Definition unexpired (now : Z) (o : option StoredReceipt) : option StoredReceipt :=
  match o with Some p => if now <? expires_at p then Some p else None | None => None end.

Inductive StoreOp :=
| OpPut (r : Receipt) (owner : option ReceiptOwner) (now t : Z)
| OpReceipt (rid : string) (now : Z)
| OpChat (c : string) (now : Z)
| OpOwner (rid : string) (now : Z).

Definition op_time (op : StoreOp) : Z :=
  match op with OpPut _ _ now _ | OpReceipt _ now | OpChat _ now | OpOwner _ now => now end.

Inductive StoreReply := RPut | RReceipt (r : option Receipt) | ROwner (o : option ReceiptOwner).

Definition run_store (s : InMemoryReceiptStoreInner) (op : StoreOp) :
    StoreReply * InMemoryReceiptStoreInner :=
  match op with
  | OpPut r owner now t => (RPut, put r owner now t s)
  | OpReceipt rid now => let '(o, s') := get_by_receipt_id rid now s in (RReceipt o, s')
  | OpChat c now => let '(o, s') := get_by_chat_id c now s in (RReceipt o, s')
  | OpOwner rid now => let '(o, s') := owner_of rid now s in (ROwner o, s')
  end.

Definition run_spec (h : list StoredReceipt) (op : StoreOp) : StoreReply * list StoredReceipt :=
  match op with
  | OpPut r owner now t => (RPut, {| sr_receipt := r; sr_owner := owner; expires_at := t |} :: h)
  | OpReceipt rid now => (RReceipt (option_map sr_receipt (unexpired now (latest rid h))), h)
  | OpChat c now => (RReceipt (option_map sr_receipt (unexpired now (latest_chat c h))), h)
  | OpOwner rid now => (ROwner (match unexpired now (latest rid h) with Some p => sr_owner p | None => None end), h)
  end.

Fixpoint run {S} (step : S -> StoreOp -> StoreReply * S) (s : S) (ops : list StoreOp) : list StoreReply :=
  match ops with
  | [] => []
  | op :: ops' => let '(r, s') := step s op in r :: run step s' ops'
  end.

(** The clock does not run backwards. *)
Fixpoint monotone (t : Z) (ops : list StoreOp) : Prop :=
  match ops with [] => True | op :: ops' => t <= op_time op /\ monotone (op_time op) ops' end.

(** The store and the history agree on everything that has not expired by [t]. *)
Record sim (t : Z) (h : list StoredReceipt) (s : InMemoryReceiptStoreInner) : Prop := {
  sim_wf : store_wf s;
  sim_receipt rid e : by_receipt s !! rid = Some e -> latest rid h = Some e;
  sim_receipt_live rid e : latest rid h = Some e -> t < expires_at e -> by_receipt s !! rid = Some e;
  sim_chat c rid : by_chat s !! c = Some rid ->
    exists e, latest_chat c h = Some e /\ receipt_id (sr_receipt e) = rid;
  sim_chat_live c e : latest_chat c h = Some e -> t < expires_at e ->
    by_chat s !! c = Some (receipt_id (sr_receipt e));
}.

Lemma latest_id rid h e : latest rid h = Some e -> receipt_id (sr_receipt e) = rid.
Proof.
  induction h as [|p h IH]; cbn; [done|].
  destruct (String.eqb_spec (receipt_id (sr_receipt p)) rid); [by intros [= <-]|done].
Qed.

Lemma latest_chat_Some c h e :
  latest_chat c h = Some e ->
  chat_id (sr_receipt e) = Some c /\ latest (receipt_id (sr_receipt e)) h = Some e.
Proof.
  induction h as [|p h IH]; cbn; [done|]. case_decide as Hc.
  - intros [= <-]. by rewrite String.eqb_refl.
  - destruct (latest_chat c h) as [q|]; [|done].
    destruct (String.eqb_spec (receipt_id (sr_receipt q)) (receipt_id (sr_receipt p))) as [|Hne]; [done|].
    intros [= <-]. destruct (IH eq_refl) as [? ?]. split; [done|].
    destruct (String.eqb_spec (receipt_id (sr_receipt p)) (receipt_id (sr_receipt q))); [congruence|done].
Qed.

Lemma sim_later t t' h s : t <= t' -> sim t h s -> sim t' h s.
Proof. intros Ht [? ? Hr ? Hc]. split; try done; intros; [apply Hr|apply Hc]; auto with lia. Qed.

(** Losing expired receipts keeps the store in agreement. *)
Lemma sim_cut t h s s' D :
  sim t h s -> cut D s s' -> store_wf s' ->
  (forall rid e, rid ∈ D -> by_receipt s !! rid = Some e -> expires_at e <= t) -> sim t h s'.
Proof.
  intros [Hwf Hr Hrl Hc Hcl] [R C] Hwf' HD. split; [done| | | |].
  - intros rid e. rewrite R. case_decide; [done|]. apply Hr.
  - intros rid e Hl Ht. rewrite R. pose proof (Hrl rid e Hl Ht) as He.
    rewrite decide_False; [done|]. intros Hin. specialize (HD rid e Hin He). lia.
  - intros c rid. rewrite C. destruct (by_chat s !! c) as [x|] eqn:E; cbn; [|done].
    case_decide; [done|]. intros [= <-]. by apply Hc.
  - intros c e Hl Ht. rewrite C, (Hcl c e Hl Ht). cbn. apply latest_chat_Some in Hl as [_ Hl].
    pose proof (Hrl _ e Hl Ht) as He. rewrite decide_False; [done|].
    intros Hin. specialize (HD _ e Hin He). lia.
Qed.

Lemma sim_remove_expired t h s rid e :
  sim t h s -> by_receipt s !! rid = Some e -> expires_at e <= t -> sim t h (remove rid s).
Proof.
  intros Hs He Ht. destruct (remove_spec rid s (sim_wf _ _ _ Hs)) as [Hcut Hwf].
  apply (sim_cut t h s _ {[rid]}); [done..|]. intros x e' ->%elem_of_singleton He'. by simplify_eq.
Qed.

Lemma sim_insert t h s r owner exp :
  sim t h s ->
  sim t ({| sr_receipt := r; sr_owner := owner; expires_at := exp |} :: h) (insert_receipt r owner exp s).
Proof.
  intros Hs. pose proof (sim_wf _ _ _ Hs) as Hwf0.
  destruct (remove_spec (receipt_id r) s Hwf0) as [[R C] Hwf].
  split; [by apply insert_receipt_wf| | | |]; cbn [by_receipt by_chat insert_receipt latest latest_chat sr_receipt expires_at].
  - intros rid e. rewrite lookup_insert_Some, R. intros [[<- <-]|[Hne He]]; [by rewrite String.eqb_refl|].
    destruct (String.eqb_spec (receipt_id r) rid); [done|]. case_decide; [done|]. by apply (sim_receipt _ _ _ Hs).
  - intros rid e. destruct (String.eqb_spec (receipt_id r) rid) as [->|Hne].
    + intros [= <-] _. by rewrite lookup_insert_eq.
    + intros Hl Ht. rewrite lookup_insert_ne by done. rewrite R, decide_False by set_solver.
      by apply (sim_receipt_live _ _ _ Hs).
  - intros c rid Hc. case_decide as Hch.
    + rewrite Hch, lookup_insert_eq in Hc. injection Hc as <-. eauto.
    + assert (Hc' : by_chat (remove (receipt_id r) s) !! c = Some rid).
      { destruct (chat_id r) as [c0|]; [|done]. rewrite lookup_insert_ne in Hc by congruence. done. }
      rewrite C in Hc'. destruct (by_chat s !! c) as [x|] eqn:E; cbn in Hc'; [|done].
      case_decide as Hd; [done|]. injection Hc' as ->.
      destruct (sim_chat _ _ _ Hs c rid E) as (e & -> & <-). exists e.
      destruct (String.eqb_spec (receipt_id (sr_receipt e)) (receipt_id r)); [set_solver|done].
  - intros c e. case_decide as Hch; [intros [= <-] _; by rewrite Hch, lookup_insert_eq|].
    destruct (latest_chat c h) as [q|] eqn:Hl; [|done].
    destruct (String.eqb_spec (receipt_id (sr_receipt q)) (receipt_id r)) as [|Hne]; [done|].
    intros [= <-] Ht.
    assert (Hq : by_chat (remove (receipt_id r) s) !! c = Some (receipt_id (sr_receipt q))).
    { rewrite C, (sim_chat_live _ _ _ Hs c q Hl Ht). cbn. by rewrite decide_False by set_solver. }
    destruct (chat_id r) as [c0|]; [|done]. by rewrite lookup_insert_ne by congruence.
Qed.

(** A lookup that removes the receipt when it has expired. *)
Lemma lookup_expired t h s rid e :
  sim t h s -> by_receipt s !! rid = Some e ->
  latest rid h = Some e /\
  (if expires_at e <=? t then sim t h (remove rid s) /\ unexpired t (Some e) = None
   else unexpired t (Some e) = Some e).
Proof.
  intros Hs He. split; [by apply (sim_receipt _ _ _ Hs)|]. unfold unexpired.
  destruct (Z.leb_spec (expires_at e) t), (Z.ltb_spec t (expires_at e)); try lia; [|done].
  split; [|done]. by apply (sim_remove_expired _ _ _ _ e).
Qed.

Lemma lookup_absent t h s rid :
  sim t h s -> by_receipt s !! rid = None -> unexpired t (latest rid h) = None.
Proof.
  intros Hs Hn. destruct (latest rid h) as [e|] eqn:Hl; cbn; [|done].
  destruct (Z.ltb_spec t (expires_at e)) as [Ht|]; [|done].
  pose proof (sim_receipt_live _ _ _ Hs rid e Hl Ht). congruence.
Qed.

Lemma lookup_chat_absent t h s c :
  sim t h s -> by_chat s !! c = None -> unexpired t (latest_chat c h) = None.
Proof.
  intros Hs Hn. destruct (latest_chat c h) as [e|] eqn:Hl; cbn; [|done].
  destruct (Z.ltb_spec t (expires_at e)) as [Ht|]; [|done].
  pose proof (sim_chat_live _ _ _ Hs c e Hl Ht). congruence.
Qed.

Lemma sim_put t h s r owner now exp :
  t <= now -> sim t h s ->
  sim now ({| sr_receipt := r; sr_owner := owner; expires_at := exp |} :: h) (put r owner now exp s).
Proof.
  intros Ht Hs. apply (sim_later _ _ _ _ Ht) in Hs. unfold put. apply sim_insert.
  destruct (evict_expired_spec now s (sim_wf _ _ _ Hs)) as (D & Hcut & Hwf & HD).
  apply (sim_cut now h s _ D); [done..|]. intros rid e Hin He. by apply (HD rid e).
Qed.

(** One operation: the same reply, and the agreement is kept. *)
Lemma sim_step t h s op :
  sim t h s -> t <= op_time op ->
  (run_store s op).1 = (run_spec h op).1 /\ sim (op_time op) (run_spec h op).2 (run_store s op).2.
Proof.
  intros Hs Ht. destruct op as [r owner now exp|rid now|c now|rid now]; cbn in Ht |- *.
  - split; [done|]. by eapply sim_put.
  - apply (sim_later _ _ _ _ Ht) in Hs. unfold get_by_receipt_id.
    destruct (by_receipt s !! rid) as [e|] eqn:He.
    + destruct (lookup_expired _ _ _ _ _ Hs He) as [-> Hx]. destruct (expires_at e <=? now).
      * destruct Hx as [? Hu]. by rewrite Hu.
      * by rewrite Hx.
    + by rewrite (lookup_absent _ _ _ _ Hs He).
  - apply (sim_later _ _ _ _ Ht) in Hs. unfold get_by_chat_id.
    destruct (by_chat s !! c) as [rid|] eqn:Hc; [|by rewrite (lookup_chat_absent _ _ _ _ Hs Hc)].
    destruct (sim_chat _ _ _ Hs c rid Hc) as (e & Hl & <-). rewrite Hl.
    apply latest_chat_Some in Hl as [_ Hl].
    destruct (wf_chat s (sim_wf _ _ _ Hs) _ _ Hc) as (e' & He & _). rewrite He.
    destruct (lookup_expired _ _ _ _ _ Hs He) as [Hl' Hx]. rewrite Hl in Hl'. injection Hl' as <-.
    destruct (expires_at e <=? now).
    + destruct Hx as [? Hu]. by rewrite Hu.
    + by rewrite Hx.
  - apply (sim_later _ _ _ _ Ht) in Hs. unfold owner_of.
    destruct (by_receipt s !! rid) as [e|] eqn:He.
    + destruct (lookup_expired _ _ _ _ _ Hs He) as [-> Hx]. destruct (expires_at e <=? now).
      * destruct Hx as [? Hu]. by rewrite Hu.
      * by rewrite Hx.
    + by rewrite (lookup_absent _ _ _ _ Hs He).
Qed.

Lemma sim_empty t : sim t [] store_default.
Proof. split; [exact store_default_wf|..]; cbn; intros; try done. Qed.

(** ** Properties *)

(** C31: the in-memory receipt store implements its contract.  With a clock that
    does not run backwards, any sequence of puts and lookups gets the replies
    of a store that keeps everything ever put: a receipt id finds its last
    receipt, a chat id its newest one, the owner is the one recorded with it,
    and nothing is lost before its deadline or served after it. *)
Theorem receipt_store_refines t ops :
  monotone t ops -> run run_store store_default ops = run run_spec [] ops.
Proof.
  assert (Hrun : forall h s, sim t h s -> monotone t ops -> run run_store s ops = run run_spec h ops).
  { revert t. induction ops as [|op ops IH]; intros t h s Hs Hm; cbn [run]; [done|].
    destruct Hm as [Ht Hm]. destruct (sim_step t h s op Hs Ht) as [Hr Hs'].
    destruct (run_store s op) as [r s'], (run_spec h op) as [r' h']. cbn in Hr, Hs'. subst r'.
    f_equal. by apply (IH (op_time op)). }
  intros Hm. apply Hrun; [apply sim_empty|done].
Qed.

(** The store keeps its indexes consistent and its size bounded, whatever
    the clock does: every operation preserves the invariant that ties the three
    indexes together, and right after a put every receipt but the new one has
    a deadline in the future. *)
Theorem receipt_store_bounded s r owner now t :
  store_wf s ->
  store_wf (put r owner now t s) /\
  (forall op, store_wf (run_store s op).2) /\
  (forall rid e, by_receipt (put r owner now t s) !! rid = Some e ->
     rid = receipt_id r \/ now < expires_at e).
Proof.
  intros Hwf. destruct (evict_expired_spec now s Hwf) as (D & Hcut & Hwf' & HD). split_and!.
  - by apply insert_receipt_wf.
  - intros [r' o' n t'|rid n|c n|rid n]; cbn.
    + destruct (evict_expired_spec n s Hwf) as (? & _ & ? & _). by apply insert_receipt_wf.
    + unfold get_by_receipt_id. destruct (by_receipt s !! rid) as [e|]; [|done].
      destruct (_ <=? _); [by apply remove_spec|done].
    + unfold get_by_chat_id. destruct (by_chat s !! c) as [rid|]; [|done].
      destruct (by_receipt s !! rid) as [e|]; [|done]. destruct (_ <=? _); [by apply remove_spec|done].
    + unfold owner_of. destruct (by_receipt s !! rid) as [e|]; [|done].
      destruct (_ <=? _); [by apply remove_spec|done].
  - intros rid e. unfold put, insert_receipt. cbn [by_receipt].
    rewrite lookup_insert_Some. intros [[<- _]|[_ He]]; [by left|right].
    destruct (remove_spec (receipt_id r) _ Hwf') as [[R _] _]. rewrite R in He. case_decide; [done|].
    rewrite (cut_receipt _ _ _ Hcut) in He. case_decide as Hd; [done|].
    assert (Hn : ~ expires_at e <= now) by (by rewrite <- (HD rid e He)). lia.
Qed.

Definition demo_stored (rid : string) (c : option string) : Receipt := {|
  api_version := "aci/1"; receipt_id := rid; chat_id := c; model := None; r_workload_id := "";
  r_workload_keyset_digest := ""; endpoint := ""; method := ""; served_at := 0; event_log := [];
  signature := {| sig_algo := ""; sig_key_id := ""; sig_value_hex := "" |} |}.

Definition demo_ops : list StoreOp :=
  [OpPut (demo_stored "r1" (Some "c")) (Some {| auth_token_sha256 := "t" |}) 10 100;
   OpPut (demo_stored "r2" (Some "c")) None 20 50;
   OpChat "c" 30; OpReceipt "r1" 60; OpOwner "r1" 60; OpChat "c" 60;
   OpPut (demo_stored "r3" None) None 100 200; OpReceipt "r1" 100].

Lemma receipt_store_refines_witness :
  run run_spec [] demo_ops =
  [RPut; RPut; RReceipt (Some (demo_stored "r2" (Some "c"))); RReceipt (Some (demo_stored "r1" (Some "c")));
   ROwner (Some {| auth_token_sha256 := "t" |}); RReceipt None; RPut; RReceipt None] /\
  run run_store store_default demo_ops = run run_spec [] demo_ops.
Proof. split; [vm_compute; reflexivity|]. apply (receipt_store_refines 0). cbn. lia. Defined.

Lemma receipt_store_bounded_witness : store_wf (put (demo_stored "r1" None) None 10 100 store_default).
Proof. exact (proj1 (receipt_store_bounded store_default _ None 10 100 store_default_wf)). Defined.
