(* ===== verification/Session.v ===== *)
(** * Attested sessions

    Model of [src/aggregator/session.rs]: the claim vocabulary, the evidence
    reference, the content-addressed session record. *)
From S2P Require Import Prelude Json Canonical Identity Receipt.

Definition SESSION_API_VERSION : string := "aci/1".

Inductive ClaimStatus := Asserted | Refuted | Unknown.

Inductive ClaimSource := HardwareProven | VerifierDerived | ProviderAsserted | OperatorAsserted.

#[export] Instance ClaimStatus_eq_dec : EqDecision ClaimStatus.
Proof. solve_decision. Defined.
#[export] Instance ClaimSource_eq_dec : EqDecision ClaimSource.
Proof. solve_decision. Defined.

Record Claim := { status : ClaimStatus; source : option ClaimSource; claim_reason : option string }.

Definition unknown : Claim := {| status := Unknown; source := None; claim_reason := None |}.
Definition asserted (source : ClaimSource) (reason : string) : Claim :=
  {| status := Asserted; source := Some source; claim_reason := Some reason |}.
Definition refuted (source : ClaimSource) (reason : string) : Claim :=
  {| status := Refuted; source := Some source; claim_reason := Some reason |}.

(** [extra] is a [BTreeMap] from names to JSON, in key order. *)
Record SessionClaims := {
  tee_attested : Claim;
  gpu_attested : Claim;
  tcb_up_to_date : Claim;
  os_known_good : Claim;
  serving_software_known_good : Claim;
  model_weights_provenance : Claim;
  claims_extra : list (string * Value);
}.

Definition SessionClaims_default : SessionClaims := {|
  tee_attested := unknown; gpu_attested := unknown; tcb_up_to_date := unknown; os_known_good := unknown;
  serving_software_known_good := unknown; model_weights_provenance := unknown; claims_extra := [] |}.

Record EvidenceRef := { digest : option string; data_uri : option string }.

Record WorkloadIdentityRef := { signing_address : option string; identity_extra : list (string * Value) }.

Definition WorkloadIdentityRef_is_empty (i : WorkloadIdentityRef) : bool :=
  match signing_address i with Some _ => false | None => bool_decide (identity_extra i = []) end.

Record AttestedSession := {
  s_api_version : string;
  session_id : string;
  s_upstream_name : string;
  s_endpoint : option string;
  s_verifier_id : string;
  established_at : Z;
  s_expires_at : Z;
  identity : option WorkloadIdentityRef;
  channel_binding : list ChannelBinding;
  claims : SessionClaims;
  s_evidence : EvidenceRef;
}.

(** ** Evidence *)

Definition from_value (value : Value) : EvidenceRef :=
  {| digest := get value "digest" ≫= as_str; data_uri := get value "data" ≫= as_str |}.

(** [str::split_once]: what follows the first occurrence of [sep]. *)
Fixpoint after_first (sep s : string) : option string :=
  if String.prefix sep s then Some (String.substring (String.length sep) (String.length s) s)
  else match s with EmptyString => None | String _ s' => after_first sep s' end.

(** The standard alphabet of the [base64] crate. *)
Class Base64 : Type := base64_decode : string -> option string.

(** The message of the error for a text that does not decode. *)
Class Base64Error : Type := base64_error : string -> string.

Definition digest_matches_data `{Digest, Base64} (e : EvidenceRef) : bool :=
  match digest e, data_uri e with
  | Some digest, Some data_uri =>
      match after_first ";base64," data_uri with
      | None => true
      | Some b64 =>
          match base64_decode b64 with
          | Some bytes => String.eqb (sha256_hex bytes) digest
          | None => false
          end
      end
  | _, _ => true
  end.

(** ** Serialised forms

    Optional fields marked [skip_serializing_if] are left out. *)

Definition opt_entry (k : string) (o : option Value) : list (string * Value) :=
  match o with Some v => [(k, v)] | None => [] end.

Definition ClaimStatus_str (s : ClaimStatus) : string :=
  match s with Asserted => "asserted" | Refuted => "refuted" | Unknown => "unknown" end.

Definition ClaimSource_str (s : ClaimSource) : string :=
  match s with
  | HardwareProven => "hardware_proven"
  | VerifierDerived => "verifier_derived"
  | ProviderAsserted => "provider_asserted"
  | OperatorAsserted => "operator_asserted"
  end.

Definition Claim_value (c : Claim) : Value :=
  Obj (("status", Str (ClaimStatus_str (status c)))
       :: opt_entry "source" ((fun s => Str (ClaimSource_str s)) <$> source c)
       ++ opt_entry "reason" (Str <$> claim_reason c)).

Definition nonempty_obj (m : list (string * Value)) : option Value :=
  match m with [] => None | _ => Some (Obj m) end.

Definition SessionClaims_value (c : SessionClaims) : Value :=
  Obj ([("tee_attested", Claim_value (tee_attested c));
        ("gpu_attested", Claim_value (gpu_attested c));
        ("tcb_up_to_date", Claim_value (tcb_up_to_date c));
        ("os_known_good", Claim_value (os_known_good c));
        ("serving_software_known_good", Claim_value (serving_software_known_good c));
        ("model_weights_provenance", Claim_value (model_weights_provenance c))]
       ++ opt_entry "extra" (nonempty_obj (claims_extra c))).

Definition WorkloadIdentityRef_value (i : WorkloadIdentityRef) : Value :=
  Obj (opt_entry "signing_address" (Str <$> signing_address i)
       ++ opt_entry "extra" (nonempty_obj (identity_extra i))).

(** ** The content-addressed id *)

Definition ContentMaterial_value (s : AttestedSession) : Value :=
  {{ "upstream_name" ≔ Str (s_upstream_name s);
     "endpoint" ≔ from_opt_str (s_endpoint s);
     "verifier_id" ≔ Str (s_verifier_id s);
     "identity" ≔ match identity s with Some i => WorkloadIdentityRef_value i | None => Null end;
     "channel_binding" ≔ Arr (map ChannelBinding_value (channel_binding s));
     "claims" ≔ SessionClaims_value (claims s);
     "evidence_digest" ≔ from_opt_str (digest (s_evidence s)) }}.

(** [digest.strip_prefix("sha256:").unwrap_or(digest)] *)
Definition strip_sha256 (d : string) : string :=
  if String.prefix "sha256:" d then String.substring 7 (String.length d) d else d.

Section content_id.
Context `{Digest}.

Definition content_id (s : AttestedSession) : result CanonicalError string :=
  d ← jcs_sha256_hex (ContentMaterial_value s);
  Ok ("as_" +:+ strip_sha256 d).

Definition seal (upstream_name : string) (endpoint : option string) (verifier_id : string)
    (identity : option WorkloadIdentityRef) (channel_binding : list ChannelBinding)
    (claims : SessionClaims) (evidence : EvidenceRef) (established_at expires_at : Z) :
    result CanonicalError AttestedSession :=
  let session id :=
    {| s_api_version := SESSION_API_VERSION; session_id := id; s_upstream_name := upstream_name;
       s_endpoint := endpoint; s_verifier_id := verifier_id; established_at := established_at;
       s_expires_at := expires_at; identity := identity; channel_binding := channel_binding;
       claims := claims; s_evidence := evidence |} in
  id ← content_id (session "");
  Ok (session id).
End content_id.

(** ** Well-formedness: UTF-8 strings, objects with distinct keys *)

Definition wf_claim (c : Claim) : Prop := wf_opt (claim_reason c).

Record wf_claims (c : SessionClaims) : Prop := {
  wf_claims_each : Forall wf_claim [tee_attested c; gpu_attested c; tcb_up_to_date c; os_known_good c;
    serving_software_known_good c; model_weights_provenance c];
  wf_claims_extra : wf_value (Obj (claims_extra c));
}.

Definition wf_identity_ref (i : WorkloadIdentityRef) : Prop :=
  wf_opt (signing_address i) /\ wf_value (Obj (identity_extra i)).

Definition wf_binding (b : ChannelBinding) : Prop :=
  match b with
  | TlsSpkiSha256 o s | TlsCertificateSha256 o s => valid_utf8 o /\ valid_utf8 s
  | E2eePublicKeySha256 p k a s => valid_utf8 p /\ wf_opt k /\ valid_utf8 a /\ valid_utf8 s
  end.

Record wf_session (s : AttestedSession) : Prop := {
  wf_session_names : valid_utf8 (s_upstream_name s) /\ valid_utf8 (s_verifier_id s);
  wf_session_endpoint : wf_opt (s_endpoint s);
  wf_session_identity : match identity s with Some i => wf_identity_ref i | None => True end;
  wf_session_bindings : Forall wf_binding (channel_binding s);
  wf_session_claims : wf_claims (claims s);
  wf_session_digest : wf_opt (digest (s_evidence s));
}.

Lemma value_eqb_at m1 m2 k :
  value_eqb (Obj m1) (Obj m2) = true ->
  bool_decide (NoDup (map_keys m1)) = true -> bool_decide (NoDup (map_keys m2)) = true ->
  match map_get k m1, map_get k m2 with
  | Some v1, Some v2 => value_eqb v1 v2 = true
  | None, None => True
  | _, _ => False
  end.
Proof. intros H H1%bool_decide_eq_true H2%bool_decide_eq_true. by apply value_eqb_get. Qed.

Lemma nodup_keys (m : list (string * Value)) :
  bool_decide (NoDup (map_keys m)) = true -> NoDup (map_keys m).
Proof. apply bool_decide_eq_true. Qed.

(** Compare two object literals at a key. *)
Ltac at_key H k :=
  let Hk := fresh "Hk" in
  pose proof (value_eqb_at _ _ k H) as Hk;
  specialize (Hk eq_refl eq_refl); cbn -[value_eqb] in Hk; try done.

Lemma ClaimStatus_str_inj x y : ClaimStatus_str x = ClaimStatus_str y -> x = y.
Proof. by destruct x, y. Qed.
Lemma ClaimSource_str_inj x y : ClaimSource_str x = ClaimSource_str y -> x = y.
Proof. by destruct x, y. Qed.

Lemma Claim_value_inj c1 c2 : value_eqb (Claim_value c1) (Claim_value c2) = true -> c1 = c2.
Proof.
  destruct c1 as [st1 [so1|] [r1|]], c2 as [st2 [so2|] [r2|]]; unfold Claim_value; intros H;
    at_key H "status"; at_key H "source"; at_key H "reason";
    repeat match goal with Hk : value_eqb (Str _) (Str _) = true |- _ => apply Str_eqb in Hk end;
    repeat match goal with
           | Hk : ClaimStatus_str _ = _ |- _ => apply ClaimStatus_str_inj in Hk
           | Hk : ClaimSource_str _ = _ |- _ => apply ClaimSource_str_inj in Hk
           end; by subst.
Qed.

Lemma ChannelBinding_value_inj b1 b2 :
  value_eqb (ChannelBinding_value b1) (ChannelBinding_value b2) = true -> b1 = b2.
Proof.
  destruct b1 as [o1 s1|o1 s1|p1 [k1|] a1 s1], b2 as [o2 s2|o2 s2|p2 [k2|] a2 s2]; cbn [ChannelBinding_value];
    intros E; try (by at_key E "type"); try (by at_key E "key_id");
    obj_eqb E; repeat match goal with Hk : value_eqb (Str _) (Str _) = true |- _ => apply Str_eqb in Hk end;
    by subst.
Qed.

Lemma nonempty_obj_same m1 m2 :
  match nonempty_obj m1, nonempty_obj m2 with
  | Some v1, Some v2 => value_eqb v1 v2 = true
  | None, None => True
  | _, _ => False
  end -> value_eqb (Obj m1) (Obj m2) = true.
Proof. by destruct m1, m2. Qed.

(** The same claims and identity up to the order of JSON keys in [extra]. *)
Record claims_same (c1 c2 : SessionClaims) : Prop := {
  same_typed : tee_attested c1 = tee_attested c2 /\ gpu_attested c1 = gpu_attested c2 /\
    tcb_up_to_date c1 = tcb_up_to_date c2 /\ os_known_good c1 = os_known_good c2 /\
    serving_software_known_good c1 = serving_software_known_good c2 /\
    model_weights_provenance c1 = model_weights_provenance c2;
  same_extra : value_eqb (Obj (claims_extra c1)) (Obj (claims_extra c2)) = true;
}.

Definition identity_same (i1 i2 : option WorkloadIdentityRef) : Prop :=
  match i1, i2 with
  | Some i1, Some i2 => signing_address i1 = signing_address i2 /\
      value_eqb (Obj (identity_extra i1)) (Obj (identity_extra i2)) = true
  | None, None => True
  | _, _ => False
  end.

Lemma SessionClaims_value_same c1 c2 :
  value_eqb (SessionClaims_value c1) (SessionClaims_value c2) = true -> claims_same c1 c2.
Proof.
  destruct c1 as [a1 b1 d1 e1 f1 g1 x1], c2 as [a2 b2 d2 e2 f2 g2 x2]. unfold SessionClaims_value. intros H.
  assert (Hx : value_eqb (Obj x1) (Obj x2) = true).
  { apply nonempty_obj_same. cbn [claims_extra] in H. revert H.
    destruct (nonempty_obj x1), (nonempty_obj x2); intros H; at_key H "extra"; done. }
  split; [|exact Hx]. cbn [claims_extra] in H.
  destruct (nonempty_obj x1), (nonempty_obj x2);
    at_key H "tee_attested"; at_key H "gpu_attested"; at_key H "tcb_up_to_date"; at_key H "os_known_good";
    at_key H "serving_software_known_good"; at_key H "model_weights_provenance"; cbn;
    split_and!; by apply Claim_value_inj.
Qed.

Lemma WorkloadIdentityRef_value_same i1 i2 :
  value_eqb (WorkloadIdentityRef_value i1) (WorkloadIdentityRef_value i2) = true ->
  identity_same (Some i1) (Some i2).
Proof.
  destruct i1 as [a1 x1], i2 as [a2 x2]. unfold WorkloadIdentityRef_value. cbn [signing_address identity_extra].
  intros H. split; cbn [signing_address identity_extra].
  - destruct a1 as [a1|], a2 as [a2|]; try done; destruct (nonempty_obj x1), (nonempty_obj x2);
      at_key H "signing_address"; apply Str_eqb in Hk; by subst.
  - apply nonempty_obj_same.
    destruct a1 as [a1|], a2 as [a2|], (nonempty_obj x1), (nonempty_obj x2); at_key H "extra"; done.
Qed.

(** Everything the id commits to: all but the version, the id itself, the
    timestamps and the evidence bytes (which the digest stands for). *)
Record material_same (s1 s2 : AttestedSession) : Prop := {
  same_upstream : s_upstream_name s1 = s_upstream_name s2;
  same_s_endpoint : s_endpoint s1 = s_endpoint s2;
  same_verifier : s_verifier_id s1 = s_verifier_id s2;
  same_identity : identity_same (identity s1) (identity s2);
  same_bindings : channel_binding s1 = channel_binding s2;
  same_claims : claims_same (claims s1) (claims s2);
  same_digest : digest (s_evidence s1) = digest (s_evidence s2);
}.

Lemma identity_value_same i1 i2 :
  value_eqb match i1 with Some i => WorkloadIdentityRef_value i | None => Null end
    match i2 with Some i => WorkloadIdentityRef_value i | None => Null end = true ->
  identity_same i1 i2.
Proof. destruct i1, i2; try done. apply WorkloadIdentityRef_value_same. Qed.

Lemma ContentMaterial_same s1 s2 :
  value_eqb (ContentMaterial_value s1) (ContentMaterial_value s2) = true -> material_same s1 s2.
Proof.
  intros E. unfold ContentMaterial_value in E. obj_eqb E.
  apply Str_eqb in Hv, Hv1. apply from_opt_str_eqb in Hv0, Hv5. apply identity_value_same in Hv2.
  apply value_eqb_Arr_map in Hv3; [|exact ChannelBinding_value_inj]. apply SessionClaims_value_same in Hv4.
  by split.
Qed.

Lemma wf_opt_entry k o rest :
  match o with Some v => valid_utf8 k /\ wf_value v | None => True end ->
  Forall (fun kv => valid_utf8 kv.1 /\ wf_value kv.2) rest ->
  Forall (fun kv => valid_utf8 kv.1 /\ wf_value kv.2) (opt_entry k o ++ rest).
Proof. destruct o; cbn; [by constructor|done]. Qed.

Lemma Claim_value_wf c : wf_claim c -> wf_value (Claim_value c).
Proof.
  destruct c as [st so [r|]]; unfold wf_claim; cbn [claim_reason]; intros Hr; unfold Claim_value;
    destruct so as [so|]; cbn [source claim_reason fmap option_fmap option_map opt_entry app status]; wf_obj; try done;
    try (by destruct st; apply valid_utf8b_sound); try (by destruct so; apply valid_utf8b_sound).
Qed.

Lemma ChannelBinding_value_wf b : wf_binding b -> wf_value (ChannelBinding_value b).
Proof.
  destruct b as [o s|o s|p [k|] a s]; cbn [wf_binding ChannelBinding_value wf_opt]; intros Hb; destruct_and? Hb;
    wf_obj; try done; by apply valid_utf8b_sound.
Qed.

Lemma nonempty_obj_wf k m :
  valid_utf8b k = true -> wf_value (Obj m) ->
  match nonempty_obj m with Some v => valid_utf8 k /\ wf_value v | None => True end.
Proof. intros Hk Hm. destruct m; [done|]. split; [by apply valid_utf8b_sound|done]. Qed.

Lemma SessionClaims_value_wf c : wf_claims c -> wf_value (SessionClaims_value c).
Proof.
  intros [Hc Hx]. rewrite !Forall_cons in Hc. destruct Hc as (?&?&?&?&?&?&_).
  unfold SessionClaims_value. apply wf_value_Obj. split.
  - destruct (nonempty_obj _); apply nodup_keys; reflexivity.
  - do 6 (apply Forall_cons; split; [split; [by apply valid_utf8b_sound|by apply Claim_value_wf]|]).
    rewrite <- (app_nil_r (opt_entry _ _)). apply wf_opt_entry; [|constructor]. by apply nonempty_obj_wf.
Qed.

Lemma WorkloadIdentityRef_value_wf i : wf_identity_ref i -> wf_value (WorkloadIdentityRef_value i).
Proof.
  intros [Ha Hx]. unfold WorkloadIdentityRef_value. apply wf_value_Obj. split.
  - destruct (signing_address i), (nonempty_obj _); apply nodup_keys; reflexivity.
  - apply wf_opt_entry; [|rewrite <- (app_nil_r (opt_entry _ _)); apply wf_opt_entry; [|constructor]].
    + destruct (signing_address i); [|done]. split; [by apply valid_utf8b_sound|done].
    + by apply nonempty_obj_wf.
Qed.

Lemma ContentMaterial_value_wf s : wf_session s -> wf_value (ContentMaterial_value s).
Proof.
  intros [[??] ? Hi Hb Hc Hd]. wf_obj; try done; try by apply wf_from_opt_str.
  - destruct (identity s); [by apply WorkloadIdentityRef_value_wf|done].
  - eapply wf_Arr_map; [exact ChannelBinding_value_wf|done].
  - by apply SessionClaims_value_wf.
Qed.

(** The id determines the digest of the material. *)
Lemma strip_sha256_digest d : strip_sha256 ("sha256:" +:+ d) = d.
Proof.
  unfold strip_sha256. assert (Hp : forall s, String.prefix "sha256:" ("sha256:" +:+ s) = true).
  { intros s. by destruct s. }
  rewrite Hp. cbn. rewrite <- (string_app_nil_r d) at 2. rewrite <- (string_app_nil_r d) at 3.
  rewrite !string_app_nil_r. clear Hp.
  assert (Hs : forall s n, (String.length s <= n)%nat -> String.substring 0 n s = s).
  { induction s as [|c s IH]; intros [|n] Hn; cbn in *; try done; [lia|]. by rewrite IH by lia. }
  apply Hs. lia.
Qed.

Lemma content_id_Ok `{Digest} s id :
  content_id s = Ok id ->
  exists b, canonicalize (ContentMaterial_value s) = Ok b /\ id = "as_" +:+ hex_encode (sha256 b).
Proof.
  unfold content_id. rewrite result_bind_Ok. intros (d & (b & Hb & ->)%jcs_sha256_hex_Ok & E).
  rewrite strip_sha256_digest in E. exists b. by injection E as <-.
Qed.

(** Materials with the same hash. *)
Lemma hashed_material `{Digest} s1 s2 b1 b2 :
  wf_session s1 -> wf_session s2 ->
  canonicalize (ContentMaterial_value s1) = Ok b1 -> canonicalize (ContentMaterial_value s2) = Ok b2 ->
  hex_encode (sha256 b1) = hex_encode (sha256 b2) ->
  material_same s1 s2 \/ value_collision (ContentMaterial_value s1) (ContentMaterial_value s2).
Proof.
  intros Hw1 Hw2 Hb1 Hb2 E. destruct (decide (b1 = b2)) as [->|Hne]; [left|right; by exists b1, b2].
  apply ContentMaterial_same. eapply canonicalize_inj; [by apply ContentMaterial_value_wf..|done|done].
Qed.

(** A session id names one verified state: two sessions with the same
    content id were verified for the same upstream, endpoint, verifier,
    identity, channel bindings, claims and evidence digest, unless SHA-256
    collides on their material. *)
Theorem content_id_binds `{Digest} s1 s2 id :
  wf_session s1 -> wf_session s2 -> content_id s1 = Ok id -> content_id s2 = Ok id ->
  material_same s1 s2 \/ value_collision (ContentMaterial_value s1) (ContentMaterial_value s2).
Proof.
  intros Hw1 Hw2 (b1 & Hb1 & ->)%content_id_Ok (b2 & Hb2 & E)%content_id_Ok.
  apply (hashed_material s1 s2 b1 b2); [done..|]. by injection E.
Qed.

(** Sealing computes an id that replay accepts and that depends on the
    verified material alone: a sealed session's id is the content id of the
    session itself, and any session of the same fields, whatever its version,
    timestamps or evidence bytes, has the same content id. *)
Theorem seal_id `{Digest} u ep v i cb c ev t x s :
  seal u ep v i cb c ev t x = Ok s ->
  content_id s = Ok (session_id s) /\
  (forall ver id' t' x' data,
     content_id {| s_api_version := ver; session_id := id'; s_upstream_name := u; s_endpoint := ep;
       s_verifier_id := v; established_at := t'; s_expires_at := x'; identity := i; channel_binding := cb;
       claims := c; s_evidence := {| digest := digest ev; data_uri := data |} |} = Ok (session_id s)) /\
  established_at s = t /\ s_expires_at s = x /\ claims s = c /\ channel_binding s = cb /\ s_evidence s = ev.
Proof.
  unfold seal. rewrite result_bind_Ok. intros (id & Hid & [= <-]). cbn.
  split; [exact Hid|]. split; [|done]. intros. exact Hid.
Qed.

(** ** A concrete session *)

Definition demo_claims : SessionClaims := {|
  tee_attested := asserted HardwareProven "quote"; gpu_attested := unknown; tcb_up_to_date := unknown;
  os_known_good := unknown; serving_software_known_good := refuted VerifierDerived "mismatch";
  model_weights_provenance := unknown; claims_extra := [("gpu_arch", Str "HOPPER")] |}.

Definition demo_session (t : Z) : AttestedSession := {|
  s_api_version := "aci/1"; session_id := ""; s_upstream_name := "u"; s_endpoint := Some "https://u";
  s_verifier_id := "v/1"; established_at := t; s_expires_at := t + 60; identity := None;
  channel_binding := [TlsSpkiSha256 "https://u" "aa"]; claims := demo_claims;
  s_evidence := {| digest := Some "sha256:00"; data_uri := None |} |}.

Lemma demo_session_wf t : wf_session (demo_session t).
Proof.
  split; try (by apply valid_utf8b_sound); try done.
  - split; by apply valid_utf8b_sound.
  - repeat constructor; by apply valid_utf8b_sound.
  - split; [repeat constructor; try done; by apply valid_utf8b_sound|by apply wf_valueb_sound].
Qed.

Lemma content_id_binds_witness :
  let D := demo_digest in
  exists id, content_id (demo_session 1) = Ok id /\
    (material_same (demo_session 1) (demo_session 2) \/
     value_collision (ContentMaterial_value (demo_session 1)) (ContentMaterial_value (demo_session 2))).
Proof.
  intros D. eexists. split; [vm_compute; reflexivity|].
  refine (content_id_binds (demo_session 1) (demo_session 2) _ (demo_session_wf 1) (demo_session_wf 2) _ _);
    vm_compute; reflexivity.
Defined.

Lemma seal_id_witness :
  let D := demo_digest in
  exists s, seal "u" None "v/1" None [] demo_claims {| digest := None; data_uri := None |} 1 2 = Ok s /\
    content_id s = Ok (session_id s).
Proof.
  intros D.
  destruct (seal "u" None "v/1" None [] demo_claims {| digest := None; data_uri := None |} 1 2) as [s|] eqn:E;
    [|vm_compute in E; discriminate E].
  exists s. split; [reflexivity|]. exact (proj1 (seal_id _ _ _ _ _ _ _ _ _ _ E)).
Defined.
