(* ===== verification/SessionStore.v ===== *)
(** * The session store

    Model of [src/aggregator/session_store.rs]: the in-memory index and the
    append-only JSONL log behind it, with replay, append and compaction.  The
    advisory lock that keeps other processes away is not part of the model. *)
From S2P Require Import Prelude Json Canonical Identity Fs Expiry Receipt Session.

Definition RECORD_TYPE_SESSION : string := "session".

(** ** The index *)

Record SessionIndex := {
  by_id : gmap string AttestedSession;
  ix_expiry : gmap Z (gset string);
}.

Definition index_default : SessionIndex := {| by_id := ∅; ix_expiry := ∅ |}.

Definition index_drop_expiry_hint (id : string) (t : Z) (ix : SessionIndex) : SessionIndex :=
  {| by_id := by_id ix; ix_expiry := drop_hint (ix_expiry ix) t id |}.

Definition index_insert (session : AttestedSession) (ix : SessionIndex) : SessionIndex :=
  let id := session_id session in
  let expires_at := s_expires_at session in
  let prev := by_id ix !! id in
  let ix := {| by_id := <[id := session]> (by_id ix); ix_expiry := ix_expiry ix |} in
  let ix :=
    match prev with
    | Some prev =>
        if s_expires_at prev =? expires_at then ix
        else index_drop_expiry_hint id (s_expires_at prev) ix
    | None => ix
    end in
  {| by_id := by_id ix; ix_expiry := add_hint (ix_expiry ix) expires_at id |}.

(** Pop one bucket: its ids leave the map. *)
Definition index_pop (t : Z) (ix : SessionIndex) : SessionIndex :=
  let ids := default ∅ (ix_expiry ix !! t) in
  {| by_id := fold_left (fun m id => delete id m) (elements ids) (by_id ix);
     ix_expiry := delete t (ix_expiry ix) |}.

Fixpoint index_evict_loop (fuel : nat) (now : Z) (ix : SessionIndex) : SessionIndex :=
  match fuel with
  | O => ix
  | S fuel' =>
      match first_key (ix_expiry ix) with
      | Some t => if now <? t then ix else index_evict_loop fuel' now (index_pop t ix)
      | None => ix
      end
  end.

Definition index_evict_expired (now : Z) (ix : SessionIndex) : SessionIndex :=
  index_evict_loop (S (size (ix_expiry ix))) now ix.

Definition put_and_evict (session : AttestedSession) (ts : Z) (ix : SessionIndex) : SessionIndex :=
  index_evict_expired ts (index_insert session ix).

Definition index_get (id : string) (now : Z) (ix : SessionIndex) : option AttestedSession * SessionIndex :=
  match by_id ix !! id with
  | Some session =>
      if s_expires_at session <=? now
      then (None, index_drop_expiry_hint id (s_expires_at session)
                    {| by_id := delete id (by_id ix); ix_expiry := ix_expiry ix |})
      else (Some session, ix)
  | None => (None, ix)
  end.

Definition with_expires_at (s : AttestedSession) (t : Z) : AttestedSession :=
  {| s_api_version := s_api_version s; session_id := session_id s; s_upstream_name := s_upstream_name s;
     s_endpoint := s_endpoint s; s_verifier_id := s_verifier_id s; established_at := established_at s;
     s_expires_at := t; identity := identity s; channel_binding := channel_binding s; claims := claims s;
     s_evidence := s_evidence s |}.

Definition renew (id : string) (new_expires_at now : Z) (ix : SessionIndex) : bool * SessionIndex :=
  let ix := index_evict_expired now ix in
  match by_id ix !! id with
  | None => (false, ix)
  | Some session =>
      let old_expires_at := s_expires_at session in
      if old_expires_at =? new_expires_at then (true, ix)
      else
        let ix := {| by_id := <[id := with_expires_at session new_expires_at]> (by_id ix);
                     ix_expiry := ix_expiry ix |} in
        let ix := index_drop_expiry_hint id old_expires_at ix in
        (true, {| by_id := by_id ix; ix_expiry := add_hint (ix_expiry ix) new_expires_at id |})
  end.

(** Newest first, then by id. *)
Definition newest_first (a b : AttestedSession) : comparison :=
  then_with (Z.compare (established_at b) (established_at a)) (str_compare (session_id a) (session_id b)).

Definition sort_sessions_newest_first (l : list AttestedSession) : list AttestedSession :=
  sort_by newest_first l.

(** The values of a [HashMap], in some order. *)
Definition values (m : gmap string AttestedSession) : list AttestedSession := map snd (map_to_list m).

Definition index_list (upstream_name : option string) (now : Z) (ix : SessionIndex) : list AttestedSession :=
  sort_sessions_newest_first
    (List.filter (fun s => match upstream_name with Some p => String.eqb (s_upstream_name s) p | None => true end)
       (List.filter (fun s => now <? s_expires_at s) (values (by_id ix)))).

(** ** The log *)

(** The JSON of the log's lines, from [serde_json]: a record is printed on one
    line; a line is parsed to its sequence number, its type, and the session of
    its payload when that has the shape of one. *)
Class LogCodec : Type := {
  print_record : Z -> Z -> AttestedSession -> result string string;
  parse_record : string -> option (Z * string * option AttestedSession);
}.

Definition is_ascii_whitespace (a : ascii) : bool :=
  let n := N_of_ascii a in ((n =? 9) || (n =? 10) || (n =? 12) || (n =? 13) || (n =? 32))%N.

Fixpoint trim_start (l : list ascii) : list ascii :=
  match l with
  | c :: l' => if is_ascii_whitespace c then trim_start l' else l
  | [] => []
  end.

Definition trim_ascii (s : string) : string :=
  String.string_of_list_ascii
    (rev (trim_start (rev (trim_start (String.list_ascii_of_string s))))).

(** [read_until('\n')] to the end of the file: the lines, without newlines. *)
Fixpoint split_lines (s : string) : list string :=
  match s with
  | EmptyString => [""]
  | String c s' =>
      if Ascii.eqb c "010" then "" :: split_lines s'
      else match split_lines s' with
           | l :: ls => String c l :: ls
           | [] => [String c ""]
           end
  end.

Record JsonlSessionStore := {
  log_path : Path;
  log_next_seq : Z;
  index : SessionIndex;
}.

Section log.
Context `{Digest, Base64, LogCodec}.

(** The check of a replayed session. *)
Definition replay_accepts (session : AttestedSession) : bool :=
  match content_id session with
  | Ok id => String.eqb id (session_id session)
  | Err _ => false
  end && digest_matches_data (s_evidence session).

Definition replay_line (st : Z * SessionIndex) (line : string) : Z * SessionIndex :=
  let '(next_seq, index) := st in
  let trimmed := trim_ascii line in
  if String.eqb trimmed "" then st
  else
    match parse_record trimmed with
    | None => st
    | Some (seq, record_type, payload) =>
        match u64_checked_add seq 1 with
        | None => st
        | Some seq_after =>
            let next_seq := Z.max next_seq seq_after in
            if String.eqb record_type RECORD_TYPE_SESSION then
              match payload with
              | Some session =>
                  if replay_accepts session then (next_seq, index_insert session index)
                  else (next_seq, index)
              | None => (next_seq, index)
              end
            else (next_seq, index)
        end
    end.

Definition replay (text : string) : Z * SessionIndex :=
  fold_left replay_line (split_lines text) (0, index_default).

Definition open_log (path : Path) : Io JsonlSessionStore := fun w =>
  let '(read, w1) := read_bytes path w in
  match read with
  | Err e =>
      match kind e with
      | NotFound =>
          (open_append path ≫= fun _ =>
           mret {| log_path := path; log_next_seq := 0; index := index_default |}) w1
      | _ => (Err e, w1)
      end
  | Ok text =>
      let '(next_seq, ix) := replay text in
      (open_append path ≫= fun _ =>
       mret {| log_path := path; log_next_seq := next_seq; index := ix |}) w1
  end.

Definition put_session (s : JsonlSessionStore) (session : AttestedSession) (ts : Z) (w : World) :
    result io_error Z * JsonlSessionStore * World :=
  let seq := log_next_seq s in
  match u64_checked_add seq 1 with
  | None => (Err {| kind := InvalidData; message := "session log sequence number overflowed u64::MAX" |}, s, w)
  | Some next_seq =>
      match print_record seq ts session with
      | Err e => (Err {| kind := InvalidData; message := e |}, s, w)
      | Ok line =>
          match fs_append (log_path s) (line +:+ newline) w with
          | (Err e, w') => (Err e, s, w')
          | (Ok _, w') =>
              (Ok seq, {| log_path := log_path s; log_next_seq := next_seq;
                          index := put_and_evict session ts (index s) |}, w')
          end
      end
  end.

(** The lines of the compacted log, numbered from [seq]. *)
Fixpoint write_records (tmp : Path) (now seq : Z) (live : list AttestedSession) : Io unit :=
  match live with
  | [] => mret tt
  | session :: live' =>
      io_of_result (map_err (fun e => {| kind := InvalidData; message := e |})
        (print_record seq now session)) ≫= fun line =>
      fs_append tmp (line +:+ newline) ≫= fun _ => write_records tmp now (seq + 1) live'
  end.

Definition compact (s : JsonlSessionStore) (now : Z) (w : World) :
    result io_error Z * JsonlSessionStore * World :=
  let ix := index_evict_expired now (index s) in
  let live := values (by_id ix) in
  let tmp := with_extension (log_path s) "jsonl.tmp" in
  let s1 := {| log_path := log_path s; log_next_seq := log_next_seq s; index := ix |} in
  match (fs_write tmp "" ≫= fun _ => write_records tmp now 0 live ≫= fun _ => fs_sync tmp ≫= fun _ =>
         open_append tmp ≫= fun _ => fs_rename tmp (log_path s)) w with
  | (Err e, w') => (Err e, s1, w')
  | (Ok _, w') =>
      (Ok (Z.of_nat (length live)),
       {| log_path := log_path s; log_next_seq := Z.of_nat (length live); index := ix |}, w')
  end.

Definition get_session (s : JsonlSessionStore) (id : string) (now : Z) :
    option AttestedSession * JsonlSessionStore :=
  let '(o, ix) := index_get id now (index s) in
  (o, {| log_path := log_path s; log_next_seq := log_next_seq s; index := ix |}).

Definition renew_session (s : JsonlSessionStore) (id : string) (new_expires_at now : Z) :
    bool * JsonlSessionStore :=
  let '(b, ix) := renew id new_expires_at now (index s) in
  (b, {| log_path := log_path s; log_next_seq := log_next_seq s; index := ix |}).

Definition list_sessions (s : JsonlSessionStore) (upstream_name : option string) (now : Z) :
    list AttestedSession := index_list upstream_name now (index s).
End log.

(** ** The trait [SessionStore] and its two implementations *)

Class SessionStoreOps (S : Type) : Type := {
  store_put_session : S -> AttestedSession -> Z -> World -> result io_error Z * S * World;
  store_get_session : S -> string -> Z -> option AttestedSession * S;
  store_renew_session : S -> string -> Z -> Z -> bool * S;
  store_list_sessions : S -> option string -> Z -> list AttestedSession;
}.

#[export] Instance jsonl_session_store `{LogCodec} : SessionStoreOps JsonlSessionStore := {|
  store_put_session := put_session;
  store_get_session := get_session;
  store_renew_session := renew_session;
  store_list_sessions := list_sessions;
|}.

Record InMemorySessionStore := { mem_index : SessionIndex }.

Definition mem_put_session (s : InMemorySessionStore) (session : AttestedSession) (ts : Z) (w : World) :
    result io_error Z * InMemorySessionStore * World :=
  (Ok 0, {| mem_index := put_and_evict session ts (mem_index s) |}, w).

Definition mem_get_session (s : InMemorySessionStore) (id : string) (now : Z) :
    option AttestedSession * InMemorySessionStore :=
  let '(o, ix) := index_get id now (mem_index s) in (o, {| mem_index := ix |}).

Definition mem_renew_session (s : InMemorySessionStore) (id : string) (new_expires_at now : Z) :
    bool * InMemorySessionStore :=
  let '(b, ix) := renew id new_expires_at now (mem_index s) in (b, {| mem_index := ix |}).

Definition mem_list_sessions (s : InMemorySessionStore) (upstream_name : option string) (now : Z) :
    list AttestedSession := index_list upstream_name now (mem_index s).

#[export] Instance in_memory_session_store : SessionStoreOps InMemorySessionStore := {|
  store_put_session := mem_put_session;
  store_get_session := mem_get_session;
  store_renew_session := mem_renew_session;
  store_list_sessions := mem_list_sessions;
|}.

(** ** The index invariant *)

Record index_wf (ix : SessionIndex) : Prop := {
  ix_id id s : by_id ix !! id = Some s -> session_id s = id;
  ix_hint t id : hinted (ix_expiry ix) t id <-> exists s, by_id ix !! id = Some s /\ s_expires_at s = t;
  ix_buckets : no_empty (ix_expiry ix);
}.

Lemma index_default_wf : index_wf index_default.
Proof.
  split; [done| |done]. intros t id. split; [intros (? & ? & _)|intros (? & ? & _)]; done.
Qed.

(** Moving an id to the bucket of its new deadline. *)
Lemma rehint_wf ix id s :
  index_wf ix -> session_id s = id ->
  index_wf {| by_id := <[id := s]> (by_id ix);
              ix_expiry := add_hint match by_id ix !! id with
                                    | Some prev => drop_hint (ix_expiry ix) (s_expires_at prev) id
                                    | None => ix_expiry ix
                                    end (s_expires_at s) id |}.
Proof.
  intros [Hid Hh Hb] Hs. split; cbn.
  - intros x s'. rewrite lookup_insert_Some. intros [[<- <-]|[_ ?]]; auto.
  - intros t x. rewrite hinted_add.
    assert (Hx : hinted match by_id ix !! id with
                        | Some prev => drop_hint (ix_expiry ix) (s_expires_at prev) id
                        | None => ix_expiry ix
                        end t x <-> x <> id /\ exists s, by_id ix !! x = Some s /\ s_expires_at s = t).
    { destruct (by_id ix !! id) as [prev|] eqn:Hp.
      - rewrite hinted_drop, Hh. naive_solver.
      - rewrite Hh. naive_solver. }
    rewrite Hx. destruct (decide (x = id)) as [->|Hne].
    + rewrite lookup_insert_eq. naive_solver.
    + rewrite lookup_insert_ne by done. naive_solver.
  - apply no_empty_add. destruct (by_id ix !! id); [by apply no_empty_drop|done].
Qed.

(** Dropping and re-adding the same hint changes nothing. *)
Lemma add_drop_hint m t id : hinted m t id -> add_hint (drop_hint m t id) t id = add_hint m t id.
Proof.
  intros (ids & Hm & Hin). unfold add_hint, drop_hint. rewrite Hm. cbn zeta.
  assert (Hids : {[id]} ∪ ids ∖ {[id]} = {[id]} ∪ ids) by (apply set_eq; intros x; destruct (decide (x = id)); set_solver).
  case_decide as He.
  - rewrite lookup_delete_eq, insert_delete_eq. cbn. f_equal. set_solver.
  - rewrite lookup_insert_eq, insert_insert_eq. cbn. by rewrite Hids.
Qed.

Lemma index_insert_eq s ix :
  index_wf ix ->
  index_insert s ix = {| by_id := <[session_id s := s]> (by_id ix);
              ix_expiry := add_hint match by_id ix !! session_id s with
                                    | Some prev => drop_hint (ix_expiry ix) (s_expires_at prev) (session_id s)
                                    | None => ix_expiry ix
                                    end (s_expires_at s) (session_id s) |}.
Proof.
  intros Hwf. unfold index_insert. cbn zeta. destruct (by_id ix !! session_id s) as [prev|] eqn:Hp; [|done].
  destruct (Z.eqb_spec (s_expires_at prev) (s_expires_at s)) as [E|_]; [|done]. cbn. f_equal.
  rewrite E, add_drop_hint; [done|]. apply (ix_hint ix Hwf). eauto.
Qed.

Lemma index_insert_wf s ix : index_wf ix -> index_wf (index_insert s ix).
Proof. intros Hwf. rewrite index_insert_eq by done. by apply rehint_wf. Qed.

Lemma delete_all_lookup (l : list string) (m : gmap string AttestedSession) id :
  fold_left (fun m id => delete id m) l m !! id = if decide (id ∈ l) then None else m !! id.
Proof.
  revert m. induction l as [|x l IH]; intros m; cbn; [by rewrite decide_False by set_solver|].
  rewrite IH. destruct (decide (id = x)) as [->|Hne].
  - rewrite lookup_delete_eq. repeat case_decide; set_solver.
  - rewrite lookup_delete_ne by done. repeat case_decide; set_solver.
Qed.

Lemma index_pop_spec t ids ix :
  index_wf ix -> ix_expiry ix !! t = Some ids ->
  index_wf (index_pop t ix) /\
  forall id, by_id (index_pop t ix) !! id = if decide (id ∈ ids) then None else by_id ix !! id.
Proof.
  intros [Hid Hh Hb] Hids.
  assert (Hl : forall id, by_id (index_pop t ix) !! id = if decide (id ∈ ids) then None else by_id ix !! id).
  { intros id. unfold index_pop. cbn. rewrite delete_all_lookup, Hids. cbn.
    repeat case_decide; set_solver. }
  split; [|exact Hl]. split.
  - intros id s. rewrite Hl. case_decide; [done|]. apply Hid.
  - intros t' id. rewrite Hl. cbn. rewrite hinted_delete, Hh.
    assert (Ht : id ∈ ids <-> exists s, by_id ix !! id = Some s /\ s_expires_at s = t).
    { rewrite <- Hh. unfold hinted. rewrite Hids. naive_solver. }
    case_decide as Hd; [|naive_solver]. apply Ht in Hd as (s & Hs & <-). naive_solver.
  - by apply no_empty_delete.
Qed.

Lemma index_evict_loop_spec fuel now ix :
  index_wf ix -> (size (ix_expiry ix) <= fuel)%nat ->
  index_wf (index_evict_loop fuel now ix) /\
  forall id, by_id (index_evict_loop fuel now ix) !! id =
    match by_id ix !! id with
    | Some s => if s_expires_at s <=? now then None else Some s
    | None => None
    end.
Proof.
  revert ix. induction fuel as [|fuel IH]; intros ix Hwf Hsize; cbn [index_evict_loop].
  - assert (Hempty : ix_expiry ix = ∅) by (apply map_size_empty_iff; lia).
    split; [done|]. intros id. destruct (by_id ix !! id) as [s|] eqn:Hs; [|done].
    destruct (proj2 (ix_hint ix Hwf (s_expires_at s) id)) as (ids & Hi & _); [eauto|].
    rewrite Hempty in Hi. done.
  - destruct (first_key (ix_expiry ix)) as [t|] eqn:Hk.
    + apply first_key_Some in Hk as [[ids Hids] Hmin]. destruct (Z.ltb_spec now t) as [Hlt|Hge].
      * split; [done|]. intros id. destruct (by_id ix !! id) as [s|] eqn:Hs; [|done].
        destruct (proj2 (ix_hint ix Hwf (s_expires_at s) id)) as (ids' & Hi & _); [eauto|].
        specialize (Hmin (s_expires_at s) ltac:(eauto)). destruct (Z.leb_spec (s_expires_at s) now); [lia|done].
      * destruct (index_pop_spec t ids ix Hwf Hids) as [Hwf' Hl].
        destruct (IH (index_pop t ix) Hwf') as [Hwf'' Hl''].
        { cbn. rewrite map_size_delete, Hids. cbn. lia. }
        split; [done|]. intros id. rewrite Hl'', Hl. case_decide as Hd; [|done].
        destruct (proj1 (ix_hint ix Hwf t id)) as (s & -> & <-); [by exists ids|].
        destruct (Z.leb_spec (s_expires_at s) now); [done|lia].
    + apply first_key_None in Hk. split; [done|]. intros id. destruct (by_id ix !! id) as [s|] eqn:Hs; [|done].
      destruct (proj2 (ix_hint ix Hwf (s_expires_at s) id)) as (ids & Hi & _); [eauto|].
      rewrite Hk in Hi. done.
Qed.

Lemma index_evict_spec now ix :
  index_wf ix ->
  index_wf (index_evict_expired now ix) /\
  forall id, by_id (index_evict_expired now ix) !! id =
    match by_id ix !! id with
    | Some s => if s_expires_at s <=? now then None else Some s
    | None => None
    end.
Proof. intros Hwf. apply index_evict_loop_spec; [done|lia]. Qed.

(** ** The specification: a map that never forgets *)

Inductive SessionOp :=
| OpPutSession (s : AttestedSession) (ts : Z)
| OpGetSession (id : string) (now : Z)
| OpRenewSession (id : string) (new_expires_at now : Z)
| OpListSessions (upstream : option string) (now : Z).

Definition session_op_time (op : SessionOp) : Z :=
  match op with OpPutSession _ t | OpGetSession _ t | OpRenewSession _ _ t | OpListSessions _ t => t end.

Inductive SessionReply :=
| RStored
| RSession (s : option AttestedSession)
| RRenewed (b : bool)
| RSessions (l : list AttestedSession).

Definition run_index (ix : SessionIndex) (op : SessionOp) : SessionReply * SessionIndex :=
  match op with
  | OpPutSession s ts => (RStored, put_and_evict s ts ix)
  | OpGetSession id now => let '(o, ix') := index_get id now ix in (RSession o, ix')
  | OpRenewSession id t now => let '(b, ix') := renew id t now ix in (RRenewed b, ix')
  | OpListSessions u now => (RSessions (index_list u now ix), ix)
  end.

Definition live_at (now : Z) (o : option AttestedSession) : option AttestedSession :=
  match o with Some s => if now <? s_expires_at s then Some s else None | None => None end.

Definition run_map (h : gmap string AttestedSession) (op : SessionOp) :
    SessionReply * gmap string AttestedSession :=
  match op with
  | OpPutSession s ts => (RStored, <[session_id s := s]> h)
  | OpGetSession id now => (RSession (live_at now (h !! id)), h)
  | OpRenewSession id t now =>
      match live_at now (h !! id) with
      | Some s => (RRenewed true, <[id := with_expires_at s t]> h)
      | None => (RRenewed false, h)
      end
  | OpListSessions u now => (RSessions (index_list u now {| by_id := h; ix_expiry := ∅ |}), h)
  end.

Fixpoint run_sessions {S} (step : S -> SessionOp -> SessionReply * S) (s : S) (ops : list SessionOp) :
    list SessionReply :=
  match ops with
  | [] => []
  | op :: ops' => let '(r, s') := step s op in r :: run_sessions step s' ops'
  end.

Fixpoint clock_monotone (t : Z) (ops : list SessionOp) : Prop :=
  match ops with
  | [] => True
  | op :: ops' => t <= session_op_time op /\ clock_monotone (session_op_time op) ops'
  end.

Record index_sim (t : Z) (h : gmap string AttestedSession) (ix : SessionIndex) : Prop := {
  isim_wf : index_wf ix;
  isim_ids id s : h !! id = Some s -> session_id s = id;
  isim_sub id s : by_id ix !! id = Some s -> h !! id = Some s;
  isim_live id s : h !! id = Some s -> t < s_expires_at s -> by_id ix !! id = Some s;
}.

Lemma index_sim_later t t' h ix : t <= t' -> index_sim t h ix -> index_sim t' h ix.
Proof. intros Ht [? ? ? Hl]. split; try done. intros. apply Hl; [done|lia]. Qed.

Lemma index_sim_live t h ix id : index_sim t h ix -> live_at t (by_id ix !! id) = live_at t (h !! id).
Proof.
  intros [_ _ Hs Hl]. destruct (by_id ix !! id) as [s|] eqn:E; [by rewrite (Hs id s E)|].
  destruct (h !! id) as [s|] eqn:E'; cbn; [|done].
  destruct (Z.ltb_spec t (s_expires_at s)); [|done]. rewrite (Hl id s) in E by done. done.
Qed.

Lemma index_sim_evict t h ix : index_sim t h ix -> index_sim t h (index_evict_expired t ix).
Proof.
  intros [Hwf Hid Hs Hl]. destruct (index_evict_spec t ix Hwf) as [Hwf' Hev]. split; [done|done| |].
  - intros id s. rewrite Hev. destruct (by_id ix !! id) as [s'|] eqn:E; [|done].
    destruct (_ <=? _); [done|]. intros [= <-]. by apply Hs.
  - intros id s Hh Ht. rewrite Hev, (Hl id s Hh Ht). destruct (Z.leb_spec (s_expires_at s) t); [lia|done].
Qed.

Lemma index_sim_insert t h ix s :
  index_sim t h ix -> index_sim t (<[session_id s := s]> h) (index_insert s ix).
Proof.
  intros [Hwf Hid Hs Hl]. split; [by apply index_insert_wf| | |].
  - intros id s'. rewrite lookup_insert_Some. intros [[<- <-]|[_ ?]]; auto.
  - intros id s'. rewrite index_insert_eq by done. cbn. rewrite !lookup_insert_Some.
    intros [?|[? ?]]; [by left|right]. auto.
  - intros id s'. rewrite index_insert_eq by done. cbn. rewrite !lookup_insert_Some.
    intros [?|[? ?]] ?; [by left|right]. auto.
Qed.

Lemma index_sim_renew t h ix id s t' :
  index_sim t h ix -> by_id ix !! id = Some s ->
  index_sim t (<[id := with_expires_at s t']> h)
    {| by_id := <[id := with_expires_at s t']> (by_id ix);
       ix_expiry := add_hint (drop_hint (ix_expiry ix) (s_expires_at s) id) t' id |}.
Proof.
  intros [Hwf Hid Hs Hl] He. pose proof (ix_id ix Hwf id s He) as Hsid. split.
  - pose proof (rehint_wf ix id (with_expires_at s t') Hwf Hsid) as Hr. rewrite He in Hr. exact Hr.
  - intros x s'. rewrite lookup_insert_Some. intros [[<- <-]|[_ ?]]; [done|]. auto.
  - intros x s'. cbn. rewrite !lookup_insert_Some. intros [?|[? ?]]; [by left|right]. auto.
  - intros x s'. cbn. rewrite !lookup_insert_Some. intros [?|[? ?]] ?; [by left|right]. auto.
Qed.

Lemma index_sim_drop t h ix id s :
  index_sim t h ix -> by_id ix !! id = Some s -> s_expires_at s <= t ->
  index_sim t h (index_drop_expiry_hint id (s_expires_at s) {| by_id := delete id (by_id ix); ix_expiry := ix_expiry ix |}).
Proof.
  intros [Hwf Hid Hs Hl] He Ht. split; [split| | |]; cbn.
  - intros x s'. rewrite lookup_delete_Some. intros [_ ?]. by apply (ix_id ix Hwf).
  - intros t' x. rewrite hinted_drop, (ix_hint ix Hwf). destruct (decide (x = id)) as [->|Hne].
    + rewrite lookup_delete_eq. naive_solver.
    + rewrite lookup_delete_ne by done. naive_solver.
  - apply no_empty_drop, (ix_buckets ix Hwf).
  - done.
  - intros x s'. rewrite lookup_delete_Some. intros [_ ?]. auto.
  - intros x s' Hh Ht'. rewrite lookup_delete_ne; [by apply Hl|]. intros ->.
    apply Hs in He. rewrite He in Hh. injection Hh as ->. lia.
Qed.

(** ** The listing *)

#[export] Instance flip_Z_compare_total : CmpTotal (fun x y => Z.compare y x).
Proof.
  repeat split; cbn.
  - intros; apply Z.compare_refl.
  - intros; apply Z.compare_antisym.
  - intros [] x y z; rewrite ?Z.compare_eq_iff, ?Z.compare_lt_iff, ?Z.compare_gt_iff; lia.
  - intros x y z ->%Z.compare_eq_iff. done.
  - intros x y H%Z.compare_eq_iff. done.
Qed.

Definition list_key (s : AttestedSession) : Z * string := (established_at s, session_id s).

Lemma newest_first_key :
  newest_first = cmp_on list_key (pair_compare (fun x y => Z.compare y x) str_compare).
Proof. reflexivity. Qed.

#[export] Instance newest_first_order : CmpOrder newest_first.
Proof. rewrite newest_first_key. apply _. Qed.

Lemma newest_first_eq a b : newest_first a b = Eq -> session_id a = session_id b.
Proof.
  rewrite newest_first_key. intros H.
  apply (cmp_eq (pair_compare (fun x y => Z.compare y x) str_compare)) in H. by injection H.
Qed.

(** Sorting sessions with distinct ids does not depend on their order. *)
Lemma sort_sessions_unique l1 l2 :
  NoDup (map session_id l1) -> l1 ≡ₚ l2 ->
  sort_sessions_newest_first l1 = sort_sessions_newest_first l2.
Proof.
  intros Hnd Hp. unfold sort_sessions_newest_first.
  apply (StronglySorted_unique_strong (cmp_le newest_first));
    [|exact (sort_by_sorted newest_first _)|exact (sort_by_sorted newest_first _)|by rewrite !sort_by_perm].
  intros x y Hx Hy Hxy Hyx. rewrite sort_by_perm in Hx, Hy. rewrite <- Hp in Hy.
  assert (E : newest_first x y = Eq).
  { unfold cmp_le in *. rewrite (cmp_sym newest_first x y) in Hyx. by destruct (newest_first x y). }
  apply newest_first_eq in E. by apply (NoDup_map_inj session_id l1).
Qed.

Lemma values_elem m s : s ∈ values m <-> exists id, m !! id = Some s.
Proof.
  unfold values. rewrite list_elem_of_fmap. split.
  - intros ([id s'] & -> & H%elem_of_map_to_list). by exists id.
  - intros [id H]. exists (id, s). split; [done|]. by apply elem_of_map_to_list.
Qed.

Lemma values_ids m :
  (forall id s, m !! id = Some s -> session_id s = id) -> NoDup (map session_id (values m)).
Proof.
  intros Hid. unfold values. rewrite map_map.
  rewrite (map_ext_in _ fst); [apply NoDup_fst_map_to_list|].
  intros [id s] H%list_elem_of_In%elem_of_map_to_list. by apply Hid.
Qed.

Lemma NoDup_map_filter {A B} (f : A -> B) (p : A -> bool) l :
  NoDup (map f l) -> NoDup (map f (List.filter p l)).
Proof.
  induction l as [|a l IH]; cbn; [done|]. intros [Ha Hl]%NoDup_cons.
  destruct (p a); cbn; [|auto]. constructor; [|auto].
  intros (x & E & Hx)%list_elem_of_fmap. apply Ha. rewrite E. apply list_elem_of_fmap_2.
  apply list_elem_of_In in Hx. apply filter_In in Hx as [Hx _]. by apply list_elem_of_In.
Qed.

Lemma index_sim_list t h ix u :
  index_sim t h ix -> index_list u t ix = index_list u t {| by_id := h; ix_expiry := ∅ |}.
Proof.
  intros [Hwf Hid Hs Hl]. unfold index_list. cbn [by_id]. apply sort_sessions_unique.
  - do 2 apply NoDup_map_filter. apply values_ids. exact (ix_id ix Hwf).
  - apply NoDup_Permutation.
    + apply (NoDup_fmap_1 session_id). do 2 apply NoDup_map_filter. apply values_ids. exact (ix_id ix Hwf).
    + apply (NoDup_fmap_1 session_id). do 2 apply NoDup_map_filter. by apply values_ids.
    + intros s. rewrite !list_elem_of_In, !filter_In, <- !list_elem_of_In, !values_elem, Z.ltb_lt.
      split; intros [[[id He] Ht] Hu]; (split; [split; [|done]|done]); exists id; auto.
Qed.

(** One operation: the same reply, and the agreement is kept. *)
Lemma index_sim_step t h ix op :
  index_sim t h ix -> t <= session_op_time op ->
  (run_index ix op).1 = (run_map h op).1 /\
  index_sim (session_op_time op) (run_map h op).2 (run_index ix op).2.
Proof.
  intros Hsim Ht. apply (index_sim_later _ _ _ _ Ht) in Hsim. clear t Ht.
  destruct op as [s ts|id now|id t' now|u now]; cbn [session_op_time run_index run_map fst snd] in Hsim |- *.
  - split; [done|]. unfold put_and_evict. by apply index_sim_evict, index_sim_insert.
  - rewrite <- (index_sim_live _ _ _ id Hsim). unfold index_get.
    destruct (by_id ix !! id) as [s|] eqn:E; cbn; [|by split].
    destruct (Z.leb_spec (s_expires_at s) now) as [Hle|Hgt], (Z.ltb_spec now (s_expires_at s)); try lia.
    + split; [done|]. by apply index_sim_drop.
    + by split.
  - pose proof (proj2 (index_evict_spec now ix (isim_wf _ _ _ Hsim)) id) as Hev.
    apply index_sim_evict in Hsim. rewrite <- (index_sim_live _ _ _ id Hsim). unfold renew. cbn zeta.
    set (ix1 := index_evict_expired now ix) in *.
    destruct (by_id ix1 !! id) as [s|] eqn:E; cbn; [|by split].
    assert (Hlive : now < s_expires_at s).
    { destruct (by_id ix !! id) as [s'|]; [|done].
      destruct (Z.leb_spec (s_expires_at s') now); [done|]. by injection Hev as ->. }
    destruct (Z.ltb_spec now (s_expires_at s)); [|lia].
    destruct (Z.eqb_spec (s_expires_at s) t') as [<-|Hne]; (split; [done|]); [|by apply index_sim_renew].
    cbn. replace (with_expires_at s (s_expires_at s)) with s by by destruct s.
    rewrite insert_id; [done|]. by apply (isim_sub _ _ _ Hsim).
  - split; [|done]. by rewrite (index_sim_list _ _ _ u Hsim).
Qed.

Lemma index_sim_empty t : index_sim t ∅ index_default.
Proof. split; [exact index_default_wf|..]; by intros. Qed.

(** ** Properties of the index *)

(** The session index implements its contract.  With a clock that does not
    run backwards, any sequence of puts, lookups, renewals and listings gets the
    replies of a map that never forgets: a live session is found with its
    latest deadline, an expired one is gone and cannot be renewed, and a
    listing is exactly the live sessions, newest first. *)
Theorem session_index_refines t ops :
  clock_monotone t ops ->
  run_sessions run_index index_default ops = run_sessions run_map ∅ ops.
Proof.
  assert (Hrun : forall h ix, index_sim t h ix -> clock_monotone t ops ->
            run_sessions run_index ix ops = run_sessions run_map h ops).
  { revert t. induction ops as [|op ops IH]; intros t h ix Hs Hm; cbn [run_sessions]; [done|].
    destruct Hm as [Ht Hm]. destruct (index_sim_step t h ix op Hs Ht) as [Hr Hs'].
    destruct (run_index ix op) as [r ix'], (run_map h op) as [r' h']. cbn in Hr, Hs'. subst r'.
    f_equal. by apply (IH (session_op_time op)). }
  intros Hm. apply Hrun; [apply index_sim_empty|done].
Qed.

(** A session like [demo_session] under a given id. *)
Definition demo_named (id : string) (t : Z) : AttestedSession :=
  with_expires_at {| s_api_version := "aci/1"; session_id := id; s_upstream_name := "u"; s_endpoint := None;
    s_verifier_id := "v"; established_at := t; s_expires_at := 0; identity := None; channel_binding := [];
    claims := SessionClaims_default; s_evidence := {| digest := None; data_uri := None |} |} (t + 60).

Definition demo_session_ops : list SessionOp :=
  [OpPutSession (demo_named "a" 10) 10; OpPutSession (demo_named "b" 20) 20; OpRenewSession "a" 200 30;
   OpListSessions (Some "u") 30; OpGetSession "b" 90; OpRenewSession "b" 300 90; OpGetSession "a" 100].

Lemma session_index_refines_witness :
  run_sessions run_map ∅ demo_session_ops =
  [RStored; RStored; RRenewed true; RSessions [demo_named "b" 20; with_expires_at (demo_named "a" 10) 200];
   RSession None; RRenewed false; RSession (Some (with_expires_at (demo_named "a" 10) 200))] /\
  run_sessions run_index index_default demo_session_ops = run_sessions run_map ∅ demo_session_ops.
Proof. split; [vm_compute; reflexivity|]. apply (session_index_refines 0). cbn. lia. Defined.

(** ** Replay *)

Section replay.
Context `{Digest, Base64, LogCodec}.

(** What replay lets into the index. *)
Definition accepted (ix : SessionIndex) : Prop :=
  forall id s, by_id ix !! id = Some s -> replay_accepts s = true.

Lemma replay_accepts_spec s :
  replay_accepts s = true <-> content_id s = Ok (session_id s) /\ digest_matches_data (s_evidence s) = true.
Proof.
  unfold replay_accepts. rewrite andb_true_iff. destruct (content_id s) as [id|e]; [|naive_solver].
  rewrite String.eqb_eq. naive_solver.
Qed.

Lemma replay_line_inv st line :
  index_wf st.2 -> accepted st.2 -> index_wf (replay_line st line).2 /\ accepted (replay_line st line).2.
Proof.
  destruct st as [n ix]. cbn [snd]. intros Hwf Hacc. unfold replay_line.
  destruct (String.eqb _ _); [done|]. destruct (parse_record _) as [[[q ty] payload]|]; [|done].
  destruct (u64_checked_add _ _); [|done]. destruct (String.eqb ty _); [|done].
  destruct payload as [s|]; [|done]. destruct (replay_accepts s) eqn:Ha; [|done]. cbn [snd].
  split; [by apply index_insert_wf|]. intros id s'. rewrite index_insert_eq by done. cbn.
  rewrite lookup_insert_Some. intros [[_ <-]|[_ ?]]; [done|]. by apply (Hacc id).
Qed.

Lemma replay_lines_inv lines st :
  index_wf st.2 -> accepted st.2 ->
  index_wf (fold_left replay_line lines st).2 /\ accepted (fold_left replay_line lines st).2.
Proof.
  revert st. induction lines as [|l lines IH]; intros st Hwf Hacc; cbn; [done|].
  destruct (replay_line_inv st l Hwf Hacc). by apply IH.
Qed.

Lemma replay_inv text : index_wf (replay text).2 /\ accepted (replay text).2.
Proof. apply replay_lines_inv; [exact index_default_wf|]. by intros ??. Qed.

(** ** Lines *)

(** A log whose last line is finished. *)
Definition complete (text : string) (lines : list string) : Prop := split_lines text = lines ++ [""].

Lemma split_lines_nonempty s : split_lines s <> [].
Proof.
  induction s as [|c s IH]; cbn; [done|]. destruct (Ascii.eqb c "010"); [done|]. by destruct (split_lines s).
Qed.

Lemma split_lines_app t x lines : complete t lines -> split_lines (t +:+ x) = lines ++ split_lines x.
Proof.
  unfold complete. revert lines. induction t as [|c t IH]; intros lines; cbn.
  - destruct lines as [|l [|]]; try done.
  - destruct (Ascii.eqb c "010").
    + destruct lines as [|l lines]; cbn; intros E.
      * injection E as E. by destruct (split_lines_nonempty t).
      * injection E as <- E. by rewrite (IH lines E).
    + destruct (split_lines t) as [|l ls] eqn:Et; [by destruct (split_lines_nonempty t)|].
      destruct lines as [|l0 lines]; cbn; intros E; [discriminate E|]. injection E as <- ->.
      by rewrite (IH (l :: lines) eq_refl).
Qed.

Lemma split_line l rest :
  string_forallb (fun c => negb (Ascii.eqb c "010")) l = true ->
  split_lines (l +:+ newline +:+ rest) = l :: split_lines rest.
Proof.
  induction l as [|c l IH]; [done|]. cbn [string_forallb String.append split_lines].
  rewrite andb_true_iff, negb_true_iff. intros [Hc Hl].
  by rewrite Hc, IH.
Qed.

Lemma complete_nil : complete "" [].
Proof. done. Qed.

Lemma complete_line t lines l :
  complete t lines -> string_forallb (fun c => negb (Ascii.eqb c "010")) l = true ->
  complete (t +:+ l +:+ newline) (lines ++ [l]).
Proof.
  intros Ht Hl. unfold complete. rewrite (split_lines_app _ _ _ Ht).
  pose proof (split_line l "" Hl) as E. rewrite string_app_nil_r in E. rewrite E. by rewrite <- app_assoc.
Qed.

Lemma replay_line_empty st : replay_line st "" = st.
Proof. by destruct st. Qed.

Lemma replay_complete t lines :
  complete t lines -> replay t = fold_left replay_line lines (0, index_default).
Proof. intros Ht. unfold replay. rewrite Ht, fold_left_app. cbn. by destruct (fold_left _ _ _). Qed.
End replay.

(** ** Properties of the log *)

(** What the store relies on of the printed records: they parse back, fill one
    line and have no blank margin. *)
Class LogCodecLaws `{LogCodec} (fits : AttestedSession -> Prop) : Prop := {
  log_total seq ts s : is_u64 seq -> is_u64 ts -> fits s -> exists l, print_record seq ts s = Ok l;
  log_roundtrip seq ts s l : is_u64 seq -> is_u64 ts -> fits s -> print_record seq ts s = Ok l ->
    parse_record l = Some (seq, RECORD_TYPE_SESSION, Some s);
  log_line seq ts s l : print_record seq ts s = Ok l ->
    string_forallb (fun c => negb (Ascii.eqb c "010")) l = true /\ trim_ascii l = l /\ l <> "";
}.

(** The log cannot be made to serve anything but verified sessions: whatever
    bytes are in the file, every session replay lets in is stored under its own
    content id with evidence bytes that match its digest, so it has the
    material of any genuine session with that id, unless SHA-256 collides. *)
Theorem replay_integrity `{Digest, Base64, LogCodec} text id s :
  by_id (replay text).2 !! id = Some s ->
  session_id s = id /\ content_id s = Ok id /\ digest_matches_data (s_evidence s) = true /\
  (forall g, wf_session s -> wf_session g -> content_id g = Ok id ->
     material_same s g \/ value_collision (ContentMaterial_value s) (ContentMaterial_value g)).
Proof.
  intros Hs. destruct (replay_inv text) as [Hwf Hacc].
  pose proof (ix_id _ Hwf _ _ Hs) as <-. apply Hacc, replay_accepts_spec in Hs as [Hid Hd].
  split; [done|]. split; [done|]. split; [done|]. intros g Hws Hwg Hg.
  apply content_id_Ok in Hid as (b & Hb & Eb), Hg as (b' & Hb' & Eb').
  apply (hashed_material s g b b'); [done..|]. rewrite Eb in Eb'. by injection Eb'.
Qed.

Section durability.
Context `{Digest, Base64, LogCodec} (fits : AttestedSession -> Prop) `{!LogCodecLaws fits}.

Definition log_text (p : Path) (w : World) : string := default "" (files w !! p).

(** The log is a sequence of finished lines, numbered below the next number. *)
Definition log_ready (s : JsonlSessionStore) (w : World) : Prop :=
  (exists lines, complete (log_text (log_path s) w) lines) /\
  (replay (log_text (log_path s) w)).1 <= log_next_seq s.

Lemma replay_record n ix seq ts s l :
  is_u64 seq -> is_u64 ts -> fits s -> seq < u64_max -> print_record seq ts s = Ok l ->
  replay_line (n, ix) l =
  (Z.max n (seq + 1), if replay_accepts s then index_insert s ix else ix).
Proof.
  intros Hq Ht Hs Hmax Hp. destruct (log_line _ _ _ _ Hp) as (_ & Htrim & Hne).
  unfold replay_line. rewrite Htrim, (log_roundtrip _ _ _ _ Hq Ht Hs Hp).
  destruct (String.eqb_spec l ""); [done|]. unfold u64_checked_add.
  destruct (Z.leb_spec (seq + 1) u64_max); [|lia]. cbn. by destruct (replay_accepts s).
Qed.

Lemma fs_append_Ok p t w r w' :
  fs_append p t w = (Ok r, w') ->
  log_text p w' = log_text p w +:+ t /\ forall q, q <> p -> files w' !! q = files w !! q.
Proof.
  unfold fs_append, with_fault, log_text.
  destruct (faults w) as [|[f|] fs]; [|done|]; intros [= <- <-]; cbn; rewrite lookup_insert_eq; cbn;
    (split; [done|]); intros q Hq; by rewrite lookup_insert_ne.
Qed.

Lemma put_session_Ok s session ts w q s' w' :
  put_session s session ts w = (Ok q, s', w') ->
  exists line, print_record q ts session = Ok line /\ q = log_next_seq s /\ q + 1 <= u64_max /\
    log_text (log_path s) w' = log_text (log_path s) w +:+ (line +:+ newline) /\
    s' = {| log_path := log_path s; log_next_seq := q + 1; index := put_and_evict session ts (index s) |}.
Proof.
  unfold put_session, u64_checked_add. destruct (Z.leb_spec (log_next_seq s + 1) u64_max); [|done].
  destruct (print_record _ _ _) as [line|] eqn:Hl; [|done].
  destruct (fs_append _ _ w) as [[[]|] w1] eqn:Ha; [|done]. intros [= <- <- <-].
  apply fs_append_Ok in Ha as [Ha _]. by exists line.
Qed.

Lemma replay_append t lines seq ts s l :
  complete t lines -> is_u64 seq -> is_u64 ts -> fits s -> seq < u64_max -> print_record seq ts s = Ok l ->
  complete (t +:+ l +:+ newline) (lines ++ [l]) /\
  replay (t +:+ l +:+ newline) =
  (Z.max (replay t).1 (seq + 1), if replay_accepts s then index_insert s (replay t).2 else (replay t).2).
Proof.
  intros Ht Hq Hts Hs Hmax Hp. destruct (log_line _ _ _ _ Hp) as (Hnl & _).
  pose proof (complete_line t lines l Ht Hnl) as Hc. split; [done|].
  rewrite (replay_complete _ _ Hc), (replay_complete _ _ Ht), fold_left_app. cbn [fold_left].
  destruct (fold_left _ _ _) as [n ix]. by apply (replay_record n ix seq ts).
Qed.
End durability.

(** A stored session survives a restart: when the log is a sequence of
    finished lines numbered below the next number, a successful put appends a
    finished line with that number, and replaying the log afterwards gives what
    it gave before with the session added, so the log stays ready for the next
    put. *)
Theorem put_session_durable `{Digest, Base64, LogCodec} (fits : AttestedSession -> Prop) `{!LogCodecLaws fits}
    s session ts w q s' w' :
  log_ready s w -> is_u64 (log_next_seq s) -> is_u64 ts -> fits session -> replay_accepts session = true ->
  put_session s session ts w = (Ok q, s', w') ->
  q = log_next_seq s /\ log_ready s' w' /\
  replay (log_text (log_path s) w') = (q + 1, index_insert session (replay (log_text (log_path s) w)).2).
Proof.
  intros [[lines Hc] Hseq] Hu Hts Hfits Hacc (line & Hp & -> & Hmax & Hlog & ->)%put_session_Ok.
  destruct (replay_append fits _ _ _ _ _ _ Hc Hu Hts Hfits ltac:(lia) Hp) as [Hc' Hr].
  rewrite Hacc, Z.max_r in Hr by lia. split; [done|]. unfold log_ready. cbn [log_path log_next_seq].
  rewrite Hlog, Hr. split; [|done]. split; [by eexists|cbn; lia].
Qed.

(** A line cut short by a failed write swallows the next session: when the
    bytes left behind make the next line unreadable, a later put reports
    success, and a restart replays the log without its session. *)
Theorem torn_append_swallows_next `{Digest, Base64, LogCodec} (fits : AttestedSession -> Prop) `{!LogCodecLaws fits}
    s session ts w q s' w' t lines frag line :
  complete t lines -> log_text (log_path s) w = t +:+ frag ->
  print_record (log_next_seq s) ts session = Ok line ->
  string_forallb (fun c => negb (Ascii.eqb c "010")) frag = true ->
  parse_record (trim_ascii (frag +:+ line)) = None ->
  put_session s session ts w = (Ok q, s', w') ->
  replay (log_text (log_path s) w') = replay t /\ s' <> s.
Proof.
  intros Hc Ht Hp Hfrag Hbad (line' & Hp' & -> & Hmax & Hlog & ->)%put_session_Ok.
  rewrite Hp in Hp'. injection Hp' as <-. destruct (log_line _ _ _ _ Hp) as (Hnl & _). split.
  - assert (Hc' : complete (t +:+ (frag +:+ line) +:+ newline) (lines ++ [frag +:+ line])).
    { apply complete_line; [done|]. by rewrite string_forallb_app, Hfrag, Hnl. }
    rewrite Hlog, Ht. rewrite !string_app_assoc in *.
    rewrite (replay_complete _ _ Hc'), (replay_complete _ _ Hc), fold_left_app. cbn [fold_left].
    unfold replay_line. destruct (fold_left _ _ _) as [n ix]. rewrite Hbad. by destruct (String.eqb _ _).
  - intros E. apply (f_equal log_next_seq) in E. cbn in E. lia.
Qed.

(** ** Compaction *)

Lemma index_wf_ext ix1 ix2 : index_wf ix1 -> index_wf ix2 -> by_id ix1 = by_id ix2 -> ix1 = ix2.
Proof.
  intros [_ H1 B1] [_ H2 B2] E. destruct ix1 as [m1 x1], ix2 as [m2 x2]. cbn in *. subst m2. f_equal.
  assert (Hh : forall t id, hinted x1 t id <-> hinted x2 t id) by (intros; by rewrite H1, H2).
  assert (Hsub : forall x y, (forall t id, hinted x t id <-> hinted y t id) -> no_empty x ->
            forall t ids, x !! t = Some ids -> y !! t = Some ids).
  { intros x y Hxy Bx t ids Ht. destruct (decide (ids = ∅)) as [->|Hne]; [by destruct (Bx t)|].
    apply set_choose_L in Hne as [id Hid]. destruct (proj1 (Hxy t id)) as (ids' & Ht' & Hid'); [by exists ids|].
    rewrite Ht'. f_equal. apply set_eq. intros z. split; intros Hz.
    - destruct (proj2 (Hxy t z)) as (? & ? & ?); [by exists ids'|]. by simplify_eq.
    - destruct (proj1 (Hxy t z)) as (? & ? & ?); [by exists ids|]. by simplify_eq. }
  apply map_eq. intros t. apply option_eq. intros ids. split; apply Hsub; done.
Qed.

(** Inserting sessions with distinct ids one after the other. *)
Lemma insert_all_lookup l ix :
  index_wf ix -> NoDup (map session_id l) ->
  index_wf (fold_left (fun ix s => index_insert s ix) l ix) /\
  forall id, by_id (fold_left (fun ix s => index_insert s ix) l ix) !! id =
    match find (fun s => String.eqb (session_id s) id) l with
    | Some s => Some s
    | None => by_id ix !! id
    end.
Proof.
  revert ix. induction l as [|s l IH]; intros ix Hwf Hnd; cbn; [done|].
  apply NoDup_cons in Hnd as [Hs Hl]. destruct (IH (index_insert s ix)) as [Hwf' Hlook]; [by apply index_insert_wf|done|].
  split; [done|]. intros id. rewrite Hlook, index_insert_eq by done. cbn.
  destruct (String.eqb_spec (session_id s) id) as [<-|Hne].
  - destruct (find _ l) as [s'|] eqn:Hf; [|by rewrite lookup_insert_eq].
    apply find_some in Hf as [Hin E%String.eqb_eq]. destruct Hs. rewrite <- E.
    apply list_elem_of_fmap_2. by apply list_elem_of_In.
  - by rewrite lookup_insert_ne.
Qed.

Lemma insert_all_values m ix :
  (forall id s, m !! id = Some s -> session_id s = id) -> by_id ix = m -> index_wf ix ->
  fold_left (fun ix s => index_insert s ix) (values m) index_default = ix.
Proof.
  intros Hid <- Hwf. destruct (insert_all_lookup (values (by_id ix)) index_default) as [Hwf' Hl];
    [exact index_default_wf|by apply values_ids|].
  apply index_wf_ext; [done..|]. apply map_eq. intros id. rewrite Hl. cbn.
  destruct (find _ _) as [s|] eqn:Hf.
  - apply find_some in Hf as [Hin E%String.eqb_eq]. apply list_elem_of_In, values_elem in Hin as [id' Hin].
    rewrite <- E. by rewrite (Hid id' s Hin), Hin.
  - destruct (by_id ix !! id) as [s|] eqn:Hs; [|done].
    assert (Hin : s ∈ values (by_id ix)) by (apply values_elem; by exists id).
    apply list_elem_of_In in Hin. apply (find_none _ _ Hf) in Hin. rewrite (Hid id s Hs) in Hin.
    by rewrite String.eqb_refl in Hin.
Qed.

Section compaction.
Context `{Digest, Base64, LogCodec} (fits : AttestedSession -> Prop) `{!LogCodecLaws fits}.

(** Writing the live sessions extends the log by records that replay to them. *)
Lemma write_records_replay tmp now live seq t lines w r w' :
  write_records tmp now seq live w = (Ok r, w') ->
  log_text tmp w = t -> complete t lines -> (replay t).1 = seq ->
  0 <= seq -> seq + Z.of_nat (length live) <= u64_max -> is_u64 now ->
  Forall (fun s => fits s /\ replay_accepts s = true) live ->
  replay (log_text tmp w') =
    (seq + Z.of_nat (length live), fold_left (fun ix s => index_insert s ix) live (replay t).2).
Proof.
  intros Hw Ht Hc Hseq Hpos Hmax Hnow HF. revert seq t lines w Hw Ht Hc Hseq Hpos Hmax.
  induction HF as [|s live [Hs Ha] _ IH]; intros seq t lines w Hw Ht Hc Hseq Hpos Hmax; cbn in Hw.
  - injection Hw as _ <-. rewrite Ht. cbn. rewrite Z.add_0_r, <- Hseq. by destruct (replay t).
  - unfold mbind, io_bind, io_of_result in Hw. destruct (print_record seq now s) as [line|] eqn:Hp; [|done].
    cbn [map_err] in Hw. destruct (fs_append _ _ w) as [[u|] w1] eqn:Hap; [|done].
    apply fs_append_Ok in Hap as [Hap _]. rewrite Ht in Hap. cbn [length] in Hmax.
    destruct (replay_append fits t lines seq now s line Hc) as [Hc1 Hr1];
      [unfold is_u64; lia|done|done|lia|done|].
    rewrite Ha, Z.max_r in Hr1 by lia.
    rewrite (IH (seq + 1) (t +:+ line +:+ newline) (lines ++ [line]) w1);
      [|done|done|done|by rewrite Hr1|lia|lia].
    rewrite Hr1. cbn [snd fold_left length]. f_equal. lia.
Qed.
End compaction.

Lemma jsonl_tmp_neq p : with_extension p "jsonl.tmp" <> p.
Proof.
  apply with_extension_neq. cbn. set_solver.
Qed.

Lemma fs_append_other p t w r w' q :
  fs_append p t w = (r, w') -> q <> p -> files w' !! q = files w !! q.
Proof.
  unfold fs_append, with_fault. intros E Hq. destruct (faults w) as [|[f|] fs]; injection E as <- <-; cbn;
    by rewrite lookup_insert_ne.
Qed.

Lemma write_records_other `{LogCodec} tmp now live seq w r w' q :
  write_records tmp now seq live w = (r, w') -> q <> tmp -> files w' !! q = files w !! q.
Proof.
  intros E Hq. revert seq w E. induction live as [|s live IH]; intros seq w E; cbn in E; [by injection E as _ <-|].
  unfold mbind, io_bind, io_of_result in E. destruct (print_record seq now s); cbn [map_err] in E;
    [|by injection E as _ <-].
  destruct (fs_append _ _ w) as [[u|] w1] eqn:Ha; apply (fs_append_other _ _ _ _ _ q) in Ha; try done.
  - rewrite <- Ha. by apply (IH _ _ E).
  - by injection E as _ <-.
Qed.

(** The file operations of a compaction. *)
Lemma compact_io `{LogCodec} tmp path now live w r w' :
  tmp <> path ->
  (fs_write tmp "" ≫= fun _ => write_records tmp now 0 live ≫= fun _ => fs_sync tmp ≫= fun _ =>
   open_append tmp ≫= fun _ => fs_rename tmp path) w = (r, w') ->
  match r with
  | Ok _ => exists w2 u w3, log_text tmp w2 = "" /\ write_records tmp now 0 live w2 = (Ok u, w3) /\
      files w' !! path = Some (log_text tmp w3)
  | Err _ => files w' !! path = files w !! path
  end.
Proof.
  intros Hne. unfold mbind, io_bind.
  destruct (fs_write tmp "" w) as [r1 w2] eqn:H1.
  assert (Hw2 : files w2 !! path = files w !! path /\ match r1 with Ok _ => log_text tmp w2 = "" | Err _ => True end).
  { unfold fs_write, with_fault in H1. destruct (faults w) as [|[f|] fs]; injection H1 as <- <-; cbn;
      rewrite lookup_insert_ne by done; (split; [done|]); try done; unfold log_text; cbn; by rewrite lookup_insert_eq. }
  destruct Hw2 as [Hp2 Ht2]. destruct r1 as [u1|]; [|by intros [= <- <-]].
  destruct (write_records tmp now 0 live w2) as [r2 w3] eqn:H2.
  pose proof (write_records_other _ _ _ _ _ _ _ path H2 ltac:(done)) as Hp3.
  destruct r2 as [u2|]; [|intros [= <- <-]; congruence].
  unfold fs_sync, open_append, fs_rename, with_fault.
  destruct (faults w3) as [|[f|] [|[f2|] [|[f3|] fs]]]; cbn [files faults]; rewrite ?lookup_insert_eq;
    intros E; injection E as <- <-; cbn [files];
    rewrite ?lookup_insert_eq, ?(lookup_insert_ne _ tmp path) by done; try congruence;
    exists w2, u2, w3; done.
Qed.

(** Compaction loses nothing that is alive: when it succeeds, reopening the
    log gives exactly the store it left, the live sessions with their current
    deadlines under fresh numbers; when it fails, the log file is untouched. *)
Theorem compact_reopen `{Digest, Base64, LogCodec} (fits : AttestedSession -> Prop) `{!LogCodecLaws fits}
    s now w r s' w' :
  index_wf (index s) -> is_u64 now -> Z.of_nat (size (by_id (index s))) <= u64_max ->
  (forall id x, by_id (index s) !! id = Some x -> fits x /\ replay_accepts x = true) ->
  compact s now w = (r, s', w') ->
  match r with
  | Ok n => n = Z.of_nat (size (by_id (index s'))) /\ (open_log (log_path s) (settled w')).1 = Ok s'
  | Err _ => files w' !! log_path s = files w !! log_path s
  end.
Proof.
  intros Hwf Hnow Hsize Hall. unfold compact. cbn zeta.
  destruct (index_evict_spec now (index s) Hwf) as [Hwf' Hev].
  set (ix := index_evict_expired now (index s)) in *. set (tmp := with_extension (log_path s) "jsonl.tmp").
  destruct ((fs_write tmp "" ≫= _) w) as [rio w1] eqn:Hio.
  pose proof (compact_io tmp (log_path s) now (values (by_id ix)) w rio w1
    (jsonl_tmp_neq (log_path s)) Hio) as Hspec.
  destruct rio as [u|e]; intros [= <- <- <-]; cbn [index log_path]; [|done].
  destruct Hspec as (w2 & u2 & w3 & Ht & Hrec & Hfile).
  assert (Hlen : length (values (by_id ix)) = size (by_id ix))
    by (unfold values; by rewrite length_map, length_map_to_list).
  assert (Hsub : by_id ix ⊆ by_id (index s)).
  { apply map_subseteq_spec. intros id x. rewrite Hev.
    destruct (by_id (index s) !! id); [|done]. by destruct (_ <=? _). }
  pose proof (map_subseteq_size _ _ Hsub) as Hle.
  assert (Hrep : replay (log_text tmp w3) = (Z.of_nat (size (by_id ix)), ix)).
  { rewrite (write_records_replay fits tmp now (values (by_id ix)) 0 "" [] w2 u2 w3); try done; [|lia|].
    - rewrite Hlen. f_equal. apply (insert_all_values (by_id ix)); [exact (ix_id ix Hwf')|done..].
    - apply Forall_forall. intros x [id Hx]%values_elem. apply (Hall id).
      by eapply lookup_weaken. }
  split; [by rewrite Hlen|].
  unfold open_log, read_bytes, with_fault, settled. cbn [files faults]. rewrite Hfile. cbn.
  unfold replay in Hrep |- *. rewrite Hrep, <- Hlen. reflexivity.
Qed.

(** ** A concrete log *)

Definition demo_sealed : AttestedSession :=
  match seal (H := sum_digest) "u" (Some "https://u") "v/1" None [TlsSpkiSha256 "https://u" "aa"] demo_claims
          {| digest := None; data_uri := None |} 100 160 with
  | Ok s => s
  | Err _ => demo_named "" 0
  end.

Definition demo_fits (s : AttestedSession) : Prop := s = demo_sealed.

(** Records of one session, numbered: [#seq#]. *)
Definition demo_log_codec : LogCodec := {|
  print_record seq ts s := Ok ("#" +:+ z_to_string seq +:+ "#");
  parse_record l :=
    match l with
    | String "#" r =>
        match string_to_z (drop_last r) with
        | Some q => Some (q, RECORD_TYPE_SESSION, Some demo_sealed)
        | None => None
        end
    | _ => None
    end;
|}.

Definition demo_base64 : Base64 := fun _ => None.

Lemma trim_ascii_hash (d : string) : trim_ascii ("#" +:+ d +:+ "#") = "#" +:+ d +:+ "#".
Proof.
  unfold trim_ascii. change ("#" +:+ d +:+ "#") with (String "#" (d +:+ "#")). cbn [String.list_ascii_of_string].
  rewrite list_ascii_app. change (String.list_ascii_of_string "#") with ["#"%char].
  change (trim_start ("#"%char :: String.list_ascii_of_string d ++ ["#"%char]))
    with ("#"%char :: String.list_ascii_of_string d ++ ["#"%char]).
  cbn [rev]. rewrite rev_app_distr. cbn [rev app].
  change (trim_start ("#"%char :: rev (String.list_ascii_of_string d) ++ ["#"%char]))
    with ("#"%char :: rev (String.list_ascii_of_string d) ++ ["#"%char]).
  cbn [rev]. rewrite rev_app_distr, rev_involutive. cbn [rev app String.string_of_list_ascii]. f_equal.
  rewrite <- (String.string_of_list_ascii_of_string (d +:+ "#")). f_equal. by rewrite list_ascii_app.
Qed.

Lemma demo_log_laws : LogCodecLaws (H := demo_log_codec) demo_fits.
Proof.
  split.
  - eauto.
  - intros q ts s l _ _ -> [= <-]. cbn -[string_to_z drop_last z_to_string demo_sealed].
    assert (E : drop_last (z_to_string q +:+ "#") = z_to_string q).
    { unfold drop_last. rewrite string_app_length, Nat.add_sub. apply substring_prefix. }
    by rewrite E, string_to_z_to_string.
  - intros q ts s l [= <-]. split_and!; [|exact (trim_ascii_hash _)|done].
    cbn -[z_to_string]. rewrite string_forallb_app.
    rewrite (string_forallb_impl is_num_char _ (z_to_string q)); [done| |apply z_to_string_num_chars].
    intros a. by destruct a as [[] [] [] [] [] [] [] []].
Qed.

Definition demo_log_path : Path := ("/state", "sessions.jsonl").
Definition demo_jsonl : JsonlSessionStore :=
  {| log_path := demo_log_path; log_next_seq := 0; index := index_default |}.

Section witnesses.
#[local] Instance demo_digest_i : Digest := sum_digest.
#[local] Instance demo_base64_i : Base64 := demo_base64.
#[local] Instance demo_log_i : LogCodec := demo_log_codec.

Definition demo_put : result io_error Z * JsonlSessionStore * World :=
  put_session demo_jsonl demo_sealed 100 {| files := ∅; faults := [] |}.

Lemma demo_accepts : replay_accepts demo_sealed = true.
Proof. vm_compute. reflexivity. Qed.

Lemma put_session_durable_witness :
  demo_put.1.1 = Ok 0 /\ log_ready demo_put.1.2 demo_put.2.
Proof.
  split; [vm_compute; reflexivity|].
  refine (proj1 (proj2 (put_session_durable demo_fits (LogCodecLaws0 := demo_log_laws) demo_jsonl demo_sealed 100
    {| files := ∅; faults := [] |} 0 demo_put.1.2 demo_put.2 _ _ _ _ demo_accepts _)));
    [split; [by exists []|vm_compute; congruence]|by apply is_u64_small|by apply is_u64_small|reflexivity
    |apply triple_eta; vm_compute; reflexivity].
Defined.

Lemma replay_integrity_witness :
  let text := log_text demo_log_path demo_put.2 in
  content_id demo_sealed = Ok (session_id demo_sealed).
Proof.
  intros text.
  refine (proj1 (proj2 (replay_integrity text (session_id demo_sealed) demo_sealed _))).
  vm_compute. reflexivity.
Defined.

(** A fragment of one byte is in the file. *)
Lemma torn_append_swallows_next_witness :
  let w := {| files := {[ demo_log_path := "#" ]}; faults := [] |} in
  let x := put_session demo_jsonl demo_sealed 100 w in
  x.1.1 = Ok 0 /\ replay (log_text demo_log_path x.2) = replay "" /\ x.1.2 <> demo_jsonl.
Proof.
  intros w x. split; [vm_compute; reflexivity|].
  refine (torn_append_swallows_next demo_fits (LogCodecLaws0 := demo_log_laws) demo_jsonl demo_sealed 100 w 0
    x.1.2 x.2 "" [] "#" "#0#" _ _ _ _ _ (triple_eta _ _ _)); vm_compute; reflexivity.
Defined.

Lemma compact_reopen_witness :
  let s := demo_put.1.2 in
  let x := compact s 120 demo_put.2 in
  x.1.1 = Ok 1 /\ (open_log demo_log_path (settled x.2)).1 = Ok x.1.2.
Proof.
  intros s x. split; [vm_compute; reflexivity|].
  refine (proj2 (compact_reopen demo_fits (LogCodecLaws0 := demo_log_laws) s 120 demo_put.2 (Ok 1) x.1.2 x.2
    _ _ _ _ _)).
  - destruct (index_evict_spec 100 (index_insert demo_sealed index_default)) as [Hwf _];
      [apply index_insert_wf, index_default_wf|]. exact Hwf.
  - by apply is_u64_small.
  - vm_compute. congruence.
  - intros id y Hy. assert (E : y = demo_sealed).
    { change (by_id (index s)) with ({[ session_id demo_sealed := demo_sealed ]} : gmap string AttestedSession) in Hy.
      apply lookup_singleton_Some in Hy as [_ Hy]. by symmetry. }
    subst y. split; [reflexivity|exact demo_accepts].
  - apply triple_eta. vm_compute. reflexivity.
Defined.
End witnesses.
