(* ===== verification/SessionLock.v ===== *)
(** * One writer per session log

    Model of the advisory lock of [src/aggregator/session_store.rs]: opening a log
    takes the lock of [<log>.lock] before anything is read, holds it as long as the
    store lives, and fails when another gateway holds it.  Several gateways on one
    host are a sequence of their operations, in any interleaving, on one file
    system and one table of locks. *)
From S2P Require Import Prelude Canonical Fs Session SessionStore.

Definition lock_path_for (path : Path) : Path := with_extension path "jsonl.lock".

Definition lock_held (lock_path : Path) : io_error := {|
  kind := WouldBlock;
  message := "another gateway instance holds the session log lock at " +:+ path_display lock_path +:+
             "; refusing to start to avoid forking the log" |}.

(** [locks] are the lock files that are locked; the file is created when it is
    missing and never truncated.  Both system calls can fail. *)
Definition acquire_exclusive_lock (locks : gset Path) (lock_path : Path) : Io unit :=
  open_append lock_path ≫= fun _ =>
  with_fault (fun _ m => m) (fun m => (if bool_decide (lock_path ∈ locks) then Err (lock_held lock_path) else Ok tt, m)).

Section Host.
Context `{Digest} `{Base64} `{LogCodec}.

Definition JsonlSessionStore_open (locks : gset Path) (path : Path) : Io JsonlSessionStore :=
  acquire_exclusive_lock locks (lock_path_for path) ≫= fun _ => open_log path.

(** The stores that are open on a host, each with the number of its gateway. *)
Record Host := { world : World; locks : gset Path; stores : gmap nat JsonlSessionStore }.

Inductive HostOp :=
| OpenStore (i : nat) (state_dir : string)
| PutSession (i : nat) (session : AttestedSession) (ts : Z)
| RenewSession (i : nat) (id : string) (new_expires_at now : Z)
| CompactLog (i : nat) (now : Z)
| DropStore (i : nat).

Definition op_store (op : HostOp) : nat :=
  match op with OpenStore i _ | PutSession i _ _ | RenewSession i _ _ _ | CompactLog i _ | DropStore i => i end.

(** The log of a state directory. *)
Definition log_of (state_dir : string) : Path := (state_dir, "sessions.jsonl").

Definition on_store (h : Host) (i : nat) (f : JsonlSessionStore -> World -> JsonlSessionStore * World) : Host :=
  match stores h !! i with
  | None => h
  | Some s => let '(s', w) := f s (world h) in {| world := w; locks := locks h; stores := <[i := s']> (stores h) |}
  end.

Definition host_open (h : Host) (i : nat) (state_dir : string) : Host :=
  match stores h !! i with
  | Some _ => h
  | None =>
      match JsonlSessionStore_open (locks h) (log_of state_dir) (world h) with
      | (Ok s, w) => {| world := w; locks := {[ lock_path_for (log_of state_dir) ]} ∪ locks h; stores := <[i := s]> (stores h) |}
      | (Err _, w) => {| world := w; locks := locks h; stores := stores h |}
      end
  end.

(** The lock goes when its handle is dropped, also when the process dies. *)
Definition host_drop (h : Host) (i : nat) : Host :=
  match stores h !! i with
  | None => h
  | Some s => {| world := world h; locks := locks h ∖ {[ lock_path_for (log_path s) ]}; stores := delete i (stores h) |}
  end.

Definition run_op (h : Host) (op : HostOp) : Host :=
  match op with
  | OpenStore i dir => host_open h i dir
  | PutSession i session ts => on_store h i (fun s w => let '(_, s, w) := put_session s session ts w in (s, w))
  | RenewSession i id t now => on_store h i (fun s w => ((renew_session s id t now).2, w))
  | CompactLog i now => on_store h i (fun s w => let '(_, s, w) := compact s now w in (s, w))
  | DropStore i => host_drop h i
  end.

Definition run_ops (h : Host) (ops : list HostOp) : Host := fold_left run_op ops h.

(** ** What an operation touches *)

Definition touches (paths : list Path) (w w' : World) : Prop := forall q, q ∉ paths -> files w' !! q = files w !! q.

Lemma touches_refl paths w : touches paths w w.
Proof. by intros q _. Qed.

Lemma touches_trans paths w1 w2 w3 : touches paths w1 w2 -> touches paths w2 w3 -> touches paths w1 w3.
Proof. intros H12 H23 q Hq. by rewrite (H23 q Hq), (H12 q Hq). Qed.

(** An operation of the file system touches no more than [paths]. *)
Definition confined {A : Type} (paths : list Path) (m : Io A) : Prop := forall w, touches paths w (m w).2.

Lemma confined_bind {A B : Type} paths (m : Io A) (f : A -> Io B) :
  confined paths m -> (forall a, confined paths (f a)) -> confined paths (m ≫= f).
Proof.
  intros Hm Hf w. unfold mbind, io_bind. specialize (Hm w). destruct (m w) as [[a|e] w1]; cbn [snd] in *; [|done].
  eapply touches_trans; [exact Hm|apply Hf].
Qed.

Lemma confined_fault {A : Type} (paths : list Path) (on_fault : Fault -> gmap Path string -> gmap Path string) (op : gmap Path string -> result io_error A * gmap Path string) :
  (forall f (m : gmap Path string) q, q ∉ paths -> on_fault f m !! q = m !! q) -> (forall (m : gmap Path string) q, q ∉ paths -> (op m).2 !! q = m !! q) ->
  confined paths (with_fault on_fault op).
Proof.
  intros Hf Ho w q Hq. unfold with_fault. specialize (Ho (files w) q Hq).
  destruct (faults w) as [|[f|] fs]; cbn [snd files]; [|by apply Hf|]; by destruct (op (files w)).
Qed.

Lemma confined_write p t (paths : list Path) : p ∈ paths -> confined paths (fs_write p t).
Proof. intros Hp. apply confined_fault; intros; cbn; rewrite lookup_insert_ne; congruence. Qed.

Lemma confined_append p t (paths : list Path) : p ∈ paths -> confined paths (fs_append p t).
Proof. intros Hp. apply confined_fault; intros; cbn; rewrite lookup_insert_ne; congruence. Qed.

Lemma confined_open p (paths : list Path) : p ∈ paths -> confined paths (open_append p).
Proof. intros Hp. apply confined_fault; intros; cbn; [done|]. rewrite lookup_insert_ne; congruence. Qed.

Lemma confined_sync p paths : confined paths (fs_sync p).
Proof. by apply confined_fault. Qed.

Lemma confined_rename p q (paths : list Path) : p ∈ paths -> q ∈ paths -> confined paths (fs_rename p q).
Proof.
  intros Hp Hq. apply confined_fault; intros; [done|]. cbn. destruct (m !! p); [|done]. cbn.
  rewrite lookup_insert_ne, lookup_delete_ne; congruence.
Qed.
End Host.

Create HintDb files.
#[export] Hint Resolve confined_bind confined_write confined_append confined_open confined_sync confined_rename : files.

Section Exclusion.
Context `{Digest} `{Base64} `{LogCodec}.

(** Every file a store of the log [p] writes. *)
Definition files_of (p : Path) : list Path := [p; with_extension p "jsonl.tmp"; lock_path_for p].

Lemma files_of_log p : p ∈ files_of p.
Proof. left. Qed.

Lemma files_of_tmp p : with_extension p "jsonl.tmp" ∈ files_of p.
Proof. right. left. Qed.

Lemma files_of_lock p : lock_path_for p ∈ files_of p.
Proof. right. right. left. Qed.

(** The logs of two state directories share no file. *)
Lemma logs_apart dir dir' : log_of dir <> log_of dir' -> log_of dir ∉ files_of (log_of dir').
Proof.
  intros Hne [E|[E|[E|[]%elem_of_nil]%elem_of_cons]%elem_of_cons]%elem_of_cons; [done|discriminate E..].
Qed.

Lemma write_records_confined p now seq live paths : p ∈ paths -> confined paths (write_records p now seq live).
Proof.
  intros Hp. revert seq. induction live as [|s live IH]; intros seq; cbn [write_records]; [intros w; apply touches_refl|].
  apply confined_bind; [intros w; apply touches_refl|]. auto with files.
Qed.

Lemma confined_read p paths : confined paths (read_bytes p).
Proof. apply confined_fault; [done|]. intros m q _. by destruct (m !! p). Qed.

Lemma open_log_confined p : confined (files_of p) (open_log p).
Proof.
  intros w. unfold open_log. pose proof (confined_read p (files_of p) w) as Hr.
  assert (Hc : forall s : JsonlSessionStore, confined (files_of p) (open_append p ≫= fun _ => mret s)).
  { intros s. apply confined_bind; [apply confined_open, files_of_log|]. intros _ w0. apply touches_refl. }
  destruct (read_bytes p w) as [[text|e] w1]; cbn [snd] in Hr.
  - destruct (replay text). eapply touches_trans; [exact Hr|apply Hc].
  - destruct (kind e); try exact Hr. eapply touches_trans; [exact Hr|apply Hc].
Qed.

Lemma open_confined locks p : confined (files_of p) (JsonlSessionStore_open locks p).
Proof.
  apply confined_bind; [|intros _; apply open_log_confined]. apply confined_bind; [apply confined_open, files_of_lock|].
  intros _. by apply confined_fault.
Qed.

Lemma put_confined s session ts w : touches (files_of (log_path s)) w (put_session s session ts w).2.
Proof.
  unfold put_session. destruct (u64_checked_add _ _); [|apply touches_refl]. destruct (print_record _ _ _) as [line|]; [|apply touches_refl].
  pose proof (confined_append (log_path s) (line +:+ newline) _ (files_of_log (log_path s)) w) as Ha.
  by destruct (fs_append _ _ w) as [[]].
Qed.

Lemma compact_confined s now w : touches (files_of (log_path s)) w (compact s now w).2.
Proof.
  unfold compact. cbn zeta. set (tmp := with_extension (log_path s) "jsonl.tmp"). set (live := values _).
  assert (Hc : confined (files_of (log_path s)) (fs_write tmp "" ≫= fun _ => write_records tmp now 0 live ≫= fun _ => fs_sync tmp ≫= fun _ =>
    open_append tmp ≫= fun _ => fs_rename tmp (log_path s))).
  { pose proof (files_of_log (log_path s)). pose proof (files_of_tmp (log_path s)). pose proof write_records_confined. auto 12 with files. }
  specialize (Hc w). by destruct ((fs_write tmp "" ≫= _) w) as [[]].
Qed.

Lemma put_path s session ts w : log_path (put_session s session ts w).1.2 = log_path s.
Proof.
  unfold put_session. destruct (u64_checked_add _ _); [|done]. destruct (print_record _ _ _); [|done]. by destruct (fs_append _ _ _) as [[]].
Qed.

Lemma compact_path s now w : log_path (compact s now w).1.2 = log_path s.
Proof. unfold compact. cbn zeta. by destruct ((fs_write _ _ ≫= _) w) as [[]]. Qed.

Lemma renew_path s id t now : log_path (renew_session s id t now).2 = log_path s.
Proof. unfold renew_session. by destruct (renew _ _ _ _). Qed.

Lemma open_log_path p w s w' : open_log p w = (Ok s, w') -> log_path s = p.
Proof.
  unfold open_log, mbind, io_bind. destruct (read_bytes p w) as [[text|e] w1].
  - destruct (replay text). destruct (open_append p w1) as [[]]; [|done]. by intros [= <- _].
  - destruct (kind e); try done. destruct (open_append p w1) as [[]]; [|done]. by intros [= <- _].
Qed.

Lemma open_Ok locks p w s w' : JsonlSessionStore_open locks p w = (Ok s, w') -> log_path s = p /\ lock_path_for p ∉ locks.
Proof.
  unfold JsonlSessionStore_open, acquire_exclusive_lock, mbind, io_bind. destruct (open_append _ w) as [[]]; [|done]. unfold with_fault.
  destruct (faults _) as [|[|]]; [|done|]; (case_bool_decide; [done|]); intros E%open_log_path; done.
Qed.

(** ** The invariant of a host *)

Record host_inv (h : Host) : Prop := {
  inv_log i s : stores h !! i = Some s -> exists dir, log_path s = log_of dir;
  inv_locked i s : stores h !! i = Some s -> lock_path_for (log_path s) ∈ locks h;
  inv_single i j s t : stores h !! i = Some s -> stores h !! j = Some t -> log_path s = log_path t -> i = j;
}.

Lemma inv_update h i s s' w : host_inv h -> stores h !! i = Some s -> log_path s' = log_path s ->
  host_inv {| world := w; locks := locks h; stores := <[i := s']> (stores h) |}.
Proof.
  intros Hinv Hs Hp. assert (Hback : forall j t, <[i := s']> (stores h) !! j = Some t -> exists t0, stores h !! j = Some t0 /\ log_path t = log_path t0).
  { intros j t [[<- <-]|[_ Ht]]%lookup_insert_Some; eauto. }
  split; cbn [stores locks].
  - intros j t (t0 & Ht & ->)%Hback. by eapply inv_log.
  - intros j t (t0 & Ht & ->)%Hback. by eapply inv_locked.
  - intros j k t u (t0 & Ht & ->)%Hback (u0 & Hu & ->)%Hback. by eapply inv_single.
Qed.

Lemma log_of_lock dir dir' : lock_path_for (log_of dir) = lock_path_for (log_of dir') -> log_of dir = log_of dir'.
Proof. by intros [= ->]. Qed.

(** A step keeps the invariant, and leaves alone the store and the log of every
    gateway but the one that makes it. *)
Lemma on_store_step h i j s f : host_inv h -> (forall s w, log_path (f s w).1 = log_path s /\ touches (files_of (log_path s)) w (f s w).2) ->
  j <> i -> stores h !! j = Some s ->
  stores (on_store h i f) !! j = Some s /\ files (world (on_store h i f)) !! log_path s = files (world h) !! log_path s.
Proof.
  intros Hinv Hf Hne Hs. unfold on_store. destruct (stores h !! i) as [t|] eqn:Ht; [|done]. destruct (Hf t (world h)) as [_ Htouch].
  destruct (f t (world h)) as [t' w]. cbn [stores world fst snd] in *. rewrite lookup_insert_ne by done. split; [done|].
  apply Htouch. destruct (inv_log _ Hinv _ _ Hs) as [dir Hd], (inv_log _ Hinv _ _ Ht) as [dir' Hd']. rewrite Hd, Hd'. apply logs_apart.
  intros E. apply Hne. apply (inv_single _ Hinv _ _ _ _ Hs Ht). by rewrite Hd, Hd'.
Qed.

Lemma on_store_inv h i f : host_inv h -> (forall s w, log_path (f s w).1 = log_path s /\ touches (files_of (log_path s)) w (f s w).2) ->
  host_inv (on_store h i f).
Proof.
  intros Hinv Hf. unfold on_store. destruct (stores h !! i) as [t|] eqn:Ht; [|done]. destruct (Hf t (world h)) as [Hp _].
  destruct (f t (world h)) as [t' w]. by eapply inv_update.
Qed.

Lemma host_open_inv h i dir : host_inv h -> host_inv (host_open h i dir).
Proof.
  intros Hinv. unfold host_open. destruct (stores h !! i) eqn:Hi; [done|].
  destruct (JsonlSessionStore_open _ _ _) as [[s|] w] eqn:E; [|by destruct Hinv; split].
  apply open_Ok in E as [Hp Hfree].
  assert (Hlog : forall j t, stores h !! j = Some t -> log_path t <> log_of dir).
  { intros j t Ht Hlt. apply Hfree. rewrite <- Hlt. by eapply inv_locked. }
  split; cbn [stores locks].
  - intros j t [[<- <-]|[_ Ht]]%lookup_insert_Some; [eauto|by eapply inv_log].
  - intros j t [[<- <-]|[_ Ht]]%lookup_insert_Some; apply elem_of_union; [left|right; by eapply inv_locked].
    rewrite Hp. by apply elem_of_singleton.
  - intros j k t u [[<- <-]|[_ Ht]]%lookup_insert_Some [[<- <-]|[_ Hu]]%lookup_insert_Some Htu; [done|..].
    + exfalso. apply (Hlog _ _ Hu). by rewrite <- Htu.
    + exfalso. apply (Hlog _ _ Ht). by rewrite Htu.
    + by eapply inv_single.
Qed.

Lemma host_open_step h i dir j s : host_inv h -> j <> i -> stores h !! j = Some s ->
  stores (host_open h i dir) !! j = Some s /\ files (world (host_open h i dir)) !! log_path s = files (world h) !! log_path s.
Proof.
  intros Hinv Hne Hs. unfold host_open. destruct (stores h !! i) eqn:Hi; [done|].
  pose proof (open_confined (locks h) (log_of dir) (world h)) as Ht.
  assert (Hlock : lock_path_for (log_path s) ∈ locks h) by (by eapply inv_locked).
  destruct (inv_log _ Hinv _ _ Hs) as [dir' Hd'].
  destruct (JsonlSessionStore_open _ _ _) as [[t|e] w] eqn:E; cbn [snd stores world] in *.
  - rewrite lookup_insert_ne by done. split; [done|]. apply Ht. rewrite Hd'. apply logs_apart. intros Heq.
    apply open_Ok in E as [_ Hfree]. apply Hfree. by rewrite <- Heq, <- Hd'.
  - split; [done|]. destruct (decide (log_of dir' = log_of dir)) as [Heq|Hneq].
    + rewrite Hd', Heq. clear Ht. revert E. unfold JsonlSessionStore_open, acquire_exclusive_lock, mbind, io_bind.
      pose proof (confined_open (lock_path_for (log_of dir)) [lock_path_for (log_of dir)] ltac:(left) (world h) (log_of dir)) as Ho.
      destruct (open_append _ (world h)) as [[u|e'] w1]; cbn [snd] in Ho; [|intros [= _ <-]; apply Ho; by intros [?|[]%elem_of_nil]%elem_of_cons].
      unfold with_fault. rewrite bool_decide_eq_true_2 by (by rewrite <- Heq, <- Hd').
      destruct (faults w1) as [|[|]]; intros [= _ <-]; cbn [files]; apply Ho; by intros [?|[]%elem_of_nil]%elem_of_cons.
    + apply Ht. rewrite Hd'. by apply logs_apart.
Qed.

Lemma host_drop_inv h i : host_inv h -> host_inv (host_drop h i).
Proof.
  intros Hinv. unfold host_drop. destruct (stores h !! i) as [s|] eqn:Hs; [|done]. split; cbn [stores locks].
  - intros j t [_ Ht]%lookup_delete_Some. by eapply inv_log.
  - intros j t [Hne Ht]%lookup_delete_Some. apply elem_of_difference. split; [by eapply inv_locked|].
    intros E%elem_of_singleton. destruct (inv_log _ Hinv _ _ Hs) as [dir Hd], (inv_log _ Hinv _ _ Ht) as [dir' Hd'].
    rewrite Hd, Hd' in E. apply log_of_lock in E. apply Hne, (inv_single _ Hinv _ _ _ _ Hs Ht). congruence.
  - intros j k t u [_ Ht]%lookup_delete_Some [_ Hu]%lookup_delete_Some. by eapply inv_single.
Qed.

(** What the operations on an open store do to its path and to the files. *)
Lemma put_on_store session ts s w :
  let out := (let '(_, s', w') := put_session s session ts w in (s', w')) in
  log_path out.1 = log_path s /\ touches (files_of (log_path s)) w out.2.
Proof.
  pose proof (put_path s session ts w). pose proof (put_confined s session ts w). by destruct (put_session s session ts w) as [[??]?].
Qed.

Lemma compact_on_store now s w :
  let out := (let '(_, s', w') := compact s now w in (s', w')) in
  log_path out.1 = log_path s /\ touches (files_of (log_path s)) w out.2.
Proof.
  pose proof (compact_path s now w). pose proof (compact_confined s now w). by destruct (compact s now w) as [[??]?].
Qed.

Lemma renew_on_store id t now s w :
  let out := ((renew_session s id t now).2, w) in log_path out.1 = log_path s /\ touches (files_of (log_path s)) w out.2.
Proof. split; [apply renew_path|apply touches_refl]. Qed.

Lemma run_op_inv h op : host_inv h -> host_inv (run_op h op).
Proof.
  intros Hinv. destruct op; cbn [run_op].
  - by apply host_open_inv.
  - apply on_store_inv; [done|]. apply put_on_store.
  - apply on_store_inv; [done|]. apply renew_on_store.
  - apply on_store_inv; [done|]. apply compact_on_store.
  - by apply host_drop_inv.
Qed.

Lemma run_op_others h op j s : host_inv h -> op_store op <> j -> stores h !! j = Some s ->
  stores (run_op h op) !! j = Some s /\ files (world (run_op h op)) !! log_path s = files (world h) !! log_path s.
Proof.
  intros Hinv Hne Hs. destruct op; cbn [run_op op_store] in *.
  - by apply host_open_step.
  - apply on_store_step; [done| |done..]. apply put_on_store.
  - apply on_store_step; [done| |done..]. apply renew_on_store.
  - apply on_store_step; [done| |done..]. apply compact_on_store.
  - unfold host_drop. destruct (stores h !! i); [|done]. cbn [stores world]. by rewrite lookup_delete_ne.
Qed.

Lemma run_ops_inv h ops : host_inv h -> host_inv (run_ops h ops).
Proof. revert h. induction ops as [|op ops IH]; intros h Hinv; [done|]. apply IH. by apply run_op_inv. Qed.

Lemma run_ops_others h ops j s : host_inv h -> Forall (fun op => op_store op <> j) ops -> stores h !! j = Some s ->
  stores (run_ops h ops) !! j = Some s /\ files (world (run_ops h ops)) !! log_path s = files (world h) !! log_path s.
Proof.
  intros Hinv Hops. revert h Hinv. induction Hops as [|op ops Hop Hops IH]; intros h Hinv Hs; [done|].
  destruct (run_op_others h op j s Hinv Hop Hs) as [Hs' Hf]. destruct (IH _ (run_op_inv _ op Hinv) Hs') as [Hs'' Hf'].
  split; [exact Hs''|]. by rewrite <- Hf.
Qed.

(** No store can be opened on the log of an open one. *)
Lemma open_refused h i s w : host_inv h -> stores h !! i = Some s -> exists e, (JsonlSessionStore_open (locks h) (log_path s) w).1 = Err e.
Proof.
  intros Hinv Hs. destruct (JsonlSessionStore_open _ _ w) as [[t|e] w'] eqn:E; [|by exists e].
  apply open_Ok in E as [_ Hfree]. destruct Hfree. by eapply inv_locked.
Qed.

(** A host on which no store is open yet. *)
Definition fresh_host (w : World) : Host := {| world := w; locks := ∅; stores := ∅ |}.

Lemma fresh_inv w : host_inv (fresh_host w).
Proof. by split. Qed.
End Exclusion.

(** ** What stays in a log that only grows *)

Section Growing.
Context `{Digest} `{Base64} `{LogCodec}.

Lemma append_grows p t w : exists x, log_text p (fs_append p t w).2 = log_text p w +:+ x.
Proof.
  unfold fs_append, with_fault, log_text. destruct (faults w) as [|[f|] fs]; cbn; rewrite lookup_insert_eq; cbn; eauto.
Qed.

Lemma put_grows s session ts w : exists x, log_text (log_path s) (put_session s session ts w).2 = log_text (log_path s) w +:+ x.
Proof.
  unfold put_session. destruct (u64_checked_add _ _); [|exists ""; by rewrite string_app_nil_r].
  destruct (print_record _ _ _) as [line|]; [|exists ""; by rewrite string_app_nil_r].
  pose proof (append_grows (log_path s) (line +:+ newline) w) as Hg. by destruct (fs_append _ _ w) as [[]].
Qed.

(** Replaying a line drops no session. *)
Lemma replay_line_keeps st line id : index_wf st.2 -> accepted st.2 -> is_Some (by_id st.2 !! id) -> is_Some (by_id (replay_line st line).2 !! id).
Proof.
  destruct st as [n ix]. cbn [snd]. intros Hwf Hacc Hid. unfold replay_line.
  destruct (String.eqb _ _); [done|]. destruct (parse_record _) as [[[q ty] payload]|]; [|done].
  destruct (u64_checked_add _ _); [|done]. destruct (String.eqb ty _); [|done].
  destruct payload as [s|]; [|done]. destruct (replay_accepts s); [|done]. cbn [snd]. rewrite index_insert_eq by done. cbn [by_id].
  destruct (decide (session_id s = id)) as [->|]; [by rewrite lookup_insert_eq|by rewrite lookup_insert_ne].
Qed.

Lemma replay_lines_keep lines st id : index_wf st.2 -> accepted st.2 -> is_Some (by_id st.2 !! id) ->
  is_Some (by_id (fold_left replay_line lines st).2 !! id).
Proof.
  revert st. induction lines as [|l lines IH]; intros st Hwf Hacc Hid; [done|]. cbn [fold_left].
  destruct (replay_line_inv st l Hwf Hacc). apply IH; [done..|]. by apply replay_line_keeps.
Qed.

(** What is appended to finished lines, torn or not, hides none of them. *)
Lemma replay_grown t lines x id : complete t lines -> is_Some (by_id (replay t).2 !! id) -> is_Some (by_id (replay (t +:+ x)).2 !! id).
Proof.
  intros Hc Hid. unfold replay at 1. rewrite (split_lines_app _ _ _ Hc), fold_left_app. rewrite (replay_complete _ _ Hc) in Hid.
  destruct (replay_lines_inv lines (0, index_default)) as [Hwf Hacc]; [exact index_default_wf|by intros ??|]. by apply replay_lines_keep.
Qed.

(** Operations of any gateway but [i], and puts and renewals of its own. *)
Definition growing (i : nat) (op : HostOp) : Prop :=
  op_store op <> i \/ match op with PutSession _ _ _ | RenewSession _ _ _ _ => True | _ => False end.

Lemma run_op_grows h op i s : host_inv h -> growing i op -> stores h !! i = Some s ->
  exists s' x, stores (run_op h op) !! i = Some s' /\ log_path s' = log_path s
    /\ log_text (log_path s) (world (run_op h op)) = log_text (log_path s) (world h) +:+ x.
Proof.
  intros Hinv Hop Hs. destruct (decide (op_store op = i)) as [<-|Hne].
  - destruct Hop as [|Hop]; [done|]. destruct op as [|k session ts|k id t now| |]; try done; cbn [run_op op_store] in *; unfold on_store; rewrite Hs.
    + pose proof (put_path s session ts (world h)) as Hp. destruct (put_grows s session ts (world h)) as [x Hx].
      destruct (put_session s session ts (world h)) as [[r s'] w']. cbn in *. exists s', x. by rewrite lookup_insert_eq.
    + exists (renew_session s id t now).2, "". cbn. rewrite lookup_insert_eq, string_app_nil_r. split; [done|]. split; [apply renew_path|done].
  - destruct (run_op_others h op i s Hinv Hne Hs) as [Hs' Hf]. exists s, "". rewrite string_app_nil_r. split; [done|]. split; [done|].
    unfold log_text. by rewrite Hf.
Qed.

Lemma run_ops_grow h ops i s : host_inv h -> Forall (growing i) ops -> stores h !! i = Some s ->
  exists s' x, stores (run_ops h ops) !! i = Some s' /\ log_path s' = log_path s
    /\ log_text (log_path s) (world (run_ops h ops)) = log_text (log_path s) (world h) +:+ x.
Proof.
  intros Hinv Hops. revert h s Hinv. induction Hops as [|op ops Hop Hops IH]; intros h s Hinv Hs.
  { exists s, "". by rewrite string_app_nil_r. }
  destruct (run_op_grows h op i s Hinv Hop Hs) as (s1 & x1 & Hs1 & Hp1 & Hl1).
  destruct (IH _ s1 (run_op_inv _ op Hinv) Hs1) as (s2 & x2 & Hs2 & Hp2 & Hl2).
  exists s2, (x1 +:+ x2). split; [exact Hs2|]. split; [congruence|]. rewrite <- string_app_assoc, <- Hl1, <- Hp1. exact Hl2.
Qed.
End Growing.


(** ** Three gateways, two of them on one state directory *)

Section witnesses.
#[local] Instance demo_digest_j : Digest := sum_digest.
#[local] Instance demo_base64_j : Base64 := demo_base64.
#[local] Instance demo_log_j : LogCodec := demo_log_codec.

Definition no_files : World := {| files := ∅; faults := [] |}.
Definition demo_opens : list HostOp := [OpenStore 0 "/state"; OpenStore 1 "/other"; OpenStore 2 "/state"].
Definition demo_rivals : list HostOp :=
  [CompactLog 1 120; DropStore 1; PutSession 0 demo_sealed 110; OpenStore 2 "/state"; OpenStore 3 "/other"].

Definition demo_host : Host := run_ops (fresh_host no_files) demo_opens.
Definition demo_after : Host := run_ops (run_op demo_host (PutSession 0 demo_sealed 100)) demo_rivals.

Example second_gateway_refused :
  (JsonlSessionStore_open (locks demo_host) demo_log_path no_files).1 = Err (lock_held ("/state", "sessions.jsonl.lock"))
  /\ stores demo_after !! 2%nat = None.
Proof. vm_compute. split; reflexivity. Qed.

End witnesses.
