(* ===== verification/Metrics.v ===== *)
(** * Counters

    Model of [src/aggregator/metrics.rs]: the five counter families of the service,
    their registration, and what each recording counts.  The [prometheus] crate is
    a parameter; what is shown is what the service must get right about it: the
    registration at start cannot fail, no recording has the wrong number of label
    values, on which the crate panics, and each one counts under its own labels. *)
From S2P Require Import Prelude Receipt.

(** The crate: families of counters, a registry that holds their values, and its
    text format.  [with_label_values] panics, here [None], when the number of
    values is not the number of labels of the family. *)
Class Prometheus (Registry : Type) : Type := {
  PromError : Type;
  IntCounterVec : Type;
  Registry_new : Registry;
  IntCounterVec_new : string -> string -> list string -> result PromError IntCounterVec;
  register : IntCounterVec -> Registry -> result PromError Registry;
  with_label_values_inc : IntCounterVec -> list string -> Registry -> option Registry;
  encode_text : Registry -> result PromError string;
  format_type : string;
}.

(** What [prometheus] renders. *)
Record MetricsSnapshot := { ms_content_type : string; ms_text : string }.

Module Counters.
Section Model.
Context {Registry : Type} `{Prometheus Registry}.

Record ServiceMetrics := {
  registry : Registry;
  requests_total : IntCounterVec;
  upstream_verifications_total : IntCounterVec;
  upstream_responses_total : IntCounterVec;
  receipts_issued_total : IntCounterVec;
  stream_errors_total : IntCounterVec;
}.

Inductive RequestMode := Buffered | Streaming.

Definition RequestMode_as_str (m : RequestMode) : string :=
  match m with Buffered => "buffered" | Streaming => "streaming" end.

Inductive StreamErrorKind := UpstreamNon2xx | UpstreamRead | ReceiptFinalize | StreamE2ee.

Definition StreamErrorKind_as_str (k : StreamErrorKind) : string :=
  match k with
  | UpstreamNon2xx => "upstream_non_2xx"
  | UpstreamRead => "upstream_read"
  | ReceiptFinalize => "receipt_finalize"
  | StreamE2ee => "e2ee"
  end.

Definition bool_label (v : bool) : string := if v then "true" else "false".

Definition status_class (status_code : Z) : string :=
  if (100 <=? status_code) && (status_code <=? 199) then "1xx"
  else if (200 <=? status_code) && (status_code <=? 299) then "2xx"
  else if (300 <=? status_code) && (status_code <=? 399) then "3xx"
  else if (400 <=? status_code) && (status_code <=? 499) then "4xx"
  else if (500 <=? status_code) && (status_code <=? 599) then "5xx"
  else "other".

Definition requests_labels : list string := ["endpoint"; "mode"; "e2ee"].
Definition verifications_labels : list string := ["result"; "required"].
Definition responses_labels : list string := ["endpoint"; "mode"; "status_class"; "model_id"].
Definition receipts_labels : list string := ["endpoint"; "mode"; "model_id"].
Definition stream_errors_labels : list string := ["endpoint"; "kind"].

Definition ServiceMetrics_new : result PromError ServiceMetrics :=
  requests ← IntCounterVec_new "private_ai_gateway_requests_total" "Inference requests accepted by this ACI aggregator." requests_labels;
  verifications ← IntCounterVec_new "private_ai_gateway_upstream_verifications_total"
                    "Upstream verification decisions made before forwarding." verifications_labels;
  responses ← IntCounterVec_new "private_ai_gateway_upstream_responses_total"
                "Upstream response status classes observed by this aggregator." responses_labels;
  receipts ← IntCounterVec_new "private_ai_gateway_receipts_issued_total" "ACI receipts signed and stored by this aggregator." receipts_labels;
  stream_errors ← IntCounterVec_new "private_ai_gateway_stream_errors_total"
                    "Streaming requests that ended before a receipt could be finalized." stream_errors_labels;
  r ← register requests Registry_new;
  r ← register verifications r;
  r ← register responses r;
  r ← register receipts r;
  r ← register stream_errors r;
  mret {| registry := r; requests_total := requests; upstream_verifications_total := verifications; upstream_responses_total := responses;
          receipts_issued_total := receipts; stream_errors_total := stream_errors |}.

Definition render (m : ServiceMetrics) : result PromError MetricsSnapshot :=
  body ← encode_text (registry m); mret {| ms_content_type := format_type; ms_text := body |}.

Definition with_registry (m : ServiceMetrics) (r : Registry) : ServiceMetrics := {|
  registry := r; requests_total := requests_total m; upstream_verifications_total := upstream_verifications_total m;
  upstream_responses_total := upstream_responses_total m; receipts_issued_total := receipts_issued_total m;
  stream_errors_total := stream_errors_total m |}.

(** The clones of a family share their counters with the registry. *)
Definition count (m : ServiceMetrics) (family : IntCounterVec) (values : list string) : option ServiceMetrics :=
  with_registry m <$> with_label_values_inc family values (registry m).

Definition record_request (m : ServiceMetrics) (endpoint : string) (mode : RequestMode) (e2ee_applied : bool) : option ServiceMetrics :=
  count m (requests_total m) [endpoint; RequestMode_as_str mode; bool_label e2ee_applied].

Definition record_upstream_verification (m : ServiceMetrics) (event : UpstreamVerifiedEvent) : option ServiceMetrics :=
  count m (upstream_verifications_total m) [VerificationResult_as_str (uv_result event); bool_label (required event)].

Definition record_upstream_response (m : ServiceMetrics) (endpoint : string) (mode : RequestMode) (status_code : Z) (model_id : option string) :
    option ServiceMetrics :=
  count m (upstream_responses_total m) [endpoint; RequestMode_as_str mode; status_class status_code; default "unknown" model_id].

Definition record_receipt_issued (m : ServiceMetrics) (endpoint : string) (mode : RequestMode) (model_id : option string) : option ServiceMetrics :=
  count m (receipts_issued_total m) [endpoint; RequestMode_as_str mode; default "unknown" model_id].

Definition record_stream_error (m : ServiceMetrics) (endpoint : string) (k : StreamErrorKind) : option ServiceMetrics :=
  count m (stream_errors_total m) [endpoint; StreamErrorKind_as_str k].
End Model.

(** ** What the service relies on, and what is counted *)

(** [^[a-zA-Z_:][a-zA-Z0-9_:]*$] for a name, without the colon for a label. *)
Definition name_char (colon : bool) (c : ascii) : bool :=
  let n := Z.of_nat (nat_of_ascii c) in
  ((65 <=? n) && (n <=? 90)) || ((97 <=? n) && (n <=? 122)) || (n =? 95) || (colon && (n =? 58)).

Definition name_ok (colon : bool) (s : string) : bool :=
  match s with
  | EmptyString => false
  | String c rest =>
      name_char colon c
      && string_forallb (fun d => let n := Z.of_nat (nat_of_ascii d) in name_char colon d || ((48 <=? n) && (n <=? 57))) rest
  end.

(** Documented behaviour of the crate: a family with a good name, a help text and
    distinct good labels can be made; a name can be registered once; as many
    values as labels increment one counter, of 64 bits. *)
Class PrometheusLaws (Registry : Type) `{Prometheus Registry} : Type := {
  vec_name : IntCounterVec -> string;
  vec_labels : IntCounterVec -> list string;
  registered : Registry -> list string;
  value : Registry -> string -> list string -> Z;
  registry_empty : registered Registry_new = [] /\ forall name labels, value Registry_new name labels = 0;
  vec_made name help labels : name_ok true name = true -> help <> "" -> Forall (fun l => name_ok false l = true) labels -> NoDup labels ->
    exists v, IntCounterVec_new name help labels = Ok v /\ vec_name v = name /\ vec_labels v = labels;
  vec_registered v r : vec_name v ∉ registered r ->
    exists r', register v r = Ok r' /\ registered r' = vec_name v :: registered r /\ forall name labels, value r' name labels = value r name labels;
  vec_counted v values r : vec_name v ∈ registered r -> length values = length (vec_labels v) ->
    exists r', with_label_values_inc v values r = Some r' /\ registered r' = registered r
      /\ forall name labels, value r' name labels
           = if bool_decide (name = vec_name v /\ labels = values) then (value r name labels + 1) mod 2 ^ 64 else value r name labels;
}.

(** What the service records. *)
Inductive Recording :=
| RecRequest (endpoint : string) (mode : RequestMode) (e2ee_applied : bool)
| RecVerification (event : UpstreamVerifiedEvent)
| RecResponse (endpoint : string) (mode : RequestMode) (status_code : Z) (model_id : option string)
| RecReceipt (endpoint : string) (mode : RequestMode) (model_id : option string)
| RecStreamError (endpoint : string) (k : StreamErrorKind).

(** The counter a recording is for. *)
Definition counter_of (r : Recording) : string * list string :=
  match r with
  | RecRequest e m x => ("private_ai_gateway_requests_total", [e; RequestMode_as_str m; bool_label x])
  | RecVerification ev => ("private_ai_gateway_upstream_verifications_total",
                           [VerificationResult_as_str (uv_result ev); bool_label (required ev)])
  | RecResponse e m c i => ("private_ai_gateway_upstream_responses_total", [e; RequestMode_as_str m; status_class c; default "unknown" i])
  | RecReceipt e m i => ("private_ai_gateway_receipts_issued_total", [e; RequestMode_as_str m; default "unknown" i])
  | RecStreamError e k => ("private_ai_gateway_stream_errors_total", [e; StreamErrorKind_as_str k])
  end.

Section Properties.
Context {Registry : Type} `{PrometheusLaws Registry}.

Definition record_one (m : ServiceMetrics (Registry := Registry)) (r : Recording) : option ServiceMetrics :=
  match r with
  | RecRequest e mode x => record_request m e mode x
  | RecVerification ev => record_upstream_verification m ev
  | RecResponse e mode c i => record_upstream_response m e mode c i
  | RecReceipt e mode i => record_receipt_issued m e mode i
  | RecStreamError e k => record_stream_error m e k
  end.

Fixpoint record_all (m : ServiceMetrics (Registry := Registry)) (rs : list Recording) : option ServiceMetrics :=
  match rs with
  | [] => Some m
  | r :: rs => m ← record_one m r; record_all m rs
  end.

(** A family is registered under its name with its labels. *)
Definition family_ok (r : Registry) (v : IntCounterVec) (name : string) (labels : list string) : Prop :=
  vec_name v = name /\ vec_labels v = labels /\ name ∈ registered r.

Record metrics_ok (m : ServiceMetrics (Registry := Registry)) : Prop := {
  ok_requests : family_ok (registry m) (requests_total m) "private_ai_gateway_requests_total" requests_labels;
  ok_verifications : family_ok (registry m) (upstream_verifications_total m) "private_ai_gateway_upstream_verifications_total" verifications_labels;
  ok_responses : family_ok (registry m) (upstream_responses_total m) "private_ai_gateway_upstream_responses_total" responses_labels;
  ok_receipts : family_ok (registry m) (receipts_issued_total m) "private_ai_gateway_receipts_issued_total" receipts_labels;
  ok_stream_errors : family_ok (registry m) (stream_errors_total m) "private_ai_gateway_stream_errors_total" stream_errors_labels;
}.

Definition value_of (m : ServiceMetrics (Registry := Registry)) (c : string * list string) : Z := value (registry m) c.1 c.2.

(** The start of the service cannot fail on its counters. *)
Lemma metrics_new_ok : exists m, ServiceMetrics_new = Ok m /\ metrics_ok m /\ forall c, value_of m c = 0.
Proof.
  unfold ServiceMetrics_new. destruct registry_empty as [He Hz].
  assert (Hmade : forall name help labels, name_ok true name && negb (String.eqb help "") && forallb (name_ok false) labels
    && bool_decide (NoDup labels) = true -> exists v, IntCounterVec_new name help labels = Ok v /\ vec_name v = name /\ vec_labels v = labels).
  { intros name help labels Hb. rewrite !andb_true_iff, negb_true_iff, String.eqb_neq, bool_decide_eq_true, forallb_forall in Hb.
    destruct Hb as [[[Hn Hh] Hl] Hd]. apply vec_made; [done|done| |done]. apply Forall_forall. intros l Hin. apply Hl, list_elem_of_In, Hin. }
  do 5 (match goal with |- context [IntCounterVec_new ?n ?h ?ls] => destruct (Hmade n h ls eq_refl) as (? & -> & ? & ?) end; cbn [mbind result_bind]).
  do 5 (match goal with |- context [register ?v ?r] =>
    destruct (vec_registered v r) as (? & -> & ? & ?); [simplify_eq; repeat match goal with E : registered _ = _ |- _ => rewrite E end;
      repeat match goal with E : vec_name _ = _ |- _ => rewrite E end; by apply (bool_decide_unpack _)|] end; cbn [mbind result_bind]).
  eexists. split; [reflexivity|]. split.
  - split; (split; [done|]; split; [done|]); cbn [registry];
      repeat match goal with E : registered _ = _ |- _ => rewrite E end; repeat match goal with E : vec_name _ = _ |- _ => rewrite E end;
      rewrite !elem_of_cons; auto 10.
  - intros c. unfold value_of. cbn [registry]. repeat match goal with E : forall _ _, value _ _ _ = value _ _ _ |- _ => rewrite E; clear E end. apply Hz.
Qed.

Lemma count_ok m v name labels values : metrics_ok m -> family_ok (registry m) v name labels -> length values = length labels ->
  exists m', count m v values = Some m' /\ metrics_ok m'
    /\ forall c, value_of m' c = if bool_decide (c = (name, values)) then (value_of m c + 1) mod 2 ^ 64 else value_of m c.
Proof.
  intros Hm (Hn & Hl & Hin) Hlen. unfold count. destruct (vec_counted v values (registry m)) as (r' & -> & Hr & Hv); [by rewrite Hn|by rewrite Hl|].
  cbn. eexists. split; [done|]. split.
  - destruct Hm as [H1 H2 H3 H4 H5]. unfold family_ok in *. by split; unfold family_ok; cbn; rewrite Hr.
  - intros [n ls]. unfold value_of. cbn. rewrite Hv, Hn. destruct (decide (n = name /\ ls = values)) as [[-> ->]|Hne].
    + by rewrite !bool_decide_eq_true_2.
    + rewrite !bool_decide_eq_false_2; [done|by intros [= -> ->]; destruct Hne|done].
Qed.

Lemma record_one_ok m r : metrics_ok m -> exists m', record_one m r = Some m' /\ metrics_ok m'
  /\ forall c, value_of m' c = if bool_decide (c = counter_of r) then (value_of m c + 1) mod 2 ^ 64 else value_of m c.
Proof.
  intros Hm. destruct r; [pose proof (ok_requests _ Hm) as Hf|pose proof (ok_verifications _ Hm) as Hf|pose proof (ok_responses _ Hm) as Hf
    |pose proof (ok_receipts _ Hm) as Hf|pose proof (ok_stream_errors _ Hm) as Hf]; refine (count_ok m _ _ _ _ Hm Hf _); reflexivity.
Qed.

(** From the start of the service on, whatever is recorded, nothing panics, and
    each counter has the number of recordings with its labels, modulo the width
    of a counter. *)
Lemma metrics_count rs : exists m0 m, ServiceMetrics_new = Ok m0 /\ record_all m0 rs = Some m
  /\ forall c, value_of m c = Z.of_nat (length (List.filter (fun r => bool_decide (c = counter_of r)) rs)) mod 2 ^ 64.
Proof.
  destruct metrics_new_ok as (m0 & Hnew & Hok & Hz).
  assert (Hrun : forall rs m, metrics_ok m -> exists m', record_all m rs = Some m'
    /\ forall c, value_of m' c mod 2 ^ 64 = (value_of m c + Z.of_nat (length (List.filter (fun r => bool_decide (c = counter_of r)) rs))) mod 2 ^ 64
         /\ (value_of m c = value_of m c mod 2 ^ 64 -> value_of m' c = value_of m' c mod 2 ^ 64)).
  { clear rs m0 Hnew Hok Hz. induction rs as [|r rs IH]; intros m Hm; cbn [record_all].
    - exists m. split; [done|]. intros c. cbn. by rewrite Z.add_0_r.
    - destruct (record_one_ok m r Hm) as (m1 & -> & Hm1 & Hv). cbn. destruct (IH m1 Hm1) as (m' & -> & Hv'). exists m'. split; [done|].
      intros c. destruct (Hv' c) as [Hs Hr]. specialize (Hv c). rewrite Hv in Hs, Hr. case_bool_decide; cbn [length]; [|done]. split.
      + rewrite Hs, Zplus_mod_idemp_l. f_equal. lia.
      + intros _. apply Hr. by rewrite Zmod_mod. }
  destruct (Hrun rs m0 Hok) as (m & Hm & Hv). exists m0, m. split; [done|]. split; [done|]. intros c. destruct (Hv c) as [Hs Hr].
  rewrite Hz in Hs, Hr. rewrite Hr by done. exact Hs.
Qed.
End Properties.

(** ** A crate with these laws *)

Definition demo_prometheus : Prometheus (list string * gmap (string * list string) Z) := {|
  PromError := string;
  IntCounterVec := string * list string;
  Registry_new := ([], ∅);
  IntCounterVec_new name help labels := Ok (name, labels);
  register v r := if bool_decide (v.1 ∈ r.1) then Err "AlreadyReg" else Ok (v.1 :: r.1, r.2);
  with_label_values_inc v values r :=
    if bool_decide (length values = length v.2) then Some (r.1, <[(v.1, values) := (default 0 (r.2 !! (v.1, values)) + 1) mod 2 ^ 64]> r.2) else None;
  encode_text _ := Ok "";
  format_type := "text/plain; version=0.0.4" |}.

Definition demo_value (r : list string * gmap (string * list string) Z) (name : string) (labels : list string) : Z :=
  default 0 (r.2 !! (name, labels)).

Definition demo_prometheus_laws : PrometheusLaws _ (H := demo_prometheus).
Proof.
  refine {| vec_name := fst : @IntCounterVec _ demo_prometheus -> string; vec_labels := snd : @IntCounterVec _ demo_prometheus -> list string;
            registered := fst; value := demo_value |}.
  - done.
  - intros name help labels _ _ _ _. by exists (name, labels).
  - intros v r Hv. cbn. rewrite bool_decide_eq_false_2 by done. by eexists.
  - intros v values r _ Hl. cbn. rewrite bool_decide_eq_true_2 by done. eexists. split; [done|]. split; [done|].
    intros name labels. unfold demo_value. cbn. destruct (decide (name = v.1 /\ labels = values)) as [[-> ->]|Hne].
    + by rewrite lookup_insert_eq, bool_decide_eq_true_2.
    + rewrite lookup_insert_ne, bool_decide_eq_false_2; [done|done|]. intros [= <- <-]. by destruct Hne.
Defined.

Lemma metrics_count_demo : exists m0 m, @ServiceMetrics_new _ demo_prometheus = Ok m0
  /\ record_all (H := demo_prometheus) m0 [RecRequest "/v1/chat/completions" Buffered true; RecStreamError "/v1/messages" UpstreamRead] = Some m
  /\ demo_value (registry m) "private_ai_gateway_stream_errors_total" ["/v1/messages"; "upstream_read"] = 1.
Proof.
  destruct (metrics_count (H0 := demo_prometheus_laws) [RecRequest "/v1/chat/completions" Buffered true; RecStreamError "/v1/messages" UpstreamRead])
    as (m0 & m & Hn & Hr & Hv). exists m0, m. split; [done|]. split; [done|].
  exact (Hv ("private_ai_gateway_stream_errors_total", ["/v1/messages"; "upstream_read"])).
Qed.
End Counters.
