(* ===== verification/Float.v ===== *)
(** * Floating point

    [f32] and [f64] as [spec_float] with their precisions, with the operations
    the router uses.  Rounding is to nearest, ties to even, as in IEEE 754. *)
From S2P Require Import Prelude.
From Stdlib Require Export SpecFloat.

Definition f64_div : spec_float -> spec_float -> spec_float := SFdiv 53 1024.
Definition f64_mul : spec_float -> spec_float -> spec_float := SFmul 53 1024.
Definition f32_div : spec_float -> spec_float -> spec_float := SFdiv 24 128.
Definition f32_mul : spec_float -> spec_float -> spec_float := SFmul 24 128.

Definition zero : spec_float := S754_zero false.

(** [n as f64] and [n as f32] for an integer [n]. *)
Definition f64_of_Z (n : Z) : spec_float := binary_normalize 53 1024 n 0 false.
Definition f32_of_Z (n : Z) : spec_float := binary_normalize 24 128 n 0 false.

Definition is_nan (x : spec_float) : bool := match x with S754_nan => true | _ => false end.

(** [f64::max]: the other operand when one is NaN. *)
Definition float_max (x y : spec_float) : spec_float :=
  if is_nan x then y else if is_nan y then x else if SFltb x y then y else x.

(** The integer above a finite value, for [x.ceil()]. *)
Definition ceil_Z (s : bool) (m : positive) (e : Z) : Z :=
  let v := if s then Zneg m else Zpos m in
  if 0 <=? e then v * 2 ^ e else - ((- v) / 2 ^ (- e)).

(** The nearest integer, ties away from zero, for [x.round()]. *)
Definition round_Z (s : bool) (m : positive) (e : Z) : Z :=
  let a := if 0 <=? e then Zpos m * 2 ^ e else (2 * Zpos m + 2 ^ (- e)) / (2 * 2 ^ (- e)) in
  if s then - a else a.

(** [x as u64]: saturating, NaN is zero. *)
Definition saturate_u64 (z : Z) : Z := Z.max 0 (Z.min z u64_max).

Definition to_u64 (round : bool -> positive -> Z -> Z) (x : spec_float) : Z :=
  match x with
  | S754_zero _ | S754_nan => 0
  | S754_infinity s => if s then 0 else u64_max
  | S754_finite s m e => saturate_u64 (round s m e)
  end.

(** [x.ceil() as u64] and [x.round() as u64]; [ceil] and [round] are exact. *)
Definition ceil_as_u64 : spec_float -> Z := to_u64 ceil_Z.
Definition round_as_u64 : spec_float -> Z := to_u64 round_Z.

Lemma to_u64_range round x : is_u64 (to_u64 round x).
Proof.
  unfold to_u64, saturate_u64, is_u64, u64_max. destruct x; try lia. destruct s; lia.
Qed.

(** [x as i64]: towards zero, saturating, NaN is zero. *)
Definition trunc_Z (s : bool) (m : positive) (e : Z) : Z :=
  let a := if 0 <=? e then Zpos m * 2 ^ e else Zpos m / 2 ^ (- e) in if s then - a else a.

Definition trunc_as_i64 (x : spec_float) : Z :=
  match x with
  | S754_zero _ | S754_nan => 0
  | S754_infinity s => if s then i64_min else i64_max
  | S754_finite s m e => Z.max i64_min (Z.min (trunc_Z s m e) i64_max)
  end.

Lemma trunc_as_i64_range x : i64_min <= trunc_as_i64 x <= i64_max.
Proof. unfold trunc_as_i64, i64_min, i64_max. destruct x as [|[]| |]; lia. Qed.

(** ** [str::parse::<f64>] *)

(** The value [m * 10^k] rounded once. *)
Definition round_decimal (s : bool) (m : Z) (k : Z) : spec_float :=
  match m with
  | Zpos p =>
      if 0 <=? k then
        match Zpos p * 10 ^ k with
        | Zpos q => binary_round 53 1024 s q 0
        | _ => S754_zero s
        end
      else
        match 10 ^ (- k) with
        | Zpos d =>
            let '(mz, ez, lz) := SFdiv_core_binary 53 1024 (Zpos p) 0 (Zpos d) 0 in
            binary_round_aux 53 1024 s mz ez lz
        | _ => S754_nan
        end
  | _ => S754_zero s
  end.

Definition digit (a : ascii) : option Z :=
  let n := Z.of_N (N_of_ascii a) in if (48 <=? n) && (n <=? 57) then Some (n - 48) else None.

(** The leading digits: their value appended to [acc], their number, the rest. *)
Fixpoint take_digits (acc count : Z) (s : string) : Z * Z * string :=
  match s with
  | String a s' =>
      match digit a with
      | Some d => take_digits (10 * acc + d) (count + 1) s'
      | None => (acc, count, s)
      end
  | EmptyString => (acc, count, s)
  end.

(** The exponent part, to the end of the text. *)
Definition parse_exponent (s : string) : option Z :=
  match s with
  | EmptyString => Some 0
  | String c s' =>
      if Ascii.eqb c "e" || Ascii.eqb c "E" then
        let '(neg, ds) := match s' with
                          | String "-" r => (true, r)
                          | String "+" r => (false, r)
                          | _ => (false, s')
                          end in
        let '(v, n, rest) := take_digits 0 0 ds in
        if (n =? 0) || negb (String.eqb rest "") then None
        else Some (if neg : bool then - v else v)
      else None
  end.

Definition parse_unsigned (neg : bool) (s : string) : option spec_float :=
  let l := to_ascii_lowercase s in
  if String.eqb l "inf" || String.eqb l "infinity" then Some (S754_infinity neg)
  else if String.eqb l "nan" then Some S754_nan
  else
    let '(i, ni, r) := take_digits 0 0 s in
    let '(m, nf, r) := match r with
                       | String "." r' => take_digits i 0 r'
                       | _ => (i, 0, r)
                       end in
    if ni + nf =? 0 then None
    else match parse_exponent r with
         | Some e => Some (round_decimal neg m (e - nf))
         | None => None
         end.

Definition parse_f64 (s : string) : option spec_float :=
  match s with
  | String "-" r => parse_unsigned true r
  | String "+" r => parse_unsigned false r
  | _ => parse_unsigned false s
  end.

Example parse_f64_examples :
  parse_f64 "0.30" = Some (S754_finite false 5404319552844595 (-54)) /\
  parse_f64 "1e3" = Some (f64_of_Z 1000) /\ parse_f64 "-2.5" = Some (S754_finite true 5629499534213120 (-51)) /\
  parse_f64 "." = None /\ parse_f64 "1x" = None /\ parse_f64 "NaN" = Some S754_nan /\
  ceil_as_u64 (S754_finite false 5 (-1)) = 3 /\ round_as_u64 (S754_finite false 5 (-1)) = 3.
Proof. vm_compute. repeat split. Qed.
