(* ===== verification/Router.v ===== *)
(** * The cache-aware router

    Model of [src/middleware/router.rs] with its configuration and types
    ([src/middleware/config.rs], [src/middleware/types.rs]): route pressure,
    selection, history, the in-flight guards and status.
    Instants are nanoseconds of a monotonic clock. *)
From S2P Require Import Prelude Json Float.

Definition MAX_ROUTING_HISTORY_CHARS : nat := Z.to_nat 16384.
Definition UPSTREAM_STATUS_GREEN : Z := 0.
Definition UPSTREAM_STATUS_YELLOW : Z := 1.
Definition UPSTREAM_STATUS_RED : Z := 2.

(** The API a client calls ([src/middleware/request_transform.rs]). *)
Inductive Endpoint := ChatComplete | Complete | Embed | Messages | CreateModelResponse.

Inductive ProviderFormat := FmtOpenai | FmtAnthropic.
Inductive Engine := Sglang | Vllm.

Record RouteCandidate := { rc_route_id : string; format : ProviderFormat; engine : option Engine }.

Record RouterRoute := { route_id : string; rt_upstream_name : string; candidate : RouteCandidate }.

Record RouteStats := {
  running : Z;
  processed : Z;
  selected_by_cache : Z;
  selected_by_load : Z;
  selected_by_order : Z;
}.

Definition RouteStats_default : RouteStats :=
  {| running := 0; processed := 0; selected_by_cache := 0; selected_by_load := 0; selected_by_order := 0 |}.

Record UpstreamMetrics := {
  ok : bool;
  error : option string;
  updated_at : option Z;
  observed_running : option spec_float;
  observed_waiting : option spec_float;
  global_limit : option spec_float;
  basic_limit : option spec_float;
  basic_inflight : option spec_float;
  premium_inflight : option spec_float;
}.

Record RouterState := {
  stats : gmap string RouteStats;
  history : gmap string (gmap string (list string));
  upstream_metrics : gmap string UpstreamMetrics;
}.

Definition RouterState_default : RouterState := {| stats := ∅; history := ∅; upstream_metrics := ∅ |}.

Record MiddlewareConfig := {
  public_model_name : option string;
  cache_threshold : spec_float;
  balance_abs_threshold : Z;
  balance_rel_threshold : spec_float;
  max_history_per_route : Z;
  metrics_poll_ms : Z;
  metrics_timeout_ms : Z;
  metrics_stale_ms : Z;
  metrics_path : string;
  trusted_user_tier_header : bool;
  default_engine : option Engine;
  sse_keepalive_ms : option Z;
}.

Definition MiddlewareConfig_default : MiddlewareConfig := {|
  public_model_name := None;
  cache_threshold := S754_finite false 10066330 (-25);
  balance_abs_threshold := 64;
  balance_rel_threshold := S754_finite false 12582912 (-23);
  max_history_per_route := 256;
  metrics_poll_ms := 1000;
  metrics_timeout_ms := 800;
  metrics_stale_ms := 3000;
  metrics_path := "/v1/metrics";
  trusted_user_tier_header := false;
  default_engine := None;
  sse_keepalive_ms := None;
|}.

Inductive UserTier := Basic | Premium.

Definition UserTier_from_header (value : option string) : UserTier :=
  match option_map (fun v => to_ascii_lowercase (str_trim v)) value with
  | Some v => if String.eqb v "premium" then Premium else Basic
  | None => Basic
  end.

Record RoutePressure := {
  blocked : bool;
  metrics_missing : bool;
  waiting : Z;
  fullness_milli : Z;
  effective_running : Z;
  rp_processed : Z;
}.

Record RouteSelection := {
  sel_route_id : string;
  sel_reason : string;
  cache_match_rate : spec_float;
  running_at_select : Z;
}.

(** ** Metrics and pressure *)

Definition is_stale (m : UpstreamMetrics) (config : MiddlewareConfig) (now : Z) : bool :=
  match updated_at m with
  | None => true
  | Some t => metrics_stale_ms config * 1000000 <? Z.max 0 (now - t)
  end.

Definition ratio_milli (value : spec_float) (limit : option spec_float) : Z :=
  match limit with
  | None => 0
  | Some limit =>
      if SFleb limit zero then 0
      else round_as_u64 (float_max (f64_mul (f64_div value limit) (f64_of_Z 1000)) zero)
  end.

Definition or_zero (o : option spec_float) : spec_float :=
  float_max (match o with Some x => x | None => zero end) zero.

Definition stats_of (s : RouterState) (rid : string) : RouteStats :=
  match stats s !! rid with Some st => st | None => RouteStats_default end.

(** The pressure of a route without usable metrics. *)
Definition local_pressure (st : RouteStats) : RoutePressure :=
  {| blocked := false; metrics_missing := true; waiting := 0; fullness_milli := 0;
     effective_running := running st; rp_processed := processed st |}.

Definition route_pressure (s : RouterState) (now : Z) (route : RouterRoute) (config : MiddlewareConfig)
    (tier : UserTier) : RoutePressure :=
  let st := stats_of s (route_id route) in
  let local_running := running st in
  match upstream_metrics s !! rt_upstream_name route with
  | None => local_pressure st
  | Some metrics =>
      if is_stale metrics config now || negb (ok metrics) then local_pressure st
      else
        let observed_running := or_zero (observed_running metrics) in
        let observed_waiting := or_zero (observed_waiting metrics) in
        let global_fullness := ratio_milli observed_running (global_limit metrics) in
        let tier_fullness :=
          match tier with
          | Premium => global_fullness
          | Basic => Z.max global_fullness
                       (ratio_milli (or_zero (basic_inflight metrics)) (basic_limit metrics))
          end in
        {| blocked := SFltb zero observed_waiting || (1000 <=? tier_fullness);
           metrics_missing := false;
           waiting := ceil_as_u64 observed_waiting;
           fullness_milli := tier_fullness;
           effective_running := Z.max local_running (ceil_as_u64 observed_running);
           rp_processed := processed st |}
  end.

(** [RouteOrderKey], compared as a tuple. *)
Definition RouteOrderKey : Type := (Z * (Z * (Z * (Z * (Z * (Z * string))))))%type.

Definition route_order_key (s : RouterState) (now : Z) (route : RouterRoute) (config : MiddlewareConfig)
    (tier : UserTier) : RouteOrderKey :=
  let p := route_pressure s now route config tier in
  (Z.b2z (blocked p), (Z.b2z (metrics_missing p), (waiting p, (fullness_milli p,
   (effective_running p, (rp_processed p, route_id route)))))).

Definition key_compare : RouteOrderKey -> RouteOrderKey -> comparison :=
  pair_compare Z.compare (pair_compare Z.compare (pair_compare Z.compare (pair_compare Z.compare
    (pair_compare Z.compare (pair_compare Z.compare str_compare))))).

(** [Iterator::min_by]: the first of the minimal elements. *)
Fixpoint min_by {A} (cmp : A -> A -> comparison) (best : A) (l : list A) : A :=
  match l with
  | [] => best
  | x :: l' => min_by cmp (match cmp best x with Gt => x | _ => best end) l'
  end.

Definition least_loaded (s : RouterState) (now : Z) (routes : list RouterRoute) (config : MiddlewareConfig)
    (tier : UserTier) : option RouterRoute :=
  match routes with
  | [] => None
  | r :: rs => Some (min_by (fun a b => key_compare (route_order_key s now a config tier)
                                                     (route_order_key s now b config tier)) r rs)
  end.

Definition route_status_code (s : RouterState) (now : Z) (route : RouterRoute) (config : MiddlewareConfig)
    (tier : UserTier) : Z :=
  let pressure := route_pressure s now route config tier in
  if blocked pressure || (0 <? waiting pressure) || (1000 <=? fullness_milli pressure)
  then UPSTREAM_STATUS_RED
  else if metrics_missing pressure || (850 <=? fullness_milli pressure) then UPSTREAM_STATUS_YELLOW
  else
    match upstream_metrics s !! rt_upstream_name route with
    | None => UPSTREAM_STATUS_YELLOW
    | Some metrics =>
        let known o := match o with Some limit => SFltb zero limit | None => false end in
        let global_limit_known := known (global_limit metrics) in
        let tier_limit_known := match tier with Premium => true | Basic => known (basic_limit metrics) end in
        if negb global_limit_known || negb tier_limit_known then UPSTREAM_STATUS_YELLOW
        else UPSTREAM_STATUS_GREEN
    end.

(** The loop over the routes, [saw_yellow] so far. *)
Fixpoint status_loop (s : RouterState) (now : Z) (routes : list RouterRoute) (config : MiddlewareConfig)
    (tier : UserTier) (saw_yellow : bool) : Z :=
  match routes with
  | [] => if saw_yellow then UPSTREAM_STATUS_YELLOW else UPSTREAM_STATUS_RED
  | r :: rs =>
      let code := route_status_code s now r config tier in
      if code =? UPSTREAM_STATUS_GREEN then UPSTREAM_STATUS_GREEN
      else if code =? UPSTREAM_STATUS_YELLOW then status_loop s now rs config tier true
      else status_loop s now rs config tier saw_yellow
  end.

Definition upstream_status_code (s : RouterState) (now : Z) (routes : list RouterRoute)
    (config : MiddlewareConfig) (tier : UserTier) : Z :=
  match routes with [] => UPSTREAM_STATUS_RED | _ => status_loop s now routes config tier false end.

(** ** History *)

(** Text with a budget of characters. *)
Record BoundedText := { out : string; remaining : nat }.

Definition bounded_new (max_chars : nat) : BoundedText := {| out := ""; remaining := max_chars |}.

Definition is_full (b : BoundedText) : bool := Nat.eqb (remaining b) 0.

Definition push (text : string) (b : BoundedText) : BoundedText :=
  if Nat.eqb (remaining b) 0 || String.eqb text "" then b
  else
    let cs := take (remaining b) (chars text) in
    {| out := out b +:+ of_chars cs; remaining := remaining b - length cs |}.

Definition separator (text : string) (b : BoundedText) : BoundedText :=
  if String.eqb (out b) "" then b else push text b.

Definition finish (b : BoundedText) : string := out b.

Definition limit_chars (text : string) (max_chars : nat) : string :=
  finish (push text (bounded_new max_chars)).

Fixpoint common_prefix {A} `{EqDecision A} (a b : list A) : nat :=
  match a, b with
  | x :: a', y :: b' => if decide (x = y) then S (common_prefix a' b') else O
  | _, _ => O
  end.

Definition common_prefix_chars (a b : string) : Z := Z.of_nat (common_prefix (chars a) (chars b)).

Definition samples_of (s : RouterState) (model rid : string) : list string :=
  match history s !! model with
  | Some by_route => match by_route !! rid with Some l => l | None => [] end
  | None => []
  end.

Definition set_samples (s : RouterState) (model rid : string) (l : list string) : RouterState :=
  {| stats := stats s;
     history := <[model := <[rid := l]> (default ∅ (history s !! model))]> (history s);
     upstream_metrics := upstream_metrics s |}.

Definition record_history (s : RouterState) (model rid text : string) (max_samples : Z) : RouterState :=
  if String.eqb text "" || (max_samples =? 0) then s
  else
    let text := limit_chars text MAX_ROUTING_HISTORY_CHARS in
    let samples := samples_of s model rid ++ [text] in
    let samples := if max_samples <? Z.of_nat (length samples)
                   then drop (Z.to_nat (Z.of_nat (length samples) - max_samples)) samples else samples in
    set_samples s model rid samples.

(** ** Selection *)

Definition ensure_stats (m : gmap string RouteStats) (rid : string) : gmap string RouteStats :=
  match m !! rid with Some _ => m | None => <[rid := RouteStats_default]> m end.

(** The entries created for every candidate route. *)
Definition ensure_entries (model : string) (s : RouterState) (route : RouterRoute) : RouterState :=
  {| stats := ensure_stats (stats s) (route_id route);
     history := <[model := let by_route := default ∅ (history s !! model) in
                           match by_route !! route_id route with
                           | Some _ => by_route
                           | None => <[route_id route := []]> by_route
                           end]> (history s);
     upstream_metrics := upstream_metrics s |}.

(** [(a as f32) > (b as f32 * rel)] *)
Definition exceeds_rel (a b : Z) (rel : spec_float) : bool :=
  SFltb (f32_mul (f32_of_Z b) rel) (f32_of_Z a).

Definition cache_route_is_acceptable (s : RouterState) (now : Z) (cache_route least_route : RouterRoute)
    (config : MiddlewareConfig) (tier : UserTier) : bool :=
  let cache := route_pressure s now cache_route config tier in
  let least := route_pressure s now least_route config tier in
  if blocked cache && negb (blocked least) then false
  else if metrics_missing cache && negb (metrics_missing least) then false
  else if (0 <? waiting cache) && (waiting least =? 0) then false
  else if u64_saturating_add (fullness_milli least) 250 <? fullness_milli cache then false
  else
    let gap := u64_saturating_sub (effective_running cache) (effective_running least) in
    if (balance_abs_threshold config <? gap) &&
       exceeds_rel (effective_running cache) (effective_running least) (balance_rel_threshold config)
    then false else true.

Definition max_prefix (samples : list string) (text : string) : Z :=
  fold_left (fun acc sample => Z.max acc (common_prefix_chars sample text)) samples 0.

Definition match_rate (s : RouterState) (model text : string) (route : RouterRoute) : spec_float :=
  let input_chars := Z.max (Z.of_nat (length (chars text))) 1 in
  f32_div (f32_of_Z (max_prefix (samples_of s model (route_id route)) text)) (f32_of_Z input_chars).

(** One candidate against the best one so far. *)
Definition better_match (s : RouterState) (now : Z) (model text : string) (config : MiddlewareConfig)
    (tier : UserTier) (best : option (RouterRoute * spec_float * RouteOrderKey)) (route : RouterRoute) :
    option (RouterRoute * spec_float * RouteOrderKey) :=
  let rate := match_rate s model text route in
  let key := route_order_key s now route config tier in
  match best with
  | None => Some (route, rate, key)
  | Some (_, best_rate, best_key) =>
      if SFltb best_rate rate ||
         (SFeqb rate best_rate && match key_compare key best_key with Lt => true | _ => false end)
      then Some (route, rate, key) else best
  end.

Definition select_cache_aware (s : RouterState) (now : Z) (model text : string) (routes : list RouterRoute)
    (config : MiddlewareConfig) (tier : UserTier) : option RouteSelection :=
  match fold_left (better_match s now model text config tier) routes None with
  | None => None
  | Some (cache_route, rate, _) =>
      match least_loaded s now routes config tier with
      | None => None
      | Some least =>
          if SFltb (cache_threshold config) rate && cache_route_is_acceptable s now cache_route least config tier
          then Some {| sel_route_id := route_id cache_route; sel_reason := "cache"; cache_match_rate := rate;
                       running_at_select := effective_running (route_pressure s now cache_route config tier) |}
          else Some {| sel_route_id := route_id least; sel_reason := "least_running"; cache_match_rate := rate;
                       running_at_select := effective_running (route_pressure s now least config tier) |}
      end
  end.

(** The smallest and the largest load, [usize::MAX] when there is none. *)
Definition load_range (s : RouterState) (now : Z) (routes : list RouterRoute) (config : MiddlewareConfig)
    (tier : UserTier) : Z * Z :=
  fold_left (fun '(mn, mx) route =>
      let load := effective_running (route_pressure s now route config tier) in (Z.min mn load, Z.max mx load))
    routes (u64_max, 0).

Definition is_imbalanced (s : RouterState) (now : Z) (routes : list RouterRoute) (config : MiddlewareConfig)
    (tier : UserTier) : bool :=
  let '(min_load, max_load) := load_range s now routes config tier in
  let min_load := if min_load =? u64_max then 0 else min_load in
  (balance_abs_threshold config <? u64_saturating_sub max_load min_load) &&
  exceeds_rel max_load min_load (balance_rel_threshold config).

(** The choice among several routes. *)
Definition select_among (s : RouterState) (now : Z) (model text : string) (routes : list RouterRoute)
    (config : MiddlewareConfig) (tier : UserTier) : option RouteSelection :=
  let imbalanced := is_imbalanced s now routes config tier in
  if imbalanced || String.eqb text "" then
    option_map (fun route =>
      {| sel_route_id := route_id route;
         sel_reason := if imbalanced then "load_imbalance" else "no_text";
         cache_match_rate := zero;
         running_at_select := effective_running (route_pressure s now route config tier) |})
      (least_loaded s now routes config tier)
  else select_cache_aware s now model text routes config tier.

Definition select (s : RouterState) (now : Z) (model text : string) (routes : list RouterRoute)
    (config : MiddlewareConfig) (tier : UserTier) : option RouteSelection * RouterState :=
  match routes with
  | [] => (None, s)
  | first :: rest =>
      let s := fold_left (ensure_entries model) routes s in
      match rest with
      | [] =>
          let rid := route_id first in
          let running_at_select := running (stats_of s rid) in
          let s' := record_history s model rid text (max_history_per_route config) in
          (Some {| sel_route_id := rid; sel_reason := "single"; cache_match_rate := zero;
                   running_at_select := running_at_select |}, s')
      | _ =>
          match select_among s now model text routes config tier with
          | None => (None, s)
          | Some sel => (Some sel, record_history s model (sel_route_id sel) text (max_history_per_route config))
          end
      end
  end.

(** ** In-flight accounting *)

Definition set_stats (s : RouterState) (rid : string) (st : RouteStats) : RouterState :=
  {| stats := <[rid := st]> (stats s); history := history s; upstream_metrics := upstream_metrics s |}.

Definition with_running (st : RouteStats) (n : Z) : RouteStats :=
  {| running := n; processed := processed st; selected_by_cache := selected_by_cache st;
     selected_by_load := selected_by_load st; selected_by_order := selected_by_order st |}.

Definition mark_started (s : RouterState) (selection : RouteSelection) : RouterState :=
  let st := stats_of s (sel_route_id selection) in
  let st := {| running := u64_add (running st) 1; processed := u64_add (processed st) 1;
               selected_by_cache := selected_by_cache st; selected_by_load := selected_by_load st;
               selected_by_order := selected_by_order st |} in
  let st :=
    if String.eqb (sel_reason selection) "cache" then
      {| running := running st; processed := processed st;
         selected_by_cache := u64_add (selected_by_cache st) 1; selected_by_load := selected_by_load st;
         selected_by_order := selected_by_order st |}
    else if String.eqb (sel_reason selection) "single" then
      {| running := running st; processed := processed st; selected_by_cache := selected_by_cache st;
         selected_by_load := selected_by_load st; selected_by_order := u64_add (selected_by_order st) 1 |}
    else
      {| running := running st; processed := processed st; selected_by_cache := selected_by_cache st;
         selected_by_load := u64_add (selected_by_load st) 1; selected_by_order := selected_by_order st |} in
  set_stats s (sel_route_id selection) st.

Definition decrement_running (s : RouterState) (rid : string) : RouterState :=
  match stats s !! rid with
  | Some st => set_stats s rid (with_running st (u64_saturating_sub (running st) 1))
  | None => s
  end.

(** A guard holds the route it counts on, [None] once dropped. *)
Record RouteInFlight := { guard_route_id : option string }.

Definition in_flight_start (s : RouterState) (selection : RouteSelection) : RouteInFlight * RouterState :=
  ({| guard_route_id := Some (sel_route_id selection) |}, mark_started s selection).

Definition retarget (s : RouterState) (guard : RouteInFlight) (rid : string) : RouteInFlight * RouterState :=
  if decide (guard_route_id guard = Some rid) then (guard, s)
  else
    let s := match guard_route_id guard with Some previous => decrement_running s previous | None => s end in
    let st := stats_of s rid in
    ({| guard_route_id := Some rid |}, set_stats s rid (with_running st (u64_add (running st) 1))).

Definition in_flight_drop (s : RouterState) (guard : RouteInFlight) : RouteInFlight * RouterState :=
  match guard_route_id guard with
  | Some rid => ({| guard_route_id := None |}, decrement_running s rid)
  | None => (guard, s)
  end.

(** ** Lemmas on selection *)

#[export] Instance key_compare_total : CmpTotal key_compare.
Proof. unfold key_compare. apply _. Qed.

Lemma min_by_spec {A} (cmp : A -> A -> comparison) `{!CmpOrder cmp} best l :
  min_by cmp best l ∈ best :: l /\ Forall (cmp_le cmp (min_by cmp best l)) (best :: l).
Proof.
  revert best. induction l as [|x l IH]; intros best; cbn [min_by].
  - split; [by left|]. constructor; [unfold cmp_le; by rewrite (cmp_refl cmp)|constructor].
  - set (b := match cmp best x with Gt => x | _ => best end).
    assert (Hb : (b = best \/ b = x) /\ cmp_le cmp b best /\ cmp_le cmp b x).
    { unfold b. destruct (cmp best x) eqn:E; (split; [by auto|]); unfold cmp_le.
      - by rewrite (cmp_refl cmp), E.
      - by rewrite (cmp_refl cmp), E.
      - rewrite (cmp_refl cmp). by rewrite (cmp_sym cmp best x), E. }
    destruct Hb as (Hbx & Hle1 & Hle2). destruct (IH b) as [Hin HF]. split.
    + apply elem_of_cons in Hin as [->|Hin]; [|by do 2 right]. destruct Hbx as [->| ->]; [by left|by right; left].
    + apply Forall_cons in HF as [Hmb HF]. constructor; [by trans b|]. constructor; [by trans b|done].
Qed.

Lemma key_le_blocked k1 k2 : cmp_le key_compare k1 k2 -> k1.1 <= k2.1.
Proof.
  unfold cmp_le, key_compare, pair_compare at 1, then_with.
  destruct (Z.compare_spec k1.1 k2.1); [lia|lia|done].
Qed.

Section pressure.
Context (now : Z) (config : MiddlewareConfig) (tier : UserTier).

Definition pressure (s : RouterState) (r : RouterRoute) : RoutePressure := route_pressure s now r config tier.

(** States that agree on what the pressure of every route depends on. *)
Definition same_pressure (s s' : RouterState) : Prop :=
  upstream_metrics s = upstream_metrics s' /\ forall rid, stats_of s rid = stats_of s' rid.

Lemma same_pressure_eq s s' r : same_pressure s s' -> pressure s r = pressure s' r.
Proof. intros [Hm Hst]. unfold pressure, route_pressure. by rewrite Hm, Hst. Qed.

Lemma ensure_entries_pressure model s r : same_pressure (ensure_entries model s r) s.
Proof.
  split; [done|]. intros rid. unfold stats_of, ensure_entries, ensure_stats. cbn.
  destruct (stats s !! route_id r) eqn:E; [done|].
  destruct (decide (rid = route_id r)) as [->|Hne].
  - by rewrite lookup_insert_eq, E.
  - by rewrite lookup_insert_ne.
Qed.

Lemma ensure_all_pressure model routes s : same_pressure (fold_left (ensure_entries model) routes s) s.
Proof.
  revert s. induction routes as [|r rs IH]; intros s; cbn; [done|].
  destruct (IH (ensure_entries model s r)) as [Hm Hst], (ensure_entries_pressure model s r) as [Hm' Hst'].
  split; [by rewrite Hm|]. intros rid. by rewrite Hst.
Qed.

Lemma least_loaded_spec s routes least :
  least_loaded s now routes config tier = Some least ->
  least ∈ routes /\
  Forall (fun r => cmp_le key_compare (route_order_key s now least config tier)
                     (route_order_key s now r config tier)) routes.
Proof.
  destruct routes as [|r rs]; [done|]. cbn. intros [= <-].
  apply (min_by_spec (cmp_on (fun r => route_order_key s now r config tier) key_compare) r rs).
Qed.

Lemma least_loaded_blocked s routes least :
  least_loaded s now routes config tier = Some least ->
  blocked (pressure s least) = true -> Forall (fun r => blocked (pressure s r) = true) routes.
Proof.
  intros [Hin HF]%least_loaded_spec Hb. eapply Forall_impl; [exact HF|]. cbn. intros r Hle%key_le_blocked.
  cbn in Hle. fold (pressure s least) (pressure s r) in Hle. rewrite Hb in Hle.
  by destruct (blocked (pressure s r)).
Qed.

Lemma better_match_in s model text (routes : list RouterRoute) best :
  match best with Some (r, _, _) => r ∈ routes | None => True end ->
  forall rs : list RouterRoute, (forall r, r ∈ rs -> r ∈ routes) ->
  match fold_left (better_match s now model text config tier) rs best with
  | Some (r, _, _) => r ∈ routes
  | None => best = None /\ rs = []
  end.
Proof.
  intros Hbest rs. revert best Hbest. induction rs as [|r rs IH]; intros best Hbest Hrs; cbn.
  - by destruct best as [[[]]|].
  - set (best' := better_match s now model text config tier best r).
    assert (Hb' : match best' with Some (r, _, _) => r ∈ routes | None => False end).
    { unfold best', better_match. destruct best as [[[rb qb] kb]|].
      - destruct (_ || _); [apply Hrs; by left|done].
      - apply Hrs. by left. }
    specialize (IH best'). destruct best' as [[[rb qb] kb]|]; [|done].
    specialize (IH Hb' ltac:(set_solver)). destruct (fold_left _ _ _) as [[[]]|]; [done|].
    by destruct IH.
Qed.

Lemma acceptable_blocked s cache least :
  cache_route_is_acceptable s now cache least config tier = true ->
  blocked (pressure s cache) = true -> blocked (pressure s least) = true.
Proof.
  unfold cache_route_is_acceptable. fold (pressure s cache) (pressure s least).
  intros H Hb. rewrite Hb in H. by destruct (blocked (pressure s least)).
Qed.
End pressure.

Lemma select_cache_aware_safe s now model text routes config tier :
  routes <> [] ->
  exists sel r, select_cache_aware s now model text routes config tier = Some sel /\ r ∈ routes /\
    sel_route_id sel = route_id r /\
    (blocked (pressure now config tier s r) = true ->
     Forall (fun r => blocked (pressure now config tier s r) = true) routes).
Proof.
  intros Hne. unfold select_cache_aware.
  pose proof (better_match_in now config tier s model text routes None I routes ltac:(auto)) as Hb.
  destruct (fold_left _ _ _) as [[[cache rate] key]|]; [|by destruct Hb as [_ ->]].
  destruct (least_loaded s now routes config tier) as [least|] eqn:Hl; [|by destruct routes].
  destruct (SFltb _ _ && _) eqn:Hacc.
  - eexists _, cache. split; [done|]. split; [done|]. split; [done|]. intros Hblk.
    apply andb_true_iff in Hacc as [_ Hacc]. apply (least_loaded_blocked _ _ _ _ _ _ Hl).
    by eapply acceptable_blocked.
  - eexists _, least. split; [done|]. split; [by apply least_loaded_spec in Hl as [? _]|]. split; [done|].
    by apply least_loaded_blocked.
Qed.

Lemma select_picks s now model text routes config tier :
  routes <> [] ->
  exists sel s' r, select s now model text routes config tier = (Some sel, s') /\ r ∈ routes /\
    sel_route_id sel = route_id r /\
    (blocked (route_pressure s now r config tier) = true ->
     Forall (fun r' => blocked (route_pressure s now r' config tier) = true) routes).
Proof.
  intros Hne. destruct routes as [|first rest]; [done|]. unfold select.
  pose proof (ensure_all_pressure model (first :: rest) s) as Hsame.
  set (s1 := fold_left (ensure_entries model) (first :: rest) s) in *.
  assert (Hp : forall r, route_pressure s now r config tier = pressure now config tier s1 r)
    by (intros r; by rewrite (same_pressure_eq now config tier _ _ r Hsame)).
  destruct rest as [|second rest].
  { eexists _, _, first. split; [done|]. split; [by left|]. split; [done|]. intros Hb. repeat constructor. done. }
  set (routes := first :: second :: rest) in *.
  assert (Hsel : exists sel r, select_among s1 now model text routes config tier = Some sel /\ r ∈ routes /\
    sel_route_id sel = route_id r /\
    (blocked (pressure now config tier s1 r) = true ->
     Forall (fun r => blocked (pressure now config tier s1 r) = true) routes)).
  { unfold select_among. cbn zeta. destruct (_ || _); [|by apply select_cache_aware_safe].
    destruct (least_loaded s1 now routes config tier) as [least|] eqn:Hl; [|done].
    eexists _, least. split; [done|]. split; [by apply least_loaded_spec in Hl as [? _]|]. split; [done|].
    by apply least_loaded_blocked. }
  destruct Hsel as (sel & r & -> & Hr & Hid & Hblk). eexists sel, _, r. split; [done|]. split; [done|].
  split; [done|]. rewrite Hp. intros Hb%Hblk. eapply Forall_impl; [exact Hb|]. intros r' Hr'. by rewrite Hp.
Qed.

(** ** Properties *)

(** The router always picks a route when there is one, and never a blocked
    upstream (one with a queue, or full for the tier) while some candidate is
    not blocked, neither for the prompt cache nor under imbalance. *)
Theorem select_avoids_blocked s now model text routes config tier :
  routes <> [] ->
  exists sel s' r, select s now model text routes config tier = (Some sel, s') /\ r ∈ routes /\
    sel_route_id sel = route_id r /\
    (blocked (route_pressure s now r config tier) = true ->
     Forall (fun r' => blocked (route_pressure s now r' config tier) = true) routes).
Proof. apply select_picks. Qed.

(** ** In-flight accounting *)

(** Guards on a route. *)
Definition guards_on (rid : string) (gs : list RouteInFlight) : Z :=
  Z.of_nat (length (filter (fun g => guard_route_id g = Some rid) gs)).

(** What happens to the router state and the live guards. *)
Inductive flight_step : RouterState * list RouteInFlight -> RouterState * list RouteInFlight -> Prop :=
| flight_select s gs now model text routes config tier :
    flight_step (s, gs) ((select s now model text routes config tier).2, gs)
| flight_start s gs sel :
    flight_step (s, gs) ((in_flight_start s sel).2, gs ++ [(in_flight_start s sel).1])
| flight_retarget s gs i g rid :
    gs !! i = Some g ->
    flight_step (s, gs) ((retarget s g rid).2, <[i := (retarget s g rid).1]> gs)
| flight_drop s gs i g :
    gs !! i = Some g -> flight_step (s, gs) ((in_flight_drop s g).2, <[i := (in_flight_drop s g).1]> gs)
| flight_metrics s gs m :
    flight_step (s, gs) ({| stats := stats s; history := history s; upstream_metrics := m |}, gs).

Lemma stats_of_set s rid st x :
  stats_of (set_stats s rid st) x = if decide (x = rid) then st else stats_of s x.
Proof.
  unfold stats_of, set_stats. cbn. case_decide as H; [subst; by rewrite lookup_insert_eq|].
  by rewrite lookup_insert_ne.
Qed.

Lemma decrement_stats s rid x :
  running (stats_of (decrement_running s rid) x)
  = if decide (x = rid) then u64_saturating_sub (running (stats_of s rid)) 1 else running (stats_of s x).
Proof.
  unfold decrement_running. destruct (stats s !! rid) as [st|] eqn:E.
  - rewrite stats_of_set. case_decide; [|done]. cbn. unfold stats_of. by rewrite E.
  - case_decide as Hx; [|done]. subst x. unfold stats_of. rewrite E. done.
Qed.

Lemma record_history_stats s model rid text n : stats (record_history s model rid text n) = stats s.
Proof. unfold record_history. by destruct (_ || _). Qed.

Lemma select_stats s now model text routes config tier rid :
  stats_of (select s now model text routes config tier).2 rid = stats_of s rid.
Proof.
  unfold select. destruct routes as [|first rest]; [done|].
  destruct (ensure_all_pressure model (first :: rest) s) as [_ Hst]. rewrite <- Hst.
  set (s1 := fold_left _ _ _). unfold stats_of.
  destruct rest; cbn [snd]; [by rewrite record_history_stats|].
  destruct (select_among _ _ _ _ _ _ _); cbn [snd]; [by rewrite record_history_stats|done].
Qed.

Lemma guards_on_app rid gs (g : RouteInFlight) :
  guards_on rid (gs ++ [g]) = guards_on rid gs + (if decide (guard_route_id g = Some rid) then 1 else 0).
Proof.
  unfold guards_on. rewrite filter_app, length_app, filter_cons, filter_nil.
  repeat case_decide; cbn [length]; try congruence; lia.
Qed.

Lemma guards_on_insert rid gs i (g g' : RouteInFlight) :
  gs !! i = Some g ->
  guards_on rid (<[i := g']> gs) = guards_on rid gs - (if decide (guard_route_id g = Some rid) then 1 else 0)
                                   + (if decide (guard_route_id g' = Some rid) then 1 else 0).
Proof.
  intros Hi. unfold guards_on. rewrite <- (take_drop_middle gs i g Hi) at 2.
  rewrite insert_take_drop by (by eapply lookup_lt_Some).
  rewrite !filter_app, !length_app, !filter_cons. repeat case_decide; cbn [length]; try congruence; lia.
Qed.

Lemma guards_on_bound rid gs : 0 <= guards_on rid gs <= Z.of_nat (length gs).
Proof. unfold guards_on. pose proof (length_filter (fun g : RouteInFlight => guard_route_id g = Some rid) gs). lia. Qed.

Lemma guards_on_pos rid gs i g : gs !! i = Some g -> guard_route_id g = Some rid -> 0 < guards_on rid gs.
Proof.
  intros Hi Hg. pose proof (guards_on_insert rid gs i _ {| guard_route_id := None |} Hi) as H.
  rewrite decide_True, decide_False in H by done.
  pose proof (guards_on_bound rid (<[i := {| guard_route_id := None |}]> gs)). lia.
Qed.

Definition counts (st : RouterState * list RouteInFlight) : Prop :=
  forall rid, running (stats_of st.1 rid) = guards_on rid st.2.

(** The counters once the guard at [i] gave up its route. *)
Definition released (g : RouteInFlight) (s : RouterState) : RouterState :=
  match guard_route_id g with Some previous => decrement_running s previous | None => s end.

Lemma counts_released s gs i g :
  counts (s, gs) -> gs !! i = Some g ->
  forall x, running (stats_of (released g s) x)
            = guards_on x gs - (if decide (guard_route_id g = Some x) then 1 else 0).
Proof.
  intros Hc Hi x. pose proof (Hc x) as Hx. cbn in Hx. unfold released.
  destruct (guard_route_id g) as [rid|] eqn:Hg; [|rewrite decide_False by done; lia].
  rewrite decrement_stats. pose proof (guards_on_pos _ _ _ _ Hi Hg). pose proof (Hc rid) as Hr. cbn in Hr.
  destruct (decide (x = rid)) as [->|Hne].
  - rewrite decide_True by done. unfold u64_saturating_sub. lia.
  - rewrite decide_False by congruence. lia.
Qed.

Lemma counts_start s gs sel :
  counts (s, gs) -> Z.of_nat (S (length gs)) <= u64_max ->
  counts (mark_started s sel, gs ++ [{| guard_route_id := Some (sel_route_id sel) |}]).
Proof.
  intros Hc Hmax rid. cbn. unfold mark_started. rewrite stats_of_set, guards_on_app. cbn [guard_route_id].
  pose proof (Hc rid) as Hr. cbn in Hr. pose proof (guards_on_bound rid gs) as Hb.
  destruct (decide (rid = sel_route_id sel)) as [->|Hne]; [|rewrite decide_False by congruence; lia].
  rewrite decide_True by done.
  assert (E : u64_add (running (stats_of s (sel_route_id sel))) 1 = guards_on (sel_route_id sel) gs + 1)
    by (rewrite u64_add_small; unfold is_u64; lia).
  destruct (String.eqb _ _); [done|]. by destruct (String.eqb _ _).
Qed.

Lemma counts_retarget s gs i g rid :
  counts (s, gs) -> gs !! i = Some g -> guard_route_id g <> Some rid -> Z.of_nat (length gs) <= u64_max ->
  counts (set_stats (released g s) rid
            (with_running (stats_of (released g s) rid) (u64_add (running (stats_of (released g s) rid)) 1)),
          <[i := {| guard_route_id := Some rid |}]> gs).
Proof.
  intros Hc Hi Hg Hmax x. cbn [fst snd]. rewrite (guards_on_insert x gs i g _ Hi), stats_of_set. cbn [guard_route_id].
  pose proof (counts_released s gs i g Hc Hi x) as Hx.
  destruct (decide (x = rid)) as [->|Hne]; [|rewrite (decide_False (P := Some rid = Some x)) by congruence; lia].
  rewrite (decide_True (P := Some rid = Some rid)) by done. cbn [running with_running].
  rewrite decide_False in Hx |- * by done.
  assert (Hlt : guards_on rid gs < Z.of_nat (length gs)).
  { pose proof (guards_on_insert rid gs i g {| guard_route_id := Some rid |} Hi) as E. cbn [guard_route_id] in E.
    rewrite decide_False, decide_True in E by done.
    pose proof (guards_on_bound rid (<[i := {| guard_route_id := Some rid |}]> gs)) as Hb.
    rewrite length_insert in Hb. lia. }
  pose proof (guards_on_bound rid gs). rewrite u64_add_small; unfold is_u64; lia.
Qed.

Lemma flight_step_counts st st' :
  flight_step st st' -> Z.of_nat (length st'.2) <= u64_max -> counts st ->
  counts st' /\ (length st.2 <= length st'.2 <= S (length st.2))%nat.
Proof.
  intros Hstep Hmax Hc. destruct Hstep as [s gs|s gs sel|s gs i g rid Hi|s gs i g Hi|s gs m];
    cbn [fst snd] in *.
  - split; [|lia]. intros rid. cbn. rewrite select_stats. apply Hc.
  - rewrite length_app in *. cbn in *. split; [|lia]. apply counts_start; [done|lia].
  - rewrite length_insert in *. split; [|lia]. unfold retarget. case_decide as Hg; cbn [fst snd].
    + by rewrite list_insert_id.
    + by apply counts_retarget.
  - rewrite length_insert in *. split; [|lia]. intros x. cbn [fst snd].
    pose proof (counts_released s gs i g Hc Hi x) as Hx. unfold released in Hx. unfold in_flight_drop.
    destruct (guard_route_id g) as [prev|] eqn:Hg; cbn [fst snd].
    + rewrite (guards_on_insert x gs i g _ Hi), Hg, Hx. cbn [guard_route_id].
      rewrite (decide_False (P := None = Some x)) by done. lia.
    + rewrite (list_insert_id _ _ _ Hi). exact (Hc x).
  - split; [|lia]. exact Hc.
Qed.

(** The in-flight counters are exact: in any interleaving of selections,
    starts, failover retargets, drops and metrics updates, every route's
    [running] is the number of live guards on it, so no request leaks a slot or
    releases one twice. *)
Theorem in_flight_exact n s gs rid :
  nsteps flight_step n (RouterState_default, []) (s, gs) -> Z.of_nat n <= u64_max ->
  running (stats_of s rid) = guards_on rid gs.
Proof.
  intros Hsteps Hn.
  assert (Hinv : counts (s, gs) /\ (length gs <= n)%nat); [|by destruct Hinv as [Hc _]; apply Hc].
  assert (Hgen : forall n st0 st, nsteps flight_step n st0 st ->
    forall k, counts st0 -> (length st0.2 <= k)%nat -> Z.of_nat (k + n) <= u64_max ->
    counts st /\ (length st.2 <= k + n)%nat).
  { clear. intros n st0 st Hs. induction Hs as [st|n x y z Hxy _ IH]; intros k Hc Hk Hmax; [split; [done|lia]|].
    assert (Hlen : (length y.2 <= S (length x.2))%nat).
    { destruct Hxy; cbn; rewrite ?length_app, ?length_insert; cbn; lia. }
    destruct (flight_step_counts x y Hxy) as [Hy _]; [lia|done|].
    destruct (IH (S k) Hy) as [??]; [lia|lia|]. split; [done|lia]. }
  apply (Hgen n _ _ Hsteps 0%nat); [|done|lia]. intros x. done.
Qed.

(** ** History *)

Lemma samples_of_set s m r l m' r' :
  samples_of (set_samples s m r l) m' r' = if decide (m' = m /\ r' = r) then l else samples_of s m' r'.
Proof.
  unfold samples_of, set_samples. cbn. destruct (decide (m' = m)) as [->|Hm].
  - rewrite lookup_insert_eq. destruct (decide (r' = r)) as [->|Hr].
    + by rewrite lookup_insert_eq, decide_True.
    + rewrite lookup_insert_ne, decide_False by naive_solver.
      destruct (history s !! m); cbn; [done|]. by rewrite lookup_empty.
  - rewrite lookup_insert_ne, decide_False by naive_solver. done.
Qed.

Lemma ensure_entries_samples model s r m x : samples_of (ensure_entries model s r) m x = samples_of s m x.
Proof.
  unfold samples_of, ensure_entries. cbn. destruct (decide (m = model)) as [->|Hm];
    [rewrite lookup_insert_eq|by rewrite lookup_insert_ne].
  destruct (history s !! model) as [by_route|]; cbn.
  - destruct (by_route !! route_id r) eqn:E; [done|].
    destruct (decide (x = route_id r)) as [->|Hne]; [by rewrite lookup_insert_eq, E|by rewrite lookup_insert_ne].
  - rewrite lookup_empty. destruct (decide (x = route_id r)) as [->|Hne];
      [by rewrite lookup_insert_eq|by rewrite lookup_insert_ne, lookup_empty].
Qed.

Lemma ensure_all_samples model routes s m x :
  samples_of (fold_left (ensure_entries model) routes s) m x = samples_of s m x.
Proof.
  revert s. induction routes as [|r rs IH]; intros s; cbn; [done|]. by rewrite IH, ensure_entries_samples.
Qed.

Lemma chars_nil s : valid_utf8 s -> chars s = [] -> s = "".
Proof. intros Hv E. by rewrite <- (of_chars_chars s Hv), E. Qed.

Lemma limit_chars_spec text n : valid_utf8 text -> chars (limit_chars text n) = take n (chars text).
Proof.
  intros Hv. unfold limit_chars, push, bounded_new, finish. cbn.
  destruct (Nat.eqb_spec n 0) as [->|Hn]; cbn; [by rewrite take_0|].
  destruct (String.eqb_spec text "") as [->|Ht]; cbn; [by rewrite take_nil|].
  apply chars_of_chars. apply Forall_take. by apply chars_scalar.
Qed.

(** Bounded samples on every route. *)
Definition history_ok (config : MiddlewareConfig) (s : RouterState) : Prop :=
  forall model rid,
    Z.of_nat (length (samples_of s model rid)) <= max_history_per_route config /\
    Forall (fun t => (length (chars t) <= MAX_ROUTING_HISTORY_CHARS)%nat) (samples_of s model rid).

Lemma record_history_samples s model rid text n m x :
  samples_of (record_history s model rid text n) m x =
  if String.eqb text "" || (n =? 0) then samples_of s m x
  else if decide (m = model /\ x = rid) then
    let l := samples_of s model rid ++ [limit_chars text MAX_ROUTING_HISTORY_CHARS] in
    drop (Z.to_nat (Z.of_nat (length l) - n)) l
  else samples_of s m x.
Proof.
  unfold record_history. destruct (_ || _); [done|]. cbn zeta. rewrite samples_of_set.
  case_decide; [|done]. set (l := _ ++ _). destruct (Z.ltb_spec n (Z.of_nat (length l))); [done|].
  assert (E : Z.to_nat (Z.of_nat (length l) - n) = 0%nat) by lia. by rewrite E.
Qed.

Lemma record_history_ok config s model rid text :
  valid_utf8 text -> 0 <= max_history_per_route config -> history_ok config s ->
  history_ok config (record_history s model rid text (max_history_per_route config)).
Proof.
  intros Hv Hmax Hok m x. rewrite record_history_samples. destruct (_ || _); [apply Hok|].
  case_decide as Hmx; [|apply Hok]. destruct Hmx as [-> ->]. cbn zeta. split.
  - rewrite length_drop. lia.
  - apply Forall_drop, Forall_app. split; [apply Hok|]. constructor; [|constructor].
    rewrite limit_chars_spec, length_take by done. lia.
Qed.

(** The state [select] leaves, when it selects. *)
Lemma select_record s now model text routes config tier sel s' :
  select s now model text routes config tier = (Some sel, s') ->
  s' = record_history (fold_left (ensure_entries model) routes s) model (sel_route_id sel) text
         (max_history_per_route config).
Proof.
  unfold select. destruct routes as [|first rest]; [done|]. set (s1 := fold_left _ _ _).
  destruct rest; [by intros [= <- <-]|].
  destruct (select_among _ _ _ _ _ _ _) as [sel'|]; [by intros [= <- <-]|done].
Qed.

(** The routing history stays bounded and truthful: a selection keeps every
    route at no more than the configured number of samples of at most 16384
    characters, records the request's text (cut to that length) as the newest
    sample of the selected route, and leaves every other route's samples as
    they were. *)
Theorem select_history_bounded s now model text routes config tier sel s' :
  valid_utf8 text -> text <> "" -> 0 < max_history_per_route config -> history_ok config s ->
  select s now model text routes config tier = (Some sel, s') ->
  history_ok config s' /\
  last (samples_of s' model (sel_route_id sel)) = Some (limit_chars text MAX_ROUTING_HISTORY_CHARS) /\
  (forall m x, (m, x) <> (model, sel_route_id sel) -> samples_of s' m x = samples_of s m x).
Proof.
  intros Hv Ht Hmax Hok ->%select_record.
  assert (Hok1 : history_ok config (fold_left (ensure_entries model) routes s)).
  { intros m x. rewrite ensure_all_samples. apply Hok. }
  assert (Hne : String.eqb text "" || (max_history_per_route config =? 0) = false).
  { destruct (String.eqb_spec text ""); [done|]. cbn. destruct (Z.eqb_spec (max_history_per_route config) 0); [lia|done]. }
  split_and!.
  - by apply record_history_ok; [|lia|].
  - rewrite record_history_samples, Hne, decide_True by done. cbn zeta.
    set (l := samples_of _ _ _). rewrite drop_app, length_app. cbn [length].
    set (k := Z.to_nat _). assert (E : (k - length l)%nat = 0%nat) by lia.
    by rewrite E, drop_0, last_snoc.
  - intros m x Hmx. rewrite record_history_samples, Hne, decide_False by naive_solver.
    apply ensure_all_samples.
Qed.

(** ** Witnesses *)

Definition demo_route (id upstream : string) : RouterRoute :=
  {| route_id := id; rt_upstream_name := upstream;
     candidate := {| rc_route_id := id; format := FmtOpenai; engine := None |} |}.

Definition demo_metrics (waiting : Z) : UpstreamMetrics :=
  {| ok := true; error := None; updated_at := Some 0; observed_running := Some (f64_of_Z 1);
     observed_waiting := Some (f64_of_Z waiting); global_limit := Some (f64_of_Z 8);
     basic_limit := None; basic_inflight := None; premium_inflight := None |}.

Definition demo_routes : list RouterRoute := [demo_route "a" "up-a"; demo_route "b" "up-b"].

(** Upstream [up-a] has a queue, and the history of its route matches the request. *)
Definition demo_state : RouterState :=
  {| stats := ∅; history := {[ "m" := {[ "a" := ["hello"] ]} ]};
     upstream_metrics := {[ "up-a" := demo_metrics 3; "up-b" := demo_metrics 0 ]} |}.

Lemma select_avoids_blocked_witness :
  blocked (route_pressure demo_state 0 (demo_route "a" "up-a") MiddlewareConfig_default Basic) = true /\
  option_map sel_route_id (select demo_state 0 "m" "hello" demo_routes MiddlewareConfig_default Basic).1 = Some "b" /\
  exists sel s' r, select demo_state 0 "m" "hello" demo_routes MiddlewareConfig_default Basic = (Some sel, s') /\
    r ∈ demo_routes /\ sel_route_id sel = route_id r /\
    (blocked (route_pressure demo_state 0 r MiddlewareConfig_default Basic) = true ->
     Forall (fun r' => blocked (route_pressure demo_state 0 r' MiddlewareConfig_default Basic) = true) demo_routes).
Proof.
  split; [vm_compute; reflexivity|]. split; [vm_compute; reflexivity|].
  apply (select_avoids_blocked demo_state 0 "m" "hello" demo_routes MiddlewareConfig_default Basic). discriminate.
Defined.

Definition demo_selection : RouteSelection :=
  {| sel_route_id := "a"; sel_reason := "single"; cache_match_rate := zero; running_at_select := 0 |}.

Definition demo_flight : RouterState * RouteInFlight :=
  let '(g, s) := in_flight_start RouterState_default demo_selection in
  let '(g, s) := retarget s g "b" in (s, g).

(** One request that failed over from route [a] to route [b]. *)
Lemma in_flight_exact_witness :
  running (stats_of demo_flight.1 "b") = 1 /\
  running (stats_of demo_flight.1 "b") = guards_on "b" [demo_flight.2].
Proof.
  split; [vm_compute; reflexivity|].
  apply (in_flight_exact 2 demo_flight.1 [demo_flight.2] "b"); [|unfold u64_max; lia].
  eapply nsteps_l; [apply (flight_start RouterState_default [] demo_selection)|].
  eapply nsteps_l; [apply (flight_retarget _ _ 0 {| guard_route_id := Some "a" |} "b"); reflexivity|].
  apply nsteps_O.
Defined.

Lemma select_history_bounded_witness :
  exists sel s', select RouterState_default 0 "m" "hello" demo_routes MiddlewareConfig_default Basic = (Some sel, s') /\
    samples_of s' "m" (sel_route_id sel) = ["hello"] /\ history_ok MiddlewareConfig_default s'.
Proof.
  destruct (select RouterState_default 0 "m" "hello" demo_routes MiddlewareConfig_default Basic) as [[sel|] s'] eqn:E.
  2: { vm_compute in E. discriminate. }
  exists sel, s'. split; [reflexivity|]. split.
  - vm_compute in E. injection E as <- <-. vm_compute. reflexivity.
  - apply (select_history_bounded RouterState_default 0 "m" "hello" demo_routes MiddlewareConfig_default Basic sel s').
    + apply valid_utf8b_sound. reflexivity.
    + discriminate.
    + reflexivity.
    + intros m x. split; [discriminate|constructor].
    + exact E.
Defined.
