(* ===== verification/Upstream.v ===== *)
(** * Upstream backends

    Model of [src/aci/upstream/mod.rs] (requests, errors, the backend trait with
    its default methods), [openai.rs] (the plain forwarder and its channel
    binding check), [tls.rs] (the pinning certificate verifier) and [router.rs]
    (the model router).  The HTTP client is a parameter: what it is built from
    and what it is asked to send are modelled, its answers are not.  A streamed
    body is the list of its chunks. *)
From S2P Require Import Prelude Json Serde Canonical Receipt.

Record UpstreamRequest := {
  req_body : string;
  req_headers : gmap string string;
  req_path : option string;
  target_route_id : option string;
}.

Record PreparedUpstreamRequest := {
  p_request : UpstreamRequest;
  p_upstream_name : string;
  p_url_origin : option string;
  p_model_id : string;
  p_route_id : option string;
  p_is_tee : option bool;
}.

Record UpstreamResponse := {
  status_code : Z;
  resp_body : string;
  resp_headers : gmap string string;
  served_instance_id : option string;
}.

Inductive UpstreamError :=
| Routing (message : string)
| Transport (message : string)
| ChannelBindingMismatch (message : string)
| Upstream (status : Z) (body : string).

Record UpstreamStreamResponse := {
  s_status_code : Z;
  s_headers : gmap string string;
  s_body : list (result UpstreamError string);
  s_served_instance_id : option string;
}.

(** [{:?}] of a string, which error messages quote names with: a parameter, as
    it escapes by Unicode's tables of printable characters. *)
Class StrDebug : Type := debug_str : string -> string.

(** ** The HTTP client *)

(** What a client is built from: the pinned digests, when it pins, and the timeouts. *)
Record ClientSpec := {
  accepted_pins : option (gset string * gset string);
  connect_timeout : Z;
  read_timeout : Z;
}.

Inductive Method := GET | POST.

Record HttpRequest := {
  method : Method;
  url : string;
  http_headers : list (string * string);
  http_body : string;
}.

(** Header values that are not visible ASCII have no string form. *)
Record HttpResponse := {
  http_status : Z;
  http_resp_headers : list (string * option string);
  http_chunks : list (result string string);
}.

Class HttpClient : Type := {
  build_client : ClientSpec -> result string unit;
  send : ClientSpec -> HttpRequest -> result string HttpResponse;
}.

(** The later of two headers with one name wins. *)
Definition response_headers (resp : HttpResponse) : gmap string string :=
  fold_left (fun acc kv => match kv.2 with Some v => <[kv.1 := v]> acc | None => acc end)
    (http_resp_headers resp) ∅.

(** [Response::bytes]: the whole body or the first failure. *)
Fixpoint read_all (chunks : list (result string string)) : result string string :=
  match chunks with
  | [] => Ok ""
  | Ok c :: cs => match read_all cs with Ok rest => Ok (c +:+ rest) | Err e => Err e end
  | Err e :: _ => Err e
  end.

(** ** Certificate pinning *)

Section Pinning.
Context `{Digest}.
(** The DER subject public key info of a certificate, from [x509_parser]. *)
Context (parse_spki : string -> option string).

Inductive CertError := ApplicationVerificationFailure | BadEncoding.

Definition verify_server_cert (accepted accepted_certificates : gset string) (end_entity : string) :
    result CertError unit :=
  if bool_decide (accepted = ∅) && bool_decide (accepted_certificates = ∅)
  then Err ApplicationVerificationFailure
  else
    let certificate_matches := bool_decide (hex_encode (sha256 end_entity) ∈ accepted_certificates) in
    match parse_spki end_entity with
    | None => Err BadEncoding
    | Some spki =>
        let spki_matches := bool_decide (hex_encode (sha256 spki) ∈ accepted) in
        if certificate_matches || spki_matches then Ok tt else Err ApplicationVerificationFailure
    end.
End Pinning.

Definition pinned_spki_client `{HttpClient} (accepted_spkis accepted_certificates : list string)
    (connect read : Z) : result UpstreamError ClientSpec :=
  let spec := {| accepted_pins := Some (list_to_set accepted_spkis, list_to_set accepted_certificates);
                 connect_timeout := connect; read_timeout := read |} in
  map_err Transport (build_client spec) ≫= fun _ => Ok spec.

(** ** The backend trait *)

Record UpstreamBackend := {
  be_name : string;
  be_url_origin : option string;
  be_forward : UpstreamRequest -> result UpstreamError UpstreamResponse;
  be_forward_verified_prepared :
    PreparedUpstreamRequest -> UpstreamVerifiedEvent -> result UpstreamError UpstreamResponse;
  be_forward_stream : UpstreamRequest -> result UpstreamError UpstreamStreamResponse;
  be_forward_stream_verified_prepared :
    PreparedUpstreamRequest -> UpstreamVerifiedEvent -> result UpstreamError UpstreamStreamResponse;
  be_models : result UpstreamError UpstreamResponse;
  be_chutes_attestation_report : string -> result UpstreamError Value;
}.

Definition cannot_enforce (name : string) : UpstreamError :=
  Transport ("backend " +:+ name +:+ " cannot enforce upstream channel bindings").

(** The default methods of the trait, over a backend's name and [forward]. *)
Section Defaults.
Context (name : string) (forward : UpstreamRequest -> result UpstreamError UpstreamResponse).
Context (forward_stream : UpstreamRequest -> result UpstreamError UpstreamStreamResponse).

Definition default_forward_verified_prepared (req : PreparedUpstreamRequest) (event : UpstreamVerifiedEvent) :
    result UpstreamError UpstreamResponse :=
  match channel_bindings event with
  | [] => forward (p_request req)
  | _ => Err (cannot_enforce name)
  end.

Definition default_forward_stream (req : UpstreamRequest) : result UpstreamError UpstreamStreamResponse :=
  forward req ≫= fun response =>
  Ok {| s_status_code := status_code response; s_headers := resp_headers response;
        s_body := [Ok (resp_body response)]; s_served_instance_id := served_instance_id response |}.

Definition default_forward_stream_verified_prepared (req : PreparedUpstreamRequest)
    (event : UpstreamVerifiedEvent) : result UpstreamError UpstreamStreamResponse :=
  match channel_bindings event with
  | [] => forward_stream (p_request req)
  | _ => Err (cannot_enforce name)
  end.

Definition default_models : result UpstreamError UpstreamResponse :=
  Err (Transport "upstream backend does not implement /v1/models").

Definition default_chutes_attestation_report (model : string) : result UpstreamError Value :=
  Err (Routing ("backend " +:+ name +:+ " does not produce a chutes attestation report")).
End Defaults.

(** ** Request bodies *)

Section Bodies.
Context `{SerdeJson}.

Definition request_model_id (body : string) : option string :=
  if String.eqb body "" then None
  else match from_slice body with
       | Ok parsed => match get parsed "model" with Some m => as_str m | None => None end
       | Err _ => None
       end.

Definition no_string_model : UpstreamError := Routing "request body must contain a string model field".

Definition rewrite_request_model (body upstream_model_id : string) : result UpstreamError string :=
  map_err (fun e => Routing ("invalid JSON request body: " +:+ e)) (from_slice body) ≫= fun parsed =>
  match parsed with
  | Obj obj =>
      match map_get "model" obj with
      | Some (Str _) =>
          map_err Routing (to_vec (Obj (map_insert "model" (Str upstream_model_id) obj)))
      | _ => Err no_string_model
      end
  | _ => Err (Routing "request body must be a JSON object")
  end.

Definition default_prepare (b : UpstreamBackend) (req : UpstreamRequest) :
    result UpstreamError PreparedUpstreamRequest :=
  Ok {| p_request := req; p_upstream_name := be_name b; p_url_origin := be_url_origin b;
        p_model_id := default "" (request_model_id (req_body req)); p_route_id := None; p_is_tee := None |}.
End Bodies.

(** ** The OpenAI-compatible backend *)

Module OpenAI.
Definition ANTHROPIC_VERSION : string := "2023-06-01".

Inductive UpstreamAuth := Bearer (token : string) | AnthropicApiKey (key : string).

Record OpenAICompatibleBackend := {
  name : string;
  base_url : string;
  path : string;
  auth : option UpstreamAuth;
  client : ClientSpec;
}.

(** [while base.ends_with('/') { base.pop(); }] *)
Fixpoint drop_slashes (l : list ascii) : list ascii :=
  match l with
  | c :: l' => if Ascii.eqb c "/" then drop_slashes l' else l
  | [] => []
  end.

Definition trim_end_slashes (s : string) : string :=
  String.string_of_list_ascii (rev (drop_slashes (rev (String.list_ascii_of_string s)))).

Definition starts_with_slash (s : string) : bool :=
  match s with String c _ => Ascii.eqb c "/" | EmptyString => false end.

Section Client.
Context `{HttpClient} `{StrDebug}.

Definition new_with_timeouts (url : string) (connect read : Z) : result UpstreamError OpenAICompatibleBackend :=
  let spec := {| accepted_pins := None; connect_timeout := connect; read_timeout := read |} in
  map_err Transport (build_client spec) ≫= fun _ =>
  Ok {| name := "openai-compatible"; base_url := trim_end_slashes url; path := "/v1/chat/completions";
        auth := None; client := spec |}.

Definition with_name (n : string) (b : OpenAICompatibleBackend) : OpenAICompatibleBackend :=
  {| name := n; base_url := base_url b; path := path b; auth := auth b; client := client b |}.

Definition with_path (p : string) (b : OpenAICompatibleBackend) : OpenAICompatibleBackend :=
  {| name := name b; base_url := base_url b; path := if starts_with_slash p then p else "/" +:+ p;
     auth := auth b; client := client b |}.

Definition with_auth (a : UpstreamAuth) (b : OpenAICompatibleBackend) : OpenAICompatibleBackend :=
  {| name := name b; base_url := base_url b; path := path b; auth := Some a; client := client b |}.

Definition with_bearer_token (token : string) : OpenAICompatibleBackend -> OpenAICompatibleBackend :=
  with_auth (Bearer token).

Definition with_anthropic_api_key (key : string) : OpenAICompatibleBackend -> OpenAICompatibleBackend :=
  with_auth (AnthropicApiKey key).

Definition apply_auth (b : OpenAICompatibleBackend) (headers : list (string * string)) : list (string * string) :=
  match auth b with
  | Some (Bearer token) => headers ++ [("authorization", "Bearer " +:+ token)]
  | Some (AnthropicApiKey key) => headers ++ [("x-api-key", key); ("anthropic-version", ANTHROPIC_VERSION)]
  | None => headers
  end.

Definition request_builder (b : OpenAICompatibleBackend) (req : UpstreamRequest) (accept : string) : HttpRequest :=
  {| method := POST;
     url := base_url b +:+ default (path b) (req_path req);
     http_headers := apply_auth b ([("content-type", "application/json"); ("accept", accept)]
                                   ++ map_to_list (req_headers req));
     http_body := req_body req |}.

Definition get_builder (b : OpenAICompatibleBackend) (p accept : string) : HttpRequest :=
  {| method := GET; url := base_url b +:+ p; http_headers := apply_auth b [("accept", accept)]; http_body := "" |}.

(** Sending and reading the whole answer. *)
Definition exchange (c : ClientSpec) (r : HttpRequest) : result UpstreamError UpstreamResponse :=
  map_err Transport (send c r) ≫= fun resp =>
  map_err Transport (read_all (http_chunks resp)) ≫= fun body =>
  Ok {| status_code := http_status resp; resp_body := body; resp_headers := response_headers resp;
        served_instance_id := None |}.

(** Sending and handing on the chunks as they come. *)
Definition exchange_stream (c : ClientSpec) (r : HttpRequest) : result UpstreamError UpstreamStreamResponse :=
  map_err Transport (send c r) ≫= fun resp =>
  Ok {| s_status_code := http_status resp; s_headers := response_headers resp;
        s_body := map (map_err Transport) (http_chunks resp); s_served_instance_id := None |}.

(** The pins of a verified event, or the reason they cannot be enforced. *)
Fixpoint collect_bindings (b : OpenAICompatibleBackend) (bindings : list ChannelBinding)
    (spkis certs : list string) : result UpstreamError (list string * list string) :=
  match bindings with
  | [] => Ok (spkis, certs)
  | TlsSpkiSha256 origin spki_sha256 :: rest =>
      if String.eqb origin (base_url b) then collect_bindings b rest (spkis ++ [spki_sha256]) certs
      else Err (Transport ("verified TLS SPKI binding origin " +:+ debug_str origin +:+
                           " does not match upstream " +:+ debug_str (base_url b)))
  | TlsCertificateSha256 origin certificate_sha256 :: rest =>
      if String.eqb origin (base_url b) then collect_bindings b rest spkis (certs ++ [certificate_sha256])
      else Err (Transport ("verified TLS certificate binding origin " +:+ debug_str origin +:+
                           " does not match upstream " +:+ debug_str (base_url b)))
  | E2eePublicKeySha256 provider _ algorithm _ :: _ =>
      Err (Transport ("backend " +:+ name b +:+ " cannot enforce " +:+ provider +:+ " E2EE binding "
                      +:+ debug_str algorithm))
  end.

Definition client_for_event (b : OpenAICompatibleBackend) (event : UpstreamVerifiedEvent) :
    result UpstreamError ClientSpec :=
  match channel_bindings event with
  | [] => Ok (client b)
  | bindings =>
      collect_bindings b bindings [] [] ≫= fun '(spkis, certs) =>
      if negb (String.prefix "https://" (base_url b))
      then Err (Transport "TLS channel binding requires an https upstream")
      else pinned_spki_client spkis certs (connect_timeout (client b)) (read_timeout (client b))
  end.

Definition forward (b : OpenAICompatibleBackend) (req : UpstreamRequest) : result UpstreamError UpstreamResponse :=
  exchange (client b) (request_builder b req "application/json").

Definition forward_stream (b : OpenAICompatibleBackend) (req : UpstreamRequest) :
    result UpstreamError UpstreamStreamResponse :=
  exchange_stream (client b) (request_builder b req "text/event-stream").

Definition models (b : OpenAICompatibleBackend) : result UpstreamError UpstreamResponse :=
  exchange (client b) (get_builder b "/v1/models" "application/json").

Definition forward_verified_prepared (b : OpenAICompatibleBackend) (req : PreparedUpstreamRequest)
    (event : UpstreamVerifiedEvent) : result UpstreamError UpstreamResponse :=
  client_for_event b event ≫= fun c => exchange c (request_builder b (p_request req) "application/json").

Definition forward_stream_verified_prepared (b : OpenAICompatibleBackend) (req : PreparedUpstreamRequest)
    (event : UpstreamVerifiedEvent) : result UpstreamError UpstreamStreamResponse :=
  client_for_event b event ≫= fun c => exchange_stream c (request_builder b (p_request req) "text/event-stream").

(** The trait object. *)
Definition backend (b : OpenAICompatibleBackend) : UpstreamBackend := {|
  be_name := name b;
  be_url_origin := Some (base_url b);
  be_forward := forward b;
  be_forward_verified_prepared := forward_verified_prepared b;
  be_forward_stream := forward_stream b;
  be_forward_stream_verified_prepared := forward_stream_verified_prepared b;
  be_models := models b;
  be_chutes_attestation_report := default_chutes_attestation_report (name b);
|}.
End Client.
End OpenAI.

(** ** The model router *)

Record ModelRoute := {
  public_model_id : string;
  upstream_model_id : string;
  upstream : UpstreamBackend;
  mr_route_id : string;
  mr_path : option string;
  is_tee : option bool;
}.

Definition ModelRoute_new (public_model_id upstream_model_id : string) (upstream : UpstreamBackend)
    (route_id : string) : result UpstreamError ModelRoute :=
  if is_blank public_model_id then Err (Routing "public model id must not be empty")
  else if is_blank upstream_model_id then Err (Routing "upstream model id must not be empty")
  else if is_blank route_id then Err (Routing "route id must not be empty")
  else Ok {| public_model_id := public_model_id; upstream_model_id := upstream_model_id; upstream := upstream;
             mr_route_id := route_id; mr_path := None; is_tee := None |}.

Definition route_with_path (path : option string) (r : ModelRoute) : ModelRoute :=
  {| public_model_id := public_model_id r; upstream_model_id := upstream_model_id r; upstream := upstream r;
     mr_route_id := mr_route_id r;
     mr_path := option_map (fun p => if OpenAI.starts_with_slash p then p else "/" +:+ p) path;
     is_tee := is_tee r |}.

Definition with_is_tee (tee : option bool) (r : ModelRoute) : ModelRoute :=
  {| public_model_id := public_model_id r; upstream_model_id := upstream_model_id r; upstream := upstream r;
     mr_route_id := mr_route_id r; mr_path := mr_path r; is_tee := tee |}.

Record ModelRouterBackend := {
  mr_name : string;
  routes : gmap string ModelRoute;
  default_routes : gmap string string;
  order : list string;
}.

Definition ModelRouterBackend_new (name : string) : ModelRouterBackend :=
  {| mr_name := name; routes := ∅; default_routes := ∅; order := [] |}.

Section ModelRouter.
Context `{SerdeJson} `{StrDebug}.

Definition add_route (r : ModelRouterBackend) (route : ModelRoute) : result UpstreamError ModelRouterBackend :=
  match routes r !! mr_route_id route with
  | Some _ => Err (Routing ("duplicate route id " +:+ debug_str (mr_route_id route)))
  | None =>
      let '(order', default') :=
        match default_routes r !! public_model_id route with
        | Some _ => (order r, default_routes r)
        | None => (order r ++ [public_model_id route],
                   <[public_model_id route := mr_route_id route]> (default_routes r))
        end in
      Ok {| mr_name := mr_name r; routes := <[mr_route_id route := route]> (routes r);
            default_routes := default'; order := order' |}
  end.

Definition route_for_id (r : ModelRouterBackend) (route_id : string) : result UpstreamError ModelRoute :=
  ok_or (routes r !! route_id) (Routing ("unknown target route " +:+ debug_str route_id)).

Definition route_for (r : ModelRouterBackend) (model : string) : result UpstreamError ModelRoute :=
  ok_or (default_routes r !! model) (Routing ("no upstream route for model " +:+ debug_str model))
  ≫= route_for_id r.

Definition route_from_prepared (r : ModelRouterBackend) (req : PreparedUpstreamRequest) :
    result UpstreamError ModelRoute :=
  ok_or (p_route_id req) (Routing "prepared router request is missing route id") ≫= route_for_id r.

Definition on_chat_surface (path : option string) : bool :=
  match path with
  | Some path => String.eqb path "/v1/chat/completions" || String.eqb path "/v1/messages"
  | None => true
  end.

Definition prepare (r : ModelRouterBackend) (req : UpstreamRequest) :
    result UpstreamError PreparedUpstreamRequest :=
  ok_or (request_model_id (req_body req)) no_string_model ≫= fun body_model_id =>
  (match target_route_id req with
   | Some route_id => route_for_id r route_id
   | None => route_for r body_model_id
   end) ≫= fun route =>
  rewrite_request_model (req_body req) (upstream_model_id route) ≫= fun body =>
  let path := if on_chat_surface (req_path req)
              then Some (default "/v1/chat/completions" (mr_path route)) else req_path req in
  Ok {| p_request := {| req_body := body; req_headers := req_headers req; req_path := path;
                        target_route_id := target_route_id req |};
        p_upstream_name := be_name (upstream route);
        p_url_origin := be_url_origin (upstream route);
        p_model_id := upstream_model_id route;
        p_route_id := Some (mr_route_id route);
        p_is_tee := is_tee route |}.

Definition forward_prepared (r : ModelRouterBackend) (req : PreparedUpstreamRequest) :
    result UpstreamError UpstreamResponse :=
  route_from_prepared r req ≫= fun route => be_forward (upstream route) (p_request req).

Definition router_forward (r : ModelRouterBackend) (req : UpstreamRequest) : result UpstreamError UpstreamResponse :=
  prepare r req ≫= forward_prepared r.

Definition router_forward_verified_prepared (r : ModelRouterBackend) (req : PreparedUpstreamRequest)
    (event : UpstreamVerifiedEvent) : result UpstreamError UpstreamResponse :=
  route_from_prepared r req ≫= fun route => be_forward_verified_prepared (upstream route) req event.

Definition forward_stream_prepared (r : ModelRouterBackend) (req : PreparedUpstreamRequest) :
    result UpstreamError UpstreamStreamResponse :=
  route_from_prepared r req ≫= fun route => be_forward_stream (upstream route) (p_request req).

Definition router_forward_stream (r : ModelRouterBackend) (req : UpstreamRequest) :
    result UpstreamError UpstreamStreamResponse :=
  prepare r req ≫= forward_stream_prepared r.

Definition router_forward_stream_verified_prepared (r : ModelRouterBackend) (req : PreparedUpstreamRequest)
    (event : UpstreamVerifiedEvent) : result UpstreamError UpstreamStreamResponse :=
  route_from_prepared r req ≫= fun route => be_forward_stream_verified_prepared (upstream route) req event.

(** The routes of the catalog, in the order their models were first added. *)
Definition listed_routes (r : ModelRouterBackend) : list ModelRoute :=
  omap (fun rid => routes r !! rid) (omap (fun model => default_routes r !! model) (order r)).

Definition router_models (r : ModelRouterBackend) : result UpstreamError UpstreamResponse :=
  let data := map (fun route => {{ "id" ≔ Str (public_model_id route); "object" ≔ Str "model";
                                   "owned_by" ≔ Str (mr_name r) }}) (listed_routes r) in
  map_err Routing (to_vec {{ "object" ≔ Str "list"; "data" ≔ Arr data }}) ≫= fun body =>
  Ok {| status_code := 200; resp_body := body; resp_headers := {[ "content-type" := "application/json" ]};
        served_instance_id := None |}.

Definition chutes_attestation_report (r : ModelRouterBackend) (model : string) : result UpstreamError Value :=
  route_for r model ≫= fun route => be_chutes_attestation_report (upstream route) (upstream_model_id route).

(** The trait object of the router; its [prepare] is the one above. *)
Definition router_backend (r : ModelRouterBackend) : UpstreamBackend := {|
  be_name := mr_name r;
  be_url_origin := None;
  be_forward := router_forward r;
  be_forward_verified_prepared := router_forward_verified_prepared r;
  be_forward_stream := router_forward_stream r;
  be_forward_stream_verified_prepared := router_forward_stream_verified_prepared r;
  be_models := router_models r;
  be_chutes_attestation_report := chutes_attestation_report r;
|}.
End ModelRouter.

(** ** What a router built by [add_route] contains *)

Section Routes.
Context `{StrDebug}.

Definition has_id (rid : string) (x : ModelRoute) : bool := String.eqb (mr_route_id x) rid.
Definition has_model (m : string) (x : ModelRoute) : bool := String.eqb (public_model_id x) m.

(** The router holds the routes of [l], added in this order. *)
Record represents (r : ModelRouterBackend) (l : list ModelRoute) : Prop := {
  rep_nodup : NoDup (map mr_route_id l);
  rep_routes rid : routes r !! rid = find (has_id rid) l;
  rep_default m : default_routes r !! m = option_map mr_route_id (find (has_model m) l);
  rep_order_nodup : NoDup (order r);
  rep_order m : m ∈ order r <-> m ∈ map public_model_id l;
}.

Fixpoint add_routes (r : ModelRouterBackend) (l : list ModelRoute) : result UpstreamError ModelRouterBackend :=
  match l with
  | [] => Ok r
  | x :: l => add_route r x ≫= fun r => add_routes r l
  end.

Lemma find_app {A} (p : A -> bool) l1 l2 :
  find p (l1 ++ l2) = match find p l1 with Some x => Some x | None => find p l2 end.
Proof. induction l1 as [|x l1 IH]; cbn; [done|]. by destruct (p x). Qed.

Lemma find_is_Some {A} (f : A -> string) k l :
  is_Some (find (fun x => String.eqb (f x) k) l) <-> k ∈ map f l.
Proof.
  induction l as [|x l IH]; cbn; [split; [by intros []|by intros ?%elem_of_nil]|].
  rewrite elem_of_cons. destruct (String.eqb_spec (f x) k) as [<-|Hne]; [split; eauto|].
  rewrite IH. split; [by auto|]. intros [->|?]; done.
Qed.

Lemma find_None_not_in {A} (f : A -> string) k l :
  find (fun x => String.eqb (f x) k) l = None <-> k ∉ map f l.
Proof. rewrite <- find_is_Some. destruct (find _ l); split; intros HH; try done; exfalso; apply HH; eauto. Qed.

Lemma find_eq_Some {A} (f : A -> string) k l x :
  find (fun x => String.eqb (f x) k) l = Some x -> f x = k /\ x ∈ l.
Proof. intros [Hin Hx%String.eqb_eq]%find_some. split; [done|]. by apply list_elem_of_In. Qed.

Lemma find_nodup {A} (f : A -> string) l x :
  NoDup (map f l) -> x ∈ l -> find (fun y => String.eqb (f y) (f x)) l = Some x.
Proof.
  induction l as [|y l IH]; cbn; [by intros _ ?%elem_of_nil|].
  intros [Hy Hnd]%NoDup_cons [->|Hin]%elem_of_cons; [by rewrite String.eqb_refl|].
  destruct (String.eqb_spec (f y) (f x)) as [E|_]; [|by apply IH].
  exfalso. apply Hy. rewrite E. by apply list_elem_of_fmap_2.
Qed.

Lemma represents_new name : represents (ModelRouterBackend_new name) [].
Proof. split; cbn; intros; try done; by constructor. Qed.

Lemma NoDup_snoc {A} (l : list A) x : NoDup l -> x ∉ l -> NoDup (l ++ [x]).
Proof.
  intros Hl Hx. apply NoDup_app. split; [done|]. split; [|apply NoDup_singleton].
  intros y Hy Hyx%list_elem_of_singleton. by subst.
Qed.

(** A map filled with the first element of each key, one element later. *)
Lemma insert_find_snoc {A B} (f : A -> string) (g : A -> B) (m : gmap string B) l x :
  (forall k, m !! k = option_map g (find (fun y => String.eqb (f y) k) l)) -> f x ∉ map f l ->
  forall k, <[f x := g x]> m !! k = option_map g (find (fun y => String.eqb (f y) k) (l ++ [x])).
Proof.
  intros Hm Hx%find_None_not_in k. rewrite find_app. cbn.
  destruct (String.eqb_spec (f x) k) as [<-|Hne].
  - by rewrite lookup_insert_eq, Hx.
  - rewrite lookup_insert_ne, Hm by done. by destruct (find (fun y => String.eqb (f y) k) l).
Qed.

Lemma option_map_id {A} (o : option A) : option_map (fun x => x) o = o.
Proof. by destruct o. Qed.

Lemma add_route_represents r l x :
  represents r l ->
  match add_route r x with
  | Ok r' => represents r' (l ++ [x]) /\ mr_name r' = mr_name r
  | Err e => mr_route_id x ∈ map mr_route_id l /\ e = Routing ("duplicate route id " +:+ debug_str (mr_route_id x))
  end.
Proof.
  intros [Hnd Hr Hd Hon Ho]. unfold add_route. rewrite Hr.
  destruct (find (has_id (mr_route_id x)) l) as [y|] eqn:Hy.
  { split; [|done]. apply find_is_Some. unfold has_id in Hy. by rewrite Hy. }
  assert (Hx : mr_route_id x ∉ map mr_route_id l) by (apply find_None_not_in; exact Hy).
  assert (Hnd' : NoDup (map mr_route_id (l ++ [x]))) by (rewrite map_app; by apply NoDup_snoc).
  assert (Hr' : forall rid, <[mr_route_id x := x]> (routes r) !! rid = find (has_id rid) (l ++ [x])).
  { intros rid. rewrite <- (option_map_id (find _ _)).
    apply (insert_find_snoc mr_route_id (fun x => x)); [|done]. intros k. by rewrite option_map_id, Hr. }
  rewrite Hd. destruct (find (has_model (public_model_id x)) l) as [y|] eqn:Hm; cbn [option_map];
    (split; [|done]); split; cbn; try done.
  - intros m. rewrite find_app, Hd. cbn. destruct (find (has_model m) l) eqn:E; [done|].
    unfold has_model. destruct (String.eqb_spec (public_model_id x) m) as [<-|Hne]; [|done].
    by rewrite E in Hm.
  - intros m. rewrite Ho, map_app, elem_of_app. cbn. rewrite list_elem_of_singleton.
    split; [by auto|]. intros [?| ->]; [done|]. apply find_is_Some. unfold has_model in Hm. by rewrite Hm.
  - apply (insert_find_snoc public_model_id mr_route_id); [exact Hd|]. apply find_None_not_in. exact Hm.
  - apply NoDup_snoc; [done|]. rewrite Ho. apply find_None_not_in. exact Hm.
  - intros m. rewrite elem_of_app, Ho, map_app, elem_of_app. done.
Qed.

Lemma route_for_id_represents r l rid route :
  represents r l -> route_for_id r rid = Ok route -> route ∈ l /\ mr_route_id route = rid.
Proof.
  intros Hrep. unfold route_for_id. rewrite (rep_routes r l Hrep).
  destruct (find _ l) as [x|] eqn:E; cbn; [|done]. intros [= ->].
  by apply find_eq_Some in E as [??].
Qed.

Lemma listed_routes_models r l : represents r l -> map public_model_id (listed_routes r) = order r.
Proof.
  intros Hrep. unfold listed_routes.
  assert (Hall : Forall (fun m => m ∈ map public_model_id l) (order r)).
  { apply Forall_forall. intros m. by rewrite (rep_order r l Hrep). }
  induction Hall as [|m ms Hm _ IH]; cbn; [done|]. rewrite (rep_default r l Hrep).
  apply find_is_Some in Hm as [x Hx]. change (find (has_model m) l = Some x) in Hx. rewrite Hx. cbn.
  apply find_eq_Some in Hx as [Hx Hin]. rewrite (rep_routes r l Hrep). unfold has_id.
  rewrite (find_nodup mr_route_id l x (rep_nodup r l Hrep) Hin). cbn. by rewrite IH, Hx.
Qed.
End Routes.

(** ** Properties *)

(** Adding routes builds the table it means to: it succeeds exactly when the
    route ids are distinct (the first repeated id is refused), a route is found
    by its id, a model's default is the first route that serves it, and the
    catalog lists every served model once, in order of first appearance. *)
Theorem add_routes_spec `{StrDebug} name l :
  match add_routes (ModelRouterBackend_new name) l with
  | Ok r => NoDup (map mr_route_id l) /\
      (forall rid, ok (route_for_id r rid) = find (has_id rid) l) /\
      (forall m, ok (route_for r m) = find (has_model m) l) /\
      NoDup (map public_model_id (listed_routes r)) /\
      (forall m, m ∈ map public_model_id (listed_routes r) <-> m ∈ map public_model_id l)
  | Err e => ~ NoDup (map mr_route_id l) /\ exists x, x ∈ l /\
      e = Routing ("duplicate route id " +:+ debug_str (mr_route_id x))
  end.
Proof.
  assert (Hgen : forall l l0 r, represents r l0 ->
    match add_routes r l with
    | Ok r' => represents r' (l0 ++ l)
    | Err e => ~ NoDup (map mr_route_id (l0 ++ l)) /\ exists x, x ∈ l /\
        e = Routing ("duplicate route id " +:+ debug_str (mr_route_id x))
    end).
  { clear. induction l as [|x l IH]; intros l0 r Hr; cbn [add_routes]; [by rewrite app_nil_r|].
    pose proof (add_route_represents r l0 x Hr) as Hx. destruct (add_route r x) as [r'|e]; cbn.
    - destruct Hx as [Hx _]. specialize (IH _ _ Hx). rewrite <- app_assoc in IH. cbn in IH.
      destruct (add_routes r' l); [done|]. destruct IH as (? & y & ? & ?). split; [done|]. exists y. by split; [right|].
    - destruct Hx as [Hin ->]. split; [|exists x; split; [by left|done]].
      rewrite map_app. cbn. intros (_ & Hd & _)%NoDup_app. apply (Hd _ Hin). by left. }
  specialize (Hgen l [] _ (represents_new name)). destruct (add_routes _ l) as [r|e]; [|done].
  cbn in Hgen. split; [apply Hgen|]. split; [|split; [|split]].
  - intros rid. unfold route_for_id. rewrite (rep_routes r l Hgen). by destruct (find _ _).
  - intros m. unfold route_for, route_for_id. rewrite (rep_default r l Hgen).
    destruct (find (has_model m) l) as [x|] eqn:E; cbn; [|done].
    apply find_eq_Some in E as [_ Hin]. rewrite (rep_routes r l Hgen). unfold has_id.
    by rewrite (find_nodup mr_route_id l x (rep_nodup r l Hgen) Hin).
  - rewrite (listed_routes_models r l Hgen). apply (rep_order_nodup r l Hgen).
  - intros m. rewrite (listed_routes_models r l Hgen). apply (rep_order r l Hgen).
Qed.

(** The path a prepared request is sent to. *)
Definition resolved_path (route : ModelRoute) (path : option string) : option string :=
  match path with
  | Some "/v1/chat/completions" | Some "/v1/messages" | None =>
      Some (default "/v1/chat/completions" (mr_path route))
  | Some other => Some other
  end.

Lemma on_chat_surface_path route path :
  (if on_chat_surface path then Some (default "/v1/chat/completions" (mr_path route)) else path)
  = resolved_path route path.
Proof.
  unfold on_chat_surface, resolved_path. destruct path as [path|]; [|done].
  destruct (String.eqb_spec path "/v1/chat/completions") as [->|H1]; [done|].
  destruct (String.eqb_spec path "/v1/messages") as [->|H2]; [done|]. cbn [orb].
  repeat case_match; congruence.
Qed.

Section Prepare.
Context `{SerdeJsonLaws} `{StrDebug}.

(** The rewritten body is the printed object with only the model replaced, and
    whoever parses it reads the upstream's model. *)
Lemma rewrite_request_model_spec body mid body' :
  valid_utf8 mid -> rewrite_request_model body mid = Ok body' ->
  exists obj, from_slice body = Ok (Obj obj) /\ to_vec (Obj (map_insert "model" (Str mid) obj)) = Ok body' /\
    request_model_id body' = Some mid.
Proof.
  intros Hmid. unfold rewrite_request_model. destruct (from_slice body) as [v|e] eqn:Hp; cbn; [|done].
  destruct v as [| | | | |obj]; try done. destruct (map_get "model" obj) as [[| | |m| |]|] eqn:Hm; try done.
  destruct (to_vec _) as [t|] eqn:Ht; cbn; [|done]. intros [= ->]. exists obj. split; [done|]. split; [done|].
  destruct (from_slice_wf _ _ Hp) as [Hwf Hd]. set (v := Obj (map_insert "model" (Str mid) obj)) in *.
  assert (Hwf' : wf_value v).
  { apply wf_value_insert; [by apply valid_utf8b_sound|exact Hmid|exact Hwf]. }
  assert (Hd' : (depth v <= MAX_DEPTH)%nat) by (etrans; [by apply depth_insert_leaf|exact Hd]).
  destruct (from_slice_to_vec v body' Hwf' Hd' Ht) as (v' & Hv' & He).
  assert (Hget : get v' "model" = Some (Str mid)).
  { apply (erase_floats_get_str v); [done|]. unfold v. cbn. by rewrite map_get_insert. }
  unfold request_model_id. destruct (String.eqb_spec body' "") as [->|_]; [by destruct (from_slice_empty v')|].
  by rewrite Hv', Hget.
Qed.

(** What is verified is what is sent: a prepared request names a registered
    route (the targeted one, else the default of the model the body asks for),
    carries that route's upstream name, origin and model for verification, its
    body differs from the client's only in the model, which reads as the
    upstream's, its path is the route's on the chat surfaces, and all four ways
    of forwarding it hand exactly that request to that route's upstream. *)
Theorem prepare_binds_route r req p event :
  (forall rid route, routes r !! rid = Some route -> mr_route_id route = rid /\ valid_utf8 (upstream_model_id route)) ->
  prepare r req = Ok p ->
  exists route model obj body,
    request_model_id (req_body req) = Some model /\
    (if target_route_id req is Some rid then route_for_id r rid else route_for r model) = Ok route /\
    p = {| p_request := {| req_body := body; req_headers := req_headers req;
                           req_path := resolved_path route (req_path req); target_route_id := target_route_id req |};
           p_upstream_name := be_name (upstream route); p_url_origin := be_url_origin (upstream route);
           p_model_id := upstream_model_id route; p_route_id := Some (mr_route_id route);
           p_is_tee := is_tee route |} /\
    from_slice (req_body req) = Ok (Obj obj) /\
    to_vec (Obj (map_insert "model" (Str (upstream_model_id route)) obj)) = Ok body /\
    request_model_id body = Some (upstream_model_id route) /\
    forward_prepared r p = be_forward (upstream route) (p_request p) /\
    forward_stream_prepared r p = be_forward_stream (upstream route) (p_request p) /\
    router_forward_verified_prepared r p event = be_forward_verified_prepared (upstream route) p event /\
    router_forward_stream_verified_prepared r p event = be_forward_stream_verified_prepared (upstream route) p event.
Proof.
  intros Hr. unfold prepare. destruct (request_model_id (req_body req)) as [model|] eqn:Hm; cbn; [|done].
  set (sel := if target_route_id req is Some rid then _ else _).
  destruct sel as [route|] eqn:Hsel; cbn; [|done].
  assert (Hreg : exists rid, routes r !! rid = Some route).
  { unfold sel, route_for, route_for_id in Hsel.
    destruct (target_route_id req) as [rid|]; [exists rid; by destruct (routes r !! rid); cbn in Hsel; simplify_eq|].
    destruct (default_routes r !! model) as [rid|]; cbn in Hsel; [|done].
    exists rid. by destruct (routes r !! rid); cbn in Hsel; simplify_eq. }
  destruct Hreg as [rid Hrid]. destruct (Hr _ _ Hrid) as [Hid Hutf].
  destruct (rewrite_request_model _ _) as [body|] eqn:Hb; cbn; [|done]. intros [= <-].
  apply rewrite_request_model_spec in Hb as (obj & Hp & Ht & Hmid); [|done].
  exists route, model, obj, body. rewrite on_chat_surface_path.
  unfold forward_prepared, forward_stream_prepared, router_forward_verified_prepared, router_forward_stream_verified_prepared,
    route_from_prepared, route_for_id. cbn. rewrite Hid, Hrid. cbn. by split_and!.
Qed.
End Prepare.

(** ** Channel bindings *)

Section Bindings.
Context `{Digest} `{HttpClient} `{StrDebug}.
Context (parse_spki : string -> option string).

(** A binding of the event that a certificate satisfies, for an upstream origin. *)
Definition binding_matches (origin cert spki : string) (b : ChannelBinding) : Prop :=
  match b with
  | TlsSpkiSha256 o h => o = origin /\ h = hex_encode (sha256 spki)
  | TlsCertificateSha256 o h => o = origin /\ h = hex_encode (sha256 cert)
  | E2eePublicKeySha256 _ _ _ _ => False
  end.

(** A binding this backend can enforce. *)
Definition enforceable (origin : string) (b : ChannelBinding) : Prop :=
  match b with
  | TlsSpkiSha256 o _ | TlsCertificateSha256 o _ => o = origin
  | E2eePublicKeySha256 _ _ _ _ => False
  end.

Lemma collect_bindings_spec b bindings spkis certs spkis' certs' :
  OpenAI.collect_bindings b bindings spkis certs = Ok (spkis', certs') ->
  Forall (enforceable (OpenAI.base_url b)) bindings /\
  (forall h, h ∈ spkis' <-> h ∈ spkis \/ TlsSpkiSha256 (OpenAI.base_url b) h ∈ bindings) /\
  (forall h, h ∈ certs' <-> h ∈ certs \/ TlsCertificateSha256 (OpenAI.base_url b) h ∈ bindings).
Proof.
  revert spkis certs. induction bindings as [|x bs IH]; intros spkis certs; cbn.
  - intros [= -> ->]. split; [constructor|]. split; set_solver.
  - destruct x as [o h|o h|]; [| |done]; (destruct (String.eqb_spec o (OpenAI.base_url b)) as [->|]; [|done]);
      intros (HF & Hs & Hc)%IH; (split; [by constructor|]); split; intros h'; rewrite ?Hs, ?Hc;
      rewrite ?elem_of_app, !elem_of_cons, ?elem_of_nil; naive_solver.
Qed.

Lemma verify_server_cert_spec accepted certs cert :
  verify_server_cert parse_spki accepted certs cert = Ok tt <->
  exists spki, parse_spki cert = Some spki /\
    (hex_encode (sha256 spki) ∈ accepted \/ hex_encode (sha256 cert) ∈ certs).
Proof.
  unfold verify_server_cert. destruct (bool_decide (accepted = ∅) && _) eqn:E.
  - apply andb_true_iff in E as [?%bool_decide_eq_true ?%bool_decide_eq_true]. split; [done|].
    intros (spki & _ & [?|?]); set_solver.
  - destruct (parse_spki cert) as [spki|]; [|split; [done|by intros (? & ? & _)]].
    repeat case_bool_decide; cbn; naive_solver.
Qed.

(** C9: channel bindings fail closed: when the verified event carries bindings,
    the forwarder either refuses, or all of them are TLS bindings of this very
    upstream, the upstream is https, and the client it uses accepts exactly the
    server certificates that match one of the event's bindings. *)
Theorem client_for_event_fail_closed b event c :
  channel_bindings event <> [] -> OpenAI.client_for_event b event = Ok c ->
  String.prefix "https://" (OpenAI.base_url b) = true /\
  Forall (enforceable (OpenAI.base_url b)) (channel_bindings event) /\
  exists spkis certs, accepted_pins c = Some (spkis, certs) /\
    forall cert, verify_server_cert parse_spki spkis certs cert = Ok tt <->
      exists spki, parse_spki cert = Some spki /\
        Exists (binding_matches (OpenAI.base_url b) cert spki) (channel_bindings event).
Proof.
  intros Hne. unfold OpenAI.client_for_event.
  destruct (channel_bindings event) as [|x bs] eqn:E; [done|]. rewrite <- E. clear E x bs Hne.
  set (bindings := channel_bindings event).
  destruct (OpenAI.collect_bindings b bindings [] []) as [[spkis certs]|] eqn:Hc; cbn; [|done].
  apply collect_bindings_spec in Hc as (HF & Hs & Hce).
  destruct (String.prefix "https://" _); cbn; [|done]. unfold pinned_spki_client.
  destruct (build_client _) as [[]|]; cbn; [|done]. intros [= <-]. split; [done|]. split; [done|].
  eexists _, _. split; [done|]. intros cert. rewrite verify_server_cert_spec. f_equiv. intros spki. f_equiv.
  rewrite !elem_of_list_to_set, Hs, Hce, Exists_exists. split.
  - intros [[?%elem_of_nil|?]|[?%elem_of_nil|?]]; try done; eexists; (split; [done|]); by cbn.
  - intros ([o h|o h|] & Hin & Hm); cbn in Hm; [| |done]; destruct Hm as [-> ->]; auto.
Qed.
End Bindings.

(** ** Witnesses *)

Definition demo_debug : StrDebug := fun s => "'" +:+ s +:+ "'".

(** A client whose every request is answered by an echo of its body. *)
Definition demo_http : HttpClient := {|
  build_client _ := Ok tt;
  send _ r := Ok {| http_status := 200; http_resp_headers := []; http_chunks := [Ok (http_body r)] |};
|}.

Definition demo_backend (name url : string) : OpenAI.OpenAICompatibleBackend :=
  {| OpenAI.name := name; OpenAI.base_url := url; OpenAI.path := "/v1/chat/completions"; OpenAI.auth := None;
     OpenAI.client := {| accepted_pins := None; connect_timeout := 10; read_timeout := 600 |} |}.

Definition demo_model_route (upstream_name public upstream_model : string) : ModelRoute :=
  {| public_model_id := public; upstream_model_id := upstream_model;
     upstream := @OpenAI.backend demo_http demo_debug (demo_backend upstream_name "https://u");
     mr_route_id := upstream_name +:+ ":" +:+ public; mr_path := None; is_tee := Some true |}.

Definition demo_table : list ModelRoute := [demo_model_route "a" "m" "x"; demo_model_route "b" "m" "y"].

Definition demo_router : ModelRouterBackend :=
  match @add_routes demo_debug (ModelRouterBackend_new "r") demo_table with
  | Ok r => r
  | Err _ => ModelRouterBackend_new "r"
  end.

Definition demo_request : UpstreamRequest :=
  {| req_body := match @to_vec demo_serde {{ "model" ≔ Str "m" }} with Ok t => t | Err _ => "" end;
     req_headers := ∅; req_path := Some "/v1/messages"; target_route_id := Some "b:m" |}.

Lemma demo_router_wf rid route :
  routes demo_router !! rid = Some route -> mr_route_id route = rid /\ valid_utf8 (upstream_model_id route).
Proof.
  assert (Hrep : represents demo_router demo_table).
  { pose proof (@add_route_represents demo_debug _ _ (demo_model_route "a" "m" "x") (represents_new "r")) as H1.
    destruct H1 as [H1 _]. exact (proj1 (@add_route_represents demo_debug _ _ (demo_model_route "b" "m" "y") H1)). }
  rewrite (rep_routes _ _ Hrep). intros Hf. unfold has_id in Hf. apply find_eq_Some in Hf as [Hid Hin]. split; [done|].
  apply elem_of_cons in Hin as [->|Hin]; [by apply valid_utf8b_sound|].
  apply list_elem_of_singleton in Hin as ->. by apply valid_utf8b_sound.
Qed.

Lemma prepare_binds_route_witness :
  exists p, @prepare demo_serde demo_debug demo_router demo_request = Ok p /\
    p_upstream_name p = "b" /\ req_path (p_request p) = Some "/v1/chat/completions" /\
    @request_model_id demo_serde (req_body (p_request p)) = Some "y".
Proof.
  destruct (@prepare demo_serde demo_debug demo_router demo_request) as [p|] eqn:E; [|vm_compute in E; discriminate].
  exists p. split; [reflexivity|].
  destruct (@prepare_binds_route demo_serde demo_serde_laws demo_debug demo_router demo_request p
              UpstreamVerifiedEvent_default demo_router_wf E)
    as (route & model & obj & body & _ & Hroute & -> & _ & _ & Hmodel & _).
  injection Hroute as <-. split; [reflexivity|]. split; [reflexivity|]. exact Hmodel.
Defined.

Definition demo_event : UpstreamVerifiedEvent := {|
  upstream_name := "a"; provider_type := None; model_id := "x"; url_origin := Some "https://u";
  verifier_id := "v"; uv_result := Verified; required := true; reason := None; evidence := None;
  channel_bindings := [TlsSpkiSha256 "https://u" (@hex_encode demo_digest (@sha256 demo_digest "key"))];
  provider_claims := None |}.

Lemma client_for_event_fail_closed_witness :
  exists c spkis certs,
    @OpenAI.client_for_event demo_http demo_debug (demo_backend "a" "https://u") demo_event = Ok c /\
    accepted_pins c = Some (spkis, certs) /\
    @verify_server_cert demo_digest Some spkis certs "key" = Ok tt.
Proof.
  destruct (@OpenAI.client_for_event demo_http demo_debug (demo_backend "a" "https://u") demo_event) as [c|] eqn:E;
    [|vm_compute in E; discriminate].
  destruct (@client_for_event_fail_closed demo_digest demo_http demo_debug Some (demo_backend "a" "https://u")
              demo_event c) as (_ & _ & spkis & certs & Hp & Hc); [discriminate|exact E|].
  exists c, spkis, certs. split; [reflexivity|]. split; [exact Hp|].
  apply Hc. exists "key". split; [reflexivity|]. apply Exists_cons. left. split; reflexivity.
Defined.
