(* ===== verification/UpstreamConfig.v ===== *)
(** * Upstream configuration

    Model of the data of [src/aggregator/upstream_config/mod.rs] and of
    [validation.rs]: the configuration, its public view, validation, the
    verification targets and the file.  A [BTreeMap] is a finite map iterated
    in key order.  An invalid configuration is reported by a value of
    [ConfigIssue] instead of its message text. *)
From S2P Require Import Prelude Json Serde Canonical Fs Upstream.

(** ** [BTreeMap<String, String>] *)

Definition BTreeMap : Type := gmap string string.

Definition btree_iter (m : BTreeMap) : list (string * string) :=
  sort_by (cmp_on fst str_compare) (map_to_list m).

Definition btree_values (m : BTreeMap) : list string := map snd (btree_iter m).

(** ** Data *)

Inductive UpstreamProvider :=
| OpenAiCompatible | Anthropic | AciService | Chutes | Tinfoil | NearAi | PhalaDirect.

#[export] Instance UpstreamProvider_eq_dec : EqDecision UpstreamProvider.
Proof. solve_decision. Defined.

Inductive AttestationScope := PerRouter | PerModel | PerInstance.

Definition attestation_scope (p : UpstreamProvider) : AttestationScope :=
  match p with
  | NearAi | Tinfoil => PerRouter
  | Chutes => PerInstance
  | PhalaDirect => PerModel
  | OpenAiCompatible | Anthropic | AciService => PerModel
  end.

Definition is_per_router (s : AttestationScope) : bool := match s with PerRouter => true | _ => false end.

Definition from_declared (token : string) : option AttestationScope :=
  if String.eqb token "router" then Some PerRouter
  else if String.eqb token "model" then Some PerModel
  else if String.eqb token "instance" then Some PerInstance
  else None.

Definition as_declared (s : AttestationScope) : string :=
  match s with PerRouter => "router" | PerModel => "model" | PerInstance => "instance" end.

Record UpstreamConfig := {
  name : string;
  enabled : bool;
  provider : UpstreamProvider;
  base_url : string;
  path : option string;
  models : BTreeMap;
  bearer_token : option string;
  accepted_workload_ids : option (list string);
  accepted_image_digests : option (list string);
  accepted_dstack_kms_root_public_keys : option (list string);
  pccs_url : option string;
  verifier_cache_seconds : option Z;
  connect_timeout_seconds : option Z;
  read_timeout_seconds : option Z;
  verifier_request_timeout_seconds : option Z;
  verification_refresh_seconds : option Z;
  session_refresh_seconds : option Z;
  chutes_e2ee_api_base : option string;
  chutes_chute_ids : option BTreeMap;
  chutes_e2ee_discovery_rounds : option Z;
  chutes_e2ee_discovery_interval_seconds : option Z;
}.

Record PublicUpstreamConfig := {
  pub_name : string;
  pub_enabled : bool;
  pub_provider : UpstreamProvider;
  pub_base_url : string;
  pub_path : option string;
  pub_models : BTreeMap;
  bearer_token_configured : bool;
  pub_accepted_workload_ids : option (list string);
  pub_accepted_image_digests : option (list string);
  pub_accepted_dstack_kms_root_public_keys : option (list string);
  pub_pccs_url : option string;
  pub_verifier_cache_seconds : option Z;
  pub_connect_timeout_seconds : option Z;
  pub_read_timeout_seconds : option Z;
  pub_verifier_request_timeout_seconds : option Z;
  pub_verification_refresh_seconds : option Z;
  pub_session_refresh_seconds : option Z;
  pub_chutes_e2ee_api_base : option string;
  pub_chutes_chute_ids : option BTreeMap;
  pub_chutes_e2ee_discovery_rounds : option Z;
  pub_chutes_e2ee_discovery_interval_seconds : option Z;
}.

Definition redacted (c : UpstreamConfig) : PublicUpstreamConfig := {|
  pub_name := name c;
  pub_enabled := enabled c;
  pub_provider := provider c;
  pub_base_url := base_url c;
  pub_path := path c;
  pub_models := models c;
  bearer_token_configured := match bearer_token c with Some _ => true | None => false end;
  pub_accepted_workload_ids := accepted_workload_ids c;
  pub_accepted_image_digests := accepted_image_digests c;
  pub_accepted_dstack_kms_root_public_keys := accepted_dstack_kms_root_public_keys c;
  pub_pccs_url := pccs_url c;
  pub_verifier_cache_seconds := verifier_cache_seconds c;
  pub_connect_timeout_seconds := connect_timeout_seconds c;
  pub_read_timeout_seconds := read_timeout_seconds c;
  pub_verifier_request_timeout_seconds := verifier_request_timeout_seconds c;
  pub_verification_refresh_seconds := verification_refresh_seconds c;
  pub_session_refresh_seconds := session_refresh_seconds c;
  pub_chutes_e2ee_api_base := chutes_e2ee_api_base c;
  pub_chutes_chute_ids := chutes_chute_ids c;
  pub_chutes_e2ee_discovery_rounds := chutes_e2ee_discovery_rounds c;
  pub_chutes_e2ee_discovery_interval_seconds := chutes_e2ee_discovery_interval_seconds c;
|}.

Inductive UpstreamVerifierMode := ModeNone | Preverified | ModeAciService.

Record UpstreamRuntimeOptions := {
  verifier_mode : UpstreamVerifierMode;
  opt_accepted_workload_ids : list string;
  opt_accepted_image_digests : list string;
  opt_accepted_dstack_kms_root_public_keys : list string;
  opt_pccs_url : option string;
  opt_verifier_cache_seconds : Z;
  opt_connect_timeout_seconds : Z;
  opt_read_timeout_seconds : Z;
  opt_verifier_request_timeout_seconds : Z;
}.

Inductive ConfigIssue :=
| EmptyName
| DuplicateName (upstream : string)
| EmptyBaseUrl (upstream : string)
| NoModels (upstream : string)
| NotPositive (upstream field : string)
| DiscoveryRoundsRange (upstream : string)
| EmptyE2eeApiBase (upstream : string)
| EmptyChuteIds (upstream : string)
| EmptyChuteModel (upstream : string)
| UnknownChuteModel (upstream model : string)
| NotChuteUuid (upstream model : string)
| ChutesFieldsNotChutes (upstream : string)
| AnthropicNeedsPath (upstream : string)
| EmptyPublicModel (upstream : string)
| EmptyUpstreamModel (upstream model : string)
| DuplicateRouteId (route_id : string)
| InvalidJson (message : string)
| SerializeFailed (message : string)
| UpstreamNotFound (upstream : string)
| MissingChutesStore (upstream : string)
| BackendFailed (e : UpstreamError)
| VerifierFailed (message : string)
| NotCanonical (e : CanonicalError)
| InvalidVerifierMode (mode : string).

Inductive UpstreamConfigError :=
| ReadError (path : string) (source : io_error)
| WriteError (path : string) (source : io_error)
| InvalidConfig (issue : ConfigIssue).

Definition UpstreamVerifierMode_parse (value : string) : result UpstreamConfigError UpstreamVerifierMode :=
  let v := to_ascii_lowercase (str_trim value) in
  if String.eqb v "none" then Ok ModeNone
  else if String.eqb v "preverified" then Ok Preverified
  else if String.eqb v "aci-service" then Ok ModeAciService
  else Err (InvalidConfig (InvalidVerifierMode v)).

(** ** Validation *)

(** [if b { return Err(..) }] *)
Definition reject_if (b : bool) (issue : ConfigIssue) : result UpstreamConfigError unit :=
  if b then Err (InvalidConfig issue) else Ok tt.

(** The first failing element of a loop. *)
Fixpoint for_each {A} (f : A -> result UpstreamConfigError unit) (l : list A) : result UpstreamConfigError unit :=
  match l with
  | [] => Ok tt
  | x :: l => f x ≫= fun _ => for_each f l
  end.

Definition is_hexdigit (c : N) : bool :=
  ((48 <=? c) && (c <=? 57) || (65 <=? c) && (c <=? 70) || (97 <=? c) && (c <=? 102))%N.

(** [value.split('-').count()] is one more than the dashes. *)
Definition looks_like_uuid (value : string) : bool :=
  Nat.eqb (String.length value) 36 &&
  Nat.eqb (S (length (filter (fun c => c = 45%N) (chars value)))) 5 &&
  forallb (fun c => (c =? 45)%N || is_hexdigit c) (chars value).

Definition timeout_fields (s : UpstreamConfig) : list (string * option Z) :=
  [("connect_timeout_seconds", connect_timeout_seconds s);
   ("read_timeout_seconds", read_timeout_seconds s);
   ("verifier_request_timeout_seconds", verifier_request_timeout_seconds s);
   ("verifier_cache_seconds", verifier_cache_seconds s)].

(** The checks of one upstream before its routes. *)
Definition validate_timeouts (u : UpstreamConfig) : result UpstreamConfigError unit :=
  for_each (fun '(field, value) => reject_if (bool_decide (value = Some 0)) (NotPositive (name u) field))
    (timeout_fields u).

Definition validate_chute_ids (u : UpstreamConfig) : result UpstreamConfigError unit :=
  match chutes_chute_ids u with
  | None => Ok tt
  | Some chute_ids =>
      reject_if (bool_decide (chute_ids = ∅)) (EmptyChuteIds (name u)) ≫= fun _ =>
      for_each (fun '(model_id, chute_id) =>
          reject_if (is_blank model_id) (EmptyChuteModel (name u)) ≫= fun _ =>
          reject_if (negb (bool_decide (model_id ∈ btree_values (models u)))) (UnknownChuteModel (name u) model_id)
            ≫= fun _ =>
          reject_if (negb (looks_like_uuid chute_id)) (NotChuteUuid (name u) model_id))
        (btree_iter chute_ids)
  end.

Definition validate_chutes (u : UpstreamConfig) : result UpstreamConfigError unit :=
  reject_if (match chutes_e2ee_discovery_rounds u with
             | Some rounds => (rounds =? 0) || (10 <? rounds) | None => false end)
    (DiscoveryRoundsRange (name u)) ≫= fun _ =>
  reject_if (match chutes_e2ee_api_base u with Some base => is_blank base | None => false end)
    (EmptyE2eeApiBase (name u)) ≫= fun _ =>
  validate_chute_ids u ≫= fun _ =>
  reject_if (negb (bool_decide (provider u = Chutes)) &&
             (bool_decide (is_Some (chutes_e2ee_api_base u)) || bool_decide (is_Some (chutes_chute_ids u)) ||
              bool_decide (is_Some (chutes_e2ee_discovery_rounds u)) ||
              bool_decide (is_Some (chutes_e2ee_discovery_interval_seconds u))))
    (ChutesFieldsNotChutes (name u)).

Definition validate_fields (u : UpstreamConfig) : result UpstreamConfigError unit :=
  reject_if (is_blank (base_url u)) (EmptyBaseUrl (name u)) ≫= fun _ =>
  reject_if (bool_decide (models u = ∅)) (NoModels (name u)) ≫= fun _ =>
  validate_timeouts u ≫= fun _ =>
  validate_chutes u ≫= fun _ =>
  reject_if (bool_decide (provider u = Anthropic) &&
             match path u with Some p => String.eqb p "" | None => true end)
    (AnthropicNeedsPath (name u)).

Definition route_id_of (upstream model : string) : string := upstream +:+ ":" +:+ model.

(** The routes of one upstream, with the route ids seen so far. *)
Fixpoint validate_models (upstream : string) (models : list (string * string)) (route_ids : gset string) :
    result UpstreamConfigError (gset string) :=
  match models with
  | [] => Ok route_ids
  | (public_model, upstream_model) :: rest =>
      reject_if (is_blank public_model) (EmptyPublicModel upstream) ≫= fun _ =>
      reject_if (is_blank upstream_model) (EmptyUpstreamModel upstream public_model) ≫= fun _ =>
      let rid := route_id_of upstream public_model in
      reject_if (bool_decide (rid ∈ route_ids)) (DuplicateRouteId rid) ≫= fun _ =>
      validate_models upstream rest ({[ rid ]} ∪ route_ids)
  end.

Fixpoint validate_loop (config : list UpstreamConfig) (names route_ids : gset string) :
    result UpstreamConfigError unit :=
  match config with
  | [] => Ok tt
  | u :: rest =>
      reject_if (is_blank (name u)) EmptyName ≫= fun _ =>
      reject_if (bool_decide (name u ∈ names)) (DuplicateName (name u)) ≫= fun _ =>
      validate_fields u ≫= fun _ =>
      validate_models (name u) (btree_iter (models u)) route_ids ≫= fun route_ids =>
      validate_loop rest ({[ name u ]} ∪ names) route_ids
  end.

Definition validate_config (config : list UpstreamConfig) : result UpstreamConfigError unit :=
  validate_loop config ∅ ∅.

(** ** Verification targets and refresh intervals *)

Record UpstreamVerificationTarget := {
  t_upstream_name : string;
  t_model_id : string;
  t_url_origin : option string;
}.

#[export] Instance UpstreamVerificationTarget_eq_dec : EqDecision UpstreamVerificationTarget.
Proof. solve_decision. Defined.

(** Keep the first of equal elements: a [HashSet] of those seen, a [Vec] of those kept. *)
Fixpoint first_seen {A} `{EqDecision A} (seen : list A) (l : list A) : list A :=
  match l with
  | [] => []
  | x :: l => if bool_decide (x ∈ seen) then first_seen seen l else x :: first_seen (x :: seen) l
  end.

Definition config_targets (cfg : UpstreamConfig) : list UpstreamVerificationTarget :=
  let url_origin := Some (OpenAI.trim_end_slashes (base_url cfg)) in
  let model_ids := if is_per_router (attestation_scope (provider cfg))
                   then take 1 (btree_values (models cfg)) else btree_values (models cfg) in
  map (fun model_id => {| t_upstream_name := name cfg; t_model_id := model_id; t_url_origin := url_origin |})
    model_ids.

Definition verification_targets_for_configs (configs : list UpstreamConfig) : list UpstreamVerificationTarget :=
  first_seen [] (flat_map config_targets configs).

Definition enabled_configs (config : list UpstreamConfig) : list UpstreamConfig :=
  filter (fun cfg => enabled cfg = true) config.

Definition verification_targets (config : list UpstreamConfig) : list UpstreamVerificationTarget :=
  verification_targets_for_configs (enabled_configs config).

Definition verification_refresh_seconds_of (cfg : UpstreamConfig) (options : UpstreamRuntimeOptions) : option Z :=
  match verification_refresh_seconds cfg with
  | Some 0 => None
  | Some seconds => Some seconds
  | None =>
      let cache_seconds := default (opt_verifier_cache_seconds options) (verifier_cache_seconds cfg) in
      Some (Z.max (u64_saturating_sub cache_seconds 60) 1)
  end.

Definition verification_targets_for_refresh (config : list UpstreamConfig) (options : UpstreamRuntimeOptions) :
    list UpstreamVerificationTarget :=
  verification_targets_for_configs
    (filter (fun cfg => is_Some (verification_refresh_seconds_of cfg options)) (enabled_configs config)).

Definition DEFAULT_UPSTREAM_SESSION_REFRESH_SECONDS : Z := 45.

Definition session_refresh_seconds_of (cfg : UpstreamConfig) : option Z :=
  match session_refresh_seconds cfg with
  | Some 0 => None
  | Some seconds => Some seconds
  | None => if decide (provider cfg = Chutes) then Some DEFAULT_UPSTREAM_SESSION_REFRESH_SECONDS else None
  end.

Definition unique_upstream_models (cfg : UpstreamConfig) : list string :=
  first_seen [] (btree_values (models cfg)).

(** ** The file *)

(** [serde_json] on the configuration type: [to_vec_pretty], [from_str] and
    [to_value]. *)
Class ConfigCodec : Type := {
  to_vec_pretty : list UpstreamConfig -> result string string;
  config_from_str : string -> result string (list UpstreamConfig);
  to_value : list UpstreamConfig -> result string Value;
}.

Section File.
Context `{ConfigCodec}.

Definition parse_config_text (text : string) : result UpstreamConfigError (list UpstreamConfig) :=
  if is_blank text then Ok []
  else
    map_err (fun e => InvalidConfig (InvalidJson e)) (config_from_str text) ≫= fun config =>
    validate_config config ≫= fun _ => Ok config.

Definition read_config_file (path : Path) (w : World) :
    result UpstreamConfigError (list UpstreamConfig) * World :=
  match read_to_string path w with
  | (Ok text, w) => (parse_config_text text, w)
  | (Err e, w) =>
      match kind e with
      | NotFound => (Ok [], w)
      | _ => (Err (ReadError (path_display path) e), w)
      end
  end.

(** The extension of a path's file name. *)
Definition extension (p : Path) : option string :=
  if String.eqb p.2 ".." then None
  else match rsplit_dot_rev [] (rev (String.list_ascii_of_string p.2)) with
       | Some (before, after) => if bool_decide (before = []) then None else Some (String.string_of_list_ascii after)
       | None => None
       end.

Definition config_tmp (p : Path) : Path :=
  with_extension p (default "json" (extension p) +:+ ".tmp").

Definition write_config_file (path : Path) (config : list UpstreamConfig) (w : World) :
    result UpstreamConfigError unit * World :=
  match create_dir_all path.1 w with
  | (Err e, w) => (Err (WriteError path.1 e), w)
  | (Ok _, w) =>
      match to_vec_pretty config with
      | Err e => (Err (InvalidConfig (SerializeFailed e)), w)
      | Ok body =>
          match fs_write (config_tmp path) body w with
          | (Err e, w) => (Err (WriteError (path_display (config_tmp path)) e), w)
          | (Ok _, w) =>
              match fs_rename (config_tmp path) path w with
              | (Err e, w) => (Err (WriteError (path_display path) e), w)
              | (Ok _, w) => (Ok tt, w)
              end
          end
      end
  end.
End File.

(** ** What a valid configuration is *)

Record valid_upstream (u : UpstreamConfig) : Prop := {
  vu_name : is_blank (name u) = false;
  vu_base_url : is_blank (base_url u) = false;
  vu_some_model : models u <> ∅;
  vu_models pm um : models u !! pm = Some um -> is_blank pm = false /\ is_blank um = false;
  vu_timeouts field v : (field, v) ∈ timeout_fields u -> v <> Some 0;
  vu_rounds n : chutes_e2ee_discovery_rounds u = Some n -> n <> 0 /\ n <= 10;
  vu_api_base b : chutes_e2ee_api_base u = Some b -> is_blank b = false;
  vu_some_chute : chutes_chute_ids u <> Some ∅;
  vu_chutes ids m c : chutes_chute_ids u = Some ids -> ids !! m = Some c ->
    is_blank m = false /\ (exists pm, models u !! pm = Some m) /\ looks_like_uuid c = true;
  vu_only_chutes : provider u <> Chutes ->
    chutes_e2ee_api_base u = None /\ chutes_chute_ids u = None /\
    chutes_e2ee_discovery_rounds u = None /\ chutes_e2ee_discovery_interval_seconds u = None;
  vu_anthropic : provider u = Anthropic -> exists p, path u = Some p /\ p <> "";
}.

Definition upstream_routes (u : UpstreamConfig) : list string :=
  map (fun kv => route_id_of (name u) kv.1) (btree_iter (models u)).

Definition config_routes (config : list UpstreamConfig) : list string := flat_map upstream_routes config.

Definition valid_config (config : list UpstreamConfig) : Prop :=
  Forall valid_upstream config /\ NoDup (map name config) /\ NoDup (config_routes config).

(** ** Lemmas *)

Lemma btree_iter_elem (m : BTreeMap) k v : (k, v) ∈ btree_iter m <-> m !! k = Some v.
Proof. unfold btree_iter. rewrite sort_by_perm. apply elem_of_map_to_list. Qed.

Lemma btree_values_elem (m : BTreeMap) v : v ∈ btree_values m <-> exists k, m !! k = Some v.
Proof.
  unfold btree_values. rewrite list_elem_of_fmap. split.
  - intros ([k v'] & -> & Hin). exists k. by apply btree_iter_elem.
  - intros [k Hk]. exists (k, v). split; [done|]. by apply btree_iter_elem.
Qed.

Lemma btree_keys_nodup (m : BTreeMap) : NoDup (map fst (btree_iter m)).
Proof. unfold btree_iter. rewrite sort_by_perm. apply NoDup_fst_map_to_list. Qed.

Lemma reject_if_bind {A} b issue (k : unit -> result UpstreamConfigError A) x :
  (reject_if b issue ≫= k) = Ok x <-> b = false /\ k tt = Ok x.
Proof. destruct b; cbn; [split; [done|by intros [??]]|]. tauto. Qed.

Lemma reject_if_Ok b issue : reject_if b issue = Ok tt <-> b = false.
Proof. by destruct b. Qed.

Lemma unit_bind {A} (m : result UpstreamConfigError unit) (k : unit -> result UpstreamConfigError A) x :
  (m ≫= k) = Ok x <-> m = Ok tt /\ k tt = Ok x.
Proof. destruct m as [[]|]; cbn; [tauto|]. split; [done|by intros [??]]. Qed.

Lemma for_each_Ok {A} (f : A -> result UpstreamConfigError unit) l :
  for_each f l = Ok tt <-> forall x, x ∈ l -> f x = Ok tt.
Proof.
  induction l as [|y l IH]; cbn; [split; [by intros _ x ?%elem_of_nil|done]|].
  rewrite unit_bind, IH. setoid_rewrite elem_of_cons. naive_solver.
Qed.

Lemma validate_chute_ids_Ok u :
  validate_chute_ids u = Ok tt <->
  chutes_chute_ids u <> Some ∅ /\
  forall ids m c, chutes_chute_ids u = Some ids -> ids !! m = Some c ->
    is_blank m = false /\ (exists pm, models u !! pm = Some m) /\ looks_like_uuid c = true.
Proof.
  unfold validate_chute_ids. destruct (chutes_chute_ids u) as [ids|]; [|by split].
  rewrite reject_if_bind, for_each_Ok, bool_decide_eq_false. setoid_rewrite <- btree_values_elem.
  split.
  - intros [Hne HF]. split; [congruence|]. intros ids' m c [= <-] Hm%btree_iter_elem.
    specialize (HF _ Hm). cbn in HF. rewrite !reject_if_bind, reject_if_Ok in HF.
    destruct HF as (? & Hv & Hu). apply negb_false_iff, bool_decide_eq_true in Hv. by apply negb_false_iff in Hu.
  - intros [Hne HF]. split; [congruence|]. intros [m c] Hm%btree_iter_elem.
    destruct (HF _ _ _ eq_refl Hm) as (? & Hv & Hu). rewrite !reject_if_bind, reject_if_Ok.
    rewrite bool_decide_eq_true_2, Hu by done. done.
Qed.

Lemma validate_chutes_Ok u :
  validate_chutes u = Ok tt <->
  (forall n, chutes_e2ee_discovery_rounds u = Some n -> n <> 0 /\ n <= 10) /\
  (forall b, chutes_e2ee_api_base u = Some b -> is_blank b = false) /\
  validate_chute_ids u = Ok tt /\
  (provider u <> Chutes ->
    chutes_e2ee_api_base u = None /\ chutes_chute_ids u = None /\
    chutes_e2ee_discovery_rounds u = None /\ chutes_e2ee_discovery_interval_seconds u = None).
Proof.
  unfold validate_chutes. rewrite !reject_if_bind, unit_bind, reject_if_Ok. f_equiv; [|f_equiv; [|f_equiv]].
  - destruct (chutes_e2ee_discovery_rounds u) as [n|]; [|by split].
    rewrite orb_false_iff, Z.eqb_neq, Z.ltb_ge. split; [by intros Hn ? [= <-]|]. intros Hn. by apply Hn.
  - destruct (chutes_e2ee_api_base u); naive_solver.
  - rewrite andb_false_iff, negb_false_iff, bool_decide_eq_true, !orb_false_iff, !bool_decide_eq_false.
    rewrite <- !eq_None_not_Some. destruct (decide (provider u = Chutes)); naive_solver.
Qed.

Lemma validate_models_Ok upstream models rids rids' :
  validate_models upstream models rids = Ok rids' <->
  (forall pm um, (pm, um) ∈ models -> is_blank pm = false /\ is_blank um = false) /\
  NoDup (map (fun kv => route_id_of upstream kv.1) models) /\
  (forall x, x ∈ map (fun kv => route_id_of upstream kv.1) models -> x ∉ rids) /\
  rids' = list_to_set (map (fun kv => route_id_of upstream kv.1) models) ∪ rids.
Proof.
  revert rids. induction models as [|[pm um] ms IH]; intros rids; cbn.
  - split.
    + intros [= <-]. split_and!; [by intros ?? ?%elem_of_nil|constructor|by intros ? ?%elem_of_nil|set_solver].
    + intros (_ & _ & _ & ->). f_equal. set_solver.
  - rewrite !reject_if_bind, bool_decide_eq_false, IH, NoDup_cons.
    setoid_rewrite elem_of_cons. set (l := map _ ms). split.
    + intros (? & ? & ? & Hms & Hnd & Hd & ->). split_and!; [naive_solver| |done|set_solver|set_solver].
      intros Hin. apply (Hd _ Hin). set_solver.
    + intros (Hms & [Hx Hnd] & Hd & ->). split_and!; [naive_solver..|done| |set_solver].
      intros x Hxl. specialize (Hd x (or_intror Hxl)). set_solver.
Qed.

Lemma validate_fields_Ok u :
  is_blank (name u) = false -> (forall pm um, (pm, um) ∈ btree_iter (models u) -> is_blank pm = false /\ is_blank um = false) ->
  validate_fields u = Ok tt <-> valid_upstream u.
Proof.
  intros Hname Hms. unfold validate_fields. rewrite !reject_if_bind, !unit_bind, reject_if_Ok, bool_decide_eq_false.
  unfold validate_timeouts. rewrite for_each_Ok, validate_chutes_Ok, validate_chute_ids_Ok.
  rewrite andb_false_iff, bool_decide_eq_false. split.
  - intros (Hb & Hm & Ht & (Hr & Ha & [Hc1 Hc2] & Ho) & Han). split; auto.
    + intros pm um Hpm. apply Hms. by apply btree_iter_elem.
    + intros f v Hin ->. specialize (Ht _ Hin). cbn in Ht. by rewrite bool_decide_eq_true_2 in Ht.
    + intros Hp. destruct Han as [|Han]; [done|]. destruct (path u) as [p|]; [|done].
      exists p. split; [done|]. intros ->. done.
  - intros [_ Hb Hm _ Ht Hr Ha Hc1 Hc2 Ho Han]. split_and!; auto.
    + intros [f v] Hin. apply reject_if_Ok, bool_decide_eq_false. by apply (Ht f).
    + destruct (decide (provider u = Anthropic)) as [Hp|]; [|by left]. right.
      destruct (Han Hp) as (p & -> & Hne). by apply String.eqb_neq.
Qed.

Lemma validate_loop_Ok config names rids :
  validate_loop config names rids = Ok tt <->
  Forall valid_upstream config /\
  NoDup (map name config) /\ (forall n, n ∈ map name config -> n ∉ names) /\
  NoDup (config_routes config) /\ (forall x, x ∈ config_routes config -> x ∉ rids).
Proof.
  revert names rids. induction config as [|u config IH]; intros names rids; cbn [validate_loop].
  { cbn. split; [|done]. intros _. split_and!; try constructor; by intros ? ?%elem_of_nil. }
  rewrite !reject_if_bind, unit_bind, result_bind_Ok, bool_decide_eq_false.
  setoid_rewrite validate_models_Ok. setoid_rewrite IH. rewrite Forall_cons.
  cbn [map config_routes flat_map]. rewrite NoDup_cons, NoDup_app. setoid_rewrite elem_of_cons.
  setoid_rewrite elem_of_app. unfold upstream_routes at 1 2 3. set (rs := map _ (btree_iter (models u))).
  fold (config_routes config). split.
  - intros (Hn & Hnn & Hf & rids' & (Hms & Hnd & Hd & ->) & HF & Hnd' & Hd' & Hr & Hr').
    apply validate_fields_Ok in Hf; [|done..]. split_and!; try done.
    + intros Hin. apply (Hd' _ Hin). set_solver.
    + intros n [->|Hin]; [done|]. specialize (Hd' n Hin). set_solver.
    + intros x Hx Hx'. apply (Hr' x Hx'). set_solver.
    + intros x [Hx|Hx]; [by apply Hd|]. specialize (Hr' x Hx). set_solver.
  - intros ([Hu HF] & [Hn Hnd] & Hnn & (Hrs & Hdis & Hnr) & Hx).
    assert (Hms : forall pm um, (pm, um) ∈ btree_iter (models u) -> is_blank pm = false /\ is_blank um = false).
    { intros pm um Hin. apply (vu_models u Hu pm um). by apply btree_iter_elem. }
    split_and!; [apply Hu|by apply Hnn; left|by apply validate_fields_Ok; [apply Hu|..]|].
    exists (list_to_set rs ∪ rids). split_and!; try done; [by auto| |].
    + intros n Hin. specialize (Hnn n (or_intror Hin)). set_solver.
    + intros x Hx'. pose proof (Hx x (or_intror Hx')). assert (x ∉ rs) by (intros ?; by apply (Hdis x)). set_solver.
Qed.

Lemma validate_config_Ok config : validate_config config = Ok tt <-> valid_config config.
Proof.
  unfold validate_config, valid_config. rewrite validate_loop_Ok. split; [naive_solver|].
  intros (? & ? & ?). split_and!; try done; set_solver.
Qed.

Lemma first_seen_elem {A} `{EqDecision A} (seen l : list A) x :
  x ∈ first_seen seen l <-> x ∈ l /\ x ∉ seen.
Proof.
  revert seen. induction l as [|y l IH]; intros seen; cbn; [set_solver|].
  case_bool_decide; rewrite ?elem_of_cons, IH, ?elem_of_cons; [set_solver|].
  destruct (decide (x = y)); set_solver.
Qed.

Lemma first_seen_nodup {A} `{EqDecision A} (seen l : list A) : NoDup (first_seen seen l).
Proof.
  revert seen. induction l as [|y l IH]; intros seen; cbn; [constructor|].
  case_bool_decide; [apply IH|]. constructor; [|apply IH]. rewrite first_seen_elem. set_solver.
Qed.

Lemma enabled_configs_elem config u : u ∈ enabled_configs config <-> u ∈ config /\ enabled u = true.
Proof. unfold enabled_configs. rewrite list_elem_of_filter. tauto. Qed.

(** The models an upstream is probed with. *)
Definition probed (u : UpstreamConfig) (model_id : string) : Prop :=
  if is_per_router (attestation_scope (provider u)) then head (btree_values (models u)) = Some model_id
  else exists public, models u !! public = Some model_id.

Lemma targets_elem configs t :
  t ∈ verification_targets_for_configs configs <->
  exists u, u ∈ configs /\ probed u (t_model_id t) /\ t_upstream_name t = name u /\
    t_url_origin t = Some (OpenAI.trim_end_slashes (base_url u)).
Proof.
  unfold verification_targets_for_configs. rewrite first_seen_elem.
  assert (Hu : forall u, t ∈ config_targets u <-> probed u (t_model_id t) /\ t_upstream_name t = name u /\
    t_url_origin t = Some (OpenAI.trim_end_slashes (base_url u))).
  { intros u. unfold config_targets, probed. rewrite list_elem_of_fmap.
    destruct t as [n m o]. cbn. destruct (is_per_router _);
      [destruct (btree_values (models u)) as [|x l]|rewrite <- btree_values_elem]; cbn; rewrite ?take_0; split.
    - by intros (y & _ & ?%elem_of_nil).
    - by intros [? _].
    - by intros (y & [= -> -> ->] & ->%list_elem_of_singleton).
    - intros ([= ->] & -> & ->). eexists. split; [done|]. apply list_elem_of_singleton. done.
    - by intros (y & [= -> -> ->] & ?).
    - intros (? & -> & ->). eauto. }
  rewrite list_elem_of_In, in_flat_map. setoid_rewrite <- list_elem_of_In. setoid_rewrite Hu. set_solver.
Qed.

(** ** Properties *)

(** Validation accepts exactly the valid configurations: every upstream with
    a name, a base URL and at least one model, no blank model ids, no zero
    timeout, Chutes fields only and well-formed on Chutes upstreams, a path on
    Anthropic ones, and no name or route id used twice across the whole file. *)
Theorem validate_config_iff config : validate_config config = Ok tt <-> valid_config config.
Proof. apply validate_config_Ok. Qed.

(** The background verification probes each enabled channel once: the targets
    have no duplicates and are exactly, for every enabled upstream, all its
    upstream models, or one model when one attestation covers the whole router;
    disabled upstreams are never probed. *)
Theorem verification_targets_exact config :
  NoDup (verification_targets config) /\
  forall t, t ∈ verification_targets config <->
    exists u, u ∈ config /\ enabled u = true /\ probed u (t_model_id t) /\ t_upstream_name t = name u /\
      t_url_origin t = Some (OpenAI.trim_end_slashes (base_url u)).
Proof.
  split; [apply first_seen_nodup|]. intros t. unfold verification_targets. rewrite targets_elem.
  setoid_rewrite enabled_configs_elem. naive_solver.
Qed.

(** ** A concrete configuration *)

Definition demo_upstream (n : string) (p : UpstreamProvider) (ms : BTreeMap) : UpstreamConfig := {|
  name := n; enabled := true; provider := p; base_url := "https://u/"; path := Some "/v1/messages"; models := ms;
  bearer_token := Some "t"; accepted_workload_ids := None; accepted_image_digests := None;
  accepted_dstack_kms_root_public_keys := None; pccs_url := None; verifier_cache_seconds := Some 300;
  connect_timeout_seconds := None; read_timeout_seconds := None; verifier_request_timeout_seconds := None;
  verification_refresh_seconds := None; session_refresh_seconds := None; chutes_e2ee_api_base := None;
  chutes_chute_ids := None; chutes_e2ee_discovery_rounds := None;
  chutes_e2ee_discovery_interval_seconds := None |}.

Definition demo_config : list UpstreamConfig :=
  [demo_upstream "a" NearAi {[ "m" := "x"; "n" := "y" ]}; demo_upstream "b" Anthropic {[ "m" := "z" ]}].

Example demo_config_valid :
  validate_config demo_config = Ok tt /\
  validate_config (demo_config ++ demo_config) = Err (InvalidConfig (DuplicateName "a")) /\
  map t_model_id (verification_targets demo_config) = ["x"; "z"].
Proof. vm_compute. auto. Qed.
