(* ===== verification/AciVerifier.v ===== *)
(** * The ACI service verifier

    Model of [src/aci/verifier/report.rs] (the binding inside an attestation
    report), [dstack.rs] (event log and key custody) and [aci_service.rs] (policy,
    quote check, TLS bindings, the cached verifier), with the report types of
    [src/aci/types.rs] and [verify_keyset_endorsement] of [src/aci/keys.rs].
    Signature schemes, the quote verifier, hex decoding and URL parsing come
    from libraries and are parameters. *)
From S2P Require Import Prelude StrOps Json Canonical Identity Receipt.
Import Types.

(** ** The attestation report *)

Record KeysetEndorsement := { ke_algo : string; ke_value_hex : string }.

Record SourceProvenance := {
  repo_url : option string;
  repo_commit : option string;
  image_digest : option string;
  image_provenance : option Value;
}.

Record Freshness := { fetched_at : Z; stale_after : Z }.

Record AttestationEnvelope := {
  vendor : string;
  tee_type : string;
  workload_keyset : WorkloadKeyset;
  report_data_hex : string;
  keyset_endorsement : KeysetEndorsement;
  source_provenance : SourceProvenance;
  freshness : Freshness;
  att_evidence : Value;
}.

Record AttestationReport := {
  api_version : string;
  rep_workload_id : string;
  rep_workload_keyset_digest : string;
  attestation : AttestationEnvelope;
  supported_e2ee_versions : list string;
}.

(** ** Libraries *)

(** [hex], [base64], the signature schemes and SHA-384.  A k256 key is its
    compressed SEC1 encoding. *)
Class Crypto : Type := {
  hex_decode : string -> result string string;
  base64_encode : string -> string;
  ed25519_verify_strict : string -> string -> string -> bool;
  k256_from_encoded_point : string -> result string string;
  k256_signature_from_slice : string -> result string unit;
  k256_verify : string -> string -> string -> bool;
  k256_recover_keccak : string -> string -> Z -> result string string;
  sha384 : string -> string;
}.

(** The report part of a verified quote. *)
Inductive QuoteReport :=
| SgxEnclave (report_data : string)
| TD10 (report_data rt_mr3 : string)
| TD15 (report_data rt_mr3 : string).

Definition strip_0x (s : string) : string :=
  match s with String "0" (String "x" rest) => rest | _ => s end.

Inductive AciReportValidationError :=
| UnsupportedApiVersion (v : string)
| WorkloadIdMismatch
| WorkloadKeysetDigestMismatch
| ReportDataMismatch
| InvalidReportDataHex (e : string)
| KeysetEndorsementAlgoMismatch
| InvalidKeysetEndorsementHex (e : string)
| KeysetEndorsementInvalid
| StaleReport
| CanonicalFailed (e : CanonicalError).

(** ** Errors of the verifier *)

Inductive AciServiceVerificationError :=
| VTransport (e : string)
| HttpStatus (status : Z) (body : string)
| VInvalidJson (e : string)
| AciBinding (e : AciReportValidationError)
| PolicyRejected
| MissingQuote
| InvalidQuoteHex (e : string)
| InvalidQuoteReportDataHex (e : string)
| QuoteReportDataEvidenceMismatch
| Collateral (e : string)
| QuoteVerification (e : string)
| Timeout
| TeeTypeMismatch (reported verified : string)
| QuoteReportDataMismatch
| MissingEventLog
| InvalidEventLog (e : string)
| EventLogRtmrMismatch
| MissingAppId
| MissingKeyCustody
| UnsupportedKeyCustodyProvider (p : string)
| InvalidKeyCustody (e : string)
| MissingIdentityKeyCustody
| IdentityKeyCustodyMismatch
| KmsSignatureChain (e : string)
| KmsRootRejected
| MissingTlsSpkiBinding
| MissingDownstreamTlsBinding
| InvalidDownstreamTlsBinding (e : string)
| DownstreamTlsBindingHostMismatch (reported expected : string)
| DownstreamTlsBindingNotInKeyset.

Abbreviation vresult := (result AciServiceVerificationError).

Record DstackEventLog := { imr : Z; ev_digest : string; event : string; event_payload : string }.

(** [serde_json] on the event log and the report, [{:?}] of the standard
    library, the host of a URL, the quote verifier with its
    collateral, and the text of an error. *)
Class VerifierLibs : Type := {
  parse_event_log : string -> result string (list DstackEventLog);
  parse_report : string -> result string AttestationReport;
  debug : string -> string;
  url_host : string -> result string (option string);
  collateral : Type;
  get_collateral : string -> string -> result string collateral;
  dcap_verify : string -> collateral -> Z -> result string QuoteReport;
  display : AciServiceVerificationError -> string;
}.

Section Verifier.
Context `{Digest} `{Crypto} `{VerifierLibs}.

Definition decode_hex (value : string) : result string string := hex_decode (strip_0x value).

Definition decode_hex_32 (value : string) : result string string :=
  decode_hex value ≫= fun bytes =>
  if Nat.eqb (String.length bytes) 32 then Ok bytes
  else Err ("expected 32 bytes, got " +:+ z_to_string (Z.of_nat (String.length bytes))).

Definition verify_keyset_endorsement (identity : PublicKeyMaterial) (payload signature : string) : bool :=
  if String.eqb (pk_algo identity) "ed25519" then
    match hex_decode (pk_public_key_hex identity) with
    | Ok pub => Nat.eqb (String.length pub) 32 && Nat.eqb (String.length signature) 64
                && ed25519_verify_strict pub payload signature
    | Err _ => false
    end
  else if String.eqb (pk_algo identity) "ecdsa-secp256k1" then
    if negb (Nat.eqb (String.length signature) 64) then false
    else match hex_decode (pk_public_key_hex identity) with
         | Ok pub =>
             match k256_from_encoded_point pub with
             | Ok vk => match k256_signature_from_slice signature with
                        | Ok _ => k256_verify vk payload signature
                        | Err _ => false
                        end
             | Err _ => false
             end
         | Err _ => false
         end
  else false.

(** ** Binding inside the report *)

Record ValidatedAciReport := {
  v_workload_id : string;
  v_workload_keyset_digest : string;
  v_report_data : string;
  v_evidence : option Value;
}.

Definition raw_evidence (data content_type : string) (source_url : option string) : Value :=
  let evidence := [("digest", Str (sha256_hex data));
                   ("data", Str ("data:" +:+ content_type +:+ ";base64," +:+ base64_encode data))] in
  match source_url with
  | Some source_url => Obj (map_insert "source_url" (Str source_url) evidence)
  | None => Obj evidence
  end.

Definition unless {E} (b : bool) (e : E) : result E unit := if b then Ok tt else Err e.

Definition validate_aci_report_binding (report : AttestationReport) (nonce : option string) (now_secs : Z)
    (raw_report_body : option string) : result AciReportValidationError ValidatedAciReport :=
  let att := attestation report in
  unless (String.eqb (api_version report) "aci/1") (UnsupportedApiVersion (api_version report)) ≫= fun _ =>
  map_err CanonicalFailed (workload_id (workload_identity (workload_keyset att))) ≫= fun computed_workload_id =>
  unless (String.eqb computed_workload_id (rep_workload_id report)) WorkloadIdMismatch ≫= fun _ =>
  map_err CanonicalFailed (workload_keyset_digest (workload_keyset att)) ≫= fun computed_keyset_digest =>
  unless (String.eqb computed_keyset_digest (rep_workload_keyset_digest report)) WorkloadKeysetDigestMismatch
    ≫= fun _ =>
  map_err CanonicalFailed (attestation_statement (workload_keyset att) nonce) ≫= fun statement =>
  map_err CanonicalFailed (report_data statement) ≫= fun expected_report_data =>
  map_err InvalidReportDataHex (decode_hex_32 (report_data_hex att)) ≫= fun reported_report_data =>
  unless (String.eqb reported_report_data expected_report_data) ReportDataMismatch ≫= fun _ =>
  let identity_key := public_key (workload_identity (workload_keyset att)) in
  unless (String.eqb (ke_algo (keyset_endorsement att)) (pk_algo identity_key)) KeysetEndorsementAlgoMismatch
    ≫= fun _ =>
  map_err CanonicalFailed (keyset_endorsement_payload (workload_keyset att)) ≫= fun endorsement_payload =>
  map_err InvalidKeysetEndorsementHex (decode_hex (ke_value_hex (keyset_endorsement att))) ≫= fun endorsement_sig =>
  unless (verify_keyset_endorsement identity_key endorsement_payload endorsement_sig) KeysetEndorsementInvalid
    ≫= fun _ =>
  unless (negb ((now_secs <? fetched_at (freshness att)) || (stale_after (freshness att) <=? now_secs))) StaleReport
    ≫= fun _ =>
  Ok {| v_workload_id := rep_workload_id report; v_workload_keyset_digest := rep_workload_keyset_digest report;
        v_report_data := expected_report_data;
        v_evidence := option_map (fun body => raw_evidence body "application/json" None) raw_report_body |}.

(** A string field of an object. *)
Definition get_str (v : Value) (k : string) : option string :=
  match get v k with Some x => as_str x | None => None end.

(** ** dstack: event log and key custody *)

Fixpoint zeros (n : nat) : string := match n with O => "" | S n => String "000" (zeros n) end.

(** [digest.resize(48, 0)] of a shorter digest. *)
Definition pad48 (digest : string) : string :=
  if Nat.ltb (String.length digest) 48 then digest +:+ zeros (48 - String.length digest) else digest.

Fixpoint replay_loop (events : list DstackEventLog) (mr : string) : vresult string :=
  match events with
  | [] => Ok mr
  | e :: events =>
      map_err InvalidEventLog (decode_hex (ev_digest e)) ≫= fun digest =>
      replay_loop events (sha384 (mr +:+ pad48 digest))
  end.

Definition replay_dstack_rtmr (events : list DstackEventLog) (which : Z) : vresult string :=
  replay_loop (filter (fun e => imr e = which) events) (zeros 48) ≫= fun mr =>
  if Nat.eqb (String.length mr) 48 then Ok mr else Err (InvalidEventLog "replayed RTMR is not 48 bytes").

Definition dcap_rtmr3 (r : QuoteReport) : option string :=
  match r with TD10 _ m | TD15 _ m => Some m | SgxEnclave _ => None end.

Definition is_system_ready (e : DstackEventLog) : bool := (imr e =? 3) && String.eqb (event e) "system-ready".
Definition is_app_id (e : DstackEventLog) : bool := (imr e =? 3) && String.eqb (event e) "app-id".

(** [take_while] not system-ready, then [find] the app-id. *)
Fixpoint find_app_id (events : list DstackEventLog) : option DstackEventLog :=
  match events with
  | [] => None
  | e :: events => if is_system_ready e then None else if is_app_id e then Some e else find_app_id events
  end.

Definition verify_dstack_event_log_and_app_id (evidence : Value) (report : QuoteReport) : vresult string :=
  ok_or (get_str evidence "event_log") MissingEventLog ≫= fun event_log =>
  map_err InvalidEventLog (parse_event_log event_log) ≫= fun events =>
  replay_dstack_rtmr events 3 ≫= fun rtmr3 =>
  ok_or (dcap_rtmr3 report) (InvalidEventLog "dstack event log verification requires a TDX quote")
    ≫= fun quote_rtmr3 =>
  unless (String.eqb rtmr3 quote_rtmr3) EventLogRtmrMismatch ≫= fun _ =>
  ok_or (find_app_id events) MissingAppId ≫= fun app_id =>
  map_err InvalidEventLog (decode_hex (event_payload app_id)).

Definition compressed_k256_public_key_hex (public_key_hex : string) : result string string :=
  decode_hex public_key_hex ≫= fun public_key =>
  map_err (fun e => "invalid secp256k1 public key: " +:+ e) (k256_from_encoded_point public_key) ≫= fun key =>
  Ok (hex_encode key).

Definition byte_at (s : string) (i : nat) : Z :=
  match String.get i s with Some a => Z.of_N (N_of_ascii a) | None => 0 end.

Definition recover_k256_public_key (message signature : string) : result string string :=
  if negb (Nat.eqb (String.length signature) 65) then
    Err ("recoverable secp256k1 signature must be 65 bytes, got "
         +:+ z_to_string (Z.of_nat (String.length signature)))
  else
    let recovery_byte := byte_at signature 64 in
    let recovery_byte := if (27 <=? recovery_byte) && (recovery_byte <=? 30) then recovery_byte - 27
                         else recovery_byte in
    if negb (recovery_byte <=? 3) then Err ("invalid recovery id: " +:+ z_to_string (byte_at signature 64))
    else
      map_err (fun e => "invalid secp256k1 signature: " +:+ e)
        (k256_signature_from_slice (String.substring 0 64 signature)) ≫= fun _ =>
      map_err (fun e => "secp256k1 public key recovery failed: " +:+ e)
        (k256_recover_keccak message (String.substring 0 64 signature) recovery_byte).

Record AciServiceVerifierPolicy := {
  pol_accepted_workload_ids : gset string;
  pol_accepted_image_digests : gset string;
  accepted_kms_root_public_keys : gset string;
}.

(** One signature of the chain. *)
Definition chain_signature (chain : list Value) (i : nat) : vresult string :=
  ok_or (match chain !! i with Some v => as_str v | None => None end)
    (InvalidKeyCustody ("identity key custody signature_chain[" +:+ z_to_string (Z.of_nat i)
                        +:+ "] is not a string")) ≫= fun s =>
  map_err InvalidKeyCustody (decode_hex s).

Definition verify_dstack_kms_identity_custody (report : AttestationReport) (app_id : string)
    (policy : AciServiceVerifierPolicy) : vresult unit :=
  ok_or (get (att_evidence (attestation report)) "key_custody") MissingKeyCustody ≫= fun key_custody =>
  ok_or (get_str key_custody "provider") (InvalidKeyCustody "missing provider") ≫= fun provider =>
  unless (String.eqb provider "dstack-kms") (UnsupportedKeyCustodyProvider provider) ≫= fun _ =>
  ok_or (match get key_custody "keys" with Some v => as_array v | None => None end)
    (InvalidKeyCustody "missing keys") ≫= fun keys =>
  ok_or (List.find (fun key => bool_decide (get_str key "role" = Some "identity")) keys)
    MissingIdentityKeyCustody ≫= fun identity =>
  ok_or (get_str identity "public_key") (InvalidKeyCustody "identity key custody missing public_key")
    ≫= fun custody_key =>
  unless (String.eqb custody_key
            (pk_public_key_hex (public_key (workload_identity (workload_keyset (attestation report))))))
    IdentityKeyCustodyMismatch ≫= fun _ =>
  ok_or (get_str identity "purpose") (InvalidKeyCustody "identity key custody missing purpose") ≫= fun purpose =>
  ok_or (match get identity "signature_chain" with Some v => as_array v | None => None end)
    (InvalidKeyCustody "identity key custody missing signature_chain") ≫= fun signature_chain =>
  unless (Nat.eqb (length signature_chain) 2)
    (InvalidKeyCustody ("identity key custody signature_chain must contain 2 signatures, got "
                        +:+ z_to_string (Z.of_nat (length signature_chain)))) ≫= fun _ =>
  chain_signature signature_chain 0 ≫= fun purpose_signature =>
  chain_signature signature_chain 1 ≫= fun app_signature =>
  map_err KmsSignatureChain (compressed_k256_public_key_hex custody_key) ≫= fun identity_compressed =>
  map_err KmsSignatureChain (recover_k256_public_key (purpose +:+ ":" +:+ identity_compressed) purpose_signature)
    ≫= fun app_public_key =>
  map_err KmsSignatureChain
    (recover_k256_public_key ("dstack-kms-issued" +:+ ":" +:+ app_id +:+ app_public_key) app_signature)
    ≫= fun root_public_key =>
  unless (bool_decide (hex_encode root_public_key ∈ accepted_kms_root_public_keys policy)) KmsRootRejected.
(** ** Policy *)

Inductive AciServiceVerifierConfigError :=
| EmptyPolicy
| EmptyKmsRootPolicy
| InvalidKmsRootPublicKey (e : string)
| EmptyBaseUrl
| ClientFailed (e : string).

(** [collect::<Result<BTreeSet<_>, _>>] of the compressed keys. *)
Fixpoint compress_keys (keys : list string) : result AciServiceVerifierConfigError (gset string) :=
  match keys with
  | [] => Ok ∅
  | key :: keys =>
      map_err InvalidKmsRootPublicKey (compressed_k256_public_key_hex key) ≫= fun c =>
      compress_keys keys ≫= fun cs => Ok ({[ c ]} ∪ cs)
  end.

Definition non_empty (l : list string) : list string := filter (fun x => x <> "") l.

Definition policy_new (workload_ids image_digests kms_root_public_keys : list string) :
    result AciServiceVerifierConfigError AciServiceVerifierPolicy :=
  let workload_ids := non_empty workload_ids in
  let image_digests := non_empty image_digests in
  compress_keys kms_root_public_keys ≫= fun roots =>
  unless (negb (bool_decide (workload_ids = []) && bool_decide (image_digests = []))) EmptyPolicy ≫= fun _ =>
  unless (negb (bool_decide (roots = ∅))) EmptyKmsRootPolicy ≫= fun _ =>
  Ok {| pol_accepted_workload_ids := list_to_set workload_ids;
        pol_accepted_image_digests := list_to_set image_digests;
        accepted_kms_root_public_keys := roots |}.

Definition accepts (policy : AciServiceVerifierPolicy) (report : AttestationReport) : bool :=
  bool_decide (rep_workload_id report ∈ pol_accepted_workload_ids policy) ||
  match image_digest (source_provenance (attestation report)) with
  | Some digest => bool_decide (digest ∈ pol_accepted_image_digests policy)
  | None => false
  end.

(** ** TLS channel bindings of a report *)

Definition str_contains (c : ascii) (s : string) : bool := existsb (Ascii.eqb c) (String.list_ascii_of_string s).

Fixpoint drop_dots (l : list ascii) : list ascii :=
  match l with c :: l' => if Ascii.eqb c "." then drop_dots l' else l | [] => [] end.

Definition trim_end_dots (s : string) : string :=
  String.string_of_list_ascii (rev (drop_dots (rev (String.list_ascii_of_string s)))).

Definition normalize_tls_domain (raw : string) : result string string :=
  let domain := to_ascii_lowercase (trim_end_dots (str_trim raw)) in
  if String.eqb domain "" || str_contains "/" domain || str_contains ":" domain || str_contains "=" domain
     || str_contains "," domain || existsb char_is_whitespace (chars domain)
  then Err ("invalid TLS domain " +:+ debug raw) else Ok domain.

Definition is_ascii_hexdigit (a : ascii) : bool :=
  let c := N_of_ascii a in
  ((48 <=? c) && (c <=? 57) || (65 <=? c) && (c <=? 70) || (97 <=? c) && (c <=? 102))%N.

Definition normalize_sha256_hex (value : string) : result string string :=
  let value := str_trim value in
  if negb (Nat.eqb (String.length value) 64) || negb (string_forallb is_ascii_hexdigit value)
  then Err "expected 64 hex characters" else Ok (to_ascii_lowercase value).

Record SelectedDownstreamTlsBinding := { sel_domain : string; sel_spki_sha256 : string }.

Definition selected_downstream_tls_binding (evidence : Value) : vresult SelectedDownstreamTlsBinding :=
  ok_or (get evidence "downstream_tls_binding") MissingDownstreamTlsBinding ≫= fun binding =>
  ok_or (get_str binding "domain")
    (InvalidDownstreamTlsBinding "downstream_tls_binding.domain must be a string") ≫= fun domain =>
  ok_or (get_str binding "spki_sha256")
    (InvalidDownstreamTlsBinding "downstream_tls_binding.spki_sha256 must be a string") ≫= fun spki_sha256 =>
  map_err (fun e => InvalidDownstreamTlsBinding ("invalid downstream_tls_binding.domain: " +:+ e))
    (normalize_tls_domain domain) ≫= fun domain =>
  map_err (fun e => InvalidDownstreamTlsBinding ("invalid downstream_tls_binding.spki_sha256: " +:+ e))
    (normalize_sha256_hex spki_sha256) ≫= fun spki =>
  Ok {| sel_domain := domain; sel_spki_sha256 := spki |}.

Definition origin_host_domain (origin : string) : vresult string :=
  map_err (fun e => InvalidDownstreamTlsBinding ("invalid report base URL " +:+ debug origin +:+ ": " +:+ e))
    (url_host origin) ≫= fun host =>
  ok_or host (InvalidDownstreamTlsBinding ("report base URL " +:+ debug origin +:+ " has no host")) ≫= fun host =>
  map_err (fun e => InvalidDownstreamTlsBinding ("invalid report base URL host " +:+ debug host +:+ ": " +:+ e))
    (normalize_tls_domain host).

Definition keyset_spki (key : TlsSpki) : vresult string :=
  map_err (fun e => InvalidDownstreamTlsBinding ("invalid keyset TLS SPKI digest: " +:+ e))
    (normalize_sha256_hex (spki_sha256_hex key)).

(** The bindings of a keyset without domains. *)
Fixpoint all_bindings (origin : string) (keys : list TlsSpki) : vresult (list ChannelBinding) :=
  match keys with
  | [] => Ok []
  | key :: keys =>
      keyset_spki key ≫= fun spki =>
      all_bindings origin keys ≫= fun rest => Ok (TlsSpkiSha256 origin spki :: rest)
  end.

(** The search for the selected key among the domain-scoped ones. *)
Fixpoint find_selected (origin : string) (selected : SelectedDownstreamTlsBinding) (keys : list TlsSpki) :
    vresult (list ChannelBinding) :=
  match keys with
  | [] => Err DownstreamTlsBindingNotInKeyset
  | key :: keys =>
      match domain key with
      | None => find_selected origin selected keys
      | Some d =>
          map_err (fun e => InvalidDownstreamTlsBinding ("invalid keyset TLS domain " +:+ debug d +:+ ": " +:+ e))
            (normalize_tls_domain d) ≫= fun key_domain =>
          keyset_spki key ≫= fun key_spki =>
          if String.eqb key_domain (sel_domain selected) && String.eqb key_spki (sel_spki_sha256 selected)
          then Ok [TlsSpkiSha256 origin (sel_spki_sha256 selected)]
          else find_selected origin selected keys
      end
  end.

Definition aci_report_tls_channel_bindings (report : AttestationReport) (origin : string) :
    vresult (list ChannelBinding) :=
  let keys := tls_public_keys (workload_keyset (attestation report)) in
  if bool_decide (keys = []) then Err MissingTlsSpkiBinding
  else if negb (existsb (fun key => bool_decide (is_Some (domain key))) keys) then all_bindings origin keys
  else
    selected_downstream_tls_binding (att_evidence (attestation report)) ≫= fun selected =>
    origin_host_domain origin ≫= fun origin_domain =>
    unless (String.eqb (sel_domain selected) origin_domain)
      (DownstreamTlsBindingHostMismatch (sel_domain selected) origin_domain) ≫= fun _ =>
    find_selected origin selected keys.

(** ** The quote *)

Definition dcap_report_data (r : QuoteReport) : string :=
  match r with SgxEnclave d | TD10 d _ | TD15 d _ => d end.

Definition expected_dcap_report_data (report_data : string) : string := report_data +:+ zeros 32.

Definition verify_dcap_quote (pccs_url : string) (policy : AciServiceVerifierPolicy) (report : AttestationReport)
    (validated : ValidatedAciReport) (now_secs : Z) : vresult unit :=
  let att := attestation report in
  ok_or (get_str (att_evidence att) "quote") MissingQuote ≫= fun quote_hex =>
  map_err InvalidQuoteHex (decode_hex quote_hex) ≫= fun raw_quote =>
  map_err Collateral (get_collateral pccs_url raw_quote) ≫= fun collateral =>
  map_err QuoteVerification (dcap_verify raw_quote collateral now_secs) ≫= fun verified =>
  let verified_tee_type := match verified with SgxEnclave _ => "sgx" | _ => "tdx" end in
  unless (String.eqb (tee_type att) verified_tee_type) (TeeTypeMismatch (tee_type att) verified_tee_type) ≫= fun _ =>
  let quote_report_data := dcap_report_data verified in
  (match get_str (att_evidence att) "quote_report_data" with
   | Some evidence_report_data_hex =>
       map_err InvalidQuoteReportDataHex (decode_hex evidence_report_data_hex) ≫= fun evidence_report_data =>
       unless (String.eqb evidence_report_data quote_report_data) QuoteReportDataEvidenceMismatch
   | None => Ok tt
   end) ≫= fun _ =>
  unless (String.eqb quote_report_data (expected_dcap_report_data (v_report_data validated)))
    QuoteReportDataMismatch ≫= fun _ =>
  verify_dstack_event_log_and_app_id (att_evidence att) verified ≫= fun app_id =>
  verify_dstack_kms_identity_custody report app_id policy.

(** ** The verifier and its cache *)

Record CachedAciServiceVerification := {
  c_expires_at : Z;
  c_vendor : string;
  c_evidence : option Value;
  c_channel_bindings : list ChannelBinding;
}.

Record AciServiceUpstreamVerifier := {
  report_base_url : string;
  v_pccs_url : string;
  policy : AciServiceVerifierPolicy;
  cache_ttl_seconds : Z;
  request_timeout_seconds : Z;
  cache : option CachedAciServiceVerification;
}.

Definition ACI_VERIFIER_ID : string := "aci-service/v1".

Record UpstreamVerificationRequest := {
  vr_upstream_name : string;
  vr_url_origin : option string;
  vr_model_id : string;
  forwarded_body_hash : string;
  vr_required : bool;
}.

Definition event_for (c : CachedAciServiceVerification) (request : UpstreamVerificationRequest)
    (verifier_id : string) : UpstreamVerifiedEvent :=
  {| upstream_name := c_vendor c; provider_type := None; model_id := vr_model_id request;
     url_origin := vr_url_origin request; verifier_id := verifier_id; uv_result := Verified;
     required := vr_required request; reason := None; evidence := c_evidence c;
     channel_bindings := c_channel_bindings c; provider_claims := None |}.

(** What one uncached verification meets: a fresh nonce, the upstream's answer to
    the URL asked, the time after it arrived, and whether the deadline passed. *)
Record Attempt := {
  nonce_hex : string;
  http_get : string -> result string (Z * string);
  verified_at : Z;
  timed_out : bool;
}.

Definition verify_uncached (v : AciServiceUpstreamVerifier) (a : Attempt) : vresult CachedAciServiceVerification :=
  let nonce := nonce_hex a in
  let url := report_base_url v +:+ "/v1/aci/attestation" +:+ "?nonce=" +:+ nonce in
  map_err VTransport (http_get a url) ≫= fun '(status, body) =>
  unless ((200 <=? status) && (status <? 300)) (HttpStatus status (from_utf8_lossy body)) ≫= fun _ =>
  map_err VInvalidJson (parse_report body) ≫= fun report =>
  map_err AciBinding (validate_aci_report_binding report (Some nonce) (verified_at a) (Some body)) ≫= fun validated =>
  unless (accepts (policy v) report) PolicyRejected ≫= fun _ =>
  verify_dcap_quote (v_pccs_url v) (policy v) report validated (verified_at a) ≫= fun _ =>
  aci_report_tls_channel_bindings report (report_base_url v) ≫= fun channel_bindings =>
  Ok {| c_expires_at := Z.min (u64_saturating_add (verified_at a) (cache_ttl_seconds v))
                          (stale_after (freshness (attestation report)));
        c_vendor := vendor (attestation report); c_evidence := v_evidence validated;
        c_channel_bindings := channel_bindings |}.

Definition set_cache (v : AciServiceUpstreamVerifier) (c : CachedAciServiceVerification) : AciServiceUpstreamVerifier :=
  {| report_base_url := report_base_url v; v_pccs_url := v_pccs_url v; policy := policy v;
     cache_ttl_seconds := cache_ttl_seconds v; request_timeout_seconds := request_timeout_seconds v;
     cache := Some c |}.

Definition failed_event (request : UpstreamVerificationRequest) (verifier_id reason : string) : UpstreamVerifiedEvent :=
  {| upstream_name := vr_upstream_name request; provider_type := None; model_id := vr_model_id request;
     url_origin := vr_url_origin request; verifier_id := verifier_id; uv_result := Failed;
     required := vr_required request; reason := Some reason; evidence := None; channel_bindings := [];
     provider_claims := None |}.

Definition verify (v : AciServiceUpstreamVerifier) (now_secs : Z) (a : Attempt)
    (request : UpstreamVerificationRequest) : UpstreamVerifiedEvent * AciServiceUpstreamVerifier :=
  let uncached :=
    match (if timed_out a then Err Timeout else verify_uncached v a) with
    | Ok verified => (event_for verified request ACI_VERIFIER_ID, set_cache v verified)
    | Err err => (failed_event request ACI_VERIFIER_ID (display err), v)
    end in
  match cache v with
  | Some cached => if now_secs <? c_expires_at cached then (event_for cached request ACI_VERIFIER_ID, v) else uncached
  | None => uncached
  end.

(** The trait's default methods, which this verifier does not override. *)
Definition invalidate (v : AciServiceUpstreamVerifier) (request : UpstreamVerificationRequest) :
    AciServiceUpstreamVerifier := v.

Definition refresh (v : AciServiceUpstreamVerifier) (now_secs : Z) (a : Attempt)
    (request : UpstreamVerificationRequest) : UpstreamVerifiedEvent * AciServiceUpstreamVerifier :=
  verify (invalidate v request) now_secs a request.
End Verifier.

(** ** Lemmas *)

(** Split the first step of a computation that succeeded. *)
Ltac bind_step H :=
  lazymatch type of H with
  | (unless ?b _ ≫= _) = Ok _ =>
      let E := fresh "E" in destruct b eqn:E; cbn [unless mbind result_bind] in H; [|discriminate H]
  | (map_err _ ?m ≫= _) = Ok _ =>
      let E := fresh "E" in destruct m eqn:E; cbn [map_err mbind result_bind] in H; [|discriminate H]
  | (ok_or ?m _ ≫= _) = Ok _ =>
      let E := fresh "E" in destruct m eqn:E; cbn [ok_or mbind result_bind] in H; [|discriminate H]
  | (?m ≫= _) = Ok _ =>
      let E := fresh "E" in destruct m eqn:E; cbn [mbind result_bind] in H; [|discriminate H]
  end.

Lemma string_app_inv_tail (a b c : string) : a +:+ c = b +:+ c -> a = b.
Proof.
  intros E. pose proof (f_equal String.length E) as Hl. rewrite !string_app_length in Hl.
  assert (Hab : String.length a = String.length b) by lia. clear Hl.
  revert b E Hab. induction a as [|x a IH]; intros [|y b] E Hab; try done.
  cbn in E, Hab. injection E as -> E. f_equal. apply IH; [done|lia].
Qed.

Section Lemmas.
Context `{Digest} `{Crypto} `{VerifierLibs}.

(** What a validated report shows of itself. *)
Lemma validate_binding_Ok report nonce now body v :
  validate_aci_report_binding report nonce now body = Ok v ->
  let ks := workload_keyset (attestation report) in
  api_version report = "aci/1" /\
  workload_id (workload_identity ks) = Ok (rep_workload_id report) /\
  workload_keyset_digest ks = Ok (rep_workload_keyset_digest report) /\
  (exists st, attestation_statement ks nonce = Ok st /\ report_data st = Ok (v_report_data v)) /\
  decode_hex_32 (report_data_hex (attestation report)) = Ok (v_report_data v) /\
  (exists payload sig, keyset_endorsement_payload ks = Ok payload /\
     decode_hex (ke_value_hex (keyset_endorsement (attestation report))) = Ok sig /\
     verify_keyset_endorsement (public_key (workload_identity ks)) payload sig = true) /\
  fetched_at (freshness (attestation report)) <= now < stale_after (freshness (attestation report)).
Proof.
  unfold validate_aci_report_binding. cbn zeta. intros Hv. repeat bind_step Hv. injection Hv as <-.
  repeat match goal with E : String.eqb _ _ = true |- _ => apply String.eqb_eq in E end. subst.
  split; [done|]. split; [done|]. split; [done|]. split; [eauto|]. split; [done|]. split; [eauto|].
  match goal with E : negb _ = true |- _ => rewrite negb_true_iff, orb_false_iff, Z.ltb_ge, Z.leb_gt in E; exact E end.
Qed.

(** What an accepted quote binds. *)
Lemma verify_dcap_quote_Ok pccs pol report validated now u :
  verify_dcap_quote pccs pol report validated now = Ok u ->
  exists quote raw c q app_id, get_str (att_evidence (attestation report)) "quote" = Some quote /\
    decode_hex quote = Ok raw /\ get_collateral pccs raw = Ok c /\ dcap_verify raw c now = Ok q /\
    dcap_report_data q = expected_dcap_report_data (v_report_data validated) /\
    verify_dstack_event_log_and_app_id (att_evidence (attestation report)) q = Ok app_id /\
    verify_dstack_kms_identity_custody report app_id pol = Ok u.
Proof.
  unfold verify_dcap_quote. cbn zeta. intros Hv. repeat bind_step Hv.
  match goal with E : String.eqb (dcap_report_data _) (expected_dcap_report_data _) = true |- _ =>
    apply String.eqb_eq in E end. eexists _, _, _, _, _. split_and!; done.
Qed.

Lemma all_bindings_Ok origin keys bs :
  all_bindings origin keys = Ok bs ->
  length bs = length keys /\
  Forall (fun b => exists key spki, key ∈ keys /\ keyset_spki key = Ok spki /\ b = TlsSpkiSha256 origin spki) bs.
Proof.
  revert bs. induction keys as [|key keys IH]; intros bs; cbn [all_bindings]; [by intros [= <-]|].
  intros Hb. bind_step Hb. bind_step Hb. injection Hb as <-. destruct (IH _ eq_refl) as [Hl HF]. cbn. split; [lia|].
  constructor; [eexists _, _; split_and!; [by left|done..]|].
  eapply Forall_impl; [exact HF|]. intros b (k & spki & Hin & ? & ?). exists k, spki. split_and!; [by right|done..].
Qed.

Lemma find_selected_Ok origin selected keys bs :
  find_selected origin selected keys = Ok bs ->
  exists key d spki, key ∈ keys /\ domain key = Some d /\ normalize_tls_domain d = Ok (sel_domain selected) /\
    keyset_spki key = Ok spki /\ bs = [TlsSpkiSha256 origin spki].
Proof.
  induction keys as [|key keys IH]; cbn [find_selected]; [done|].
  assert (Hrec : find_selected origin selected keys = Ok bs -> exists key0 d spki, key0 ∈ key :: keys /\
    domain key0 = Some d /\ normalize_tls_domain d = Ok (sel_domain selected) /\
    keyset_spki key0 = Ok spki /\ bs = [TlsSpkiSha256 origin spki]).
  { intros (k & d & spki & Hin & ?)%IH. exists k, d, spki. split; [by right|done]. }
  destruct (domain key) as [d|] eqn:Hd; [|exact Hrec]. intros Hb. bind_step Hb. bind_step Hb.
  destruct (_ && _) eqn:Heq; [|by apply Hrec]. apply andb_true_iff in Heq as [->%String.eqb_eq ->%String.eqb_eq].
  injection Hb as <-. exists key, d, (sel_spki_sha256 selected). split; [by left|]. done.
Qed.

(** An attested TLS binding of a report for an origin: the origin is the one
    asked and the digest is of a TLS key of the attested keyset; a key scoped to
    a domain is only used for an origin with that host. *)
Definition attested_binding (report : AttestationReport) (origin : string) (b : ChannelBinding) : Prop :=
  exists key spki, key ∈ tls_public_keys (workload_keyset (attestation report)) /\
    keyset_spki key = Ok spki /\ b = TlsSpkiSha256 origin spki /\
    (forall d, domain key = Some d -> exists host, normalize_tls_domain d = Ok host /\ origin_host_domain origin = Ok host).

Lemma tls_bindings_attested report origin bs :
  aci_report_tls_channel_bindings report origin = Ok bs ->
  bs <> [] /\ Forall (attested_binding report origin) bs.
Proof.
  unfold aci_report_tls_channel_bindings. set (keys := tls_public_keys _). cbn zeta.
  case_bool_decide as Hne; [done|].
  destruct (existsb (fun key => bool_decide (is_Some (domain key))) keys) eqn:Hany; cbn [negb].
  - intros Hb. bind_step Hb. bind_step Hb. bind_step Hb. apply String.eqb_eq in E1.
    apply find_selected_Ok in Hb as (key & d & spki & Hin & Hd & Hn & Hs & ->). split; [done|].
    constructor; [|constructor]. exists key, spki. split_and!; try done. intros d' Hd'. exists (sel_domain a).
    rewrite Hd' in Hd. injection Hd as ->. by subst.
  - intros [Hl HF]%all_bindings_Ok. split; [intros ->; by destruct keys|].
    eapply Forall_impl; [exact HF|]. intros b (key & spki & Hin & Hs & Hb). exists key, spki. split_and!; try done.
    intros d Hd. exfalso. assert (Hx : existsb (fun key => bool_decide (is_Some (domain key))) keys = true).
    { apply existsb_exists. exists key. split; [by apply list_elem_of_In|]. by rewrite Hd. }
    congruence.
Qed.
End Lemmas.

(** ** Properties *)

(** A quote says one thing: whatever the collateral and the time, its report part
    is the one encoded in it. *)
Class QuoteLaws `{VerifierLibs} : Prop :=
  quote_report_fixed raw c1 t1 q1 c2 t2 q2 :
    dcap_verify raw c1 t1 = Ok q1 -> dcap_verify raw c2 t2 = Ok q2 -> q1 = q2.

(** A hardware quote cannot be replayed: if one quote is accepted in two
    verifications, then both were for the same nonce and the same attested
    keyset, unless SHA-256 collides on the two statements or the two keysets. *)
Theorem quote_not_replayable `{DigestLaws} `{Crypto} `{QuoteLaws} pccs1 pccs2 pol1 pol2 r1 r2 n1 n2 t1 t2 b1 b2 v1 v2 u1 u2 :
  let ks1 := workload_keyset (attestation r1) in
  let ks2 := workload_keyset (attestation r2) in
  wf_keyset ks1 -> wf_keyset ks2 -> wf_opt n1 -> wf_opt n2 ->
  validate_aci_report_binding r1 n1 t1 b1 = Ok v1 -> validate_aci_report_binding r2 n2 t2 b2 = Ok v2 ->
  verify_dcap_quote pccs1 pol1 r1 v1 t1 = Ok u1 -> verify_dcap_quote pccs2 pol2 r2 v2 t2 = Ok u2 ->
  get_str (att_evidence (attestation r1)) "quote" = get_str (att_evidence (attestation r2)) "quote" ->
  (ks1 = ks2 /\ n1 = n2) \/
  (exists s1 s2, attestation_statement ks1 n1 = Ok s1 /\ attestation_statement ks2 n2 = Ok s2 /\
     value_collision (AttestationStatement_value s1) (AttestationStatement_value s2)) \/
  value_collision (WorkloadKeyset_value ks1) (WorkloadKeyset_value ks2).
Proof.
  intros ks1 ks2 Hw1 Hw2 Hn1 Hn2 Hv1 Hv2 Hq1 Hq2 Hquote.
  apply validate_binding_Ok in Hv1 as (_ & _ & _ & (s1 & Hs1 & Hr1) & _).
  apply validate_binding_Ok in Hv2 as (_ & _ & _ & (s2 & Hs2 & Hr2) & _).
  apply verify_dcap_quote_Ok in Hq1 as (q1 & raw1 & c1 & d1 & a1 & Hg1 & Hd1 & _ & Hx1 & He1 & _).
  apply verify_dcap_quote_Ok in Hq2 as (q2 & raw2 & c2 & d2 & a2 & Hg2 & Hd2 & _ & Hx2 & He2 & _).
  assert (q1 = q2) as -> by congruence. assert (raw1 = raw2) as -> by congruence.
  pose proof (quote_report_fixed _ _ _ _ _ _ _ Hx1 Hx2) as ->.
  assert (Hrd : v_report_data v1 = v_report_data v2).
  { apply (string_app_inv_tail _ _ (zeros 32)). unfold expected_dcap_report_data in He1, He2. congruence. }
  rewrite Hrd in Hr1.
  destruct (statement_binds ks1 ks2 n1 n2 s1 s2 _ Hw1 Hw2 Hn1 Hn2 Hs1 Hs2 Hr1 Hr2) as [?|[?|?]];
    [by left|right; left; eauto|by right; right].
Qed.

Section Cache.
Context `{Digest} `{Crypto} `{VerifierLibs}.

(** A call of the verifier: the clock, what an uncached attempt would meet, the request. *)
Definition Call : Type := (Z * Attempt * UpstreamVerificationRequest)%type.

(** The verifier after a sequence of calls of [verify] and [refresh]. *)
Fixpoint after_calls (v : AciServiceUpstreamVerifier) (calls : list (bool * Call)) : AciServiceUpstreamVerifier :=
  match calls with
  | [] => v
  | (is_refresh, (now, a, req)) :: calls =>
      after_calls ((if is_refresh : bool then refresh v now a req else verify v now a req).2) calls
  end.

Definition attempts (calls : list (bool * Call)) : list Attempt := map (fun c => c.2.1.2) calls.

(** What a successful uncached attempt established. *)
Definition established (v : AciServiceUpstreamVerifier) (a : Attempt) (c : CachedAciServiceVerification) : Prop :=
  timed_out a = false /\
  exists status body report validated,
    http_get a (report_base_url v +:+ "/v1/aci/attestation" +:+ "?nonce=" +:+ nonce_hex a) = Ok (status, body) /\
    parse_report body = Ok report /\
    validate_aci_report_binding report (Some (nonce_hex a)) (verified_at a) (Some body) = Ok validated /\
    accepts (policy v) report = true /\
    verify_dcap_quote (v_pccs_url v) (policy v) report validated (verified_at a) = Ok tt /\
    c_channel_bindings c <> [] /\ Forall (attested_binding report (report_base_url v)) (c_channel_bindings c) /\
    c_expires_at c <= stale_after (freshness (attestation report)) /\
    c_expires_at c <= verified_at a + cache_ttl_seconds v.

Definition same_setup (v v' : AciServiceUpstreamVerifier) : Prop :=
  report_base_url v = report_base_url v' /\ v_pccs_url v = v_pccs_url v' /\ policy v = policy v' /\
  cache_ttl_seconds v = cache_ttl_seconds v'.

Lemma verify_uncached_established v a c :
  timed_out a = false -> verify_uncached v a = Ok c -> established v a c.
Proof.
  intros Ht. unfold verify_uncached. intros Hc. bind_step Hc.
  match type of E with _ = Ok ?p => destruct p as [status body] end. repeat bind_step Hc. injection Hc as <-. split; [done|].
  match goal with E : aci_report_tls_channel_bindings _ _ = Ok _ |- _ => apply tls_bindings_attested in E as [??] end.
  repeat match goal with x : unit |- _ => destruct x end.
  eexists status, body, _, _. split_and!; try done; cbn; unfold u64_saturating_add; lia.
Qed.

Lemma established_setup v v' a c : same_setup v v' -> established v a c -> established v' a c.
Proof.
  intros (Hb & Hp & Hpol & Httl) [Ht He]. split; [done|].
  by rewrite <- Hb, <- Hp, <- Hpol, <- Httl.
Qed.

(** One call: the event is the old cache's, or what this attempt established, or a failure. *)
Lemma verify_step v now a req :
  let '(ev, v') := verify v now a req in
  same_setup v v' /\
  ((exists c, ev = event_for c req ACI_VERIFIER_ID /\ cache v' = Some c /\
     ((cache v = Some c /\ now < c_expires_at c) \/ established v a c)) \/
   (uv_result ev = Failed /\ cache v' = cache v)).
Proof.
  unfold verify.
  assert (Hun : let '(ev, v') := match (if timed_out a then Err Timeout else verify_uncached v a) with
      | Ok verified => (event_for verified req ACI_VERIFIER_ID, set_cache v verified)
      | Err err => (failed_event req ACI_VERIFIER_ID (display err), v) end in
    same_setup v v' /\
    ((exists c, ev = event_for c req ACI_VERIFIER_ID /\ cache v' = Some c /\ established v a c) \/
     (uv_result ev = Failed /\ cache v' = cache v))).
  { destruct (timed_out a) eqn:Ht; [split; [done|by right]|].
    destruct (verify_uncached v a) as [c|e] eqn:Hc; [|split; [done|by right]].
    split; [done|]. left. exists c. split_and!; try done. by apply verify_uncached_established. }
  destruct (cache v) as [c|] eqn:Hcache.
  - destruct (Z.ltb_spec now (c_expires_at c)); [split; [done|left; exists c; eauto]|].
    destruct (match _ with Ok _ => _ | Err _ => _ end) as [ev v']. naive_solver.
  - destruct (match _ with Ok _ => _ | Err _ => _ end) as [ev v']. naive_solver.
Qed.

Lemma after_calls_inv v calls :
  cache v = None -> same_setup v (after_calls v calls) /\
  forall c, cache (after_calls v calls) = Some c -> exists a, a ∈ attempts calls /\ established v a c.
Proof.
  intros Hnone.
  assert (Hgen : forall calls v1, same_setup v v1 -> forall past,
    (forall c, cache v1 = Some c -> exists a, a ∈ past /\ established v a c) ->
    same_setup v (after_calls v1 calls) /\
    forall c, cache (after_calls v1 calls) = Some c -> exists a, a ∈ past ++ attempts calls /\ established v a c).
  { clear calls. induction calls as [|[r [[now a] req]] calls IH]; intros v1 Hs past Hc; cbn [after_calls].
    { split; [done|]. intros c Hc'. rewrite app_nil_r. auto. }
    unfold refresh, invalidate. assert (Hsame : (if r then verify v1 now a req else verify v1 now a req)
      = verify v1 now a req) by (by destruct r). rewrite Hsame.
    pose proof (verify_step v1 now a req) as Hstep. destruct (verify v1 now a req) as [ev v2]. cbn [snd].
    destruct Hstep as [Hs2 Hstep].
    assert (Hs' : same_setup v v2) by (destruct Hs as (?&?&?&?), Hs2 as (?&?&?&?); split_and!; congruence).
    destruct (IH v2 Hs' (past ++ [a])) as [Hr1 Hr2].
    - intros c Hc2. setoid_rewrite elem_of_app. destruct Hstep as [(c' & _ & Hc' & [[Hold _]|Hest])|[_ Hsame2]].
      + rewrite Hc' in Hc2. injection Hc2 as <-. destruct (Hc _ Hold) as (a' & ? & ?). eauto.
      + rewrite Hc' in Hc2. injection Hc2 as <-. exists a. split; [right; by left|].
        eapply established_setup; [|exact Hest]. destruct Hs as (?&?&?&?). by split_and!.
      + rewrite Hsame2 in Hc2. destruct (Hc _ Hc2) as (a' & ? & ?). eauto.
    - split; [done|]. intros c Hc2. destruct (Hr2 c Hc2) as (a' & Hin & He). exists a'. split; [|done].
      cbn. by rewrite <- app_assoc in Hin. }
  destruct (Hgen calls v ltac:(done) [] ltac:(by rewrite Hnone)) as [Hr1 Hr2]. split; [done|]. exact Hr2.
Qed.

(** C7: a verified event is always backed by an attestation: whatever was called
    before on a verifier started without a cache, an event reported as verified
    comes from an attempt (this one, or an earlier one whose cache entry has not
    expired, so its report is not stale) that fetched a report for its own fresh
    nonce, validated it, matched the policy, checked the quote, and it carries
    at least one channel binding, each a TLS key of the attested keyset. *)
Theorem verified_event_attested v calls now a req :
  cache v = None ->
  let '(ev, _) := verify (after_calls v calls) now a req in
  uv_result ev = Verified ->
  exists a' c, established v a' c /\ ev = event_for c req ACI_VERIFIER_ID /\
    (a' = a \/ (a' ∈ attempts calls /\ now < c_expires_at c)).
Proof.
  intros Hnone. destruct (after_calls_inv v calls Hnone) as [Hs Hc]. set (v1 := after_calls v calls) in *.
  pose proof (verify_step v1 now a req) as Hstep. destruct (verify v1 now a req) as [ev v2].
  intros Hver. destruct Hstep as [_ [(c & -> & _ & [[Hold Hlt]|Hest])|[Hf _]]]; [| |by rewrite Hf in Hver].
  - destruct (Hc _ Hold) as (a' & Hin & He). exists a', c. auto.
  - exists a, c. split; [|auto]. eapply established_setup; [|exact Hest]. destruct Hs as (?&?&?&?). by split_and!.
Qed.

(** [refresh] does not refresh: as long as the cache entry lives, invalidating
    and refreshing return the cached event and contact nobody, so a binding
    that no longer matches the upstream stays in use until it expires. *)
Theorem aci_refresh_serves_cache v now a req c :
  cache v = Some c -> now < c_expires_at c ->
  invalidate v req = v /\ refresh v now a req = (event_for c req ACI_VERIFIER_ID, v).
Proof.
  intros Hc Hlt. split; [done|]. unfold refresh, invalidate, verify. rewrite Hc.
  by apply Z.ltb_lt in Hlt as ->.
Qed.

(** Events that differ at most in what they say was measured. *)
Definition same_measurement (e e' : DstackEventLog) : Prop :=
  imr e = imr e' /\ ev_digest e = ev_digest e' /\ event e = event e'.

Lemma replay_same_measurement events events' mr :
  Forall2 same_measurement events events' -> replay_loop events mr = replay_loop events' mr.
Proof.
  intros HF. revert mr. induction HF as [|e e' es es' (Hi & Hd & He) _ IH]; intros mr; cbn [replay_loop]; [done|].
  rewrite Hd. destruct (decode_hex _); cbn; [apply IH|done].
Qed.

Lemma filter_same_measurement (n : Z) events events' :
  Forall2 same_measurement events events' ->
  Forall2 same_measurement (filter (fun e => imr e = n) events) (filter (fun e => imr e = n) events').
Proof.
  intros HF. induction HF as [|e e' es es' Hm _ IH]; [constructor|]. rewrite !filter_cons.
  destruct Hm as (Hi & Hd & He). rewrite Hi. case_decide; [|done]. constructor; [|done]. by split_and!.
Qed.

Lemma find_app_id_same_measurement events events' e :
  Forall2 same_measurement events events' -> find_app_id events = Some e ->
  exists e', find_app_id events' = Some e'.
Proof.
  intros HF. induction HF as [|x x' es es' (Hi & Hd & He) _ IH]; cbn; [done|].
  unfold is_system_ready, is_app_id. rewrite Hi, He. destruct (_ && _); [done|]. destruct (_ && _); [eauto|done].
Qed.

(** The app id is not measured: the event log check never compares an event's
    payload with its digest, so from a log accepted for a quote any log with the
    same digests and any other app-id payload is accepted for the same quote,
    and yields the payload's app id. *)
Theorem app_id_payload_not_measured evidence evidence' t t' events events' q app_id :
  get_str evidence "event_log" = Some t -> parse_event_log t = Ok events ->
  get_str evidence' "event_log" = Some t' -> parse_event_log t' = Ok events' ->
  Forall2 same_measurement events events' ->
  verify_dstack_event_log_and_app_id evidence q = Ok app_id ->
  exists e', find_app_id events' = Some e' /\
    verify_dstack_event_log_and_app_id evidence' q = map_err InvalidEventLog (decode_hex (event_payload e')).
Proof.
  intros Ht Hp Ht' Hp' HF. unfold verify_dstack_event_log_and_app_id. rewrite Ht, Ht'. cbn. rewrite Hp, Hp'. cbn.
  unfold replay_dstack_rtmr.
  rewrite (replay_same_measurement _ _ (zeros 48) (filter_same_measurement 3 _ _ HF)).
  destruct (replay_loop _ _) as [mr|]; cbn; [|done]. destruct (Nat.eqb _ _); cbn; [|done].
  destruct (dcap_rtmr3 q) as [m|]; cbn; [|done]. destruct (String.eqb mr m); cbn; [|done].
  destruct (find_app_id events) as [e|] eqn:He; cbn; [|done]. intros _.
  destruct (find_app_id_same_measurement _ _ _ HF He) as [e' He']. rewrite He'. cbn. eauto.
Qed.
End Cache.

(** ** Witnesses *)

Module Demo.

Definition unhex_digit (a : ascii) : N :=
  let n := N_of_ascii a in (if n <=? 57 then n - 48 else n - 87)%N.

Fixpoint unhex (s : string) : string :=
  match s with
  | String a (String b rest) => String (ascii_of_N (16 * unhex_digit a + unhex_digit b)) (unhex rest)
  | _ => ""
  end.

(** A digest of 32 bytes: the sum of the bytes, then zeros. *)
Definition digest32 : Digest := {|
  sha256 s := String (ascii_of_N (fold_right N.add 0%N (string_bytes s) mod 256)) (zeros 31);
  hex_encode := demo_hex |}.

Lemma digest32_laws : @DigestLaws digest32.
Proof. exact demo_digest_laws. Qed.

Definition crypto : Crypto := {|
  hex_decode s := Ok (unhex s);
  base64_encode s := s;
  ed25519_verify_strict _ _ _ := false;
  k256_from_encoded_point p := Ok p;
  k256_signature_from_slice _ := Ok tt;
  k256_verify _ _ _ := true;
  k256_recover_keccak _ _ _ := Ok "root";
  sha384 _ := zeros 48 |}.

Definition get_ok {E} (r : result E string) : string := match r with Ok s => s | Err _ => "" end.

Definition keyset : WorkloadKeyset :=
  {| workload_identity := workload_identity (demo_keyset 1); keyset_epoch := keyset_epoch (demo_keyset 1);
     receipt_signing_keys := []; e2ee_public_keys := [];
     tls_public_keys := [{| domain := None; spki_sha256_hex := demo_hex (zeros 32) |}] |}.

Lemma keyset_wf : wf_keyset keyset.
Proof.
  destruct (demo_keyset_wf 1) as [H1 H2 _ _ _]; [by apply is_u64_small|].
  split; [exact H1|exact H2|constructor|constructor|]. repeat constructor; by apply valid_utf8b_sound.
Qed.

Definition statement_data (nonce : string) : string :=
  match @attestation_statement digest32 keyset (Some nonce) with
  | Ok st => get_ok (@report_data digest32 st)
  | Err _ => ""
  end.

Definition custody : Value :=
  {{ "provider" ≔ Str "dstack-kms";
     "keys" ≔ Arr [{{ "role" ≔ Str "identity"; "public_key" ≔ Str "03cd"; "purpose" ≔ Str "p";
                      "signature_chain" ≔ Arr [Str (demo_hex (zeros 65)); Str (demo_hex (zeros 65))] }}] }}.

Definition report (nonce app_id : string) : AttestationReport := {|
  api_version := "aci/1";
  rep_workload_id := get_ok (@workload_id digest32 (workload_identity keyset));
  rep_workload_keyset_digest := get_ok (@workload_keyset_digest digest32 keyset);
  attestation := {|
    vendor := "vendor"; tee_type := "tdx"; workload_keyset := keyset;
    report_data_hex := demo_hex (statement_data nonce);
    keyset_endorsement := {| ke_algo := "ecdsa-secp256k1"; ke_value_hex := demo_hex (zeros 64) |};
    source_provenance := {| repo_url := None; repo_commit := None; image_digest := Some "img"; image_provenance := None |};
    freshness := {| fetched_at := 100; stale_after := 500 |};
    att_evidence := {{ "quote" ≔ Str (demo_hex (statement_data nonce +:+ zeros 32)); "event_log" ≔ Str app_id;
                       "key_custody" ≔ custody }} |};
  supported_e2ee_versions := [] |}.

Definition log (app_id : string) : list DstackEventLog :=
  [{| imr := 3; ev_digest := "00"; event := "app-id"; event_payload := app_id |}].

Definition libs : VerifierLibs := {|
  parse_event_log t := Ok (log t);
  parse_report body := Ok (report body "aa");
  debug s := s; url_host _ := Ok (Some "u");
  collateral := unit; get_collateral _ _ := Ok tt;
  dcap_verify raw _ _ := Ok (TD10 raw (zeros 48));
  display _ := "failed" |}.

Lemma libs_laws : @QuoteLaws libs.
Proof. intros raw c1 t1 q1 c2 t2 q2 [= <-] [= <-]. done. Qed.

Definition demo_policy : AciServiceVerifierPolicy :=
  {| pol_accepted_workload_ids := ∅; pol_accepted_image_digests := {[ "img" ]};
     accepted_kms_root_public_keys := {[ demo_hex "root" ]} |}.

Definition verifier : AciServiceUpstreamVerifier :=
  {| report_base_url := "https://u"; v_pccs_url := "https://pccs"; policy := demo_policy; cache_ttl_seconds := 300;
     request_timeout_seconds := 60; cache := None |}.

Definition attempt (nonce : string) : Attempt :=
  {| nonce_hex := nonce; http_get _ := Ok (200, nonce); verified_at := 110; timed_out := false |}.

Definition request : UpstreamVerificationRequest :=
  {| vr_upstream_name := "a"; vr_url_origin := Some "https://u"; vr_model_id := "m"; forwarded_body_hash := "h";
     vr_required := true |}.
End Demo.

#[local] Existing Instances Demo.digest32 Demo.crypto Demo.libs.

Example demo_verify :
  uv_result (verify Demo.verifier 100 (Demo.attempt "n") Demo.request).1 = Verified /\
  channel_bindings (verify Demo.verifier 100 (Demo.attempt "n") Demo.request).1
    = [TlsSpkiSha256 "https://u" (demo_hex (zeros 32))].
Proof. vm_compute. split; reflexivity. Qed.

Lemma quote_not_replayable_witness :
  exists v, validate_aci_report_binding (Demo.report "n" "aa") (Some "n") 110 None = Ok v /\
    verify_dcap_quote "p" Demo.demo_policy (Demo.report "n" "aa") v 110 = Ok tt /\
    let ks := workload_keyset (attestation (Demo.report "n" "aa")) in
    ((ks = ks /\ Some "n" = Some "n") \/
     (exists s1 s2, attestation_statement ks (Some "n") = Ok s1 /\ attestation_statement ks (Some "n") = Ok s2 /\
        value_collision (AttestationStatement_value s1) (AttestationStatement_value s2)) \/
     value_collision (WorkloadKeyset_value ks) (WorkloadKeyset_value ks)).
Proof.
  destruct (validate_aci_report_binding (Demo.report "n" "aa") (Some "n") 110 None) as [v|] eqn:Hv;
    [|vm_compute in Hv; discriminate].
  assert (Hq : verify_dcap_quote "p" Demo.demo_policy (Demo.report "n" "aa") v 110 = Ok tt).
  { vm_compute in Hv. injection Hv as <-. vm_compute. reflexivity. }
  exists v. split; [reflexivity|]. split; [exact Hq|].
  refine (quote_not_replayable (H0 := Demo.digest32_laws) (H3 := Demo.libs_laws) "p" "p" Demo.demo_policy
    Demo.demo_policy (Demo.report "n" "aa") (Demo.report "n" "aa") (Some "n") (Some "n") 110 110 None None v v tt tt
    Demo.keyset_wf Demo.keyset_wf _ _ Hv Hv Hq Hq eq_refl); by apply valid_utf8b_sound.
Defined.

Lemma verified_event_attested_witness :
  let calls := [(false, (100, Demo.attempt "n", Demo.request))] in
  let '(ev, _) := verify (after_calls Demo.verifier calls) 200 (Demo.attempt "other") Demo.request in
  uv_result ev = Verified /\
  exists a' c, established Demo.verifier a' c /\ ev = event_for c Demo.request ACI_VERIFIER_ID /\
    (a' = Demo.attempt "other" \/ (a' ∈ attempts calls /\ 200 < c_expires_at c)).
Proof.
  intros calls. pose proof (verified_event_attested Demo.verifier calls 200 (Demo.attempt "other") Demo.request
    eq_refl) as Hv.
  destruct (verify (after_calls Demo.verifier calls) 200 (Demo.attempt "other") Demo.request) as [ev v'] eqn:E.
  assert (Hver : uv_result ev = Verified).
  { apply (f_equal (fun p => uv_result p.1)) in E. vm_compute in E. symmetry. exact E. }
  split; [exact Hver|]. exact (Hv Hver).
Defined.

Definition demo_cached : CachedAciServiceVerification :=
  {| c_expires_at := 300; c_vendor := "v"; c_evidence := None; c_channel_bindings := [TlsSpkiSha256 "https://u" "old"] |}.

Lemma aci_refresh_serves_cache_witness :
  refresh (set_cache Demo.verifier demo_cached) 200 (Demo.attempt "n") Demo.request
  = (event_for demo_cached Demo.request ACI_VERIFIER_ID, set_cache Demo.verifier demo_cached).
Proof.
  apply (aci_refresh_serves_cache (set_cache Demo.verifier demo_cached) 200 (Demo.attempt "n") Demo.request demo_cached);
    reflexivity.
Defined.

(** The same quote with the log of another application. *)
Lemma app_id_payload_not_measured_witness :
  let evidence := att_evidence (attestation (Demo.report "n" "aa")) in
  let evidence' := att_evidence (attestation (Demo.report "n" "bb")) in
  let q := TD10 "" (zeros 48) in
  verify_dstack_event_log_and_app_id evidence q = Ok (Demo.unhex "aa") /\
  verify_dstack_event_log_and_app_id evidence' q = Ok (Demo.unhex "bb").
Proof.
  intros evidence evidence' q.
  assert (E : verify_dstack_event_log_and_app_id evidence q = Ok (Demo.unhex "aa")) by (vm_compute; reflexivity).
  split; [exact E|].
  destruct (app_id_payload_not_measured (H1 := Demo.libs) evidence evidence' "aa" "bb" (Demo.log "aa") (Demo.log "bb") q _
    eq_refl eq_refl eq_refl eq_refl ltac:(repeat constructor) E) as (e' & Hf & Hr).
  cbn in Hf. injection Hf as <-. exact Hr.
Defined.
