(* ===== verification/Chutes.v ===== *)
(** * Chutes sessions

    Model of [src/aci/upstream/chutes/session.rs] (the chute-id cache and the
    pools of single-use nonces) and of the session logic of
    [src/aci/upstream/chutes/mod.rs]: accepted bindings, verified discovery and
    the acquisition of a nonce.  Instants are nanoseconds of a monotonic clock.
    The sealed exchange and its HTTP calls are in [ChutesE2ee.v]. *)
From S2P Require Import Prelude StrOps Json Canonical Receipt Session Upstream.

Definition CHUTES_MODEL_CACHE_TTL_SECONDS : Z := 300.
Definition CHUTES_DEFAULT_NONCE_TTL_SECONDS : Z := 55.
Definition CHUTES_MLKEM_768_ALGORITHM : string := "chutes-ml-kem-768".

Definition seconds (n : Z) : Z := n * 1000000000.

(** ** Data *)

Record ChutesVerifiedInstance := {
  vi_instance_id : string;
  vi_e2e_pubkey : string;
  vi_public_key_sha256 : string;
  vi_nonces : list string;
}.

Record ChutesVerifiedDiscovery := {
  d_chute_id : string;
  d_nonce_expires_in : option Z;
  d_instances : list ChutesVerifiedInstance;
}.

Record ChutesInstanceInfo := {
  ii_instance_id : string;
  ii_e2e_pubkey : string;
  ii_nonces : list string;
}.

Record ChutesInstancesResponse := {
  ir_instances : list ChutesInstanceInfo;
  ir_nonce_expires_in : option Z;
}.

Record SelectedChutesInstance := {
  s_instance_id : string;
  s_e2e_pubkey : string;
  s_nonce : string;
}.

Record ChutesAcceptedBinding := { ab_key_id : option string; ab_public_key_sha256 : string }.

Record ChutesPooledNonce := {
  pn_instance_id : string;
  pn_e2e_pubkey : string;
  pn_public_key_sha256 : string;
  pn_nonce : string;
  pn_expires_at : Z;
}.

Record ChutesSessionCache := {
  model_map : gmap string (string * Z);
  nonce_pools : gmap string (list ChutesPooledNonce);
}.

Definition ChutesSessionCache_default : ChutesSessionCache := {| model_map := ∅; nonce_pools := ∅ |}.

(** ** Bindings *)

Definition binding_accepts (instance_id public_key_sha256 : string) (b : ChutesAcceptedBinding) : bool :=
  match ab_key_id b with Some key_id => String.eqb key_id instance_id | None => true end
  && eq_ignore_ascii_case (ab_public_key_sha256 b) public_key_sha256.

Definition chutes_binding_matches (accepted : list ChutesAcceptedBinding) (instance_id public_key_sha256 : string) :
    bool := existsb (binding_accepts instance_id public_key_sha256) accepted.

Definition accepted_binding (b : ChannelBinding) : option ChutesAcceptedBinding :=
  match b with
  | E2eePublicKeySha256 provider key_id algorithm public_key_sha256 =>
      if String.eqb provider "chutes" && String.eqb algorithm CHUTES_MLKEM_768_ALGORITHM
      then Some {| ab_key_id := key_id; ab_public_key_sha256 := public_key_sha256 |} else None
  | _ => None
  end.

Definition chutes_accepted_bindings (event : UpstreamVerifiedEvent) :
    result UpstreamError (list ChutesAcceptedBinding) :=
  match omap accepted_binding (channel_bindings event) with
  | [] => Err (Transport "verified Chutes event did not include an E2EE key binding")
  | accepted => Ok accepted
  end.

(** ** The store *)

Definition cached_chute_id (now : Z) (c : ChutesSessionCache) (model : string) :
    option string * ChutesSessionCache :=
  match model_map c !! model with
  | Some (chute_id, expires_at) =>
      if now <? expires_at then (Some chute_id, c)
      else (None, {| model_map := delete model (model_map c); nonce_pools := nonce_pools c |})
  | None => (None, c)
  end.

Definition cache_chute_id (now : Z) (c : ChutesSessionCache) (model chute_id : string) : ChutesSessionCache :=
  {| model_map := <[model := (chute_id, now + seconds CHUTES_MODEL_CACHE_TTL_SECONDS)]> (model_map c);
     nonce_pools := nonce_pools c |}.

(** The nonces of the candidates, round robin: the first of each, then the second of each. *)
Definition interleave (expires_at : Z) (candidates : list ChutesVerifiedInstance) : list ChutesPooledNonce :=
  let max_nonces := fold_right (fun c acc => Nat.max (length (vi_nonces c)) acc) O candidates in
  flat_map (fun nonce_index =>
    omap (fun c => match vi_nonces c !! nonce_index with
                   | Some nonce => Some {| pn_instance_id := vi_instance_id c; pn_e2e_pubkey := vi_e2e_pubkey c;
                                           pn_public_key_sha256 := vi_public_key_sha256 c; pn_nonce := nonce;
                                           pn_expires_at := expires_at |}
                   | None => None
                   end) candidates) (List.seq 0 max_nonces).

Definition nonce_key (n : ChutesPooledNonce) : string * string := (pn_instance_id n, pn_nonce n).

(** Add the nonces not already [existing]; the count of those added. *)
Fixpoint add_nonces (existing : list (string * string)) (new : list ChutesPooledNonce)
    (pool : list ChutesPooledNonce) (added : Z) : Z * list ChutesPooledNonce :=
  match new with
  | [] => (added, pool)
  | n :: new =>
      if bool_decide (nonce_key n ∈ existing) then add_nonces existing new pool added
      else add_nonces (nonce_key n :: existing) new (pool ++ [n]) (added + 1)
  end.

Definition pool_of (c : ChutesSessionCache) (chute_id : string) : list ChutesPooledNonce :=
  default [] (nonce_pools c !! chute_id).

Definition set_pool (c : ChutesSessionCache) (chute_id : string) (pool : list ChutesPooledNonce) : ChutesSessionCache :=
  {| model_map := model_map c; nonce_pools := <[chute_id := pool]> (nonce_pools c) |}.

Definition record_nonce_candidates (now : Z) (c : ChutesSessionCache) (chute_id : string) (nonce_ttl : Z)
    (candidates : list ChutesVerifiedInstance) : Z * ChutesSessionCache :=
  let expires_at := now + seconds nonce_ttl in
  let pool := pool_of c chute_id in
  let '(added, pool) := add_nonces (map nonce_key pool) (interleave expires_at candidates) pool 0 in
  (added, set_pool c chute_id pool).

Definition record_verified_discovery (now : Z) (c : ChutesSessionCache) (discovery : ChutesVerifiedDiscovery) :
    result UpstreamError Z * ChutesSessionCache :=
  let nonce_ttl := default CHUTES_DEFAULT_NONCE_TTL_SECONDS (d_nonce_expires_in discovery) in
  if nonce_ttl =? 0 then (Ok 0, c)
  else
    match filter (fun i => vi_nonces i <> []) (d_instances discovery) with
    | [] => (Err (Transport "verified Chutes E2EE instances did not include fresh nonces"), c)
    | candidates =>
        let '(added, c) := record_nonce_candidates now c (d_chute_id discovery) nonce_ttl candidates in
        (Ok added, c)
    end.

(** The loop over the pool: the first usable nonce is taken, expired and
    unaccepted ones are dropped, the others stay. *)
Fixpoint pop_loop (now : Z) (accepted : list ChutesAcceptedBinding) (pool : list ChutesPooledNonce)
    (selected : option SelectedChutesInstance) : option SelectedChutesInstance * list ChutesPooledNonce :=
  match pool with
  | [] => (selected, [])
  | n :: pool =>
      if pn_expires_at n <=? now then pop_loop now accepted pool selected
      else if negb (chutes_binding_matches accepted (pn_instance_id n) (pn_public_key_sha256 n))
      then pop_loop now accepted pool selected
      else match selected with
           | None => pop_loop now accepted pool
               (Some {| s_instance_id := pn_instance_id n; s_e2e_pubkey := pn_e2e_pubkey n; s_nonce := pn_nonce n |})
           | Some _ => let '(sel, retained) := pop_loop now accepted pool selected in (sel, n :: retained)
           end
  end.

Definition pop_verified_nonce (now : Z) (c : ChutesSessionCache) (chute_id : string)
    (accepted : list ChutesAcceptedBinding) : option SelectedChutesInstance * ChutesSessionCache :=
  match nonce_pools c !! chute_id with
  | None => (None, c)
  | Some pool => let '(sel, retained) := pop_loop now accepted pool None in (sel, set_pool c chute_id retained)
  end.

(** The operations of the store, as tasks interleave them. *)
Inductive PoolOp :=
| OpRecord (now : Z) (d : ChutesVerifiedDiscovery)
| OpPop (now : Z) (chute_id : string) (accepted : list ChutesAcceptedBinding)
| OpCachedChuteId (now : Z) (model : string)
| OpCacheChuteId (now : Z) (model chute_id : string).

Definition exec (c : ChutesSessionCache) (op : PoolOp) : ChutesSessionCache :=
  match op with
  | OpRecord now d => (record_verified_discovery now c d).2
  | OpPop now chute_id accepted => (pop_verified_nonce now c chute_id accepted).2
  | OpCachedChuteId now model => (cached_chute_id now c model).2
  | OpCacheChuteId now model chute_id => cache_chute_id now c model chute_id
  end.

Definition exec_all (c : ChutesSessionCache) (ops : list PoolOp) : ChutesSessionCache := fold_left exec ops c.

(** ** Discovery and acquisition *)

Section Discovery.
Context `{Digest} `{Base64} `{Base64Error}.

Definition chutes_e2ee_pubkey_sha256 (e2e_pubkey_b64 : string) : result UpstreamError string :=
  ok_or (base64_decode e2e_pubkey_b64) (Transport ("invalid Chutes E2EE public key: " +:+ base64_error e2e_pubkey_b64))
    ≫= fun pubkey =>
  Ok (hex_encode (sha256 pubkey)).

Fixpoint accept_instances (accepted : option (list ChutesAcceptedBinding)) (instances : list ChutesInstanceInfo) :
    result UpstreamError (list ChutesVerifiedInstance) :=
  match instances with
  | [] => Ok []
  | i :: instances =>
      chutes_e2ee_pubkey_sha256 (ii_e2e_pubkey i) ≫= fun public_key_sha256 =>
      accept_instances accepted instances ≫= fun rest =>
      Ok (if match accepted with
             | Some accepted => chutes_binding_matches accepted (ii_instance_id i) public_key_sha256
             | None => true
             end
          then {| vi_instance_id := ii_instance_id i; vi_e2e_pubkey := ii_e2e_pubkey i;
                  vi_public_key_sha256 := public_key_sha256; vi_nonces := ii_nonces i |} :: rest
          else rest)
  end.

Definition binding_mismatch : UpstreamError :=
  ChannelBindingMismatch "Chutes did not return an E2EE key matching the verified binding".

Definition verified_discovery_from_response (chute_id : string) (discovery : ChutesInstancesResponse)
    (accepted : option (list ChutesAcceptedBinding)) : result UpstreamError ChutesVerifiedDiscovery :=
  accept_instances accepted (ir_instances discovery) ≫= fun instances =>
  match instances with
  | [] => Err binding_mismatch
  | _ => Ok {| d_chute_id := chute_id; d_nonce_expires_in := ir_nonce_expires_in discovery;
               d_instances := instances |}
  end.

Definition cache_verified_chutes_nonces (now : Z) (c : ChutesSessionCache) (chute_id : string)
    (discovery : ChutesInstancesResponse) (accepted : list ChutesAcceptedBinding) :
    result UpstreamError Z * ChutesSessionCache :=
  match verified_discovery_from_response chute_id discovery (Some accepted) with
  | Err e => (Err e, c)
  | Ok verified => record_verified_discovery now c verified
  end.

(** One run of the acquisition: the clock at each step, the fetched instances, and
    what other tasks do to the store in between. *)
Record Acquisition := {
  at_first : Z;
  before_second : list PoolOp;
  at_second : Z;
  fetched : result UpstreamError ChutesInstancesResponse;
  before_record : list PoolOp;
  at_record : Z;
  before_third : list PoolOp;
  at_third : Z;
}.

Definition acquire_verified_chutes_session (x : Acquisition) (c : ChutesSessionCache) (chute_id : string)
    (accepted : list ChutesAcceptedBinding) : result UpstreamError SelectedChutesInstance * ChutesSessionCache :=
  match pop_verified_nonce (at_first x) c chute_id accepted with
  | (Some selected, c) => (Ok selected, c)
  | (None, c) =>
      match pop_verified_nonce (at_second x) (exec_all c (before_second x)) chute_id accepted with
      | (Some selected, c) => (Ok selected, c)
      | (None, c) =>
          match fetched x with
          | Err e => (Err e, c)
          | Ok discovery =>
              match cache_verified_chutes_nonces (at_record x) (exec_all c (before_record x)) chute_id discovery accepted with
              | (Err e, c) => (Err e, c)
              | (Ok _, c) =>
                  match pop_verified_nonce (at_third x) (exec_all c (before_third x)) chute_id accepted with
                  | (Some selected, c) => (Ok selected, c)
                  | (None, c) => (Err binding_mismatch, c)
                  end
              end
          end
      end
  end.
End Discovery.

(** ** Lemmas *)

(** A usable nonce of the pool and what is handed out for it. *)
Definition usable (now : Z) (accepted : list ChutesAcceptedBinding) (n : ChutesPooledNonce) : Prop :=
  now < pn_expires_at n /\ chutes_binding_matches accepted (pn_instance_id n) (pn_public_key_sha256 n) = true.

Definition selected_of (n : ChutesPooledNonce) : SelectedChutesInstance :=
  {| s_instance_id := pn_instance_id n; s_e2e_pubkey := pn_e2e_pubkey n; s_nonce := pn_nonce n |}.

Lemma pop_loop_Some now accepted pool s :
  exists retained, pop_loop now accepted pool (Some s) = (Some s, retained) /\ retained `sublist_of` pool.
Proof.
  induction pool as [|n pool (retained & IH & Hsub)]; cbn; [by exists []|]. rewrite IH.
  destruct (_ <=? _); [exists retained; split; [done|by apply sublist_cons]|].
  destruct (negb _); [exists retained; split; [done|by apply sublist_cons]|].
  exists (n :: retained). split; [done|]. by apply sublist_skip.
Qed.

Lemma pop_loop_None now accepted pool :
  match pop_loop now accepted pool None with
  | (None, retained) => retained = []
  | (Some s, retained) => exists pre n post, pool = pre ++ n :: post /\ retained `sublist_of` post /\
      usable now accepted n /\ s = selected_of n
  end.
Proof.
  assert (Hskip : forall n (x : option SelectedChutesInstance * list ChutesPooledNonce) pool0,
    match x with
    | (None, retained) => retained = []
    | (Some s, retained) => exists pre n post, pool0 = pre ++ n :: post /\ retained `sublist_of` post /\
        usable now accepted n /\ s = selected_of n
    end ->
    match x with
    | (None, retained) => retained = []
    | (Some s, retained) => exists pre n' post, n :: pool0 = pre ++ n' :: post /\ retained `sublist_of` post /\
        usable now accepted n' /\ s = selected_of n'
    end).
  { intros n [[s|] retained] pool0; [|done]. intros (pre & n' & post & -> & ?). by exists (n :: pre), n', post. }
  induction pool as [|n pool IH]; cbn; [done|].
  destruct (Z.leb_spec (pn_expires_at n) now); [by apply Hskip|].
  destruct (negb _) eqn:Hb; [by apply Hskip|]. apply negb_false_iff in Hb.
  destruct (pop_loop_Some now accepted pool (selected_of n)) as (retained & E & Hsub). unfold selected_of in E at 1.
  rewrite E. by exists [], n, pool.
Qed.

Lemma add_nonces_spec existing new pool added :
  let '(_, pool') := add_nonces existing new pool added in
  (forall x, x ∈ pool' -> x ∈ pool \/ x ∈ new) /\
  (NoDup (map nonce_key pool) -> (forall k, k ∈ map nonce_key pool -> k ∈ existing) -> NoDup (map nonce_key pool')).
Proof.
  revert existing pool added. induction new as [|n new IH]; intros existing pool added; cbn; [auto|].
  case_bool_decide as Hin.
  - specialize (IH existing pool added). destruct (add_nonces existing new pool added) as [? pool'].
    destruct IH as [H1 H2]. split; [|done]. intros x [?|?]%H1; [by left|by right; right].
  - specialize (IH (nonce_key n :: existing) (pool ++ [n]) (added + 1)).
    destruct (add_nonces (nonce_key n :: existing) new (pool ++ [n]) (added + 1)) as [? pool'].
    destruct IH as [H1 H2]. split.
    + intros x [Hx|?]%H1; [|by right; right]. apply elem_of_app in Hx as [?|Hx]; [by left|].
      apply list_elem_of_singleton in Hx as ->. right. by left.
    + intros Hnd Hex. apply H2.
      * rewrite map_app. apply NoDup_snoc; [done|]. intros Hk. by apply Hin, Hex.
      * intros k. rewrite map_app, elem_of_app, elem_of_cons. intros [Hk|Hk]; [right; auto|].
        cbn in Hk. apply list_elem_of_singleton in Hk as ->. by left.
Qed.

Lemma interleave_elem expires_at candidates n :
  n ∈ interleave expires_at candidates ->
  exists i, i ∈ candidates /\ pn_instance_id n = vi_instance_id i /\ pn_e2e_pubkey n = vi_e2e_pubkey i /\
    pn_public_key_sha256 n = vi_public_key_sha256 i /\ pn_nonce n ∈ vi_nonces i /\ pn_expires_at n = expires_at.
Proof.
  unfold interleave. rewrite list_elem_of_In, in_flat_map. intros (idx & _ & Hin%list_elem_of_In).
  apply list_elem_of_omap in Hin as (i & Hi & Hn). destruct (vi_nonces i !! idx) as [nonce|] eqn:E; [|done].
  injection Hn as <-. exists i. split_and!; try done. cbn. by eapply list_elem_of_lookup_2.
Qed.

Lemma pool_of_set c id pool id' : pool_of (set_pool c id pool) id' = if decide (id' = id) then pool else pool_of c id'.
Proof. unfold pool_of, set_pool. cbn. case_decide; simplify_map_eq; done. Qed.

(** The pool of a chute after a record: its old nonces and those of the discovery. *)
Lemma record_pool now c d chute :
  (forall n, n ∈ pool_of (record_verified_discovery now c d).2 chute -> n ∈ pool_of c chute \/
     (d_chute_id d = chute /\ exists i, i ∈ d_instances d /\ pn_instance_id n = vi_instance_id i /\
      pn_e2e_pubkey n = vi_e2e_pubkey i /\ pn_public_key_sha256 n = vi_public_key_sha256 i /\
      pn_nonce n ∈ vi_nonces i /\
      pn_expires_at n = now + seconds (default CHUTES_DEFAULT_NONCE_TTL_SECONDS (d_nonce_expires_in d)))) /\
  (NoDup (map nonce_key (pool_of c chute)) ->
   NoDup (map nonce_key (pool_of (record_verified_discovery now c d).2 chute))).
Proof.
  unfold record_verified_discovery. set (ttl := default _ _). destruct (ttl =? 0); [by split; [left|]|].
  destruct (filter (fun i => vi_nonces i <> []) (d_instances d)) as [|i0 more] eqn:Hf; [by split; [left|]|].
  rewrite <- Hf. unfold record_nonce_candidates.
  set (new := interleave _ _).
  pose proof (add_nonces_spec (map nonce_key (pool_of c (d_chute_id d))) new (pool_of c (d_chute_id d)) 0) as Hspec.
  destruct (add_nonces _ _ _ _) as [added pool]. cbn [snd]. rewrite pool_of_set.
  destruct Hspec as [H1 H2]. case_decide as Hid; [subst chute|by split; [left|]].
  split; [|intros Hnd; apply H2; auto].
  intros n [?|Hn]%H1; [by left|right]. split; [done|].
  apply interleave_elem in Hn as (i & Hi & Hrest). apply list_elem_of_filter in Hi as [_ Hi]. eauto.
Qed.

(** The pool of a chute after a pop. *)
Lemma pop_pool now c id accepted chute :
  match pop_verified_nonce now c id accepted with
  | (None, c') => pool_of c' chute `sublist_of` pool_of c chute
  | (Some s, c') => exists pre n post, pool_of c id = pre ++ n :: post /\ usable now accepted n /\ s = selected_of n /\
      pool_of c' chute `sublist_of` (if decide (chute = id) then post else pool_of c chute)
  end.
Proof.
  unfold pop_verified_nonce. destruct (nonce_pools c !! id) as [pool|] eqn:Hp; [|done].
  assert (Hpool : pool_of c id = pool) by (unfold pool_of; by rewrite Hp).
  pose proof (pop_loop_None now accepted pool) as Hl. destruct (pop_loop now accepted pool None) as [[s|] retained].
  - destruct Hl as (pre & n & post & Heq & Hsub & Hu & Hs). exists pre, n, post. rewrite Hpool, pool_of_set.
    split_and!; try done. by case_decide.
  - subst retained. rewrite pool_of_set. case_decide; [apply sublist_nil_l|done].
Qed.

(** The instance [i] of a discovery recorded at [t] for the chute, with a nonce. *)
Definition recorded (ops : list PoolOp) (chute : string) (t : Z) (d : ChutesVerifiedDiscovery)
    (i : ChutesVerifiedInstance) (nonce : string) : Prop :=
  OpRecord t d ∈ ops /\ d_chute_id d = chute /\ i ∈ d_instances d /\ nonce ∈ vi_nonces i.

Definition expiry (t : Z) (d : ChutesVerifiedDiscovery) : Z :=
  t + seconds (default CHUTES_DEFAULT_NONCE_TTL_SECONDS (d_nonce_expires_in d)).

(** Every pooled nonce comes from a recorded discovery. *)
Definition pool_origin (ops : list PoolOp) (c : ChutesSessionCache) : Prop :=
  forall chute n, n ∈ pool_of c chute -> exists t d i, recorded ops chute t d i (pn_nonce n) /\
    pn_instance_id n = vi_instance_id i /\ pn_e2e_pubkey n = vi_e2e_pubkey i /\
    pn_public_key_sha256 n = vi_public_key_sha256 i /\ pn_expires_at n = expiry t d.

Lemma pop_pool_subset now c id accepted chute n :
  n ∈ pool_of (pop_verified_nonce now c id accepted).2 chute -> n ∈ pool_of c chute.
Proof.
  pose proof (pop_pool now c id accepted chute) as Hp.
  destruct (pop_verified_nonce now c id accepted) as [[s|] c']; cbn [snd].
  - destruct Hp as (pre & n' & post & Heq & _ & _ & Hsub). intros Hn. pose proof (elem_of_sublist _ _ _ Hn Hsub) as Hn'. clear Hn.
    case_decide; [subst id; rewrite Heq; apply elem_of_app; right; by right|done].
  - intros Hn. by eapply elem_of_sublist.
Qed.

Lemma cached_id_pools now c model : nonce_pools (cached_chute_id now c model).2 = nonce_pools c.
Proof. unfold cached_chute_id. destruct (model_map c !! model) as [[??]|]; [destruct (_ <? _)|]; done. Qed.

Lemma exec_origin ops c op : pool_origin ops c -> pool_origin (ops ++ [op]) (exec c op).
Proof.
  intros Ho. assert (Hold : forall chute n, n ∈ pool_of c chute -> exists t d i,
    recorded (ops ++ [op]) chute t d i (pn_nonce n) /\ pn_instance_id n = vi_instance_id i /\
    pn_e2e_pubkey n = vi_e2e_pubkey i /\ pn_public_key_sha256 n = vi_public_key_sha256 i /\ pn_expires_at n = expiry t d).
  { intros chute n (t & d & i & (? & ? & ? & ?) & ?)%Ho. exists t, d, i. split; [|done].
    split_and!; try done. apply elem_of_app. by left. }
  intros chute n. destruct op as [now d|now id accepted|now model|now model id]; cbn [exec].
  - intros [Hn|(Hid & i & Hi & H1 & H2 & H3 & H4 & H5)]%(proj1 (record_pool now c d chute)); [by apply Hold|].
    exists now, d, i. split_and!; try done. split_and!; try done. apply elem_of_app. right. by left.
  - intros Hn%pop_pool_subset. by apply Hold.
  - unfold pool_of. rewrite cached_id_pools. apply Hold.
  - apply Hold.
Qed.

Lemma exec_all_origin ops ops' c : pool_origin ops c -> pool_origin (ops ++ ops') (exec_all c ops').
Proof.
  revert ops c. induction ops' as [|op ops' IH]; intros ops c Ho; [by rewrite app_nil_r|].
  change (exec_all c (op :: ops')) with (exec_all (exec c op) ops').
  replace (ops ++ op :: ops') with ((ops ++ [op]) ++ ops') by (by rewrite <- app_assoc).
  by apply IH, exec_origin.
Qed.

Lemma empty_origin : pool_origin [] ChutesSessionCache_default.
Proof. intros chute n. unfold pool_of. cbn. rewrite lookup_empty. by intros ?%elem_of_nil. Qed.

(** What is handed out was recorded, is fresh and accepted. *)
Definition handed_out (ops : list PoolOp) (chute : string) (accepted : list ChutesAcceptedBinding) (now : Z)
    (s : SelectedChutesInstance) : Prop :=
  exists t d i, recorded ops chute t d i (s_nonce s) /\ s_instance_id s = vi_instance_id i /\
    s_e2e_pubkey s = vi_e2e_pubkey i /\ now < expiry t d /\
    chutes_binding_matches accepted (vi_instance_id i) (vi_public_key_sha256 i) = true.

Lemma pop_handed_out ops c now chute accepted s c' :
  pool_origin ops c -> pop_verified_nonce now c chute accepted = (Some s, c') -> handed_out ops chute accepted now s.
Proof.
  intros Ho E. pose proof (pop_pool now c chute accepted chute) as Hp. rewrite E in Hp.
  destruct Hp as (pre & n & post & Heq & [Hexp Hacc] & -> & _).
  destruct (Ho chute n) as (t & d & i & Hr & Hid & Hpk & Hsha & Hx); [rewrite Heq; apply elem_of_app; right; by left|].
  exists t, d, i. cbn. rewrite <- Hid, <- Hsha, <- Hx. done.
Qed.

Lemma handed_out_mono ops ops' chute accepted now s :
  (forall op, op ∈ ops -> op ∈ ops') -> handed_out ops chute accepted now s -> handed_out ops' chute accepted now s.
Proof.
  intros Hsub (t & d & i & (? & ? & ? & ?) & ?). exists t, d, i. split; [|done]. split_and!; try done. by apply Hsub.
Qed.

(** ** Properties *)

Section Acquire.
Context `{Digest} `{Base64} `{Base64Error}.

(** All store operations of a run: those before it, the other tasks', and the
    recording of the fetched instances. *)
Definition run_ops (ops : list PoolOp) (x : Acquisition) (chute : string) (accepted : list ChutesAcceptedBinding) :
    list PoolOp :=
  ops ++ before_second x ++ before_record x ++
  match fetched x with
  | Ok r => match verified_discovery_from_response chute r (Some accepted) with
            | Ok d => [OpRecord (at_record x) d]
            | Err _ => []
            end
  | Err _ => []
  end ++ before_third x.

(** An acquired session is always one the verification covers: in any
    interleaving with other tasks, the nonce, the instance and the E2EE key
    handed to a request come from one instance of a discovery recorded for that
    chute, the nonce has not expired, and the recorded key digest matches a
    binding of the verified event. *)
Theorem acquired_session_verified ops x chute accepted s c' :
  acquire_verified_chutes_session x (exec_all ChutesSessionCache_default ops) chute accepted = (Ok s, c') ->
  exists now, now ∈ [at_first x; at_second x; at_third x] /\
    handed_out (run_ops ops x chute accepted) chute accepted now s.
Proof.
  pose proof (exec_all_origin [] ops _ empty_origin) as Ho. cbn in Ho.
  set (c := exec_all _ ops) in *. unfold acquire_verified_chutes_session.
  destruct (pop_verified_nonce (at_first x) c chute accepted) as [[s1|] c1] eqn:E1.
  { intros [= <- <-]. exists (at_first x). split; [by left|].
    eapply handed_out_mono; [|by eapply pop_handed_out]. intros op Hop. apply elem_of_app. by left. }
  assert (Ho1 : pool_origin ops c1).
  { intros ch n Hn. apply (Ho ch). apply (pop_pool_subset (at_first x) c chute accepted). by rewrite E1. }
  pose proof (exec_all_origin ops (before_second x) c1 Ho1) as Ho2.
  destruct (pop_verified_nonce (at_second x) _ chute accepted) as [[s2|] c2] eqn:E2.
  { intros [= <- <-]. exists (at_second x). split; [right; by left|].
    eapply handed_out_mono; [|by eapply pop_handed_out]. intros op. unfold run_ops. rewrite !elem_of_app. naive_solver. }
  assert (Ho2' : pool_origin (ops ++ before_second x) c2).
  { intros ch n Hn. apply (Ho2 ch). apply (pop_pool_subset (at_second x) _ chute accepted). by rewrite E2. }
  pose proof (exec_all_origin _ (before_record x) c2 Ho2') as Ho3.
  unfold run_ops. destruct (fetched x) as [r|]; [|done]. unfold cache_verified_chutes_nonces.
  destruct (verified_discovery_from_response chute r (Some accepted)) as [d|]; [|done].
  pose proof (exec_origin _ _ (OpRecord (at_record x) d) Ho3) as Ho4. cbn [exec] in Ho4.
  destruct (record_verified_discovery (at_record x) _ d) as [[added|e] c3]; [|done]. cbn [snd] in Ho4.
  pose proof (exec_all_origin _ (before_third x) c3 Ho4) as Ho5.
  destruct (pop_verified_nonce (at_third x) _ chute accepted) as [[s3|] c4] eqn:E3; [|done].
  intros [= <- <-]. exists (at_third x). split; [do 2 right; by left|].
  eapply handed_out_mono; [|by eapply pop_handed_out]. intros op. rewrite !elem_of_app. naive_solver.
Qed.
End Acquire.

(** Pops of a chute that hand out the nonce [k] of an instance, in a run. *)
Fixpoint pops (chute : string) (k : string * string) (c : ChutesSessionCache) (ops : list PoolOp) : nat :=
  match ops with
  | [] => O
  | op :: ops =>
      match op with
      | OpPop now id accepted =>
          match (pop_verified_nonce now c id accepted).1 with
          | Some s => if bool_decide (id = chute /\ (s_instance_id s, s_nonce s) = k) then 1 else 0
          | None => 0
          end
      | _ => 0
      end + pops chute k (exec c op) ops
  end%nat.

Definition lists (chute : string) (k : string * string) (op : PoolOp) : bool :=
  match op with
  | OpRecord _ d => String.eqb (d_chute_id d) chute &&
      existsb (fun i => String.eqb (vi_instance_id i) k.1 && bool_decide (k.2 ∈ vi_nonces i)) (d_instances d)
  | _ => false
  end.

(** Discoveries of the run that list the nonce. *)
Definition records (chute : string) (k : string * string) (ops : list PoolOp) : nat :=
  length (List.filter (lists chute k) ops).

Definition in_pool (chute : string) (k : string * string) (c : ChutesSessionCache) : nat :=
  if bool_decide (k ∈ map nonce_key (pool_of c chute)) then 1%nat else O.

Lemma in_pool_le chute k c c' :
  (forall n, n ∈ pool_of c' chute -> n ∈ pool_of c chute) -> (in_pool chute k c' <= in_pool chute k c)%nat.
Proof.
  intros Hsub. unfold in_pool. case_bool_decide as Hin; [|lia]. apply list_elem_of_fmap in Hin as (n & -> & Hn).
  rewrite bool_decide_eq_true_2; [done|]. apply list_elem_of_fmap_2. auto.
Qed.

Lemma record_in_pool now c d chute k :
  (in_pool chute k (exec c (OpRecord now d)) <=
   in_pool chute k c + if lists chute k (OpRecord now d) then 1 else 0)%nat.
Proof.
  unfold in_pool at 1. case_bool_decide as Hin; [|lia]. apply list_elem_of_fmap in Hin as (n & -> & Hn).
  apply (proj1 (record_pool now c d chute)) in Hn as [Hn|(Hid & i & Hi & H1 & _ & _ & H2 & _)].
  - unfold in_pool. rewrite bool_decide_eq_true_2 by (by apply list_elem_of_fmap_2). lia.
  - cbn [lists]. rewrite Hid, String.eqb_refl. cbn [andb].
    assert (E : existsb (fun i => String.eqb (vi_instance_id i) (nonce_key n).1 &&
      bool_decide ((nonce_key n).2 ∈ vi_nonces i)) (d_instances d) = true); [|rewrite E; lia].
    apply existsb_exists. exists i. split; [by apply list_elem_of_In|]. cbn. rewrite H1, String.eqb_refl.
    by apply bool_decide_eq_true.
Qed.

Definition pools_nodup (c : ChutesSessionCache) : Prop := forall chute, NoDup (map nonce_key (pool_of c chute)).

Lemma map_sublist {A B} (f : A -> B) l1 l2 : l1 `sublist_of` l2 -> map f l1 `sublist_of` map f l2.
Proof. apply fmap_sublist. Qed.

Lemma exec_nodup c op : pools_nodup c -> pools_nodup (exec c op).
Proof.
  intros Hnd chute. specialize (Hnd chute) as Hc. destruct op as [now d|now id accepted|now model|now model id]; cbn [exec].
  - by apply record_pool.
  - pose proof (pop_pool now c id accepted chute) as Hp.
    destruct (pop_verified_nonce now c id accepted) as [[s|] c']; cbn [snd].
    + destruct Hp as (pre & n & post & Heq & _ & _ & Hsub). eapply sublist_NoDup; [|by apply map_sublist].
      case_decide; [subst id|done]. rewrite Heq, map_app in Hc. cbn in Hc. by apply NoDup_app in Hc as (_ & _ & [_ ?]%NoDup_cons).
    + eapply sublist_NoDup; [done|by apply map_sublist].
  - unfold pool_of. by rewrite cached_id_pools.
  - done.
Qed.

(** A nonce is used at most as often as the provider issued it: in any
    interleaving of store operations, the requests that get a given nonce of an
    instance never outnumber the recorded discoveries that list it, so a nonce
    issued once is handed out at most once. *)
Theorem nonce_single_use ops chute k :
  (pops chute k ChutesSessionCache_default ops <= records chute k ops)%nat.
Proof.
  assert (Hgen : forall ops c, pools_nodup c -> (pops chute k c ops <= in_pool chute k c + records chute k ops)%nat).
  { clear ops. induction ops as [|op ops IH]; intros c Hnd; cbn [pops]; [lia|].
    specialize (IH (exec c op) (exec_nodup c op Hnd)). unfold records in *. cbn [List.filter].
    destruct op as [now d|now id accepted|now model|now model id].
    - pose proof (record_in_pool now c d chute k). destruct (lists chute k (OpRecord now d)); cbn [length] in *; lia.
    - cbn [lists exec] in *. pose proof (pop_pool now c id accepted chute) as Hp.
      pose proof (in_pool_le chute k c (pop_verified_nonce now c id accepted).2
                    (fun n => pop_pool_subset now c id accepted chute n)) as Hle.
      destruct (pop_verified_nonce now c id accepted) as [[s|] c'] eqn:E; cbn [fst snd] in *; [|lia].
      case_bool_decide as Hk; [|lia]. destruct Hk as [<- Hk].
      destruct Hp as (pre & n & post & Heq & _ & -> & Hsub). rewrite decide_True in Hsub by done.
      specialize (Hnd id). rewrite Heq, map_app in Hnd. cbn in Hnd.
      apply NoDup_app in Hnd as (_ & _ & [Hn _]%NoDup_cons).
      assert (Hzero : in_pool id k c' = O).
      { unfold in_pool. rewrite bool_decide_eq_false_2; [done|]. intros Hin. apply Hn.
        change (nonce_key n) with (s_instance_id (selected_of n), s_nonce (selected_of n)). rewrite Hk.
        eapply elem_of_sublist; [exact Hin|]. by apply map_sublist. }
      assert (Hone : in_pool id k c = 1%nat); [|lia].
      unfold in_pool. rewrite bool_decide_eq_true_2; [done|]. rewrite Heq, map_app, elem_of_app. right. cbn.
      rewrite <- Hk. by left.
    - cbn [exec] in IH. unfold in_pool, pool_of in *. rewrite cached_id_pools in IH. exact IH.
    - exact IH. }
  etrans; [apply Hgen|].
  - intros ch. unfold pool_of. cbn. rewrite lookup_empty. constructor.
  - unfold in_pool, pool_of. cbn. rewrite lookup_empty.
    rewrite bool_decide_eq_false_2; [done|by intros ?%elem_of_nil].
Qed.
