(* ===== verification/ExternalVerifier.v ===== *)
(** * External provider verifiers

    Model of [src/aci/verifier/external.rs]: the cache in front of the verifier
    bridge process, the translation of the bridge's output, and the check of
    the attested scope; and of the routing verifier of
    [src/aci/verifier/providers.rs].  The bridge process and its JSON codec are
    parameters.  A request checks the cache, waits for the verification lock
    while other requests act on the cache, checks again and then runs the
    bridge. *)
From S2P Require Import Prelude Json Canonical Receipt Session Upstream Chutes AciVerifier UpstreamConfig.

(** ** Data *)

Record ExternalChannelBinding := {
  binding_type : string;
  eb_origin : option string;
  eb_spki_sha256 : option string;
  eb_certificate_sha256 : option string;
  eb_provider : option string;
  eb_key_id : option string;
  eb_algorithm : option string;
  eb_public_key_sha256 : option string;
}.

Record ExternalProviderVerifierInput := {
  in_provider : string;
  in_upstream_name : string;
  in_url_origin : option string;
  in_model_id : string;
  in_forwarded_body_hash : string;
  in_required : bool;
  in_timeout_seconds : Z;
  in_provider_options : gmap string string;
}.

Record ExternalProviderVerifierOutput := {
  out_result : string;
  out_verifier_id : option string;
  out_reason : option string;
  out_evidence : option Value;
  out_channel_bindings : list ExternalChannelBinding;
  out_provider_claims : option Value;
  attested_scope : option string;
  chutes_session : option ChutesVerifiedDiscovery;
}.

Definition ExternalProviderVerifierCacheKey : Type := (string * option string * string)%type.

Record CachedExternalProviderEvent := { x_expires_at : Z; x_event : UpstreamVerifiedEvent }.

Record ExternalProviderVerifier := {
  x_provider : string;
  scope : AttestationScope;
  options : gmap string string;
  timeout_seconds : Z;
  x_cache_ttl_seconds : Z;
  has_session_store : bool;
}.

(** The shared state: the cache and the Chutes session store. *)
Record VerifierState := {
  x_cache : gmap ExternalProviderVerifierCacheKey CachedExternalProviderEvent;
  sessions : ChutesSessionCache;
}.

#[export] Instance AttestationScope_eq_dec : EqDecision AttestationScope.
Proof. solve_decision. Defined.

(** The codec of the bridge and its messages, and the text of an upstream error. *)
Class BridgeCodec : Type := {
  encode_input : ExternalProviderVerifierInput -> result string string;
  parse_output : string -> result string ExternalProviderVerifierOutput;
  upstream_error_text : UpstreamError -> string;
}.

Section External.
Context `{Digest} `{Crypto} `{BridgeCodec} `{StrDebug}.

Definition cache_key (v : ExternalProviderVerifier) (r : UpstreamVerificationRequest) : ExternalProviderVerifierCacheKey :=
  (vr_upstream_name r, vr_url_origin r, if is_per_router (scope v) then "" else vr_model_id r).

(** ** Bindings of the output *)

Definition normalize_hex (value : string) : result string string :=
  decode_hex_32 value ≫= fun b => Ok (hex_encode b).

Definition parse_binding (b : ExternalChannelBinding) : result string (option ChannelBinding) :=
  if String.eqb (binding_type b) "tls_spki_sha256" then
    ok_or (eb_origin b) "tls_spki_sha256 channel binding is missing origin" ≫= fun origin =>
    ok_or (eb_spki_sha256 b) "tls_spki_sha256 channel binding is missing spki_sha256" ≫= fun spki =>
    normalize_hex spki ≫= fun spki => Ok (Some (TlsSpkiSha256 origin spki))
  else if String.eqb (binding_type b) "tls_certificate_sha256" then
    ok_or (eb_origin b) "tls_certificate_sha256 channel binding is missing origin" ≫= fun origin =>
    ok_or (eb_certificate_sha256 b) "tls_certificate_sha256 channel binding is missing certificate_sha256"
      ≫= fun cert =>
    normalize_hex cert ≫= fun cert => Ok (Some (TlsCertificateSha256 origin cert))
  else if String.eqb (binding_type b) "e2ee_public_key_sha256" then
    ok_or (eb_provider b) "e2ee_public_key_sha256 channel binding is missing provider" ≫= fun provider =>
    ok_or (eb_algorithm b) "e2ee_public_key_sha256 channel binding is missing algorithm" ≫= fun algorithm =>
    ok_or (eb_public_key_sha256 b) "e2ee_public_key_sha256 channel binding is missing public_key_sha256"
      ≫= fun pk =>
    normalize_hex pk ≫= fun pk => Ok (Some (E2eePublicKeySha256 provider (eb_key_id b) algorithm pk))
  else Ok None.

Fixpoint parse_external_channel_bindings (bs : list ExternalChannelBinding) : result string (list ChannelBinding) :=
  match bs with
  | [] => Ok []
  | b :: bs =>
      parse_binding b ≫= fun parsed =>
      parse_external_channel_bindings bs ≫= fun rest =>
      Ok (match parsed with Some b => b :: rest | None => rest end)
  end.

Definition enforce_attested_scope (v : ExternalProviderVerifier) (declared : option string) : result string unit :=
  match declared with
  | Some token =>
      match from_declared token with
      | Some s =>
          if decide (s = scope v) then Ok tt
          else Err ("provider verifier attested " +:+ as_declared s +:+ " scope but " +:+ x_provider v
                    +:+ " is a per-" +:+ as_declared (scope v) +:+ " provider")
      | None => Err ("provider verifier returned an unrecognized attestation scope " +:+ debug_str token)
      end
  | None =>
      if is_per_router (scope v)
      then Err ("router provider " +:+ x_provider v +:+ " did not declare its attestation scope; refusing to "
                +:+ "seal a channel session from undeclared evidence")
      else Ok tt
  end.

Definition default_verifier_id (v : ExternalProviderVerifier) : string := x_provider v +:+ "/external-verifier/v1".

Definition event_from_output (v : ExternalProviderVerifier) (r : UpstreamVerificationRequest)
    (output : ExternalProviderVerifierOutput) : result string UpstreamVerifiedEvent :=
  (if String.eqb (out_result output) "verified" then Ok Verified
   else if String.eqb (out_result output) "failed" then Ok Failed
   else Err ("provider verifier returned invalid result " +:+ debug_str (out_result output))) ≫= fun res =>
  parse_external_channel_bindings (out_channel_bindings output) ≫= fun bindings =>
  unless (negb (bool_decide (res = Verified) && bool_decide (bindings = [])))
    "provider verifier returned verified without an enforceable channel binding" ≫= fun _ =>
  (if decide (res = Verified) then enforce_attested_scope v (attested_scope output) else Ok tt) ≫= fun _ =>
  Ok {| upstream_name := vr_upstream_name r; provider_type := Some (x_provider v); model_id := vr_model_id r;
        url_origin := vr_url_origin r; verifier_id := default (default_verifier_id v) (out_verifier_id output);
        uv_result := res; required := vr_required r; reason := out_reason output; evidence := out_evidence output;
        channel_bindings := bindings; provider_claims := out_provider_claims output |}.

Definition x_failed_event (v : ExternalProviderVerifier) (r : UpstreamVerificationRequest) (why : string) :
    UpstreamVerifiedEvent :=
  {| upstream_name := vr_upstream_name r; provider_type := Some (x_provider v); model_id := vr_model_id r;
     url_origin := vr_url_origin r; verifier_id := default_verifier_id v; uv_result := Failed;
     required := vr_required r; reason := Some why; evidence := None; channel_bindings := [];
     provider_claims := None |}.

(** ** The cache *)

Definition cached_for (c : CachedExternalProviderEvent) (r : UpstreamVerificationRequest) : UpstreamVerifiedEvent :=
  let e := x_event c in
  {| upstream_name := vr_upstream_name r; provider_type := provider_type e; model_id := vr_model_id r;
     url_origin := vr_url_origin r; verifier_id := verifier_id e; uv_result := uv_result e;
     required := vr_required r; reason := reason e; evidence := evidence e;
     channel_bindings := channel_bindings e; provider_claims := provider_claims e |}.

Definition cached_event (v : ExternalProviderVerifier) (now : Z) (r : UpstreamVerificationRequest)
    (st : VerifierState) : option UpstreamVerifiedEvent * VerifierState :=
  if x_cache_ttl_seconds v =? 0 then (None, st)
  else match x_cache st !! cache_key v r with
       | Some cached =>
           if now <? x_expires_at cached then (Some (cached_for cached r), st)
           else (None, {| x_cache := delete (cache_key v r) (x_cache st); sessions := sessions st |})
       | None => (None, st)
       end.

Definition maybe_cache_event (v : ExternalProviderVerifier) (now : Z) (r : UpstreamVerificationRequest)
    (event : UpstreamVerifiedEvent) (st : VerifierState) : VerifierState :=
  if (x_cache_ttl_seconds v =? 0) || negb (bool_decide (uv_result event = Verified)) then st
  else {| x_cache := <[cache_key v r := {| x_expires_at := u64_saturating_add now (x_cache_ttl_seconds v);
                                           x_event := event |}]> (x_cache st);
          sessions := sessions st |}.

Definition x_invalidate (v : ExternalProviderVerifier) (r : UpstreamVerificationRequest) (st : VerifierState) :
    VerifierState :=
  {| x_cache := delete (cache_key v r) (x_cache st); sessions := sessions st |}.

(** ** Running the bridge *)

(** What one run meets: the bridge's answer to its input, the monotonic clock
    when nonces are recorded and the wall clock when the event is cached. *)
Record Run := { bridge : string -> result string string; at_nonces : Z; at_cache : Z }.

Definition record_provider_session (v : ExternalProviderVerifier) (x : Run) (output : ExternalProviderVerifierOutput)
    (st : VerifierState) : result string unit * VerifierState :=
  match chutes_session output with
  | None => (Ok tt, st)
  | Some d =>
      if has_session_store v then
        let '(res, c) := record_verified_discovery (at_nonces x) (sessions st) d in
        (match res with
         | Ok _ => Ok tt
         | Err e => Err ("failed to record Chutes provider session: " +:+ upstream_error_text e)
         end, {| x_cache := x_cache st; sessions := c |})
      else (Ok tt, st)
  end.

Definition bridge_input (v : ExternalProviderVerifier) (r : UpstreamVerificationRequest) : ExternalProviderVerifierInput :=
  {| in_provider := x_provider v; in_upstream_name := vr_upstream_name r; in_url_origin := vr_url_origin r;
     in_model_id := vr_model_id r; in_forwarded_body_hash := forwarded_body_hash r; in_required := vr_required r;
     in_timeout_seconds := timeout_seconds v; in_provider_options := options v |}.

(** The bridge's parsed output for a request. *)
Definition run_bridge (v : ExternalProviderVerifier) (x : Run) (r : UpstreamVerificationRequest) :
    result string ExternalProviderVerifierOutput :=
  map_err (fun e => "failed to encode verifier input: " +:+ e) (encode_input (bridge_input v r)) ≫= fun input =>
  bridge x input ≫= fun out =>
  map_err (fun e => "provider verifier returned invalid JSON: " +:+ e) (parse_output out).

Definition x_verify_uncached (v : ExternalProviderVerifier) (x : Run) (r : UpstreamVerificationRequest)
    (st : VerifierState) : UpstreamVerifiedEvent * VerifierState :=
  match run_bridge v x r with
  | Err e => (x_failed_event v r e, st)
  | Ok output =>
      match event_from_output v r output with
      | Err e => (x_failed_event v r e, st)
      | Ok event =>
          match (if decide (uv_result event = Verified) then record_provider_session v x output st else (Ok tt, st)) with
          | (Err e, st) => (x_failed_event v r e, st)
          | (Ok _, st) => (event, maybe_cache_event v (at_cache x) r event st)
          end
      end
  end.

(** What requests do to the shared state, as they interleave. *)
Inductive CacheOp :=
| Lookup (now : Z) (r : UpstreamVerificationRequest)
| Uncached (x : Run) (r : UpstreamVerificationRequest)
| Invalidate (r : UpstreamVerificationRequest)
| Sessions (op : PoolOp).

Definition x_exec (v : ExternalProviderVerifier) (st : VerifierState) (op : CacheOp) : VerifierState :=
  match op with
  | Lookup now r => (cached_event v now r st).2
  | Uncached x r => (x_verify_uncached v x r st).2
  | Invalidate r => x_invalidate v r st
  | Sessions op => {| x_cache := x_cache st; sessions := exec (sessions st) op |}
  end.

Definition x_exec_all (v : ExternalProviderVerifier) (st : VerifierState) (ops : list CacheOp) : VerifierState :=
  fold_left (x_exec v) ops st.

(** A request: a lookup, other requests' operations while it waits for the lock,
    a lookup under the lock, the run. *)
Definition x_verify (v : ExternalProviderVerifier) (now1 : Z) (others : list CacheOp) (now2 : Z) (x : Run)
    (r : UpstreamVerificationRequest) (st : VerifierState) : UpstreamVerifiedEvent * VerifierState :=
  match cached_event v now1 r st with
  | (Some event, st) => (event, st)
  | (None, st) =>
      match cached_event v now2 r (x_exec_all v st others) with
      | (Some event, st) => (event, st)
      | (None, st) => x_verify_uncached v x r st
      end
  end.

Definition x_refresh (v : ExternalProviderVerifier) (others : list CacheOp) (x : Run)
    (r : UpstreamVerificationRequest) (st : VerifierState) : UpstreamVerifiedEvent * VerifierState :=
  x_verify_uncached v x r (x_exec_all v st others).
End External.

(** ** The routing verifier *)

Section Routing.
Context {V : Type}.

Record RoutingUpstreamVerifier := { by_origin : gmap string V; by_name : gmap string V }.

Definition Routing_new : RoutingUpstreamVerifier := {| by_origin := ∅; by_name := ∅ |}.

Definition add_origin (origin : string) (v : V) (r : RoutingUpstreamVerifier) : RoutingUpstreamVerifier :=
  {| by_origin := <[origin := v]> (by_origin r); by_name := by_name r |}.

Definition add_name (name : string) (v : V) (r : RoutingUpstreamVerifier) : RoutingUpstreamVerifier :=
  {| by_origin := by_origin r; by_name := <[name := v]> (by_name r) |}.

(** The verifier a request is dispatched to: by origin first, then by name. *)
Definition dispatch (r : RoutingUpstreamVerifier) (request : UpstreamVerificationRequest) : option V :=
  match match vr_url_origin request with Some origin => by_origin r !! origin | None => None end with
  | Some v => Some v
  | None => by_name r !! vr_upstream_name request
  end.

End Routing.
Arguments RoutingUpstreamVerifier V : clear implicits.

(** ** Lemmas *)

Section Lemmas.
Context `{Digest} `{Crypto} `{BridgeCodec} `{StrDebug} (v : ExternalProviderVerifier).

(** Two requests over one channel: the same upstream at the same origin, and the
    same model unless the provider attests its whole router. *)
Definition same_channel (r0 r : UpstreamVerificationRequest) : Prop :=
  vr_upstream_name r0 = vr_upstream_name r /\ vr_url_origin r0 = vr_url_origin r /\
  (vr_model_id r0 = vr_model_id r \/ scope v = PerRouter).

(** The event names the channel of the request. *)
Definition for_request (ev : UpstreamVerifiedEvent) (r : UpstreamVerificationRequest) : Prop :=
  upstream_name ev = vr_upstream_name r /\ url_origin ev = vr_url_origin r /\ model_id ev = vr_model_id r.

Lemma cache_key_channel r0 r : cache_key v r0 = cache_key v r -> same_channel r0 r.
Proof.
  unfold cache_key, same_channel. destruct (scope v); cbn [is_per_router]; intros [=]; split_and!; try done; auto.
Qed.

(** The scope of a verified output: the provider's own if it declares one; it may
    leave it out only where the provider does not attest a whole router. *)
Definition scope_accepted (output : ExternalProviderVerifierOutput) : Prop :=
  match attested_scope output with
  | Some token => from_declared token = Some (scope v)
  | None => scope v <> PerRouter
  end.

(** What stands behind a verified event: a run of the bridge for a request of
    the same channel, whose output says verified, has an acceptable scope
    and carries the event's bindings, of which there is at least one. *)
Definition vouched (x : Run) (r : UpstreamVerificationRequest) (event : UpstreamVerifiedEvent) : Prop :=
  exists output, run_bridge v x r = Ok output /\ event_from_output v r output = Ok event /\
    out_result output = "verified" /\ scope_accepted output /\
    parse_external_channel_bindings (out_channel_bindings output) = Ok (channel_bindings event) /\
    channel_bindings event <> [].

Lemma enforce_scope_Ok output : enforce_attested_scope v (attested_scope output) = Ok tt -> scope_accepted output.
Proof.
  unfold enforce_attested_scope, scope_accepted. destruct (attested_scope output) as [token|].
  - destruct (from_declared token) as [s|]; [|done]. case_decide; [by subst|done].
  - by destruct (scope v).
Qed.

Lemma event_from_output_verified r output event :
  event_from_output v r output = Ok event -> uv_result event = Verified ->
  out_result output = "verified" /\ scope_accepted output /\
  parse_external_channel_bindings (out_channel_bindings output) = Ok (channel_bindings event) /\
  channel_bindings event <> [].
Proof.
  unfold event_from_output. destruct (String.eqb_spec (out_result output) "verified") as [Hr|_]; cbn [mbind result_bind].
  - intros He Hver. bind_step He. bind_step He. rewrite decide_True in He by done. bind_step He. injection He as <-.
    split; [done|]. cbn [channel_bindings]. split.
    { match goal with E : enforce_attested_scope _ _ = Ok ?u |- _ => destruct u; by apply enforce_scope_Ok end. }
    split; [done|].
    match goal with E : negb _ = true |- _ => apply negb_true_iff in E; revert E end.
    rewrite bool_decide_eq_true_2 by done. cbn. by case_bool_decide.
  - destruct (String.eqb _ "failed"); cbn [mbind result_bind]; [|done]. intros He Hver. bind_step He. bind_step He.
    rewrite decide_False in He by done. cbn [mbind result_bind] in He. injection He as <-. done.
Qed.

Definition cache_origin (ops : list CacheOp) (st : VerifierState) : Prop :=
  forall k c, x_cache st !! k = Some c -> exists x r, Uncached x r ∈ ops /\ cache_key v r = k /\
    vouched x r (x_event c) /\ uv_result (x_event c) = Verified /\ x_expires_at c <= at_cache x + x_cache_ttl_seconds v.

Lemma cache_origin_mono ops ops' st :
  (forall op, op ∈ ops -> op ∈ ops') -> cache_origin ops st -> cache_origin ops' st.
Proof. intros Hsub Ho k c (x & r & ? & ?)%Ho. exists x, r. split; [auto|done]. Qed.

(** An uncached verification: a failure that leaves the cache, or a vouched event. *)
Lemma verify_uncached_spec x r st :
  let '(ev, st') := x_verify_uncached v x r st in
  (uv_result ev = Failed /\ x_cache st' = x_cache st) \/
  (uv_result ev = Verified /\ vouched x r ev /\
   (x_cache st' = x_cache st \/
    x_cache st' = <[cache_key v r := {| x_expires_at := u64_saturating_add (at_cache x) (x_cache_ttl_seconds v);
                                        x_event := ev |}]> (x_cache st))).
Proof.
  unfold x_verify_uncached. destruct (run_bridge v x r) as [output|] eqn:Hrun; [|by left].
  destruct (event_from_output v r output) as [event|] eqn:Hev; [|by left].
  destruct (uv_result event) eqn:Hres.
  - rewrite decide_True by done.
    assert (Hc : x_cache (record_provider_session v x output st).2 = x_cache st).
    { unfold record_provider_session. destruct (chutes_session output); [|done]. destruct (has_session_store v); [|done].
      by destruct (record_verified_discovery _ _ _). }
    destruct (record_provider_session v x output st) as [[u|e] st']; cbn [snd] in Hc; [|left; by rewrite Hc].
    right. split; [done|]. split; [exists output; split_and!; try done; by eapply event_from_output_verified|].
    unfold maybe_cache_event. destruct (_ || _); [left|right]; cbn; by rewrite Hc.
  - rewrite decide_False by done. left. split; [done|]. unfold maybe_cache_event. rewrite Hres. by rewrite orb_true_r.
Qed.

Lemma x_exec_origin ops st op : cache_origin ops st -> cache_origin (ops ++ [op]) (x_exec v st op).
Proof.
  intros Ho. pose proof (cache_origin_mono ops (ops ++ [op]) st ltac:(intros; apply elem_of_app; by left) Ho) as Ho'.
  destruct op as [now r|x r|r|op]; cbn [x_exec].
  - unfold cached_event. destruct (_ =? 0); [done|]. destruct (x_cache st !! cache_key v r) as [c|]; [|done].
    destruct (_ <? _); [done|]. intros k c' Hk. cbn in Hk. apply lookup_delete_Some in Hk as [_ Hk]. by apply Ho'.
  - pose proof (verify_uncached_spec x r st) as Hs. destruct (x_verify_uncached v x r st) as [ev st']. cbn [snd].
    destruct Hs as [[_ E]|(Hver & Hv & [E|E])]; intros k c; rewrite E; try apply Ho'.
    destruct (decide (k = cache_key v r)) as [->|Hne]; [|rewrite lookup_insert_ne by done; apply Ho'].
    rewrite lookup_insert_eq. intros [= <-]. exists x, r. cbn. split; [apply elem_of_app; right; by left|].
    split_and!; try done. unfold u64_saturating_add. lia.
  - intros k c Hk. cbn in Hk. apply lookup_delete_Some in Hk as [_ Hk]. by apply Ho'.
  - done.
Qed.

Lemma x_exec_all_origin ops ops' st : cache_origin ops st -> cache_origin (ops ++ ops') (x_exec_all v st ops').
Proof.
  revert ops st. induction ops' as [|op ops' IH]; intros ops st Ho; [by rewrite app_nil_r|].
  change (x_exec_all v st (op :: ops')) with (x_exec_all v (x_exec v st op) ops').
  replace (ops ++ op :: ops') with ((ops ++ [op]) ++ ops') by (by rewrite <- app_assoc). by apply IH, x_exec_origin.
Qed.

(** What a cache hit returns. *)
Lemma cached_event_hit ops now r st ev st' :
  cache_origin ops st -> cached_event v now r st = (Some ev, st') ->
  exists x r' e, Uncached x r' ∈ ops /\ cache_key v r' = cache_key v r /\ vouched x r' e /\
    channel_bindings ev = channel_bindings e /\ evidence ev = evidence e /\
    for_request ev r /\ now < at_cache x + x_cache_ttl_seconds v.
Proof.
  intros Ho. unfold cached_event. destruct (_ =? 0); [done|].
  destruct (x_cache st !! cache_key v r) as [c|] eqn:Hc; [|done].
  destruct (Z.ltb_spec now (x_expires_at c)) as [Hlt|]; [|done]. intros [= <- <-].
  destruct (Ho _ _ Hc) as (x & r' & Hin & Hk & Hv & _ & Hexp). exists x, r', (x_event c). split_and!; try done. clear -Hlt Hexp. lia.
Qed.

Lemma cached_event_miss ops now r st st' :
  cache_origin ops st -> cached_event v now r st = (None, st') -> cache_origin ops st'.
Proof.
  intros Ho. unfold cached_event. destruct (_ =? 0); [by intros [= <-]|].
  destruct (x_cache st !! cache_key v r) as [c|]; [|by intros [= <-]]. destruct (_ <? _); [done|].
  intros [= <-] k c' Hk. cbn in Hk. apply lookup_delete_Some in Hk as [_ Hk]. by apply Ho.
Qed.

(** ** Properties *)

(** C39: a verified event of an external provider is always backed by the bridge:
    in any interleaving of requests, invalidations and refreshes, it comes from
    this request's own run or from an earlier run for the same channel (the same
    upstream and origin, and the same model unless the provider attests the
    whole router) that is younger than the cache lifetime; that run's output said
    verified, declared the provider's own scope (or none, where the provider is
    not one that attests a whole router), and carried at least one channel
    binding, which the event repeats under the request's upstream, origin and
    model. *)
Theorem external_event_vouched ops sess now1 others now2 x r ev st' :
  x_verify v now1 others now2 x r (x_exec_all v {| x_cache := ∅; sessions := sess |} ops) = (ev, st') ->
  uv_result ev = Verified ->
  for_request ev r /\
  exists x0 r0 e, same_channel r0 r /\ vouched x0 r0 e /\
    channel_bindings ev = channel_bindings e /\ evidence ev = evidence e /\
    ((x0 = x /\ r0 = r) \/
     (Uncached x0 r0 ∈ ops ++ others /\ exists now, now ∈ [now1; now2] /\ now < at_cache x0 + x_cache_ttl_seconds v)).
Proof.
  intros Hx Hver.
  assert (Ho : cache_origin ops (x_exec_all v {| x_cache := ∅; sessions := sess |} ops)).
  { apply (x_exec_all_origin []). intros k c. cbn. by rewrite lookup_empty. }
  unfold x_verify in Hx. destruct (cached_event v now1 r _) as [[e1|] st1] eqn:E1.
  { injection Hx as <- <-. destruct (cached_event_hit _ _ _ _ _ _ Ho E1) as (x0 & r0 & e & ? & ? & ? & ? & ? & ? & ?).
    split; [done|]. exists x0, r0, e. split_and!; try done; [by apply cache_key_channel|]. right. split; [apply elem_of_app; by left|].
    exists now1. split; [by left|done]. }
  pose proof (x_exec_all_origin _ others st1 (cached_event_miss _ _ _ _ _ Ho E1)) as Ho1.
  destruct (cached_event v now2 r _) as [[e2|] st2] eqn:E2.
  { injection Hx as <- <-. destruct (cached_event_hit _ _ _ _ _ _ Ho1 E2) as (x0 & r0 & e & ? & ? & ? & ? & ? & ? & ?).
    split; [done|]. exists x0, r0, e. split_and!; try done; [by apply cache_key_channel|]. right. split; [done|].
    exists now2. split; [right; by left|done]. }
  pose proof (verify_uncached_spec x r st2) as Hs. rewrite Hx in Hs.
  destruct Hs as [[Hf _]|(_ & Hv & _)]; [by rewrite Hf in Hver|].
  assert (Hname : for_request ev r).
  { destruct Hv as (output & _ & He & _). unfold event_from_output in He. repeat bind_step He. by injection He as <-. }
  split; [done|]. exists x, r, ev. split_and!; try done; [by apply cache_key_channel|]. by left.
Qed.
End Lemmas.

(** ** Witness *)

Definition demo_output : ExternalProviderVerifierOutput := {|
  out_result := "verified"; out_verifier_id := None; out_reason := None; out_evidence := None;
  out_channel_bindings := [{| binding_type := "tls_spki_sha256"; eb_origin := Some "https://u";
    eb_spki_sha256 := Some (demo_hex (zeros 32)); eb_certificate_sha256 := None; eb_provider := None;
    eb_key_id := None; eb_algorithm := None; eb_public_key_sha256 := None |}];
  out_provider_claims := None; attested_scope := Some "router"; chutes_session := None |}.

Definition demo_codec : BridgeCodec :=
  {| encode_input _ := Ok "input"; parse_output _ := Ok demo_output; upstream_error_text _ := "error" |}.

Definition demo_external : ExternalProviderVerifier :=
  {| x_provider := "tinfoil"; scope := PerRouter; options := ∅; timeout_seconds := 60; x_cache_ttl_seconds := 300;
     has_session_store := false |}.

Definition demo_run (t : Z) : Run := {| bridge _ := Ok "output"; at_nonces := t; at_cache := t |}.

Definition demo_vreq (model : string) : UpstreamVerificationRequest :=
  {| vr_upstream_name := "t"; vr_url_origin := Some "https://u"; vr_model_id := model; forwarded_body_hash := "h";
     vr_required := true |}.

#[local] Existing Instances Demo.digest32 Demo.crypto demo_codec demo_debug.

(** A second model of the router is served from the run for the first one. *)
Lemma external_event_vouched_witness :
  exists ev st', x_verify demo_external 20 [] 21 (demo_run 22) (demo_vreq "m2")
      (x_exec_all demo_external {| x_cache := ∅; sessions := ChutesSessionCache_default |}
         [Uncached (demo_run 10) (demo_vreq "m1")]) = (ev, st') /\
    uv_result ev = Verified /\ model_id ev = "m2" /\
    exists x0 r0 e, same_channel demo_external r0 (demo_vreq "m2") /\
      vouched demo_external x0 r0 e /\ channel_bindings ev = channel_bindings e.
Proof.
  destruct (x_verify demo_external 20 [] 21 (demo_run 22) (demo_vreq "m2")
      (x_exec_all demo_external {| x_cache := ∅; sessions := ChutesSessionCache_default |}
         [Uncached (demo_run 10) (demo_vreq "m1")])) as [ev st'] eqn:E.
  exists ev, st'. split; [reflexivity|].
  assert (Hver : uv_result ev = Verified /\ model_id ev = "m2").
  { apply (f_equal fst) in E. vm_compute in E. subst ev. split; reflexivity. }
  split; [exact (proj1 Hver)|]. split; [exact (proj2 Hver)|].
  destruct (external_event_vouched demo_external [Uncached (demo_run 10) (demo_vreq "m1")] ChutesSessionCache_default
    20 [] 21 (demo_run 22) (demo_vreq "m2") ev st' E (proj1 Hver)) as (_ & x0 & r0 & e & Hk & Hv & Hb & _).
  exists x0, r0, e. split; [exact Hk|]. split; [exact Hv|exact Hb].
Defined.
