(* ===== verification/UpstreamManager.v ===== *)
(** * The upstream configuration manager

    Model of [src/aggregator/upstream_config/builders.rs] (backends and verifiers
    built from the configuration), of the empty backend of [dynamic.rs] and of the
    manager of [mod.rs]: load, replace, enable, and the queries.  A verifier is
    represented by what it is built from.  The Chutes transport (E2EE over HTTP)
    is an interface, which [ChutesE2ee.v] gives. *)
From S2P Require Import Prelude Json Serde Canonical Fs Receipt Session Upstream Chutes AciVerifier UpstreamConfig ExternalVerifier.

(** ** What is built *)

Record ChutesProviderBackend := {
  inner : OpenAI.OpenAICompatibleBackend;
  e2ee_api_base : string;
  api_key : option string;
  chute_ids : gmap string string;
  ch_client : ClientSpec;
  ch_session_store : option string;
}.

Definition CHUTES_DEFAULT_E2EE_API_BASE : string := "https://api.chutes.ai".

(** Sending through [/e2e/invoke], and the legacy report of the provider. *)
Class ChutesTransport : Type := {
  chutes_forward_verified : ChutesProviderBackend -> PreparedUpstreamRequest -> UpstreamVerifiedEvent ->
    result UpstreamError UpstreamResponse;
  chutes_stream_verified : ChutesProviderBackend -> PreparedUpstreamRequest -> UpstreamVerifiedEvent ->
    result UpstreamError UpstreamStreamResponse;
  chutes_report : ChutesProviderBackend -> string -> result UpstreamError Value;
}.

(** A verifier, by its construction; an external one may share the Chutes session
    store of an upstream. *)
Inductive VerifierSpec :=
| SpecPreverified (id : string)
| SpecAciService (v : AciServiceUpstreamVerifier) (connect_timeout : Z)
| SpecExternal (v : ExternalProviderVerifier) (store : option string).

Inductive BuiltVerifier :=
| Routed (r : RoutingUpstreamVerifier VerifierSpec)
| Single (v : VerifierSpec).

(** The session stores, one per enabled Chutes upstream, by name. *)
Definition ProviderSessionRegistry : Type := gset string.

Record ConfiguredUpstreams := {
  cu_config : list UpstreamConfig;
  cu_config_digest : string;
  cu_backend : option ModelRouterBackend;
  cu_verifier : option BuiltVerifier;
  cu_sessions : ProviderSessionRegistry;
}.

(** The HTTP client of the ACI verifier, the default PCCS of [dcap_qvl] and the
    text of a policy error. *)
Class VerifierBuild : Type := {
  build_verifier_client : Z -> Z -> result string unit;
  PHALA_PCCS_URL : string;
  policy_error_text : AciServiceVerifierConfigError -> string;
}.

Section Builders.
Context `{SerdeJson} `{StrDebug} `{HttpClient} `{ChutesTransport} `{Digest} `{Crypto} `{VerifierBuild} `{ConfigCodec}.

Abbreviation cresult := (result UpstreamConfigError).

Definition invalid_upstream {A} (r : result UpstreamError A) : cresult A :=
  map_err (fun e => InvalidConfig (BackendFailed e)) r.

Definition sessions_new (config : list UpstreamConfig) : ProviderSessionRegistry :=
  list_to_set (map name (filter (fun cfg => provider cfg = Chutes) (enabled_configs config))).

(** ** Backends *)

Definition provider_is_tee (p : UpstreamProvider) : bool :=
  match p with
  | OpenAiCompatible | Anthropic => false
  | AciService | Chutes | Tinfoil | NearAi | PhalaDirect => true
  end.

Definition ChutesProviderBackend_new (base_url : string) (connect read : Z) : result UpstreamError ChutesProviderBackend :=
  let spec := {| accepted_pins := None; connect_timeout := connect; read_timeout := read |} in
  map_err Transport (build_client spec) ≫= fun _ =>
  OpenAI.new_with_timeouts base_url connect read ≫= fun inner =>
  Ok {| inner := OpenAI.with_name "chutes" inner; e2ee_api_base := CHUTES_DEFAULT_E2EE_API_BASE; api_key := None;
        chute_ids := ∅; ch_client := spec; ch_session_store := None |}.

Definition e2ee_requires_verified_binding : UpstreamError :=
  Transport "Chutes E2EE transport requires a verified chutes-ml-kem-768 public key binding".

(** The trait object: never forwards without a verified event. *)
Definition chutes_backend (b : ChutesProviderBackend) : UpstreamBackend := {|
  be_name := OpenAI.name (inner b);
  be_url_origin := Some (OpenAI.base_url (inner b));
  be_forward _ := Err e2ee_requires_verified_binding;
  be_forward_verified_prepared := chutes_forward_verified b;
  be_forward_stream _ := Err e2ee_requires_verified_binding;
  be_forward_stream_verified_prepared := chutes_stream_verified b;
  be_models := OpenAI.models (inner b);
  be_chutes_attestation_report := chutes_report b;
|}.

Definition build_chutes_provider_backend (cfg : UpstreamConfig) (options : UpstreamRuntimeOptions)
    (session_store : string) : cresult ChutesProviderBackend :=
  let connect := default (opt_connect_timeout_seconds options) (connect_timeout_seconds cfg) in
  let read := default (opt_read_timeout_seconds options) (read_timeout_seconds cfg) in
  invalid_upstream (ChutesProviderBackend_new (base_url cfg) connect read) ≫= fun b =>
  let inner' := OpenAI.with_name (name cfg) (inner b) in
  let inner' := match bearer_token cfg with Some token => OpenAI.with_bearer_token token inner' | None => inner' end in
  Ok {| inner := inner';
        e2ee_api_base := match chutes_e2ee_api_base cfg with
                         | Some base_url => OpenAI.trim_end_slashes (str_trim base_url)
                         | None => e2ee_api_base b
                         end;
        api_key := bearer_token cfg;
        chute_ids := default (chute_ids b) (chutes_chute_ids cfg);
        ch_client := ch_client b; ch_session_store := Some session_store |}.

(** [sessions.chutes(&cfg.name)] *)
Definition chutes_store (sessions : ProviderSessionRegistry) (cfg : UpstreamConfig) : cresult string :=
  if bool_decide (name cfg ∈ sessions) then Ok (name cfg) else Err (InvalidConfig (MissingChutesStore (name cfg))).

Definition build_provider_backend (cfg : UpstreamConfig) (options : UpstreamRuntimeOptions)
    (sessions : ProviderSessionRegistry) : cresult UpstreamBackend :=
  let connect := default (opt_connect_timeout_seconds options) (connect_timeout_seconds cfg) in
  let read := default (opt_read_timeout_seconds options) (read_timeout_seconds cfg) in
  if decide (provider cfg = Chutes) then
    chutes_store sessions cfg ≫= fun store =>
    build_chutes_provider_backend cfg options store ≫= fun b => Ok (chutes_backend b)
  else
    invalid_upstream (OpenAI.new_with_timeouts (base_url cfg) connect read) ≫= fun b =>
    let b := OpenAI.with_name (name cfg) b in
    Ok (OpenAI.backend
      match bearer_token cfg with
      | Some token => if decide (provider cfg = Anthropic) then OpenAI.with_anthropic_api_key token b
                      else OpenAI.with_bearer_token token b
      | None => b
      end).

(** The routes of one upstream. *)
Fixpoint add_models (cfg : UpstreamConfig) (backend : UpstreamBackend) (models : list (string * string))
    (router : ModelRouterBackend) : cresult ModelRouterBackend :=
  match models with
  | [] => Ok router
  | (public_model, upstream_model) :: models =>
      invalid_upstream (ModelRoute_new public_model upstream_model backend (route_id_of (name cfg) public_model))
        ≫= fun route =>
      invalid_upstream (add_route router
        (with_is_tee (Some (provider_is_tee (provider cfg))) (route_with_path (path cfg) route))) ≫= fun router =>
      add_models cfg backend models router
  end.

Fixpoint add_upstreams (config : list UpstreamConfig) (options : UpstreamRuntimeOptions)
    (sessions : ProviderSessionRegistry) (router : ModelRouterBackend) : cresult ModelRouterBackend :=
  match config with
  | [] => Ok router
  | cfg :: config =>
      build_provider_backend cfg options sessions ≫= fun backend =>
      add_models cfg backend (btree_iter (models cfg)) router ≫= fun router =>
      add_upstreams config options sessions router
  end.

Definition build_model_router (config : list UpstreamConfig) (options : UpstreamRuntimeOptions)
    (sessions : ProviderSessionRegistry) : cresult ModelRouterBackend :=
  add_upstreams (enabled_configs config) options sessions (ModelRouterBackend_new "model-router").

(** ** Verifiers *)

Definition AciServiceUpstreamVerifier_new (base pccs : string) (pol : AciServiceVerifierPolicy)
    (cache_seconds connect request : Z) : result AciServiceVerifierConfigError AciServiceUpstreamVerifier :=
  let report_base_url := OpenAI.trim_end_slashes (str_trim base) in
  if String.eqb report_base_url "" then Err AciVerifier.EmptyBaseUrl
  else
    map_err ClientFailed (build_verifier_client connect request) ≫= fun _ =>
    Ok {| report_base_url := report_base_url; v_pccs_url := pccs; policy := pol; cache_ttl_seconds := cache_seconds;
          request_timeout_seconds := request; cache := None |}.

Definition build_aci_service_verifier (cfg : UpstreamConfig) (options : UpstreamRuntimeOptions) : cresult VerifierSpec :=
  let invalid A := map_err (A := A) (fun e => InvalidConfig (VerifierFailed (policy_error_text e))) in
  invalid _ (policy_new
    (default (opt_accepted_workload_ids options) (accepted_workload_ids cfg))
    (default (opt_accepted_image_digests options) (accepted_image_digests cfg))
    (default (opt_accepted_dstack_kms_root_public_keys options) (accepted_dstack_kms_root_public_keys cfg)))
    ≫= fun pol =>
  let cache_seconds := default (opt_verifier_cache_seconds options) (verifier_cache_seconds cfg) in
  let connect := default (opt_connect_timeout_seconds options) (connect_timeout_seconds cfg) in
  let request := default (opt_verifier_request_timeout_seconds options) (verifier_request_timeout_seconds cfg) in
  let pccs := match pccs_url cfg with
              | Some p => p
              | None => default PHALA_PCCS_URL (opt_pccs_url options)
              end in
  invalid _ (AciServiceUpstreamVerifier_new (base_url cfg) pccs pol cache_seconds connect request) ≫= fun v =>
  Ok (SpecAciService v connect).

Definition preverified : VerifierSpec := SpecPreverified "preverified/out-of-band/v1".

Definition build_global_verifier_for_config (cfg : UpstreamConfig) (options : UpstreamRuntimeOptions) :
    cresult (option VerifierSpec) :=
  match verifier_mode options with
  | ModeNone => Ok None
  | Preverified => Ok (Some preverified)
  | ModeAciService =>
      let non_empty o := match o with Some (_ :: _) => true | _ => false end in
      if non_empty (accepted_workload_ids cfg) || non_empty (accepted_image_digests cfg)
      then build_aci_service_verifier cfg options ≫= fun v => Ok (Some v)
      else Ok None
  end.

(** [ExternalProviderVerifier::private_inference] with its options. *)
Definition external (provider : string) (p : UpstreamProvider) (timeout cache_seconds : Z) (opts : gmap string string)
    (store : option string) : VerifierSpec :=
  SpecExternal {| x_provider := provider; scope := attestation_scope p; options := opts; timeout_seconds := timeout;
                  x_cache_ttl_seconds := cache_seconds;
                  has_session_store := match store with Some _ => true | None => false end |} store.

Definition with_option (key : string) (value : option string) (opts : gmap string string) : gmap string string :=
  match value with Some v => <[key := v]> opts | None => opts end.

Definition chutes_options (cfg : UpstreamConfig) : gmap string string :=
  let opts := with_option "chutes_api_key" (bearer_token cfg) ∅ in
  let opts := with_option "chutes_e2ee_api_base" (chutes_e2ee_api_base cfg) opts in
  let opts := match chutes_chute_ids cfg with
              | Some ids => fold_left (fun opts '(model_id, chute_id) =>
                              <["chutes_chute_id:" +:+ model_id := chute_id]> opts) (btree_iter ids) opts
              | None => opts
              end in
  let opts := with_option "chutes_e2ee_discovery_rounds" (option_map z_to_string (chutes_e2ee_discovery_rounds cfg)) opts in
  with_option "chutes_e2ee_discovery_interval_seconds"
    (option_map z_to_string (chutes_e2ee_discovery_interval_seconds cfg)) opts.

(** The verifier of one upstream, when it has one. *)
Definition upstream_verifier (cfg : UpstreamConfig) (options : UpstreamRuntimeOptions)
    (sessions : ProviderSessionRegistry) : cresult (option VerifierSpec) :=
  let cache_seconds := default (opt_verifier_cache_seconds options) (verifier_cache_seconds cfg) in
  let request := default (opt_verifier_request_timeout_seconds options) (verifier_request_timeout_seconds cfg) in
  match provider cfg with
  | OpenAiCompatible | Anthropic => build_global_verifier_for_config cfg options
  | AciService => build_aci_service_verifier cfg options ≫= fun v => Ok (Some v)
  | Chutes =>
      chutes_store sessions cfg ≫= fun store =>
      Ok (Some (external "chutes" Chutes request cache_seconds (chutes_options cfg) (Some store)))
  | Tinfoil => Ok (Some (external "tinfoil" Tinfoil request cache_seconds ∅ None))
  | NearAi => Ok (Some (external "near-ai" NearAi request cache_seconds ∅ None))
  | PhalaDirect =>
      Ok (Some (external "phala-direct" PhalaDirect request cache_seconds
                  (with_option "phala_direct_bearer_token" (bearer_token cfg) ∅) None))
  end.

Definition origin_of (cfg : UpstreamConfig) : string := OpenAI.trim_end_slashes (base_url cfg).

Definition add_verifier (cfg : UpstreamConfig) (v : VerifierSpec) (r : RoutingUpstreamVerifier VerifierSpec) :
    RoutingUpstreamVerifier VerifierSpec :=
  add_name (name cfg) v (add_origin (origin_of cfg) v r).

Fixpoint route_verifiers (mk : UpstreamConfig -> cresult (option VerifierSpec)) (config : list UpstreamConfig)
    (r : RoutingUpstreamVerifier VerifierSpec) : cresult (RoutingUpstreamVerifier VerifierSpec) :=
  match config with
  | [] => Ok r
  | cfg :: config =>
      mk cfg ≫= fun v =>
      route_verifiers mk config (match v with Some v => add_verifier cfg v r | None => r end)
  end.

Definition build_provider_verifier (config : list UpstreamConfig) (options : UpstreamRuntimeOptions)
    (sessions : ProviderSessionRegistry) : cresult (option BuiltVerifier) :=
  if negb (existsb (fun cfg => provider_is_tee (provider cfg)) (enabled_configs config)) then Ok None
  else
    route_verifiers (fun cfg => upstream_verifier cfg options sessions) (enabled_configs config) Routing_new
      ≫= fun r => Ok (Some (Routed r)).

Definition build_verifier (config : list UpstreamConfig) (options : UpstreamRuntimeOptions)
    (sessions : ProviderSessionRegistry) : cresult (option BuiltVerifier) :=
  build_provider_verifier config options sessions ≫= fun provider_verifier =>
  match provider_verifier with
  | Some v => Ok (Some v)
  | None =>
      match verifier_mode options with
      | ModeNone => Ok None
      | Preverified => Ok (Some (Single preverified))
      | ModeAciService =>
          route_verifiers (fun cfg => build_aci_service_verifier cfg options ≫= fun v => Ok (Some v))
            (enabled_configs config) Routing_new ≫= fun r => Ok (Some (Routed r))
      end
  end.

Definition config_digest (config : list UpstreamConfig) : cresult string :=
  map_err (fun e => InvalidConfig (SerializeFailed e)) (to_value config) ≫= fun value =>
  map_err (fun e => InvalidConfig (NotCanonical e)) (jcs_sha256_hex value).

Definition build_state (config : list UpstreamConfig) (options : UpstreamRuntimeOptions) : cresult ConfiguredUpstreams :=
  validate_config config ≫= fun _ =>
  let active_config := enabled_configs config in
  let sessions := sessions_new active_config in
  (match active_config with
   | [] => Ok None
   | _ => build_model_router active_config options sessions ≫= fun r => Ok (Some r)
   end) ≫= fun backend =>
  build_verifier active_config options sessions ≫= fun verifier =>
  config_digest config ≫= fun digest =>
  Ok {| cu_config := config; cu_config_digest := digest; cu_backend := backend; cu_verifier := verifier;
        cu_sessions := sessions |}.

(** ** The empty backend *)

Definition no_upstreams : UpstreamError := Routing "no upstreams configured".

Definition EmptyUpstreamBackend : UpstreamBackend := {|
  be_name := "unconfigured";
  be_url_origin := None;
  be_forward _ := Err no_upstreams;
  be_forward_verified_prepared := default_forward_verified_prepared "unconfigured" (fun _ => Err no_upstreams);
  be_forward_stream _ := Err no_upstreams;
  be_forward_stream_verified_prepared :=
    default_forward_stream_verified_prepared "unconfigured" (fun _ => Err no_upstreams);
  be_models :=
    map_err Routing (to_vec {{ "object" ≔ Str "list"; "data" ≔ Arr [] }}) ≫= fun body =>
    Ok {| status_code := 200; resp_body := body; resp_headers := {[ "content-type" := "application/json" ]};
          served_instance_id := None |};
  be_chutes_attestation_report := default_chutes_attestation_report "unconfigured";
|}.

(** The backend requests go to, whichever configuration is current. *)
Definition current_backend (st : ConfiguredUpstreams) : UpstreamBackend :=
  match cu_backend st with Some r => router_backend r | None => EmptyUpstreamBackend end.

Definition current_prepare (st : ConfiguredUpstreams) (req : UpstreamRequest) :
    result UpstreamError PreparedUpstreamRequest :=
  match cu_backend st with Some r => prepare r req | None => Err no_upstreams end.

(** ** The manager *)

Record UpstreamConfigManager := {
  m_path : Path;
  m_options : UpstreamRuntimeOptions;
  m_state : ConfiguredUpstreams;
}.

Record UpstreamConfigSnapshot := {
  snap_config_path : string;
  snap_config_digest : string;
  snap_upstreams : list PublicUpstreamConfig;
}.

Definition snapshot_for (path : Path) (st : ConfiguredUpstreams) : UpstreamConfigSnapshot :=
  {| snap_config_path := path_display path; snap_config_digest := cu_config_digest st;
     snap_upstreams := map redacted (cu_config st) |}.

Definition snapshot (m : UpstreamConfigManager) : UpstreamConfigSnapshot := snapshot_for (m_path m) (m_state m).

Definition manager_load (path : Path) (options : UpstreamRuntimeOptions) (w : World) :
    result UpstreamConfigError UpstreamConfigManager * World :=
  match read_config_file path w with
  | (Err e, w) => (Err e, w)
  | (Ok config, w) =>
      (build_state config options ≫= fun st => Ok {| m_path := path; m_options := options; m_state := st |}, w)
  end.

Definition replace (m : UpstreamConfigManager) (config : list UpstreamConfig) (w : World) :
    result UpstreamConfigError UpstreamConfigSnapshot * UpstreamConfigManager * World :=
  match validate_config config ≫= fun _ => build_state config (m_options m) with
  | Err e => (Err e, m, w)
  | Ok next =>
      match write_config_file (m_path m) config w with
      | (Err e, w) => (Err e, m, w)
      | (Ok _, w) =>
          (Ok (snapshot_for (m_path m) next),
           {| m_path := m_path m; m_options := m_options m; m_state := next |}, w)
      end
  end.

(** The first upstream of that name, with its flag set. *)
Fixpoint set_flag (n : string) (flag : bool) (config : list UpstreamConfig) : option (list UpstreamConfig) :=
  match config with
  | [] => None
  | u :: config =>
      if String.eqb (name u) n then
        Some ({| name := name u; enabled := flag; provider := provider u; base_url := base_url u; path := path u;
                 models := models u; bearer_token := bearer_token u;
                 accepted_workload_ids := accepted_workload_ids u;
                 accepted_image_digests := accepted_image_digests u;
                 accepted_dstack_kms_root_public_keys := accepted_dstack_kms_root_public_keys u;
                 pccs_url := pccs_url u; verifier_cache_seconds := verifier_cache_seconds u;
                 connect_timeout_seconds := connect_timeout_seconds u;
                 read_timeout_seconds := read_timeout_seconds u;
                 verifier_request_timeout_seconds := verifier_request_timeout_seconds u;
                 verification_refresh_seconds := verification_refresh_seconds u;
                 session_refresh_seconds := session_refresh_seconds u;
                 chutes_e2ee_api_base := chutes_e2ee_api_base u; chutes_chute_ids := chutes_chute_ids u;
                 chutes_e2ee_discovery_rounds := chutes_e2ee_discovery_rounds u;
                 chutes_e2ee_discovery_interval_seconds := chutes_e2ee_discovery_interval_seconds u |} :: config)
      else option_map (cons u) (set_flag n flag config)
  end.

Definition set_enabled (m : UpstreamConfigManager) (n : string) (flag : bool) (w : World) :
    result UpstreamConfigError UpstreamConfigSnapshot * UpstreamConfigManager * World :=
  match set_flag n flag (cu_config (m_state m)) with
  | None => (Err (InvalidConfig (UpstreamNotFound n)), m, w)
  | Some config => replace m config w
  end.

(** ** Queries *)

Definition serves (model : string) (cfg : UpstreamConfig) : bool :=
  match models cfg !! model with Some _ => true | None => existsb (String.eqb model) (btree_values (models cfg)) end.

Definition upstream_names_for_model (m : UpstreamConfigManager) (model : string) : list string :=
  map name (filter (fun cfg => serves model cfg = true) (enabled_configs (cu_config (m_state m)))).

Record AttestationUpstreamTarget := {
  at_upstream_name : string;
  at_provider : UpstreamProvider;
  at_base_url : string;
  at_upstream_model_id : string;
  at_bearer_token : option string;
  at_connect_timeout_seconds : Z;
  at_read_timeout_seconds : Z;
}.

Definition attestation_upstream_target (m : UpstreamConfigManager) (model : string) : option AttestationUpstreamTarget :=
  match List.find (serves model) (enabled_configs (cu_config (m_state m))) with
  | None => None
  | Some cfg =>
      Some {| at_upstream_name := name cfg; at_provider := provider cfg; at_base_url := origin_of cfg;
              at_upstream_model_id := default model (models cfg !! model); at_bearer_token := bearer_token cfg;
              at_connect_timeout_seconds :=
                default (opt_connect_timeout_seconds (m_options m)) (connect_timeout_seconds cfg);
              at_read_timeout_seconds := default (opt_read_timeout_seconds (m_options m)) (read_timeout_seconds cfg) |}
  end.

Record UpstreamMetricsTarget := {
  mt_upstream_name : string;
  mt_base_url : string;
  mt_bearer_token : option string;
  mt_connect_timeout_seconds : Z;
  mt_read_timeout_seconds : Z;
}.

Definition metrics_targets (m : UpstreamConfigManager) : list UpstreamMetricsTarget :=
  map (fun cfg =>
    {| mt_upstream_name := name cfg; mt_base_url := origin_of cfg; mt_bearer_token := bearer_token cfg;
       mt_connect_timeout_seconds :=
         default (opt_connect_timeout_seconds (m_options m)) (connect_timeout_seconds cfg);
       mt_read_timeout_seconds := default (opt_read_timeout_seconds (m_options m)) (read_timeout_seconds cfg) |})
    (enabled_configs (cu_config (m_state m))).

(** [Iterator::min] *)
Definition minimum (l : list Z) : option Z :=
  match l with [] => None | x :: l => Some (fold_left Z.min l x) end.

Definition verification_refresh_interval_seconds (m : UpstreamConfigManager) : option Z :=
  match cu_verifier (m_state m) with
  | None => None
  | Some _ => minimum (omap (fun cfg => verification_refresh_seconds_of cfg (m_options m))
                        (enabled_configs (cu_config (m_state m))))
  end.

Definition session_refresh_interval_seconds (m : UpstreamConfigManager) : option Z :=
  match cu_verifier (m_state m) with
  | None => None
  | Some _ => minimum (omap session_refresh_seconds_of
                (filter (fun cfg => provider cfg = Chutes) (enabled_configs (cu_config (m_state m)))))
  end.
End Builders.

(** What the manager relies on from [serde_json]: the printed configuration is
    text that reads back as the configuration. *)
Class ConfigCodecLaws `{ConfigCodec} (fits : list UpstreamConfig -> Prop) : Prop :=
  config_roundtrip config body : fits config -> to_vec_pretty config = Ok body ->
    config_from_str body = Ok config /\ is_blank body = false /\ valid_utf8b body = true.

(** ** Lemmas *)

Lemma config_tmp_neq p : config_tmp p <> p.
Proof.
  unfold config_tmp. apply with_extension_neq. rewrite list_ascii_app. apply elem_of_app. right. cbn. set_solver.
Qed.

Lemma write_config_file_spec `{ConfigCodec} p config w r w' :
  write_config_file p config w = (r, w') ->
  match r with
  | Ok _ => exists body, to_vec_pretty config = Ok body /\ files w' !! p = Some body
  | Err _ => files w' !! p = files w !! p
  end.
Proof.
  unfold write_config_file, create_dir_all, fs_write, fs_rename, with_fault. pose proof (config_tmp_neq p) as Hne.
  destruct w as [m fs]. cbn [files faults]. destruct (to_vec_pretty config) as [body|e].
  - destruct fs as [|[f1|] [|[f2|] [|[f3|] fs]]]; cbn [files faults]; rewrite ?lookup_insert_eq; cbn [files faults];
      intros [= <- <-]; cbn [files faults]; simplify_map_eq; eauto.
  - destruct fs as [|[f1|] fs]; cbn; intros [= <- <-]; done.
Qed.

Section Properties.
Context `{SerdeJson} `{StrDebug} `{HttpClient} `{ChutesTransport} `{Digest} `{Crypto} `{VerifierBuild} `{ConfigCodec}.

Lemma build_state_Ok config options st :
  build_state config options = Ok st ->
  valid_config config /\ cu_config st = config /\
  (match enabled_configs config with
   | [] => cu_backend st = None
   | _ => exists r, cu_backend st = Some r /\
       add_upstreams (enabled_configs config) options (sessions_new (enabled_configs config))
         (ModelRouterBackend_new "model-router") = Ok r
   end).
Proof.
  assert (Hidem : enabled_configs (enabled_configs config) = enabled_configs config).
  { unfold enabled_configs. apply filter_all. intros u Hu. by apply list_elem_of_filter in Hu as [? _]. }
  unfold build_state. intros Hb. bind_step Hb.
  match type of E with _ = Ok ?u => destruct u end. apply validate_config_Ok in E.
  cbn zeta in Hb. bind_step Hb. bind_step Hb. bind_step Hb. injection Hb as <-. cbn. split; [done|]. split; [done|].
  destruct (enabled_configs config) as [|u us] eqn:Hen; [by injection E0 as <-|].
  unfold build_model_router in E0. rewrite Hidem in E0. bind_step E0. injection E0 as <-. eauto.
Qed.

(** The route built for a model of an upstream. *)
Record route_matches (u : UpstreamConfig) (pm um : string) (route : ModelRoute) : Prop := {
  rm_id : mr_route_id route = route_id_of (name u) pm;
  rm_public : public_model_id route = pm;
  rm_model : upstream_model_id route = um;
  rm_name : be_name (upstream route) = name u;
  rm_origin : be_url_origin (upstream route) = Some (origin_of u);
  rm_tee : is_tee route = Some (provider_is_tee (provider u));
}.

Lemma new_with_timeouts_Ok url c r b :
  OpenAI.new_with_timeouts url c r = Ok b -> OpenAI.base_url b = OpenAI.trim_end_slashes url.
Proof. unfold OpenAI.new_with_timeouts. intros Hb. bind_step Hb. by injection Hb as <-. Qed.

Lemma invalid_upstream_Ok {A} (r : result UpstreamError A) a : invalid_upstream r = Ok a -> r = Ok a.
Proof. destruct r; cbn; [by intros [= ->]|done]. Qed.

Lemma build_provider_backend_Ok u options sessions b :
  build_provider_backend u options sessions = Ok b -> be_name b = name u /\ be_url_origin b = Some (origin_of u).
Proof.
  unfold build_provider_backend. case_decide as Hp.
  - intros Hb. bind_step Hb. bind_step Hb. injection Hb as <-. unfold build_chutes_provider_backend in E0.
    cbn zeta in E0. bind_step E0. injection E0 as <-. apply invalid_upstream_Ok in E1.
    unfold ChutesProviderBackend_new in E1. cbn zeta in E1. bind_step E1. bind_step E1. injection E1 as <-.
    apply new_with_timeouts_Ok in E2. cbn. unfold origin_of. by destruct (bearer_token u); cbn; rewrite <- E2.
  - intros Hb. bind_step Hb. injection Hb as <-. apply invalid_upstream_Ok, new_with_timeouts_Ok in E.
    unfold origin_of. destruct (bearer_token u); [case_decide|]; cbn; by rewrite <- E.
Qed.

Lemma add_models_Ok u b ms r l r' :
  be_name b = name u -> be_url_origin b = Some (origin_of u) -> represents r l -> add_models u b ms r = Ok r' ->
  exists l', represents r' (l ++ l') /\ Forall2 (fun kv route => route_matches u kv.1 kv.2 route) ms l'.
Proof.
  intros Hn Ho. revert r l. induction ms as [|[pm um] ms IH]; intros r l Hr; cbn [add_models].
  - intros [= <-]. exists []. rewrite app_nil_r. by split.
  - intros Hm. bind_step Hm. bind_step Hm. apply invalid_upstream_Ok in E, E0.
    unfold ModelRoute_new in E. destruct (is_blank pm); [discriminate|].
    destruct (is_blank um); [discriminate|]. destruct (is_blank (route_id_of _ _)); [discriminate|].
    injection E as <-. match type of E0 with add_route _ ?x = _ => pose proof (add_route_represents r l x Hr) as Hadd end.
    rewrite E0 in Hadd. destruct Hadd as [Hadd _].
    destruct (IH _ _ Hadd Hm) as (l' & Hl' & HF). eexists (_ :: l'). rewrite <- app_assoc in Hl'. split; [exact Hl'|].
    constructor; [|done]. by split.
Qed.

Lemma add_upstreams_Ok us options sessions r l r' :
  represents r l -> add_upstreams us options sessions r = Ok r' ->
  exists l', represents r' (l ++ l') /\
    (forall u pm um, u ∈ us -> models u !! pm = Some um -> exists route, route ∈ l' /\ route_matches u pm um route) /\
    (forall route, route ∈ l' -> exists u pm um, u ∈ us /\ models u !! pm = Some um /\ route_matches u pm um route).
Proof.
  revert r l. induction us as [|u us IH]; intros r l Hr; cbn [add_upstreams].
  - intros [= <-]. exists []. rewrite app_nil_r. split; [done|]. split; [by intros ??? ?%elem_of_nil|by intros ? ?%elem_of_nil].
  - intros Hu. bind_step Hu. bind_step Hu. destruct (build_provider_backend_Ok _ _ _ _ E) as [Hn Ho].
    destruct (add_models_Ok _ _ _ _ _ _ Hn Ho Hr E0) as (l1 & Hl1 & HF).
    destruct (IH _ _ Hl1 Hu) as (l2 & Hl2 & Hto & Hfrom). rewrite <- app_assoc in Hl2. exists (l1 ++ l2).
    split; [done|]. setoid_rewrite elem_of_app. setoid_rewrite elem_of_cons. split.
    + intros u' pm um [->|Hin] Hm.
      * apply btree_iter_elem in Hm. destruct (Forall2_elem_l _ _ _ _ HF Hm) as (route & Hroute & Hmatch). eauto.
      * destruct (Hto _ _ _ Hin Hm) as (route & ? & ?). eauto.
    + intros route [Hin|Hin].
      * apply list_elem_of_lookup in Hin as [i Hi]. destruct (Forall2_lookup_r _ _ _ _ _ HF Hi) as ([pm um] & Hkv & Hmatch).
        exists u, pm, um. split; [by left|]. split; [|done]. apply btree_iter_elem. by eapply list_elem_of_lookup_2.
      * destruct (Hfrom _ Hin) as (u' & pm & um & ? & ?). exists u', pm, um. split; [by right|done].
Qed.

(** ** Theorems *)

(** What is configured is what is served: after a configuration is built,
    every model of every enabled upstream has its route, under the route id the
    middleware computes, to a backend with that upstream's name and origin, with
    its model and TEE classification; and no other route exists, so a disabled
    upstream gets no traffic. *)
Theorem built_routes_aligned config options st :
  build_state config options = Ok st -> enabled_configs config <> [] ->
  exists r, cu_backend st = Some r /\
    (forall u pm um, u ∈ config -> enabled u = true -> models u !! pm = Some um ->
       exists route, route_for_id r (route_id_of (name u) pm) = Ok route /\ route_matches u pm um route) /\
    (forall rid route, route_for_id r rid = Ok route ->
       exists u pm um, u ∈ config /\ enabled u = true /\ models u !! pm = Some um /\
         rid = route_id_of (name u) pm /\ route_matches u pm um route).
Proof.
  intros (_ & _ & Hb)%build_state_Ok Hne. destruct (enabled_configs config) as [|u0 us0] eqn:Hen; [done|].
  rewrite <- Hen in Hb. destruct Hb as (r & Hr & Hadd). exists r. split; [done|].
  destruct (add_upstreams_Ok _ _ _ _ _ _ (represents_new _) Hadd) as (l & Hl & Hto & Hfrom). cbn in Hl. split.
  - intros u pm um Hu He Hm. destruct (Hto u pm um) as (route & Hin & Hmatch); [by apply enabled_configs_elem|done|].
    exists route. split; [|done]. unfold route_for_id. rewrite (rep_routes r l Hl). unfold has_id.
    rewrite <- (rm_id _ _ _ _ Hmatch), (find_nodup mr_route_id l route (rep_nodup r l Hl) Hin). done.
  - intros rid route Hroute. destruct (route_for_id_represents r l rid route Hl Hroute) as [Hin Hid].
    destruct (Hfrom _ Hin) as (u & pm & um & [Hu He]%enabled_configs_elem & Hm & Hmatch).
    exists u, pm, um. split_and!; try done. rewrite <- Hid. apply Hmatch.
Qed.

(** C40: replacing the configuration is all or nothing: on success the given
    configuration is valid, is the one in memory and in the file (a restart
    loads the same manager), and the answer is its redacted snapshot; on any
    failure, of validation, construction or the file system at any point, the
    manager and the file are as they were. *)
Theorem replace_atomic (fits : list UpstreamConfig -> Prop) `{!ConfigCodecLaws fits} m config w r m' w' :
  fits config -> replace m config w = (r, m', w') ->
  match r with
  | Ok snap => valid_config config /\ cu_config (m_state m') = config /\ snap = snapshot m' /\
      snap_upstreams snap = map redacted config /\
      manager_load (m_path m) (m_options m) (settled w') = (Ok m', settled w')
  | Err _ => m' = m /\ files w' !! m_path m = files w !! m_path m
  end.
Proof.
  intros Hfits. unfold replace. destruct (validate_config config ≫= _) as [next|e] eqn:Hn; [|by intros [= <- <- <-]].
  destruct (write_config_file (m_path m) config w) as [[[]|e] w1] eqn:Hw; intros [= <- <- <-];
    apply write_config_file_spec in Hw; [|done].
  destruct Hw as (body & Hbody & Hfile). bind_step Hn. match type of E with _ = Ok ?u => destruct u end.
  destruct (build_state_Ok _ _ _ Hn) as (Hvalid & Hcfg & _). cbn [m_state]. split_and!; try done.
  - cbn. by rewrite Hcfg.
  - destruct (config_roundtrip config body Hfits Hbody) as (Hparse & Hblank & Hutf).
    unfold manager_load, read_config_file, read_to_string, with_fault. cbn [settled faults files]. rewrite Hfile, Hutf.
    unfold parse_config_text. rewrite Hblank, Hparse. cbn [map_err mbind result_bind]. rewrite E. cbn [mbind result_bind].
    by rewrite Hn.
Qed.

(** ** Which verifier a request reaches *)

Lemma dispatch_add_other cfg v r request :
  vr_url_origin request <> Some (origin_of cfg) -> vr_upstream_name request <> name cfg ->
  dispatch (add_verifier cfg v r) request = dispatch r request.
Proof.
  intros Ho Hn. unfold dispatch, add_verifier, add_name, add_origin. cbn.
  rewrite lookup_insert_ne by done. destruct (vr_url_origin request) as [o|]; [|done].
  by rewrite lookup_insert_ne by congruence.
Qed.

Lemma dispatch_add_origin cfg v r request :
  vr_url_origin request = Some (origin_of cfg) -> dispatch (add_verifier cfg v r) request = Some v.
Proof. intros Ho. unfold dispatch, add_verifier, add_name, add_origin. cbn. by rewrite Ho, lookup_insert_eq. Qed.

Lemma route_verifiers_app mk us1 us2 r :
  route_verifiers mk (us1 ++ us2) r = route_verifiers mk us1 r ≫= route_verifiers mk us2.
Proof.
  revert r. induction us1 as [|u us1 IH]; intros r; cbn; [done|]. destruct (mk u) as [v|]; cbn; [apply IH|done].
Qed.

Lemma route_verifiers_others mk us r r' request :
  route_verifiers mk us r = Ok r' ->
  (forall u, u ∈ us -> vr_url_origin request <> Some (origin_of u) /\ vr_upstream_name request <> name u) ->
  dispatch r' request = dispatch r request.
Proof.
  revert r. induction us as [|u us IH]; intros r; cbn [route_verifiers]; [by intros [= <-]|].
  intros Hr Hus. bind_step Hr. rewrite (IH _ Hr) by (intros u' Hu'; apply Hus; by right).
  match goal with |- context [match ?o with Some _ => _ | None => _ end] => destruct o as [v|] end; [|done]. apply dispatch_add_other; apply Hus; by left.
Qed.

(** The last upstream at an origin verifies for all of them: requests are
    dispatched by origin first, so the verifier of the last enabled upstream
    with a given origin answers for every upstream at that origin, whatever its
    own provider and policy. *)
Theorem last_origin_verifies us1 u us2 options sessions v r request :
  route_verifiers (fun cfg => upstream_verifier cfg options sessions) (us1 ++ u :: us2) Routing_new = Ok r ->
  upstream_verifier u options sessions = Ok (Some v) ->
  vr_url_origin request = Some (origin_of u) ->
  (forall u', u' ∈ us2 -> origin_of u' <> origin_of u) ->
  dispatch r request = Some v.
Proof.
  rewrite route_verifiers_app. intros Hr Hv Ho Hlast. bind_step Hr. cbn [route_verifiers] in Hr. rewrite Hv in Hr.
  cbn [mbind result_bind] in Hr.
  assert (Hgen : forall us r0 r1, (forall u', u' ∈ us -> origin_of u' <> origin_of u) ->
    by_origin r0 !! origin_of u = Some v ->
    route_verifiers (fun cfg => upstream_verifier cfg options sessions) us r0 = Ok r1 ->
    by_origin r1 !! origin_of u = Some v).
  { clear. induction us as [|u' us IH]; intros r0 r1 Hus Hr0; cbn [route_verifiers]; [by intros [= <-]|].
    intros Hr1. bind_step Hr1. refine (IH _ _ _ _ Hr1); [intros; apply Hus; by right|].
    match goal with |- context [match ?o with Some _ => _ | None => _ end] => destruct o as [v'|] end; [|done].
    cbn. rewrite lookup_insert_ne; [done|]. apply Hus. by left. }
  unfold dispatch. rewrite Ho.
  assert (E1 : by_origin r !! origin_of u = Some v); [|by rewrite E1].
  refine (Hgen us2 _ r Hlast _ Hr). cbn. by rewrite lookup_insert_eq.
Qed.
End Properties.

(** ** Witnesses *)

Definition demo_options : UpstreamRuntimeOptions := {|
  verifier_mode := Preverified; opt_accepted_workload_ids := []; opt_accepted_image_digests := [];
  opt_accepted_dstack_kms_root_public_keys := []; opt_pccs_url := None; opt_verifier_cache_seconds := 300;
  opt_connect_timeout_seconds := 10; opt_read_timeout_seconds := 600; opt_verifier_request_timeout_seconds := 60 |}.

(** A codec for one configuration. *)
Definition demo_config_codec : ConfigCodec := {|
  to_vec_pretty _ := Ok "[config]"; config_from_str _ := Ok demo_config; to_value _ := Ok (Arr []) |}.

Lemma demo_config_codec_laws : @ConfigCodecLaws demo_config_codec (fun c => c = demo_config).
Proof. intros config body -> [= <-]. done. Qed.

Definition demo_transport : ChutesTransport := {|
  chutes_forward_verified _ _ _ := Err no_upstreams; chutes_stream_verified _ _ _ := Err no_upstreams;
  chutes_report _ _ := Err no_upstreams |}.

Definition demo_build : VerifierBuild :=
  {| build_verifier_client _ _ := Ok tt; PHALA_PCCS_URL := "https://pccs"; policy_error_text _ := "policy" |}.

#[local] Existing Instances demo_serde demo_debug demo_http demo_transport sum_digest Demo.crypto demo_build
  demo_config_codec.

Lemma built_routes_aligned_witness :
  exists st r route, build_state demo_config demo_options = Ok st /\ cu_backend st = Some r /\
    route_for_id r "a:n" = Ok route /\ be_name (upstream route) = "a" /\ upstream_model_id route = "y".
Proof.
  destruct (build_state demo_config demo_options) as [st|] eqn:E;
    [|apply (f_equal ok) in E; vm_compute in E; discriminate].
  destruct (built_routes_aligned demo_config demo_options st E ltac:(vm_compute; discriminate)) as (r & Hr & Hto & _).
  destruct (Hto (demo_upstream "a" NearAi {[ "m" := "x"; "n" := "y" ]}) "n" "y") as (route & Hroute & Hmatch);
    [by left|reflexivity|vm_compute; reflexivity|].
  exists st, r, route. split; [reflexivity|]. split; [exact Hr|]. split; [exact Hroute|].
  split; [exact (rm_name _ _ _ _ Hmatch)|exact (rm_model _ _ _ _ Hmatch)].
Defined.

Definition demo_manager (st : ConfiguredUpstreams) : UpstreamConfigManager :=
  {| m_path := ("/state", "upstreams.json"); m_options := demo_options; m_state := st |}.

Definition empty_state : ConfiguredUpstreams :=
  {| cu_config := []; cu_config_digest := ""; cu_backend := None; cu_verifier := None; cu_sessions := ∅ |}.

(** A replacement that succeeds, and one that fails at the rename. *)
Lemma replace_atomic_witness :
  (exists snap m' w', replace (demo_manager empty_state) demo_config {| files := ∅; faults := [] |} = (Ok snap, m', w') /\
     cu_config (m_state m') = demo_config /\
     manager_load (m_path m') (m_options m') (settled w') = (Ok m', settled w')) /\
  (exists e m' w', replace (demo_manager empty_state) demo_config
       {| files := ∅; faults := [None; None; Some (mkFault "disk full" 0)] |} = (Err e, m', w') /\
     m' = demo_manager empty_state /\ files w' !! m_path m' = None).
Proof.
  split.
  - destruct (replace (demo_manager empty_state) demo_config {| files := ∅; faults := [] |}) as [[r m'] w'] eqn:E.
    pose proof (replace_atomic (ConfigCodecLaws0 := demo_config_codec_laws) (fun c => c = demo_config)
      (demo_manager empty_state) demo_config _ r m' w' eq_refl E) as Hr.
    destruct r as [snap|e].
    + exists snap, m', w'. split; [reflexivity|]. destruct Hr as (_ & Hc & _ & _ & Hl). split; [exact Hc|].
      assert (Hm : m_path m' = m_path (demo_manager empty_state) /\ m_options m' = demo_options).
      { revert E. unfold replace. destruct (_ ≫= _); [|discriminate]. destruct (write_config_file _ _ _) as [[]?];
          [|discriminate]. intros [= _ <- _]. split; reflexivity. }
      destruct Hm as [-> ->]. exact Hl.
    + apply (f_equal (fun x => ok x.1.1)) in E. vm_compute in E. discriminate.
  - destruct (replace (demo_manager empty_state) demo_config
       {| files := ∅; faults := [None; None; Some (mkFault "disk full" 0)] |}) as [[r m'] w'] eqn:E.
    pose proof (replace_atomic (ConfigCodecLaws0 := demo_config_codec_laws) (fun c => c = demo_config)
      (demo_manager empty_state) demo_config _ r m' w' eq_refl E) as Hr.
    destruct r as [snap|e].
    + apply (f_equal (fun x => ok x.1.1)) in E. vm_compute in E. discriminate.
    + destruct Hr as [Hm Hf]. exists e, m', w'. split; [reflexivity|]. split; [exact Hm|]. rewrite Hm, Hf. reflexivity.
Defined.

(** A Tinfoil upstream and a plain one at the same URL, with out-of-band
    verification configured for plain upstreams. *)
Definition shared_origin : list UpstreamConfig :=
  [demo_upstream "tee" Tinfoil {[ "m" := "x" ]}; demo_upstream "plain" OpenAiCompatible {[ "m" := "y" ]}].

Definition tee_request : UpstreamVerificationRequest :=
  {| vr_upstream_name := "tee"; vr_url_origin := Some "https://u"; vr_model_id := "x"; forwarded_body_hash := "h";
     vr_required := true |}.

Lemma last_origin_verifies_witness :
  validate_config shared_origin = Ok tt /\
  exists r, build_verifier shared_origin demo_options ∅ = Ok (Some (Routed r)) /\
    dispatch r tee_request = Some preverified.
Proof.
  split; [vm_compute; reflexivity|].
  destruct (route_verifiers (fun cfg => upstream_verifier cfg demo_options ∅) shared_origin Routing_new) as [r|] eqn:E;
    [|apply (f_equal ok) in E; vm_compute in E; discriminate].
  exists r. split.
  - unfold build_verifier, build_provider_verifier.
    change (enabled_configs shared_origin) with shared_origin. rewrite E. reflexivity.
  - apply (last_origin_verifies [demo_upstream "tee" Tinfoil {[ "m" := "x" ]}]
      (demo_upstream "plain" OpenAiCompatible {[ "m" := "y" ]}) [] demo_options ∅ preverified r tee_request E);
      [reflexivity|reflexivity|intros u' Hu'; apply elem_of_nil in Hu'; destruct Hu'].
Defined.
