(* ===== verification/RouterBackend.v ===== *)
(** * The router backend

    The part of [src/middleware/router.rs] around the selection of
    [Router.v]: which routes a request has and in which order they are tried,
    the text a request is matched by, the upstream status, and the parsing of an
    upstream's metrics. *)
From S2P Require Import Prelude Json Float Router UpstreamConfig.

(** ** Routes *)

Definition provider_format (p : UpstreamProvider) : ProviderFormat :=
  match p with Anthropic => FmtAnthropic | _ => FmtOpenai end.

Definition provider_name (p : UpstreamProvider) : string :=
  match p with
  | OpenAiCompatible => "openai-compatible"
  | Anthropic => "anthropic"
  | AciService => "aci-service"
  | Chutes => "chutes"
  | Tinfoil => "tinfoil"
  | NearAi => "near-ai"
  | PhalaDirect => "phala-direct"
  end.

Definition route_from_upstream (upstream : PublicUpstreamConfig) (public_model : string) (config : MiddlewareConfig) :
    RouterRoute :=
  let rid := route_id_of (pub_name upstream) public_model in
  {| route_id := rid; rt_upstream_name := pub_name upstream;
     candidate := {| rc_route_id := rid; format := provider_format (pub_provider upstream);
                     engine := default_engine config |} |}.

Definition serves_model (model : string) (u : PublicUpstreamConfig) : bool :=
  pub_enabled u && match pub_models u !! model with Some _ => true | None => false end.

Definition model_routes (config : MiddlewareConfig) (upstreams : list PublicUpstreamConfig) (model : string) :
    list RouterRoute :=
  map (fun u => route_from_upstream u model config) (List.filter (serves_model model) upstreams).

(** The public models of the enabled upstreams. *)
Definition offered (upstreams : list PublicUpstreamConfig) : gset string :=
  list_to_set (flat_map (fun u => if pub_enabled u then map fst (btree_iter (pub_models u)) else []) upstreams).

Inductive PublicModelError := NotExactlyOneModel.

Definition public_model (config : MiddlewareConfig) (upstreams : list PublicUpstreamConfig) :
    result PublicModelError (option string) :=
  match public_model_name config with
  | Some model => Ok (Some (str_trim model))
  | None =>
      match elements (offered upstreams) with
      | [] => Ok None
      | [model] => Ok (Some model)
      | _ => Err NotExactlyOneModel
      end
  end.

(** The constructor's check. *)
Definition RouterBackend_new (config : MiddlewareConfig) : result string RouterState :=
  if match public_model_name config with Some model => is_blank model | None => false end
  then Err "middleware.public_model must not be empty" else Ok RouterState_default.

Definition backend_status_code (config : MiddlewareConfig) (upstreams : list PublicUpstreamConfig) (s : RouterState)
    (now : Z) : Z :=
  match public_model config upstreams with
  | Ok (Some model) => upstream_status_code s now (model_routes config upstreams model) config Basic
  | _ => UPSTREAM_STATUS_RED
  end.

(** ** The text of a request *)

Section Text.
(** [Number]'s [Display] on a float. *)
Context (float_to_string : spec_float -> string).

Definition number_text (n : Number) : string :=
  match n with PosInt u => z_to_string u | NegInt i => z_to_string i | Float f => float_to_string f end.

(** [break] once full. *)
Section Items.
Context (append : Value -> BoundedText -> BoundedText).

Fixpoint append_items (first : bool) (items : list Value) (out : BoundedText) : BoundedText :=
  match items with
  | [] => out
  | item :: items =>
      let out := if first then out else separator " " out in
      let out := append item out in
      if is_full out then out else append_items false items out
  end.
End Items.

Fixpoint append_prompt_value (value : Value) (out : BoundedText) : BoundedText :=
  if is_full out then out
  else match value with
       | Str s => push s out
       | Num n => push (number_text n) out
       | Arr items => append_items append_prompt_value true items out
       | Obj obj =>
           (fix go (m : list (string * Value)) (fallback : BoundedText -> BoundedText) : BoundedText :=
              match m with
              | [] => fallback out
              | (k, v) :: m => if String.eqb "text" k then append_prompt_value v out else go m fallback
              end) obj
             (fun out => (fix go (m : list (string * Value)) : BoundedText :=
                match m with
                | [] => out
                | (k, v) :: m => if String.eqb "content" k then append_prompt_value v out else go m
                end) obj)
       | _ => out
       end.

Definition append_prompt (value : option Value) (out : BoundedText) : BoundedText :=
  match value with Some v => append_prompt_value v out | None => out end.

Fixpoint append_message_list (messages : list Value) (out : BoundedText) : BoundedText :=
  match messages with
  | [] => out
  | msg :: messages =>
      let out := separator (String "010" "") out in
      let role := match get msg "role" with Some r => default "" (as_str r) | None => "" end in
      let out := push ":" (push role out) in
      let out := append_prompt (get msg "content") out in
      if is_full out then out else append_message_list messages out
  end.

Definition append_messages (value : option Value) (out : BoundedText) : BoundedText :=
  match value with
  | Some (Arr messages) => append_message_list messages out
  | _ => out
  end.

Definition append_params (params : Value) (endpoint : Endpoint) (out : BoundedText) : BoundedText :=
  match endpoint with
  | Complete => append_prompt (get params "prompt") out
  | Embed => append_prompt (get params "input") out
  | Messages | ChatComplete => append_messages (get params "messages") out
  | CreateModelResponse => append_prompt (get params "input") out
  end.

Definition bounded_routing_text (params : Value) (endpoint : Endpoint) : string :=
  finish (append_params params endpoint (bounded_new MAX_ROUTING_HISTORY_CHARS)).

(** ** Ordering the routes of a request *)

Record RoutedInput := {
  params : Value;
  endpoint : Endpoint;
  user_tier : option string;
}.

Definition request_tier (config : MiddlewareConfig) (input : RoutedInput) : UserTier :=
  if trusted_user_tier_header config then UserTier_from_header (user_tier input) else Basic.

(** The comparison of the failover order: the selected route first, then by load
    and id. *)
Definition order_compare (selected : string) (load : RouterRoute -> Z) (a b : RouterRoute) : comparison :=
  if String.eqb (route_id a) selected then Lt
  else if String.eqb (route_id b) selected then Gt
  else then_with (Z.compare (load a) (load b)) (str_compare (route_id a) (route_id b)).

Definition ordered_routes (config : MiddlewareConfig) (upstreams : list PublicUpstreamConfig) (s : RouterState)
    (now now' : Z) (public_model : string) (input : RoutedInput) :
    list RouterRoute * option RouteSelection * RouterState :=
  let tier := request_tier config input in
  let requested_model := match get (params input) "model" with Some m => as_str m | None => None end in
  if negb (bool_decide (requested_model = Some public_model)) then ([], None, s)
  else
    let routes := model_routes config upstreams public_model in
    let routing_text := bounded_routing_text (params input) (endpoint input) in
    match select s now public_model routing_text routes config tier with
    | (None, s) => (routes, None, s)
    | (Some selected, s) =>
        let load route := effective_running (route_pressure s now' route config tier) in
        (sort_by (order_compare (sel_route_id selected) load) routes, Some selected, s)
    end.
End Text.

(** ** Metrics *)

(** [str::lines] *)
Fixpoint split_nl (s : string) : list string :=
  match s with
  | EmptyString => [""]
  | String c s' =>
      if Ascii.eqb c "010" then "" :: split_nl s'
      else match split_nl s' with [] => [String c ""] | l :: ls => String c l :: ls end
  end.

Fixpoint strip_cr (s : string) : string :=
  match s with
  | EmptyString => ""
  | String c EmptyString => if Ascii.eqb c "013" then "" else s
  | String c s' => String c (strip_cr s')
  end.

Definition lines (s : string) : list string :=
  let ls := split_nl s in
  map strip_cr (removelast ls) ++ match last ls with Some "" | None => [] | Some l => [l] end.

(** The text up to the last white space, and the rest. *)
Fixpoint rfind_space (before : list N) (l : list N) : option (list N * list N) :=
  match l with
  | [] => None
  | c :: l' =>
      match rfind_space (before ++ [c]) l' with
      | Some r => Some r
      | None => if char_is_whitespace c then Some (before, l) else None
      end
  end.

Definition parse_prometheus_sample (line : string) : option (string * spec_float) :=
  match rfind_space [] (chars line) with
  | None => None
  | Some (before, rest) =>
      match parse_f64 (str_trim (of_chars rest)) with
      | Some value => Some (str_trim (of_chars before), value)
      | None => None
      end
  end.

Fixpoint split_first (c : ascii) (s : string) : option (string * string) :=
  match s with
  | EmptyString => None
  | String a s' =>
      if Ascii.eqb a c then Some ("", s')
      else match split_first c s' with Some (l, r) => Some (String a l, r) | None => None end
  end.

Fixpoint split_on (c : ascii) (s : string) : list string :=
  match s with
  | EmptyString => [""]
  | String a s' =>
      if Ascii.eqb a c then "" :: split_on c s'
      else match split_on c s' with [] => [String a ""] | l :: ls => String a l :: ls end
  end.

Fixpoint drop_char (c : ascii) (l : list ascii) : list ascii :=
  match l with a :: l' => if Ascii.eqb a c then drop_char c l' else l | [] => [] end.

Definition trim_end_char (c : ascii) (s : string) : string :=
  String.string_of_list_ascii (rev (drop_char c (rev (String.list_ascii_of_string s)))).

Definition trim_char (c : ascii) (s : string) : string :=
  trim_end_char c (String.string_of_list_ascii (drop_char c (String.list_ascii_of_string s))).

Definition split_metric_name_labels (input : string) : string * gmap string string :=
  match split_first "{" input with
  | None => (input, ∅)
  | Some (name, rest) =>
      (name, fold_left (fun labels part =>
               match split_first "=" part with
               | Some (key, value) => <[str_trim key := trim_char "034" (str_trim value)]> labels
               | None => labels
               end) (split_on "," (trim_end_char "}" rest)) ∅)
  end.

Definition metrics_default : UpstreamMetrics :=
  {| ok := false; error := None; updated_at := None; observed_running := None; observed_waiting := None;
     global_limit := None; basic_limit := None; basic_inflight := None; premium_inflight := None |}.

Definition collected_error (now : Z) (message : string) : UpstreamMetrics :=
  {| ok := false; error := Some message; updated_at := Some now; observed_running := None; observed_waiting := None;
     global_limit := None; basic_limit := None; basic_inflight := None; premium_inflight := None |}.

Definition set_metric (name : string) (labels : gmap string string) (value : spec_float) (m : UpstreamMetrics) :
    UpstreamMetrics :=
  let upd orun owait glim blim binf pinf :=
    {| ok := ok m; error := error m; updated_at := updated_at m; observed_running := orun; observed_waiting := owait;
       global_limit := glim; basic_limit := blim; basic_inflight := binf; premium_inflight := pinf |} in
  let orun := observed_running m in let owait := observed_waiting m in let glim := global_limit m in
  let blim := basic_limit m in let binf := basic_inflight m in let pinf := premium_inflight m in
  if String.eqb name "pig_dynamic_observed_running" then upd (Some value) owait glim blim binf pinf
  else if String.eqb name "pig_dynamic_observed_waiting" then upd orun (Some value) glim blim binf pinf
  else if String.eqb name "pig_dynamic_global_limit" then upd orun owait (Some value) blim binf pinf
  else if String.eqb name "pig_tier_basic_limit" then upd orun owait glim (Some value) binf pinf
  else if String.eqb name "pig_tier_inflight" then
    match labels !! "tier" with
    | Some tier => if String.eqb tier "basic" then upd orun owait glim blim (Some value) pinf
                   else if String.eqb tier "premium" then upd orun owait glim blim binf (Some value) else m
    | None => m
    end
  else m.

Definition parse_line (m : UpstreamMetrics) (line : string) : UpstreamMetrics :=
  let line := str_trim line in
  if String.eqb line "" || String.prefix "#" line then m
  else match parse_prometheus_sample line with
       | None => m
       | Some (name_and_labels, value) =>
           let '(name, labels) := split_metric_name_labels name_and_labels in set_metric name labels value m
       end.

Definition parse_upstream_metrics (now : Z) (text : string) : UpstreamMetrics :=
  let metrics := fold_left parse_line (lines text)
    {| ok := true; error := None; updated_at := Some now; observed_running := None; observed_waiting := None;
       global_limit := None; basic_limit := None; basic_inflight := None; premium_inflight := None |} in
  match observed_running metrics, observed_waiting metrics, global_limit metrics, basic_limit metrics with
  | None, None, None, None => collected_error now "pig_metrics_missing"
  | _, _, _, _ => metrics
  end.

(** What the poller meets at one upstream. *)
Inductive Fetched :=
| FetchFailed (e : string)
| Answered (status : Z) (status_text : string) (body : result string string).

Definition fetch_upstream_metrics (now : Z) (f : Fetched) : UpstreamMetrics :=
  match f with
  | FetchFailed e => collected_error now ("fetch_error: " +:+ e)
  | Answered status status_text body =>
      if negb ((200 <=? status) && (status <? 300)) then collected_error now ("http_" +:+ status_text)
      else match body with
           | Ok body => parse_upstream_metrics now body
           | Err e => collected_error now ("read_error: " +:+ e)
           end
  end.

Definition update_upstream_metrics (s : RouterState) (name : string) (m : UpstreamMetrics) : RouterState :=
  {| stats := stats s; history := history s; upstream_metrics := <[name := m]> (upstream_metrics s) |}.

Definition retain_upstream_metrics (s : RouterState) (names : gset string) : RouterState :=
  {| stats := stats s; history := history s;
     upstream_metrics := filter (fun kv => kv.1 ∈ names) (upstream_metrics s) |}.

(** One round of the poller: what was fetched for each target, then only live upstreams are kept. *)
Definition poll_round (s : RouterState) (fetched : list (string * UpstreamMetrics)) : RouterState :=
  retain_upstream_metrics (fold_left (fun s '(name, m) => update_upstream_metrics s name m) fetched s)
    (list_to_set (map fst fetched)).

Example parse_metrics_example :
  let m := parse_upstream_metrics 0 ("# HELP" +:+ String "010" "pig_dynamic_observed_running 3" +:+ String "010"
             ("pig_tier_inflight{tier=" +:+ String "034" "basic" +:+ String "034" "} 2.5")) in
  ok m = true /\ observed_running m = Some (f64_of_Z 3) /\ basic_inflight m = Some (S754_finite false 5629499534213120 (-51)) /\
  error (parse_upstream_metrics 0 "other 1") = Some "pig_metrics_missing".
Proof. vm_compute. repeat split. Qed.

(** ** The text without its bound *)

Section FullText.
Context (float_to_string : spec_float -> string).

Definition full_separator (text acc : string) : string := if String.eqb acc "" then acc else acc +:+ text.

Section Items.
Context (append : Value -> string -> string).

Fixpoint full_items (first : bool) (items : list Value) (acc : string) : string :=
  match items with
  | [] => acc
  | item :: items => full_items false items (append item (if first then acc else full_separator " " acc))
  end.
End Items.

(** The routing text of a value appended to [acc]. *)
Fixpoint full_value (value : Value) (acc : string) : string :=
  match value with
  | Str s => acc +:+ s
  | Num n => acc +:+ number_text float_to_string n
  | Arr items => full_items full_value true items acc
  | Obj obj =>
      (fix go (m : list (string * Value)) (fallback : string) : string :=
         match m with
         | [] => fallback
         | (k, v) :: m => if String.eqb "text" k then full_value v acc else go m fallback
         end) obj
        ((fix go (m : list (string * Value)) : string :=
            match m with
            | [] => acc
            | (k, v) :: m => if String.eqb "content" k then full_value v acc else go m
            end) obj)
  | _ => acc
  end.

Definition full_prompt (value : option Value) (acc : string) : string :=
  match value with Some v => full_value v acc | None => acc end.

Definition full_message (msg : Value) (acc : string) : string :=
  let role := match get msg "role" with Some r => default "" (as_str r) | None => "" end in
  full_prompt (get msg "content") ((full_separator (String "010" "") acc +:+ role) +:+ ":").

Fixpoint full_messages (messages : list Value) (acc : string) : string :=
  match messages with
  | [] => acc
  | msg :: messages => full_messages messages (full_message msg acc)
  end.

Definition full_text (params : Value) (endpoint : Endpoint) : string :=
  match endpoint with
  | Complete => full_prompt (get params "prompt") ""
  | Embed | CreateModelResponse => full_prompt (get params "input") ""
  | Messages | ChatComplete =>
      match get params "messages" with Some (Arr messages) => full_messages messages "" | _ => "" end
  end.

(** ** Lemmas on the text *)

Hypothesis float_text_valid : forall f, valid_utf8 (float_to_string f).

Lemma append_prompt_value_Obj m out :
  append_prompt_value float_to_string (Obj m) out =
  if is_full out then out
  else match map_get "text" m with
       | Some v => append_prompt_value float_to_string v out
       | None => append_prompt float_to_string (map_get "content" m) out
       end.
Proof.
  cbn [append_prompt_value]. destruct (is_full out); [done|].
  set (fallback := fun out0 : BoundedText => _).
  assert (Hf : fallback out = append_prompt float_to_string (map_get "content" m) out).
  { unfold fallback. clear. induction m as [|[k v] m IH]; [done|]. cbn [map_get].
    destruct (String.eqb "content" k); [done|exact IH]. }
  revert Hf. generalize fallback as fb. clear fallback. intros fb. generalize (append_prompt float_to_string (map_get "content" m) out) as x.
  intros x Hf. induction m as [|[k v] m IH]; [done|]. cbn [map_get]. destruct (String.eqb "text" k); [done|exact IH].
Qed.

Lemma full_value_Obj m acc :
  full_value (Obj m) acc = match map_get "text" m with
                           | Some v => full_value v acc
                           | None => full_prompt (map_get "content" m) acc
                           end.
Proof.
  cbn [full_value]. set (fallback := (fix go (m : list (string * Value)) : string := _) m).
  assert (Hf : fallback = full_prompt (map_get "content" m) acc).
  { unfold fallback. clear. induction m as [|[k v] m IH]; [done|]. cbn [map_get].
    destruct (String.eqb "content" k); [done|exact IH]. }
  rewrite <- Hf. generalize fallback. clear. intros fb. induction m as [|[k v] m IH]; [done|]. cbn [map_get].
  destruct (String.eqb "text" k); [done|exact IH].
Qed.

Lemma number_text_valid n : valid_utf8 (number_text float_to_string n).
Proof. destruct n; cbn; [apply z_to_string_valid..|apply float_text_valid]. Qed.

Lemma full_separator_ext t acc : valid_utf8 t -> exists x, valid_utf8 x /\ full_separator t acc = acc +:+ x.
Proof.
  intros Ht. unfold full_separator. destruct (String.eqb acc ""); [exists ""|exists t; done].
  split; [by apply valid_utf8b_sound|]. by rewrite string_app_nil_r.
Qed.

(** Appending only extends the text. *)
Definition extends (f : string -> string) : Prop :=
  forall acc, exists x, valid_utf8 x /\ f acc = acc +:+ x.

Lemma extends_id : extends (fun acc => acc).
Proof. intros acc. exists "". split; [by apply valid_utf8b_sound|]. by rewrite string_app_nil_r. Qed.

Lemma extends_comp f g : extends f -> extends g -> extends (fun acc => g (f acc)).
Proof.
  intros Hf Hg acc. destruct (Hf acc) as (x & Hx & ->), (Hg (acc +:+ x)) as (y & Hy & ->).
  exists (x +:+ y). split; [by apply valid_utf8_app|]. by rewrite string_app_assoc.
Qed.

Lemma extends_items f (items : list Value) first :
  Forall (fun v => extends (f v)) items -> extends (full_items f first items).
Proof.
  intros HF. revert first. induction HF as [|v items Hv _ IH]; intros first; [apply extends_id|].
  intros acc. cbn [full_items].
  assert (Hsep : extends (fun acc => if first then acc else full_separator " " acc)).
  { destruct first; [apply extends_id|]. intros acc'. apply full_separator_ext. by apply valid_utf8b_sound. }
  apply (extends_comp _ _ (extends_comp _ _ Hsep Hv) (IH false)).
Qed.

Lemma map_get_forall {P : Value -> Prop} k m v :
  Forall (fun kv => P kv.2) m -> map_get k m = Some v -> P v.
Proof. intros HF Hv%map_get_Some. rewrite Forall_forall in HF. by apply (HF (k, v)). Qed.

Lemma extends_value v : wf_value v -> extends (full_value v).
Proof.
  induction v as [|b|n|s|l IH|m IH] using Value_ind; intros Hwf; try apply extends_id.
  - intros acc. exists (number_text float_to_string n). split; [apply number_text_valid|done].
  - intros acc. by exists s.
  - apply extends_items. apply wf_value_Arr in Hwf. rewrite Forall_forall in IH, Hwf |- *. auto.
  - intros acc. rewrite full_value_Obj. apply wf_value_Obj in Hwf as [_ Hwf].
    assert (Hall : Forall (fun kv => extends (full_value kv.2)) m).
    { apply Forall_forall. intros kv Hkv. rewrite Forall_forall in IH, Hwf. apply IH; [done|]. by apply Hwf. }
    pose proof (fun k v => map_get_forall (P := fun v => extends (full_value v)) k m v Hall) as Hget.
    destruct (map_get "text" m) as [v|] eqn:Et; [by apply (Hget "text" v)|].
    destruct (map_get "content" m) as [v|] eqn:Ec; cbn; [by apply (Hget "content" v)|apply extends_id].
Qed.

(** The bounded text holds the first characters of the full one. *)
Definition bounds (b : BoundedText) (acc : string) : Prop :=
  valid_utf8 acc /\ valid_utf8 (out b) /\
  chars (out b) = take MAX_ROUTING_HISTORY_CHARS (chars acc) /\
  remaining b = (MAX_ROUTING_HISTORY_CHARS - length (chars acc))%nat.

Lemma chars_app a b : valid_utf8 a -> valid_utf8 b -> chars (a +:+ b) = chars a ++ chars b.
Proof.
  intros Ha Hb. rewrite <- (of_chars_chars a Ha), <- (of_chars_chars b Hb) at 1. rewrite <- of_chars_app.
  apply chars_of_chars. apply Forall_app. split; by apply chars_scalar.
Qed.

Lemma bounds_full b acc x : is_full b = true -> bounds b acc -> valid_utf8 x -> bounds b (acc +:+ x).
Proof.
  unfold is_full. rewrite Nat.eqb_eq. intros Hf (Ha & Hb & Hc & Hr) Hx. split; [by apply valid_utf8_app|].
  split; [done|]. rewrite chars_app, length_app by done. split; [|lia].
  rewrite take_app_le by lia. done.
Qed.

Lemma bounds_push t b acc : valid_utf8 t -> bounds b acc -> bounds (push t b) (acc +:+ t).
Proof.
  intros Ht Hb. unfold push. destruct (Nat.eqb_spec (remaining b) 0) as [Hz|Hz]; cbn [orb].
  { apply bounds_full; [by apply Nat.eqb_eq|done..]. }
  destruct (String.eqb_spec t "") as [->|Hne]; [by rewrite string_app_nil_r|].
  destruct Hb as (Ha & Hv & Hc & Hr). split; [by apply valid_utf8_app|]. cbn [out remaining].
  assert (Hs : Forall is_scalar (take (remaining b) (chars t))) by (apply Forall_take; by apply chars_scalar).
  assert (Hvt : valid_utf8 (of_chars (take (remaining b) (chars t)))) by (by apply valid_utf8_of_chars).
  split; [by apply valid_utf8_app|]. rewrite !chars_app, (chars_of_chars _ Hs), length_take, length_app, Hc by done.
  split; [|lia]. rewrite (take_ge (chars acc)) by lia. rewrite take_app, (take_ge (chars acc)) by lia.
  f_equal. f_equal. lia.
Qed.

Lemma max_chars_pos : (0 < MAX_ROUTING_HISTORY_CHARS)%nat.
Proof. apply Nat.ltb_lt. reflexivity. Qed.

Lemma bounds_separator t b acc :
  valid_utf8 t -> bounds b acc -> bounds (separator t b) (full_separator t acc).
Proof.
  intros Ht Hb. unfold separator, full_separator. pose proof Hb as (Ha & Hv & Hc & Hr).
  destruct (String.eqb_spec (out b) "") as [Ho|Ho].
  - assert (Hacc : acc = ""); [|subst; done]. apply chars_nil; [done|].
    rewrite Ho in Hc. apply (f_equal length) in Hc. rewrite length_take in Hc. pose proof max_chars_pos.
    apply nil_length_inv. change (length (chars "")) with 0%nat in Hc. lia.
  - destruct (String.eqb_spec acc "") as [->|Hne]; [|by apply bounds_push].
    exfalso. apply Ho. apply chars_nil; [done|]. rewrite Hc. apply take_nil.
Qed.

(** ** The bounded text follows the full one *)

Definition follows (f : BoundedText -> BoundedText) (g : string -> string) : Prop :=
  extends g /\ forall b acc, bounds b acc -> bounds (f b) (g acc).

(** A full text keeps bounding whatever is appended. *)
Lemma follows_full g b acc : extends g -> is_full b = true -> bounds b acc -> bounds b (g acc).
Proof. intros Hg Hf Hb. destruct (Hg acc) as (x & Hx & ->). by apply bounds_full. Qed.

Lemma follows_items f g items first :
  Forall (fun v => follows (f v) (g v)) items -> follows (append_items f first items) (full_items g first items).
Proof.
  intros HF. split; [apply extends_items; by apply (Forall_impl _ _ _ HF); intros ? []|].
  revert first. induction HF as [|v items [_ Hv] HF IH]; intros first b acc Hb; [done|].
  cbn [append_items full_items]. set (b1 := f v (if first then b else separator " " b)).
  assert (Hb1 : bounds b1 (g v (if first then acc else full_separator " " acc))).
  { apply Hv. destruct first; [done|]. apply bounds_separator; [by apply valid_utf8b_sound|done]. }
  destruct (is_full b1) eqn:Ef; [|by apply IH].
  apply (follows_full (full_items g false items)); [|done..].
  apply extends_items. by apply (Forall_impl _ _ _ HF); intros ? [].
Qed.

Lemma follows_guard f g (b : BoundedText) acc :
  extends g -> (bounds b acc -> bounds (f b) (g acc)) -> bounds b acc ->
  bounds (if is_full b then b else f b) (g acc).
Proof. intros Hg Hf Hb. destruct (is_full b) eqn:E; [by apply follows_full|by apply Hf]. Qed.

Lemma follows_value v : wf_value v -> follows (append_prompt_value float_to_string v) (full_value v).
Proof.
  intros Hwf. split; [by apply extends_value|]. revert Hwf.
  induction v as [|b0|n|s|l IH|m IH] using Value_ind; intros Hwf b acc.
  1, 2: intros Hb; cbn; by destruct (is_full b).
  - apply (follows_guard (push (number_text float_to_string n)) (full_value (Num n))); [by apply extends_value|].
    apply bounds_push, number_text_valid.
  - apply (follows_guard (push s) (full_value (Str s))); [by apply extends_value|]. by apply bounds_push.
  - apply (follows_guard (append_items (append_prompt_value float_to_string) true l) (full_value (Arr l)));
      [by apply extends_value|]. apply wf_value_Arr in Hwf. apply follows_items.
    rewrite Forall_forall in IH, Hwf |- *. intros v Hv. split; [by apply extends_value, Hwf|]. by apply IH, Hwf.
  - rewrite append_prompt_value_Obj. intros Hb.
    destruct (is_full b) eqn:Ef; [apply follows_full; [by apply extends_value|done..]|].
    rewrite full_value_Obj. apply wf_value_Obj in Hwf as [_ Hwf].
    assert (Hall : Forall (fun kv => forall b acc, bounds b acc ->
              bounds (append_prompt_value float_to_string kv.2 b) (full_value kv.2 acc)) m).
    { rewrite Forall_forall in IH, Hwf |- *. intros kv Hkv. by apply IH, Hwf. }
    pose proof (fun k v => map_get_forall (P := fun v => forall b acc, bounds b acc ->
      bounds (append_prompt_value float_to_string v b) (full_value v acc)) k m v Hall) as Hget.
    destruct (map_get "text" m) as [v|] eqn:Et; [by apply (Hget "text" v)|].
    destruct (map_get "content" m) as [v|] eqn:Ec; cbn; [by apply (Hget "content" v)|done].
Qed.

Lemma follows_prompt v : match v with Some v => wf_value v | None => True end ->
  follows (append_prompt float_to_string v) (full_prompt v).
Proof. destruct v as [v|]; [apply follows_value|]. intros _. split; [apply extends_id|done]. Qed.

Lemma wf_value_get v k : wf_value v -> match get v k with Some w => wf_value w | None => True end.
Proof.
  destruct v as [| | | | |m]; intros Hwf; try exact I. apply wf_value_Obj in Hwf as [_ Hwf]. cbn.
  destruct (map_get k m) as [w|] eqn:E; [|done]. apply map_get_Some in E. rewrite Forall_forall in Hwf.
  by apply (Hwf (k, w)).
Qed.

Lemma role_valid msg : wf_value msg ->
  valid_utf8 (match get msg "role" with Some r => default "" (as_str r) | None => "" end).
Proof.
  intros Hwf. pose proof (wf_value_get msg "role" Hwf) as Hr. destruct (get msg "role") as [r|];
    [destruct r; cbn; try by apply valid_utf8b_sound|by apply valid_utf8b_sound]. exact Hr.
Qed.

Lemma extends_append t : valid_utf8 t -> extends (fun acc => acc +:+ t).
Proof. intros Ht acc. by exists t. Qed.

Lemma extends_message msg : wf_value msg -> extends (full_message msg).
Proof.
  intros Hwf acc. unfold full_message.
  apply (extends_comp _ _ (extends_comp _ _ (extends_comp _ _
    (fun acc => full_separator_ext (String "010" "") acc ltac:(by apply valid_utf8b_sound))
    (extends_append _ (role_valid msg Hwf))) (extends_append ":" ltac:(by apply valid_utf8b_sound)))
    (proj1 (follows_prompt _ (wf_value_get msg "content" Hwf)))).
Qed.

Lemma extends_messages messages : Forall wf_value messages -> extends (full_messages messages).
Proof.
  induction 1 as [|msg messages Hm _ IH]; [apply extends_id|]. intros acc. cbn [full_messages].
  apply (extends_comp _ _ (extends_message msg Hm) IH).
Qed.

Lemma follows_messages messages :
  Forall wf_value messages -> follows (append_message_list float_to_string messages) (full_messages messages).
Proof.
  intros HF. split; [by apply extends_messages|]. induction HF as [|msg messages Hm HF IH]; intros b acc Hb; [done|].
  cbn [append_message_list full_messages].
  set (b1 := append_prompt float_to_string _ _).
  assert (Hb1 : bounds b1 (full_message msg acc)).
  { apply follows_prompt; [by apply wf_value_get|]. apply bounds_push; [by apply valid_utf8b_sound|].
    apply bounds_push; [by apply role_valid|]. apply bounds_separator; [by apply valid_utf8b_sound|done]. }
  destruct (is_full b1) eqn:Ef; [|by apply IH].
  apply (follows_full (full_messages messages)); [by apply extends_messages|done..].
Qed.

Lemma bounds_new : bounds (bounded_new MAX_ROUTING_HISTORY_CHARS) "".
Proof.
  split; [by apply valid_utf8b_sound|]. split; [by apply valid_utf8b_sound|]. split; [symmetry; apply take_nil|].
  change (length (chars "")) with 0%nat. cbn [remaining bounded_new]. lia.
Qed.

Lemma follows_params params endpoint : wf_value params ->
  bounds (append_params float_to_string params endpoint (bounded_new MAX_ROUTING_HISTORY_CHARS))
    (full_text params endpoint).
Proof.
  intros Hwf. pose proof bounds_new as H0.
  destruct endpoint; cbn [append_params full_text]; unfold append_messages;
    try (apply follows_prompt; [by apply wf_value_get|done]).
  all: pose proof (wf_value_get params "messages" Hwf) as Hm.
  all: destruct (get params "messages") as [[| | | |messages|]|]; try done.
  all: apply follows_messages; [by apply wf_value_Arr|done].
Qed.

(** The routing text of a request is exactly the first
    [MAX_ROUTING_HISTORY_CHARS] characters of the text of its whole prompt: the
    early exits of the bounded builder lose nothing else and cut no character in
    two. *)
Theorem routing_text_is_prefix params endpoint : wf_value params ->
  bounded_routing_text float_to_string params endpoint =
  limit_chars (full_text params endpoint) MAX_ROUTING_HISTORY_CHARS.
Proof.
  intros Hwf. destruct (follows_params params endpoint Hwf) as (Ha & Hv & Hc & _).
  destruct (bounds_push _ _ _ Ha bounds_new) as (_ & Hv' & Hc' & _).
  apply chars_inj; [done..|]. etransitivity; [exact Hc|]. symmetry. exact Hc'.
Qed.
End FullText.

(** ** The failover order *)

Section Order.
Context (selected : string) (load : RouterRoute -> Z).

Definition by_load : RouterRoute -> RouterRoute -> comparison :=
  cmp_on (fun r => (load r, route_id r)) (pair_compare Z.compare str_compare).

Lemma insert_by_ext {A} (c c' : A -> A -> comparison) x l :
  (forall y, y ∈ l -> c x y = c' x y) -> insert_by c x l = insert_by c' x l.
Proof.
  induction l as [|y l IH]; intros Hc; [done|]. cbn. rewrite (Hc y) by left. rewrite IH; [done|].
  intros z Hz. apply Hc. by right.
Qed.

Lemma sort_by_load l : Forall (fun r => route_id r <> selected) l ->
  sort_by (order_compare selected load) l = sort_by by_load l.
Proof.
  induction 1 as [|r l Hr HF IH]; [done|]. cbn. rewrite IH. apply insert_by_ext. intros y Hy.
  rewrite sort_by_perm in Hy. rewrite Forall_forall in HF. unfold order_compare.
  by rewrite !(proj2 (String.eqb_neq _ _)) by auto.
Qed.

(** The selected route comes first, the others are sorted by load. *)
Lemma sort_selected l : NoDup (map route_id l) -> selected ∈ map route_id l ->
  exists r l', l ≡ₚ r :: l' /\ route_id r = selected /\
    sort_by (order_compare selected load) l = r :: sort_by by_load l'.
Proof.
  induction l as [|x l IH]; cbn [map]; [by intros _ ?%elem_of_nil|]. intros [Hnin Hnd]%NoDup_cons Hin.
  destruct (decide (route_id x = selected)) as [Hx|Hx].
  - exists x, l. split; [done|]. split; [done|]. cbn. rewrite sort_by_load.
    + destruct (sort_by by_load l) as [|y s]; [done|]. cbn. unfold order_compare.
      by rewrite (proj2 (String.eqb_eq _ _) Hx).
    + apply Forall_forall. intros r Hr Hs. apply Hnin. rewrite Hx, <- Hs. by apply list_elem_of_fmap_2.
  - apply elem_of_cons in Hin as [Hin|Hin]; [done|]. destruct (IH Hnd Hin) as (r & l' & Hp & Hr & Hs).
    exists r, (x :: l'). split; [by rewrite Hp, Permutation_swap|]. split; [done|]. cbn. rewrite Hs. cbn.
    unfold order_compare at 1. rewrite (proj2 (String.eqb_neq _ _) Hx), (proj2 (String.eqb_eq _ _) Hr). f_equal.
    assert (HF : Forall (fun r => route_id r <> selected) (x :: l')).
    { apply (NoDup_Permutation_proper _ _ (Permutation_map route_id Hp)) in Hnd.
      apply NoDup_cons in Hnd as [Hnr _]. constructor; [done|].
      apply Forall_forall. intros y Hy Hs'. apply Hnr. rewrite Hr, <- Hs'. by apply list_elem_of_fmap_2. }
    pose proof (sort_by_load (x :: l') HF) as E. cbn [sort_by] in E.
    rewrite (sort_by_load l') in E by (by inversion HF). exact E.
Qed.
End Order.

Lemma route_id_of_inj m a b : route_id_of a m = route_id_of b m -> a = b.
Proof.
  unfold route_id_of. generalize (":" +:+ m). clear m. intros m. revert b.
  induction a as [|c a IH]; intros [|c' b] E; [done| | |].
  1, 2: apply (f_equal String.length) in E; cbn in E; rewrite string_app_length in E; lia.
  cbn in E. injection E as -> E. f_equal. by apply IH.
Qed.

Lemma model_routes_NoDup config upstreams model :
  NoDup (map pub_name upstreams) -> NoDup (map route_id (model_routes config upstreams model)).
Proof.
  intros Hnd. unfold model_routes. rewrite map_map.
  induction upstreams as [|u us IH]; cbn in *; [constructor|]. apply NoDup_cons in Hnd as [Hu Hnd].
  destruct (serves_model model u); cbn; [|by apply IH]. constructor; [|by apply IH].
  intros (u' & Heq & Hin)%list_elem_of_fmap. apply Hu. cbn in Heq. apply route_id_of_inj in Heq as ->.
  apply list_elem_of_In, filter_In in Hin as [Hin _]. apply list_elem_of_fmap_2. by apply list_elem_of_In.
Qed.

(** For the public model, failover tries every route that serves it once: the
    list is a permutation of the model's routes, led by the selected route
    (never a blocked upstream while another is free), the rest by increasing
    load and then id. Upstream names are unique, as configuration validation
    enforces. *)
Theorem failover_order float_to_string config upstreams s now now' model input :
  NoDup (map pub_name upstreams) ->
  get (params input) "model" = Some (Str model) ->
  model_routes config upstreams model <> [] ->
  let tier := request_tier config input in
  exists r rest sel s',
    ordered_routes float_to_string config upstreams s now now' model input = (r :: rest, Some sel, s') /\
    sel_route_id sel = route_id r /\
    r :: rest ≡ₚ model_routes config upstreams model /\
    StronglySorted (cmp_le (by_load (fun x => effective_running (route_pressure s' now' x config tier)))) rest /\
    (blocked (route_pressure s now r config tier) = true ->
     Forall (fun x => blocked (route_pressure s now x config tier) = true) (model_routes config upstreams model)).
Proof.
  intros Hnd Hmodel Hne tier. unfold ordered_routes. rewrite Hmodel. cbn [as_str].
  rewrite bool_decide_eq_true_2 by done. cbn [negb]. fold tier.
  destruct (select_picks s now model (bounded_routing_text float_to_string (params input) (endpoint input))
    _ config tier Hne) as (sel & s' & r0 & -> & Hin & Hid & Hblk).
  pose proof (model_routes_NoDup config _ model Hnd) as Hids.
  set (routes := model_routes config upstreams model) in *.
  set (load := fun x => effective_running (route_pressure s' now' x config tier)).
  destruct (sort_selected (sel_route_id sel) load routes Hids) as (r & l' & Hp & Hr & Hs).
  { rewrite Hid. by apply list_elem_of_fmap_2. }
  assert (Hrin : r ∈ routes) by (rewrite Hp; left).
  assert (r = r0) as <- by (apply (NoDup_map_inj route_id routes); [done..|congruence]).
  exists r, (sort_by (by_load load) l'), sel, s'. rewrite Hs. split; [done|]. split; [done|].
  split; [by rewrite sort_by_perm|]. split; [apply sort_by_sorted; apply _|done].
Qed.

(** ** Witnesses *)

Definition demo_params : Value :=
  Obj [("model", Str "m"); ("prompt", Arr [Str "a"; Obj [("text", Str "b")]; Num (PosInt 7)])].

Lemma routing_text_is_prefix_witness :
  bounded_routing_text (fun _ => "0.5") demo_params Complete = "a b 7".
Proof.
  rewrite (routing_text_is_prefix (fun _ => "0.5")).
  - vm_compute. reflexivity.
  - intros _. by apply valid_utf8b_sound.
  - apply wf_valueb_sound. vm_compute. reflexivity.
Defined.

Definition demo_input : RoutedInput := {| params := demo_params; endpoint := Complete; user_tier := None |}.

Lemma failover_order_witness :
  exists r rest sel s',
    ordered_routes (fun _ => "0.5") MiddlewareConfig_default (map redacted demo_config) demo_state 5 6 "m" demo_input =
      (r :: rest, Some sel, s') /\ length rest = 1%nat.
Proof.
  destruct (failover_order (fun _ => "0.5") MiddlewareConfig_default (map redacted demo_config) demo_state 5 6 "m"
    demo_input) as (r & rest & sel & s' & E & _ & Hp & _).
  - apply (bool_decide_unpack _). vm_compute. exact I.
  - reflexivity.
  - vm_compute. discriminate.
  - exists r, rest, sel, s'. split; [exact E|]. apply Permutation_length in Hp. vm_compute in Hp. by injection Hp.
Defined.

Example failover_demo :
  map route_id (ordered_routes (fun _ => "0.5") MiddlewareConfig_default (map redacted demo_config) demo_state 5 6 "m"
    demo_input).1.1 = ["a:m"; "b:m"].
Proof. vm_compute. reflexivity. Qed.
