(* ===== verification/Errors.v ===== *)
(** * Client-facing errors

    Model of [src/middleware/errors.rs]: the error envelopes of the two API
    surfaces, the mapping of upstream statuses and the rule that decides which
    part of an upstream error a client may see. *)
From S2P Require Import Prelude StrOps Json Serde.

Inductive Surface := Openai | Anthropic.

#[export] Instance Surface_eq_dec : EqDecision Surface.
Proof. solve_decision. Defined.

Definition error_type (surface : Surface) (status : Z) : string :=
  match surface with
  | Anthropic =>
      if status =? 400 then "invalid_request_error"
      else if status =? 401 then "authentication_error"
      else if status =? 402 then "billing_error"
      else if status =? 403 then "permission_error"
      else if status =? 404 then "not_found_error"
      else if status =? 429 then "rate_limit_error"
      else if status =? 504 then "timeout_error"
      else if 500 <=? status then "api_error"
      else "invalid_request_error"
  | Openai =>
      if status =? 401 then "authentication_error"
      else if status =? 402 then "insufficient_quota"
      else if status =? 403 then "permission_error"
      else if status =? 404 then "not_found_error"
      else if status =? 429 then "rate_limit_error"
      else if status =? 503 then "service_unavailable"
      else if status =? 504 then "timeout_error"
      else if 500 <=? status then "upstream_error"
      else "invalid_request_error"
  end.

Definition map_upstream_status (status : Z) : Z :=
  if (status =? 400) || (status =? 404) || (status =? 422) then status
  else if status =? 429 then 429
  else if status =? 503 then 503
  else if status =? 504 then 504
  else 502.

Definition is_actionable_client_error (status : Z) : bool :=
  ((400 <=? status) && (status <? 500)) && negb ((401 <=? status) && (status <=? 403) || (status =? 429)).

Definition upstream_message (upstream_status : Z) : string :=
  if (401 <=? upstream_status) && (upstream_status <=? 403) then "The upstream provider is currently unavailable"
  else if upstream_status =? 429 then "Rate limit exceeded. Please retry after some time."
  else if upstream_status =? 503 then "The model is currently unavailable. Please try again later."
  else if upstream_status =? 504 then "The upstream provider timed out"
  else "The upstream provider returned an error".

(** [value[key] = entry] on a value that is an object. *)
Definition value_set (key : string) (entry : Value) (value : Value) : Value :=
  match value with Obj m => Obj (map_insert key entry m) | v => v end.

Definition envelope (surface : Surface) (error_type message : string) (request_id : option string) : Value :=
  match surface with
  | Anthropic =>
      let value := {{ "type" ≔ Str "error";
                      "error" ≔ {{ "type" ≔ Str error_type; "message" ≔ Str message }} }} in
      match request_id with
      | Some request_id => value_set "request_id" (Str request_id) value
      | None => value
      end
  | Openai => {{ "error" ≔ {{ "message" ≔ Str message; "type" ≔ Str error_type }} }}
  end.

Definition rate_limit_envelope (surface : Surface) (message : string) (request_id : option string) : Value :=
  let body := envelope surface "rate_limit_error" message request_id in
  match surface with
  | Openai =>
      match get body "error" with
      | Some error => value_set "error" (value_set "code" (Str "rate_limit_exceeded") error) body
      | None => body
      end
  | Anthropic => body
  end.

(** The clock reading [now] is [SystemTime::now] in seconds, 0 before the epoch. *)
Definition rate_limit_headers (now limit reset_at : Z) : list (string * string) :=
  let retry_after := Z.max (i64_sub reset_at now) 1 in
  [("X-RateLimit-Limit", z_to_string limit);
   ("X-RateLimit-Remaining", "0");
   ("X-RateLimit-Reset", z_to_string reset_at);
   ("Retry-After", z_to_string retry_after)].

(** What [axum] is given to send. *)
Record Response := {
  r_status : Z;
  r_headers : list (string * string);
  r_body : string;
}.

Definition BAD_GATEWAY : Z := 502.

(** [StatusCode::from_u16]: three digits. *)
Definition status_or_bad_gateway (status : Z) : Z :=
  if (100 <=? status) && (status <? 1000) then status else BAD_GATEWAY.

Definition MESSAGES_PATH : string := "/v1/messages".

Definition surface_for_path (endpoint_path : string) : Surface :=
  if String.eqb endpoint_path MESSAGES_PATH then Anthropic else Openai.

Section Errors.
Context `{SerdeJson}.

(** [serde_json::to_vec(..).unwrap_or_default()] *)
Definition to_vec_or_default (v : Value) : string :=
  match to_vec v with Ok t => t | Err _ => "" end.

Definition envelope_bytes (surface : Surface) (error_type message : string) (request_id : option string) : string :=
  to_vec_or_default (envelope surface error_type message request_id).

Definition rate_limit_envelope_bytes (surface : Surface) (message : string) (request_id : option string) : string :=
  to_vec_or_default (rate_limit_envelope surface message request_id).

(** The extra headers of this module are valid header names and values; names
    are stored in lower case. *)
Definition json_response (body : Value) (status : Z) (extra_headers : list (string * string)) : Response := {|
  r_status := status_or_bad_gateway status;
  r_headers := ("content-type", "application/json")
                 :: map (fun h => (to_ascii_lowercase h.1, h.2)) extra_headers;
  r_body := to_vec_or_default body |}.

Definition error_response (surface : Surface) (status : Z) (error_type message : string)
    (request_id : option string) : Response :=
  json_response (envelope surface error_type message request_id) status [].

Definition rate_limit_response (now : Z) (surface : Surface) (message : string) (limit reset_at : Z)
    (request_id : option string) : Response :=
  json_response (rate_limit_envelope surface message request_id) 429 (rate_limit_headers now limit reset_at).

Definition extract_error_message (body : string) : option string :=
  match from_slice body with
  | Err _ => None
  | Ok value =>
      match get value "error" with
      | Some (Str message) => Some message
      | Some error => get error "message" ≫= as_str
      | None => None
      end
  end.

Definition url_host (url : string) : option string :=
  rest ← match strip_prefix "https://" url with
         | Some r => Some r
         | None => strip_prefix "http://" url
         end;
  let host := take_while (fun c => negb (Ascii.eqb c "/" || Ascii.eqb c ":" || Ascii.eqb c "?" || Ascii.eqb c "#")) rest in
  if String.eqb host "" then None else Some host.

(** A character of several bytes splits at each of them, which only adds empty
    tokens; a host is never empty. *)
Definition host_char (c : ascii) : bool := is_ascii_alphanumeric c || Ascii.eqb c "." || Ascii.eqb c "-".

Definition message_references_host (message host : string) : bool :=
  contains "." host && existsb (String.eqb host) (split_by (fun c => negb (host_char c)) message).

Definition is_str (v : option Value) (s : string) : bool :=
  match v with Some (Str t) => String.eqb t s | _ => false end.

Definition image_part_url (part : Value) : option string :=
  let ty := get part "type" in
  if is_str ty "image_url" || is_str ty "input_image" then
    image_url ← get part "image_url";
    match as_str image_url with
    | Some u => Some u
    | None => get image_url "url" ≫= as_str
    end
  else if is_str ty "image" then
    source ← get part "source";
    if is_str (get source "type") "url" then get source "url" ≫= as_str else None
  else None.

Definition is_remote (url : string) : bool := starts_with "https://" url || starts_with "http://" url.

Definition item_image_urls (item : Value) : list string :=
  let nested := match get item "content" with Some (Arr l) => l | _ => [] end in
  filter (fun u => is_remote u = true) (omap image_part_url (item :: nested)).

Definition remote_image_urls (request_body : string) : list string :=
  if negb (valid_utf8b request_body) then []
  else if negb (contains "image" request_body) then []
  else match from_slice request_body with
       | Err _ => []
       | Ok value =>
           mbind (fun key => match get value key with
                             | Some (Arr items) => mbind item_image_urls items
                             | _ => []
                             end) ["messages"; "input"]
       end.

Definition image_error_message (matched : string) : string :=
  "Failed to fetch the image at the provided URL: " +:+ matched
    +:+ ". Ensure the URL is correct and publicly accessible.".

(** The upstream's message names the URL, or its host as a whole token. *)
Definition message_names_url (message url : string) : bool :=
  contains url message
  || match url_host url with Some host => message_references_host message host | None => false end.

Definition classify_image_input_error (received_body : string) (upstream_status : Z) (upstream_body : string) :
    option string :=
  if (200 <=? upstream_status) && (upstream_status <? 300) then None
  else
    message ← extract_error_message upstream_body;
    matched ← List.find (message_names_url message) (remote_image_urls received_body);
    Some (image_error_message matched).

Definition image_input_error_parts (surface : Surface) (received_body : string) (upstream_status : Z)
    (upstream_body : string) (request_id : option string) : option (Z * string) :=
  message ← classify_image_input_error received_body upstream_status upstream_body;
  Some (400, envelope_bytes surface (error_type surface 400) message request_id).

Definition normalize_upstream_error_parts (surface : Surface) (upstream_status : Z) (body received_body : string)
    (request_id : option string) : Z * string :=
  match image_input_error_parts surface received_body upstream_status body request_id with
  | Some parts => parts
  | None =>
      let generic :=
        let status := map_upstream_status upstream_status in
        (status, envelope_bytes surface (error_type surface status) (upstream_message upstream_status) request_id) in
      if is_actionable_client_error upstream_status then
        match extract_error_message body with
        | Some message =>
            (upstream_status,
             envelope_bytes surface (error_type surface upstream_status) message request_id)
        | None => generic
        end
      else generic
  end.

Definition parts_response (status : Z) (body : string) : Response := {|
  r_status := status_or_bad_gateway status;
  r_headers := [("content-type", "application/json")];
  r_body := body |}.

Definition normalize_upstream_error (surface : Surface) (upstream_status : Z) (body received_body : string)
    (request_id : option string) : Response :=
  let '(status, bytes) := normalize_upstream_error_parts surface upstream_status body received_body request_id in
  parts_response status bytes.
End Errors.

(** ** What a client can learn from an upstream error *)

(** A string that occurs in a JSON value as a value. *)
Inductive occurs (s : string) : Value -> Prop :=
| occurs_str : occurs s (Str s)
| occurs_arr l v : v ∈ l -> occurs s v -> occurs s (Arr l)
| occurs_obj m k v : (k, v) ∈ m -> occurs s v -> occurs s (Obj m).
#[export] Hint Constructors occurs : core.

Lemma get_occurs v k x s : get v k = Some x -> occurs s x -> occurs s v.
Proof. destruct v; cbn; try done. intros ?%map_get_Some ?. eauto. Qed.

Lemma get_str_occurs v k s : get v k ≫= as_str = Some s -> occurs s v.
Proof.
  intros (x & Hx & Hs)%bind_Some. eapply get_occurs; [done|]. destruct x; try done. by simplify_eq/=.
Qed.

Lemma image_part_url_occurs part u : image_part_url part = Some u -> occurs u part.
Proof.
  unfold image_part_url. case_match.
  - intros (x & Hx & Hu)%bind_Some. eapply get_occurs; [done|].
    destruct x; cbn in Hu; try done; [by simplify_eq|]. by apply (get_str_occurs _ "url").
  - case_match; [|done]. intros (x & Hx & Hu)%bind_Some. eapply get_occurs; [done|].
    case_match; [|done]. by apply (get_str_occurs _ "url").
Qed.

Lemma item_image_urls_spec item u : u ∈ item_image_urls item -> is_remote u = true /\ occurs u item.
Proof.
  unfold item_image_urls. intros [Hr (part & Hp & Hu)%list_elem_of_omap]%list_elem_of_filter.
  split; [done|]. apply image_part_url_occurs in Hu.
  apply elem_of_cons in Hp as [->|Hp]; [done|].
  destruct (get item "content") as [[| | | |l|]|] eqn:E; cbn in Hp; try by apply elem_of_nil in Hp.
  eapply get_occurs; eauto.
Qed.

(** The URLs considered are remote ones the client put into its own request. *)
Lemma remote_image_urls_spec `{SerdeJson} body u :
  u ∈ remote_image_urls body -> is_remote u = true /\ exists v, from_slice body = Ok v /\ occurs u v.
Proof.
  unfold remote_image_urls. do 2 (case_match; [by intros ?%elem_of_nil|]).
  destruct (from_slice body) as [v|] eqn:E; [|by intros ?%elem_of_nil].
  intros (key & Hu & _)%list_elem_of_bind.
  destruct (get v key) as [[| | | |items|]|] eqn:Ek; try by apply elem_of_nil in Hu.
  apply list_elem_of_bind in Hu as (item & Hu & Hi). apply item_image_urls_spec in Hu as [Hr Ho].
  split; [done|]. exists v. split; [done|]. eapply get_occurs; eauto.
Qed.

Definition generic_error `{SerdeJson} (surface : Surface) (upstream_status : Z) (request_id : option string) : string :=
  envelope_bytes surface (error_type surface (map_upstream_status upstream_status))
    (upstream_message upstream_status) request_id.

Definition image_error `{SerdeJson} (surface : Surface) (request_id : option string) (url : string) : string :=
  envelope_bytes surface (error_type surface 400) (image_error_message url) request_id.

Lemma map_upstream_status_range status : 400 <= map_upstream_status status <= 504.
Proof. unfold map_upstream_status. repeat case_match; lia. Qed.

Lemma is_actionable_spec status :
  is_actionable_client_error status = true <-> 400 <= status < 500 /\ status ∉ [401; 402; 403; 429].
Proof. unfold is_actionable_client_error. rewrite !not_elem_of_cons, elem_of_nil. lia. Qed.

Lemma status_or_bad_gateway_small s : 400 <= s <= 504 -> status_or_bad_gateway s = s.
Proof. unfold status_or_bad_gateway. intros. case_match; lia. Qed.

Lemma classify_image_input_error_spec `{SerdeJson} received status body m :
  classify_image_input_error received status body = Some m ->
  ~ 200 <= status < 300 /\
  exists u, m = image_error_message u /\ u ∈ remote_image_urls received.
Proof.
  unfold classify_image_input_error. case_match eqn:E; [done|].
  intros (msg & _ & (u & Hf & [= <-])%bind_Some)%bind_Some.
  apply find_some in Hf as [Hin%list_elem_of_In _]. split; [lia|eauto].
Qed.

(** What a client may be told of an upstream's error answer: the generic message of
    the status; a message that names a remote image URL the client itself put into
    its request; or, for the 4xx statuses that describe the client's own request
    only, the upstream's error message re-wrapped. *)
Definition confined_error `{SerdeJson} (surface : Surface) (request_id : option string) (received : string)
    (upstream_status : Z) (upstream_body : string) (status : Z) (body : string) : Prop :=
  (status = map_upstream_status upstream_status /\ body = generic_error surface upstream_status request_id)
  \/ (exists url v, from_slice received = Ok v /\ occurs url v /\ is_remote url = true
        /\ status = 400 /\ body = image_error surface request_id url)
  \/ ((400 <= upstream_status < 500) /\ (upstream_status ∉ [401; 402; 403; 429])
      /\ exists m, extract_error_message upstream_body = Some m
          /\ status = upstream_status /\ body = envelope_bytes surface (error_type surface upstream_status) m request_id).

Lemma confined_range `{SerdeJson} surface rid received ustatus ubody status body :
  confined_error surface rid received ustatus ubody status body -> 400 <= status <= 504.
Proof.
  pose proof (map_upstream_status_range ustatus).
  intros [[-> _]|[(_ & _ & _ & _ & _ & -> & _)|(? & _ & _ & _ & -> & _)]]; lia.
Qed.

Lemma normalized_confined `{SerdeJson} surface status body received request_id :
  let '(s, b) := normalize_upstream_error_parts surface status body received request_id in
  confined_error surface request_id received status body s b.
Proof.
  unfold normalize_upstream_error_parts, image_input_error_parts.
  destruct (classify_image_input_error received status body) as [m|] eqn:Ec; cbn.
  { apply classify_image_input_error_spec in Ec as (_ & u & -> & Hu).
    apply remote_image_urls_spec in Hu as (Hr & v & Hv & Ho). right; left. by exists u, v. }
  destruct (is_actionable_client_error status) eqn:Ea; [|by left].
  destruct (extract_error_message body) as [m|] eqn:Em; [|by left].
  apply is_actionable_spec in Ea as [Hr Hn]. right; right. eauto 7.
Qed.

(** ** The rate limit headers *)

(** The client is always told to wait, and after that wait (with a clock and a
    reset time in range) the window has reset. *)
Lemma retry_after_sound now limit reset_at :
  0 <= now <= i64_max -> 0 <= reset_at <= i64_max ->
  exists wait, (("Retry-After", z_to_string wait) ∈ rate_limit_headers now limit reset_at)
    /\ 1 <= wait /\ reset_at <= now + wait.
Proof.
  intros Hn Hr. exists (Z.max (i64_sub reset_at now) 1). split; [unfold rate_limit_headers; set_solver|].
  unfold i64_sub. rewrite i64_wrap_small by (unfold i64_min, i64_max in *; lia). lia.
Qed.
