(* ===== verification/Verifiers.v ===== *)
(** * The verifier interface

    Model of the trait [UpstreamVerifier] (its methods with the default bodies),
    of [src/aci/verifier/simple.rs], of the dispatch of the routing verifier in
    [providers.rs] and of the verifier of [upstream_config/dynamic.rs].  A
    verifier works on state [St] it shares with others: caches, pools and what it
    meets outside. *)
From S2P Require Import Prelude Json Receipt AciVerifier ExternalVerifier.

Class UpstreamVerifier (V St : Type) : Type := {
  ver_verify : V -> UpstreamVerificationRequest -> St -> UpstreamVerifiedEvent * St;
  ver_refresh : V -> UpstreamVerificationRequest -> St -> UpstreamVerifiedEvent * St;
  ver_invalidate : V -> UpstreamVerificationRequest -> St -> St;
}.

(** The default [refresh]: invalidate, then verify. *)
Definition default_refresh {V St} (invalidate : V -> UpstreamVerificationRequest -> St -> St)
    (verify : V -> UpstreamVerificationRequest -> St -> UpstreamVerifiedEvent * St)
    (v : V) (request : UpstreamVerificationRequest) (st : St) : UpstreamVerifiedEvent * St :=
  verify v request (invalidate v request st).

(** ** Static and preverified verifiers *)

Record StaticUpstreamVerifier := { static_event : UpstreamVerifiedEvent }.

Definition static_verified (vid : string) : StaticUpstreamVerifier := {| static_event :=
  {| upstream_name := ""; provider_type := None; model_id := ""; url_origin := None; verifier_id := vid;
     uv_result := Verified; required := true; reason := None; evidence := None; channel_bindings := [];
     provider_claims := None |} |}.

Definition static_failed (vid why : string) : StaticUpstreamVerifier := {| static_event :=
  {| upstream_name := ""; provider_type := None; model_id := ""; url_origin := None; verifier_id := vid;
     uv_result := Failed; required := true; reason := Some why; evidence := None; channel_bindings := [];
     provider_claims := None |} |}.

Definition static_verify (v : StaticUpstreamVerifier) (request : UpstreamVerificationRequest) : UpstreamVerifiedEvent :=
  let e := static_event v in
  {| upstream_name := if String.eqb (upstream_name e) "" then vr_upstream_name request else upstream_name e;
     provider_type := provider_type e;
     model_id := if String.eqb (model_id e) "" then vr_model_id request else model_id e;
     url_origin := match url_origin e with Some o => Some o | None => vr_url_origin request end;
     verifier_id := verifier_id e; uv_result := uv_result e; required := required e; reason := reason e;
     evidence := evidence e; channel_bindings := channel_bindings e; provider_claims := provider_claims e |}.

Record PreverifiedUpstreamVerifier := { preverified_id : string }.

Definition preverified_verify (v : PreverifiedUpstreamVerifier) (request : UpstreamVerificationRequest) :
    UpstreamVerifiedEvent :=
  {| upstream_name := vr_upstream_name request; provider_type := None; model_id := vr_model_id request;
     url_origin := vr_url_origin request; verifier_id := preverified_id v; uv_result := Verified;
     required := vr_required request; reason := None; evidence := None; channel_bindings := [];
     provider_claims := None |}.

#[export] Instance static_verifier {St} : UpstreamVerifier StaticUpstreamVerifier St := {|
  ver_verify v r st := (static_verify v r, st);
  ver_refresh := default_refresh (fun _ _ st => st) (fun v r st => (static_verify v r, st));
  ver_invalidate _ _ st := st |}.

#[export] Instance preverified_verifier {St} : UpstreamVerifier PreverifiedUpstreamVerifier St := {|
  ver_verify v r st := (preverified_verify v r, st);
  ver_refresh := default_refresh (fun _ _ st => st) (fun v r st => (preverified_verify v r, st));
  ver_invalidate _ _ st := st |}.

(** ** Dispatch to one of several verifiers *)

Definition ROUTING_VERIFIER_ID : string := "routing-upstream-verifier/v1".

Section Dispatch.
Context {V St : Type} `{UpstreamVerifier V St}.

Definition routing_verify (r : RoutingUpstreamVerifier V) (request : UpstreamVerificationRequest) (st : St) :
    UpstreamVerifiedEvent * St :=
  match dispatch r request with
  | Some v => ver_verify v request st
  | None => (failed_event request ROUTING_VERIFIER_ID "no verifier configured for selected upstream", st)
  end.

Definition routing_refresh (r : RoutingUpstreamVerifier V) (request : UpstreamVerificationRequest) (st : St) :
    UpstreamVerifiedEvent * St :=
  match dispatch r request with
  | Some v => ver_refresh v request st
  | None => (failed_event request ROUTING_VERIFIER_ID "no verifier configured for selected upstream", st)
  end.

Definition routing_invalidate (r : RoutingUpstreamVerifier V) (request : UpstreamVerificationRequest) (st : St) : St :=
  match dispatch r request with
  | Some v => ver_invalidate v request st
  | None => st
  end.

(** The dynamic verifier reads the current one, if any, at each call. *)
Definition dynamic_verify (v : option V) (request : UpstreamVerificationRequest) (st : St) :
    UpstreamVerifiedEvent * St :=
  match v with
  | Some v => ver_verify v request st
  | None => (failed_event request "none" "no upstream verifier configured", st)
  end.

Definition dynamic_refresh (v : option V) (request : UpstreamVerificationRequest) (st : St) :
    UpstreamVerifiedEvent * St :=
  match v with
  | Some v => ver_refresh v request st
  | None => (failed_event request "none" "no upstream verifier configured", st)
  end.

Definition dynamic_invalidate (v : option V) (request : UpstreamVerificationRequest) (st : St) : St :=
  match v with Some v => ver_invalidate v request st | None => st end.

#[export] Instance routing_verifier : UpstreamVerifier (RoutingUpstreamVerifier V) St := {|
  ver_verify := routing_verify; ver_refresh := routing_refresh; ver_invalidate := routing_invalidate |}.

#[export] Instance dynamic_verifier : UpstreamVerifier (option V) St := {|
  ver_verify := dynamic_verify; ver_refresh := dynamic_refresh; ver_invalidate := dynamic_invalidate |}.
End Dispatch.

(** ** Only a configured verifier vouches *)

(** Through the dynamic and the routing verifier a verified event comes from the
    verifier that was added for the request's origin or name. *)
Lemma dispatched_event_verified {V St} `{UpstreamVerifier V St} (current : option (RoutingUpstreamVerifier V))
    (refresh : bool) request (st : St) :
  let '(event, st') := (if refresh then ver_refresh else ver_verify) current request st in
  uv_result event = Verified ->
  exists r v, current = Some r /\ dispatch r request = Some v
    /\ (if refresh then ver_refresh else ver_verify) v request st = (event, st').
Proof.
  destruct current as [r|]; [|by destruct refresh].
  destruct refresh; cbn; unfold routing_refresh, routing_verify;
    (destruct (dispatch r request) as [v|] eqn:E; [|done]);
    [destruct (ver_refresh v request st) eqn:Ev|destruct (ver_verify v request st) eqn:Ev];
    intros _; exists r, v; by rewrite ?Ev.
Qed.
