(* ===== verification/Claims.v ===== *)
(** * Session claims

    Model of [src/aggregator/service/claims.rs]: the typed claims a verified
    event supports, per provider, and the slice of a fleet's claims that belongs
    to one instance. *)
From S2P Require Import Prelude StrOps Json Receipt Session.

(** [BTreeMap::insert] on the entries in key order. *)
Fixpoint btree_insert {A} (k : string) (v : A) (m : list (string * A)) : list (string * A) :=
  match m with
  | [] => [(k, v)]
  | (k', v') :: m' =>
      match str_compare k k' with
      | Lt => (k, v) :: m
      | Eq => (k', v) :: m'
      | Gt => (k', v') :: btree_insert k v m'
      end
  end.

(** The provider's claim [key], when it has one. *)
Definition provider_claim (event : UpstreamVerifiedEvent) (key : string) : option Value :=
  c ← provider_claims event; get c key.

Definition hardware_tee_attested (event : UpstreamVerifiedEvent) : Claim :=
  asserted HardwareProven (verifier_id event +:+ " verified the TEE quote and bound the request channel").

Definition tcb_up_to_date_claim (event : UpstreamVerifiedEvent) : Claim :=
  match provider_claim event "tcb_status" ≫= as_str with
  | Some status =>
      if eq_ignore_ascii_case status "uptodate" then asserted HardwareProven ("platform TCB status " +:+ status)
      else refuted HardwareProven ("platform TCB status " +:+ status)
  | None => unknown
  end.

Definition os_known_good_claim (event : UpstreamVerifiedEvent) : Claim :=
  match provider_claim event "production_os_image" ≫= as_bool with
  | Some true => asserted VerifierDerived "attested OS image resolves to a known production image"
  | Some false =>
      refuted VerifierDerived "attested OS image is a dev image (SSH / serial console enabled), not production"
  | None => unknown
  end.

Definition gpu_attested_claim (event : UpstreamVerifiedEvent) : Claim :=
  match provider_claim event "gpu_verified" ≫= as_bool with
  | Some true =>
      asserted VerifierDerived
        match provider_claim event "gpu_arch" ≫= as_str with
        | Some arch =>
            "NVIDIA confidential-computing GPU attestation verified and nonce-bound (arch " +:+ arch
              +:+ "); attests a genuine CC GPU, not its binding to the serving CPU TEE"
        | None =>
            "NVIDIA confidential-computing GPU attestation verified and nonce-bound; attests a genuine CC GPU, not its binding to the serving CPU TEE"
        end
  | _ => unknown
  end.

Definition tinfoil_software_claim (event : UpstreamVerifiedEvent) : Claim :=
  let field key := provider_claim event key ≫= as_str in
  asserted VerifierDerived
    match field "config_repo", field "release_digest" with
    | Some repo, Some digest =>
        "Sigstore-verified code measurement matches " +:+ repo +:+ " (release " +:+ digest +:+ ")"
    | Some repo, None => "Sigstore-verified code measurement matches " +:+ repo
    | _, _ => "Sigstore-verified code measurement matches the published golden values"
    end.

(** The implementations of [ProviderClaimMapper]. *)
Definition ProviderClaimMapper : Type := UpstreamVerifiedEvent -> SessionClaims.

Definition IntelTdxClaims : ProviderClaimMapper := fun event => {|
  tee_attested := hardware_tee_attested event;
  gpu_attested := gpu_attested_claim event;
  tcb_up_to_date := tcb_up_to_date_claim event;
  os_known_good := os_known_good_claim event;
  serving_software_known_good := unknown;
  model_weights_provenance := unknown;
  claims_extra := [] |}.

Definition TinfoilClaims : ProviderClaimMapper := fun event => {|
  tee_attested := hardware_tee_attested event;
  gpu_attested := unknown;
  tcb_up_to_date := asserted VerifierDerived
    "Tinfoil's verifier requires an up-to-date TCB for a verified result; no separable TcbStatus is surfaced";
  os_known_good := os_known_good_claim event;
  serving_software_known_good := tinfoil_software_claim event;
  model_weights_provenance := unknown;
  claims_extra := [] |}.

Definition GenericClaims : ProviderClaimMapper := fun event => {|
  tee_attested := asserted VerifierDerived
    (verifier_id event +:+ " verified the workload identity and bound the channel");
  gpu_attested := unknown;
  tcb_up_to_date := unknown;
  os_known_good := unknown;
  serving_software_known_good := unknown;
  model_weights_provenance := unknown;
  claims_extra := [] |}.

Definition is_intel_tdx (provider_type : option string) : bool :=
  match provider_type with
  | Some t => String.eqb t "near-ai" || String.eqb t "chutes" || String.eqb t "phala-direct"
  | None => false
  end.

Definition claim_mapper (provider_type : option string) : ProviderClaimMapper :=
  if decide (provider_type = Some "tinfoil") then TinfoilClaims
  else if is_intel_tdx provider_type then IntelTdxClaims
  else GenericClaims.

Definition with_extra (c : SessionClaims) (extra : list (string * Value)) : SessionClaims := {|
  tee_attested := tee_attested c; gpu_attested := gpu_attested c; tcb_up_to_date := tcb_up_to_date c;
  os_known_good := os_known_good c; serving_software_known_good := serving_software_known_good c;
  model_weights_provenance := model_weights_provenance c; claims_extra := extra |}.

Definition session_claims_for_event (event : UpstreamVerifiedEvent) : SessionClaims :=
  let claims := match uv_result event with
                | Verified => claim_mapper (provider_type event) event
                | Failed => SessionClaims_default
                end in
  match provider_claims event with
  | Some (Obj m) => with_extra claims (fold_left (fun acc kv => btree_insert kv.1 kv.2 acc) m (claims_extra claims))
  | _ => claims
  end.

Definition chutes_instance_id (event : UpstreamVerifiedEvent) (binding : ChannelBinding) : option string :=
  if decide (provider_type event = Some "chutes") then
    match binding with
    | E2eePublicKeySha256 _ (Some id) _ _ => Some id
    | _ => None
    end
  else None.

(** Copies the entries of [keys] that [from] has. *)
Definition copy_keys (keys : list string) (from pc : list (string * Value)) : list (string * Value) :=
  fold_left (fun acc key => match map_get key from with Some v => map_insert key v acc | None => acc end) keys pc.

Definition per_instance_provider_claims (full : option Value) (instance_id : string) : Value :=
  match full with
  | Some (Obj m) =>
      let pc := copy_keys ["trust_boundary"; "evidence_scope"; "chute_id"; "canonical_model_id"] m [] in
      let pc := map_insert "instance_id" (Str instance_id) pc in
      let pc := match map_get "instance_tcb_statuses" m ≫= (fun s => get s instance_id) with
                | Some status => map_insert "tcb_status" status pc
                | None => pc
                end in
      let pc := match map_get "instance_measurements" m ≫= (fun s => get s instance_id) with
                | Some measurement => map_insert "measurement" measurement pc
                | None => pc
                end in
      let pc := match map_get "instance_gpu" m ≫= (fun s => get s instance_id) with
                | Some (Obj gpu) => copy_keys ["gpu_verified"; "gpu_arch"; "gpu_evidence_present"] gpu pc
                | _ => pc
                end in
      Obj pc
  | _ => Obj []
  end.

Definition instance_event (event : UpstreamVerifiedEvent) (instance_id : string) : UpstreamVerifiedEvent :=
  {| upstream_name := ""; provider_type := provider_type event; model_id := ""; url_origin := None;
     verifier_id := verifier_id event; uv_result := uv_result event; required := false; reason := None;
     evidence := None; channel_bindings := [];
     provider_claims := Some (per_instance_provider_claims (provider_claims event) instance_id) |}.

Definition per_instance_session_claims (event : UpstreamVerifiedEvent) (instance_id : string) : SessionClaims :=
  session_claims_for_event (instance_event event instance_id).

(** ** Lemmas *)

Lemma btree_insert_get {A} k k' (v : A) m :
  StronglySorted (fun a b => str_compare a.1 b.1 = Lt) m ->
  map_get k' (btree_insert k v m) = if String.eqb k' k then Some v else map_get k' m.
Proof.
  intros Hs. induction Hs as [|[k0 v0] m Hm IH HF]; cbn; [done|].
  destruct (str_compare k k0) eqn:E; cbn; [|done|].
  - apply (cmp_eq str_compare) in E as ->. by destruct (String.eqb_spec k' k0).
  - rewrite IH. destruct (String.eqb_spec k' k0) as [->|]; [|done].
    destruct (String.eqb_spec k0 k) as [->|]; [|done]. by rewrite (cmp_refl str_compare) in E.
Qed.

Lemma btree_insert_elem {A} k (v : A) m e : e ∈ btree_insert k v m -> e.1 = k \/ e ∈ m.
Proof.
  induction m as [|[k0 v0] m IH]; cbn; [intros ->%list_elem_of_singleton; auto|].
  destruct (str_compare k k0) eqn:E; rewrite !elem_of_cons.
  - apply (cmp_eq str_compare) in E as ->. intros [->|]; auto.
  - intros [->|[->|]]; auto.
  - intros [->|?%IH]; [auto|]. tauto.
Qed.

Lemma btree_insert_sorted {A} k (v : A) m :
  StronglySorted (fun a b => str_compare a.1 b.1 = Lt) m ->
  StronglySorted (fun a b => str_compare a.1 b.1 = Lt) (btree_insert k v m).
Proof.
  intros Hs. induction Hs as [|[k0 v0] m Hm IH HF]; cbn; [repeat constructor|].
  destruct (str_compare k k0) eqn:E.
  - apply (cmp_eq str_compare) in E as ->. by constructor.
  - constructor; [by constructor|]. constructor; [done|]. eapply Forall_impl; [exact HF|].
    intros [k1 v1]; cbn. by apply (cmp_trans str_compare Lt).
  - constructor; [done|]. rewrite Forall_forall in HF |- *. intros e He.
    apply btree_insert_elem in He as [Ek|He]; [|by apply HF].
    change (str_compare k0 e.1 = Lt). rewrite Ek, (cmp_sym str_compare k k0), E. done.
Qed.

(** Folding a map's entries into an ordered map yields the same lookups. *)
Lemma fold_btree_get m acc k :
  NoDup (map_keys m) -> StronglySorted (fun a b => str_compare a.1 b.1 = Lt) acc ->
  map_get k (fold_left (fun acc (kv : string * Value) => btree_insert kv.1 kv.2 acc) m acc)
  = match map_get k m with Some v => Some v | None => map_get k acc end.
Proof.
  revert acc. induction m as [|[k0 v0] m IH]; intros acc; cbn; [done|].
  intros [Hk0 Hnd]%NoDup_cons Hs. rewrite IH by (done || by apply btree_insert_sorted).
  rewrite btree_insert_get by done. destruct (String.eqb_spec k k0) as [->|]; [|done].
  by rewrite (proj2 (map_get_None k0 m)).
Qed.

(** ** A claim says no more than the evidence *)

(** What has to be in an event before a claim may be made of it. *)
Record claims_supported (event : UpstreamVerifiedEvent) (c : SessionClaims) : Prop := {
  sup_verified : uv_result event = Failed ->
    Forall (fun x => x = unknown)
      [tee_attested c; gpu_attested c; tcb_up_to_date c; os_known_good c;
       serving_software_known_good c; model_weights_provenance c];
  sup_tee : source (tee_attested c) = Some HardwareProven ->
    exists t, provider_type event = Some t /\ t ∈ ["tinfoil"; "near-ai"; "chutes"; "phala-direct"];
  sup_tcb : source (tcb_up_to_date c) = Some HardwareProven ->
    exists s, provider_claim event "tcb_status" = Some (Str s)
      /\ (status (tcb_up_to_date c) = Asserted <-> to_ascii_lowercase s = "uptodate");
  sup_tcb_asserted : status (tcb_up_to_date c) = Asserted ->
    (exists s, provider_claim event "tcb_status" = Some (Str s) /\ to_ascii_lowercase s = "uptodate")
    \/ (provider_type event = Some "tinfoil" /\ source (tcb_up_to_date c) = Some VerifierDerived);
  sup_os : status (os_known_good c) = Asserted -> provider_claim event "production_os_image" = Some (Bool true);
  sup_os_refuted : provider_claim event "production_os_image" = Some (Bool false) ->
    status (os_known_good c) <> Asserted;
  sup_gpu : status (gpu_attested c) = Asserted -> provider_claim event "gpu_verified" = Some (Bool true);
  sup_gpu_source : source (gpu_attested c) <> Some HardwareProven;
  sup_software : status (serving_software_known_good c) = Asserted -> provider_type event = Some "tinfoil";
  sup_weights : model_weights_provenance c = unknown;
}.

Lemma bind_as_bool o b : o ≫= as_bool = Some b -> o = Some (Bool b).
Proof. destruct o as [[]|]; cbn; naive_solver. Qed.

Lemma bind_as_str o s : o ≫= as_str = Some s -> o = Some (Str s).
Proof. destruct o as [[]|]; cbn; naive_solver. Qed.

Lemma tcb_claim_spec event :
  match status (tcb_up_to_date_claim event) with
  | Unknown => tcb_up_to_date_claim event = unknown
  | st => source (tcb_up_to_date_claim event) = Some HardwareProven
          /\ exists s, provider_claim event "tcb_status" = Some (Str s)
             /\ (st = Asserted <-> to_ascii_lowercase s = "uptodate")
  end.
Proof.
  unfold tcb_up_to_date_claim. destruct (_ ≫= as_str) as [s|] eqn:E; [|done].
  apply bind_as_str in E. unfold eq_ignore_ascii_case.
  destruct (String.eqb_spec (to_ascii_lowercase s) (to_ascii_lowercase "uptodate")); cbn;
    (split; [done|]); exists s; by repeat split.
Qed.

Lemma os_claim_spec event :
  (status (os_known_good_claim event) = Asserted <-> provider_claim event "production_os_image" = Some (Bool true))
  /\ source (os_known_good_claim event) <> Some HardwareProven.
Proof.
  unfold os_known_good_claim.
  destruct (provider_claim event "production_os_image") as [[|[]| | | |]|]; cbn; repeat split; congruence.
Qed.

Lemma gpu_claim_spec event :
  (status (gpu_attested_claim event) = Asserted <-> provider_claim event "gpu_verified" = Some (Bool true))
  /\ source (gpu_attested_claim event) <> Some HardwareProven.
Proof.
  unfold gpu_attested_claim.
  destruct (provider_claim event "gpu_verified") as [[|[]| | | |]|]; cbn; repeat split; congruence.
Qed.

Lemma is_intel_tdx_spec t : is_intel_tdx t = true -> exists s, t = Some s /\ s ∈ ["near-ai"; "chutes"; "phala-direct"].
Proof.
  destruct t as [t|]; [|done]. cbn. intros E. exists t. split; [done|].
  destruct (String.eqb_spec t "near-ai"); [subst; left|].
  destruct (String.eqb_spec t "chutes"); [subst; right; left|].
  destruct (String.eqb_spec t "phala-direct"); [subst; right; right; left|done].
Qed.

(** The six typed claims do not depend on what is folded into [extra]. *)
Lemma claims_supported_extra event c extra : claims_supported event c -> claims_supported event (with_extra c extra).
Proof. by intros []. Qed.

Lemma generic_supported event : claims_supported event (GenericClaims event) \/ uv_result event = Failed.
Proof.
  destruct (uv_result event) eqn:E; [left|by right]. split; cbn; try done. by rewrite E.
Qed.

Lemma mapper_supported event :
  uv_result event = Verified -> claims_supported event (claim_mapper (provider_type event) event).
Proof.
  intros Hv. unfold claim_mapper.
  pose proof (tcb_claim_spec event) as Htcb. destruct (os_claim_spec event) as [Hos Hos'].
  destruct (gpu_claim_spec event) as [Hgpu Hgpu'].
  case_decide as Et; [|destruct (is_intel_tdx (provider_type event)) eqn:Ei].
  - split; cbn; try done; try by rewrite Hv.
    + intros _. exists "tinfoil". split; [done|]. left.
    + intros _. by right.
    + tauto.
    + intros E [=]%Hos; congruence.
  - apply is_intel_tdx_spec in Ei as (t & Ht & Hin). split; cbn; try done; try by rewrite Hv.
    + intros _. exists t. split; [done|]. by right.
    + destruct (tcb_up_to_date_claim event) as [[] src ?]; cbn in *.
      * intros _. destruct Htcb as (_ & s & ? & ?). eauto.
      * intros _. destruct Htcb as (_ & s & ? & ?). eauto.
      * intros ->. naive_solver.
    + destruct (tcb_up_to_date_claim event) as [[] src ?]; cbn in *; try done.
      intros _. left. destruct Htcb as (_ & s & ? & ?). exists s. naive_solver.
    + tauto.
    + intros E [=]%Hos; congruence.
    + tauto.
  - destruct (generic_supported event) as [|]; [done|congruence].
Qed.

Lemma session_claims_supported event : claims_supported event (session_claims_for_event event).
Proof.
  assert (Hc : claims_supported event
    match uv_result event with
    | Verified => claim_mapper (provider_type event) event
    | Failed => SessionClaims_default
    end).
  { destruct (uv_result event) eqn:E; [by apply mapper_supported|]. split; cbn; try done.
    by repeat constructor. }
  unfold session_claims_for_event. destruct (provider_claims event) as [[]|]; try done.
  by apply claims_supported_extra.
Qed.

(** The verifiers that check a hardware quote. *)
Definition quote_checked (event : UpstreamVerifiedEvent) : Prop :=
  exists t, provider_type event = Some t /\ t ∈ ["tinfoil"; "near-ai"; "chutes"; "phala-direct"].

(** On whose word a claim is made: what a quote shows is proven by hardware, and that
    is the TEE, and a TCB status the verifier reports; all else is derived by the
    verifier. *)
Record claims_labelled (event : UpstreamVerifiedEvent) (c : SessionClaims) : Prop := {
  lab_tee : uv_result event = Verified ->
    status (tee_attested c) = Asserted
    /\ (quote_checked event -> source (tee_attested c) = Some HardwareProven)
    /\ (~ quote_checked event -> source (tee_attested c) = Some VerifierDerived);
  lab_tcb : tcb_up_to_date c = unknown
    \/ provider_type event = Some "tinfoil" /\ source (tcb_up_to_date c) = Some VerifierDerived
    \/ provider_type event <> Some "tinfoil" /\ source (tcb_up_to_date c) = Some HardwareProven;
  lab_derived : Forall (fun x => x = unknown \/ source x = Some VerifierDerived)
    [gpu_attested c; os_known_good c; serving_software_known_good c];
}.

Lemma os_claim_label event : os_known_good_claim event = unknown \/ source (os_known_good_claim event) = Some VerifierDerived.
Proof. unfold os_known_good_claim. destruct (_ ≫= _) as [[]|]; auto. Qed.

Lemma gpu_claim_label event : gpu_attested_claim event = unknown \/ source (gpu_attested_claim event) = Some VerifierDerived.
Proof. unfold gpu_attested_claim. destruct (_ ≫= _) as [[]|]; auto. Qed.

Lemma tcb_claim_label event : tcb_up_to_date_claim event = unknown \/ source (tcb_up_to_date_claim event) = Some HardwareProven.
Proof. unfold tcb_up_to_date_claim. destruct (_ ≫= _) as [s|]; [|auto]. destruct (eq_ignore_ascii_case _ _); auto. Qed.

Lemma session_claims_labelled event : claims_labelled event (session_claims_for_event event).
Proof.
  assert (Hc : claims_labelled event
    match uv_result event with
    | Verified => claim_mapper (provider_type event) event
    | Failed => SessionClaims_default
    end).
  { pose proof (os_claim_label event). pose proof (gpu_claim_label event). pose proof (tcb_claim_label event).
    destruct (uv_result event) eqn:E; [|split; [congruence|by left|rewrite !Forall_cons, Forall_nil; cbn; auto 7]].
    unfold claim_mapper. case_decide as Et; [|destruct (is_intel_tdx (provider_type event)) eqn:Ei].
    - split; [intros _; split; [done|]; split; [done|]|right; left; split; done|rewrite !Forall_cons, Forall_nil; cbn; auto 7].
      intros Hn. destruct Hn. exists "tinfoil". split; [done|]. left.
    - split; [intros _; split; [done|]; split; [done|]|cbn; tauto|rewrite !Forall_cons, Forall_nil; cbn; auto 7].
      intros Hn. destruct Hn. apply is_intel_tdx_spec in Ei as (t & Ht & Hin). exists t. split; [done|]. by right.
    - split; [intros _; split; [done|]; split; [|done]|by left|rewrite !Forall_cons, Forall_nil; cbn; auto 7].
      intros (t & Ht & Hin). exfalso. rewrite Ht in Et, Ei. cbn in Ei. rewrite !orb_false_iff, !String.eqb_neq in Ei.
      rewrite !elem_of_cons, elem_of_nil in Hin. destruct_or?; subst; tauto. }
  unfold session_claims_for_event. destruct (provider_claims event) as [[]|]; try done. by destruct Hc.
Qed.

(** C21: The claims of a session say no more than the verifier's evidence, and say on
    whose word: an event that is not verified supports none; the TEE of a verified
    one is asserted, as proven by hardware exactly for the verifiers that check a
    hardware quote and as derived for every other; an up-to-date TCB is asserted
    from a reported status that says so (any other status refutes it), as proven by
    hardware, or on Tinfoil's word, then marked as derived; a production image, a
    GPU and the serving software are asserted only when the provider's claims (or
    Tinfoil's verifier) say so, and always marked as derived by the verifier; model
    weights never.  The provider's own claims are kept verbatim. *)
Theorem session_claims_honest event :
  claims_supported event (session_claims_for_event event)
  /\ claims_labelled event (session_claims_for_event event)
  /\ (forall m k, provider_claims event = Some (Obj m) -> NoDup (map_keys m) ->
      map_get k (claims_extra (session_claims_for_event event)) = map_get k m).
Proof.
  split; [apply session_claims_supported|]. split; [apply session_claims_labelled|].
  intros m k E Hnd. unfold session_claims_for_event. rewrite E. cbn.
  assert (Hx : claims_extra match uv_result event with
            | Verified => claim_mapper (provider_type event) event
            | Failed => SessionClaims_default
            end = []).
  { unfold claim_mapper. destruct (uv_result event); [|done]. by repeat case_match. }
  rewrite Hx, fold_btree_get by (done || constructor). by destruct (map_get k m).
Qed.

Definition demo_tdx_claims : list (string * Value) := [("tcb_status", Str "UpToDate"); ("gpu_verified", Bool true)].

Definition demo_tdx_event : UpstreamVerifiedEvent :=
  {| upstream_name := "u"; provider_type := Some "phala-direct"; model_id := "m"; url_origin := None;
     verifier_id := "v"; uv_result := Verified; required := true; reason := None; evidence := None;
     channel_bindings := []; provider_claims := Some (Obj demo_tdx_claims) |}.

Lemma session_claims_honest_witness :
  map_get "gpu_verified" (claims_extra (session_claims_for_event demo_tdx_event)) = Some (Bool true)
  /\ status (tcb_up_to_date (session_claims_for_event demo_tdx_event)) = Asserted
  /\ status (os_known_good (session_claims_for_event demo_tdx_event)) = Unknown.
Proof.
  split; [|by split].
  eapply eq_trans; [apply (proj2 (proj2 (session_claims_honest demo_tdx_event)) demo_tdx_claims "gpu_verified" eq_refl)|].
  - apply (bool_decide_eq_true_1 (NoDup (map_keys demo_tdx_claims))). reflexivity.
  - reflexivity.
Defined.

(** ** One instance of a fleet *)

Lemma copy_keys_get keys from pc k :
  map_get k (copy_keys keys from pc)
  = if decide (k ∈ keys) then match map_get k from with Some v => Some v | None => map_get k pc end
    else map_get k pc.
Proof.
  unfold copy_keys. revert pc. induction keys as [|key keys IH]; intros pc; cbn; [done|].
  rewrite IH. destruct (String.eqb_spec k key) as [->|Hne].
  - rewrite (decide_True (P := key ∈ key :: keys)) by left.
    destruct (map_get key from); rewrite ?map_get_insert, ?String.eqb_refl; by case_decide.
  - assert (Hk : map_get k match map_get key from with Some v => map_insert key v pc | None => pc end = map_get k pc).
    { destruct (map_get key from); [|done]. rewrite map_get_insert. by destruct (String.eqb_spec k key). }
    rewrite Hk. repeat case_decide; try done; set_solver.
Qed.

(** The entry of [instance_id] in the per-instance map [key]. *)
Definition instance_entry (m : list (string * Value)) (key instance_id : string) : option Value :=
  map_get key m ≫= (fun s => get s instance_id).

Lemma map_get_insert_opt {A} k k' (o : option A) m :
  map_get k' match o with Some v => map_insert k v m | None => m end
  = if String.eqb k' k then match o with Some v => Some v | None => map_get k' m end else map_get k' m.
Proof. destruct o; [by rewrite map_get_insert|]. by destruct (String.eqb k' k). Qed.

Lemma map_get_copy_opt k keys (o : option Value) pc :
  k ∉ keys -> map_get k match o with Some (Obj g) => copy_keys keys g pc | _ => pc end = map_get k pc.
Proof. intros Hk. destruct o as [[]|]; try done. rewrite copy_keys_get. by case_decide. Qed.

Lemma map_get_copy_opt_in k keys (o : option Value) pc :
  k ∈ keys -> map_get k pc = None ->
  map_get k match o with Some (Obj g) => copy_keys keys g pc | _ => pc end = o ≫= (fun g => get g k).
Proof.
  intros Hk Hpc. destruct o as [[| | | | |g]|]; try done. cbn.
  rewrite copy_keys_get, decide_True, Hpc by done. by destruct (map_get k g).
Qed.

(** What a slice says of the TCB is the instance's own entry. *)
Lemma per_instance_tcb m id :
  get (per_instance_provider_claims (Some (Obj m)) id) "tcb_status" = instance_entry m "instance_tcb_statuses" id.
Proof.
  unfold per_instance_provider_claims. cbn [get]. rewrite map_get_copy_opt by set_solver.
  rewrite !map_get_insert_opt. cbn [String.eqb Ascii.eqb Bool.eqb].
  unfold instance_entry. destruct (_ ≫= _); [done|].
  rewrite map_get_insert. cbn [String.eqb Ascii.eqb Bool.eqb].
  rewrite copy_keys_get, decide_False by set_solver. done.
Qed.

Lemma per_instance_gpu m id :
  get (per_instance_provider_claims (Some (Obj m)) id) "gpu_verified"
  = instance_entry m "instance_gpu" id ≫= (fun g => get g "gpu_verified").
Proof.
  unfold per_instance_provider_claims, instance_entry. cbn [get].
  rewrite map_get_copy_opt_in; [done|set_solver|].
  rewrite !map_get_insert_opt. cbn [String.eqb Ascii.eqb Bool.eqb].
  rewrite map_get_insert. cbn [String.eqb Ascii.eqb Bool.eqb].
  by rewrite copy_keys_get, decide_False by set_solver.
Qed.

Definition same_slice (m1 m2 : list (string * Value)) (id : string) : Prop :=
  (forall k, k ∈ ["trust_boundary"; "evidence_scope"; "chute_id"; "canonical_model_id"] -> map_get k m1 = map_get k m2)
  /\ (forall k, k ∈ ["instance_tcb_statuses"; "instance_measurements"; "instance_gpu"] ->
      instance_entry m1 k id = instance_entry m2 k id).

Lemma copy_keys_agree keys f1 f2 pc :
  (forall k, k ∈ keys -> map_get k f1 = map_get k f2) -> copy_keys keys f1 pc = copy_keys keys f2 pc.
Proof.
  unfold copy_keys. revert pc. induction keys as [|k keys IH]; intros pc Hag; cbn; [done|].
  rewrite (Hag k) by left. apply IH. intros k' Hk'. apply Hag. by right.
Qed.

Lemma per_instance_agree m1 m2 id :
  same_slice m1 m2 id ->
  per_instance_provider_claims (Some (Obj m1)) id = per_instance_provider_claims (Some (Obj m2)) id.
Proof.
  intros [Hk Hi]. unfold per_instance_provider_claims. rewrite (copy_keys_agree _ m1 m2) by done. unfold instance_entry in Hi.
  rewrite (Hi "instance_tcb_statuses"), (Hi "instance_measurements"), (Hi "instance_gpu") by set_solver. done.
Qed.

(** C27: The claims of one Chutes instance rest on that instance alone: its GPU and
    its TCB are asserted only from its own entries of the fleet's claims, and
    siblings joining, leaving or failing change nothing in them, so the content
    id of the session is stable. *)
Theorem per_instance_claims_local event m id :
  provider_type event = Some "chutes" -> provider_claims event = Some (Obj m) ->
  let c := per_instance_session_claims event id in
  (status (gpu_attested c) = Asserted ->
     exists g, instance_entry m "instance_gpu" id = Some g /\ get g "gpu_verified" = Some (Bool true))
  /\ (status (tcb_up_to_date c) = Asserted ->
     exists s, instance_entry m "instance_tcb_statuses" id = Some (Str s) /\ to_ascii_lowercase s = "uptodate")
  /\ (forall event' m', provider_type event' = provider_type event -> verifier_id event' = verifier_id event ->
      uv_result event' = uv_result event -> provider_claims event' = Some (Obj m') -> same_slice m m' id ->
      per_instance_session_claims event' id = c).
Proof.
  intros Ht Hm c. subst c. unfold per_instance_session_claims.
  pose proof (session_claims_supported (instance_event event id)) as Hsup.
  assert (Hpc : forall k, provider_claim (instance_event event id) k
                          = get (per_instance_provider_claims (Some (Obj m)) id) k).
  { intros k. unfold provider_claim, instance_event. rewrite Hm. done. }
  split; [|split].
  - intros Hg%(sup_gpu _ _ Hsup). rewrite Hpc, per_instance_gpu in Hg. by apply bind_Some in Hg.
  - intros Hs%(sup_tcb_asserted _ _ Hsup). destruct Hs as [(s & Hs & Hl)|[Hs _]]; [|cbn in Hs; congruence].
    rewrite Hpc, per_instance_tcb in Hs. eauto.
  - intros event' m' Et Ev Er Em Hsame. f_equal. unfold instance_event.
    rewrite Et, Ev, Er, Em, Hm, (per_instance_agree m m' id Hsame). done.
Qed.

Definition demo_fleet (sibling : bool) : list (string * Value) :=
  [("chute_id", Str "c");
   ("instance_tcb_statuses", {{ "i" ≔ Str "UpToDate"; "j" ≔ Str (if sibling then "UpToDate" else "OutOfDate") }});
   ("instance_gpu", {{ "i" ≔ {{ "gpu_verified" ≔ Bool true }}; "j" ≔ {{ "gpu_verified" ≔ Bool sibling }} }})].

Definition demo_fleet_event (sibling : bool) : UpstreamVerifiedEvent :=
  {| upstream_name := "u"; provider_type := Some "chutes"; model_id := "m"; url_origin := None;
     verifier_id := "v"; uv_result := Verified; required := true; reason := None; evidence := None;
     channel_bindings := []; provider_claims := Some (Obj (demo_fleet sibling)) |}.

Lemma per_instance_claims_local_witness :
  per_instance_session_claims (demo_fleet_event false) "i" = per_instance_session_claims (demo_fleet_event true) "i"
  /\ status (gpu_attested (per_instance_session_claims (demo_fleet_event true) "i")) = Asserted.
Proof.
  split; [|done].
  apply (proj2 (proj2 (per_instance_claims_local (demo_fleet_event true) (demo_fleet true) "i" eq_refl eq_refl))
    _ (demo_fleet false)); try reflexivity.
  split; intros k Hk; repeat (apply elem_of_cons in Hk as [->|Hk]; [reflexivity|]); by apply elem_of_nil in Hk.
Defined.
