(* ===== verification/E2ee.v ===== *)
(** * End-to-end encryption of fields

    Model of [src/aci/e2ee.rs]: the two cipher suites of ACI and the two
    inherited ones.  A field travels as the hex of the sender's ephemeral public
    key, the AES-GCM nonce and the ciphertext with its tag.  The curves, HKDF,
    AES-GCM and the random generator are parameters; what is modelled is how the
    wire format is built from them and taken apart. *)
From S2P Require Import Prelude StrOps Json Canonical Identity Revocation AciVerifier.

Definition E2EE_VERSION_V2 : string := "2".
Definition E2EE_VERSION_V1 : string := "1".
Definition E2EE_ALGO_X25519_AESGCM : string := "x25519-aes-256-gcm-hkdf-sha256".
Definition E2EE_ALGO_SECP256K1_AESGCM : string := "secp256k1-aes-256-gcm-hkdf-sha256".
Definition E2EE_ALGO_LEGACY_ECDSA : string := "ecdsa".
Definition E2EE_ALGO_LEGACY_ED25519 : string := "ed25519".

Definition SECP256K1_HKDF_INFO : string := "aci.e2ee.v2.secp256k1".
Definition X25519_HKDF_INFO : string := "aci.e2ee.v2.x25519".
Definition LEGACY_ECDSA_HKDF_INFO : string := "ecdsa_encryption".
Definition LEGACY_ED25519_HKDF_INFO : string := "ed25519_encryption".
Definition PUBLIC_KEY_LEN : nat := 65.
Definition X25519_PUBLIC_KEY_LEN : nat := 32.
Definition NONCE_LEN : nat := 12.
Definition TAG_LEN : nat := 16.

(** [k256], [x25519_dalek], [curve25519_dalek], [ed25519_dalek], [hkdf],
    [aes_gcm], SHA-512 and the random generator.  X25519 and Ed25519 keys are
    their 32 bytes. *)
Class CurveLibs : Type := {
  SecretKey : Type;
  PublicKey : Type;
  secret_from_slice : string -> result string SecretKey;
  public_key_of : SecretKey -> PublicKey;
  from_sec1_bytes : string -> result string PublicKey;
  to_uncompressed : PublicKey -> string;
  encoded_point_from_bytes : string -> result string unit;
  diffie_hellman : SecretKey -> PublicKey -> string;
  x25519_public : string -> string;
  x25519 : string -> string -> string;
  ed25519_verifying_key : string -> string;
  edwards_to_montgomery : string -> option string;
  sha512 : string -> string;
  hkdf_sha256_32 : string -> string -> result string string;
  aes256gcm_encrypt : string -> string -> string -> string -> result string string;
  aes256gcm_decrypt : string -> string -> string -> string -> result string string;
  Rng : Type;
  random_bytes : nat -> Rng -> string * Rng;
  random_secret : Rng -> SecretKey * Rng;
}.

Section E2ee.
Context `{Digest} `{Crypto} `{CurveLibs}.

(** Fallible computations that draw random bytes. *)
Definition Enc (A : Type) : Type := Rng -> result KeyError A * Rng.

#[export] Instance enc_ret : MRet Enc := fun A a g => (Ok a, g).
#[export] Instance enc_bind : MBind Enc := fun A B f m g =>
  match m g with
  | (Ok a, g') => f a g'
  | (Err e, g') => (Err e, g')
  end.
Definition draw {A} (f : Rng -> A * Rng) : Enc A := fun g => let '(a, g') := f g in (Ok a, g').
Definition lift {A} (r : result KeyError A) : Enc A := fun g => (r, g).

Definition crypto_err {A} (what : string) (r : result string A) : result KeyError A :=
  map_err (fun e => Revocation.Crypto (what +:+ ": " +:+ e)) r.

Definition nat_to_string (n : nat) : string := z_to_string (Z.of_nat n).

(** The 64 coordinate bytes of a secp256k1 key, with or without its tag. *)
Definition uncompressed_coordinates (bytes : string) : option string :=
  match bytes with
  | String t rest =>
      if Ascii.eqb t (byte 4) && Nat.eqb (String.length rest) 64 then Some rest
      else if Nat.eqb (String.length bytes) 64 then Some bytes
      else None
  | EmptyString => None
  end.

Definition normalize_secp256k1_public_key_hex (value : string) : result KeyError string :=
  bytes ← crypto_err "invalid secp256k1 public key hex" (hex_decode (strip_0x value));
  match uncompressed_coordinates bytes with
  | None =>
      Err (Revocation.Crypto ("secp256k1 public key must be 64 or 65 bytes, got "
                                +:+ nat_to_string (String.length bytes)))
  | Some rest =>
      let encoded := String (byte 4) rest in
      _ ← crypto_err "invalid secp256k1 public key" (encoded_point_from_bytes encoded);
      _ ← crypto_err "invalid secp256k1 public key" (from_sec1_bytes encoded);
      Ok (hex_encode encoded)
  end.

Definition public_key_from_secret (secret : SecretKey) : string :=
  hex_encode (to_uncompressed (public_key_of secret)).

Definition legacy_ecdsa_public_key_from_secret (secret : SecretKey) : string :=
  hex_encode (str_drop 1 (to_uncompressed (public_key_of secret))).

Definition ed25519_public_key_hex (secret : string) : string := hex_encode (ed25519_verifying_key secret).

Definition is_aci_e2ee_suite (algo : string) : bool :=
  String.eqb algo E2EE_ALGO_X25519_AESGCM || String.eqb algo E2EE_ALGO_SECP256K1_AESGCM.

(** A key of 32 bytes. *)
Definition exactly_32 (what : string) (bytes : string) : result KeyError string :=
  if Nat.eqb (String.length bytes) 32 then Ok bytes
  else Err (Revocation.Crypto (what +:+ " must be 32 bytes, got " +:+ nat_to_string (String.length bytes))).

Definition normalize_x25519_public_key_hex (value : string) : result KeyError string :=
  bytes ← crypto_err "invalid X25519 public key hex" (hex_decode (strip_0x value));
  bytes ← exactly_32 "X25519 public key" bytes;
  Ok (hex_encode bytes).

Definition normalize_aci_e2ee_public_key_hex (algo value : string) : result KeyError string :=
  if String.eqb algo E2EE_ALGO_X25519_AESGCM then normalize_x25519_public_key_hex value
  else if String.eqb algo E2EE_ALGO_SECP256K1_AESGCM then normalize_secp256k1_public_key_hex value
  else Err (UnsupportedAlgo algo).

Definition x25519_public_key_hex (secret : string) : string := hex_encode (x25519_public secret).

Definition x25519_secret_key_from_bytes (bytes : string) : result KeyError string :=
  exactly_32 "invalid X25519 E2EE key:" bytes.

Definition secret_key_from_bytes (bytes : string) : result KeyError SecretKey :=
  crypto_err "invalid secp256k1 E2EE key" (secret_from_slice bytes).

Definition public_key_from_hex (value : string) : result KeyError PublicKey :=
  normalized ← normalize_secp256k1_public_key_hex value;
  bytes ← crypto_err "invalid secp256k1 public key hex" (hex_decode normalized);
  crypto_err "invalid secp256k1 public key" (from_sec1_bytes bytes).

(** The two [expect]s hold of a normalized key. *)
Definition x25519_public_key_from_hex (value : string) : result KeyError string :=
  normalized ← normalize_x25519_public_key_hex value;
  match hex_decode normalized with
  | Ok bytes => Ok bytes
  | Err e => Err (Revocation.Crypto e)
  end.

Definition cipher_from_shared_secret (shared : string) : result KeyError string :=
  crypto_err "HKDF expand failed" (hkdf_sha256_32 shared SECP256K1_HKDF_INFO).

Definition x25519_cipher_from_shared_secret (shared : string) : result KeyError string :=
  crypto_err "HKDF expand failed" (hkdf_sha256_32 shared X25519_HKDF_INFO).

Definition legacy_cipher_from_shared_secret (shared signing_algo : string) : result KeyError string :=
  info ← (if String.eqb signing_algo E2EE_ALGO_LEGACY_ECDSA then Ok LEGACY_ECDSA_HKDF_INFO
          else if String.eqb signing_algo E2EE_ALGO_LEGACY_ED25519 then Ok LEGACY_ED25519_HKDF_INFO
          else Err (UnsupportedAlgo signing_algo));
  crypto_err "legacy HKDF expand failed" (hkdf_sha256_32 shared info).

Definition ed25519_public_to_x25519_public_key (value : string) : result KeyError string :=
  bytes ← crypto_err "invalid Ed25519 public key hex" (hex_decode (strip_0x value));
  bytes ← exactly_32 "Ed25519 public key" bytes;
  ok_or (edwards_to_montgomery bytes) (Revocation.Crypto "invalid Ed25519 public key point").

(** [scalar[i] = f(scalar[i])] *)
Definition update_byte (i : nat) (f : N -> N) (s : string) : string :=
  str_take i s +:+ match str_drop i s with
                   | String c rest => String (byte (f (N_of_ascii c))) rest
                   | EmptyString => ""
                   end.

Definition ed25519_private_to_x25519_private_key (secret : string) : string :=
  let scalar := str_take 32 (sha512 secret) in
  let scalar := update_byte 0 (fun b => N.land b 248) scalar in
  let scalar := update_byte 31 (fun b => N.land b 127) scalar in
  update_byte 31 (fun b => N.lor b 64) scalar.

(** What the suites share: draw a nonce, encrypt, prepend the ephemeral key. *)
Definition seal_blob (what ephemeral_public cipher plaintext aad : string) : Enc string :=
  nonce_bytes ← draw (random_bytes NONCE_LEN);
  ciphertext ← lift (crypto_err what (aes256gcm_encrypt cipher nonce_bytes plaintext aad));
  mret (hex_encode (ephemeral_public +:+ nonce_bytes +:+ ciphertext)).

Definition encrypt_x25519_for_public_key (recipient_public_key_hex plaintext aad : string) : Enc string :=
  recipient ← lift (x25519_public_key_from_hex recipient_public_key_hex);
  ephemeral ← draw (random_bytes 32);
  cipher ← lift (x25519_cipher_from_shared_secret (x25519 ephemeral recipient));
  seal_blob "X25519 E2EE encrypt failed" (x25519_public ephemeral) cipher plaintext aad.

Definition encrypt_for_public_key (recipient_public_key_hex plaintext aad : string) : Enc string :=
  recipient ← lift (public_key_from_hex recipient_public_key_hex);
  ephemeral ← draw random_secret;
  cipher ← lift (cipher_from_shared_secret (diffie_hellman ephemeral recipient));
  seal_blob "E2EE encrypt failed" (to_uncompressed (public_key_of ephemeral)) cipher plaintext aad.

Definition encrypt_aci_e2ee_for_public_key (algo recipient_public_key_hex plaintext aad : string) : Enc string :=
  if String.eqb algo E2EE_ALGO_X25519_AESGCM then
    encrypt_x25519_for_public_key recipient_public_key_hex plaintext aad
  else if String.eqb algo E2EE_ALGO_SECP256K1_AESGCM then
    encrypt_for_public_key recipient_public_key_hex plaintext aad
  else lift (Err (UnsupportedAlgo algo)).

Definition aad_or_empty (aad : option string) : string := match aad with Some a => a | None => "" end.

Definition encrypt_legacy_for_public_key (signing_algo recipient_public_key_hex plaintext : string)
    (aad : option string) : Enc string :=
  if String.eqb signing_algo E2EE_ALGO_LEGACY_ECDSA then
    recipient ← lift (public_key_from_hex recipient_public_key_hex);
    ephemeral ← draw random_secret;
    cipher ← lift (legacy_cipher_from_shared_secret (diffie_hellman ephemeral recipient) E2EE_ALGO_LEGACY_ECDSA);
    seal_blob "legacy E2EE encrypt failed" (to_uncompressed (public_key_of ephemeral)) cipher plaintext
      (aad_or_empty aad)
  else if String.eqb signing_algo E2EE_ALGO_LEGACY_ED25519 then
    recipient ← lift (ed25519_public_to_x25519_public_key recipient_public_key_hex);
    secret ← draw (random_bytes 32);
    cipher ← lift (legacy_cipher_from_shared_secret (x25519 secret recipient) E2EE_ALGO_LEGACY_ED25519);
    seal_blob "legacy E2EE encrypt failed" (x25519_public secret) cipher plaintext (aad_or_empty aad)
  else lift (Err (UnsupportedAlgo signing_algo)).

(** The parts of a wire blob: the ephemeral key, the nonce, the ciphertext. *)
Definition split_blob (profile what : string) (key_len : nat) (ciphertext_hex : string) :
    result KeyError (string * string * string) :=
  blob ← crypto_err ("invalid " +:+ profile +:+ " ciphertext hex") (hex_decode (strip_0x ciphertext_hex));
  if Nat.ltb (String.length blob) (key_len + NONCE_LEN + TAG_LEN) then
    Err (Revocation.Crypto (what +:+ " ciphertext too short: got " +:+ nat_to_string (String.length blob)
                              +:+ " bytes"))
  else Ok (str_take key_len blob, str_take NONCE_LEN (str_drop key_len blob), str_drop (key_len + NONCE_LEN) blob).

Definition decrypt_x25519_with_secret_key (recipient_secret ciphertext_hex aad : string) : result KeyError string :=
  split_blob "X25519 E2EE" "X25519 E2EE" X25519_PUBLIC_KEY_LEN ciphertext_hex ≫= fun '(eph, nonce_bytes, ciphertext) =>
  x25519_cipher_from_shared_secret (x25519 recipient_secret eph) ≫= fun cipher =>
  crypto_err "X25519 E2EE decrypt failed" (aes256gcm_decrypt cipher nonce_bytes ciphertext aad).

Definition decrypt_with_secret_key (recipient_secret : SecretKey) (ciphertext_hex aad : string) :
    result KeyError string :=
  split_blob "E2EE" "E2EE" PUBLIC_KEY_LEN ciphertext_hex ≫= fun '(eph_bytes, nonce_bytes, ciphertext) =>
  crypto_err "invalid E2EE ephemeral public key" (from_sec1_bytes eph_bytes) ≫= fun eph =>
  cipher_from_shared_secret (diffie_hellman recipient_secret eph) ≫= fun cipher =>
  crypto_err "E2EE decrypt failed" (aes256gcm_decrypt cipher nonce_bytes ciphertext aad).

Definition decrypt_legacy_ecdsa_with_secret_key (recipient_secret : SecretKey) (ciphertext_hex : string)
    (aad : option string) : result KeyError string :=
  split_blob "legacy E2EE" "legacy ECDSA E2EE" PUBLIC_KEY_LEN ciphertext_hex ≫= fun '(eph_bytes, nonce_bytes, ciphertext) =>
  crypto_err "invalid legacy ECDSA ephemeral public key" (from_sec1_bytes eph_bytes) ≫= fun eph =>
  legacy_cipher_from_shared_secret (diffie_hellman recipient_secret eph) E2EE_ALGO_LEGACY_ECDSA ≫= fun cipher =>
  crypto_err "legacy ECDSA E2EE decrypt failed"
    (aes256gcm_decrypt cipher nonce_bytes ciphertext (aad_or_empty aad)).

Definition decrypt_legacy_ed25519_with_secret_key (recipient_secret ciphertext_hex : string)
    (aad : option string) : result KeyError string :=
  split_blob "legacy E2EE" "legacy Ed25519 E2EE" X25519_PUBLIC_KEY_LEN ciphertext_hex ≫= fun '(eph, nonce_bytes, ciphertext) =>
  let secret := ed25519_private_to_x25519_private_key recipient_secret in
  legacy_cipher_from_shared_secret (x25519 secret eph) E2EE_ALGO_LEGACY_ED25519 ≫= fun cipher =>
  crypto_err "legacy Ed25519 E2EE decrypt failed"
    (aes256gcm_decrypt cipher nonce_bytes ciphertext (aad_or_empty aad)).
End E2ee.

(** ** Decryption undoes encryption *)

(** [hex] decodes what it encoded, and never writes a prefix. *)
Class HexLaws `{Digest} `{Crypto} : Prop := {
  hex_decode_encode b : hex_decode (hex_encode b) = Ok b;
  hex_encode_digits b : strip_0x (hex_encode b) = hex_encode b;
}.

(** The documented behaviour of the libraries: key agreement commutes, encodings
    have their length and decode to what was encoded, AES-GCM decrypts what it
    encrypted, and appends a tag. *)
Class CurveLaws `{Digest} `{Crypto} `{CurveLibs} : Prop := {
  curve_hex :: HexLaws;
  dh_comm a b : diffie_hellman a (public_key_of b) = diffie_hellman b (public_key_of a);
  sec1_roundtrip p : from_sec1_bytes (to_uncompressed p) = Ok p;
  sec1_shape p : exists rest, to_uncompressed p = String (byte 4) rest /\ String.length rest = 64%nat;
  encoded_point_ok p : encoded_point_from_bytes (to_uncompressed p) = Ok tt;
  x25519_comm a b : x25519 a (x25519_public b) = x25519 b (x25519_public a);
  x25519_length a : String.length (x25519_public a) = 32%nat;
  ed25519_length a : String.length (ed25519_verifying_key a) = 32%nat;
  ed25519_birational a :
    edwards_to_montgomery (ed25519_verifying_key a) = Some (x25519_public (ed25519_private_to_x25519_private_key a));
  hkdf_total shared info : exists key, hkdf_sha256_32 shared info = Ok key;
  gcm_total key nonce msg aad :
    (Z.of_nat (String.length msg) <= 2 ^ 36 - 32) -> exists ct, aes256gcm_encrypt key nonce msg aad = Ok ct;
  gcm_tag key nonce msg aad ct :
    aes256gcm_encrypt key nonce msg aad = Ok ct -> (TAG_LEN <= String.length ct)%nat;
  gcm_roundtrip key nonce msg aad ct :
    aes256gcm_encrypt key nonce msg aad = Ok ct -> aes256gcm_decrypt key nonce ct aad = Ok msg;
  random_length n g : String.length (random_bytes n g).1 = n;
}.

(** The two sides of a suite: what the recipient publishes and decrypts with. *)
Inductive Suite `{CurveLibs} :=
| SuiteX25519 (secret : string)
| SuiteSecp256k1 (secret : SecretKey)
| SuiteLegacyEcdsa (secret : SecretKey)
| SuiteLegacyEd25519 (secret : string).

Section Roundtrip.
Context `{CurveLaws}.

Definition suite_public_key (s : Suite) : string :=
  match s with
  | SuiteX25519 k => x25519_public_key_hex k
  | SuiteSecp256k1 k => public_key_from_secret k
  | SuiteLegacyEcdsa k => legacy_ecdsa_public_key_from_secret k
  | SuiteLegacyEd25519 k => ed25519_public_key_hex k
  end.

Definition suite_encrypt (s : Suite) (pk plaintext aad : string) : Enc string :=
  match s with
  | SuiteX25519 _ => encrypt_aci_e2ee_for_public_key E2EE_ALGO_X25519_AESGCM pk plaintext aad
  | SuiteSecp256k1 _ => encrypt_aci_e2ee_for_public_key E2EE_ALGO_SECP256K1_AESGCM pk plaintext aad
  | SuiteLegacyEcdsa _ => encrypt_legacy_for_public_key E2EE_ALGO_LEGACY_ECDSA pk plaintext (Some aad)
  | SuiteLegacyEd25519 _ => encrypt_legacy_for_public_key E2EE_ALGO_LEGACY_ED25519 pk plaintext (Some aad)
  end.

Definition suite_decrypt (s : Suite) (ciphertext_hex aad : string) : result KeyError string :=
  match s with
  | SuiteX25519 k => decrypt_x25519_with_secret_key k ciphertext_hex aad
  | SuiteSecp256k1 k => decrypt_with_secret_key k ciphertext_hex aad
  | SuiteLegacyEcdsa k => decrypt_legacy_ecdsa_with_secret_key k ciphertext_hex (Some aad)
  | SuiteLegacyEd25519 k => decrypt_legacy_ed25519_with_secret_key k ciphertext_hex (Some aad)
  end.

Lemma str_drop_drop n m s : str_drop n (str_drop m s) = str_drop (m + n) s.
Proof. revert s. induction m as [|m IH]; intros [|c s]; cbn; [done|done|by destruct n|apply IH]. Qed.

(** A sealed blob comes apart into what it was put together from. *)
Lemma split_blob_seal profile what why n eph cipher plaintext aad g hex g' :
  String.length eph = n -> seal_blob why eph cipher plaintext aad g = (Ok hex, g') ->
  exists nonce ct, split_blob profile what n hex = Ok (eph, nonce, ct)
    /\ aes256gcm_decrypt cipher nonce ct aad = Ok plaintext.
Proof.
  intros Hn. pose proof (random_length NONCE_LEN g) as Hnonce.
  unfold seal_blob, draw, lift, mbind, enc_bind.
  destruct (random_bytes NONCE_LEN g) as [nonce g1]. cbn in Hnonce.
  destruct (aes256gcm_encrypt cipher nonce plaintext aad) as [ct|] eqn:Hct; [|done]. intros [= <- <-].
  exists nonce, ct. split; [|by apply gcm_roundtrip in Hct].
  unfold split_blob. rewrite hex_encode_digits, hex_decode_encode. cbn -[str_take str_drop Nat.ltb].
  pose proof (gcm_tag _ _ _ _ _ Hct). rewrite !string_app_length.
  destruct (Nat.ltb_spec (String.length eph + (String.length nonce + String.length ct)) (n + NONCE_LEN + TAG_LEN));
    [lia|].
  subst n. rewrite str_take_app, str_drop_app, <- str_drop_drop, str_drop_app.
  rewrite <- Hnonce at 1 2. by rewrite str_take_app, str_drop_app.
Qed.

Lemma seal_blob_total why eph cipher plaintext aad g :
  Z.of_nat (String.length plaintext) <= 2 ^ 36 - 32 ->
  exists hex g', seal_blob why eph cipher plaintext aad g = (Ok hex, g').
Proof.
  intros Hlen. unfold seal_blob, draw, lift, mbind, enc_bind.
  destruct (random_bytes NONCE_LEN g) as [nonce g'].
  destruct (gcm_total cipher nonce plaintext aad Hlen) as [ct ->]. cbn. eauto.
Qed.

Lemma public_key_from_hex_uncompressed p : public_key_from_hex (hex_encode (to_uncompressed p)) = Ok p.
Proof.
  destruct (sec1_shape p) as (rest & E & Hl). unfold public_key_from_hex, normalize_secp256k1_public_key_hex.
  rewrite hex_encode_digits, hex_decode_encode. cbn -[uncompressed_coordinates byte].
  rewrite E. cbn -[byte]. rewrite Ascii.eqb_refl, Hl. cbn -[byte].
  rewrite <- E, encoded_point_ok, sec1_roundtrip. cbn. rewrite hex_decode_encode. cbn. by rewrite sec1_roundtrip.
Qed.

Lemma public_key_from_hex_legacy p : public_key_from_hex (hex_encode (str_drop 1 (to_uncompressed p))) = Ok p.
Proof.
  destruct (sec1_shape p) as (rest & E & Hl). unfold public_key_from_hex, normalize_secp256k1_public_key_hex.
  rewrite hex_encode_digits, hex_decode_encode. cbn -[uncompressed_coordinates byte str_drop]. rewrite E.
  cbn [str_drop]. replace (uncompressed_coordinates rest) with (Some rest).
  - cbn -[byte]. rewrite <- E, encoded_point_ok, sec1_roundtrip. cbn. rewrite hex_decode_encode. cbn.
    by rewrite sec1_roundtrip.
  - destruct rest as [|c rest]; [done|]. cbn -[byte Nat.eqb] in *. injection Hl as Hl. rewrite Hl.
    by rewrite andb_false_r.
Qed.

Lemma x25519_public_key_from_hex_encode k :
  x25519_public_key_from_hex (x25519_public_key_hex k) = Ok (x25519_public k).
Proof.
  unfold x25519_public_key_from_hex, normalize_x25519_public_key_hex, x25519_public_key_hex.
  rewrite hex_encode_digits, hex_decode_encode. cbn. unfold exactly_32. rewrite x25519_length. cbn.
  by rewrite hex_decode_encode.
Qed.

Lemma ed25519_public_to_x25519_encode k :
  ed25519_public_to_x25519_public_key (ed25519_public_key_hex k)
  = Ok (x25519_public (ed25519_private_to_x25519_private_key k)).
Proof.
  unfold ed25519_public_to_x25519_public_key, ed25519_public_key_hex.
  rewrite hex_encode_digits, hex_decode_encode. cbn -[ed25519_private_to_x25519_private_key].
  unfold exactly_32. rewrite ed25519_length. cbn -[ed25519_private_to_x25519_private_key].
  by rewrite ed25519_birational.
Qed.

(** Key agreement in a cyclic group, whichever the curve: what the sender seals
    under its ephemeral key the recipient opens. *)
Section Agreement.
Context (P : Type) (pub : P -> string) (rand : Rng -> P * Rng) (n : nat).
Context (kdf : string -> result KeyError string) (sender : P -> string).
Context (open_ : string -> result KeyError string) (why profile what plaintext aad : string).
Context (pub_length : forall e, String.length (pub e) = n) (kdf_total : forall k, exists c, kdf k = Ok c).
Context (opens : forall e hex nonce ct cipher,
  split_blob profile what n hex = Ok (pub e, nonce, ct) -> kdf (sender e) = Ok cipher ->
  aes256gcm_decrypt cipher nonce ct aad = Ok plaintext -> open_ hex = Ok plaintext).

Definition agree_and_seal : Enc string :=
  draw rand ≫= fun e => lift (kdf (sender e)) ≫= fun c => seal_blob why (pub e) c plaintext aad.

Lemma agreement_total g :
  Z.of_nat (String.length plaintext) <= 2 ^ 36 - 32 -> exists hex g', agree_and_seal g = (Ok hex, g').
Proof.
  intros Hlen. unfold agree_and_seal, draw, lift, mbind, enc_bind. destruct (rand g) as [e g1].
  destruct (kdf_total (sender e)) as [c ->]. by apply seal_blob_total.
Qed.

Lemma agreement_opens g hex g' : agree_and_seal g = (Ok hex, g') -> open_ hex = Ok plaintext.
Proof.
  unfold agree_and_seal, draw, lift, mbind, enc_bind. destruct (rand g) as [e g1].
  destruct (kdf (sender e)) as [c|] eqn:Hc; [|done].
  intros (nonce & ct & Hb & Hd)%(split_blob_seal profile what _ n); [by eapply opens|done].
Qed.
End Agreement.

Lemma uncompressed_length p : String.length (to_uncompressed p) = PUBLIC_KEY_LEN.
Proof. destruct (sec1_shape p) as (rest & -> & Hl). cbn. by rewrite Hl. Qed.

Lemma crypto_err_hkdf what shared info : exists c, crypto_err what (hkdf_sha256_32 shared info) = Ok c.
Proof. destruct (hkdf_total shared info) as [k ->]. by exists k. Qed.

Lemma suite_encrypt_spec (s : Suite) plaintext aad g :
  (Z.of_nat (String.length plaintext) <= 2 ^ 36 - 32 ->
   exists ct g', suite_encrypt s (suite_public_key s) plaintext aad g = (Ok ct, g'))
  /\ (forall ct g', suite_encrypt s (suite_public_key s) plaintext aad g = (Ok ct, g') ->
      suite_decrypt s ct aad = Ok plaintext).
Proof.
  destruct s as [k|k|k|k];
    cbn -[encrypt_x25519_for_public_key encrypt_for_public_key encrypt_legacy_for_public_key
          legacy_ecdsa_public_key_from_secret].
  - unfold encrypt_x25519_for_public_key. rewrite x25519_public_key_from_hex_encode.
    split; [apply agreement_total; intros; apply crypto_err_hkdf|].
    intros ct g'. apply (agreement_opens _ x25519_public _ X25519_PUBLIC_KEY_LEN _ _
      (fun ct => decrypt_x25519_with_secret_key k ct aad) _ "X25519 E2EE" "X25519 E2EE"); [apply x25519_length|].
    intros e hex nonce ct' cipher Hb Hc Hd. unfold decrypt_x25519_with_secret_key. rewrite Hb. cbn.
    rewrite x25519_comm, Hc. cbn. by rewrite Hd.
  - unfold encrypt_for_public_key, public_key_from_secret. rewrite public_key_from_hex_uncompressed.
    split; [apply (agreement_total _ (fun e => to_uncompressed (public_key_of e))); intros; apply crypto_err_hkdf|].
    intros ct g'. apply (agreement_opens _ (fun e => to_uncompressed (public_key_of e)) _ PUBLIC_KEY_LEN _ _
      (fun ct => decrypt_with_secret_key k ct aad) _ "E2EE" "E2EE"); [intros; apply uncompressed_length|].
    intros e hex nonce ct' cipher Hb Hc Hd. unfold decrypt_with_secret_key. rewrite Hb. cbn.
    rewrite sec1_roundtrip. cbn. rewrite dh_comm, Hc. cbn. by rewrite Hd.
  - unfold encrypt_legacy_for_public_key, legacy_ecdsa_public_key_from_secret.
    cbn -[str_drop legacy_cipher_from_shared_secret].
    rewrite public_key_from_hex_legacy.
    split; [apply (agreement_total _ (fun e => to_uncompressed (public_key_of e)) _
      (fun x => legacy_cipher_from_shared_secret x E2EE_ALGO_LEGACY_ECDSA)); intros; apply crypto_err_hkdf|].
    intros ct g'. apply (agreement_opens _ (fun e => to_uncompressed (public_key_of e)) _ PUBLIC_KEY_LEN
      (fun x => legacy_cipher_from_shared_secret x E2EE_ALGO_LEGACY_ECDSA) _
      (fun ct => decrypt_legacy_ecdsa_with_secret_key k ct (Some aad)) _ "legacy E2EE" "legacy ECDSA E2EE");
      [intros; apply uncompressed_length|].
    intros e hex nonce ct' cipher Hb Hc Hd. unfold decrypt_legacy_ecdsa_with_secret_key. rewrite Hb.
    cbn -[legacy_cipher_from_shared_secret]. rewrite sec1_roundtrip.
    cbn -[legacy_cipher_from_shared_secret]. rewrite dh_comm, Hc. cbn. by rewrite Hd.
  - unfold encrypt_legacy_for_public_key. cbn -[legacy_cipher_from_shared_secret]. rewrite ed25519_public_to_x25519_encode.
    split; [apply (agreement_total _ x25519_public _
      (fun x => legacy_cipher_from_shared_secret x E2EE_ALGO_LEGACY_ED25519)); intros; apply crypto_err_hkdf|].
    intros ct g'. apply (agreement_opens _ x25519_public _ X25519_PUBLIC_KEY_LEN
      (fun x => legacy_cipher_from_shared_secret x E2EE_ALGO_LEGACY_ED25519) _
      (fun ct => decrypt_legacy_ed25519_with_secret_key k ct (Some aad)) _ "legacy E2EE" "legacy Ed25519 E2EE");
      [apply x25519_length|].
    intros e hex nonce ct' cipher Hb Hc Hd. unfold decrypt_legacy_ed25519_with_secret_key. rewrite Hb.
    cbn -[ed25519_private_to_x25519_private_key legacy_cipher_from_shared_secret]. rewrite x25519_comm, Hc. cbn.
    by rewrite Hd.
Qed.

(** End-to-end encryption round-trips in all four suites: a field can be
    encrypted to the public key the recipient publishes, for every plaintext
    AES-GCM admits, and whatever the sender's random choices the recipient
    decrypts it under the same additional data to that plaintext. *)
Theorem e2ee_roundtrip (s : Suite) plaintext aad g :
  Z.of_nat (String.length plaintext) <= 2 ^ 36 - 32 ->
  exists ct g', suite_encrypt s (suite_public_key s) plaintext aad g = (Ok ct, g')
    /\ suite_decrypt s ct aad = Ok plaintext.
Proof.
  intros Hlen. destruct (suite_encrypt_spec s plaintext aad g) as [Ht Hs].
  destruct (Ht Hlen) as (ct & g' & E). exists ct, g'. split; [done|]. by eapply Hs.
Qed.
End Roundtrip.

(** ** A toy group, for the witnesses *)

Module Toy.

(** The bit of a key, its 32- and 65-byte encodings, agreement by exclusive or. *)
Definition bit (s : string) : bool := match s with String c _ => N.odd (N_of_ascii c) | EmptyString => false end.
Definition enc32 (b : bool) : string := String (if b then "1" else "0") (zeros 31).
Definition enc65 (b : bool) : string := String (byte 4) (String (if b then "1" else "0") (zeros 63)).
Definition agree (a b : bool) : string := if xorb a b then "shared-1" else "shared-0".
Definition clamp (secret : string) : string :=
  update_byte 31 (fun b => N.lor b 64) (update_byte 31 (fun b => N.land b 127)
    (update_byte 0 (fun b => N.land b 248) (str_take 32 secret))).

#[export] Instance libs : CurveLibs := {|
  SecretKey := bool;
  PublicKey := bool;
  secret_from_slice s := Ok (bit s);
  public_key_of b := b;
  from_sec1_bytes s := if String.eqb s (enc65 true) then Ok true else if String.eqb s (enc65 false) then Ok false
                       else Err "not a point";
  to_uncompressed := enc65;
  encoded_point_from_bytes _ := Ok tt;
  diffie_hellman := agree;
  x25519_public s := enc32 (bit s);
  x25519 s p := agree (bit s) (bit p);
  ed25519_verifying_key s := enc32 (bit (clamp s));
  edwards_to_montgomery p := Some p;
  sha512 s := s;
  hkdf_sha256_32 shared info := Ok (shared +:+ info);
  aes256gcm_encrypt key nonce msg aad := Ok (msg +:+ zeros 16);
  aes256gcm_decrypt key nonce ct aad := Ok (str_take (String.length ct - 16) ct);
  Rng := unit;
  random_bytes n g := (zeros n, g);
  random_secret g := (true, g) |}.

#[export] Existing Instance Demo.crypto.
#[export] Existing Instance demo_digest.

Lemma zeros_length n : String.length (zeros n) = n.
Proof. induction n; cbn; congruence. Qed.

Lemma unhex_hex b : Demo.unhex (demo_hex b) = b.
Proof.
  induction b as [|a b IH]; [done|]. cbn -[N.div N.modulo hex_digit Demo.unhex_digit N.mul N.add]. rewrite IH.
  f_equal. by destruct a as [[] [] [] [] [] [] [] []].
Qed.

#[export] Instance hex_laws : HexLaws.
Proof.
  split.
  - intros b. change (Ok (E := string) (Demo.unhex (demo_hex b)) = Ok b). by rewrite unhex_hex.
  - intros [|a b]; [done|]. by destruct a as [[] [] [] [] [] [] [] []].
Qed.

#[export] Instance laws : CurveLaws.
Proof.
  split.
  - apply hex_laws.
  - intros [] []; reflexivity.
  - intros []; reflexivity.
  - intros p. exists (String (if p then "1"%char else "0"%char) (zeros 63)). by destruct p.
  - done.
  - intros a b. cbn. destruct (bit a), (bit b); reflexivity.
  - intros a. cbn. reflexivity.
  - intros a. cbn. reflexivity.
  - done.
  - eauto.
  - eauto.
  - intros key nonce msg aad ct [= <-]. rewrite string_app_length. unfold TAG_LEN. cbn [String.length]. lia.
  - intros key nonce msg aad ct [= <-]. cbn -[str_take String.append Nat.sub]. rewrite string_app_length. cbn [String.length].
    replace (String.length msg + 16 - 16)%nat with (String.length msg) by lia. by rewrite str_take_app.
  - intros n g. apply zeros_length.
Qed.
End Toy.

Import Toy.

Lemma e2ee_roundtrip_witness :
  Z.of_nat (String.length "hello") <= 2 ^ 36 - 32
  /\ exists ct g', suite_encrypt (SuiteSecp256k1 (H := libs) false) (suite_public_key (SuiteSecp256k1 (H := libs) false))
                     "hello" "aad" tt = (Ok ct, g')
     /\ suite_decrypt (SuiteSecp256k1 (H := libs) false) ct "aad" = Ok "hello".
Proof.
  split; [done|]. by apply (e2ee_roundtrip (SuiteSecp256k1 (H := libs) false)).
Defined.
