(* ===== verification/E2eeFields.v ===== *)
(** * Encrypted fields of requests and responses

    Model of [src/aggregator/service/e2ee_crypto.rs] and of the wire types it
    works with ([wire.rs]): which fields of a JSON body are encrypted, and to
    what each ciphertext is bound by its additional authenticated data. *)
From S2P Require Import Prelude StrOps Json Serde Canonical Identity Revocation AciVerifier E2ee.
Import Types.

Definition COMPLETIONS_PATH : string := "/v1/completions".
Definition EMBEDDINGS_PATH : string := "/v1/embeddings".

Inductive E2eeError :=
| HeaderMissing | InvalidSigningAlgo | InvalidVersion | InvalidPublicKey | ModelKeyMismatch | InvalidNonce
| ReplayDetected | InvalidTimestamp | InvalidPayloadModel | DecryptionFailed | EncryptionFailed.

Inductive E2eeAadMode := AciV2 | LegacyV1.

Definition is_aci (m : E2eeAadMode) : bool := match m with AciV2 => true | LegacyV1 => false end.

Inductive E2eeDecryptor := DecryptAciV2 (key_id : string) | DecryptLegacy (signing_algo : string).

Record E2eeRequestContext := {
  ctx_version : string;
  ctx_algo : string;
  aad_mode : E2eeAadMode;
  request_model : string;
  ctx_client_public_key_hex : string;
  ctx_nonce : option string;
  ctx_timestamp : option Z;
}.

Record E2eeFieldCrypto := {
  fc_decryptor : E2eeDecryptor;
  fc_algo : string;
  fc_aad_mode : E2eeAadMode;
  fc_model : string;
  fc_nonce : option string;
  fc_timestamp : option Z;
}.

Record LegacySignature := { ls_signing_algo : string; ls_signing_address : string; ls_signature : string }.

(** The methods of [KeyProvider] around E2EE and the legacy profile. *)
Class E2eeKeys : Type := {
  e2ee_keys : list KeyedPublicKey;
  decrypt_e2ee : string -> string -> string -> result KeyError string;
  decrypt_legacy_e2ee : string -> string -> option string -> result KeyError string;
  tls_spkis : list TlsSpki;
  sign_legacy_message : string -> string -> result KeyError LegacySignature;
  key_custody_evidence : Value;
  is_test_only : bool;
}.

Definition validate_aci_e2ee_nonce (nonce : string) : result E2eeError unit :=
  if Nat.eqb (String.length nonce) 64 && string_forallb is_ascii_hexdigit nonce then Ok tt else Err InvalidNonce.

Definition validate_aci_payload_model (payload : Value) : result E2eeError string :=
  ok_or (get payload "model" ≫= as_str) InvalidPayloadModel.

(** ** Additional authenticated data *)

Definition request_aad_value (algo model field nonce : string) (timestamp : Z) : Value :=
  {{ "purpose" ≔ Str "aci.e2ee.request.v2"; "algo" ≔ Str algo; "model" ≔ Str model; "field" ≔ Str field;
     "nonce" ≔ Str nonce; "ts" ≔ from_u64 timestamp }}.

Definition aci_request_aad (algo model field nonce : string) (timestamp : Z) : result E2eeError string :=
  map_err (fun _ => DecryptionFailed) (canonicalize (request_aad_value algo model field nonce timestamp)).

Definition response_aad_value (algo model response_id field nonce : string) (timestamp : Z) : Value :=
  {{ "purpose" ≔ Str "aci.e2ee.response.v2"; "algo" ≔ Str algo; "model" ≔ Str model; "id" ≔ Str response_id;
     "field" ≔ Str field; "nonce" ≔ Str nonce; "ts" ≔ from_u64 timestamp }}.

Definition aci_response_aad (algo model response_id field nonce : string) (timestamp : Z) : result E2eeError string :=
  map_err (fun _ => EncryptionFailed) (canonicalize (response_aad_value algo model response_id field nonce timestamp)).

Definition nonce_ts (crypto : E2eeFieldCrypto) : result E2eeError (string * Z) :=
  nonce ← ok_or (fc_nonce crypto) DecryptionFailed;
  timestamp ← ok_or (fc_timestamp crypto) DecryptionFailed;
  Ok (nonce, timestamp).

Definition response_nonce_ts (ctx : E2eeRequestContext) : result E2eeError (string * Z) :=
  nonce ← ok_or (ctx_nonce ctx) EncryptionFailed;
  timestamp ← ok_or (ctx_timestamp ctx) EncryptionFailed;
  Ok (nonce, timestamp).

Definition request_field_aad (crypto : E2eeFieldCrypto) (field : string) : result E2eeError (option string) :=
  match fc_aad_mode crypto with
  | AciV2 =>
      nonce_ts crypto ≫= fun '(nonce, timestamp) =>
      Some <$> aci_request_aad (fc_algo crypto) (fc_model crypto) field nonce timestamp
  | LegacyV1 => Ok None
  end.

Definition response_aad_for_context (ctx : E2eeRequestContext) (response_id aci_field : string) :
    result E2eeError (option string) :=
  match aad_mode ctx with
  | AciV2 =>
      response_nonce_ts ctx ≫= fun '(nonce, timestamp) =>
      Some <$> aci_response_aad (ctx_algo ctx) (request_model ctx) response_id aci_field nonce timestamp
  | LegacyV1 => Ok None
  end.

Definition embedding_response_aad_for_context (ctx : E2eeRequestContext) (response_id : string) (data_index : Z) :
    result E2eeError (option string) :=
  match aad_mode ctx with
  | AciV2 =>
      response_nonce_ts ctx ≫= fun '(nonce, timestamp) =>
      let field := "data." +:+ z_to_string data_index +:+ ".embedding" in
      Some <$> aci_response_aad (ctx_algo ctx) (request_model ctx) response_id field nonce timestamp
  | LegacyV1 => Ok None
  end.

(** ** Requests *)

Section Decrypt.
Context `{Digest} `{Crypto} `{CurveLibs} `{SerdeJson} `{E2eeKeys}.

Definition normalize_ed25519_public_key_hex (value : string) : result E2eeError string :=
  bytes ← map_err (fun _ => InvalidPublicKey) (hex_decode (strip_0x value));
  if Nat.eqb (String.length bytes) 32 then Ok (hex_encode bytes) else Err InvalidPublicKey.

Definition same_normalized {E} (normalize : string -> result E string) (expected_hex supplied_hex : string) : bool :=
  match normalize expected_hex, normalize supplied_hex with
  | Ok expected, Ok supplied => String.eqb supplied expected
  | _, _ => false
  end.

Definition legacy_public_keys_match (signing_algo expected_hex supplied_hex : string) : bool :=
  if String.eqb signing_algo E2EE_ALGO_LEGACY_ECDSA then
    same_normalized normalize_secp256k1_public_key_hex expected_hex supplied_hex
  else if String.eqb signing_algo E2EE_ALGO_LEGACY_ED25519 then
    same_normalized normalize_ed25519_public_key_hex expected_hex supplied_hex
  else false.

Definition normalize_legacy_public_key_for_replay (signing_algo value : string) : result E2eeError string :=
  if String.eqb signing_algo E2EE_ALGO_LEGACY_ECDSA then
    map_err (fun _ => InvalidPublicKey) (normalize_secp256k1_public_key_hex value)
  else if String.eqb signing_algo E2EE_ALGO_LEGACY_ED25519 then normalize_ed25519_public_key_hex value
  else Err InvalidSigningAlgo.

Definition decrypt_e2ee_field (crypto : E2eeFieldCrypto) (ciphertext_hex : string) (aad : option string) :
    result E2eeError string :=
  match fc_decryptor crypto with
  | DecryptAciV2 key_id =>
      aad ← ok_or aad DecryptionFailed;
      map_err (fun _ => DecryptionFailed) (decrypt_e2ee key_id ciphertext_hex aad)
  | DecryptLegacy signing_algo =>
      map_err (fun _ => DecryptionFailed) (decrypt_legacy_e2ee signing_algo ciphertext_hex aad)
  end.

(** The decrypted text of the ciphertext at [field]. *)
Definition decrypt_text (crypto : E2eeFieldCrypto) (field ciphertext_hex : string) : result E2eeError string :=
  aad ← request_field_aad crypto field;
  plaintext ← decrypt_e2ee_field crypto ciphertext_hex aad;
  if valid_utf8b plaintext then Ok plaintext else Err DecryptionFailed.

(** The strings of an array, each at [name] and its index; how many there are. *)
Fixpoint decrypt_items (crypto : E2eeFieldCrypto) (name : string) (index : nat) (items : list Value) :
    result E2eeError (list Value * nat) :=
  match items with
  | [] => Ok ([], O)
  | Str ciphertext_hex :: items =>
      plaintext ← decrypt_text crypto (name +:+ "." +:+ nat_to_string index) ciphertext_hex;
      decrypt_items crypto name (S index) items ≫= fun '(rest, count) =>
      Ok (Str plaintext :: rest, S count)
  | item :: items =>
      decrypt_items crypto name (S index) items ≫= fun '(rest, count) => Ok (item :: rest, count)
  end.

(** A member that is one text or an array of texts. *)
Definition decrypt_member (crypto : E2eeFieldCrypto) (name : string) (payload : Value) : result E2eeError Value :=
  match payload with
  | Obj m =>
      match map_get name m with
      | None => Err DecryptionFailed
      | Some (Str ciphertext_hex) =>
          plaintext ← decrypt_text crypto name ciphertext_hex;
          Ok (Obj (map_insert name (Str plaintext) m))
      | Some (Arr items) =>
          decrypt_items crypto name 0 items ≫= fun '(items, count) =>
          if Nat.eqb count 0 then Err DecryptionFailed else Ok (Obj (map_insert name (Arr items) m))
      | Some _ => Err DecryptionFailed
      end
  | _ => Err DecryptionFailed
  end.

Definition decrypt_completion_prompt (crypto : E2eeFieldCrypto) : Value -> result E2eeError Value :=
  decrypt_member crypto "prompt".

Definition decrypt_embedding_input (crypto : E2eeFieldCrypto) : Value -> result E2eeError Value :=
  decrypt_member crypto "input".

Definition decrypted_chat_content_value (plaintext : string) : Value :=
  match from_slice plaintext with
  | Ok (Arr items) => Arr items
  | _ => Str plaintext
  end.

Definition decrypt_content_part_field (crypto : E2eeFieldCrypto) (part : list (string * Value)) (key field : string) :
    result E2eeError (list (string * Value) * nat) :=
  match map_get key part with
  | Some (Str ciphertext_hex) =>
      plaintext ← decrypt_text crypto field ciphertext_hex;
      Ok (map_insert key (Str plaintext) part, 1%nat)
  | _ => Ok (part, O)
  end.

Definition decrypt_content_part_nested (crypto : E2eeFieldCrypto) (part : list (string * Value))
    (wrapper_key inner_key field : string) : result E2eeError (list (string * Value) * nat) :=
  match map_get wrapper_key part with
  | Some (Obj wrapper) =>
      match map_get inner_key wrapper with
      | Some (Str ciphertext_hex) =>
          plaintext ← decrypt_text crypto field ciphertext_hex;
          Ok (map_insert wrapper_key (Obj (map_insert inner_key (Str plaintext) wrapper)) part, 1%nat)
      | _ => Ok (part, O)
      end
  | _ => Ok (part, O)
  end.

Definition content_path (message_index content_index : nat) (rest : string) : string :=
  "messages." +:+ nat_to_string message_index +:+ ".content." +:+ nat_to_string content_index +:+ rest.

Definition has_type (part : list (string * Value)) (ty : string) : bool :=
  match map_get "type" part with Some (Str t) => String.eqb t ty | _ => false end.

Definition decrypt_content_part (crypto : E2eeFieldCrypto) (message_index content_index : nat)
    (part : list (string * Value)) : result E2eeError (list (string * Value) * nat) :=
  if has_type part "text" then
    decrypt_content_part_field crypto part "text" (content_path message_index content_index ".text")
  else if has_type part "image_url" && is_aci (fc_aad_mode crypto) then
    decrypt_content_part_nested crypto part "image_url" "url" (content_path message_index content_index ".image_url.url")
  else if has_type part "input_audio" && is_aci (fc_aad_mode crypto) then
    decrypt_content_part_nested crypto part "input_audio" "data" (content_path message_index content_index ".input_audio.data")
  else Ok (part, O).

Fixpoint decrypt_parts (crypto : E2eeFieldCrypto) (message_index content_index : nat) (items : list Value) :
    result E2eeError (list Value * nat) :=
  match items with
  | [] => Ok ([], O)
  | Obj part :: items =>
      decrypt_content_part crypto message_index content_index part ≫= fun '(part, n) =>
      decrypt_parts crypto message_index (S content_index) items ≫= fun '(rest, count) =>
      Ok (Obj part :: rest, (n + count)%nat)
  | item :: items =>
      decrypt_parts crypto message_index (S content_index) items ≫= fun '(rest, count) => Ok (item :: rest, count)
  end.

Definition decrypt_content_value (crypto : E2eeFieldCrypto) (message_index : nat) (content : Value) :
    result E2eeError (Value * nat) :=
  match content with
  | Str ciphertext_hex =>
      plaintext ← decrypt_text crypto ("messages." +:+ nat_to_string message_index +:+ ".content") ciphertext_hex;
      Ok (decrypted_chat_content_value plaintext, 1%nat)
  | Arr items =>
      decrypt_parts crypto message_index 0 items ≫= fun '(items, count) => Ok (Arr items, count)
  | _ => Ok (content, O)
  end.

Fixpoint decrypt_messages (crypto : E2eeFieldCrypto) (message_index : nat) (messages : list Value) :
    result E2eeError (list Value * nat) :=
  match messages with
  | [] => Ok ([], O)
  | message :: messages =>
      (match message with
       | Obj m =>
           match map_get "content" m with
           | Some content =>
               decrypt_content_value crypto message_index content ≫= fun '(content, n) =>
               Ok (Obj (map_insert "content" content m), n)
           | None => Ok (message, O)
           end
       | _ => Ok (message, O)
       end) ≫= fun '(message, n) =>
      decrypt_messages crypto (S message_index) messages ≫= fun '(rest, count) => Ok (message :: rest, (n + count)%nat)
  end.

Definition decrypt_request_payload (crypto : E2eeFieldCrypto) (endpoint_path : string) (payload : Value) :
    result E2eeError Value :=
  if String.eqb endpoint_path COMPLETIONS_PATH then decrypt_completion_prompt crypto payload
  else if String.eqb endpoint_path EMBEDDINGS_PATH then decrypt_embedding_input crypto payload
  else match payload with
       | Obj m =>
           match map_get "messages" m with
           | Some (Arr messages) =>
               decrypt_messages crypto 0 messages ≫= fun '(messages, count) =>
               if Nat.eqb count 0 then Err DecryptionFailed else Ok (Obj (map_insert "messages" (Arr messages) m))
           | _ => Err DecryptionFailed
           end
       | _ => Err DecryptionFailed
       end.
End Decrypt.

(** ** Responses *)

Definition as_u64 (v : Value) : option Z := match v with Num n => num_as_u64 n | _ => None end.

Section Encrypt.
Context `{Digest} `{Crypto} `{CurveLibs} `{SerdeJson}.

Definition EncE (A : Type) : Type := Rng -> result E2eeError A * Rng.

#[export] Instance ence_ret : MRet EncE := fun A a g => (Ok a, g).
#[export] Instance ence_bind : MBind EncE := fun A B f m g =>
  match m g with
  | (Ok a, g') => f a g'
  | (Err e, g') => (Err e, g')
  end.
Definition lift_e {A} (r : result E2eeError A) : EncE A := fun g => (r, g).
Definition map_enc {A} (e : E2eeError) (m : Enc A) : EncE A := fun g =>
  let '(r, g') := m g in (map_err (fun _ => e) r, g').

Definition encrypt_response_plaintext (ctx : E2eeRequestContext) (plaintext : string) (aad : option string) :
    EncE string :=
  match aad_mode ctx with
  | AciV2 =>
      aad ← lift_e (ok_or aad EncryptionFailed);
      map_enc EncryptionFailed
        (encrypt_aci_e2ee_for_public_key (ctx_algo ctx) (ctx_client_public_key_hex ctx) plaintext aad)
  | LegacyV1 =>
      map_enc EncryptionFailed
        (encrypt_legacy_for_public_key (ctx_algo ctx) (ctx_client_public_key_hex ctx) plaintext aad)
  end.

Definition encrypt_response_field (container : list (string * Value)) (field_name aci_field : string)
    (ctx : E2eeRequestContext) (response_id : string) : EncE (list (string * Value)) :=
  match map_get field_name container with
  | Some (Str plaintext) =>
      aad ← lift_e (response_aad_for_context ctx response_id aci_field);
      ciphertext ← encrypt_response_plaintext ctx plaintext aad;
      mret (map_insert field_name (Str ciphertext) container)
  | _ => mret container
  end.

Definition choice_path (choice_index : Z) (rest : string) : string :=
  "choices." +:+ z_to_string choice_index +:+ rest.

Definition encrypt_message_audio_data (message : list (string * Value)) (ctx : E2eeRequestContext)
    (response_id : string) (choice_index : Z) : EncE (list (string * Value)) :=
  match map_get "audio" message with
  | Some (Obj audio) =>
      match map_get "data" audio with
      | Some (Str plaintext) =>
          nt ← lift_e (response_nonce_ts ctx);
          aad ← lift_e (aci_response_aad (ctx_algo ctx) (request_model ctx) response_id
                          (choice_path choice_index ".message.audio.data") nt.1 nt.2);
          ciphertext ← encrypt_response_plaintext ctx plaintext (Some aad);
          mret (map_insert "audio" (Obj (map_insert "data" (Str ciphertext) audio)) message)
      | _ => mret message
      end
  | _ => mret message
  end.

(** The index a choice or an entry declares, or its position. *)
Definition declared_index (v : Value) (position : nat) : Z :=
  match get v "index" ≫= as_u64 with Some i => i | None => Z.of_nat position end.

Definition encrypt_choice (ctx : E2eeRequestContext) (endpoint_path response_id : string) (position : nat)
    (value : Value) : EncE Value :=
  let choice_index := declared_index value position in
  match value with
  | Obj choice =>
      if String.eqb endpoint_path COMPLETIONS_PATH then
        choice ← encrypt_response_field choice "text" (choice_path choice_index ".text") ctx response_id;
        mret (Obj choice)
      else
        match map_get "message" choice with
        | Some (Obj message) =>
            message ← encrypt_response_field message "content"
                        (choice_path choice_index ".message.content") ctx response_id;
            message ← encrypt_response_field message "reasoning_content"
                        (choice_path choice_index ".message.reasoning_content") ctx response_id;
            message ← (if is_aci (aad_mode ctx) then encrypt_message_audio_data message ctx response_id choice_index
                       else mret message);
            mret (Obj (map_insert "message" (Obj message) choice))
        | _ => mret value
        end
  | _ => mret value
  end.

Definition encrypt_stream_choice (ctx : E2eeRequestContext) (endpoint_path response_id : string) (position : nat)
    (value : Value) : EncE Value :=
  let choice_index := declared_index value position in
  match value with
  | Obj choice =>
      if String.eqb endpoint_path COMPLETIONS_PATH then
        choice ← encrypt_response_field choice "text" (choice_path choice_index ".text") ctx response_id;
        mret (Obj choice)
      else
        match map_get "delta" choice with
        | Some (Obj delta) =>
            let delta := match map_get "content" delta with
                         | Some (Str c) => if String.eqb c "" then map_remove "content" delta else delta
                         | _ => delta
                         end in
            delta ← encrypt_response_field delta "content"
                      (choice_path choice_index ".delta.content") ctx response_id;
            delta ← encrypt_response_field delta "reasoning_content"
                      (choice_path choice_index ".delta.reasoning_content") ctx response_id;
            mret (Obj (map_insert "delta" (Obj delta) choice))
        | _ => mret value
        end
  | _ => mret value
  end.

Definition encrypt_embedding (ctx : E2eeRequestContext) (response_id : string) (position : nat) (item : Value) :
    EncE Value :=
  let data_index := declared_index item position in
  match item with
  | Obj entry =>
      match map_get "embedding" entry with
      | Some embedding =>
          plaintext ← lift_e (map_err (fun _ => EncryptionFailed) (to_vec embedding));
          aad ← lift_e (embedding_response_aad_for_context ctx response_id data_index);
          ciphertext_hex ← encrypt_response_plaintext ctx plaintext aad;
          mret (Obj (map_insert "embedding" (Str ciphertext_hex) entry))
      | None => mret item
      end
  | _ => mret item
  end.

(** The loop over an array, with positions. *)
Fixpoint encrypt_each (f : nat -> Value -> EncE Value) (position : nat) (items : list Value) : EncE (list Value) :=
  match items with
  | [] => mret []
  | item :: items =>
      item ← f position item;
      rest ← encrypt_each f (S position) items;
      mret (item :: rest)
  end.

(** The array member [key] of the payload, when it is one. *)
Definition encrypt_array (key : string) (f : nat -> Value -> EncE Value) (payload : Value) : EncE Value :=
  match payload with
  | Obj m =>
      match map_get key m with
      | Some (Arr items) =>
          items ← encrypt_each f 0 items;
          mret (Obj (map_insert key (Arr items) m))
      | _ => mret payload
      end
  | _ => mret payload
  end.

Definition response_id_of (payload : Value) : string :=
  match get payload "id" ≫= as_str with Some id => id | None => "" end.

Definition encrypt_embedding_data (payload : Value) (ctx : E2eeRequestContext) (response_id : string) : EncE Value :=
  encrypt_array "data" (encrypt_embedding ctx response_id) payload.

(** The payload of [encrypt_e2ee_response_body], between parsing and printing. *)
Definition encrypt_response_payload (payload : Value) (ctx : E2eeRequestContext) (endpoint_path : string) : EncE Value :=
  let response_id := response_id_of payload in
  if String.eqb endpoint_path EMBEDDINGS_PATH then encrypt_embedding_data payload ctx response_id
  else encrypt_array "choices" (encrypt_choice ctx endpoint_path response_id) payload.

Definition encrypt_e2ee_response_body (cleartext_body : string) (ctx : E2eeRequestContext) (endpoint_path : string) :
    EncE string :=
  payload ← lift_e (map_err (fun _ => EncryptionFailed) (from_slice cleartext_body));
  payload ← encrypt_response_payload payload ctx endpoint_path;
  lift_e (map_err (fun _ => EncryptionFailed) (to_vec payload)).

Definition encrypt_e2ee_stream_payload (cleartext_payload : string) (ctx : E2eeRequestContext)
    (endpoint_path : string) : EncE string :=
  if String.eqb endpoint_path EMBEDDINGS_PATH then lift_e (Err EncryptionFailed)
  else
    payload ← lift_e (map_err (fun _ => EncryptionFailed) (from_slice cleartext_payload));
    payload ← encrypt_array "choices" (encrypt_stream_choice ctx endpoint_path (response_id_of payload)) payload;
    lift_e (map_err (fun _ => EncryptionFailed) (to_vec payload)).
End Encrypt.

Definition is_sse_content_type (content_type : option string) : bool :=
  match content_type with
  | Some value =>
      eq_ignore_ascii_case (str_trim (take_while (fun c => negb (Ascii.eqb c ";")) value)) "text/event-stream"
  | None => false
  end.

(** ** What a ciphertext is bound to *)

(** The contexts the additional data are built from. *)
Inductive AadContext :=
| RequestAad (algo model field nonce : string) (timestamp : Z)
| ResponseAad (algo model response_id field nonce : string) (timestamp : Z).

Definition aad_value (c : AadContext) : Value :=
  match c with
  | RequestAad algo model field nonce ts => request_aad_value algo model field nonce ts
  | ResponseAad algo model rid field nonce ts => response_aad_value algo model rid field nonce ts
  end.

Definition aad_bytes (c : AadContext) : result E2eeError string :=
  match c with
  | RequestAad algo model field nonce ts => aci_request_aad algo model field nonce ts
  | ResponseAad algo model rid field nonce ts => aci_response_aad algo model rid field nonce ts
  end.

Definition aad_wf (c : AadContext) : Prop :=
  match c with
  | RequestAad algo model field nonce ts =>
      valid_utf8 algo /\ valid_utf8 model /\ valid_utf8 field /\ valid_utf8 nonce /\ is_u64 ts
  | ResponseAad algo model rid field nonce ts =>
      valid_utf8 algo /\ valid_utf8 model /\ valid_utf8 rid /\ valid_utf8 field /\ valid_utf8 nonce /\ is_u64 ts
  end.

Lemma aad_value_wf c : aad_wf c -> wf_value (aad_value c).
Proof.
  destruct c; cbn [aad_wf aad_value]; intros; destruct_and?; wf_obj; try done; by apply valid_utf8b_sound.
Qed.

Lemma aad_value_inj c c' : value_eqb (aad_value c) (aad_value c') = true -> c = c'.
Proof.
  destruct c, c'; unfold aad_value, request_aad_value, response_aad_value; intros E; try done;
    obj_eqb E; repeat match goal with Hv : value_eqb (Str _) (Str _) = true |- _ => apply Str_eqb in Hv end;
    by match goal with Hv : value_eqb (from_u64 _) _ = true |- _ => apply from_u64_eqb in Hv end; subst.
Qed.

#[export] Instance aad_canonical : Canonical AadContext.
Proof.
  refine {| to_canonical_value := aad_value; canon_wf := aad_wf |}.
  - apply aad_value_wf.
  - intros [] _; reflexivity.
  - apply aad_value_inj.
Defined.

Lemma aad_bytes_canonical c : ok (aad_bytes c) = ok (canonicalize (aad_value c)).
Proof. destruct c; cbn [aad_bytes aad_value]; unfold aci_request_aad, aci_response_aad; by destruct (canonicalize _). Qed.

(** The additional data of an encrypted field determine everything the field
    is bound to: the direction, the suite, the model, the field path, the
    request's nonce and timestamp and, in a response, its id.  So a ciphertext
    cannot be moved to another field, request or response, nor turned from a
    request into a response; and the data can always be built. *)
Theorem e2ee_aad_binds c c' :
  aad_wf c -> aad_wf c' ->
  (exists b, aad_bytes c = Ok b) /\ (ok (aad_bytes c) = ok (aad_bytes c') -> c = c').
Proof.
  intros Hw Hw'. destruct (canonical_total (CA := aad_canonical) c Hw) as [b Hb].
  change (canonicalize (aad_value c) = Ok b) in Hb.
  destruct (canonical_total (CA := aad_canonical) c' Hw') as [b' Hb'].
  change (canonicalize (aad_value c') = Ok b') in Hb'. split.
  - exists b. pose proof (aad_bytes_canonical c) as E. rewrite Hb in E. destruct (aad_bytes c); by simplify_eq/=.
  - rewrite !aad_bytes_canonical, Hb, Hb'. intros [= <-]. by apply (canonical_inj (CA := aad_canonical) c c' b).
Qed.

Lemma e2ee_aad_binds_witness :
  aad_wf (RequestAad "a" "m" "f" "n" 1) /\ aad_wf (ResponseAad "a" "m" "i" "f" "n" 1)
  /\ ok (aad_bytes (RequestAad "a" "m" "f" "n" 1)) <> ok (aad_bytes (ResponseAad "a" "m" "i" "f" "n" 1)).
Proof.
  assert (H1 : aad_wf (RequestAad "a" "m" "f" "n" 1)).
  { cbn. split_and!; try (by apply valid_utf8b_sound); unfold is_u64, u64_max; lia. }
  assert (H2 : aad_wf (ResponseAad "a" "m" "i" "f" "n" 1)).
  { cbn. split_and!; try (by apply valid_utf8b_sound); unfold is_u64, u64_max; lia. }
  split; [exact H1|]. split; [exact H2|]. intros E.
  discriminate (proj2 (e2ee_aad_binds _ _ H1 H2) E).
Defined.

(** ** Encrypted responses can be read by the client *)

(** Decryption on the client's side: [dec field ciphertext] is its view of one
    field; [open_*] put the plaintexts back in place. *)
Section Open.
Context (dec : string -> string -> option string).

Definition open_field (key field : string) (m : list (string * Value)) : list (string * Value) :=
  match map_get key m with
  | Some (Str c) => match dec field c with Some p => map_insert key (Str p) m | None => m end
  | _ => m
  end.

Definition open_audio (choice_index : Z) (message : list (string * Value)) : list (string * Value) :=
  match map_get "audio" message with
  | Some (Obj audio) =>
      map_insert "audio" (Obj (open_field "data" (choice_path choice_index ".message.audio.data") audio)) message
  | _ => message
  end.

Definition open_choice (mode : E2eeAadMode) (endpoint_path : string) (position : nat) (value : Value) : Value :=
  let choice_index := declared_index value position in
  match value with
  | Obj choice =>
      if String.eqb endpoint_path COMPLETIONS_PATH then
        Obj (open_field "text" (choice_path choice_index ".text") choice)
      else
        match map_get "message" choice with
        | Some (Obj message) =>
            let message := if is_aci mode then open_audio choice_index message else message in
            let message := open_field "reasoning_content" (choice_path choice_index ".message.reasoning_content") message in
            let message := open_field "content" (choice_path choice_index ".message.content") message in
            Obj (map_insert "message" (Obj message) choice)
        | _ => value
        end
  | _ => value
  end.

Fixpoint open_each (f : nat -> Value -> Value) (position : nat) (items : list Value) : list Value :=
  match items with [] => [] | v :: items => f position v :: open_each f (S position) items end.

Definition open_response (mode : E2eeAadMode) (endpoint_path : string) (payload : Value) : Value :=
  match payload with
  | Obj m =>
      match map_get "choices" m with
      | Some (Arr items) => Obj (map_insert "choices" (Arr (open_each (open_choice mode endpoint_path) 0 items)) m)
      | _ => payload
      end
  | _ => payload
  end.
End Open.

Lemma map_insert_same {A} k (v : A) m : map_get k m = Some v -> map_insert k v m = m.
Proof.
  induction m as [|[k' v'] m IH]; cbn; [done|]. destruct (String.eqb_spec k k') as [->|].
  - by intros [= ->].
  - intros ?%IH. by f_equal.
Qed.

Lemma map_insert_twice {A} k (v v' : A) m : map_insert k v (map_insert k v' m) = map_insert k v m.
Proof.
  induction m as [|[k0 v0] m IH]; cbn; [by rewrite String.eqb_refl|].
  destruct (String.eqb k k0) eqn:E; cbn; rewrite E; [done|]. by rewrite IH.
Qed.

(** The client of a context: it holds the secret of the key it sent. *)
Definition client_of `{Digest} `{Crypto} `{CurveLibs} (s : Suite) (ctx : E2eeRequestContext) : Prop :=
  ctx_client_public_key_hex ctx = suite_public_key s /\
  match s with
  | SuiteX25519 _ => ctx_algo ctx = E2EE_ALGO_X25519_AESGCM /\ aad_mode ctx = AciV2
  | SuiteSecp256k1 _ => ctx_algo ctx = E2EE_ALGO_SECP256K1_AESGCM /\ aad_mode ctx = AciV2
  | SuiteLegacyEcdsa _ => ctx_algo ctx = E2EE_ALGO_LEGACY_ECDSA /\ aad_mode ctx = LegacyV1
  | SuiteLegacyEd25519 _ => ctx_algo ctx = E2EE_ALGO_LEGACY_ED25519 /\ aad_mode ctx = LegacyV1
  end.

(** What the client computes for a field of the response [response_id]. *)
Definition client_dec `{Digest} `{Crypto} `{CurveLibs} (s : Suite) (ctx : E2eeRequestContext) (response_id : string)
    (field ciphertext : string) : option string :=
  match response_aad_for_context ctx response_id field with
  | Ok aad => ok (suite_decrypt s ciphertext (aad_or_empty aad))
  | Err _ => None
  end.

(** The generated-content fields of a buffered response, as [spec/aci.md] lists them
    (7.2, "Response locations"): the array and the members of its entries.  The
    legacy profile has no audio; other endpoints are not in the table. *)
Definition content_locations (mode : E2eeAadMode) (endpoint_path : string) : option (string * list (list string)) :=
  if String.eqb endpoint_path "/v1/chat/completions" then
    Some ("choices", [["message"; "content"]; ["message"; "reasoning_content"]]
                     ++ (if is_aci mode then [["message"; "audio"; "data"]] else []))
  else if String.eqb endpoint_path "/v1/completions" then Some ("choices", [["text"]])
  else if String.eqb endpoint_path "/v1/embeddings" then Some ("data", [["embedding"]])
  else None.

Fixpoint member (path : list string) (v : Value) : option Value :=
  match path with [] => Some v | k :: path => get v k ≫= member path end.

(** The field path of 7.2: array, index and members joined with dots. *)
Definition field_path (array : string) (index : Z) (path : list string) : string :=
  array +:+ "." +:+ z_to_string index +:+ fold_right (fun k rest => "." +:+ k +:+ rest) "" path.

(** What is encrypted for a content value: the text of a string, and an embedding
    serialized. *)
Definition content_text `{SerdeJson} (endpoint_path : string) (v : Value) : option string :=
  if String.eqb endpoint_path "/v1/embeddings" then ok (to_vec v) else as_str v.

Section Readable.
Context `{CurveLaws} `{SerdeJson} (s : Suite) (ctx : E2eeRequestContext) (Hs : client_of s ctx).
Context (rid : string).

(** A ciphertext of [text] made for [field] of this response, which the client can
    read. *)
Definition sealed_as (field ciphertext text : string) : Prop :=
  (exists aad g g', response_aad_for_context ctx rid field = Ok aad
     /\ encrypt_response_plaintext ctx text aad g = (Ok ciphertext, g'))
  /\ client_dec s ctx rid field ciphertext = Some text.

Lemma ence_bind_Ok {A B} (m : EncE A) (f : A -> EncE B) g b g' :
  (m ≫= f) g = (Ok b, g') -> exists a g1, m g = (Ok a, g1) /\ f a g1 = (Ok b, g').
Proof.
  unfold mbind, ence_bind. destruct (m g) as [[a|e] g1]; [eauto|done].
Qed.

Lemma lift_e_Ok {A} (r : result E2eeError A) g a g' : lift_e r g = (Ok a, g') -> r = Ok a /\ g' = g.
Proof. unfold lift_e. by intros [= -> ->]. Qed.

Lemma encrypt_plain_opens field p aad g c g' :
  response_aad_for_context ctx rid field = Ok aad -> encrypt_response_plaintext ctx p aad g = (Ok c, g') ->
  client_dec s ctx rid field c = Some p.
Proof.
  intros Ha He. unfold client_dec. rewrite Ha.
  cut (exists g1 g2, suite_encrypt s (suite_public_key s) p (aad_or_empty aad) g1 = (Ok c, g2)).
  { intros (g1 & g2 & E). by rewrite (proj2 (suite_encrypt_spec s p _ g1) _ _ E). }
  destruct Hs as [Hpk Hsuite]. unfold encrypt_response_plaintext in He. unfold response_aad_for_context in Ha.
  assert (Haci : aad_mode ctx = AciV2 -> exists a, aad = Some a).
  { intros E. rewrite E in Ha. apply result_bind_Ok in Ha as ([n t] & _ & Ha).
    destruct (aci_response_aad _ _ _ _ _ _); simplify_eq/=. eauto. }
  assert (Henc : forall (m : Enc string), map_enc EncryptionFailed m g = (Ok c, g') -> m g = (Ok c, g')).
  { intros m. unfold map_enc. destruct (m g) as [[]]; cbn; by intros; simplify_eq. }
  destruct s as [k|k|k|k]; destruct Hsuite as [Halgo Hmode]; rewrite Hmode, Halgo, Hpk in *.
  1,2: destruct (Haci eq_refl) as [a ->]; apply ence_bind_Ok in He as (a' & g1 & [[= ->] ->]%lift_e_Ok & He);
    apply Henc in He; exists g, g'; exact He.
  1,2: apply Henc in He; exists g, g'; cbn -[encrypt_legacy_for_public_key]; unfold encrypt_legacy_for_public_key in *;
    cbn in *; by injection Ha as <-.
Qed.

Record field_done (k field : string) (m m' : list (string * Value)) : Prop := {
  fd_open : open_field (client_dec s ctx rid) k field m' = m;
  fd_sealed t : map_get k m = Some (Str t) -> exists c, map_get k m' = Some (Str c) /\ sealed_as field c t;
  fd_other k' : k' <> k -> map_get k' m' = map_get k' m;
}.

Lemma encrypt_field_done m k field g m' g' :
  encrypt_response_field m k field ctx rid g = (Ok m', g') -> field_done k field m m'.
Proof.
  unfold encrypt_response_field.
  destruct (map_get k m) as [[| | |p| |]|] eqn:E;
    try (intros [= <- <-]; split; unfold open_field; rewrite ?E; done).
  intros (aad & g1 & [Ha ->]%lift_e_Ok & (c & g2 & Hc & [= <- <-])%ence_bind_Ok)%ence_bind_Ok.
  assert (Hget : map_get k (map_insert k (Str c) m) = Some (Str c)) by by rewrite map_get_insert, String.eqb_refl.
  split.
  - unfold open_field. rewrite Hget, (encrypt_plain_opens _ _ _ _ _ _ Ha Hc), map_insert_twice.
    by apply map_insert_same.
  - intros t. rewrite E. intros [= <-]. exists c. split; [done|]. split; [by exists aad, g, g2|]. by eapply encrypt_plain_opens.
  - intros k' Hk'. rewrite map_get_insert. by destruct (String.eqb_spec k' k).
Qed.

Lemma encrypt_audio_done m i g m' g' :
  aad_mode ctx = AciV2 -> encrypt_message_audio_data m ctx rid i g = (Ok m', g') ->
  open_audio (client_dec s ctx rid) i m' = m
  /\ (forall t, member ["audio"; "data"] (Obj m) = Some (Str t) -> exists c, member ["audio"; "data"] (Obj m') = Some (Str c)
        /\ sealed_as (choice_path i ".message.audio.data") c t)
  /\ forall k', k' <> "audio" -> map_get k' m' = map_get k' m.
Proof.
  intros Hmode. unfold encrypt_message_audio_data. cbn [member get].
  destruct (map_get "audio" m) as [[| | | | |audio]|] eqn:E;
    try (intros [= <- <-]; unfold open_audio; rewrite ?E; done).
  destruct (map_get "data" audio) as [[| | |p| |]|] eqn:Ed;
    try (intros [= <- <-]; unfold open_audio; rewrite E; cbn; rewrite Ed; split; [|split; [|done]]; [|done];
         unfold open_field; rewrite Ed; by apply map_insert_same).
  intros (nt & g1 & [Hn ->]%lift_e_Ok & (a & g2 & [Ha ->]%lift_e_Ok & (c & g3 & Hc & [= <- <-])%ence_bind_Ok)%ence_bind_Ok)%ence_bind_Ok.
  assert (Haad : response_aad_for_context ctx rid (choice_path i ".message.audio.data") = Ok (Some a)).
  { unfold response_aad_for_context. rewrite Hmode, Hn. cbn. destruct nt as [n t]. cbn in Ha. by rewrite Ha. }
  assert (Hd : map_get "data" (map_insert "data" (Str c) audio) = Some (Str c)) by by rewrite map_get_insert.
  unfold open_audio. rewrite !map_get_insert. cbn [String.eqb Ascii.eqb Bool.eqb]. split; [|split].
  - unfold open_field. rewrite Hd, (encrypt_plain_opens _ _ _ _ _ _ Haad Hc), !map_insert_twice.
    rewrite (map_insert_same "data"), (map_insert_same "audio"); done.
  - cbn. rewrite Ed. intros t [= <-]. exists c. rewrite Hd. split; [done|]. split; [by exists (Some a), g, g3|]. by eapply encrypt_plain_opens.
  - intros k' Hk'. rewrite map_get_insert. by destruct (String.eqb_spec k' "audio").
Qed.

Lemma declared_index_other (m m' : list (string * Value)) position :
  map_get "index" m' = map_get "index" m -> declared_index (Obj m') position = declared_index (Obj m) position.
Proof. unfold declared_index. cbn. by intros ->. Qed.

(** The message of a chat choice, after its three fields. *)
Lemma encrypt_message_done i m0 m1 m2 m3 g2 g3 :
  field_done "content" (choice_path i ".message.content") m0 m1 ->
  field_done "reasoning_content" (choice_path i ".message.reasoning_content") m1 m2 ->
  (if is_aci (aad_mode ctx) then encrypt_message_audio_data m2 ctx rid i else mret m2) g2 = (Ok m3, g3) ->
  open_field (client_dec s ctx rid) "content" (choice_path i ".message.content")
    (open_field (client_dec s ctx rid) "reasoning_content" (choice_path i ".message.reasoning_content")
       (if is_aci (aad_mode ctx) then open_audio (client_dec s ctx rid) i m3 else m3)) = m0
  /\ (forall path t, path ∈ [["content"]; ["reasoning_content"]] ++ (if is_aci (aad_mode ctx) then [["audio"; "data"]] else []) ->
        member path (Obj m0) = Some (Str t) ->
        exists c, member path (Obj m3) = Some (Str c) /\ sealed_as (field_path "choices" i ("message" :: path)) c t).
Proof.
  intros Hm1 Hm2 Hm3.
  assert (Ha : (if is_aci (aad_mode ctx) then open_audio (client_dec s ctx rid) i m3 else m3) = m2
    /\ (is_aci (aad_mode ctx) = true -> forall t, member ["audio"; "data"] (Obj m2) = Some (Str t) ->
         exists c, member ["audio"; "data"] (Obj m3) = Some (Str c) /\ sealed_as (choice_path i ".message.audio.data") c t)
    /\ forall k', k' <> "audio" -> map_get k' m3 = map_get k' m2).
  { destruct (aad_mode ctx) eqn:Em; cbn [is_aci] in *.
    - destruct (encrypt_audio_done m2 i g2 m3 g3 Em Hm3) as (? & ? & ?). by split_and!.
    - by injection Hm3 as -> ->. }
  destruct Ha as (-> & Hsa & Ho). split.
  { by rewrite (fd_open _ _ _ _ Hm2), (fd_open _ _ _ _ Hm1). }
  assert (Hone : forall k v, member [k] (Obj v) = map_get k v) by (intros k v; cbn; by destruct (map_get k v)).
  intros path t [Hp|Hp]%elem_of_app.
  - apply elem_of_cons in Hp as [->|Hp%list_elem_of_singleton]; [|subst path]; rewrite !Hone.
    + intros (c & Hc & Hs1)%(fd_sealed _ _ _ _ Hm1). exists c. split; [|done]. rewrite Ho by done. by rewrite (fd_other _ _ _ _ Hm2).
    + intros Ht. destruct (fd_sealed _ _ _ _ Hm2 t) as (c & Hc & Hs2); [by rewrite (fd_other _ _ _ _ Hm1)|].
      exists c. split; [|done]. by rewrite Ho.
  - destruct (is_aci (aad_mode ctx)); [|by apply elem_of_nil in Hp]. apply list_elem_of_singleton in Hp as ->. intros Ht.
    apply Hsa; [done|]. cbn [member get] in *. by rewrite (fd_other _ _ _ _ Hm2), (fd_other _ _ _ _ Hm1).
Qed.

(** An entry of the array after its encryption: the index is kept, and each content
    field is sealed at its path. *)
Definition entry_sealed (endpoint array : string) (paths : list (list string)) (position : nat) (v v' : Value) : Prop :=
  declared_index v' position = declared_index v position
  /\ forall path w t, path ∈ paths -> member path v = Some w -> content_text endpoint w = Some t ->
       exists c, member path v' = Some (Str c) /\ sealed_as (field_path array (declared_index v position) path) c t.

(** The content of a chat choice is in its message. *)
Lemma chat_locations mode endpoint array paths path :
  content_locations mode endpoint = Some (array, paths) -> endpoint <> EMBEDDINGS_PATH -> endpoint <> COMPLETIONS_PATH -> path ∈ paths ->
  array = "choices"
  /\ exists rest, path = "message" :: rest /\ rest <> []
     /\ rest ∈ [["content"]; ["reasoning_content"]] ++ (if is_aci mode then [["audio"; "data"]] else []).
Proof.
  intros Hl Hne%String.eqb_neq Hnc%String.eqb_neq Hp. unfold content_locations in Hl.
  change "/v1/completions" with COMPLETIONS_PATH in Hl. change "/v1/embeddings" with EMBEDDINGS_PATH in Hl. rewrite Hne, Hnc in Hl.
  destruct (String.eqb _ _); [|done]. injection Hl as <- <-. split; [done|].
  destruct mode; cbn in *; rewrite ?elem_of_cons, ?elem_of_nil in Hp; destruct_or?; subst; try done;
    eexists; (split; [reflexivity|]); (split; [done|]); set_solver.
Qed.

Lemma member_not_object v path : path <> [] -> (forall m, v <> Obj m) -> member path v = None.
Proof. destruct path as [|k path]; [done|]. intros _ Hv. cbn. destruct v as [| | | | |m]; try done. by destruct (Hv m). Qed.

Lemma locations_array mode endpoint array paths :
  content_locations mode endpoint = Some (array, paths) -> endpoint <> EMBEDDINGS_PATH -> array = "choices".
Proof.
  unfold content_locations. intros Hl Hne%String.eqb_neq. unfold EMBEDDINGS_PATH in Hne. rewrite Hne in Hl. by repeat case_match; simplify_eq.
Qed.

Lemma locations_nonempty mode endpoint array paths path :
  content_locations mode endpoint = Some (array, paths) -> path ∈ paths -> path <> [].
Proof.
  unfold content_locations. intros Hl Hp ->. repeat case_match; simplify_eq/=; rewrite ?elem_of_cons, ?elem_of_nil in Hp;
    destruct_or?; done.
Qed.

Lemma encrypt_choice_done endpoint position v g v' g' :
  encrypt_choice ctx endpoint rid position v g = (Ok v', g') ->
  open_choice (client_dec s ctx rid) (aad_mode ctx) endpoint position v' = v
  /\ forall array paths, content_locations (aad_mode ctx) endpoint = Some (array, paths) -> endpoint <> EMBEDDINGS_PATH ->
       entry_sealed endpoint array paths position v v'.
Proof.
  unfold encrypt_choice, content_locations, entry_sealed, content_text.
  assert (Hstr : forall w t, as_str w = Some t -> w = Str t) by (intros [] ?; cbn; congruence).
  destruct v as [| | | | |choice];
    try (intros [= <- <-]; split; [done|]; intros array paths Hl Hne; split; [done|]; intros path w t Hp Hw; exfalso;
         rewrite member_not_object in Hw; [done|by eapply locations_nonempty|done]).
  destruct (String.eqb_spec endpoint COMPLETIONS_PATH) as [->|Hep].
  - intros (c' & g1 & Hf%encrypt_field_done & [= <- <-])%ence_bind_Ok.
    unfold open_choice. rewrite String.eqb_refl.
    assert (Hi : declared_index (Obj c') position = declared_index (Obj choice) position)
      by (apply declared_index_other; by apply (fd_other _ _ _ _ Hf)).
    rewrite Hi. split; [f_equal; by eapply fd_open|]. intros array paths [= <- <-] _. split; [done|].
    intros path w t ->%list_elem_of_singleton Hw ->%Hstr. cbn [member get] in *.
    destruct (map_get "text" choice) as [x|] eqn:Ex; [|done]. cbn in Hw. injection Hw as ->.
    destruct (fd_sealed _ _ _ _ Hf t Ex) as (c & Hc & Hs1). exists c. by rewrite Hc.
  - destruct (map_get "message" choice) as [[| | | | |m0]|] eqn:Em;
      try (intros [= <- <-]; unfold open_choice; apply String.eqb_neq in Hep as Hep'; rewrite Hep', Em; split; [done|]; intros array paths Hl Hne;
           split; [done|]; intros path w t Hp Hw Ht; exfalso;
           destruct (chat_locations _ _ _ _ _ Hl Hne Hep Hp) as (_ & rest & -> & Hr & _);
           cbn [member get] in Hw; rewrite Em in Hw; cbn [mbind option_bind] in Hw; by rewrite ?member_not_object in Hw).
    intros (m1 & g1 & Hm1%encrypt_field_done & (m2 & g2 & Hm2%encrypt_field_done & (m3 & g3 & Hm3 & [= <- <-])%ence_bind_Ok)%ence_bind_Ok)%ence_bind_Ok.
    destruct (encrypt_message_done _ _ _ _ _ _ _ Hm1 Hm2 Hm3) as [Ho Hf].
    unfold open_choice. apply String.eqb_neq in Hep as Hep'. rewrite Hep', map_get_insert. cbn [String.eqb Ascii.eqb Bool.eqb].
    assert (Hi : declared_index (Obj (map_insert "message" (Obj m3) choice)) position = declared_index (Obj choice) position)
      by (apply declared_index_other; by rewrite map_get_insert).
    rewrite Hi, Ho, map_insert_twice, map_insert_same by done. split; [done|].
    intros array paths Hl Hne. split; [done|]. intros path w t Hp Hw.
    apply String.eqb_neq in Hne as Hne'. unfold EMBEDDINGS_PATH in Hne'. rewrite Hne'. intros ->%Hstr.
    destruct (chat_locations _ _ _ _ _ Hl Hne Hep Hp) as (-> & rest & -> & _ & Hr).
    cbn [member get] in Hw |- *. rewrite Em in Hw. rewrite map_get_insert. cbn [String.eqb Ascii.eqb Bool.eqb mbind option_bind] in *.
    by apply Hf.
Qed.

Lemma encrypt_embedding_done position v g v' g' array paths :
  encrypt_embedding ctx rid position v g = (Ok v', g') ->
  content_locations (aad_mode ctx) EMBEDDINGS_PATH = Some (array, paths) -> entry_sealed EMBEDDINGS_PATH array paths position v v'.
Proof.
  unfold encrypt_embedding, entry_sealed. intros He [= <- <-]. cbn zeta in He.
  destruct v as [| | | | |entry]; try (injection He as <- <-; split; [done|]; intros path w t ->%list_elem_of_singleton; done).
  destruct (map_get "embedding" entry) as [e|] eqn:Ee.
  2: { injection He as <- <-. split; [done|]. intros path w t ->%list_elem_of_singleton. cbn [member get]. by rewrite Ee. }
  apply ence_bind_Ok in He as (p & g1 & [Hp ->]%lift_e_Ok & He). apply ence_bind_Ok in He as (aad & g2 & [Ha ->]%lift_e_Ok & He).
  apply ence_bind_Ok in He as (c & g3 & Hc & [= <- <-]).
  split; [apply declared_index_other; by rewrite map_get_insert|].
  intros path w t ->%list_elem_of_singleton. cbn [member get]. rewrite Ee, map_get_insert. cbn [String.eqb Ascii.eqb Bool.eqb mbind option_bind].
  intros [= <-] Ht. unfold content_text in Ht. cbn [String.eqb Ascii.eqb Bool.eqb EMBEDDINGS_PATH] in Ht.
  exists c. split; [done|]. destruct (to_vec e) as [b|]; [|done]. injection Hp as <-. injection Ht as <-.
  assert (Haad : response_aad_for_context ctx rid (field_path "data" (declared_index (Obj entry) position) ["embedding"]) = Ok aad) by exact Ha.
  split; [by exists aad, g, g3|]. by eapply encrypt_plain_opens.
Qed.

Lemma encrypt_each_done f (P : nat -> Value -> Value -> Prop) position items g items' g' :
  (forall n v g v' g', f n v g = (Ok v', g') -> P n v v') ->
  encrypt_each f position items g = (Ok items', g') ->
  length items' = length items
  /\ forall n v, items !! n = Some v -> exists v', items' !! n = Some v' /\ P (position + n)%nat v v'.
Proof.
  intros Hf. revert position g items'. induction items as [|v items IH]; intros position g items'; cbn [encrypt_each].
  - by intros [= <- <-].
  - intros (v' & g1 & Hv%Hf & (rest & g2 & Hr & [= <- <-])%ence_bind_Ok)%ence_bind_Ok.
    destruct (IH _ _ _ Hr) as [Hlen Hn]. split; [cbn; by rewrite Hlen|]. intros [|n] w.
    + intros [= <-]. exists v'. by rewrite Nat.add_0_r.
    + intros (w' & Hw & HP)%Hn. exists w'. split; [done|]. by rewrite Nat.add_succ_r.
Qed.

Lemma open_each_lookup h position items' items :
  length items' = length items ->
  (forall n v, items !! n = Some v -> exists v', items' !! n = Some v' /\ h (position + n)%nat v' = v) ->
  open_each h position items' = items.
Proof.
  revert position items'. induction items as [|v items IH]; intros position [|v' items'] Hlen Hn; try done. cbn [open_each].
  destruct (Hn 0%nat v) as (w & [= <-] & Hv); [done|]. rewrite Nat.add_0_r in Hv. rewrite Hv. f_equal.
  apply IH; [by injection Hlen|]. intros n x Hx. destruct (Hn (S n) x Hx) as (w & Hw & Hh). exists w. split; [done|].
  by rewrite Nat.add_succ_r in Hh.
Qed.
End Readable.

(** What an encrypted payload shows: every content field of the clear payload is, at
    its place, a ciphertext of its text made for that field of that response. *)
Definition content_sealed `{Digest} `{Crypto} `{CurveLibs} `{SerdeJson} (s : Suite) (ctx : E2eeRequestContext) (endpoint : string)
    (payload payload' : Value) : Prop :=
  forall array paths items, content_locations (aad_mode ctx) endpoint = Some (array, paths) -> get payload array = Some (Arr items) ->
    exists items', get payload' array = Some (Arr items') /\ length items' = length items
      /\ forall n v, items !! n = Some v -> exists v', items' !! n = Some v'
           /\ entry_sealed s ctx (response_id_of payload') endpoint array paths n v v'.

(** The array of a payload after its encryption. *)
Lemma encrypt_array_inv `{CurveLibs} key f m g payload' g' :
  encrypt_array key f (Obj m) g = (Ok payload', g') ->
  payload' = Obj m /\ (forall items, map_get key m <> Some (Arr items))
  \/ exists items items' g1, map_get key m = Some (Arr items) /\ encrypt_each f 0 items g = (Ok items', g1)
      /\ payload' = Obj (map_insert key (Arr items') m).
Proof.
  unfold encrypt_array. destruct (map_get key m) as [[| | | |items|]|]; try (intros [= <- <-]; by left).
  intros (items' & g1 & He & [= <- <-])%ence_bind_Ok. right. eauto 7.
Qed.

Lemma response_id_insert key v m : key <> "id" -> response_id_of (Obj (map_insert key v m)) = response_id_of (Obj m).
Proof. intros Hk. unfold response_id_of. cbn [get]. rewrite map_get_insert. by destruct (String.eqb_spec "id" key) as [<-|]. Qed.

Lemma map_get_inserted {A} k (v : A) m : map_get k (map_insert k v m) = Some v.
Proof. by rewrite map_get_insert, String.eqb_refl. Qed.

(** C17: A buffered response encrypted for a client is complete and readable: each
    field that [spec/aci.md] lists as generated content of a chat, completion or
    embedding response, wherever it occurs in the clear payload, is on the wire at
    the same place a ciphertext bound to the path of that field and to that
    response, and the client, with the secret of the key it sent and the response
    id it reads off the wire, decrypts it to the text of the field (an embedding to
    its serialization).  Nothing else of a chat or completion payload changes:
    decrypted field by field it is the payload the service had.  (Responses of
    other endpoints are not in that list: see [messages_response_cleartext].) *)
Theorem encrypted_response_readable `{CurveLaws} `{SerdeJson} s ctx endpoint payload g payload' g' :
  client_of s ctx ->
  encrypt_response_payload payload ctx endpoint g = (Ok payload', g') ->
  content_sealed s ctx endpoint payload payload'
  /\ (endpoint <> EMBEDDINGS_PATH ->
      open_response (client_dec s ctx (response_id_of payload')) (aad_mode ctx) endpoint payload' = payload).
Proof.
  intros Hs. unfold encrypt_response_payload, content_sealed.
  destruct payload as [| | | | |m]; try (intros He; unfold encrypt_embedding_data, encrypt_array in He; destruct (String.eqb _ _);
    injection He as <- <-; done).
  destruct (String.eqb_spec endpoint EMBEDDINGS_PATH) as [->|Hep]; intros He.
  - split; [|done]. intros array paths items Hl Hg. injection Hl as <- <-. cbn [get] in Hg.
    destruct (encrypt_array_inv _ _ _ _ _ _ He) as [[-> Hno]|(its & items' & g1 & Hg' & Hr & ->)]; [by destruct (Hno items)|].
    simplify_eq. cbn [get]. rewrite map_get_inserted, response_id_insert by done. exists items'. split; [done|].
    eapply (encrypt_each_done _ (entry_sealed s ctx (response_id_of (Obj m)) EMBEDDINGS_PATH "data" [["embedding"]])) in Hr as [Hlen Hn];
      [by split|].
    intros n v g0 v' g0' Hv. by eapply encrypt_embedding_done.
  - destruct (encrypt_array_inv _ _ _ _ _ _ He) as [[-> Hno]|(its & items' & g1 & Hg' & Hr & ->)].
    + split.
      * intros array paths items Hl Hg. rewrite (locations_array _ _ _ _ Hl Hep) in Hg. by destruct (Hno items).
      * intros _. unfold open_response. destruct (map_get "choices" m) as [[| | | |items|]|] eqn:E; try done. by destruct (Hno items).
    + rewrite response_id_insert by done. split.
      * intros array paths items Hl Hg. pose proof (locations_array _ _ _ _ Hl Hep) as ->. cbn [get] in Hg. simplify_eq. cbn [get].
        rewrite map_get_inserted. exists items'. split; [done|].
        eapply (encrypt_each_done _ (entry_sealed s ctx (response_id_of (Obj m)) endpoint "choices" paths)) in Hr as [Hlen Hn]; [by split|].
        intros n v g0 v' g0' Hv. apply (encrypt_choice_done s ctx Hs) in Hv as [_ Hv]. by apply Hv.
      * intros _. unfold open_response. rewrite map_get_inserted, map_insert_twice.
        rewrite (open_each_lookup _ 0 items' its); [by rewrite map_insert_same| |].
        { by eapply (encrypt_each_done _ (fun _ _ _ => True)) in Hr as [? _]. }
        eapply (encrypt_each_done _ (fun n v v' => open_choice _ _ _ n v' = v)) in Hr as [_ Hn]; [exact Hn|].
        intros n0 v0 g0 v0' g0' He0. by apply (encrypt_choice_done s ctx Hs) in He0 as [Ho _].
Qed.

Import Toy.
#[local] Existing Instance demo_serde.

Definition demo_ctx : E2eeRequestContext := {|
  ctx_version := "2"; ctx_algo := E2EE_ALGO_X25519_AESGCM; aad_mode := AciV2; request_model := "m";
  ctx_client_public_key_hex := x25519_public_key_hex "secret"; ctx_nonce := Some "n"; ctx_timestamp := Some 7 |}.

Definition demo_reply : Value :=
  {{ "id" ≔ Str "chatcmpl-1";
     "choices" ≔ Arr [ {{ "index" ≔ from_u64 0; "message" ≔ {{ "role" ≔ Str "assistant"; "content" ≔ Str "hello" }} }} ] }}.

Definition demo_sealed_reply : Value :=
  match (encrypt_response_payload (H1 := libs) demo_reply demo_ctx "/v1/chat/completions" tt).1 with
  | Ok v => v
  | Err _ => Null
  end.

Lemma encrypted_response_readable_witness :
  client_of (SuiteX25519 (H := libs) "secret") demo_ctx
  /\ open_response (client_dec (SuiteX25519 (H := libs) "secret") demo_ctx "chatcmpl-1") AciV2 "/v1/chat/completions"
       demo_sealed_reply = demo_reply
  /\ get demo_sealed_reply "id" = Some (Str "chatcmpl-1") /\ demo_sealed_reply <> demo_reply.
Proof.
  assert (Hc : client_of (SuiteX25519 (H := libs) "secret") demo_ctx) by done.
  split; [exact Hc|]. split; [|split; [by vm_compute|by vm_compute]].
  apply (proj2 (encrypted_response_readable (SuiteX25519 (H := libs) "secret") demo_ctx "/v1/chat/completions" demo_reply
    tt demo_sealed_reply tt Hc ltac:(by vm_compute))). discriminate.
Defined.

(** A response without a [choices] array is returned in the clear: on
    [/v1/messages], whose requests are decrypted like chat requests and whose
    responses carry their text under [content], encryption changes nothing, for
    buffered bodies and for stream payloads alike, although the client is told
    that E2EE was applied. *)
Theorem messages_response_cleartext `{Digest} `{Crypto} `{CurveLibs} `{SerdeJson} body payload ctx endpoint g :
  endpoint <> EMBEDDINGS_PATH -> from_slice body = Ok payload ->
  (forall items, get payload "choices" <> Some (Arr items)) ->
  encrypt_e2ee_response_body body ctx endpoint g = (map_err (fun _ => EncryptionFailed) (to_vec payload), g)
  /\ encrypt_e2ee_stream_payload body ctx endpoint g = (map_err (fun _ => EncryptionFailed) (to_vec payload), g).
Proof.
  intros Hep Hb Hc. unfold encrypt_e2ee_response_body, encrypt_e2ee_stream_payload, encrypt_response_payload.
  destruct (String.eqb_spec endpoint EMBEDDINGS_PATH) as [|_]; [done|].
  assert (Hno : forall f g, encrypt_array "choices" f payload g = (Ok payload, g)).
  { intros f g0. unfold encrypt_array. destruct payload as [| | | | |m]; try done. cbn in Hc.
    destruct (map_get "choices" m) as [[| | | |items|]|]; try done. by destruct (Hc items). }
  unfold mbind, ence_bind, lift_e. rewrite Hb. cbn [map_err]. by rewrite !Hno.
Qed.

Definition demo_anthropic_reply : Value :=
  {{ "id" ≔ Str "msg-1"; "content" ≔ Arr [ {{ "type" ≔ Str "text"; "text" ≔ Str "the secret answer" }} ] }}.

Lemma messages_response_cleartext_witness :
  exists body, from_slice body = Ok demo_anthropic_reply
    /\ encrypt_e2ee_response_body (H1 := libs) body demo_ctx "/v1/messages" tt = (Ok body, tt).
Proof.
  exists match to_vec demo_anthropic_reply with Ok b => b | Err _ => "" end. split; [by vm_compute|].
  eapply eq_trans; [apply (messages_response_cleartext _ demo_anthropic_reply)|by vm_compute].
  - discriminate.
  - by vm_compute.
  - by vm_compute.
Defined.
