(* ===== verification/Sse.v ===== *)
(** * Server-sent events of the service

    Model of the two SSE machines of [src/aggregator/service/streaming.rs]: the
    transformer that encrypts the events of a stream and the parser that picks
    the chat id and the model out of one.  Both see the stream in whatever
    chunks it arrives. *)
From S2P Require Import Prelude StrOps Json Serde Canonical Revocation AciVerifier E2ee E2eeFields.

Definition NL : ascii := byte 10.
Definition CR : ascii := byte 13.
Definition nl : string := String NL "".

(** [if line.last() == Some(&b'\r') { line.pop(); }] *)
Fixpoint pop_cr (line : string) : string :=
  match line with
  | String c EmptyString => if Ascii.eqb c CR then "" else line
  | String c rest => String c (pop_cr rest)
  | EmptyString => ""
  end.

(** The value of a [data:] line. *)
Definition data_of_line (line : string) : option string :=
  rest ← strip_prefix "data:" line;
  Some match strip_prefix " " rest with Some data => data | None => rest end.

Fixpoint sse_event_data_from (found : bool) (out : string) (lines : list string) : option string :=
  match lines with
  | [] => if found then Some out else None
  | line :: lines =>
      if starts_with ":" line then sse_event_data_from found out lines
      else match data_of_line line with
           | None => sse_event_data_from found out lines
           | Some data => sse_event_data_from true ((if found then out +:+ nl else out) +:+ data) lines
           end
  end.

Definition sse_event_data (lines : list string) : option string := sse_event_data_from false "" lines.

Definition is_sse_data_line (line : string) : bool :=
  match strip_prefix "data:" line with Some _ => true | None => false end.

Fixpoint terminate_lines (lines : list string) : string :=
  match lines with [] => "" | line :: lines => line +:+ nl +:+ terminate_lines lines end.

Definition serialize_original_sse_event (lines : list string) : string := terminate_lines lines +:+ nl.

(** ** The transformer *)

Record E2eeSseTransformer := { line_buffer : string; event_lines : list string }.

Definition E2eeSseTransformer_new : E2eeSseTransformer := {| line_buffer := ""; event_lines := [] |}.

Section Transformer.
Context `{Digest} `{Crypto} `{CurveLibs} `{SerdeJson}.
Context (ctx : E2eeRequestContext) (endpoint_path : string).

(** The bytes one complete event is replaced by. *)
Definition transform_event (lines : list string) : EncE string :=
  match sse_event_data lines with
  | None => mret (serialize_original_sse_event lines)
  | Some data =>
      if String.eqb data "[DONE]" then mret (serialize_original_sse_event lines)
      else
        encrypted_payload ← encrypt_e2ee_stream_payload data ctx endpoint_path;
        mret (terminate_lines (List.filter (fun line => negb (is_sse_data_line line)) lines)
                +:+ "data: " +:+ encrypted_payload +:+ nl +:+ nl)
  end.

Definition dispatch_event (t : E2eeSseTransformer) : EncE (string * E2eeSseTransformer) :=
  let t' := {| line_buffer := line_buffer t; event_lines := [] |} in
  match event_lines t with
  | [] => mret ("", t')
  | lines => out ← transform_event lines; mret (out, t')
  end.

Definition observe_line (line : string) (t : E2eeSseTransformer) : EncE (string * E2eeSseTransformer) :=
  if String.eqb line "" then dispatch_event t
  else mret ("", {| line_buffer := line_buffer t; event_lines := event_lines t ++ [line] |}).

Definition push_byte (b : ascii) (t : E2eeSseTransformer) : EncE (string * E2eeSseTransformer) :=
  if Ascii.eqb b NL then
    observe_line (pop_cr (line_buffer t)) {| line_buffer := ""; event_lines := event_lines t |}
  else mret ("", {| line_buffer := line_buffer t +:+ String b ""; event_lines := event_lines t |}).

Fixpoint push_chunk (chunk : string) (t : E2eeSseTransformer) : EncE (string * E2eeSseTransformer) :=
  match chunk with
  | EmptyString => mret ("", t)
  | String b chunk =>
      r ← push_byte b t;
      r' ← push_chunk chunk r.2;
      mret (r.1 +:+ r'.1, r'.2)
  end.

Definition finish (t : E2eeSseTransformer) : EncE (string * E2eeSseTransformer) :=
  r ← (if String.eqb (line_buffer t) "" then mret ("", t)
       else observe_line (pop_cr (line_buffer t)) {| line_buffer := ""; event_lines := event_lines t |});
  r' ← (match event_lines r.2 with [] => mret ("", r.2) | _ => dispatch_event r.2 end);
  mret (r.1 +:+ r'.1, r'.2).

Definition encrypt_e2ee_final_response (cleartext_body : string) (is_sse : bool) : EncE string :=
  if is_sse then
    r ← push_chunk cleartext_body E2eeSseTransformer_new;
    r' ← finish r.2;
    mret (r.1 +:+ r'.1)
  else encrypt_e2ee_response_body cleartext_body ctx endpoint_path.

(** Several chunks, one after the other. *)
Fixpoint push_chunks (chunks : list string) (t : E2eeSseTransformer) : EncE (string * E2eeSseTransformer) :=
  match chunks with
  | [] => mret ("", t)
  | c :: chunks =>
      r ← push_chunk c t;
      r' ← push_chunks chunks r.2;
      mret (r.1 +:+ r'.1, r'.2)
  end.

Definition transform_stream (chunks : list string) : EncE string :=
  r ← push_chunks chunks E2eeSseTransformer_new;
  r' ← finish r.2;
  mret (r.1 +:+ r'.1).
End Transformer.

(** ** The chat id parser *)

Record SseChatIdParser := { sp_line_buffer : string; event_data : string; sp_chat_id : option string; sp_model_id : option string }.

Definition SseChatIdParser_default : SseChatIdParser :=
  {| sp_line_buffer := ""; event_data := ""; sp_chat_id := None; sp_model_id := None |}.

Definition found_both (p : SseChatIdParser) : bool :=
  match sp_chat_id p, sp_model_id p with Some _, Some _ => true | _, _ => false end.

Section Parser.
Context `{SerdeJson}.

Definition first_of (old new : option string) : option string := match old with Some x => Some x | None => new end.

Definition parser_dispatch_event (p : SseChatIdParser) : SseChatIdParser :=
  if String.eqb (event_data p) "" then p
  else
    let data := event_data p in
    let p := {| sp_line_buffer := sp_line_buffer p; event_data := ""; sp_chat_id := sp_chat_id p; sp_model_id := sp_model_id p |} in
    if String.eqb data "[DONE]" then p
    else match from_slice data with
         | Err _ => p
         | Ok parsed =>
             {| sp_line_buffer := sp_line_buffer p; event_data := event_data p;
                sp_chat_id := first_of (sp_chat_id p) (get parsed "id" ≫= as_str);
                sp_model_id := first_of (sp_model_id p) (get parsed "model" ≫= as_str) |}
         end.

Definition parser_observe_line (line : string) (p : SseChatIdParser) : SseChatIdParser :=
  if String.eqb line "" then parser_dispatch_event p
  else if starts_with ":" line then p
  else match data_of_line line with
       | None => p
       | Some data =>
           {| sp_line_buffer := sp_line_buffer p;
              event_data := (if String.eqb (event_data p) "" then "" else event_data p +:+ nl) +:+ data;
              sp_chat_id := sp_chat_id p; sp_model_id := sp_model_id p |}
       end.

Fixpoint observe_bytes (chunk : string) (p : SseChatIdParser) : SseChatIdParser :=
  match chunk with
  | EmptyString => p
  | String b chunk =>
      if Ascii.eqb b NL then
        let line := pop_cr (sp_line_buffer p) in
        let p := parser_observe_line line
                   {| sp_line_buffer := ""; event_data := event_data p; sp_chat_id := sp_chat_id p; sp_model_id := sp_model_id p |} in
        if found_both p then p else observe_bytes chunk p
      else observe_bytes chunk {| sp_line_buffer := sp_line_buffer p +:+ String b ""; event_data := event_data p;
                                  sp_chat_id := sp_chat_id p; sp_model_id := sp_model_id p |}
  end.

Definition observe (chunk : string) (p : SseChatIdParser) : SseChatIdParser :=
  if found_both p then p else observe_bytes chunk p.
End Parser.

(** ** The stream as a whole *)

(** The lines of a text: complete ones, and what is left if it is not empty. *)
Fixpoint seg_lines (segs : list string) : list string :=
  match segs with
  | [] => []
  | [rest] => if String.eqb rest "" then [] else [pop_cr rest]
  | seg :: segs => pop_cr seg :: seg_lines segs
  end.

Definition sse_lines (text : string) : list string := seg_lines (split_by (Ascii.eqb NL) text).

(** The events: runs of lines, ended by an empty line or the end. *)
Definition flush (cur : list string) : list (list string) := match cur with [] => [] | _ => [cur] end.

Fixpoint group_events (cur : list string) (lines : list string) : list (list string) :=
  match lines with
  | [] => flush cur
  | line :: lines => if String.eqb line "" then flush cur ++ group_events [] lines else group_events (cur ++ [line]) lines
  end.

Definition sse_events (text : string) : list (list string) := group_events [] (sse_lines text).

Fixpoint concat_str (l : list string) : string := match l with [] => "" | s :: l => s +:+ concat_str l end.

Lemma split_by_cons p s : exists s0 ss, split_by p s = s0 :: ss.
Proof.
  induction s as [|c s (s0 & ss & E)]; cbn; [eauto|]. destruct (p c); [eauto|]. rewrite E. eauto.
Qed.

Section Reference.
Context `{Digest} `{Crypto} `{CurveLibs} `{SerdeJson}.
Context (ctx : E2eeRequestContext) (endpoint_path : string).

(** Every event replaced by its transformation, in order. *)
Fixpoint transform_events (events : list (list string)) : EncE string :=
  match events with
  | [] => mret ""
  | e :: events =>
      o ← transform_event ctx endpoint_path e;
      rest ← transform_events events;
      mret (o +:+ rest)
  end.

Definition push_and_finish (text : string) (t : E2eeSseTransformer) : EncE string :=
  r ← push_chunk ctx endpoint_path text t;
  r' ← finish ctx endpoint_path r.2;
  mret (r.1 +:+ r'.1).

(** The buffered line continues with the first segment of the text. *)
Definition lines_from (buf text : string) : list string :=
  match split_by (Ascii.eqb NL) text with
  | [] => []
  | s0 :: ss => seg_lines ((buf +:+ s0) :: ss)
  end.

Lemma push_and_finish_cons b text t g :
  push_and_finish (String b text) t g
  = (r ← push_byte ctx endpoint_path b t; o ← push_and_finish text r.2; mret (r.1 +:+ o)) g.
Proof.
  unfold push_and_finish. cbn [push_chunk]. unfold mbind, ence_bind, mret, ence_ret.
  destruct (push_byte _ _ b t g) as [[[o1 t1]|] g1]; [|done]. cbn.
  destruct (push_chunk _ _ text t1 g1) as [[[o2 t2]|] g2]; [|done]. cbn.
  destruct (finish _ _ t2 g2) as [[[o3 t3]|] g3]; [|done]. cbn. by rewrite string_app_assoc.
Qed.

Lemma push_chunk_app a b t g :
  push_chunk ctx endpoint_path (a +:+ b) t g
  = (r ← push_chunk ctx endpoint_path a t; r' ← push_chunk ctx endpoint_path b r.2; mret (r.1 +:+ r'.1, r'.2)) g.
Proof.
  revert t g. induction a as [|c a IH]; intros t g; cbn [push_chunk String.append]; unfold mbind, ence_bind, mret, ence_ret in *.
  - cbn. by destruct (push_chunk _ _ b t g) as [[[]|]].
  - destruct (push_byte _ _ c t g) as [[[o1 t1]|] g1]; [|done]. cbn. rewrite IH.
    destruct (push_chunk _ _ a t1 g1) as [[[o2 t2]|] g2]; [|done]. cbn.
    destruct (push_chunk _ _ b t2 g2) as [[[o3 t3]|] g3]; [|done]. cbn. by rewrite string_app_assoc.
Qed.

Lemma push_chunks_concat chunks t g :
  push_chunks ctx endpoint_path chunks t g = push_chunk ctx endpoint_path (concat_str chunks) t g.
Proof.
  revert t g. induction chunks as [|c chunks IH]; intros t g; [done|]. cbn [push_chunks concat_str].
  rewrite push_chunk_app. unfold mbind, ence_bind, mret, ence_ret in *.
  destruct (push_chunk _ _ c t g) as [[[o1 t1]|] g1]; [|done]. cbn. by rewrite IH.
Qed.

Lemma finish_spec t g :
  (r ← finish ctx endpoint_path t; mret (r.1)) g
  = transform_events (group_events (event_lines t) (seg_lines [line_buffer t])) g.
Proof.
  destruct t as [buf lines]. unfold finish, seg_lines. cbn [line_buffer event_lines].
  unfold mbind, ence_bind, mret, ence_ret. destruct (String.eqb buf "") eqn:Eb; cbn [snd fst].
  - cbn [group_events]. destruct lines as [|l ls]; [done|]. cbn [dispatch_event event_lines flush transform_events].
    unfold mbind, ence_bind, mret, ence_ret, dispatch_event. cbn.
    destruct (transform_event _ _ (l :: ls) g) as [[]]; cbn; [|done]. by rewrite string_app_nil_r.
  - unfold observe_line. cbn [group_events]. destruct (String.eqb (pop_cr buf) "") eqn:El.
    + unfold dispatch_event, mret, ence_ret, mbind, ence_bind. cbn [event_lines line_buffer].
      destruct lines as [|l ls]; cbn [flush app group_events transform_events]; [done|].
      unfold mret, ence_ret, mbind, ence_bind. cbn.
      destruct (transform_event _ _ (l :: ls) g) as [[]]; cbn; done.
    + unfold mret, ence_ret. cbn [fst snd event_lines]. destruct (lines ++ [pop_cr buf]) as [|l ls] eqn:E; [by destruct lines|].
      unfold dispatch_event, mret, ence_ret, mbind, ence_bind. cbn.
      unfold mret, ence_ret, mbind, ence_bind. cbn.
      destruct (transform_event _ _ (l :: ls) g) as [[]]; cbn; [|done]. by rewrite string_app_nil_r.
Qed.

Lemma transform_events_app es es' g :
  transform_events (es ++ es') g = (o ← transform_events es; o' ← transform_events es'; mret (o +:+ o')) g.
Proof.
  revert g. induction es as [|e es IH]; intros g; cbn [app transform_events]; unfold mbind, ence_bind, mret, ence_ret in *.
  - cbn. by destruct (transform_events es' g) as [[]].
  - destruct (transform_event _ _ e g) as [[o|] g1]; [|done]. cbn. rewrite IH.
    destruct (transform_events es g1) as [[o1|] g2]; [|done]. cbn.
    destruct (transform_events es' g2) as [[o2|] g3]; [|done]. cbn. by rewrite string_app_assoc.
Qed.

Lemma push_and_finish_spec text t g :
  push_and_finish text t g = transform_events (group_events (event_lines t) (lines_from (line_buffer t) text)) g.
Proof.
  revert t g. induction text as [|b text IH]; intros t g.
  - unfold lines_from. cbn [split_by]. rewrite string_app_nil_r, <- finish_spec.
    unfold push_and_finish. cbn [push_chunk]. unfold mbind, ence_bind, mret, ence_ret. cbn.
    by destruct (finish _ _ t g) as [[[]|]].
  - rewrite push_and_finish_cons. unfold lines_from. cbn [split_by].
    destruct (split_by_cons (Ascii.eqb NL) text) as (s0 & ss & Es).
    unfold push_byte. rewrite (Ascii.eqb_sym b NL). destruct (Ascii.eqb NL b) eqn:Eb.
    + rewrite string_app_nil_r, Es. change (seg_lines (line_buffer t :: s0 :: ss)) with (pop_cr (line_buffer t) :: seg_lines (s0 :: ss)).
      assert (Hl : lines_from "" text = seg_lines (s0 :: ss)) by (unfold lines_from; by rewrite Es).
      rewrite <- Hl. cbn [group_events]. unfold observe_line. destruct (String.eqb (pop_cr (line_buffer t)) "").
      * rewrite transform_events_app. unfold dispatch_event. cbn [event_lines line_buffer].
        unfold mbind, ence_bind, mret, ence_ret.
        destruct (event_lines t) as [|l ls]; cbn [flush transform_events].
        -- cbn. rewrite IH. cbn. unfold mret, ence_ret, mbind, ence_bind. cbn. by destruct (transform_events _ g) as [[]].
        -- unfold mbind, ence_bind, mret, ence_ret. cbn.
           destruct (transform_event _ _ (l :: ls) g) as [[o|] g1]; [|done]. cbn. rewrite IH. cbn.
           destruct (transform_events _ g1) as [[]]; cbn; [|done]. by rewrite string_app_nil_r.
      * unfold mbind, ence_bind, mret, ence_ret. cbn. rewrite IH. cbn. by destruct (transform_events _ g) as [[]].
    + rewrite Es. unfold mbind, ence_bind, mret, ence_ret. cbn [fst snd]. rewrite IH.
      cbn [line_buffer event_lines]. unfold lines_from. rewrite Es, string_app_assoc. cbn [String.append]. by destruct (transform_events _ g) as [[]].
Qed.
End Reference.

(** The encrypted stream does not depend on how the upstream's bytes were cut
    into chunks: whatever the chunks, the bytes produced are those of the events
    of the whole text, each transformed once and in order, and the stream fails
    exactly when one of them cannot be encrypted.  Read as one chunk it is the
    encryption of a buffered event stream. *)
Theorem sse_transform_chunking `{Digest} `{Crypto} `{CurveLibs} `{SerdeJson} ctx endpoint chunks g :
  transform_stream ctx endpoint chunks g = transform_events ctx endpoint (sse_events (concat_str chunks)) g
  /\ transform_stream ctx endpoint chunks g = encrypt_e2ee_final_response ctx endpoint (concat_str chunks) true g.
Proof.
  assert (E : transform_stream ctx endpoint chunks g = push_and_finish ctx endpoint (concat_str chunks) E2eeSseTransformer_new g).
  { unfold transform_stream, push_and_finish, mbind, ence_bind. by rewrite push_chunks_concat. }
  rewrite E. split; [|done]. rewrite push_and_finish_spec. cbn [E2eeSseTransformer_new event_lines line_buffer].
  unfold lines_from, sse_events, sse_lines. destruct (split_by_cons (Ascii.eqb NL) (concat_str chunks)) as (s0 & ss & ->).
  done.
Qed.

(** ** The parser on chunks *)

Section ParserChunks.
Context `{SerdeJson}.

Lemma observe_bytes_app a b p :
  found_both p = false -> observe_bytes (a +:+ b) p = observe b (observe_bytes a p).
Proof.
  revert p. induction a as [|c a IH]; intros p Hp; cbn [String.append observe_bytes].
  - unfold observe. by rewrite Hp.
  - destruct (Ascii.eqb c NL).
    + match goal with |- context [found_both ?q] => destruct (found_both q) eqn:Eq end.
      * unfold observe. by rewrite Eq.
      * by apply IH.
    + apply IH. exact Hp.
Qed.

Lemma observe_app a b p : observe (a +:+ b) p = observe b (observe a p).
Proof.
  unfold observe at 1 3. destruct (found_both p) eqn:Hp; [unfold observe; by rewrite Hp|].
  by apply observe_bytes_app.
Qed.

(** The ids found do not depend on the chunks. *)
Lemma observe_chunks chunks p : fold_left (fun p c => observe c p) chunks p = observe (concat_str chunks) p.
Proof.
  revert p. induction chunks as [|c chunks IH]; intros p; cbn.
  - unfold observe. by destruct (found_both p).
  - by rewrite IH, observe_app.
Qed.
End ParserChunks.
