(* ===== verification/ChutesE2ee.v ===== *)
(** * The Chutes transport

    Model of [src/aci/upstream/chutes/crypto.rs] (the sealed requests and
    responses, the decrypting stream) and of the transport of
    [src/aci/upstream/chutes/mod.rs]: the chute of a model, discovery, invocation,
    the refresh of the pool and the legacy report.  ML-KEM-768, HKDF,
    ChaCha20-Poly1305 and gzip are a parameter, as are the parsers of the
    provider's answers.  A computation of the transport keeps the session store,
    the random generator and the list of the requests handed to the HTTP client. *)
From S2P Require Import Prelude StrOps Json Serde Canonical E2ee Receipt Session Upstream Chutes AciVerifier UpstreamManager.
From S2P Require Import Sse.

Definition CHUTES_MLKEM_CT_SIZE : nat := Z.to_nat 1088.
Definition CHUTES_TAG_SIZE : nat := 16.
Definition CHUTES_INFO_REQ : string := "e2e-req-v1".
Definition CHUTES_INFO_RESP : string := "e2e-resp-v1".
Definition CHUTES_INFO_STREAM : string := "e2e-stream-v1".

(** [ml_kem], [hkdf], [chacha20poly1305], [flate2] and the random generator.  A
    ciphertext of ML-KEM is its bytes, an array of 1088. *)
Class ChutesLibs : Type := {
  DecapsulationKey : Type;
  EncapsulationKey : Type;
  OsRng : Type;
  encapsulation_key : DecapsulationKey -> EncapsulationKey;
  generate_keypair : OsRng -> (DecapsulationKey * EncapsulationKey) * OsRng;
  ek_from_slice : string -> result string EncapsulationKey;
  ek_to_bytes : EncapsulationKey -> string;
  encapsulate : EncapsulationKey -> OsRng -> (string * string) * OsRng;
  decapsulate : DecapsulationKey -> string -> string;
  array_error : string;
  hkdf_sha256_salted : string -> string -> string -> result unit string;
  chacha20_seal : string -> string -> string -> result unit string;
  chacha20_open : string -> string -> string -> result unit string;
  gzip : string -> result string string;
  gunzip : string -> result string string;
  fill_bytes : nat -> OsRng -> string * OsRng;
}.

Section Crypto.
Context `{Digest} `{Base64} `{Base64Error} `{Crypto} `{SerdeJson} `{ChutesLibs}.

(** ** Sealing and opening *)

Definition decode_base64 (what text : string) : result UpstreamError string :=
  ok_or (base64_decode text) (Transport (what +:+ ": " +:+ base64_error text)).

(** [MlKemCiphertext768::try_from]: the slice has the length of the array. *)
Definition ciphertext_from_slice (what bytes : string) : result UpstreamError string :=
  if Nat.eqb (String.length bytes) CHUTES_MLKEM_CT_SIZE then Ok bytes else Err (Transport (what +:+ ": " +:+ array_error)).

Definition chutes_derive_key (shared_secret mlkem_ct info : string) : result UpstreamError string :=
  if Nat.ltb (String.length mlkem_ct) 16 then Err (Transport "Chutes ML-KEM ciphertext is too short")
  else map_err (fun _ => Transport "Chutes HKDF failed") (hkdf_sha256_salted (str_take 16 mlkem_ct) shared_secret info).

Definition chacha_encrypt (key nonce plaintext : string) : result UpstreamError string :=
  if negb (Nat.eqb (String.length key) 32) then Err (Transport "invalid Chutes ChaCha20 key")
  else map_err (fun _ => Transport "Chutes E2EE encryption failed") (chacha20_seal key nonce plaintext).

Definition chacha_decrypt (key nonce ciphertext : string) : result UpstreamError string :=
  if negb (Nat.eqb (String.length key) 32) then Err (Transport "invalid Chutes ChaCha20 key")
  else map_err (fun _ => Transport "Chutes E2EE decryption failed") (chacha20_open key nonce ciphertext).

Definition gzip_compress (plaintext : string) : result UpstreamError string := map_err Transport (gzip plaintext).
Definition gzip_decompress (compressed : string) : result UpstreamError string := map_err Transport (gunzip compressed).

Record ChutesE2eeRequest := { blob : string; response_sk : DecapsulationKey }.

Definition build_chutes_e2ee_request (e2e_pubkey_b64 : string) (payload : Value) (rng : OsRng) :
    result UpstreamError ChutesE2eeRequest * OsRng :=
  let '((sk, response_pk), rng) := generate_keypair rng in
  match (decode_base64 "invalid Chutes E2EE public key" e2e_pubkey_b64 ≫= fun bytes =>
         map_err (fun e => Transport ("invalid Chutes ML-KEM public key: " +:+ e)) (ek_from_slice bytes)) with
  | Err e => (Err e, rng)
  | Ok e2e_pubkey =>
      let '((mlkem_ct, shared_secret), rng) := encapsulate e2e_pubkey rng in
      match (chutes_derive_key shared_secret mlkem_ct CHUTES_INFO_REQ ≫= fun sym_key =>
             match payload with
             | Obj obj =>
                 map_err Transport (to_vec (Obj (map_insert "e2e_response_pk" (Str (base64_encode (ek_to_bytes response_pk))) obj)))
                   ≫= fun text => gzip_compress text ≫= fun compressed => Ok (sym_key, compressed)
             | _ => Err (Routing "request body must be a JSON object")
             end) with
      | Err e => (Err e, rng)
      | Ok (sym_key, compressed) =>
          let '(nonce, rng) := fill_bytes 12 rng in
          (chacha_encrypt sym_key nonce compressed ≫= fun encrypted =>
           Ok {| blob := mlkem_ct +:+ nonce +:+ encrypted; response_sk := sk |}, rng)
      end
  end.

Definition decrypt_chutes_response (response_blob : string) (sk : DecapsulationKey) : result UpstreamError string :=
  if Nat.leb (String.length response_blob) (CHUTES_MLKEM_CT_SIZE + 12 + CHUTES_TAG_SIZE)
  then Err (Transport "Chutes E2EE response blob is too short")
  else
    ciphertext_from_slice "invalid Chutes response ML-KEM CT" (str_take CHUTES_MLKEM_CT_SIZE response_blob) ≫= fun mlkem_ct =>
    let nonce := str_take 12 (str_drop CHUTES_MLKEM_CT_SIZE response_blob) in
    let ciphertext := str_drop (CHUTES_MLKEM_CT_SIZE + 12) response_blob in
    chutes_derive_key (decapsulate sk mlkem_ct) mlkem_ct CHUTES_INFO_RESP ≫= fun sym_key =>
    chacha_decrypt sym_key nonce ciphertext ≫= fun plaintext =>
    gzip_decompress plaintext.

Definition decrypt_chutes_stream_init (sk : DecapsulationKey) (mlkem_ct_b64 : string) : result UpstreamError string :=
  decode_base64 "invalid Chutes stream init" mlkem_ct_b64 ≫= fun bytes =>
  ciphertext_from_slice "invalid Chutes stream ML-KEM CT" bytes ≫= fun mlkem_ct =>
  chutes_derive_key (decapsulate sk mlkem_ct) mlkem_ct CHUTES_INFO_STREAM.

Definition decrypt_chutes_stream_chunk (stream_key chunk_b64 : string) : result UpstreamError string :=
  decode_base64 "invalid Chutes stream chunk" chunk_b64 ≫= fun raw =>
  if Nat.leb (String.length raw) (12 + CHUTES_TAG_SIZE) then Err (Transport "Chutes E2EE stream chunk is too short")
  else chacha_decrypt stream_key (str_take 12 raw) (str_drop 12 raw).

(** ** The decrypting stream *)

(** The answers of the inner stream to its polls, [None] for pending. *)
Record ChutesE2eeDecryptingStream := {
  d_inner : list (option (result UpstreamError string));
  d_response_sk : DecapsulationKey;
  stream_key : option string;
  d_buffer : string;
  d_pending : list string;
  d_finished : bool;
}.

Definition ChutesE2eeDecryptingStream_new (inner_ : list (option (result UpstreamError string))) (sk : DecapsulationKey) :
    ChutesE2eeDecryptingStream :=
  {| d_inner := inner_; d_response_sk := sk; stream_key := None; d_buffer := ""; d_pending := []; d_finished := false |}.

Definition sse_data (text : string) : string := "data: " +:+ text +:+ nl +:+ nl.

(** An event of the stream: the stream key after it and what is passed on. *)
Definition process_event (sk : DecapsulationKey) (key : option string) (raw : string) (event : Value) :
    result UpstreamError (option string * option string) :=
  match get event "e2e_init" ≫= as_str with
  | Some init => decrypt_chutes_stream_init sk init ≫= fun k => Ok (Some k, None)
  | None =>
      match get event "e2e" ≫= as_str with
      | Some chunk =>
          ok_or key (Transport "received Chutes E2EE stream chunk before e2e_init") ≫= fun k =>
          decrypt_chutes_stream_chunk k chunk ≫= fun plaintext => Ok (key, Some (plaintext +:+ nl +:+ nl))
      | None =>
          match get event "usage" with
          | Some _ => Ok (key, Some (sse_data raw))
          | None =>
              match get event "e2e_error" with
              | Some error => map_err Transport (to_vec (Obj [("error", error)])) ≫= fun body => Ok (key, Some (sse_data body))
              | None => Ok (key, None)
              end
          end
      end
  end.

Definition sse_line (sk : DecapsulationKey) (key : option string) (line : string) :
    result UpstreamError (option string * option string) :=
  match strip_prefix "data: " line with
  | None => Ok (key, None)
  | Some data =>
      if negb (valid_utf8b data) then Err (Transport "Chutes E2EE stream line is not UTF-8")
      else
        let raw := str_trim data in
        if String.eqb raw "" then Ok (key, None)
        else if String.eqb raw "[DONE]" then Ok (key, Some (sse_data "[DONE]"))
        else
          map_err (fun e => Transport ("invalid Chutes E2EE SSE event: " +:+ e)) (from_slice raw) ≫= fun event =>
          process_event sk key raw event
  end.

Definition process_sse_line (line : string) (s : ChutesE2eeDecryptingStream) :
    result UpstreamError unit * ChutesE2eeDecryptingStream :=
  match sse_line (d_response_sk s) (stream_key s) line with
  | Err e => (Err e, s)
  | Ok (key, out) =>
      (Ok tt, {| d_inner := d_inner s; d_response_sk := d_response_sk s; stream_key := key; d_buffer := d_buffer s;
                 d_pending := d_pending s ++ option_list out; d_finished := d_finished s |})
  end.

Definition set_buffer (buffer : string) (s : ChutesE2eeDecryptingStream) : ChutesE2eeDecryptingStream :=
  {| d_inner := d_inner s; d_response_sk := d_response_sk s; stream_key := stream_key s; d_buffer := buffer;
     d_pending := d_pending s; d_finished := d_finished s |}.

Definition set_inner (inner_ : list (option (result UpstreamError string))) (s : ChutesE2eeDecryptingStream) :
    ChutesE2eeDecryptingStream :=
  {| d_inner := inner_; d_response_sk := d_response_sk s; stream_key := stream_key s; d_buffer := d_buffer s;
     d_pending := d_pending s; d_finished := d_finished s |}.

Definition set_pending (pending : list string) (s : ChutesE2eeDecryptingStream) : ChutesE2eeDecryptingStream :=
  {| d_inner := d_inner s; d_response_sk := d_response_sk s; stream_key := stream_key s; d_buffer := d_buffer s;
     d_pending := pending; d_finished := d_finished s |}.

Definition set_finished (s : ChutesE2eeDecryptingStream) : ChutesE2eeDecryptingStream :=
  {| d_inner := d_inner s; d_response_sk := d_response_sk s; stream_key := stream_key s; d_buffer := d_buffer s;
     d_pending := d_pending s; d_finished := true |}.

(** Every line takes at least its line feed out of the buffer. *)
Fixpoint process_lines (fuel : nat) (s : ChutesE2eeDecryptingStream) :
    result UpstreamError unit * ChutesE2eeDecryptingStream :=
  match fuel with
  | O => (Ok tt, s)
  | S fuel =>
      match find_sub nl (d_buffer s) with
      | None => (Ok tt, s)
      | Some pos =>
          let line := str_take pos (d_buffer s) in
          match process_sse_line (pop_cr line) (set_buffer (str_drop (S pos) (d_buffer s)) s) with
          | (Ok _, s) => process_lines fuel s
          | (Err e, s) => (Err e, s)
          end
      end
  end.

Definition process_buffer (s : ChutesE2eeDecryptingStream) : result UpstreamError unit * ChutesE2eeDecryptingStream :=
  process_lines (String.length (d_buffer s)) s.

Inductive ChunkPoll := ChunkPending | ChunkReady (item : option (result UpstreamError string)).

(** The loop over the inner stream's answers. *)
Fixpoint poll_inner (answers : list (option (result UpstreamError string))) (s : ChutesE2eeDecryptingStream) :
    ChunkPoll * ChutesE2eeDecryptingStream :=
  match answers with
  | None :: rest => (ChunkPending, set_inner rest s)
  | Some (Ok chunk) :: rest =>
      match process_buffer (set_buffer (d_buffer s +:+ chunk) s) with
      | (Err err, s) => (ChunkReady (Some (Err err)), set_inner rest (set_finished s))
      | (Ok _, s) =>
          match d_pending s with
          | chunk :: pending => (ChunkReady (Some (Ok chunk)), set_inner rest (set_pending pending s))
          | [] => poll_inner rest s
          end
      end
  | Some (Err err) :: rest => (ChunkReady (Some (Err err)), set_inner rest (set_finished s))
  | [] =>
      let ended s :=
        match d_pending s with
        | chunk :: pending => (ChunkReady (Some (Ok chunk)), set_inner [] (set_pending pending (set_finished s)))
        | [] => (ChunkReady None, set_inner [] (set_finished s))
        end in
      if String.eqb (d_buffer s) "" then ended s
      else match process_sse_line (d_buffer s) (set_buffer "" s) with
           | (Err err, s) => (ChunkReady (Some (Err err)), set_inner [] (set_finished s))
           | (Ok _, s) => ended s
           end
  end.

Definition poll_next (s : ChutesE2eeDecryptingStream) : ChunkPoll * ChutesE2eeDecryptingStream :=
  match d_pending s with
  | chunk :: pending => (ChunkReady (Some (Ok chunk)), set_pending pending s)
  | [] => if d_finished s then (ChunkReady None, s) else poll_inner (d_inner s) s
  end.

(** Polling to the end. *)
Fixpoint collect (polls : nat) (s : ChutesE2eeDecryptingStream) : list (result UpstreamError string) :=
  match polls with
  | O => []
  | S polls =>
      match poll_next s with
      | (ChunkPending, s) => collect polls s
      | (ChunkReady (Some item), s) => item :: collect polls s
      | (ChunkReady None, _) => []
      end
  end.

Definition answer_size (a : option (result UpstreamError string)) : nat :=
  match a with Some (Ok chunk) => S (String.length chunk) | _ => 1 end.

(** As many polls as the stream can answer: with what is pending, with what the
    rest of the wire can add, and with its end. *)
Definition polls_left (s : ChutesE2eeDecryptingStream) : nat :=
  (length (d_pending s)
   + if d_finished s then 0 else String.length (d_buffer s) + sum_list_with answer_size (d_inner s) + 2)%nat.

Definition stream_items (s : ChutesE2eeDecryptingStream) : list (result UpstreamError string) := collect (S (polls_left s)) s.
End Crypto.

(** ** The transport *)

Record ChutesLookupEntry := { le_name : option string; le_chute_id : option string }.
Record ChutesInstanceEvidence := { ev_instance_id : string; ev_quote : option Value; gpu_evidence : Value }.

(** The derived parsers of the provider's answers, and [RequestBuilder::query]. *)
Class ChutesCodec : Type := {
  parse_lookup : string -> result string (list ChutesLookupEntry);
  parse_instances : string -> result string ChutesInstancesResponse;
  parse_evidence : string -> result string (list ChutesInstanceEvidence);
  with_query : string -> list (string * string) -> string;
}.

(** The session store, the requests handed to the client so far, the random generator. *)
Record Link `{ChutesLibs} := { l_store : ChutesSessionCache; l_sent : list HttpRequest; l_rng : OsRng }.

(** What other tasks do to the store while a run waits, and the clock when it
    goes on: at the lookup of the chute, after the provider's answer to it, and
    during the acquisition. *)
Record Schedule := {
  at_lookup : Z;
  before_cached : list PoolOp;
  at_cached : Z;
  before_acquire : list PoolOp;
  at_acquire : Acquisition;
}.

Section Transport.
Context `{Digest} `{Base64} `{Base64Error} `{Crypto} `{SerdeJson} `{StrDebug} `{ChutesLibs} `{ChutesCodec} `{HttpClient}.

Definition Tx (A : Type) : Type := Link -> result UpstreamError A * Link.

#[export] Instance tx_ret : MRet Tx := fun A a l => (Ok a, l).
#[export] Instance tx_bind : MBind Tx := fun A B f m l =>
  match m l with (Ok a, l') => f a l' | (Err e, l') => (Err e, l') end.
Definition tx_lift {A} (r : result UpstreamError A) : Tx A := fun l => (r, l).
Definition tx_store {A} (f : ChutesSessionCache -> A * ChutesSessionCache) : Tx A := fun l =>
  let '(a, c) := f (l_store l) in (Ok a, {| l_store := c; l_sent := l_sent l; l_rng := l_rng l |}).
Definition tx_random {A} (f : OsRng -> A * OsRng) : Tx A := fun l =>
  let '(a, g) := f (l_rng l) in (Ok a, {| l_store := l_store l; l_sent := l_sent l; l_rng := g |}).
Definition others (ops : list PoolOp) : Tx unit := tx_store (fun c => (tt, exec_all c ops)).

Definition looks_like_uuid (value : string) : bool :=
  Nat.eqb (length (split_by (Ascii.eqb "-") value)) 5 && Nat.eqb (String.length value) 36
  && string_forallb (fun c => Ascii.eqb c "-" || is_ascii_hexdigit c) value.

Context (b : ChutesProviderBackend).

Definition chutes_api_key : result UpstreamError string :=
  let token := default "" (api_key b) in
  if is_blank token then Err (Transport "Chutes E2EE transport requires bearer_token in upstream config") else Ok token.

Definition hand_over (r : HttpRequest) : Tx HttpResponse := fun l =>
  (map_err Transport (send (ch_client b) r), {| l_store := l_store l; l_sent := l_sent l ++ [r]; l_rng := l_rng l |}).

Definition get_request (path : string) (query : list (string * string)) (key : string) : HttpRequest :=
  let url := e2ee_api_base b +:+ path in
  {| method := GET; url := match query with [] => url | _ => with_query url query end;
     http_headers := [("authorization", "Bearer " +:+ key); ("accept", "application/json")]; http_body := "" |}.

Definition read_success (resp : HttpResponse) : result UpstreamError string :=
  map_err Transport (read_all (http_chunks resp)) ≫= fun body =>
  if (200 <=? http_status resp) && (http_status resp <? 300) then Ok body
  else Err (Upstream (http_status resp) (from_utf8_lossy body)).

(** A request, its answer's body when it succeeds, and what is parsed from it. *)
Definition answer_of {A} (parse : string -> result string A) (resp : result UpstreamError HttpResponse) : result UpstreamError A :=
  resp ≫= fun resp => read_success resp ≫= fun body => map_err Transport (parse body).

Definition fetch_json {A} (parse : string -> result string A) (r : HttpRequest) : Tx A :=
  fun l => let '(resp, l) := hand_over r l in (answer_of parse resp, l).

Definition names_model (model : string) (e : ChutesLookupEntry) : bool :=
  match le_name e, le_chute_id e with Some n, Some _ => String.eqb n model | _, _ => false end.

Definition lookup_request (model key : string) : HttpRequest :=
  get_request "/chutes/" [("include_public", "true"); ("name", model)] key.

Definition resolve_chute_id (x : Schedule) (model key : string) : Tx string :=
  if looks_like_uuid model then mret model
  else match chute_ids b !! model with
       | Some chute_id => mret chute_id
       | None =>
           cached ← tx_store (fun c => cached_chute_id (at_lookup x) c model);
           match cached with
           | Some chute_id => mret chute_id
           | None =>
               items ← fetch_json parse_lookup (lookup_request model key);
               chute_id ← tx_lift (ok_or (List.find (names_model model) items ≫= le_chute_id)
                 (Routing ("Chutes /chutes lookup did not return an exact chute_id match for model " +:+ debug_str model)));
               _ ← others (before_cached x);
               _ ← tx_store (fun c => (tt, cache_chute_id (at_cached x) c model chute_id));
               mret chute_id
           end
       end.

Definition instances_request (chute_id key : string) : HttpRequest := get_request ("/e2e/instances/" +:+ chute_id) [] key.

Definition fetch_instances (chute_id key : string) : Tx ChutesInstancesResponse :=
  fetch_json parse_instances (instances_request chute_id key).

Definition evidence_request (chute_id nonce key : string) : HttpRequest :=
  get_request ("/chutes/" +:+ chute_id +:+ "/evidence") [("nonce", nonce)] key.

Definition fetch_evidence (chute_id nonce key : string) : Tx (list ChutesInstanceEvidence) :=
  fetch_json parse_evidence (evidence_request chute_id nonce key).

(** The acquisition, with the answer the provider gives to the discovery request. *)
Definition with_fetched (r : result UpstreamError ChutesInstancesResponse) (x : Acquisition) : Acquisition :=
  {| at_first := at_first x; before_second := before_second x; at_second := at_second x; fetched := r;
     before_record := before_record x; at_record := at_record x; before_third := before_third x; at_third := at_third x |}.

Definition discovery_answer (chute_id key : string) : result UpstreamError ChutesInstancesResponse :=
  answer_of parse_instances (map_err Transport (send (ch_client b) (instances_request chute_id key))).

(** The pool is empty twice: only then is the provider asked. *)
Definition refills (x : Acquisition) (c : ChutesSessionCache) (chute_id : string) (accepted : list ChutesAcceptedBinding) : bool :=
  match pop_verified_nonce (at_first x) c chute_id accepted with
  | (Some _, _) => false
  | (None, c) =>
      match pop_verified_nonce (at_second x) (exec_all c (before_second x)) chute_id accepted with
      | (Some _, _) => false
      | (None, _) => true
      end
  end.

Definition acquire (x : Acquisition) (chute_id key : string) (accepted : list ChutesAcceptedBinding) : Tx SelectedChutesInstance :=
  fun l =>
    let '(r, c) := acquire_verified_chutes_session (with_fetched (discovery_answer chute_id key) x) (l_store l) chute_id accepted in
    let asked := if refills x (l_store l) chute_id accepted then [instances_request chute_id key] else [] in
    (r, {| l_store := c; l_sent := l_sent l ++ asked; l_rng := l_rng l |}).

Definition chutes_invoke_headers (key chute_id instance_id nonce : string) (stream : bool) (e2e_path : string) : gmap string string :=
  list_to_map [("authorization", "Bearer " +:+ key); ("x-chute-id", chute_id); ("x-instance-id", instance_id);
               ("x-e2e-nonce", nonce); ("x-e2e-stream", if stream then "true" else "false");
               ("x-e2e-path", e2e_path); ("content-type", "application/octet-stream")].

Definition invoke_request (key chute_id : string) (selected : SelectedChutesInstance) (stream : bool) (path : option string)
    (body : string) : HttpRequest :=
  {| method := POST; url := e2ee_api_base b +:+ "/e2e/invoke";
     http_headers := map_to_list (chutes_invoke_headers key chute_id (s_instance_id selected) (s_nonce selected) stream
                                    (default "/v1/chat/completions" path));
     http_body := body |}.

Record ChutesInvokeResponse := {
  iv_status_code : Z;
  iv_headers : gmap string string;
  iv_response_sk : DecapsulationKey;
  iv_response : HttpResponse;
  iv_instance_id : string;
}.

Definition build_request (pubkey : string) (payload : Value) : Tx ChutesE2eeRequest := fun l =>
  let '(r, g) := build_chutes_e2ee_request pubkey payload (l_rng l) in
  (r, {| l_store := l_store l; l_sent := l_sent l; l_rng := g |}).

Definition payload_model (body : string) : result UpstreamError (Value * string) :=
  map_err (fun e => Routing ("invalid JSON request body: " +:+ e)) (from_slice body) ≫= fun payload =>
  ok_or (get payload "model" ≫= as_str) no_string_model ≫= fun model => Ok (payload, model).

Definition invoke_verified (x : Schedule) (req : PreparedUpstreamRequest) (event : UpstreamVerifiedEvent) (stream : bool) :
    Tx ChutesInvokeResponse :=
  if negb (bool_decide (uv_result event = Verified)) then tx_lift (Err e2ee_requires_verified_binding)
  else
    key ← tx_lift chutes_api_key;
    pm ← tx_lift (payload_model (req_body (p_request req)));
    chute_id ← resolve_chute_id x pm.2 key;
    accepted ← tx_lift (chutes_accepted_bindings event);
    _ ← others (before_acquire x);
    selected ← acquire (at_acquire x) chute_id key accepted;
    encrypted ← build_request (s_e2e_pubkey selected) pm.1;
    resp ← hand_over (invoke_request key chute_id selected stream (req_path (p_request req)) (blob encrypted));
    mret {| iv_status_code := http_status resp; iv_headers := response_headers resp;
            iv_response_sk := response_sk encrypted; iv_response := resp; iv_instance_id := s_instance_id selected |}.

Definition chutes_forward (x : Schedule) (req : PreparedUpstreamRequest) (event : UpstreamVerifiedEvent) : Tx UpstreamResponse :=
  invoke ← invoke_verified x req event false;
  body ← tx_lift (map_err Transport (read_all (http_chunks (iv_response invoke))));
  if negb (iv_status_code invoke =? 200) then
    mret {| status_code := iv_status_code invoke; resp_body := body; resp_headers := iv_headers invoke;
            served_instance_id := Some (iv_instance_id invoke) |}
  else
    body ← tx_lift (decrypt_chutes_response body (iv_response_sk invoke));
    mret {| status_code := iv_status_code invoke; resp_body := body;
            resp_headers := {["content-type" := "application/json"]};
            served_instance_id := Some (iv_instance_id invoke) |}.

Definition chutes_forward_stream (x : Schedule) (req : PreparedUpstreamRequest) (event : UpstreamVerifiedEvent) :
    Tx UpstreamStreamResponse :=
  invoke ← invoke_verified x req event true;
  let raw_body := map (map_err Transport) (http_chunks (iv_response invoke)) in
  if iv_status_code invoke =? 200 then
    mret {| s_status_code := iv_status_code invoke; s_headers := <["content-type" := "text/event-stream"]> (iv_headers invoke);
            s_body := stream_items (ChutesE2eeDecryptingStream_new (map Some raw_body) (iv_response_sk invoke));
            s_served_instance_id := Some (iv_instance_id invoke) |}
  else
    mret {| s_status_code := iv_status_code invoke; s_headers := iv_headers invoke; s_body := raw_body;
            s_served_instance_id := Some (iv_instance_id invoke) |}.

(** Filling the pool ahead of requests; [now] is the clock when the answer is recorded. *)
Definition refresh_verified_sessions_for_model (x : Schedule) (now : Z) (model : string) (event : UpstreamVerifiedEvent) : Tx Z :=
  if negb (bool_decide (uv_result event = Verified)) then tx_lift (Err e2ee_requires_verified_binding)
  else
    key ← tx_lift chutes_api_key;
    chute_id ← resolve_chute_id x model key;
    accepted ← tx_lift (chutes_accepted_bindings event);
    discovery ← fetch_instances chute_id key;
    _ ← others (before_acquire x);
    added ← tx_store (fun c => cache_verified_chutes_nonces now c chute_id discovery accepted);
    tx_lift added.

Definition random_nonce_hex : Tx string := bytes ← tx_random (fill_bytes 32); mret (hex_encode bytes).

Definition instance_report (nonce : string) (pubkeys : gmap string string) (item : ChutesInstanceEvidence) : Value :=
  {{ "instance_id" ≔ Str (ev_instance_id item); "nonce" ≔ Str nonce;
     "e2e_pubkey" ≔ match pubkeys !! ev_instance_id item with Some k => Str k | None => Null end;
     "intel_quote" ≔ default Null (ev_quote item); "gpu_evidence" ≔ gpu_evidence item }}.

Definition legacy_report (x : Schedule) (model : string) : Tx Value :=
  key ← tx_lift chutes_api_key;
  chute_id ← resolve_chute_id x model key;
  nonce ← random_nonce_hex;
  discovery ← fetch_instances chute_id key;
  let pubkeys := fold_left (fun m i => <[ii_instance_id i := ii_e2e_pubkey i]> m) (ir_instances discovery) ∅ in
  evidence ← fetch_evidence chute_id nonce key;
  mret {{ "attestation_type" ≔ Str "chutes"; "nonce" ≔ Str nonce;
          "all_attestations" ≔ Arr (map (instance_report nonce pubkeys) evidence) }}.
End Transport.

(** The transport a backend uses at a given moment. *)
Definition transport_at `{Digest} `{Base64} `{Base64Error} `{Crypto} `{SerdeJson} `{StrDebug} `{ChutesLibs} `{ChutesCodec}
    `{HttpClient} (x : Schedule) (l : Link) : ChutesTransport := {|
  chutes_forward_verified b req event := (chutes_forward b x req event l).1;
  chutes_stream_verified b req event := (chutes_forward_stream b x req event l).1;
  chutes_report b model := (legacy_report b x model l).1 |}.

(** ** The stream does not depend on its chunks *)

#[local] Arguments NL : simpl never.

(** The lines of a text, and what follows its last line feed. *)
Fixpoint split_lines (s : string) : list string * string :=
  match s with
  | EmptyString => ([], "")
  | String c s =>
      let '(lines, rest) := split_lines s in
      if Ascii.eqb c NL then ("" :: lines, rest)
      else match lines with [] => ([], String c rest) | l :: lines => (String c l :: lines, rest) end
  end.

Lemma event_lines_app a b :
  split_lines (a +:+ b) =
  ((split_lines a).1 ++ (split_lines ((split_lines a).2 +:+ b)).1, (split_lines ((split_lines a).2 +:+ b)).2).
Proof.
  induction a as [|c a IH]; cbn; [by destruct (split_lines b)|]. rewrite IH. destruct (split_lines a) as [[|l ls] r]; cbn.
  - destruct (Ascii.eqb c NL) eqn:E; cbn; [done|]. rewrite E. by destruct (split_lines (r +:+ b)) as [[|??]?].
  - by destruct (Ascii.eqb c NL).
Qed.

Lemma split_lines_find s :
  split_lines s = match find_sub nl s with
                  | Some pos => (str_take pos s :: (split_lines (str_drop (S pos) s)).1, (split_lines (str_drop (S pos) s)).2)
                  | None => ([], s)
                  end.
Proof.
  induction s as [|c s IH]; [done|]. cbn [split_lines find_sub]. unfold starts_with. cbn [String.prefix nl].
  destruct (Ascii.eqb_spec c NL) as [->|Hc].
  - destruct (ascii_dec NL NL); [|done]. cbn. destruct s; cbn; [done|]. by destruct (split_lines s) as [[]]; destruct (Ascii.eqb _ _).
  - destruct (ascii_dec NL c); [congruence|]. rewrite IH. destruct (find_sub nl s); done.
Qed.

Lemma split_lines_length s : (length (split_lines s).1 + String.length (split_lines s).2 <= String.length s)%nat.
Proof.
  induction s as [|c s IH]; cbn; [lia|]. destruct (split_lines s) as [[|l ls] r]; cbn in *; destruct (Ascii.eqb c NL); cbn; lia.
Qed.

Lemma find_nl_shorter s pos : find_sub nl s = Some pos -> (String.length (str_drop (S pos) s) < String.length s)%nat.
Proof.
  intros E. pose proof (find_sub_Some nl s pos E) as Hs. replace (pos + String.length nl)%nat with (S pos) in Hs by (cbn; lia).
  rewrite Hs at 2. rewrite !string_app_length. cbn. lia.
Qed.

Section Chunking.
Context `{Digest} `{Base64} `{Base64Error} `{Crypto} `{SerdeJson} `{ChutesLibs}.

(** Lines one after the other: what is passed on before the first failure, and
    the failure or the key after the last line. *)
Fixpoint decode_lines (sk : DecapsulationKey) (key : option string) (lines : list string) :
    list string * result UpstreamError (option string) :=
  match lines with
  | [] => ([], Ok key)
  | line :: lines =>
      match sse_line sk key line with
      | Err e => ([], Err e)
      | Ok (key, out) => let '(outs, r) := decode_lines sk key lines in (option_list out ++ outs, r)
      end
  end.

Lemma decode_lines_app sk key l l' :
  decode_lines sk key (l ++ l') =
  match decode_lines sk key l with
  | (outs, Ok key) => ((outs ++ (decode_lines sk key l').1)%list, (decode_lines sk key l').2)
  | (outs, Err e) => (outs, Err e)
  end.
Proof.
  revert key. induction l as [|x l IH]; intros key; cbn; [by destruct (decode_lines sk key l')|].
  destruct (sse_line sk key x) as [[key' out]|e]; [|done]. rewrite IH. destruct (decode_lines sk key' l) as [outs [k|e]]; [|done].
  by rewrite app_assoc.
Qed.

Lemma decode_lines_length sk key l : (length (decode_lines sk key l).1 <= length l)%nat.
Proof.
  revert key. induction l as [|x l IH]; intros key; cbn; [lia|]. destruct (sse_line sk key x) as [[key' out]|e]; cbn; [|lia].
  specialize (IH key'). destruct (decode_lines sk key' l) as [outs r]. cbn in *. rewrite length_app. destruct out; cbn; lia.
Qed.

(** The bytes that arrive, and the failure that ends them, if one does. *)
Fixpoint wire (answers : list (option (result UpstreamError string))) : string * option UpstreamError :=
  match answers with
  | [] => ("", None)
  | None :: rest => wire rest
  | Some (Ok chunk) :: rest => let '(text, e) := wire rest in (chunk +:+ text, e)
  | Some (Err e) :: _ => ("", Some e)
  end.

(** The decryption of a whole text: its lines, and its unfinished last line
    unless the connection failed there. *)
Definition decode_text (sk : DecapsulationKey) (key : option string) (text : string) (failure : option UpstreamError) :
    list string * option UpstreamError :=
  let '(lines, rest) := split_lines text in
  let '(outs, r) := decode_lines sk key (map pop_cr lines ++ match failure with None => [rest] | Some _ => [] end) in
  (outs, match r with Err e => Some e | Ok _ => failure end).

Definition oks (items : list (result UpstreamError string)) : list string := omap ok items.
Definition errors (items : list (result UpstreamError string)) : list UpstreamError :=
  omap (fun i => match i with Err e => Some e | Ok _ => None end) items.

(** What a stream still has to deliver. *)
Definition future (s : ChutesE2eeDecryptingStream) : list string * option UpstreamError :=
  if d_finished s then (d_pending s, None)
  else
    let '(text, failure) := wire (d_inner s) in
    let '(outs, e) := decode_text (d_response_sk s) (stream_key s) (d_buffer s +:+ text) failure in
    (d_pending s ++ outs, e).

Definition with_state (key : option string) (buffer : string) (pending : list string) (s : ChutesE2eeDecryptingStream) :
    ChutesE2eeDecryptingStream :=
  {| d_inner := d_inner s; d_response_sk := d_response_sk s; stream_key := key; d_buffer := buffer;
     d_pending := pending; d_finished := d_finished s |}.

Lemma process_lines_ok fuel s :
  (String.length (d_buffer s) <= fuel)%nat ->
  match decode_lines (d_response_sk s) (stream_key s) (map pop_cr (split_lines (d_buffer s)).1) with
  | (outs, Ok key) => process_lines fuel s = (Ok tt, with_state key (split_lines (d_buffer s)).2 (d_pending s ++ outs) s)
  | (outs, Err e) => exists key buffer, process_lines fuel s = (Err e, with_state key buffer (d_pending s ++ outs) s)
  end.
Proof.
  revert s. induction fuel as [|fuel IH]; intros s Hf.
  { destruct s as [i sk k [|??] p f]; cbn in *; [by rewrite app_nil_r|lia]. }
  cbn [process_lines]. rewrite split_lines_find. destruct (find_sub nl (d_buffer s)) as [pos|] eqn:E.
  2: { cbn. rewrite app_nil_r. by destruct s. }
  apply find_nl_shorter in E. set (rest := str_drop (S pos) (d_buffer s)) in *. clearbody rest.
  cbn [fst snd map decode_lines]. unfold process_sse_line. cbn [d_response_sk stream_key set_buffer].
  destruct (sse_line _ _ _) as [[key' out]|e].
  2: { exists (stream_key s), rest. rewrite app_nil_r. by destruct s. }
  match goal with |- context [process_lines fuel ?s1] => specialize (IH s1) end. cbn [d_buffer d_response_sk stream_key d_pending set_buffer] in IH. specialize (IH ltac:(lia)).
  destruct (decode_lines _ _ _) as [outs [key|e]]; cbn in IH |- *; rewrite app_assoc.
  - exact IH.
  - destruct IH as (k & buf & ->). by exists k, buf.
Qed.

Lemma decode_text_app sk key a b failure :
  decode_text sk key (a +:+ b) failure =
  match decode_lines sk key (map pop_cr (split_lines a).1) with
  | (outs, Ok key) => ((outs ++ (decode_text sk key ((split_lines a).2 +:+ b) failure).1)%list,
                       (decode_text sk key ((split_lines a).2 +:+ b) failure).2)
  | (outs, Err e) => (outs, Some e)
  end.
Proof.
  unfold decode_text. rewrite event_lines_app. destruct (split_lines (_ +:+ b)) as [lines rest]. cbn [fst snd].
  rewrite map_app, <- app_assoc, decode_lines_app. destruct (decode_lines sk key (map _ (split_lines a).1)) as [outs [k|e]]; [|done].
  by destruct (decode_lines sk k _) as [? []].
Qed.

Lemma decode_text_nil sk key text :
  decode_text sk key text None =
  match decode_lines sk key (map pop_cr (split_lines text).1) with
  | (outs, Ok key) => match sse_line sk key (split_lines text).2 with
                      | Ok (_, out) => (outs ++ option_list out, None)
                      | Err e => (outs, Some e)
                      end
  | (outs, Err e) => (outs, Some e)
  end.
Proof.
  unfold decode_text. destruct (split_lines text) as [lines rest]. rewrite decode_lines_app. cbn.
  destruct (decode_lines sk key _) as [outs [k|e]]; [|done]. destruct (sse_line sk k rest) as [[k' out]|e]; cbn; by rewrite ?app_nil_r.
Qed.

Definition step_ok (s : ChutesE2eeDecryptingStream) (p : ChunkPoll) (s' : ChutesE2eeDecryptingStream) : Prop :=
  match p with
  | ChunkPending => future s = future s' /\ (polls_left s' < polls_left s)%nat
  | ChunkReady (Some (Ok c)) => future s = (c :: (future s').1, (future s').2) /\ (polls_left s' < polls_left s)%nat
  | ChunkReady (Some (Err e)) => future s = ((future s').1, Some e) /\ (future s').2 = None /\ (polls_left s' < polls_left s)%nat
  | ChunkReady None => future s = ([], None)
  end.

Definition tidy (s : ChutesE2eeDecryptingStream) : Prop :=
  d_finished s = false -> split_lines (d_buffer s) = ([], d_buffer s).

Lemma split_lines_rest s : split_lines (split_lines s).2 = ([], (split_lines s).2).
Proof.
  induction s as [|c s IH]; [done|]. cbn. destruct (split_lines s) as [[|l ls] r]; cbn in *; destruct (Ascii.eqb c NL) eqn:E; try done.
  cbn. by rewrite IH, E.
Qed.

(** At the end of the wire the rest of the buffer is a line. *)
Lemma poll_end_ok s p s' :
  d_pending s = [] -> d_finished s = false -> tidy s ->
  poll_inner [] s = (p, s') -> step_ok (set_inner [] s) p s' /\ tidy s'.
Proof.
  intros Hp Hf Ht. cbn [poll_inner].
  specialize (Ht Hf). assert (Hlast : future (set_inner [] s) =
    match sse_line (d_response_sk s) (stream_key s) (d_buffer s) with
    | Ok (_, out) => (option_list out, None)
    | Err e => ([], Some e)
    end).
  { unfold future. cbn. rewrite Hf, Hp, string_app_nil_r, decode_text_nil, Ht. cbn.
    by destruct (sse_line _ _ _) as [[??]|]. }
  destruct (String.eqb_spec (d_buffer s) "") as [Eb|Eb].
  { rewrite Hp. intros [= <- <-]. cbn [step_ok]. rewrite Hlast, Eb. cbn. done. }
  unfold process_sse_line. cbn [set_buffer d_response_sk stream_key].
  assert (0 < String.length (d_buffer s))%nat by (destruct (d_buffer s); cbn; [done|lia]).
  destruct (sse_line _ _ _) as [[key out]|e]; cbn [d_pending set_buffer].
  + rewrite Hp. destruct out as [out|]; cbn; intros [= <- <-]; cbn [step_ok]; rewrite Hlast; split; try done.
    split; [done|]. unfold polls_left. cbn. rewrite Hf, Hp. cbn. lia.
  + intros [= <- <-]. cbn [step_ok]. rewrite Hlast. split; [|done]. unfold polls_left, future. cbn. rewrite Hf, Hp. cbn.
    split_and!; [done..|lia].
Qed.

(** A poll takes from what the stream has to deliver exactly what it answers. *)
Lemma poll_inner_ok answers s p s' :
  d_pending s = [] -> d_finished s = false -> tidy s ->
  poll_inner answers s = (p, s') -> step_ok (set_inner answers s) p s' /\ tidy s'.
Proof.
  revert s. induction answers as [|[[chunk|e]|] rest IH]; intros s Hp Hf Ht;
    [by apply poll_end_ok|cbn [poll_inner]..].
  - unfold process_buffer. cbn [d_buffer set_buffer].
    set (s0 := set_buffer (d_buffer s +:+ chunk) s).
    pose proof (process_lines_ok (String.length (d_buffer s +:+ chunk)) s0 ltac:(done)) as Hpl. cbn [s0 set_buffer d_buffer d_response_sk stream_key d_pending] in Hpl.
    rewrite Hp in Hpl. cbn [app] in Hpl.
    pose proof (decode_text_app (d_response_sk s) (stream_key s) (d_buffer s +:+ chunk) (wire rest).1 (wire rest).2) as Hdt.
    pose proof (split_lines_length (d_buffer s +:+ chunk)) as Hlen. rewrite string_app_length in Hlen.
    pose proof (decode_lines_length (d_response_sk s) (stream_key s) (map pop_cr (split_lines (d_buffer s +:+ chunk)).1)) as Hdl.
    rewrite length_map in Hdl.
    assert (Hfut : future (set_inner (Some (Ok chunk) :: rest) s) =
      decode_text (d_response_sk s) (stream_key s) ((d_buffer s +:+ chunk) +:+ (wire rest).1) (wire rest).2).
    { unfold future. cbn. rewrite Hf, Hp. destruct (wire rest) as [text failure]. cbn. rewrite <- string_app_assoc.
      by destruct (decode_text _ _ _ _). }
    rewrite Hdt in Hfut. clear Hdt.
    destruct (decode_lines _ _ _) as [outs [key|e]]; cbn [fst] in Hdl.
    + rewrite Hpl. cbn [with_state d_pending]. destruct outs as [|o outs].
      * intros E. apply IH in E; [|done|done|intros _; apply split_lines_rest].
        cbn [app] in Hfut. destruct E as [E Ht']. split; [|done].
        assert (Heq : future (set_inner (Some (Ok chunk) :: rest) s) = future (set_inner rest (with_state key (split_lines (d_buffer s +:+ chunk)).2 [] s0))).
        { rewrite Hfut. unfold future. cbn. rewrite Hf. destruct (wire rest). cbn. by destruct (decode_text _ _ _ _). }
        assert (Hless : (polls_left (set_inner rest (with_state key (split_lines (d_buffer s +:+ chunk)).2 [] s0)) <
          polls_left (set_inner (Some (Ok chunk) :: rest) s))%nat).
        { unfold polls_left. cbn. rewrite Hf. lia. }
        destruct p as [|[[c|e]|]]; cbn [step_ok] in *; rewrite Heq; intuition lia.
      * intros [= <- <-]. cbn [step_ok]. rewrite Hfut. split; [split|].
        -- unfold future. cbn. rewrite Hf. destruct (wire rest). cbn. by destruct (decode_text _ _ _ _).
        -- unfold polls_left. cbn in *. rewrite Hf, Hp. cbn. lia.
        -- intros _. apply split_lines_rest.
    + destruct Hpl as (key & buffer & ->). intros [= <- <-]. cbn [step_ok]. rewrite Hfut. split; [|done].
      unfold polls_left, future. cbn. rewrite Hf, Hp. cbn. split_and!; [done..|lia].
  - intros [= <- <-]. cbn [step_ok]. split; [|done]. specialize (Ht Hf). unfold polls_left, future. cbn.
    rewrite Hf, Hp, string_app_nil_r. unfold decode_text. rewrite Ht. cbn. split_and!; [done..|lia].
  - intros [= <- <-]. cbn [step_ok]. split; [|done]. unfold polls_left, future. cbn. rewrite Hf, Hp. cbn. split; [done|lia].
Qed.

Lemma poll_next_ok s p s' : tidy s -> poll_next s = (p, s') -> step_ok s p s' /\ tidy s'.
Proof.
  intros Ht. unfold poll_next. destruct (d_pending s) as [|c pending] eqn:Hp.
  - destruct (d_finished s) eqn:Hf.
    + intros [= <- <-]. cbn. unfold future. by rewrite Hf, Hp.
    + intros E. apply poll_inner_ok in E; [|done..]. by destruct s.
  - intros [= <- <-]. split; [|done]. cbn [step_ok]. unfold future, polls_left. cbn. rewrite Hp.
    destruct (d_finished s); [split; [done|cbn; lia]|]. split; [|cbn; lia].
    destruct (wire (d_inner s)). by destruct (decode_text _ _ _ _).
Qed.

Lemma oks_cons i items : oks (i :: items) = (option_list (ok i) ++ oks items)%list.
Proof. by destruct i. Qed.

Lemma errors_cons i items : errors (i :: items) = ((match i with Err e => [e] | Ok _ => [] end) ++ errors items)%list.
Proof. by destruct i. Qed.

Lemma collect_ok polls s :
  tidy s -> (polls_left s < polls)%nat ->
  oks (collect polls s) = (future s).1 /\ errors (collect polls s) = option_list (future s).2.
Proof.
  revert s. induction polls as [|polls IH]; intros s Ht Hl; [lia|]. cbn [collect].
  destruct (poll_next s) as [p s'] eqn:E. apply poll_next_ok in E as [Hs Ht']; [|done].
  destruct p as [|[[c|e]|]]; cbn [step_ok] in Hs.
  - destruct Hs as [-> ?]. apply IH; [done|lia].
  - destruct Hs as [-> ?], (IH s' Ht' ltac:(lia)) as [Ho He]. rewrite oks_cons, errors_cons, Ho, He. done.
  - destruct Hs as (-> & Hn & ?), (IH s' Ht' ltac:(lia)) as [Ho He]. rewrite oks_cons, errors_cons, Ho, He, Hn. done.
  - by rewrite Hs.
Qed.

(** C38: what a client gets of an encrypted stream depends on the bytes the
    provider sent and not on how they arrived: however the text is cut into
    chunks and whatever polls are pending, polling to the end delivers, in
    order, the decryption of the lines before the first one that fails, and
    reports that failure, or else the one of the connection, exactly once. *)
Theorem chutes_stream_chunking sk answers :
  let items := stream_items (ChutesE2eeDecryptingStream_new answers sk) in
  let '(outs, failure) := decode_text sk None (wire answers).1 (wire answers).2 in
  oks items = outs /\ errors items = option_list failure.
Proof.
  cbn zeta. unfold stream_items. pose proof (collect_ok _ (ChutesE2eeDecryptingStream_new answers sk) ltac:(done) (Nat.lt_succ_diag_r _)) as Hc.
  unfold future in Hc. cbn [d_finished ChutesE2eeDecryptingStream_new d_inner d_pending d_buffer d_response_sk stream_key] in Hc.
  cbn [String.append app] in Hc. destruct (wire answers) as [text failure]. cbn [fst snd]. by destruct (decode_text _ _ _ _).
Qed.
End Chunking.

(** ** The exchange with an instance *)

(** The documented behaviour of the libraries: base64 and gzip undo themselves,
    decapsulation finds the secret of the encapsulation, HKDF gives the 32 bytes
    asked for, and ChaCha20-Poly1305 opens what it sealed, with a tag appended. *)
Class ChutesLaws `{Base64} `{Crypto} `{ChutesLibs} : Prop := {
  base64_roundtrip bytes : base64_decode (base64_encode bytes) = Some bytes;
  base64_utf8 bytes : valid_utf8 (base64_encode bytes);
  keypair_agrees g : (generate_keypair g).1.2 = encapsulation_key (generate_keypair g).1.1;
  ek_roundtrip ek : ek_from_slice (ek_to_bytes ek) = Ok ek;
  encapsulated_length ek g : String.length (encapsulate ek g).1.1 = Z.to_nat 1088;
  kem_agrees sk g : decapsulate sk (encapsulate (encapsulation_key sk) g).1.1 = (encapsulate (encapsulation_key sk) g).1.2;
  hkdf_length salt ikm info : exists key, hkdf_sha256_salted salt ikm info = Ok key /\ String.length key = 32%nat;
  chacha_total key nonce msg : String.length key = 32%nat -> String.length nonce = 12%nat ->
    Z.of_nat (String.length msg) <= 2 ^ 38 - 64 ->
    exists ct, chacha20_seal key nonce msg = Ok ct /\ String.length ct = (String.length msg + 16)%nat;
  chacha_roundtrip key nonce msg ct : chacha20_seal key nonce msg = Ok ct -> chacha20_open key nonce ct = Ok msg;
  gzip_total msg : exists z, gzip msg = Ok z /\ z <> "";
  gzip_roundtrip msg z : gzip msg = Ok z -> gunzip z = Ok msg;
  fill_length n g : String.length (fill_bytes n g).1 = n;
}.

Section Exchange.
Context `{Digest} `{Base64} `{Base64Error} `{Crypto} `{SerdeJson} `{ChutesLibs}.

(** The other end, as the fixture of the provider tests has it, with sizes,
    labels and a derivation of its own: an instance opens a request with its key,
    and answers under the response key that the request carries.  [None] stands
    for a fixture that panics. *)
Definition instance_ct_size : nat := Z.to_nat 1088.

Definition instance_derive_key (shared_secret mlkem_ct info : string) : option string :=
  ok (hkdf_sha256_salted (str_take 16 mlkem_ct) shared_secret info).

Definition instance_open (sk : DecapsulationKey) (bytes : string) : option Value :=
  if Nat.ltb (String.length bytes) (instance_ct_size + 12) then None
  else
    let mlkem_ct := str_take instance_ct_size bytes in
    instance_derive_key (decapsulate sk mlkem_ct) mlkem_ct "e2e-req-v1" ≫= fun key =>
    ok (chacha20_open key (str_take 12 (str_drop instance_ct_size bytes)) (str_drop (instance_ct_size + 12) bytes)) ≫= fun plaintext =>
    ok (gunzip plaintext) ≫= fun text => ok (from_slice text).

(** A key for an answer, agreed with the sender of the request under a label. *)
Definition instance_agree (response_pk_b64 info : string) (g : OsRng) : option ((string * string) * OsRng) :=
  base64_decode response_pk_b64 ≫= fun bytes => ok (ek_from_slice bytes) ≫= fun response_pk =>
  let '((mlkem_ct, shared_secret), g) := encapsulate response_pk g in
  instance_derive_key shared_secret mlkem_ct info ≫= fun key => Some ((mlkem_ct, key), g).

Definition instance_stream_key (response_pk_b64 : string) (g : OsRng) : option ((string * string) * OsRng) :=
  instance_agree response_pk_b64 "e2e-stream-v1" g.

Definition instance_chunk (key body : string) (g : OsRng) : option (string * OsRng) :=
  let '(nonce, g) := fill_bytes 12 g in
  ok (chacha20_seal key nonce body) ≫= fun encrypted => Some (nonce +:+ encrypted, g).

Definition instance_reply (response_pk_b64 body : string) (g : OsRng) : option (string * OsRng) :=
  instance_agree response_pk_b64 "e2e-resp-v1" g ≫= fun '((mlkem_ct, key), g) =>
  let '(nonce, g) := fill_bytes 12 g in
  ok (gzip body) ≫= fun compressed =>
  ok (chacha20_seal key nonce compressed) ≫= fun encrypted => Some (mlkem_ct +:+ nonce +:+ encrypted, g).

Context `{!ChutesLaws} `{!SerdeJsonLaws}.

(** Short enough for one message of the cipher. *)
Definition sealable (msg : string) : Prop := Z.of_nat (String.length msg) <= 2 ^ 38 - 64.

#[local] Opaque CHUTES_MLKEM_CT_SIZE.

Lemma ct_sizes_agree : CHUTES_MLKEM_CT_SIZE = instance_ct_size.
Proof. reflexivity. Qed.

(** Both ends derive the same key from the same agreement and label. *)
Lemma derive_agrees secret ct info :
  String.length ct = CHUTES_MLKEM_CT_SIZE ->
  exists key, chutes_derive_key secret ct info = Ok key /\ instance_derive_key secret ct info = Some key /\ String.length key = 32%nat.
Proof.
  intros Hl. unfold chutes_derive_key, instance_derive_key. rewrite Hl.
  destruct (hkdf_length (str_take 16 ct) secret info) as (key & -> & ?).
  rewrite (proj2 (Nat.ltb_ge _ _)); [by exists key|]. with_strategy transparent [CHUTES_MLKEM_CT_SIZE] unfold CHUTES_MLKEM_CT_SIZE. lia.
Qed.

(** What the cipher sealed is opened by the gateway, and what the gateway seals is
    what the cipher gives. *)
Lemma seal_ok key nonce msg :
  String.length key = 32%nat -> String.length nonce = 12%nat -> sealable msg ->
  exists ct, chacha20_seal key nonce msg = Ok ct /\ chacha_encrypt key nonce msg = Ok ct
    /\ chacha_decrypt key nonce ct = Ok msg /\ chacha20_open key nonce ct = Ok msg
    /\ String.length ct = (String.length msg + CHUTES_TAG_SIZE)%nat.
Proof.
  intros Hk Hn Hm. destruct (chacha_total key nonce msg Hk Hn Hm) as (ct & Hs & Hl). exists ct.
  unfold chacha_encrypt, chacha_decrypt. rewrite Hk. cbn. by rewrite Hs, (chacha_roundtrip _ _ _ _ Hs).
Qed.

(** A sealed message taken apart. *)
Lemma split_blob ct nonce rest :
  String.length ct = CHUTES_MLKEM_CT_SIZE -> String.length nonce = 12%nat ->
  str_take CHUTES_MLKEM_CT_SIZE (ct +:+ nonce +:+ rest) = ct
  /\ str_take 12 (str_drop CHUTES_MLKEM_CT_SIZE (ct +:+ nonce +:+ rest)) = nonce
  /\ str_drop (CHUTES_MLKEM_CT_SIZE + 12) (ct +:+ nonce +:+ rest) = rest.
Proof.
  intros Hc Hn. rewrite <- Hc, <- Hn, str_take_app, str_drop_app, str_take_app. split_and!; [done..|].
  rewrite <- string_app_length, <- string_app_assoc. apply str_drop_app.
Qed.

Lemma public_key_decodes what sk :
  decode_base64 what (base64_encode (ek_to_bytes (encapsulation_key sk))) = Ok (ek_to_bytes (encapsulation_key sk)).
Proof. unfold decode_base64. by rewrite base64_roundtrip. Qed.

Lemma encapsulated_size ek g : String.length (encapsulate ek g).1.1 = CHUTES_MLKEM_CT_SIZE.
Proof. rewrite ct_sizes_agree. apply encapsulated_length. Qed.

(** A key for a response: the gateway derives what the instance did. *)
Lemma instance_agree_ok sk info g :
  exists ct key g', instance_agree (base64_encode (ek_to_bytes (encapsulation_key sk))) info g = Some ((ct, key), g')
    /\ String.length ct = CHUTES_MLKEM_CT_SIZE /\ String.length key = 32%nat
    /\ chutes_derive_key (decapsulate sk ct) ct info = Ok key.
Proof.
  unfold instance_agree. rewrite base64_roundtrip. cbn [mbind option_bind]. rewrite ek_roundtrip. cbn [ok mbind option_bind].
  pose proof (encapsulated_size (encapsulation_key sk) g) as Hl. pose proof (kem_agrees sk g) as Ha.
  destruct (encapsulate (encapsulation_key sk) g) as [[ct secret] g']. cbn [fst snd] in *.
  destruct (derive_agrees secret ct info Hl) as (key & Hd & Hi & Hk). exists ct, key, g'. by rewrite Hi, Ha, Hd.
Qed.

Lemma nonempty_length (s : string) : s <> "" -> (0 < String.length s)%nat.
Proof. destruct s; cbn; [done|lia]. Qed.

(** A buffered answer is read back. *)
Lemma reply_read sk body g :
  (forall z, gzip body = Ok z -> sealable z) ->
  exists reply g', instance_reply (base64_encode (ek_to_bytes (encapsulation_key sk))) body g = Some (reply, g')
    /\ decrypt_chutes_response reply sk = Ok body.
Proof.
  intros Hb. unfold instance_reply. destruct (instance_agree_ok sk CHUTES_INFO_RESP g) as (ct & key & g1 & Hag & Hc & Hk & Hd).
  change "e2e-resp-v1" with CHUTES_INFO_RESP. rewrite Hag. cbn [mbind option_bind].
  pose proof (fill_length 12 g1) as Hn. destruct (fill_bytes 12 g1) as [nonce g2]. cbn [fst] in Hn.
  destruct (gzip_total body) as (z & Hz & Hne). rewrite Hz. cbn [ok mbind option_bind].
  destruct (seal_ok key nonce z Hk Hn (Hb z Hz)) as (sealed & -> & _ & Ho & _ & Hl). cbn [ok mbind option_bind].
  exists (ct +:+ nonce +:+ sealed), g2. split; [done|]. unfold decrypt_chutes_response.
  apply nonempty_length in Hne. rewrite (proj2 (Nat.leb_gt _ _)) by (rewrite !string_app_length; lia).
  destruct (split_blob ct nonce sealed Hc Hn) as (-> & -> & ->). unfold ciphertext_from_slice. rewrite Hc, Nat.eqb_refl.
  cbn [mbind result_bind]. rewrite Hd. cbn [mbind result_bind]. rewrite Ho. cbn [mbind result_bind].
  unfold gzip_decompress. by rewrite (gzip_roundtrip _ _ Hz).
Qed.

(** A streamed answer is read back. *)
Lemma stream_read sk g :
  exists ct key g', instance_stream_key (base64_encode (ek_to_bytes (encapsulation_key sk))) g = Some ((ct, key), g')
    /\ decrypt_chutes_stream_init sk (base64_encode ct) = Ok key
    /\ forall body g1, body <> "" -> sealable body -> exists chunk g2,
         instance_chunk key body g1 = Some (chunk, g2) /\ decrypt_chutes_stream_chunk key (base64_encode chunk) = Ok body.
Proof.
  destruct (instance_agree_ok sk CHUTES_INFO_STREAM g) as (ct & key & g' & Hi & Hc & Hk & Hd). exists ct, key, g'. split; [done|].
  unfold decrypt_chutes_stream_init, decrypt_chutes_stream_chunk, decode_base64. split.
  - rewrite base64_roundtrip. cbn [ok_or mbind result_bind]. unfold ciphertext_from_slice. by rewrite Hc, Nat.eqb_refl.
  - intros body g1 Hne%nonempty_length Hb. unfold instance_chunk. pose proof (fill_length 12 g1) as Hn.
    destruct (fill_bytes 12 g1) as [nonce g2]. cbn [fst] in Hn.
    destruct (seal_ok key nonce body Hk Hn Hb) as (sealed & -> & _ & Ho & _ & Hl). cbn [ok mbind option_bind].
    exists (nonce +:+ sealed), g2. split; [done|]. rewrite base64_roundtrip. cbn [ok_or mbind result_bind].
    rewrite (proj2 (Nat.leb_gt _ _)) by (rewrite !string_app_length; lia).
    by rewrite <- Hn, str_take_app, str_drop_app.
Qed.

(** C37: the encrypted exchange with an instance works in both directions: a request
    sealed for the instance's public key is a blob that the instance's secret key
    opens to the request with a fresh response key added, and every answer
    sealed for that response key, whole or as a stream with its key agreement and
    its chunks, is decrypted to what the instance said, where no chunk of a stream
    is empty and every message fits the cipher.  The instance is the one of the
    provider tests, which takes its salt, its labels and its sizes from the
    protocol and not from the gateway. *)
Theorem chutes_exchange_roundtrip sk obj g :
  wf_value (Obj obj) -> (depth (Obj obj) <= MAX_DEPTH)%nat ->
  (forall rsk text z,
     to_vec (Obj (map_insert "e2e_response_pk" (Str (base64_encode (ek_to_bytes (encapsulation_key rsk)))) obj)) = Ok text ->
     gzip text = Ok z -> sealable z) ->
  exists req g', build_chutes_e2ee_request (base64_encode (ek_to_bytes (encapsulation_key sk))) (Obj obj) g = (Ok req, g')
    /\ let pk := base64_encode (ek_to_bytes (encapsulation_key (response_sk req))) in
       (exists v, instance_open sk (blob req) = Some v
          /\ erase_floats v = erase_floats (Obj (map_insert "e2e_response_pk" (Str pk) obj)))
    /\ (forall body g1, (forall z, gzip body = Ok z -> sealable z) ->
          exists reply g2, instance_reply pk body g1 = Some (reply, g2) /\ decrypt_chutes_response reply (response_sk req) = Ok body)
    /\ (forall g1, exists ct key g2, instance_stream_key pk g1 = Some ((ct, key), g2)
          /\ decrypt_chutes_stream_init (response_sk req) (base64_encode ct) = Ok key
          /\ forall body g3, body <> "" -> sealable body -> exists chunk g4,
               instance_chunk key body g3 = Some (chunk, g4)
               /\ decrypt_chutes_stream_chunk key (base64_encode chunk) = Ok body).
Proof.
  intros Hwf Hd Hfit. unfold build_chutes_e2ee_request. pose proof (keypair_agrees g) as Hkp.
  destruct (generate_keypair g) as [[rsk rpk] g1]. cbn [fst snd] in Hkp. subst rpk.
  rewrite public_key_decodes. cbn [mbind result_bind]. rewrite ek_roundtrip. cbn [map_err].
  pose proof (encapsulated_size (encapsulation_key sk) g1) as Hc. pose proof (kem_agrees sk g1) as Ha.
  destruct (encapsulate (encapsulation_key sk) g1) as [[ct secret] g2]. cbn [fst snd] in *.
  destruct (derive_agrees secret ct CHUTES_INFO_REQ Hc) as (key & Hk & Hik & Hlen). rewrite Hk. cbn [mbind result_bind].
  set (pk := base64_encode (ek_to_bytes (encapsulation_key rsk))).
  set (v := Obj (map_insert "e2e_response_pk" (Str pk) obj)).
  assert (Hv : wf_value v) by (apply wf_value_insert; [by apply valid_utf8b_sound|apply base64_utf8|done]).
  destruct (to_vec_total v Hv) as [text Ht]. rewrite Ht. cbn [map_err mbind result_bind].
  destruct (gzip_total text) as (z & Hz & _). unfold gzip_compress. rewrite Hz. cbn [map_err mbind result_bind].
  pose proof (fill_length 12 g2) as Hn. destruct (fill_bytes 12 g2) as [nonce g3]. cbn [fst] in Hn.
  destruct (seal_ok key nonce z Hlen Hn (Hfit rsk text z Ht Hz)) as (sealed & _ & -> & _ & Ho & _). cbn [mbind result_bind].
  eexists _, _. split; [done|]. cbn [blob response_sk]. split; [|split].
  - unfold instance_open. rewrite <- ct_sizes_agree, (proj2 (Nat.ltb_ge _ _)) by (rewrite !string_app_length; lia).
    destruct (split_blob ct nonce sealed Hc Hn) as (-> & -> & ->). change "e2e-req-v1" with CHUTES_INFO_REQ.
    rewrite Ha, Hik. cbn [mbind option_bind]. rewrite Ho. cbn [ok mbind option_bind].
    rewrite (gzip_roundtrip _ _ Hz). cbn [ok mbind option_bind].
    destruct (from_slice_to_vec v text Hv) as (v' & -> & He); [|done|by exists v'].
    pose proof (depth_insert_leaf "e2e_response_pk" (Str pk) obj eq_refl). unfold v. lia.
  - intros body g4 Hb. by apply reply_read.
  - intros g4. apply stream_read.
Qed.
End Exchange.

(** ** What is sent *)

Section Sent.
Context `{Digest} `{Base64} `{Base64Error} `{Crypto} `{SerdeJson} `{StrDebug} `{ChutesLibs} `{ChutesCodec} `{HttpClient}.

(** A pooled nonce is recorded with the digest of its key. *)
Definition honest_nonce (n : ChutesPooledNonce) : Prop :=
  chutes_e2ee_pubkey_sha256 (pn_e2e_pubkey n) = Ok (pn_public_key_sha256 n).
Definition honest_store (c : ChutesSessionCache) : Prop := forall chute n, n ∈ pool_of c chute -> honest_nonce n.

(** A verifier records the digests of the keys it lists. *)
Definition honest_discovery (d : ChutesVerifiedDiscovery) : Prop :=
  forall i, i ∈ d_instances d -> chutes_e2ee_pubkey_sha256 (vi_e2e_pubkey i) = Ok (vi_public_key_sha256 i).
Definition honest_op (op : PoolOp) : Prop := match op with OpRecord _ d => honest_discovery d | _ => True end.

Definition honest_schedule (x : Schedule) : Prop :=
  Forall honest_op (before_cached x ++ before_acquire x ++ before_second (at_acquire x) ++ before_record (at_acquire x)
                    ++ before_third (at_acquire x)).

Lemma honest_record now c d : honest_discovery d -> honest_store c -> honest_store (record_verified_discovery now c d).2.
Proof.
  intros Hd Hc chute n Hn. apply (proj1 (record_pool now c d chute)) in Hn as [Hn|(_ & i & Hi & _ & Hpk & Hsha & _)]; [by eapply Hc|].
  unfold honest_nonce. rewrite Hpk, Hsha. by apply Hd.
Qed.

Lemma honest_pop now c chute accepted : honest_store c -> honest_store (pop_verified_nonce now c chute accepted).2.
Proof. intros Hc id n Hn. eapply Hc. by eapply pop_pool_subset. Qed.

Lemma honest_same_pools c c' : nonce_pools c' = nonce_pools c -> honest_store c -> honest_store c'.
Proof. intros E Hc chute n. unfold pool_of. rewrite E. apply Hc. Qed.

Lemma honest_exec c op : honest_op op -> honest_store c -> honest_store (exec c op).
Proof.
  destruct op as [now d|now id accepted|now model|now model id]; cbn [exec honest_op]; intros Ho Hc.
  - by apply honest_record.
  - by apply honest_pop.
  - eapply honest_same_pools; [apply cached_id_pools|done].
  - by apply (honest_same_pools c).
Qed.

Lemma honest_exec_all c ops : Forall honest_op ops -> honest_store c -> honest_store (exec_all c ops).
Proof.
  intros Ho. revert c. induction Ho as [|op ops Hop _ IH]; intros c Hc; [done|]. cbn. by apply IH, honest_exec.
Qed.

(** The discovery the gateway fetches itself records the digests it computed. *)
Lemma accept_instances_honest accepted instances l i :
  accept_instances accepted instances = Ok l -> i ∈ l ->
  chutes_e2ee_pubkey_sha256 (vi_e2e_pubkey i) = Ok (vi_public_key_sha256 i).
Proof.
  revert l. induction instances as [|x instances IH]; intros l; cbn; [by intros [= <-] ?%elem_of_nil|].
  destruct (chutes_e2ee_pubkey_sha256 (ii_e2e_pubkey x)) as [sha|] eqn:Es; [|done]. cbn.
  destruct (accept_instances accepted instances) as [rest|] eqn:Er; [|done]. cbn. intros [= <-].
  destruct (match accepted with Some _ => _ | None => _ end); [|by apply IH].
  intros [->|Hi]%elem_of_cons; [done|by apply IH with rest].
Qed.

Lemma honest_fetched now c chute discovery accepted :
  honest_store c -> honest_store (cache_verified_chutes_nonces now c chute discovery accepted).2.
Proof.
  intros Hc. unfold cache_verified_chutes_nonces, verified_discovery_from_response.
  destruct (accept_instances _ _) as [[|i l]|] eqn:E; cbn; try done.
  apply honest_record; [|done]. intros j Hj. cbn in Hj. by eapply accept_instances_honest.
Qed.

(** The readings of the clock when an acquisition pops a nonce. *)
Definition pops_at (x : Acquisition) : list Z := [at_first x; at_second x; at_third x].

(** What a pop hands out: a nonce that is unexpired at the reading of the clock,
    of an instance whose key the bindings accept. *)
Definition good_session (clock : list Z) (accepted : list ChutesAcceptedBinding) (s : SelectedChutesInstance) : Prop :=
  exists now n, now ∈ clock /\ s = selected_of n /\ usable now accepted n /\ honest_nonce n.

Lemma pop_good now c chute accepted s c' :
  honest_store c -> pop_verified_nonce now c chute accepted = (Some s, c') -> good_session [now] accepted s.
Proof.
  intros Hc E. pose proof (pop_pool now c chute accepted chute) as Hp. rewrite E in Hp.
  destruct Hp as (pre & n & post & Heq & Hu & -> & _). exists now, n. split_and!; [by left|done..|].
  apply (Hc chute). rewrite Heq. apply elem_of_app. right. by left.
Qed.

Lemma good_session_mono clock clock' accepted s :
  clock ⊆ clock' -> good_session clock accepted s -> good_session clock' accepted s.
Proof. intros Hsub (now & n & Hin & Hn). exists now, n. split; [by apply Hsub|done]. Qed.

Lemma acquire_good x c chute accepted :
  honest_store c -> Forall honest_op (before_second x ++ before_record x ++ before_third x) ->
  honest_store (acquire_verified_chutes_session x c chute accepted).2
  /\ forall s, (acquire_verified_chutes_session x c chute accepted).1 = Ok s -> good_session (pops_at x) accepted s.
Proof.
  intros Hc. rewrite !Forall_app. intros (Hsecond & Hrecord & Hthird). unfold acquire_verified_chutes_session.
  pose proof (honest_pop (at_first x) c chute accepted Hc) as Hc1.
  destruct (pop_verified_nonce (at_first x) c chute accepted) as [[s1|] c1] eqn:E1; cbn [snd] in Hc1.
  { split; [done|]. intros s [= <-]. eapply good_session_mono; [|exact (pop_good _ _ _ _ _ _ Hc E1)]. set_solver. }
  pose proof (honest_exec_all _ _ Hsecond Hc1) as Hc1'. pose proof (honest_pop (at_second x) _ chute accepted Hc1') as Hc2.
  destruct (pop_verified_nonce (at_second x) _ chute accepted) as [[s2|] c2] eqn:E2; cbn [snd] in Hc2.
  { split; [done|]. intros s [= <-]. eapply good_session_mono; [|exact (pop_good _ _ _ _ _ _ Hc1' E2)]. set_solver. }
  destruct (fetched x) as [discovery|]; [|done].
  pose proof (honest_fetched (at_record x) _ chute discovery accepted (honest_exec_all _ _ Hrecord Hc2)) as Hc3.
  destruct (cache_verified_chutes_nonces _ _ _ _ _) as [[added|e] c3]; cbn [snd] in Hc3; [|done].
  pose proof (honest_exec_all _ _ Hthird Hc3) as Hc3'. pose proof (honest_pop (at_third x) _ chute accepted Hc3') as Hc4.
  destruct (pop_verified_nonce (at_third x) _ chute accepted) as [[s3|] c4] eqn:E3; cbn [snd] in Hc4; [|done].
  split; [done|]. intros s [= <-]. eapply good_session_mono; [|exact (pop_good _ _ _ _ _ _ Hc3' E3)]. set_solver.
Qed.

(** A computation keeps the store honest, hands only requests in [P] to the
    client, and gives a result in [Q]. *)
Definition sends (P : HttpRequest -> Prop) {A} (m : Tx A) (Q : A -> Prop) : Prop :=
  forall l, honest_store (l_store l) ->
    honest_store (l_store (m l).2) /\ (exists new, l_sent (m l).2 = l_sent l ++ new /\ Forall P new)
    /\ forall a, (m l).1 = Ok a -> Q a.

Lemma sends_ret P {A} (a : A) (Q : A -> Prop) : Q a -> sends P (mret a) Q.
Proof. intros Ha l Hl. split; [done|]. split; [exists []; by rewrite app_nil_r|]. by intros ? [= <-]. Qed.

Lemma sends_lift P {A} (r : result UpstreamError A) : sends P (tx_lift r) (fun a => r = Ok a).
Proof. intros l Hl. split; [done|]. split; [exists []; by rewrite app_nil_r|]. done. Qed.

Lemma sends_bind P {A B} (m : Tx A) (f : A -> Tx B) (R : A -> Prop) (Q : B -> Prop) :
  sends P m R -> (forall a, R a -> sends P (f a) Q) -> sends P (m ≫= f) Q.
Proof.
  intros Hm Hf l Hl. destruct (Hm l Hl) as (Hs & (new & Hn & HP) & Hr). unfold mbind, tx_bind.
  destruct (m l) as [[a|e] l1]; cbn [fst snd] in *.
  - destruct (Hf a (Hr a eq_refl) l1 Hs) as (Hs' & (new' & Hn' & HP') & Hr'). split; [done|]. split; [|done].
    exists (new ++ new'). rewrite Hn', Hn, app_assoc. split; [done|]. by apply Forall_app.
  - split; [done|]. split; [by exists new|done].
Qed.

Lemma sends_weaken P {A} (m : Tx A) (R Q : A -> Prop) : (forall a, R a -> Q a) -> sends P m R -> sends P m Q.
Proof. intros HRQ Hm l Hl. destruct (Hm l Hl) as (? & ? & Hr). split_and!; [done..|]. intros a Ha. by apply HRQ, Hr. Qed.

Lemma sends_store P {A} (f : ChutesSessionCache -> A * ChutesSessionCache) :
  (forall c, honest_store c -> honest_store (f c).2) -> sends P (tx_store f) (fun _ => True).
Proof.
  intros Hf l Hl. specialize (Hf _ Hl). unfold tx_store. destruct (f (l_store l)). split; [done|].
  split; [exists []; by rewrite app_nil_r|done].
Qed.

Lemma sends_others P ops : Forall honest_op ops -> sends P (others ops) (fun _ => True).
Proof. intros Ho. apply sends_store. intros c Hc. by apply honest_exec_all. Qed.

Lemma sends_hand_over (P : HttpRequest -> Prop) b r : P r -> sends P (hand_over b r) (fun _ => True).
Proof. intros Hr l Hl. split; [done|]. split; [exists [r]; by split; [|constructor]|done]. Qed.

Lemma sends_fetch (P : HttpRequest -> Prop) b {A} (parse : string -> result string A) r : P r -> sends P (fetch_json b parse r) (fun _ => True).
Proof. intros Hr l Hl. split; [done|]. split; [exists [r]; by split; [|constructor]|done]. Qed.

Lemma sends_resolve (P : HttpRequest -> Prop) b x model key :
  Forall honest_op (before_cached x) -> P (lookup_request b model key) -> sends P (resolve_chute_id b x model key) (fun _ => True).
Proof.
  intros Ho HP. unfold resolve_chute_id. destruct (looks_like_uuid model); [by apply sends_ret|].
  destruct (chute_ids b !! model); [by apply sends_ret|].
  eapply sends_bind; [apply sends_store; intros c Hc; eapply honest_same_pools; [apply cached_id_pools|done]|].
  intros [chute|] _; [by apply sends_ret|]. eapply sends_bind; [by apply sends_fetch|]. intros items _.
  eapply sends_bind; [apply sends_lift|]. intros chute _. eapply sends_bind; [by apply sends_others|]. intros _ _.
  eapply sends_bind; [apply sends_store; intros c Hc; by apply (honest_same_pools c)|]. intros _ _. by apply sends_ret.
Qed.

Lemma sends_acquire (P : HttpRequest -> Prop) b x chute key accepted :
  Forall honest_op (before_second x ++ before_record x ++ before_third x) -> P (instances_request b chute key) ->
  sends P (acquire b x chute key accepted) (good_session (pops_at x) accepted).
Proof.
  intros Ho HP l Hl. unfold acquire.
  destruct (acquire_good (with_fetched (discovery_answer b chute key) x) (l_store l) chute accepted Hl Ho) as [Hs Hg].
  destruct (acquire_verified_chutes_session _ _ _ _) as [r c]. cbn [fst snd l_store l_sent] in *. split; [done|]. split; [|done].
  eexists. split; [done|]. destruct (refills _ _ _ _); repeat constructor; done.
Qed.

Lemma sends_build P pk payload :
  sends P (build_request pk payload) (fun enc => exists g g', build_chutes_e2ee_request pk payload g = (Ok enc, g')).
Proof.
  intros l Hl. unfold build_request. destruct (build_chutes_e2ee_request pk payload (l_rng l)) as [r g'] eqn:E.
  split; [done|]. split; [exists []; by rewrite app_nil_r|]. cbn. intros enc ->. eauto.
Qed.

(** The requests an invocation may make: the lookup of the chute, the discovery
    of its instances, and the invocation itself, whose body is the caller's
    payload sealed for a key that the event's bindings accept. *)
Inductive invocation (clock : list Z) (b : ChutesProviderBackend) (req : PreparedUpstreamRequest) (event : UpstreamVerifiedEvent) (stream : bool) :
    HttpRequest -> Prop :=
| InvLookup payload model key :
    payload_model (req_body (p_request req)) = Ok (payload, model) -> chutes_api_key b = Ok key ->
    invocation clock b req event stream (lookup_request b model key)
| InvInstances chute key :
    chutes_api_key b = Ok key -> invocation clock b req event stream (instances_request b chute key)
| InvInvoke payload model key chute accepted session enc g g' :
    payload_model (req_body (p_request req)) = Ok (payload, model) -> chutes_api_key b = Ok key ->
    chutes_accepted_bindings event = Ok accepted -> good_session clock accepted session ->
    build_chutes_e2ee_request (s_e2e_pubkey session) payload g = (Ok enc, g') ->
    invocation clock b req event stream (invoke_request b key chute session stream (req_path (p_request req)) (blob enc)).

Lemma sends_invoke b x req event stream :
  honest_schedule x ->
  sends (fun r => uv_result event = Verified /\ invocation (pops_at (at_acquire x)) b req event stream r) (invoke_verified b x req event stream) (fun _ => True).
Proof.
  unfold honest_schedule. rewrite !Forall_app. intros (Hcached & Hacq & Hsecond & Hrecord & Hthird).
  unfold invoke_verified. destruct (decide (uv_result event = Verified)) as [Hv|Hv].
  2: { rewrite bool_decide_eq_false_2 by done. eapply sends_weaken; [|apply sends_lift]. done. }
  rewrite bool_decide_eq_true_2 by done. cbn [negb].
  eapply sends_bind; [apply sends_lift|]. intros key Hkey. eapply sends_bind; [apply sends_lift|]. intros [payload model] Hpm. cbn [fst snd].
  eapply sends_bind; [apply sends_resolve; [done|]; split; [done|exact (InvLookup _ _ _ _ _ _ _ _ Hpm Hkey)]|]. intros chute _.
  eapply sends_bind; [apply sends_lift|]. intros accepted Hacc. eapply sends_bind; [by apply sends_others|]. intros _ _.
  eapply sends_bind; [apply sends_acquire; [by rewrite !Forall_app|]; split; [done|by apply InvInstances]|]. intros session Hs.
  eapply sends_bind; [apply sends_build|]. intros enc (g & g' & Hb).
  eapply sends_bind; [apply sends_hand_over; split; [done|exact (InvInvoke _ _ _ _ _ _ _ _ chute _ _ _ _ _ Hpm Hkey Hacc Hs Hb)]|]. intros resp _. by apply sends_ret.
Qed.

End Sent.

(** ** Witnesses *)

Module DemoChutes.

#[export] Instance digest : Digest := demo_digest.
#[export] Instance base64 : Base64 := fun s => Some (Demo.unhex s).
#[export] Instance base64_errors : Base64Error := fun _ => "invalid".
#[export] Instance crypto : Crypto := {|
  hex_decode s := Ok (Demo.unhex s); base64_encode := demo_hex; ed25519_verify_strict _ _ _ := false;
  k256_from_encoded_point p := Ok p; k256_signature_from_slice _ := Ok tt; k256_verify _ _ _ := true;
  k256_recover_keccak _ _ _ := Ok "root"; sha384 _ := zeros 48 |}.
#[export] Instance serde : SerdeJson := demo_serde.
#[export] Instance serde_laws : SerdeJsonLaws := demo_serde_laws.
#[export] Instance debug : StrDebug := demo_debug.
#[export] Instance http : HttpClient := demo_http.

(** The authentication tag of a key: its second half. *)
Definition tag (key : string) : string := str_take 16 (str_drop 16 key +:+ zeros 16).

Lemma take_length n s : (n <= String.length s)%nat -> String.length (str_take n s) = n.
Proof. revert s. induction n as [|n IH]; intros [|c s]; cbn; try done; try lia. intros Hl. rewrite IH; lia. Qed.

Lemma tag_length key : String.length (tag key) = 16%nat.
Proof. apply take_length. rewrite string_app_length, (Toy.zeros_length 16). lia. Qed.

(** Two keys, a secret for each, a derivation that keeps the label, a cipher that
    appends the tag of its key. *)
#[export] Instance libs : ChutesLibs := {|
  DecapsulationKey := bool; EncapsulationKey := bool; OsRng := unit;
  encapsulation_key k := k;
  generate_keypair g := ((true, true), g);
  ek_from_slice s := if String.eqb s "1" then Ok true else if String.eqb s "0" then Ok false else Err "not a key";
  ek_to_bytes k := if k then "1" else "0";
  encapsulate k g := ((zeros CHUTES_MLKEM_CT_SIZE, if k then "s1" else "s0"), g);
  decapsulate k _ := if k then "s1" else "s0";
  array_error := "length";
  hkdf_sha256_salted salt ikm info := Ok (str_take 32 (salt +:+ info +:+ ikm +:+ zeros 32));
  chacha20_seal key nonce msg := Ok (msg +:+ tag key);
  chacha20_open key nonce ct :=
    let n := (String.length ct - 16)%nat in if String.eqb (str_drop n ct) (tag key) then Ok (str_take n ct) else Err tt;
  gzip s := Ok (String "z" s);
  gunzip s := match s with String _ s => Ok s | EmptyString => Err "empty" end;
  fill_bytes n g := (zeros n, g) |}.

#[export] Instance laws : ChutesLaws.
Proof.
  split.
  - intros bytes. change (Some (Demo.unhex (demo_hex bytes)) = Some bytes). by rewrite Toy.unhex_hex.
  - apply demo_digest_laws.
  - done.
  - by intros [].
  - intros ek g. apply Toy.zeros_length.
  - done.
  - intros salt ikm info. eexists. split; [done|]. apply take_length. rewrite !string_app_length, Toy.zeros_length. lia.
  - intros key nonce msg _ _ _. eexists. split; [done|]. by rewrite string_app_length, tag_length.
  - intros key nonce msg ct [= <-]. cbn -[str_take str_drop String.append Nat.sub tag]. rewrite string_app_length, tag_length.
    replace (String.length msg + 16 - 16)%nat with (String.length msg) by lia. by rewrite str_drop_app, str_take_app, String.eqb_refl.
  - intros msg. by exists (String "z" msg).
  - by intros msg z [= <-].
  - intros n g. apply Toy.zeros_length.
Qed.

Definition obj : list (string * Value) := [("model", Str "m")].

Lemma chutes_exchange_roundtrip_witness :
  exists req, (build_chutes_e2ee_request "30" (Obj obj) (tt : @OsRng libs)).1 = Ok req
    /\ (exists v, instance_open (false : @DecapsulationKey libs) (blob req) = Some v
          /\ erase_floats v = Obj [("model", Str "m"); ("e2e_response_pk", Str "31")])
    /\ exists reply, fst <$> instance_reply "31" "hello" (tt : @OsRng libs) = Some reply /\ decrypt_chutes_response reply (response_sk req) = Ok "hello".
Proof.
  destruct (chutes_exchange_roundtrip (false : @DecapsulationKey libs) obj (tt : @OsRng libs)) as (req & g' & Hb & Hopen & Hreply & _).
  - by apply wf_valueb_sound.
  - cbn. unfold MAX_DEPTH. lia.
  - intros rsk text z [= <-] [= <-]. unfold sealable. apply Z.leb_le. destruct rsk; vm_compute; reflexivity.
  - assert (Hsk : response_sk req = true).
    { assert (E : (build_chutes_e2ee_request "30" (Obj obj) (tt : @OsRng libs)).1 = Ok req) by exact (f_equal fst Hb).
      clear -E. vm_compute in E. injection E as <-. reflexivity. }
    rewrite Hsk in Hopen, Hreply. exists req. split; [exact (f_equal fst Hb)|]. split; [exact Hopen|].
    destruct (Hreply "hello" (tt : @OsRng libs)) as (reply & g2 & Hr & Hd).
    + intros z [= <-]. unfold sealable. apply Z.leb_le. reflexivity.
    + exists reply. rewrite Hsk. split; [exact (f_equal (fmap fst) Hr)|exact Hd].
Defined.

#[export] Instance codec : ChutesCodec := {|
  parse_lookup _ := Ok []; parse_instances _ := Err "down"; parse_evidence _ := Ok [];
  with_query url _ := url |}.

Definition chutes : ChutesProviderBackend :=
  {| inner := demo_backend "chutes" "https://u"; e2ee_api_base := "https://c"; api_key := Some "k";
     chute_ids := {["m" := "c"]};
     ch_client := {| accepted_pins := None; connect_timeout := 10; read_timeout := 600 |}; ch_session_store := None |}.

(** A verifier recorded the instance whose key is "1". *)
Definition discovery : ChutesVerifiedDiscovery :=
  {| d_chute_id := "c"; d_nonce_expires_in := None;
     d_instances := [{| vi_instance_id := "i"; vi_e2e_pubkey := "31"; vi_public_key_sha256 := "31"; vi_nonces := ["n"] |}] |}.

Definition link : Link :=
  {| l_store := exec_all ChutesSessionCache_default [OpRecord 0 discovery]; l_sent := []; l_rng := (tt : @OsRng libs) |}.

Definition schedule : Schedule :=
  {| at_lookup := 1; before_cached := []; at_cached := 2; before_acquire := [];
     at_acquire := {| at_first := 5; before_second := []; at_second := 6; fetched := Err (Transport "down"); before_record := [];
                      at_record := 7; before_third := []; at_third := 8 |} |}.

Definition event : UpstreamVerifiedEvent := {|
  upstream_name := "chutes"; provider_type := None; model_id := "m"; url_origin := None;
  verifier_id := "v"; uv_result := Verified; required := true; reason := None; evidence := None;
  channel_bindings := [E2eePublicKeySha256 "chutes" (Some "i") CHUTES_MLKEM_768_ALGORITHM "31"];
  provider_claims := None |}.

Definition request : PreparedUpstreamRequest :=
  {| p_request := {| req_body := match to_vec (Obj obj) with Ok t => t | Err _ => "" end; req_headers := ∅; req_path := None;
                     target_route_id := None |};
     p_upstream_name := "chutes"; p_url_origin := None; p_model_id := "m"; p_route_id := None; p_is_tee := Some true |}.

Lemma empty_honest : honest_store ChutesSessionCache_default.
Proof. intros chute n. unfold pool_of. cbn. rewrite lookup_empty. by intros ?%elem_of_nil. Qed.

Lemma link_honest : honest_store (l_store link).
Proof.
  apply honest_exec_all; [|apply empty_honest]. repeat constructor. intros i Hi. apply list_elem_of_singleton in Hi as ->. reflexivity.
Qed.

End DemoChutes.
