(* ===== verification/Service.v ===== *)
(** * The service

    Model of the ACI service without its request path: construction and keyset
    revocation ([src/aggregator/service/mod.rs]), configuration ([config.rs]),
    errors ([errors.rs]), attestation reports ([e2ee.rs], first half) and the
    small helpers ([helpers.rs]). *)
From S2P Require Import Prelude StrOps Json Serde Canonical Identity Fs Revocation Receipt Upstream AciVerifier E2ee E2eeFields.
Import Types.

Definition CHAT_COMPLETIONS_PATH : string := "/v1/chat/completions".
Definition RESPONSES_PATH : string := "/v1/responses".

(** ** Errors *)

Inductive UpstreamVerificationError := NoVerifierResult | VerifierFailed (reason : string).

(** A store's failure is kept as such, not as its text. *)
Inductive ServiceError :=
| TestKeysInProduction
| InvalidSourceProvenance
| UpstreamVerification (e : UpstreamVerificationError)
| ServiceE2ee (e : E2eeError)
| ServiceCanonical (e : CanonicalError)
| ServiceKey (e : KeyError)
| ServiceReceipt (e : ReceiptError)
| ServiceUpstream (e : UpstreamError)
| ServiceSessionStore (session_id : string) (e : io_error)
| ServiceRevocationStore (e : io_error)
| KeysetRevoked
| NoReceiptKey
| DownstreamTlsDomainMissing
| DownstreamTlsDomainUnknown (host : string).

(** ** Configuration *)

Record AciServiceConfig := {
  cfg_vendor : string;
  cfg_tee_type : string;
  cfg_source_provenance : SourceProvenance;
  cfg_keyset_epoch : KeysetEpoch;
  identity_subject : option string;
  service_capabilities : list string;
  freshness_seconds : Z;
  receipt_ttl_seconds : Z;
  upstream_required_default : bool;
  allow_test_keys : bool;
  cfg_tls_public_keys : option (list TlsSpki);
}.

Definition is_unknown (sp : SourceProvenance) : bool :=
  match repo_url sp, repo_commit sp, image_digest sp, image_provenance sp with
  | None, None, None, None => true
  | _, _, _, _ => false
  end.

Definition is_some_nonempty (o : option string) : bool :=
  match o with Some s => negb (String.eqb s "") | None => false end.

Definition validate_source_provenance (sp : SourceProvenance) : result ServiceError unit :=
  if is_unknown sp then Ok tt
  else
    let has_repo := is_some_nonempty (repo_url sp) && is_some_nonempty (repo_commit sp) in
    let has_image := is_some_nonempty (image_digest sp) in
    if has_repo || has_image then Ok tt else Err InvalidSourceProvenance.

Definition normalize_downstream_domain (raw : string) : option string :=
  let domain := to_ascii_lowercase (trim_end_dots (str_trim raw)) in
  if String.eqb domain "" || str_contains "/" domain || str_contains ":" domain || str_contains "=" domain
     || str_contains "," domain || existsb char_is_whitespace (chars domain)
  then None else Some domain.

(** ** The service: what is fixed when it is built *)

Record AciService (V : Type) := {
  upstream_verifier : option V;
  keyset : WorkloadKeyset;
  svc_workload_id : string;
  svc_workload_keyset_digest : string;
  default_receipt_key_id : string;
  config : AciServiceConfig;
}.
Arguments upstream_verifier {V}.
Arguments keyset {V}.
Arguments svc_workload_id {V}.
Arguments svc_workload_keyset_digest {V}.
Arguments default_receipt_key_id {V}.
Arguments config {V}.

(** What the quote provider returns. *)
Record Quote := { raw_quote : string; q_report_data : string; q_event_log : Value; vm_config : Value }.

Class Quoter : Type := {
  get_quote : string -> result KeyError Quote;
  get_quote_raw : string -> result KeyError Quote;
}.

(** Keccak-256 of the [sha3] crate. *)
Class Keccak : Type := keccak256 : string -> string.

Section Service.
Context `{Digest} `{Crypto} `{CurveLibs} `{KeyProvider} `{E2eeKeys} `{Quoter} `{Keccak}.
Context {V : Type}.

Definition new_inner (verifier : option V) (cfg : AciServiceConfig) : result ServiceError (AciService V) :=
  _ ← (if is_test_only && negb (allow_test_keys cfg) then Err TestKeysInProduction else Ok tt);
  _ ← validate_source_provenance (cfg_source_provenance cfg);
  let ks := {| workload_identity := {| public_key := identity_public_key; subject := identity_subject cfg |};
               keyset_epoch := cfg_keyset_epoch cfg;
               receipt_signing_keys := receipt_keys;
               e2ee_public_keys := e2ee_keys;
               tls_public_keys := match cfg_tls_public_keys cfg with Some keys => keys | None => tls_spkis end |} in
  wid ← map_err ServiceCanonical (workload_id (workload_identity ks));
  digest ← map_err ServiceCanonical (workload_keyset_digest ks);
  first ← ok_or (head receipt_keys) NoReceiptKey;
  Ok {| upstream_verifier := verifier; keyset := ks; svc_workload_id := wid; svc_workload_keyset_digest := digest;
        default_receipt_key_id := key_id first; config := cfg |}.

(** ** Revocation *)

Definition is_keyset_revoked (svc : AciService V) (store : RevocationStore) : bool :=
  is_revoked store (svc_workload_keyset_digest svc).

Definition revoke_current_keyset `{JsonCodec (list RevocationStatement)} (svc : AciService V) (now : Z)
    (store : RevocationStore) (w : World) : result ServiceError RevocationStatement * RevocationStore * World :=
  match keyset_revocation_payload (svc_workload_keyset_digest svc) with
  | Err e => (Err (ServiceCanonical e), store, w)
  | Ok payload =>
      match sign_keyset_revocation payload with
      | Err e => (Err (ServiceKey e), store, w)
      | Ok signature =>
          let statement := RevocationStatement_new (svc_workload_id svc) (svc_workload_keyset_digest svc)
                             (pk_algo identity_public_key) (hex_encode signature) now in
          let '(res, store, w) := record store statement w in
          (match res with Ok _ => Ok statement | Err e => Err (ServiceRevocationStore e) end, store, w)
      end
  end.

(** ** Attestation reports *)

Definition tls_key_for (svc : AciService V) (domain_ : string) : option TlsSpki :=
  find (fun key => bool_decide (domain key = Some domain_)) (tls_public_keys (keyset svc)).

Definition downstream_tls_binding (svc : AciService V) (raw_domain : string) : option Value :=
  d ← normalize_downstream_domain raw_domain;
  key ← tls_key_for svc d;
  Some ({{ "domain" ≔ Str d; "spki_sha256" ≔ Str (spki_sha256_hex key) }}).

Definition requires_host_for_downstream_tls_binding (svc : AciService V) : bool :=
  existsb (fun key => bool_decide (is_Some (domain key))) (tls_public_keys (keyset svc)).

(** [evidence[key] = value] *)
Definition set_evidence (key : string) (value evidence : Value) : Value :=
  match evidence with Obj m => Obj (map_insert key value m) | v => v end.

Definition assemble_report (svc : AciService V) (now : Z) (report_data_bytes : string) (quote : Quote)
    (domain_ : option string) : result ServiceError AttestationReport :=
  endorsement_payload ← map_err ServiceCanonical (keyset_endorsement_payload (keyset svc));
  endorsement_sig ← map_err ServiceKey (sign_keyset_endorsement endorsement_payload);
  let endorsement := {| ke_algo := pk_algo identity_public_key; ke_value_hex := hex_encode endorsement_sig |} in
  let fresh := {| fetched_at := now; stale_after := u64_add now (freshness_seconds (config svc)) |} in
  let evidence := {{ "quote" ≔ Str (hex_encode (raw_quote quote));
                     "quote_report_data" ≔ Str (hex_encode (q_report_data quote));
                     "event_log" ≔ q_event_log quote;
                     "vm_config" ≔ vm_config quote }} in
  let evidence := match key_custody_evidence with
                  | Null => evidence
                  | key_custody => set_evidence "key_custody" key_custody evidence
                  end in
  evidence ← (if requires_host_for_downstream_tls_binding svc then
                d ← ok_or domain_ DownstreamTlsDomainMissing;
                binding ← ok_or (downstream_tls_binding svc d) (DownstreamTlsDomainUnknown d);
                Ok (set_evidence "downstream_tls_binding" binding evidence)
              else
                match domain_ ≫= downstream_tls_binding svc with
                | Some binding => Ok (set_evidence "downstream_tls_binding" binding evidence)
                | None => Ok evidence
                end);
  Ok {| api_version := "aci/1"; rep_workload_id := svc_workload_id svc;
        rep_workload_keyset_digest := svc_workload_keyset_digest svc;
        attestation :=
          {| vendor := cfg_vendor (config svc); tee_type := cfg_tee_type (config svc); workload_keyset := keyset svc;
             report_data_hex := hex_encode report_data_bytes; keyset_endorsement := endorsement;
             source_provenance := cfg_source_provenance (config svc); freshness := fresh; att_evidence := evidence |};
        supported_e2ee_versions := service_capabilities (config svc) |}.

Definition attestation_report_for_domain (svc : AciService V) (store : RevocationStore) (now : Z)
    (nonce domain_ : option string) : result ServiceError AttestationReport :=
  if is_keyset_revoked svc store then Err KeysetRevoked
  else
    statement ← map_err ServiceCanonical (attestation_statement (keyset svc) nonce);
    rd ← map_err ServiceCanonical (report_data statement);
    quote ← map_err ServiceKey (get_quote rd);
    assemble_report svc now rd quote domain_.

Definition attestation_report (svc : AciService V) (store : RevocationStore) (now : Z) (nonce : option string) :
    result ServiceError AttestationReport :=
  attestation_report_for_domain svc store now nonce None.

(** ** The legacy report *)

Definition key_err {A} (msg : string) : result ServiceError A := Err (ServiceKey (Revocation.Crypto msg)).

Definition ethereum_address_from_uncompressed_public_key (public_key_hex : string) : result KeyError string :=
  public_key ← crypto_err "invalid secp256k1 public key hex" (hex_decode public_key_hex);
  match uncompressed_coordinates public_key with
  | None =>
      Err (Revocation.Crypto ("secp256k1 public key must be 64 or 65 bytes, got "
                                +:+ nat_to_string (String.length public_key)))
  | Some rest => Ok ("0x" +:+ hex_encode (str_drop 12 (keccak256 rest)))
  end.

(** [trim_start_matches("0x")] *)
Fixpoint trim_start_0x (fuel : nat) (s : string) : string :=
  match fuel with
  | O => s
  | S fuel => match strip_prefix "0x" s with Some r => trim_start_0x fuel r | None => s end
  end.

Definition legacy_signing_key_bytes (signing_algo : option string) : result ServiceError string :=
  let signing_algo := to_ascii_lowercase match signing_algo with Some a => a | None => "ecdsa" end in
  if String.eqb signing_algo "ecdsa" then
    match find (fun key => String.eqb (algo key) E2EE_ALGO_SECP256K1_AESGCM) e2ee_keys with
    | None => key_err "no secp256k1 E2EE key for legacy report_data binding"
    | Some key =>
        address ← map_err ServiceKey (ethereum_address_from_uncompressed_public_key (public_key_hex key));
        map_err (fun e => ServiceKey (Revocation.Crypto ("invalid signing address hex: " +:+ e)))
          (hex_decode (trim_start_0x (String.length address) address))
    end
  else if String.eqb signing_algo "ed25519" then
    match find (fun key => String.eqb (algo key) E2EE_ALGO_LEGACY_ED25519) e2ee_keys with
    | None => key_err "no ed25519 E2EE key for legacy report_data binding"
    | Some key =>
        map_err (fun e => ServiceKey (Revocation.Crypto ("invalid ed25519 public key hex: " +:+ e)))
          (hex_decode (public_key_hex key))
    end
  else Err (ServiceKey (UnsupportedAlgo signing_algo)).

Definition legacy_tls_spki_fingerprint (svc : AciService V) (domain_ : option string) : result ServiceError string :=
  match (d ← domain_; d ← normalize_downstream_domain d; tls_key_for svc d) with
  | None => key_err "attestation version 2 requires a published TLS SPKI for the request host"
  | Some key =>
      match hex_decode (spki_sha256_hex key) with
      | Err e => key_err ("invalid TLS SPKI hex: " +:+ e)
      | Ok bytes => if Nat.eqb (String.length bytes) 32 then Ok bytes
                    else key_err "TLS SPKI fingerprint is not 32 bytes"
      end
  end.

(** [bytes] copied over the first bytes of a zeroed array of 64; a key of more
    than 64 bytes, which no algorithm has, would panic. *)
Definition into_64 (bytes : string) : string := str_take 64 (bytes +:+ zeros 64).

Definition legacy_report_data (svc : AciService V) (signing_algo : option string) (version_ : Z)
    (nonce domain_ : option string) : result ServiceError string :=
  signing_key ← legacy_signing_key_bytes signing_algo;
  rd ← (if 2 <=? version_ then
          cert_fingerprint ← legacy_tls_spki_fingerprint svc domain_;
          Ok (into_64 (sha256 (signing_key +:+ cert_fingerprint)))
        else Ok (into_64 signing_key));
  match nonce with
  | None => Ok rd
  | Some nonce =>
      let nonce_bytes := match hex_decode nonce with
                         | Ok bytes => if Nat.eqb (String.length bytes) 32 then bytes else sha256 nonce
                         | Err _ => sha256 nonce
                         end in
      Ok (str_take 32 rd +:+ nonce_bytes)
  end.

Definition legacy_attestation_report_for_domain (svc : AciService V) (now : Z) (signing_algo : option string)
    (version_ : Z) (nonce domain_ : option string) : result ServiceError AttestationReport :=
  rd ← legacy_report_data svc signing_algo version_ nonce domain_;
  quote ← map_err ServiceKey (get_quote_raw rd);
  assemble_report svc now rd quote domain_.

(** ** Helpers *)

Section Json.
Context `{SerdeJson}.

(** The first byte that is not ASCII white space. *)
Fixpoint first_nonblank (s : string) : option ascii :=
  match s with
  | EmptyString => None
  | String c s =>
      let n := N_of_ascii c in
      if ((n =? 9) || (n =? 10) || (n =? 12) || (n =? 13) || (n =? 32))%N then first_nonblank s else Some c
  end.

Definition parse_object (body : string) : option Value :=
  match first_nonblank body with
  | Some c => if Ascii.eqb c "{" then Prelude.ok (from_slice body) else None
  | None => None
  end.

Definition extract_chat_id (body : string) : option string :=
  parsed ← parse_object body; get parsed "id" ≫= as_str.

Definition accepted_response_model (status_code : Z) (body : string) : option string :=
  if (200 <=? status_code) && (status_code <=? 299) then
    parsed ← parse_object body; get parsed "model" ≫= as_str
  else None.

Definition event_hash (ty field : string) (r : Receipt.Receipt) : option string :=
  e ← find (fun e => String.eqb (event_type e) ty) (event_log r);
  h ← get (fields e) field ≫= as_str;
  strip_prefix "sha256:" h.

Definition legacy_signature_text (receipt : Receipt.Receipt) : option string :=
  request_hash ← event_hash EVENT_REQUEST_RECEIVED "body_hash" receipt;
  response_hash ← event_hash EVENT_RESPONSE_RETURNED "wire_hash" receipt;
  Some (request_hash +:+ ":" +:+ response_hash).

Record LegacySignatureResult := {
  lsr_text : string;
  lsr_signature : string;
  lsr_signing_address : string;
  lsr_signing_algo : string;
}.

Definition legacy_signature_for_receipt (receipt : Receipt.Receipt) (signing_algo : option string) :
    result ServiceError LegacySignatureResult :=
  match legacy_signature_text receipt with
  | None => Err (ServiceReceipt (MissingRequiredEvent EVENT_RESPONSE_RETURNED))
  | Some text =>
      sig ← map_err ServiceKey
              (sign_legacy_message match signing_algo with Some a => a | None => "ecdsa" end text);
      Ok {| lsr_text := text; lsr_signature := ls_signature sig; lsr_signing_address := ls_signing_address sig;
            lsr_signing_algo := ls_signing_algo sig |}
  end.
End Json.
End Service.

(** ** The service's reports satisfy the verifier *)

Section Reports.
Context `{Digest} `{Crypto} `{CurveLibs} `{KeyProvider} `{E2eeKeys} `{Quoter} `{VerifierLibs} {V : Type}.

(** The identity of a service is that of its keyset. *)
Definition identity_consistent (svc : AciService V) : Prop :=
  public_key (workload_identity (keyset svc)) = identity_public_key
  /\ workload_id (workload_identity (keyset svc)) = Ok (svc_workload_id svc)
  /\ workload_keyset_digest (keyset svc) = Ok (svc_workload_keyset_digest svc).

Lemma new_inner_consistent (v : option V) cfg svc :
  new_inner v cfg = Ok svc -> identity_consistent svc /\ config svc = cfg /\ upstream_verifier svc = v.
Proof.
  unfold new_inner. intros Hn. bind_step Hn. bind_step Hn. cbn zeta in Hn. bind_step Hn. bind_step Hn. bind_step Hn.
  injection Hn as <-. by repeat split.
Qed.

Lemma new_inner_keyset (v : option V) cfg svc : new_inner v cfg = Ok svc ->
  keyset svc = {| workload_identity := {| public_key := identity_public_key; subject := identity_subject cfg |};
                  keyset_epoch := cfg_keyset_epoch cfg; receipt_signing_keys := receipt_keys; e2ee_public_keys := e2ee_keys;
                  tls_public_keys := default tls_spkis (cfg_tls_public_keys cfg) |}.
Proof.
  unfold new_inner. intros Hn. bind_step Hn. bind_step Hn. cbn zeta in Hn. bind_step Hn. bind_step Hn. bind_step Hn.
  by injection Hn as <-.
Qed.

(** What the key provider and SHA-256 promise. *)
Class SignerLaws : Prop := {
  endorsement_verifies payload sig :
    sign_keyset_endorsement payload = Ok sig -> verify_keyset_endorsement identity_public_key payload sig = true;
  sha256_length b : String.length (sha256 b) = 32%nat;
}.

Lemma report_data_length `{SignerLaws} st rd : report_data st = Ok rd -> String.length rd = 32%nat.
Proof. unfold report_data, jcs_sha256_raw. rewrite result_bind_Ok. intros (b & _ & [= <-]). apply sha256_length. Qed.

(** What an assembled report carries. *)
Lemma assemble_report_Ok (svc : AciService V) now rd quote dom report :
  assemble_report svc now rd quote dom = Ok report ->
  api_version report = "aci/1" /\ rep_workload_id report = svc_workload_id svc
  /\ rep_workload_keyset_digest report = svc_workload_keyset_digest svc
  /\ workload_keyset (attestation report) = keyset svc
  /\ report_data_hex (attestation report) = hex_encode rd
  /\ freshness (attestation report) = {| fetched_at := now; stale_after := u64_add now (freshness_seconds (config svc)) |}
  /\ exists payload sig, keyset_endorsement_payload (keyset svc) = Ok payload /\ sign_keyset_endorsement payload = Ok sig
     /\ keyset_endorsement (attestation report) = {| ke_algo := pk_algo identity_public_key; ke_value_hex := hex_encode sig |}.
Proof.
  unfold assemble_report. intros Ha. bind_step Ha. bind_step Ha. cbn zeta in Ha. bind_step Ha. injection Ha as <-.
  repeat split. eauto.
Qed.
End Reports.

(** What a served report names. *)
Lemma report_names {V} `{KeyProvider} `{E2eeKeys, Quoter} `{Digest} (svc : AciService V) store nonce dom t report :
  attestation_report_for_domain svc store t nonce dom = Ok report ->
  workload_keyset (attestation report) = keyset svc /\ fetched_at (freshness (attestation report)) = t.
Proof.
  unfold attestation_report_for_domain. destruct (is_keyset_revoked svc store); [done|]. intros Hr.
  bind_step Hr. bind_step Hr. bind_step Hr. apply assemble_report_Ok in Hr as (_ & _ & _ & Hk & _ & Hf & _). by rewrite Hf.
Qed.

(** A gateway that serves a report serves one its own verifier accepts: a
    report built for a nonce passes the binding check for that nonce, with the
    report data of the service's keyset, at any time from its creation until its
    freshness runs out; and a service whose keyset is revoked serves none. *)
Theorem report_self_validates {V} `{SignerLaws} `{!HexLaws} `{E2eeKeys, Quoter} (v : option V) cfg svc store nonce dom t report :
  new_inner v cfg = Ok svc ->
  attestation_report_for_domain svc store t nonce dom = Ok report ->
  is_keyset_revoked svc store = false
  /\ forall now body, t <= now < t + freshness_seconds cfg -> is_u64 (t + freshness_seconds cfg) ->
     exists validated, validate_aci_report_binding report nonce now body = Ok validated
       /\ v_workload_keyset_digest validated = svc_workload_keyset_digest svc /\ v_workload_id validated = svc_workload_id svc.
Proof.
  intros Hn Hr. destruct (new_inner_consistent _ _ _ Hn) as ((Hpk & Hwid & Hdig) & Hcfg & _).
  unfold attestation_report_for_domain in Hr. destruct (is_keyset_revoked svc store); [done|]. split; [done|].
  bind_step Hr. bind_step Hr. bind_step Hr.
  apply assemble_report_Ok in Hr as (Hv & Hi & Hd & Hk & Hrd & Hf & payload & sig & Hp & Hs & Hke).
  intros now body Hnow Hu. unfold validate_aci_report_binding. rewrite Hv, Hi, Hd, Hk, Hrd, Hf, Hke, Hpk.
  cbn [unless String.eqb Ascii.eqb Bool.eqb mbind result_bind ke_algo ke_value_hex fetched_at stale_after].
  rewrite Hwid. cbn [map_err mbind result_bind]. rewrite String.eqb_refl. cbn [unless mbind result_bind].
  rewrite Hdig. cbn [map_err mbind result_bind]. rewrite String.eqb_refl. cbn [unless mbind result_bind].
  rewrite E. cbn [map_err mbind result_bind]. rewrite E0. cbn [map_err mbind result_bind].
  unfold decode_hex_32, decode_hex. rewrite !hex_encode_digits, !hex_decode_encode. cbn [mbind result_bind].
  rewrite (report_data_length _ _ E0). cbn [Nat.eqb map_err mbind result_bind].
  rewrite !String.eqb_refl. cbn [unless mbind result_bind].
  rewrite Hp. cbn [map_err mbind result_bind]. rewrite (endorsement_verifies _ _ Hs). cbn [unless mbind result_bind].
  assert (Ha : u64_add t (freshness_seconds (config svc)) = t + freshness_seconds cfg).
  { rewrite Hcfg. unfold u64_add. apply Z.mod_small. unfold is_u64, u64_max in Hu. lia. }
  rewrite Ha. destruct (Z.ltb_spec now t); [lia|]. destruct (Z.leb_spec (t + freshness_seconds cfg) now); [lia|].
  cbn. eexists. split; [done|]. done.
Qed.

(** ** A concrete service *)

Module DemoService.
#[export] Existing Instance Demo.digest32.
#[export] Existing Instance Demo.crypto.

#[export] Instance keys : KeyProvider := {|
  identity_public_key := {| pk_algo := "ecdsa-secp256k1"; pk_public_key_hex := "03cd" |};
  sign_keyset_endorsement _ := Ok (zeros 64);
  sign_keyset_revocation _ := Ok (zeros 64);
  receipt_keys := [demo_key "receipt-1"];
  sign_receipt kid bytes :=
    if String.eqb kid "receipt-1" then Ok (String.substring 0 4 bytes) else Err (UnknownReceiptKeyId kid) |}.

#[export] Instance e2ee : E2eeKeys := {|
  e2ee_keys := [{| key_id := "e2ee-1"; algo := E2EE_ALGO_X25519_AESGCM; public_key_hex := demo_hex (zeros 32) |}];
  decrypt_e2ee key_id ct aad := Ok ct;
  decrypt_legacy_e2ee algo ct aad := Err (UnsupportedAlgo algo);
  tls_spkis := [];
  sign_legacy_message algo text := Err (UnsupportedAlgo algo);
  key_custody_evidence := Null;
  is_test_only := false |}.

#[export] Instance quoter : Quoter := {|
  get_quote rd := Ok {| raw_quote := rd; q_report_data := rd; q_event_log := Null; vm_config := Null |};
  get_quote_raw rd := Ok {| raw_quote := rd; q_report_data := rd; q_event_log := Null; vm_config := Null |} |}.

#[export] Instance signer_laws : SignerLaws.
Proof. split; [by intros payload sig [= <-]|done]. Qed.

#[export] Instance hex_laws : HexLaws.
Proof. split; [apply Toy.hex_laws|intros b; apply (hex_encode_digits (HexLaws := Toy.hex_laws))]. Qed.

Definition cfg : AciServiceConfig := {|
  cfg_vendor := "v"; cfg_tee_type := "tdx";
  cfg_source_provenance := {| repo_url := None; repo_commit := None; image_digest := None; image_provenance := None |};
  cfg_keyset_epoch := {| version := 1; not_after := 2000000000 |}; identity_subject := None; service_capabilities := ["2"];
  freshness_seconds := 3600; receipt_ttl_seconds := 3600; upstream_required_default := true; allow_test_keys := false;
  cfg_tls_public_keys := None |}.

Definition dummy {V} : AciService V := {|
  upstream_verifier := None; keyset := demo_keyset 1; svc_workload_id := ""; svc_workload_keyset_digest := "";
  default_receipt_key_id := ""; config := cfg |}.

Definition svc {V} (v : option V) : AciService V := match new_inner v cfg with Ok s => s | Err _ => dummy end.

Definition report : AttestationReport :=
  match attestation_report_for_domain (svc (V := unit) None) in_memory 1000 (Some "n") None with
  | Ok r => r
  | Err _ => Demo.report "" ""
  end.
End DemoService.

Import DemoService.

Lemma report_self_validates_witness :
  new_inner (H := Demo.digest32) (H2 := DemoService.keys) (H3 := DemoService.e2ee) (V := unit) None DemoService.cfg
    = Ok (DemoService.svc None)
  /\ exists validated,
    validate_aci_report_binding (H := Demo.digest32) (H0 := Demo.crypto) DemoService.report (Some "n") 1500 None = Ok validated
    /\ v_workload_keyset_digest validated = svc_workload_keyset_digest (DemoService.svc (V := unit) None).
Proof.
  assert (Hn : new_inner (H := Demo.digest32) (H2 := DemoService.keys) (H3 := DemoService.e2ee) (V := unit) None DemoService.cfg
    = Ok (DemoService.svc None)) by (vm_compute; reflexivity).
  split; [exact Hn|].
  assert (Hr : attestation_report_for_domain (DemoService.svc (V := unit) None) in_memory 1000 (Some "n") None
    = Ok DemoService.report) by (vm_compute; reflexivity).
  destruct (report_self_validates None DemoService.cfg (DemoService.svc None) in_memory (Some "n") None 1000
    DemoService.report Hn Hr) as [_ Hv].
  destruct (Hv 1500 None) as (validated & Hval & Hdig & _); [vm_compute; split; congruence..|]. exists validated. exact (conj Hval Hdig).
Defined.
