(* ===== verification/E2eeRequest.v ===== *)
(** * Encrypted requests

    Model of the second half of [src/aggregator/service/e2ee.rs]: the checks an
    encrypted request passes before its fields are decrypted, and the replay
    cache. *)
From S2P Require Import Prelude StrOps Json Serde Canonical Identity Revocation AciVerifier E2ee E2eeFields Service.
Import Types.

Record E2eeRequestParts := {
  signing_algo : option string;
  client_public_key : option string;
  model_public_key : option string;
  parts_version : option string;
  parts_nonce : option string;
  parts_timestamp : option string;
}.

Record E2eePreparedRequest := { decrypted_body : string; context : E2eeRequestContext }.

(** [E2eeReplayKey]: client key, model key, nonce; with the time it expires. *)
Abbreviation ReplayKey := (string * string * string)%type.
Abbreviation ReplayCache := (gmap ReplayKey Z).

Definition claim_e2ee_replay (key : ReplayKey) (now : Z) (cache : ReplayCache) : result E2eeError unit * ReplayCache :=
  let cache := filter (fun kv => now < kv.2) cache in
  match cache !! key with
  | Some _ => (Err ReplayDetected, cache)
  | None => (Ok tt, <[key := u64_saturating_add now 300]> cache)
  end.

(** [str::parse::<u64>]: an optional plus sign and digits. *)
Definition parse_u64 (s : string) : option Z :=
  let digits := match s with String "+" r => r | _ => s end in
  if String.eqb digits "" then None
  else if string_forallb (fun c => let n := N_of_ascii c in (48 <=? n) && (n <=? 57))%N digits then
    z ← string_to_z digits; if z <=? u64_max then Some z else None
  else None.

Definition abs_diff (a b : Z) : Z := Z.abs (a - b).

Section Prepare.
Context `{Digest} `{Crypto} `{CurveLibs} `{SerdeJson} `{E2eeKeys} {V : Type}.

(** The model key names this entry, each normalized for the entry's suite. *)
Definition suite_key_matches (model_public_key : string) (key : KeyedPublicKey) : bool :=
  is_aci_e2ee_suite (algo key)
  && match normalize_aci_e2ee_public_key_hex (algo key) model_public_key,
           normalize_aci_e2ee_public_key_hex (algo key) (public_key_hex key) with
     | Ok supplied, Ok stored => String.eqb supplied stored
     | _, _ => false
     end.

Definition prepare_legacy_e2ee_request (svc : AciService V) (parts : E2eeRequestParts) (body endpoint_path : string) :
    result E2eeError E2eePreparedRequest :=
  raw_algo ← ok_or (signing_algo parts) HeaderMissing;
  let algo_ := to_ascii_lowercase (str_trim raw_algo) in
  _ ← unless (String.eqb algo_ E2EE_ALGO_LEGACY_ECDSA || String.eqb algo_ E2EE_ALGO_LEGACY_ED25519) InvalidSigningAlgo;
  client_pk ← ok_or (client_public_key parts) HeaderMissing;
  model_pk ← ok_or (model_public_key parts) HeaderMissing;
  _ ← ok_or (find (fun key => String.eqb (algo key) algo_ && legacy_public_keys_match algo_ (public_key_hex key) model_pk)
               (e2ee_public_keys (keyset svc))) ModelKeyMismatch;
  let version_header := str_trim match parts_version parts with Some v => v | None => "" end in
  let given o := match o with Some s => negb (String.eqb (str_trim s) "") | None => false end in
  _ ← unless (negb ((negb (String.eqb version_header "") && negb (String.eqb version_header E2EE_VERSION_V1))
                    || given (parts_nonce parts) || given (parts_timestamp parts))) InvalidVersion;
  payload ← map_err (fun _ => DecryptionFailed) (from_slice body);
  request_model ← validate_aci_payload_model payload;
  let crypto := {| fc_decryptor := DecryptLegacy algo_; fc_algo := algo_; fc_aad_mode := LegacyV1;
                   fc_model := request_model; fc_nonce := None; fc_timestamp := None |} in
  payload ← decrypt_request_payload crypto endpoint_path payload;
  body ← map_err (fun _ => DecryptionFailed) (to_vec payload);
  client_hex ← normalize_legacy_public_key_for_replay algo_ client_pk;
  Ok {| decrypted_body := body;
        context := {| ctx_version := E2EE_VERSION_V1; ctx_algo := algo_; aad_mode := LegacyV1;
                      request_model := request_model; ctx_client_public_key_hex := client_hex;
                      ctx_nonce := None; ctx_timestamp := None |} |}.

(** The checks of a version 2 request up to the replay claim. *)
Record CheckedRequest := {
  selected_key : KeyedPublicKey;
  chk_client_hex : string;
  chk_model_hex : string;
  chk_nonce : string;
  chk_timestamp : Z;
  chk_payload : Value;
  chk_model : string;
}.

Definition check_v2_request (svc : AciService V) (parts : E2eeRequestParts) (body : string) (now : Z) :
    result E2eeError CheckedRequest :=
  version_ ← ok_or (parts_version parts) HeaderMissing;
  _ ← unless (String.eqb version_ E2EE_VERSION_V2) InvalidVersion;
  client_pk ← ok_or (client_public_key parts) HeaderMissing;
  model_pk ← ok_or (model_public_key parts) HeaderMissing;
  nonce ← ok_or (parts_nonce parts) HeaderMissing;
  ts_text ← ok_or (parts_timestamp parts) HeaderMissing;
  _ ← validate_aci_e2ee_nonce nonce;
  timestamp ← ok_or (parse_u64 ts_text) InvalidTimestamp;
  _ ← unless (abs_diff now timestamp <=? 300) InvalidTimestamp;
  selected ← ok_or (find (suite_key_matches model_pk) (e2ee_public_keys (keyset svc))) ModelKeyMismatch;
  client_hex ← map_err (fun _ => InvalidPublicKey) (normalize_aci_e2ee_public_key_hex (algo selected) client_pk);
  model_hex ← map_err (fun _ => InvalidPublicKey) (normalize_aci_e2ee_public_key_hex (algo selected) model_pk);
  payload ← map_err (fun _ => DecryptionFailed) (from_slice body);
  request_model ← validate_aci_payload_model payload;
  Ok {| selected_key := selected; chk_client_hex := client_hex; chk_model_hex := model_hex; chk_nonce := nonce;
        chk_timestamp := timestamp; chk_payload := payload; chk_model := request_model |}.

(** What follows the claim. *)
Definition decrypt_checked (c : CheckedRequest) (endpoint_path : string) : result E2eeError E2eePreparedRequest :=
  let crypto := {| fc_decryptor := DecryptAciV2 (key_id (selected_key c)); fc_algo := algo (selected_key c);
                   fc_aad_mode := AciV2; fc_model := chk_model c; fc_nonce := Some (chk_nonce c);
                   fc_timestamp := Some (chk_timestamp c) |} in
  payload ← decrypt_request_payload crypto endpoint_path (chk_payload c);
  body ← map_err (fun _ => DecryptionFailed) (to_vec payload);
  Ok {| decrypted_body := body;
        context := {| ctx_version := E2EE_VERSION_V2; ctx_algo := algo (selected_key c); aad_mode := AciV2;
                      request_model := chk_model c; ctx_client_public_key_hex := chk_client_hex c;
                      ctx_nonce := Some (chk_nonce c); ctx_timestamp := Some (chk_timestamp c) |} |}.

Definition replay_key (c : CheckedRequest) : ReplayKey := (chk_client_hex c, chk_model_hex c, chk_nonce c).

Definition prepare_e2ee_v2_request (svc : AciService V) (parts : E2eeRequestParts) (body endpoint_path : string)
    (now : Z) (cache : ReplayCache) : result E2eeError E2eePreparedRequest * ReplayCache :=
  match signing_algo parts with
  | Some _ => (prepare_legacy_e2ee_request svc parts body endpoint_path, cache)
  | None =>
      match check_v2_request svc parts body now with
      | Err e => (Err e, cache)
      | Ok c =>
          match claim_e2ee_replay (replay_key c) now cache with
          | (Err e, cache) => (Err e, cache)
          | (Ok _, cache) => (decrypt_checked c endpoint_path, cache)
          end
      end
  end.
End Prepare.

(** ** Lemmas *)

Lemma claim_lookup key key' now cache res cache' :
  claim_e2ee_replay key now cache = (res, cache') -> key' <> key ->
  cache' !! key' = filter (fun kv => now < kv.2) cache !! key'.
Proof.
  unfold claim_e2ee_replay. destruct (filter _ cache !! key) eqn:E; intros [= <- <-] Hne; [done|].
  by rewrite lookup_insert_ne.
Qed.

(** A live entry survives every claim made before it expires. *)
Lemma claim_keeps key t now e cache res cache' :
  claim_e2ee_replay t now cache = (res, cache') -> cache !! key = Some e -> now < e -> cache' !! key = Some e.
Proof.
  intros Hc Hk He. destruct (decide (key = t)) as [<-|Hne].
  - unfold claim_e2ee_replay in Hc.
    assert (Hf : filter (fun kv => now < kv.2) cache !! key = Some e) by (by apply map_lookup_filter_Some).
    rewrite Hf in Hc. injection Hc as <- <-. exact Hf.
  - rewrite (claim_lookup _ _ _ _ _ _ Hc) by done. by apply map_lookup_filter_Some.
Qed.

Section Replay.
Context `{Digest} `{Crypto} `{CurveLibs} `{SerdeJson} `{E2eeKeys} {V : Type}.

(** The checks depend on the clock only through the distance to the timestamp. *)
Lemma check_v2_later (svc : AciService V) parts body t c t' :
  check_v2_request svc parts body t = Ok c -> abs_diff t' (chk_timestamp c) <= 300 ->
  check_v2_request svc parts body t' = Ok c.
Proof.
  unfold check_v2_request. intros Hc Ht'.
  do 8 (bind_step Hc; cbn [unless map_err ok_or mbind result_bind]).
  rename E6 into Ets. bind_step Hc. do 5 (bind_step Hc; cbn [unless map_err ok_or mbind result_bind]).
  injection Hc as <-. cbn in Ht'. apply Z.leb_le in Ht'. by rewrite Ht'.
Qed.

(** Two spellings of one key. *)
Definition same_key (k k' : option string) : Prop :=
  match k, k' with
  | Some k, Some k' => forall suite, normalize_aci_e2ee_public_key_hex suite k = normalize_aci_e2ee_public_key_hex suite k'
  | _, _ => False
  end.

Lemma suite_key_same k k' key : same_key (Some k) (Some k') -> suite_key_matches k key = suite_key_matches k' key.
Proof. intros Hk. unfold suite_key_matches. by rewrite (Hk (algo key)). Qed.

Lemma find_same k k' keys : same_key (Some k) (Some k') -> find (suite_key_matches k) keys = find (suite_key_matches k') keys.
Proof. intros Hk. induction keys as [|key keys IH]; [done|]. cbn. by rewrite (suite_key_same _ _ key Hk), IH. Qed.

(** The key claimed is made of the client's key, the model's key and the nonce. *)
Lemma check_v2_key (svc : AciService V) parts parts' body t c body' t' c' :
  same_key (client_public_key parts) (client_public_key parts') -> same_key (model_public_key parts) (model_public_key parts') ->
  parts_nonce parts = parts_nonce parts' ->
  check_v2_request svc parts body t = Ok c -> check_v2_request svc parts' body' t' = Ok c' -> replay_key c' = replay_key c.
Proof.
  unfold check_v2_request. intros Hck Hmk Hn Hc Hc'.
  repeat (apply result_bind_Ok in Hc as (? & ? & Hc)). injection Hc as <-.
  repeat (apply result_bind_Ok in Hc' as (? & ? & Hc')). injection Hc' as <-.
  repeat match goal with Hx : ok_or ?o _ = Ok _ |- _ => destruct o eqn:?; [injection Hx as <-|discriminate Hx] end.
  repeat match goal with Hx : map_err _ _ = Ok _ |- _ => apply map_err_Ok in Hx end.
  destruct (client_public_key parts), (client_public_key parts'), (model_public_key parts), (model_public_key parts'); try done.
  simplify_eq. cbn in Hck, Hmk.
  match goal with H1 : find (suite_key_matches ?a) _ = Some _, H2 : find (suite_key_matches ?b) _ = Some _ |- _ =>
    rewrite (find_same a b) in H1 by done; rewrite H1 in H2 end. simplify_eq.
  unfold replay_key. cbn. rewrite ?Hck, ?Hmk in *. congruence.
Qed.

(** Requests in sequence, each with its time: what they do to the cache. *)
Definition Arrived : Type := (E2eeRequestParts * string * string * Z)%type.

Fixpoint arrivals (svc : AciService V) (l : list Arrived) (cache : ReplayCache) : ReplayCache :=
  match l with
  | [] => cache
  | (parts, body, ep, t) :: l => arrivals svc l (prepare_e2ee_v2_request svc parts body ep t cache).2
  end.

Lemma arrivals_keep (svc : AciService V) key e l cache :
  cache !! key = Some e -> Forall (fun a : Arrived => a.2 < e) l -> arrivals svc l cache !! key = Some e.
Proof.
  intros Hk HF. revert cache Hk. induction HF as [|[[[parts body] ep] t] l Ht _ IH]; intros cache Hk; cbn; [done|].
  apply IH. unfold prepare_e2ee_v2_request. destruct (signing_algo parts); [done|].
  destruct (check_v2_request svc parts body t) as [c|]; [|done].
  destruct (claim_e2ee_replay (replay_key c) t cache) as [res cache'] eqn:Ec. cbn in Ht.
  pose proof (claim_keeps _ _ _ _ _ _ _ Ec Hk Ht). by destruct res.
Qed.

Lemma prepare_v2_Ok (svc : AciService V) parts body ep t cache r cache' :
  signing_algo parts = None -> prepare_e2ee_v2_request svc parts body ep t cache = (Ok r, cache') ->
  exists c, check_v2_request svc parts body t = Ok c /\ claim_e2ee_replay (replay_key c) t cache = (Ok tt, cache')
    /\ decrypt_checked c ep = Ok r.
Proof.
  intros Hs. unfold prepare_e2ee_v2_request. rewrite Hs.
  destruct (check_v2_request svc parts body t) as [c|]; [|done].
  destruct (claim_e2ee_replay (replay_key c) t cache) as [[[]|] cache1] eqn:Ec; [|done].
  intros [= Hd <-]. eauto.
Qed.
End Replay.

(** C19: Replays are refused for 300 seconds: once a version 2 encrypted request has
    been accepted at time [t], no version 2 request with the same client key, model
    key and nonce is accepted before [t + 300], whatever its timestamp, its body, its
    endpoint and the spelling of its keys, and whatever other requests came in
    between.  (Requests of the legacy profile carry neither nonce nor timestamp and
    have no replay protection; after [t + 300] see [e2ee_replay_reaccepted].) *)
Theorem e2ee_replay_rejected `{Digest} `{Crypto} `{CurveLibs} `{SerdeJson} `{E2eeKeys} {V} (svc : AciService V)
    parts body ep t cache r cache' others parts' body' ep' t' :
  signing_algo parts = None -> signing_algo parts' = None -> is_u64 t ->
  prepare_e2ee_v2_request svc parts body ep t cache = (Ok r, cache') ->
  same_key (client_public_key parts) (client_public_key parts') -> same_key (model_public_key parts) (model_public_key parts') ->
  parts_nonce parts = parts_nonce parts' ->
  Forall (fun a : Arrived => a.2 < u64_saturating_add t 300) others -> t' < u64_saturating_add t 300 ->
  forall r', (prepare_e2ee_v2_request svc parts' body' ep' t' (arrivals svc others cache')).1 <> Ok r'.
Proof.
  intros Hs Hs' Ht Hp Hck Hmk Hn HF Ht' r' E. apply prepare_v2_Ok in Hp as (c & Hc & Hcl & _); [|done].
  destruct (prepare_e2ee_v2_request svc parts' body' ep' t' (arrivals svc others cache')) as [res cache2] eqn:Hp2.
  cbn in E. subst res. apply prepare_v2_Ok in Hp2 as (c2 & Hc2 & Hcl2 & _); [|done].
  rewrite (check_v2_key _ _ _ _ _ _ _ _ _ Hck Hmk Hn Hc Hc2) in Hcl2. unfold claim_e2ee_replay in Hcl, Hcl2.
  destruct (filter (fun kv => t < kv.2) cache !! replay_key c); [done|]. injection Hcl as <-.
  pose proof (arrivals_keep svc (replay_key c) _ others _ (lookup_insert_eq (filter (fun kv => t < kv.2) cache) _ _) HF) as Hk.
  assert (Hf : filter (fun kv => t' < kv.2) (arrivals svc others (<[replay_key c:=u64_saturating_add t 300]> (filter (fun kv => t < kv.2) cache)))
    !! replay_key c = Some (u64_saturating_add t 300)) by by apply map_lookup_filter_Some.
  by rewrite Hf in Hcl2.
Qed.

(** The replay cache is shorter than the acceptance window: a request whose
    timestamp [ts] is not before the time [t] it was accepted at is accepted
    again, unchanged, at every time from [t + 300] to [ts + 300], although its
    timestamp is still within the window in which repeats must be refused. *)
Theorem e2ee_replay_reaccepted `{Digest} `{Crypto} `{CurveLibs} `{SerdeJson} `{E2eeKeys} {V} (svc : AciService V)
    parts body ep t cache r cache' ts_text ts t' :
  signing_algo parts = None -> parts_timestamp parts = Some ts_text -> parse_u64 ts_text = Some ts ->
  is_u64 (t + 300) -> t <= ts -> t + 300 <= t' <= ts + 300 ->
  prepare_e2ee_v2_request svc parts body ep t cache = (Ok r, cache') ->
  (prepare_e2ee_v2_request svc parts body ep t' cache').1 = Ok r.
Proof.
  intros Hs Hts Hparse Hu Hle Ht' Hp. apply prepare_v2_Ok in Hp as (c & Hc & Hcl & Hd); [|done].
  assert (E : chk_timestamp c = ts /\ abs_diff t ts <= 300).
  { unfold check_v2_request in Hc. repeat bind_step Hc. injection Hc as <-.
    injection Hts as ->. rewrite Hparse in E6. injection E6 as <-. by apply Z.leb_le in E7. }
  destruct E as [Ec Hdiff].
  assert (Hc' : check_v2_request svc parts body t' = Ok c).
  { eapply check_v2_later; [done|]. rewrite Ec. unfold abs_diff in *. lia. }
  unfold prepare_e2ee_v2_request. rewrite Hs, Hc'. unfold claim_e2ee_replay in Hcl |- *.
  destruct (filter (fun kv => t < kv.2) cache !! replay_key c) eqn:Ek; [done|]. injection Hcl as <-.
  assert (Hsat : u64_saturating_add t 300 = t + 300) by (unfold u64_saturating_add, is_u64 in *; lia).
  assert (Hnone : filter (fun kv => t' < kv.2) (<[replay_key c:=u64_saturating_add t 300]> (filter (fun kv => t < kv.2) cache))
    !! replay_key c = None).
  { apply map_lookup_filter_None. right. intros x. rewrite lookup_insert_eq. intros [= <-]. cbn. lia. }
  by rewrite Hnone.
Qed.

(** ** A concrete request *)

Import DemoService Toy.
#[local] Existing Instance demo_serde.
#[local] Remove Hints demo_digest : typeclass_instances.

Definition demo_parts : E2eeRequestParts := {|
  signing_algo := None; client_public_key := Some (demo_hex (zeros 32)); model_public_key := Some (demo_hex (zeros 32));
  parts_version := Some "2"; parts_nonce := Some (demo_hex (zeros 32)); parts_timestamp := Some "1200" |}.

Definition demo_encrypted_body : string :=
  match to_vec ({{ "model" ≔ Str "m"; "messages" ≔ Arr [ {{ "role" ≔ Str "user"; "content" ≔ Str "hi" }} ] }}) with
  | Ok b => b
  | Err _ => ""
  end.

Definition demo_prepare (t : Z) (cache : ReplayCache) : result E2eeError E2eePreparedRequest * ReplayCache :=
  prepare_e2ee_v2_request (svc (V := unit) None) demo_parts demo_encrypted_body "/v1/chat/completions" t cache.

Definition demo_prepared : E2eePreparedRequest :=
  match (demo_prepare 1000 ∅).1 with Ok r => r | Err _ => {| decrypted_body := ""; context := demo_ctx |} end.

Lemma demo_prepare_Ok : demo_prepare 1000 ∅ = (Ok demo_prepared, (demo_prepare 1000 ∅).2).
Proof.
  assert (E : (demo_prepare 1000 ∅).1 = Ok demo_prepared) by (vm_compute; reflexivity).
  rewrite <- E. apply surjective_pairing.
Qed.

(** The same nonce with a later timestamp. *)
Definition demo_later_parts : E2eeRequestParts := {|
  signing_algo := None; client_public_key := Some (demo_hex (zeros 32)); model_public_key := Some (demo_hex (zeros 32));
  parts_version := Some "2"; parts_nonce := Some (demo_hex (zeros 32)); parts_timestamp := Some "1299" |}.

Lemma e2ee_replay_rejected_witness :
  demo_prepare 1000 ∅ = (Ok demo_prepared, (demo_prepare 1000 ∅).2)
  /\ forall r, (prepare_e2ee_v2_request (svc (V := unit) None) demo_later_parts demo_encrypted_body "/v1/chat/completions" 1299
                 (demo_prepare 1000 ∅).2).1 <> Ok r.
Proof.
  split; [exact demo_prepare_Ok|].
  apply (e2ee_replay_rejected (svc (V := unit) None) demo_parts demo_encrypted_body "/v1/chat/completions" 1000 ∅
    demo_prepared (demo_prepare 1000 ∅).2 [] demo_later_parts);
    [reflexivity|reflexivity|vm_compute; split; congruence|exact demo_prepare_Ok|done|done|reflexivity|constructor|reflexivity].
Defined.

Lemma e2ee_replay_reaccepted_witness :
  demo_prepare 1000 ∅ = (Ok demo_prepared, (demo_prepare 1000 ∅).2)
  /\ (demo_prepare 1400 (demo_prepare 1000 ∅).2).1 = Ok demo_prepared.
Proof.
  split; [exact demo_prepare_Ok|].
  apply (e2ee_replay_reaccepted (svc (V := unit) None) demo_parts demo_encrypted_body "/v1/chat/completions" 1000 ∅
    demo_prepared (demo_prepare 1000 ∅).2 "1200" 1200);
    [reflexivity|reflexivity|vm_compute; reflexivity|vm_compute; split; congruence|lia|lia|exact demo_prepare_Ok].
Defined.
