(* ===== verification/Forward.v ===== *)
(** * The request path

    Model of [src/aggregator/service/forward.rs] (verification before
    forwarding, reverification on a channel mismatch, attested sessions, the
    buffered and streaming requests) and of the records of [wire.rs] it uses.
    The shared state is what concurrent requests see: the stores, and the
    outside.  A call that waits returns it as it finds it afterwards, so what
    other requests did meanwhile is part of the call.  The trace is ghost state:
    what the service did to the verifier and sent upstream, oldest first.
    Metrics counters are left out. *)
From S2P Require Import Prelude StrOps Json Serde Canonical Identity Fs Revocation Receipt ReceiptStore Session SessionStore.
From S2P Require Import Upstream AciVerifier Verifiers Claims Errors E2ee E2eeFields Sse Service.
Import Types.

Definition CHANNEL_BINDING_REVERIFY_ATTEMPTS : nat := 2.

Record GatewayRequestContext := {
  request_id : string;
  user_model : option string;
  ctx_target_route_id : option string;
  user_tier : option string;
}.

Record ChatCompletionRequest := {
  rq_context : GatewayRequestContext;
  endpoint_path : string;
  received_body : string;
  forwarded_body : option string;
  upstream_required : option bool;
  upstream_verification_event : option UpstreamVerifiedEvent;
  requester : option ReceiptOwner;
  rq_e2ee : option E2eeRequestContext;
}.

Record E2eeResponseInfo := { ei_version : string; ei_algo : string }.

Record ForwardResult := {
  fr_receipt : Receipt.Receipt;
  upstream_status : Z;
  upstream_body : string;
  upstream_headers : gmap string string;
  fr_e2ee : option E2eeResponseInfo;
}.

Record StreamingUpstreamError := {
  err_status : Z;
  err_headers : gmap string string;
  err_body : string;
}.

Inductive ReverifyOutcome (R : Type) :=
| Forwarded (response : R)
| RefreshFailed (e : ServiceError)
| ForwardFailed (e : UpstreamError).
Arguments Forwarded {R}.
Arguments RefreshFailed {R}.
Arguments ForwardFailed {R}.

Record SealedSession := { instance_key : option string; sealed_id : string; sealed_claims : SessionClaims }.

Definition cite_served_session (sealed : list SealedSession) (served_instance_id : option string) :
    option (string * SessionClaims) :=
  let chosen := match served_instance_id with
                | Some id => find (fun s => bool_decide (instance_key s = Some id)) sealed
                | None => head sealed
                end in
  (fun s => (sealed_id s, sealed_claims s)) <$> chosen.

Definition identity_from_provider_claims (provider_claims : option Value) : option WorkloadIdentityRef :=
  let identity := {| signing_address := match provider_claims with
                                        | Some (Obj m) => map_get "signing_address" m ≫= as_str
                                        | _ => None
                                        end;
                     identity_extra := [] |} in
  if WorkloadIdentityRef_is_empty identity then None else Some identity.

Definition append_upstream_verified `{Digest} (event : UpstreamVerifiedEvent)
    (recorded : option (string * SessionClaims)) : Build unit :=
  match recorded with
  | Some (session_id, claims) => add_upstream_verified_with_session event session_id (Ok (SessionClaims_value claims))
  | None => add_upstream_verified event
  end.

(** ** What the steps of a receipt leave alone *)

Section Stable.
Context `{Digest} {X : Type} (f : ReceiptBuilder -> X).

(** [m] does not change what [f] reads. *)
Definition stable {A} (m : Build A) : Prop := forall b a b', m b = (Ok a, b') -> f b' = f b.

Lemma stable_ret {A} (a : A) : stable (mret a).
Proof. by intros b a' b' [= <- <-]. Qed.

Lemma stable_bind {A B} (m : Build A) (k : A -> Build B) : stable m -> (forall a, stable (k a)) -> stable (m ≫= k).
Proof.
  intros Hm Hk b x b'. unfold mbind, build_bind. destruct (m b) as [[a|e] b1] eqn:E; [|done].
  intros Hx. rewrite (Hk _ _ _ _ Hx). by eapply Hm.
Qed.

Context (Hf : forall b evs n, f (set_events b evs n) = f b).

Lemma stable_append ty fields_ : stable (append ty fields_).
Proof.
  intros b a b'. unfold append. destruct (_ && _); [done|].
  destruct (match fields_ with Obj obj => _ | _ => _ end); [done|]. by intros [= <- <-].
Qed.

Lemma stable_upstream event recorded : stable (append_upstream_verified event recorded).
Proof. unfold append_upstream_verified. destruct recorded as [[id cl]|]; apply stable_append. Qed.

Lemma stable_returned cb wb : stable (add_response_returned cb wb).
Proof. apply stable_bind; [apply stable_append|intros; apply stable_ret]. Qed.
End Stable.

Lemma is_ok_pair {E A St} (x : result E A * St) :
  match x.1 with Ok _ => true | Err _ => false end = true -> exists a, x = (Ok a, x.2).
Proof. destruct x as [[a|e] s]; [by exists a|done]. Qed.

(** ** Shared state and the outside *)

Record Shared (S Env Rng : Type) := {
  env : Env;
  rng : Rng;
  receipts : InMemoryReceiptStoreInner;
  sessions : S;
  disk : World;
}.
Arguments env {S Env Rng}.
Arguments rng {S Env Rng}.
Arguments receipts {S Env Rng}.
Arguments sessions {S Env Rng}.
Arguments disk {S Env Rng}.

(** The backend, the clock and the generator of receipt ids. *)
Class Outside (Sh : Type) : Type := {
  up_prepare : UpstreamRequest -> Sh -> result UpstreamError PreparedUpstreamRequest;
  up_forward : PreparedUpstreamRequest -> UpstreamVerifiedEvent -> Sh -> result UpstreamError UpstreamResponse * Sh;
  up_forward_stream :
    PreparedUpstreamRequest -> UpstreamVerifiedEvent -> Sh -> result UpstreamError UpstreamStreamResponse * Sh;
  now_secs : Sh -> Z * Sh;
  random_id : Sh -> string * Sh;
}.

Inductive Action :=
| AVerify (request : UpstreamVerificationRequest) (event : UpstreamVerifiedEvent)
| AInvalidate (request : UpstreamVerificationRequest)
| AForward (prepared : PreparedUpstreamRequest) (event : UpstreamVerifiedEvent) (failed : option UpstreamError).

Section Forward.
Context `{Digest} `{Crypto} `{CurveLibs} `{SerdeJson} `{KeyProvider}.
Context {V S Env : Type} `{SessionStoreOps S}.
Context `{UpstreamVerifier V (Shared S Env Rng)} `{!Outside (Shared S Env Rng)}.
Context (svc : AciService V).

Record State := { shared : Shared S Env Rng; trace : list Action }.

Definition Svc (A : Type) : Type := State -> result ServiceError A * State.

#[export] Instance svc_ret : MRet Svc := fun A a s => (Ok a, s).
#[export] Instance svc_bind : MBind Svc := fun A B f m s =>
  match m s with
  | (Ok a, s') => f a s'
  | (Err e, s') => (Err e, s')
  end.

Definition svc_lift {A} (r : result ServiceError A) : Svc A := fun s => (r, s).

Definition with_shared (s : State) (sh : Shared S Env Rng) : State := {| shared := sh; trace := trace s |}.
Definition did (a : Action) (s : State) : State := {| shared := shared s; trace := trace s ++ [a] |}.

Definition read_clock : Svc Z := fun s => let '(t, sh) := now_secs (shared s) in (Ok t, with_shared s sh).

Definition generate_receipt_id : Svc string := fun s =>
  let '(bytes, sh) := random_id (shared s) in (Ok ("rcpt-" +:+ hex_encode bytes), with_shared s sh).

(** Encryption draws from the shared generator. *)
Definition svc_encrypt {A} (m : EncE A) : Svc A := fun s =>
  let sh := shared s in
  let '(r, g) := m (rng sh) in
  (map_err ServiceE2ee r,
   with_shared s {| env := env sh; rng := g; receipts := receipts sh; sessions := sessions sh; disk := disk sh |}).

(** A step of the receipt builder. *)
Definition svc_build {A} (m : Build A) (b : ReceiptBuilder) : Svc (A * ReceiptBuilder) := fun s =>
  match m b with
  | (Ok a, b') => (Ok (a, b'), s)
  | (Err e, _) => (Err (ServiceReceipt e), s)
  end.

(** ** Verification *)

Definition upstream_verification_request (prepared : PreparedUpstreamRequest) (required_ : bool) :
    UpstreamVerificationRequest :=
  {| vr_upstream_name := p_upstream_name prepared; vr_url_origin := p_url_origin prepared;
     vr_model_id := p_model_id prepared; forwarded_body_hash := sha256_hex (req_body (p_request prepared));
     vr_required := required_ |}.

Definition required_or_default (o : option bool) : bool :=
  match o with Some b => b | None => upstream_required_default (config svc) end.

Definition invalidate_upstream_event (prepared : PreparedUpstreamRequest) (required_ : option bool) : Svc unit := fun s =>
  match upstream_verifier svc with
  | None => (Ok tt, s)
  | Some verifier =>
      let request := upstream_verification_request prepared (required_or_default required_) in
      (Ok tt, did (AInvalidate request) (with_shared s (ver_invalidate verifier request (shared s))))
  end.

Definition with_required (event : UpstreamVerifiedEvent) (b : bool) : UpstreamVerifiedEvent :=
  {| upstream_name := upstream_name event; provider_type := provider_type event; model_id := model_id event;
     url_origin := url_origin event; verifier_id := verifier_id event; uv_result := uv_result event; required := b;
     reason := reason event; evidence := evidence event; channel_bindings := channel_bindings event;
     provider_claims := provider_claims event |}.

(** The event the verifier supplies, if there is one. *)
Definition consult_verifier (prepared : PreparedUpstreamRequest) (required_ : bool) :
    Svc (option UpstreamVerifiedEvent) := fun s =>
  match upstream_verifier svc with
  | None => (Ok None, s)
  | Some verifier =>
      let request := upstream_verification_request prepared required_ in
      let '(event, sh) := ver_verify verifier request (shared s) in
      (Ok (Some event), did (AVerify request event) (with_shared s sh))
  end.

Definition no_verifier_event (prepared : PreparedUpstreamRequest) (required_ : bool) : UpstreamVerifiedEvent :=
  {| upstream_name := p_upstream_name prepared; provider_type := None; model_id := p_model_id prepared;
     url_origin := p_url_origin prepared; verifier_id := "none"; uv_result := Failed; required := required_;
     reason := Some "no upstream verifier configured"; evidence := None; channel_bindings := [];
     provider_claims := None |}.

(** The event to record and the fail-closed gate, before any upstream IO. *)
Definition gate_upstream_event (prepared : PreparedUpstreamRequest) (required_ : bool)
    (supplied : option UpstreamVerifiedEvent) : result ServiceError UpstreamVerifiedEvent :=
  let supplied := (fun event => with_required event required_) <$> supplied in
  let event := match supplied with Some event => event | None => no_verifier_event prepared required_ end in
  if required_ then
    match supplied with
    | None => Err (UpstreamVerification NoVerifierResult)
    | Some _ =>
        match uv_result event with
        | Verified => Ok event
        | Failed =>
            let why := match reason event with Some r => r | None => "upstream verification failed" end in
            Err (UpstreamVerification (VerifierFailed why))
        end
    end
  else Ok event.

Definition recorded_upstream_event (prepared : PreparedUpstreamRequest) (required_ : option bool)
    (supplied : option UpstreamVerifiedEvent) : Svc UpstreamVerifiedEvent :=
  let required_ := required_or_default required_ in
  supplied ← (match supplied with
              | Some event => mret (Some event)
              | None => consult_verifier prepared required_
              end);
  svc_lift (gate_upstream_event prepared required_ supplied).

Definition refresh_upstream_event (prepared : PreparedUpstreamRequest) (required_ : option bool) :
    Svc UpstreamVerifiedEvent :=
  let required_ := required_or_default required_ in
  _ ← invalidate_upstream_event prepared (Some required_);
  recorded_upstream_event prepared (Some required_) None.

Definition upstream_required_for_prepared (prepared : PreparedUpstreamRequest) (requested : option bool) : option bool :=
  match p_is_tee prepared with Some false => Some false | _ => requested end.

Definition failure {R} (r : result UpstreamError R) : option UpstreamError :=
  match r with Ok _ => None | Err e => Some e end.

(** One attempt to send: recorded with how it ended. *)
Definition forward_step {R} (fwd : PreparedUpstreamRequest -> UpstreamVerifiedEvent -> Shared S Env Rng ->
      result UpstreamError R * Shared S Env Rng)
    (prepared : PreparedUpstreamRequest) (event : UpstreamVerifiedEvent) (s : State) : result UpstreamError R * State :=
  let '(r, sh) := fwd prepared event (shared s) in (r, did (AForward prepared event (failure r)) (with_shared s sh)).

Definition is_mismatch (e : UpstreamError) : bool :=
  match e with ChannelBindingMismatch _ => true | _ => false end.

Section Reverify.
Context {R : Type}.
Context (fwd : PreparedUpstreamRequest -> UpstreamVerifiedEvent -> Shared S Env Rng ->
  result UpstreamError R * Shared S Env Rng).
Context (prepared : PreparedUpstreamRequest) (required_ : option bool) (caller_supplied_event always_invalidate : bool).

(** The loop; [attempts] reverifications remain. *)
Fixpoint reverify_loop (attempts : nat) (event : UpstreamVerifiedEvent) (s : State) :
    ReverifyOutcome R * UpstreamVerifiedEvent * State :=
  match forward_step fwd prepared event s with
  | (Ok response, s) => (Forwarded response, event, s)
  | (Err err, s) =>
      let terminal :=
        let '(_, s) := (if is_mismatch err && (always_invalidate || negb caller_supplied_event)
                        then invalidate_upstream_event prepared required_ s else (Ok tt, s)) in
        (ForwardFailed err, event, s) in
      match attempts with
      | Datatypes.S attempts =>
          if is_mismatch err && negb caller_supplied_event then
            match refresh_upstream_event prepared required_ s with
            | (Ok event, s) => reverify_loop attempts event s
            | (Err e, s) => (RefreshFailed e, event, s)
            end
          else terminal
      | O => terminal
      end
  end.

Definition forward_with_binding_reverify (event : UpstreamVerifiedEvent) (s : State) :
    ReverifyOutcome R * UpstreamVerifiedEvent * State :=
  reverify_loop CHANNEL_BINDING_REVERIFY_ATTEMPTS event s.
End Reverify.

(** ** Attested sessions *)

Definition renew_recorded (id : string) (expires now : Z) : Svc bool := fun s =>
  let sh := shared s in
  let '(renewed, st) := store_renew_session (sessions sh) id expires now in
  (Ok renewed,
   with_shared s {| env := env sh; rng := rng sh; receipts := receipts sh; sessions := st; disk := disk sh |}).

Definition persist_session (id : string) (session : AttestedSession) (now : Z) : Svc string := fun s =>
  let sh := shared s in
  let '(r, st, w) := store_put_session (sessions sh) session now (disk sh) in
  (match r with Ok _ => Ok id | Err e => Err (ServiceSessionStore id e) end,
   with_shared s {| env := env sh; rng := rng sh; receipts := receipts sh; sessions := st; disk := w |}).

Definition seal_attested_session (event : UpstreamVerifiedEvent) (identity_ : option WorkloadIdentityRef)
    (bindings : list ChannelBinding) (claims_ : SessionClaims) (ev : EvidenceRef) (now expires : Z) : Svc string :=
  let sealed (ev : EvidenceRef) := map_err ServiceCanonical
    (seal (upstream_name event) (url_origin event) (verifier_id event) identity_ bindings claims_ ev now expires) in
  probe ← svc_lift (sealed {| digest := digest ev; data_uri := None |});
  let id := session_id probe in
  renewed ← renew_recorded id expires now;
  if (renewed : bool) then mret id
  else
    session ← svc_lift (sealed ev);
    persist_session id session now.

(** A per-instance binding has the claims of its instance and no evidence. *)
Definition claims_for_binding (event : UpstreamVerifiedEvent) (binding : ChannelBinding) : SessionClaims :=
  match chutes_instance_id event binding with
  | Some id => per_instance_session_claims event id
  | None => session_claims_for_event event
  end.

Definition evidence_for_binding (event : UpstreamVerifiedEvent) (binding : ChannelBinding) : EvidenceRef :=
  match chutes_instance_id event binding, evidence event with
  | None, Some value => from_value value
  | _, _ => {| digest := None; data_uri := None |}
  end.

(** The loop over the bindings. *)
Fixpoint seal_each (event : UpstreamVerifiedEvent) (identity_ : option WorkloadIdentityRef) (now expires : Z)
    (bindings : list ChannelBinding) : Svc (list SealedSession) :=
  match bindings with
  | [] => mret []
  | binding :: bindings =>
      let claims_ := claims_for_binding event binding in
      id ← seal_attested_session event identity_ [binding] claims_ (evidence_for_binding event binding) now expires;
      rest ← seal_each event identity_ now expires bindings;
      mret ({| instance_key := chutes_instance_id event binding; sealed_id := id; sealed_claims := claims_ |} :: rest)
  end.

Definition record_attested_upstream_session (event : UpstreamVerifiedEvent) : Svc (list SealedSession) :=
  match uv_result event with
  | Failed => mret []
  | Verified =>
      now ← read_clock;
      let expires := u64_saturating_add now (receipt_ttl_seconds (config svc)) in
      seal_each event (identity_from_provider_claims (provider_claims event)) now expires (channel_bindings event)
  end.

(** [UpstreamSessionSink::record_session]: a failure is only logged. *)
Definition record_session (event : UpstreamVerifiedEvent) (s : State) : State :=
  (record_attested_upstream_session event s).2.

Definition put_receipt (r : Receipt.Receipt) (owner : option ReceiptOwner) (now expires : Z) : Svc unit := fun s =>
  let sh := shared s in
  (Ok tt, with_shared s {| env := env sh; rng := rng sh; receipts := put r owner now expires (receipts sh);
                           sessions := sessions sh; disk := disk sh |}).

Definition store_receipt (r : Receipt.Receipt) (owner : option ReceiptOwner) : Svc unit :=
  now ← read_clock;
  put_receipt r owner now (u64_saturating_add now (receipt_ttl_seconds (config svc))).

(** ** Requests *)

Definition response_info (e2ee : option E2eeRequestContext) : option E2eeResponseInfo :=
  (fun ctx => {| ei_version := ctx_version ctx; ei_algo := ctx_algo ctx |}) <$> e2ee.

(** The body given to the backend and its preparation. *)
Definition backend_input_body (req : ChatCompletionRequest) : string :=
  match forwarded_body req with Some b => b | None => received_body req end.

Definition prepare_request (req : ChatCompletionRequest) : Svc PreparedUpstreamRequest := fun s =>
  (map_err ServiceUpstream
     (up_prepare {| req_body := backend_input_body req; req_headers := ∅; req_path := Some (endpoint_path req);
                    target_route_id := ctx_target_route_id (rq_context req) |} (shared s)), s).

(** The policy of a single forward: every failure ends the request. *)
Definition forward_or_abort {R} (fwd : PreparedUpstreamRequest -> UpstreamVerifiedEvent -> Shared S Env Rng ->
      result UpstreamError R * Shared S Env Rng) (prepared : PreparedUpstreamRequest) (required_ : option bool)
    (caller_supplied : bool) (event : UpstreamVerifiedEvent) : Svc (PreparedUpstreamRequest * UpstreamVerifiedEvent * R) :=
  fun s =>
    match forward_with_binding_reverify fwd prepared required_ caller_supplied false event s with
    | (Forwarded response, event, s) => (Ok (prepared, event, response), s)
    | (RefreshFailed e, _, s) => (Err e, s)
    | (ForwardFailed e, _, s) => (Err (ServiceUpstream e), s)
    end.

(** Preparation, the recorded event and forwarding, up to the upstream's answer. *)
Definition forward_verified {R} (fwd : PreparedUpstreamRequest -> UpstreamVerifiedEvent -> Shared S Env Rng ->
      result UpstreamError R * Shared S Env Rng) (req : ChatCompletionRequest) :
    Svc (PreparedUpstreamRequest * UpstreamVerifiedEvent * R) :=
  prepared ← prepare_request req;
  let caller_supplied := match upstream_verification_event req with Some _ => true | None => false end in
  let required_ := upstream_required_for_prepared prepared (upstream_required req) in
  event ← recorded_upstream_event prepared required_ (upstream_verification_event req);
  forward_or_abort fwd prepared required_ caller_supplied event.

(** The events up to [request.forwarded]. *)
Definition request_events (req : ChatCompletionRequest) (prepared : PreparedUpstreamRequest) : Build unit :=
  let route := ctx_target_route_id (rq_context req) in
  _ ← add_request_received (received_body req);
  _ ← (match route with Some _ => add_middleware_forwarded (backend_input_body req) | None => mret "" end);
  _ ← (match route with Some route_id => add_route_selected route_id | None => mret tt end);
  _ ← add_request_forwarded (req_body (p_request prepared));
  if String.eqb (received_body req) (req_body (p_request prepared)) then mret tt
  else add_transparency_event RequestModified.

Definition new_builder (rid : string) (chat model_ : option string) (endpoint_ : string) (at_ : Z) : ReceiptBuilder :=
  ReceiptBuilder_new rid chat model_ (svc_workload_id svc) (svc_workload_keyset_digest svc) endpoint_ "POST" at_.

Definition sign_receipt_of (b : ReceiptBuilder) : result ServiceError Receipt.Receipt :=
  map_err ServiceReceipt (finalize b (default_receipt_key_id svc)).

(** What the client gets of the upstream's answer: status, body, headers. *)
Definition client_response (req : ChatCompletionRequest) (resp : UpstreamResponse) : Z * string * gmap string string :=
  match image_input_error_parts (surface_for_path (endpoint_path req)) (received_body req) (status_code resp)
          (resp_body resp) None with
  | Some (status, body) => (status, body, <["content-type" := "application/json"]> (resp_headers resp))
  | None => (status_code resp, resp_body resp, resp_headers resp)
  end.

(** The receipt of a buffered exchange, once the response is known. *)
Definition exchange_receipt (req : ChatCompletionRequest) (prepared : PreparedUpstreamRequest)
    (event : UpstreamVerifiedEvent) (resp : UpstreamResponse) (client_body wire_body : string) : Svc Receipt.Receipt :=
  rid ← generate_receipt_id;
  served_at ← read_clock;
  let builder := new_builder rid (extract_chat_id client_body) (user_model (rq_context req)) (endpoint_path req) served_at in
  b ← svc_build (request_events req prepared) builder;
  sealed ← record_attested_upstream_session event;
  let recorded := cite_served_session sealed (served_instance_id resp) in
  b ← svc_build (append_upstream_verified event recorded) b.2;
  let builder := set_upstream_verified_model_id (accepted_response_model (status_code resp) (resp_body resp)) b.2 in
  b ← svc_build (if String.eqb (resp_body resp) wire_body then mret tt else add_transparency_event ResponseModified) builder;
  b ← svc_build (add_response_returned client_body wire_body) b.2;
  svc_lift (sign_receipt_of b.2).

(** Everything of a buffered request after the upstream's answer. *)
Definition finish_exchange (req : ChatCompletionRequest) (x : PreparedUpstreamRequest * UpstreamVerifiedEvent * UpstreamResponse) :
    Svc ForwardResult :=
  let '(prepared, event, resp) := x in
  let '(client_status, client_body, headers) := client_response req resp in
  wire_body ← (match rq_e2ee req with
               | Some ctx => svc_encrypt (encrypt_e2ee_response_body client_body ctx (endpoint_path req))
               | None => mret client_body
               end);
  receipt ← exchange_receipt req prepared event resp client_body wire_body;
  _ ← store_receipt receipt (requester req);
  mret {| fr_receipt := receipt; upstream_status := client_status; upstream_body := wire_body;
          upstream_headers := headers; fr_e2ee := response_info (rq_e2ee req) |}.

Definition forward_chat_completion_request (req : ChatCompletionRequest) : Svc ForwardResult :=
  forward_verified up_forward req ≫= finish_exchange req.

Definition forward_chat_completion (received : string) (forwarded : option string) (required_ : option bool)
    (event : option UpstreamVerifiedEvent) : Svc ForwardResult :=
  forward_chat_completion_request
    {| rq_context := {| request_id := ""; user_model := None; ctx_target_route_id := None; user_tier := None |};
       endpoint_path := CHAT_COMPLETIONS_PATH; received_body := received; forwarded_body := forwarded;
       upstream_required := required_; upstream_verification_event := event; requester := None; rq_e2ee := None |}.

(** A stream that was started: its receipt so far and the upstream's chunks. *)
Record StartedStream := {
  st_receipt_id : string;
  st_builder : ReceiptBuilder;
  st_status : Z;
  st_headers : gmap string string;
  st_e2ee : option E2eeResponseInfo;
  st_body : list (result UpstreamError string);
}.

Inductive StreamingForwardResult :=
| ForwardStream (s : StartedStream)
| StreamUpstreamError (e : StreamingUpstreamError).

Definition collect_upstream_body (chunks : list (result UpstreamError string)) : result UpstreamError string :=
  fold_right (fun c acc => c ≫= fun c => acc ≫= fun rest => Ok (c +:+ rest)) (Ok "") chunks.

(** Everything of a streaming request after the upstream's answer. *)
Definition start_stream (req : ChatCompletionRequest)
    (x : PreparedUpstreamRequest * UpstreamVerifiedEvent * UpstreamStreamResponse) : Svc StreamingForwardResult :=
  let '(prepared, event, resp) := x in
  if negb (s_status_code resp =? 200) then
    body ← svc_lift (map_err ServiceUpstream (collect_upstream_body (s_body resp)));
    mret (StreamUpstreamError {| err_status := s_status_code resp; err_headers := s_headers resp; err_body := body |})
  else
    rid ← generate_receipt_id;
    served_at ← read_clock;
    let builder := new_builder rid None (user_model (rq_context req)) (endpoint_path req) served_at in
    b ← svc_build (request_events req prepared) builder;
    sealed ← record_attested_upstream_session event;
    let recorded := cite_served_session sealed (s_served_instance_id resp) in
    b ← svc_build (append_upstream_verified event recorded) b.2;
    mret (ForwardStream {| st_receipt_id := rid; st_builder := b.2; st_status := s_status_code resp;
                           st_headers := s_headers resp; st_e2ee := response_info (rq_e2ee req);
                           st_body := s_body resp |}).

Definition forward_chat_completion_stream_request (req : ChatCompletionRequest) : Svc StreamingForwardResult :=
  forward_verified up_forward_stream req ≫= start_stream req.

(** ** What a step leaves alone *)

Lemma svc_bind_inv {A B} (m : Svc A) (f : A -> Svc B) s r s' :
  (m ≫= f) s = (r, s') ->
  (exists e, m s = (Err e, s') /\ r = Err e) \/ exists a s1, m s = (Ok a, s1) /\ f a s1 = (r, s').
Proof.
  unfold mbind, svc_bind. destruct (m s) as [[a|e] s1]; [eauto|]. intros [= <- <-]. eauto.
Qed.

Lemma svc_bind_Ok {A B} (m : Svc A) (f : A -> Svc B) s b s' :
  (m ≫= f) s = (Ok b, s') -> exists a s1, m s = (Ok a, s1) /\ f a s1 = (Ok b, s').
Proof. intros [(e & _ & He)|?]%svc_bind_inv; [done|eauto]. Qed.

(** Nothing is asked of the verifier and nothing is sent. *)
Definition silent {A} (m : Svc A) : Prop := forall s, trace (m s).2 = trace s.

Lemma silent_bind {A B} (m : Svc A) (f : A -> Svc B) : silent m -> (forall a, silent (f a)) -> silent (m ≫= f).
Proof.
  intros Hm Hf s. unfold mbind, svc_bind. specialize (Hm s). destruct (m s) as [[a|e] s1]; [|done].
  by rewrite Hf.
Qed.

Lemma silent_ret {A} (a : A) : silent (mret a).
Proof. done. Qed.

Lemma silent_lift {A} (r : result ServiceError A) : silent (svc_lift r).
Proof. done. Qed.

Lemma silent_clock : silent read_clock.
Proof. intros s. unfold read_clock. by destruct (now_secs _). Qed.

Lemma silent_id : silent generate_receipt_id.
Proof. intros s. unfold generate_receipt_id. by destruct (random_id _). Qed.

Lemma silent_encrypt {A} (m : EncE A) : silent (svc_encrypt m).
Proof. intros s. unfold svc_encrypt. by destruct (m _). Qed.

Lemma silent_build {A} (m : Build A) b : silent (svc_build m b).
Proof. intros s. unfold svc_build. by destruct (m b) as [[] ?]. Qed.

Lemma silent_renew id t now : silent (renew_recorded id t now).
Proof. intros s. unfold renew_recorded. by destruct (store_renew_session _ _ _ _). Qed.

Lemma silent_persist id session now : silent (persist_session id session now).
Proof. intros s. unfold persist_session. by destruct (store_put_session _ _ _ _) as [[] ?]. Qed.

Lemma silent_put r o now t : silent (put_receipt r o now t).
Proof. done. Qed.

Lemma silent_prepare req : silent (prepare_request req).
Proof. done. Qed.
#[local] Hint Resolve silent_ret silent_lift silent_clock silent_id silent_encrypt silent_build silent_renew
  silent_persist silent_put silent_prepare : core.

Ltac silence := repeat (apply silent_bind; [auto|intros ?]); auto.

Lemma silent_seal ev id bs cl e now t : silent (seal_attested_session ev id bs cl e now t).
Proof. unfold seal_attested_session. silence. destruct (a0 : bool); silence. Qed.

Lemma silent_seal_each ev id now t bs : silent (seal_each ev id now t bs).
Proof. induction bs as [|b bs IH]; cbn [seal_each]; [auto|]. apply silent_bind; [apply silent_seal|intros ?]. silence. Qed.

Lemma silent_record ev : silent (record_attested_upstream_session ev).
Proof. unfold record_attested_upstream_session. destruct (uv_result ev); silence. apply silent_seal_each. Qed.
#[local] Hint Resolve silent_record : core.

Lemma silent_exchange req prepared ev resp cb wb : silent (exchange_receipt req prepared ev resp cb wb).
Proof. unfold exchange_receipt. silence. Qed.

Lemma silent_store r o : silent (store_receipt r o).
Proof. unfold store_receipt. silence. Qed.
#[local] Hint Resolve silent_exchange silent_store : core.


(** ** The protocol

    What a request may do, as a machine over the actions: an upstream is sent a
    request only when cleared by an event, an event clears one sending, and only
    when that failed because the channel did not match its binding is the
    verifier's cache flushed and the upstream verified again. *)

Inductive Phase := Flushed | Cleared (event : UpstreamVerifiedEvent) | Sent (failed : option UpstreamError).

(** [run p r phase n acts]: the actions are allowed from [phase] for the prepared
    request [p] with verification required or not ([r]), with [n] sendings left. *)
Inductive run (p : PreparedUpstreamRequest) (r : bool) : Phase -> nat -> list Action -> Prop :=
| run_done phase n : run p r phase n []
| run_verify event n acts :
    run p r (Cleared (with_required event r)) n acts ->
    run p r Flushed n (AVerify (upstream_verification_request p r) event :: acts)
| run_unverified n acts :
    upstream_verifier svc = None -> r = false ->
    run p r (Cleared (no_verifier_event p r)) n acts -> run p r Flushed n acts
| run_forward event failed n acts :
    (r = true -> uv_result event = Verified) ->
    run p r (Sent failed) n acts -> run p r (Cleared event) (Datatypes.S n) (AForward p event failed :: acts)
| run_invalidate why n acts :
    run p r Flushed n acts ->
    run p r (Sent (Some (ChannelBindingMismatch why))) n (AInvalidate (upstream_verification_request p r) :: acts)
| run_no_cache why n acts :
    upstream_verifier svc = None -> run p r Flushed n acts -> run p r (Sent (Some (ChannelBindingMismatch why))) n acts.
#[local] Hint Constructors run : core.

Definition start (r : bool) (supplied : option UpstreamVerifiedEvent) : Phase :=
  match supplied with Some event => Cleared (with_required event r) | None => Flushed end.

(** [s'] is [s] after the actions [acts]. *)
Definition performed (s s' : State) (acts : list Action) : Prop := trace s' = trace s ++ acts.

Lemma performed_trans s1 s2 s3 l1 l2 : performed s1 s2 l1 -> performed s2 s3 l2 -> performed s1 s3 (l1 ++ l2).
Proof. unfold performed. intros H12 H23. by rewrite H23, H12, app_assoc. Qed.

Lemma performed_silent {A} (m : Svc A) s : silent m -> performed s (m s).2 [].
Proof. intros Hm. unfold performed. by rewrite Hm, app_nil_r. Qed.

Definition clear_outcome (p : PreparedUpstreamRequest) (r : bool) (from : Phase) (n : nat) (acts : list Action)
    (res : result ServiceError UpstreamVerifiedEvent) : Prop :=
  match res with
  | Ok event => required event = r /\ (r = true -> uv_result event = Verified)
                /\ forall rest, run p r (Cleared event) n rest -> run p r from n (acts ++ rest)
  | Err _ => run p r from n acts
  end.

Lemma gate_clears p r sup from n acts :
  (forall rest, sup <> None \/ r = false ->
     run p r (Cleared (match sup with Some ev => with_required ev r | None => no_verifier_event p r end)) n rest ->
     run p r from n (acts ++ rest)) ->
  run p r from n acts ->
  clear_outcome p r from n acts (gate_upstream_event p r sup).
Proof.
  intros Hrun Herr. unfold gate_upstream_event. destruct r.
  - destruct sup as [ev|]; cbn; [|done]. destruct (uv_result ev) eqn:Hev; cbn; [|done].
    repeat split; [done|]. intros rest. apply Hrun. by left.
  - destruct sup as [ev|]; cbn; repeat split; try done; intros rest; apply Hrun; auto.
Qed.

Lemma recorded_clears p ro supplied n s res s' :
  recorded_upstream_event p ro supplied s = (res, s') ->
  exists acts, performed s s' acts
    /\ clear_outcome p (required_or_default ro) (start (required_or_default ro) supplied) n acts res.
Proof.
  unfold recorded_upstream_event. set (r := required_or_default ro). cbn zeta. unfold mbind, svc_bind, svc_lift.
  destruct supplied as [ev|].
  - cbn. intros [= <- <-]. exists []. split; [unfold performed; by rewrite app_nil_r|]. apply gate_clears; auto.
  - unfold consult_verifier. destruct (upstream_verifier svc) as [v|] eqn:Hv.
    + destruct (ver_verify _ _ _) as [ev sh]. intros [= <- <-]. eexists. split; [done|]. apply gate_clears; cbn; auto.
    + cbn. intros [= <- <-]. exists []. split; [unfold performed; by rewrite app_nil_r|].
      apply gate_clears; [|auto]. intros rest [?| ->]; [done|]. cbn. auto.
Qed.

Lemma invalidate_runs p ro n s : exists acts, performed s (invalidate_upstream_event p ro s).2 acts
  /\ (invalidate_upstream_event p ro s).1 = Ok tt
  /\ forall why rest, run p (required_or_default ro) Flushed n rest ->
       run p (required_or_default ro) (Sent (Some (ChannelBindingMismatch why))) n (acts ++ rest).
Proof.
  unfold invalidate_upstream_event. destruct (upstream_verifier svc) eqn:Hv.
  - eexists. split; [done|]. split; [done|]. cbn. auto.
  - exists []. split; [unfold performed; by rewrite app_nil_r|]. auto.
Qed.

Lemma refresh_clears p ro why n s res s' :
  refresh_upstream_event p ro s = (res, s') ->
  exists acts, performed s s' acts /\ clear_outcome p (required_or_default ro) (Sent (Some (ChannelBindingMismatch why))) n acts res.
Proof.
  unfold refresh_upstream_event. cbn zeta. set (r := required_or_default ro).
  destruct (invalidate_runs p (Some r) n s) as (l1 & Hp1 & Hok & Hr1). cbn [required_or_default] in Hr1.
  unfold mbind, svc_bind. destruct (invalidate_upstream_event p (Some r) s) as [[[]|e] s1]; [|done].
  intros (l2 & Hp2 & Hc)%(recorded_clears p (Some r) None n). cbn in Hp1.
  exists (l1 ++ l2). split; [by eapply performed_trans|]. cbn in Hc. destruct res as [ev|e]; cbn in *; [|auto].
  destruct Hc as (? & ? & Hc). repeat split; [done..|]. intros rest Hrest. rewrite <- app_assoc. auto.
Qed.

Section Loop.
Context {R : Type} (fwd : PreparedUpstreamRequest -> UpstreamVerifiedEvent -> Shared S Env Rng ->
  result UpstreamError R * Shared S Env Rng).

(** What the end of the loop says of the actions. *)
Definition sent_last (p : PreparedUpstreamRequest) (acts : list Action) (event : UpstreamVerifiedEvent) (response : R) : Prop :=
  exists before sh sh', acts = before ++ [AForward p event None] /\ fwd p event sh = (Ok response, sh').

Lemma is_mismatch_spec e : is_mismatch e = true -> exists why, e = ChannelBindingMismatch why.
Proof. destruct e; try done. eauto. Qed.

Lemma reverify_ends p ro (b : bool) err event s sh out event' s' :
  (required_or_default ro = true -> uv_result event = Verified) -> (b = true -> is_mismatch err = true) ->
  (let '(_, s2) := (if b then invalidate_upstream_event p ro (did (AForward p event (Some err)) (with_shared s sh))
                    else (Ok tt, did (AForward p event (Some err)) (with_shared s sh))) in
   (ForwardFailed (R := R) err, event, s2)) = (out, event', s') ->
  exists acts, performed s s' acts /\ (forall k, run p (required_or_default ro) (Cleared event) (Datatypes.S k) acts)
    /\ forall response, out = Forwarded response -> sent_last p acts event' response.
Proof.
  intros Hev Hb. set (s1 := did _ _). assert (Hs1 : performed s s1 [AForward p event (Some err)]) by done.
  destruct b; [|intros [= <- <- <-]; exists [AForward p event (Some err)]; split; [done|]; split; [auto|done]].
  destruct (is_mismatch_spec err (Hb eq_refl)) as [why ->].
  destruct (invalidate_upstream_event p ro s1) as [o s2] eqn:Hi. intros [= <- <- <-].
  destruct (invalidate_runs p ro 0 s1) as (l & Hl & _). rewrite Hi in Hl. exists ([AForward p event (Some (ChannelBindingMismatch why))] ++ l).
  split; [by eapply performed_trans|]. split; [|done]. intros k. cbn. constructor; [done|].
  destruct (invalidate_runs p ro k s1) as (l' & Hl' & _ & Hr'). rewrite Hi in Hl'.
  assert (l = l') as -> by (unfold performed in *; cbn in *; rewrite Hl in Hl'; by simplify_list_eq).
  rewrite <- (app_nil_r l'). auto.
Qed.

Lemma reverify_runs p ro supplied always n event s out event' s' :
  (required_or_default ro = true -> uv_result event = Verified) ->
  reverify_loop fwd p ro supplied always n event s = (out, event', s') ->
  exists acts, performed s s' acts
    /\ run p (required_or_default ro) (Cleared event) (if supplied then 1 else Datatypes.S n) acts
    /\ forall response, out = Forwarded response -> sent_last p acts event' response.
Proof.
  revert event s. induction n as [|n IH]; intros event s Hev; cbn [reverify_loop];
    unfold forward_step; destruct (fwd p event (shared s)) as [[resp|err] sh] eqn:Hf; cbn [failure].
  1, 3: intros [= <- <- <-]; exists [AForward p event None]; (split; [done|]); (split; [destruct supplied; eauto|]);
    intros response [= <-]; exists [], (shared s), sh; by split.
  - intros (acts & ? & Hr & ?)%reverify_ends; [|done|by intros [? _]%andb_prop].
    exists acts. split; [done|]. split; [destruct supplied; apply Hr|done].
  - destruct (is_mismatch err && negb supplied) eqn:Hm.
    2: { intros (acts & ? & Hr & ?)%reverify_ends; [|done|by intros [? _]%andb_prop]. exists acts. split; [done|].
         split; [destruct supplied; apply Hr|done]. }
    apply andb_prop in Hm as [Hmis Hs%negb_true_iff]. subst supplied. set (s1 := did _ _).
    assert (Hs1 : performed s s1 [AForward p event (Some err)]) by done. destruct (is_mismatch_spec err Hmis) as [why ->].
    destruct (refresh_upstream_event p ro s1) as [[ev2|e] s2] eqn:Hr;
      apply (refresh_clears p ro why (Datatypes.S n)) in Hr as (l1 & Hp1 & Hc); cbn in Hc.
    + destruct Hc as (_ & Hv & Hc). intros (l2 & Hp2 & Hr2 & Hlast)%IH; [|done].
      exists (AForward p event (Some (ChannelBindingMismatch why)) :: l1 ++ l2). split; [|split].
      * by eapply (performed_trans _ _ _ [_]); [|eapply performed_trans].
      * constructor; auto.
      * intros response (before & sh1 & sh2 & -> & Hok)%Hlast.
        exists (AForward p event (Some (ChannelBindingMismatch why)) :: l1 ++ before), sh1, sh2.
        split; [|done]. cbn. by rewrite <- app_assoc.
    + intros [= <- <- <-]. exists (AForward p event (Some (ChannelBindingMismatch why)) :: l1).
      split; [by eapply (performed_trans _ _ _ [_])|]. split; [auto|done].
Qed.

(** Whether verification is required of this request at this upstream. *)
Definition effective_required (req : ChatCompletionRequest) (p : PreparedUpstreamRequest) : bool :=
  required_or_default (upstream_required_for_prepared p (upstream_required req)).

(** The sendings a request may make: one with an event its caller supplied. *)
Definition sendings (req : ChatCompletionRequest) : nat :=
  match upstream_verification_event req with Some _ => 1 | None => Datatypes.S CHANNEL_BINDING_REVERIFY_ATTEMPTS end.

Lemma forward_verified_runs req s res s' :
  forward_verified fwd req s = (res, s') ->
  exists acts, performed s s' acts
    /\ (acts = [] \/ exists p, (prepare_request req s).1 = Ok p
         /\ run p (effective_required req p) (start (effective_required req p) (upstream_verification_event req)) (sendings req) acts)
    /\ forall p event response, res = Ok (p, event, response) ->
         (prepare_request req s).1 = Ok p /\ sent_last p acts event response.
Proof.
  unfold forward_verified. intros [(e & Hp & ->)|(p & s1 & Hp & Hf)]%svc_bind_inv.
  { assert (s' = s) as -> by by injection Hp. exists [].
    split; [unfold performed; by rewrite app_nil_r|]. split; [by left|done]. }
  rewrite Hp. assert (s1 = s) as -> by by injection Hp. clear Hp. cbn zeta in Hf. unfold mbind, svc_bind in Hf.
  unfold effective_required. set (ro := upstream_required_for_prepared p (upstream_required req)) in *.
  destruct (recorded_upstream_event p ro (upstream_verification_event req) s) as [[ev|e] s1] eqn:Hr;
    apply (recorded_clears p ro _ (sendings req)) in Hr as (l1 & Hp1 & Hc); cbn in Hc.
  2: { injection Hf as <- <-. exists l1. split; [done|]. split; [eauto|done]. }
  destruct Hc as (_ & Hv & Hc). unfold forward_or_abort, forward_with_binding_reverify in Hf.
  destruct (reverify_loop _ _ _ _ _ _ _ _) as [[out ev'] s2] eqn:Hl.
  apply reverify_runs in Hl as (l2 & Hp2 & Hrun & Hlast); [|done].
  assert (s' = s2) as -> by (destruct out; congruence).
  exists (l1 ++ l2). split; [by eapply performed_trans|]. split.
  - right. exists p. split; [done|]. apply Hc. unfold sendings. by destruct (upstream_verification_event req).
  - intros p' event response ->. destruct out as [resp| |]; [|done..]. injection Hf as -> -> ->. split; [done|].
    destruct (Hlast _ eq_refl) as (before & sh & sh' & -> & Hok). exists (l1 ++ before), sh, sh'.
    by rewrite app_assoc.
Qed.
End Loop.

(** ** What the protocol gives *)

Definition is_forward (a : Action) : bool := match a with AForward _ _ _ => true | _ => false end.

Lemma run_forwards_bounded p r phase n acts : run p r phase n acts -> (length (List.filter is_forward acts) <= n)%nat.
Proof. induction 1; cbn; lia. Qed.

(** A sending is cleared: by the initial event, by a verification before it, or
    because no verifier is configured and none is required. *)
Lemma run_forward_cleared p r phase n acts p' event failed :
  run p r phase n acts -> AForward p' event failed ∈ acts ->
  p' = p /\ (r = true -> uv_result event = Verified)
  /\ (phase = Cleared event
      \/ (exists ev, AVerify (upstream_verification_request p r) ev ∈ acts /\ event = with_required ev r)
      \/ (r = false /\ event = no_verifier_event p r)).
Proof.
  induction 1 as [|ev n acts Hrun IH|n acts Hv Hr Hrun IH|ev fl n acts Hev Hrun IH|why n acts Hrun IH|why n acts Hv Hrun IH];
    rewrite ?elem_of_nil, ?elem_of_cons; intros Hin; try done.
  - destruct Hin as [?|(-> & ? & Hcase)%IH]; [done|]. do 2 (split; [done|]). right.
    destruct Hcase as [[= <-]|[(ev' & ? & ->)|?]]; [left; exists ev|left; exists ev'|auto]; rewrite elem_of_cons; auto.
  - destruct (IH Hin) as (-> & ? & Hcase). do 2 (split; [done|]). right.
    destruct Hcase as [[= <-]|?]; auto.
  - destruct Hin as [[= -> ->]|(-> & ? & Hcase)%IH]; [auto|]. do 2 (split; [done|]). right.
    destruct Hcase as [?|[(ev' & ? & ->)|?]]; [done|left; exists ev'; rewrite elem_of_cons; auto|auto].
  - destruct Hin as [?|(-> & ? & Hcase)%IH]; [done|]. do 2 (split; [done|]). right.
    destruct Hcase as [?|[(ev' & ? & ->)|?]]; [done|left; exists ev'; rewrite elem_of_cons; auto|auto].
  - destruct (IH Hin) as (-> & ? & Hcase). do 2 (split; [done|]). right. by destruct Hcase.
Qed.


(** ** The receipt of an exchange *)

Definition log_of (evs : list ReceiptEvent) : list (string * Value) := map (fun e => (event_type e, fields e)) evs.

(** The fields of the [upstream.verified] event. *)
Definition upstream_fields (event : UpstreamVerifiedEvent) (recorded : option (string * SessionClaims)) :
    list (string * Value) :=
  match recorded with
  | Some (id, claims_) => map_insert "claims" (SessionClaims_value claims_) (map_insert "session_id" (Str id) (to_fields event))
  | None => to_fields event
  end.

Definition modified (k : TransparencyEventKind) (b1 b2 : string) : list (string * Value) :=
  if String.eqb b1 b2 then [] else [(transparency_event_type k, Obj [])].

(** The log of the request up to the bytes sent. *)
Definition request_log (req : ChatCompletionRequest) (p : PreparedUpstreamRequest) : list (string * Value) :=
  let sent := req_body (p_request p) in
  [(EVENT_REQUEST_RECEIVED, {{ "body_hash" ≔ Str (sha256_hex (received_body req)) }})]
  ++ match ctx_target_route_id (rq_context req) with
     | Some route => [(EVENT_MIDDLEWARE_FORWARDED, {{ "body_hash" ≔ Str (sha256_hex (backend_input_body req)) }});
                      (EVENT_ROUTE_SELECTED, {{ "target_route_id" ≔ Str route }})]
     | None => []
     end
  ++ [(EVENT_REQUEST_FORWARDED, {{ "body_hash" ≔ Str (sha256_hex sent) }})]
  ++ modified RequestModified (received_body req) sent.

Definition exchange_log (req : ChatCompletionRequest) (p : PreparedUpstreamRequest) (event : UpstreamVerifiedEvent)
    (recorded : option (string * SessionClaims)) (resp : UpstreamResponse) (client_body wire_body : string) :
    list (string * Value) :=
  let served_model := match accepted_response_model (status_code resp) (resp_body resp) with
                      | Some m => m | None => "unknown" end in
  request_log req p
  ++ [(EVENT_UPSTREAM_VERIFIED, Obj (map_insert "model_id" (Str served_model) (upstream_fields event recorded)))]
  ++ modified ResponseModified (resp_body resp) wire_body
  ++ [(EVENT_RESPONSE_RETURNED, {{ "cleartext_hash" ≔ Str (sha256_hex client_body);
                                   "wire_hash" ≔ Str (sha256_hex wire_body) }})].

(** [m] appends the events [l] when it succeeds. *)
Definition logs {A} (m : Build A) (l : list (string * Value)) : Prop :=
  forall b a b', m b = (Ok a, b') -> log_of (rb_events b') = log_of (rb_events b) ++ l.

Lemma logs_append ty f : logs (append ty f) [(ty, f)].
Proof.
  intros b a b'. unfold append. destruct (_ && _); [done|]. destruct (match f with Obj obj => _ | _ => _ end); [done|].
  intros [= <- <-]. cbn. unfold log_of. by rewrite map_app.
Qed.

Lemma logs_ret {A} (a : A) : logs (mret a) [].
Proof. intros b a' b' [= <- <-]. by rewrite app_nil_r. Qed.

Lemma logs_bind {A B} (m : Build A) (f : A -> Build B) l1 l2 :
  logs m l1 -> (forall a, logs (f a) l2) -> logs (m ≫= f) (l1 ++ l2).
Proof.
  intros Hm Hf b a b'. unfold mbind, build_bind. destruct (m b) as [[a1|e] b1] eqn:E; [|done].
  intros Hb%Hf. by rewrite Hb, (Hm _ _ _ E), app_assoc.
Qed.

Lemma logs_append_ret {A} ty f (a : A) : logs (append ty f ≫= fun _ => mret a) [(ty, f)].
Proof. apply (logs_bind _ _ [_] []); [apply logs_append|intros _; apply logs_ret]. Qed.

Lemma logs_modified k b1 b2 : logs (if String.eqb b1 b2 then mret tt else add_transparency_event k) (modified k b1 b2).
Proof. unfold modified. destruct (String.eqb b1 b2); [apply logs_ret|apply logs_append]. Qed.

Lemma logs_request req p : logs (request_events req p) (request_log req p).
Proof.
  unfold request_events, request_log. cbn zeta.
  apply logs_bind; [apply logs_append_ret|intros _]. destruct (ctx_target_route_id _) as [route|].
  - apply (logs_bind _ _ [_] ([_] ++ _)); [apply logs_append_ret|intros _].
    apply (logs_bind _ _ [_]); [apply logs_append|intros _].
    apply (logs_bind _ _ [_]); [apply logs_append_ret|intros _]. apply logs_modified.
  - apply (logs_bind _ _ [] ([] ++ _)); [apply logs_ret|intros _].
    apply (logs_bind _ _ []); [apply logs_ret|intros _].
    apply (logs_bind _ _ [_]); [apply logs_append_ret|intros _]. apply logs_modified.
Qed.

Lemma logs_upstream event recorded :
  logs (append_upstream_verified event recorded) [(EVENT_UPSTREAM_VERIFIED, Obj (upstream_fields event recorded))].
Proof. unfold append_upstream_verified, upstream_fields. destruct recorded as [[id cl]|]; apply logs_append. Qed.

Lemma logs_returned c w :
  logs (add_response_returned c w)
    [(EVENT_RESPONSE_RETURNED, {{ "cleartext_hash" ≔ Str (sha256_hex c); "wire_hash" ≔ Str (sha256_hex w) }})].
Proof. apply logs_append_ret. Qed.

(** Setting the model changes the one [upstream.verified] event. *)
Lemma set_model_log m evs l fs :
  log_of evs = l ++ [(EVENT_UPSTREAM_VERIFIED, Obj fs)] ->
  Forall (fun e => e.1 <> EVENT_UPSTREAM_VERIFIED) l ->
  log_of (set_model_id_in m evs) = l ++ [(EVENT_UPSTREAM_VERIFIED, Obj (map_insert "model_id" (Str m) fs))].
Proof.
  revert evs. induction l as [|[ty f] l IH]; intros [|e evs] Hl Hf; [done| |done|].
  - cbn in *. injection Hl as Hty Hfs Hl. destruct evs; [|done]. by rewrite Hty, Hfs.
  - apply Forall_cons in Hf as [Hne Hf]. cbn in *. injection Hl as Hty Hfs Hl.
    destruct (String.eqb_spec (event_type e) EVENT_UPSTREAM_VERIFIED); [congruence|]. cbn. rewrite Hty, Hfs. f_equal. auto.
Qed.

Lemma request_log_types req p : Forall (fun e => e.1 <> EVENT_UPSTREAM_VERIFIED) (request_log req p).
Proof.
  unfold request_log, modified. destruct (ctx_target_route_id _), (String.eqb _ _); repeat constructor; done.
Qed.

Lemma svc_build_Ok {A} (m : Build A) b s a b' s' : svc_build m b s = (Ok (a, b'), s') -> m b = (Ok a, b') /\ s' = s.
Proof. unfold svc_build. destruct (m b) as [[]?]; naive_solver. Qed.

(** [x] is the session of one channel: its id is the content id of a session
    that binds that channel alone, with the claims made for it. *)
Definition session_of (event : UpstreamVerifiedEvent) (binding : ChannelBinding) (x : SealedSession) : Prop :=
  instance_key x = chutes_instance_id event binding /\ sealed_claims x = claims_for_binding event binding
  /\ exists now expires session,
       seal (upstream_name event) (url_origin event) (verifier_id event)
         (identity_from_provider_claims (provider_claims event)) [binding] (claims_for_binding event binding)
         {| digest := digest (evidence_for_binding event binding); data_uri := None |} now expires = Ok session
       /\ sealed_id x = session_id session.

Definition sessions_of (event : UpstreamVerifiedEvent) (sealed : list SealedSession) : Prop :=
  Forall2 (session_of event) (match uv_result event with Verified => channel_bindings event | Failed => [] end) sealed.

Lemma seal_attested_Ok event id bs cl ev now t s x s' :
  seal_attested_session event id bs cl ev now t s = (Ok x, s') ->
  exists session, seal (upstream_name event) (url_origin event) (verifier_id event) id bs cl
    {| digest := digest ev; data_uri := None |} now t = Ok session /\ x = session_id session.
Proof.
  unfold seal_attested_session. cbn zeta.
  intros (probe & s1 & [= Hp ->] & (renewed & s2 & _ & Hr)%svc_bind_Ok)%svc_bind_Ok.
  destruct (seal _ _ _ _ _ _ _ _ _) as [session|]; [|done]. cbn in Hp. injection Hp as ->. exists probe. split; [done|].
  destruct (renewed : bool); [by injection Hr|].
  apply svc_bind_Ok in Hr as (session & s3 & _ & Hpersist). unfold persist_session in Hpersist.
  destruct (store_put_session _ _ _ _) as [[[] ?] ?]; congruence.
Qed.

Lemma record_sessions event s sealed s' :
  record_attested_upstream_session event s = (Ok sealed, s') -> sessions_of event sealed.
Proof.
  unfold record_attested_upstream_session, sessions_of. destruct (uv_result event).
  2: { intros [= <- <-]. constructor. }
  intros (now & s1 & _ & He)%svc_bind_Ok. cbn zeta in He. revert s1 sealed He.
  induction (channel_bindings event) as [|b bs IH]; intros s1 sealed; cbn [seal_each].
  { intros [= <- <-]. constructor. }
  intros (id & s2 & (session & Hs & ->)%seal_attested_Ok & (rest & s3 & Hrest & [= <- <-])%svc_bind_Ok)%svc_bind_Ok.
  constructor; [|by eapply IH]. split; [done|]. split; [done|]. eauto.
Qed.

Definition signed (r : Receipt.Receipt) : Prop :=
  exists bytes sig, canonical_bytes_for_signing r = Ok bytes
    /\ sign_receipt (default_receipt_key_id svc) bytes = Ok sig /\ sig_value_hex (signature r) = hex_encode sig.

Lemma sign_receipt_signed b r : sign_receipt_of b = Ok r -> signed r /\ event_log r = rb_events b.
Proof.
  unfold sign_receipt_of. destruct (finalize b _) as [r'|] eqn:E; [|done]. intros [= <-].
  apply finalize_signs in E as (bytes & sig & k & Hb & Hs & Hsig & _ & _ & Hlog & _). split; [|done].
  exists bytes, sig. by rewrite Hsig.
Qed.

Lemma exchange_receipt_log req p event resp cb wb s r s' :
  exchange_receipt req p event resp cb wb s = (Ok r, s') ->
  signed r /\ exists sealed, sessions_of event sealed
    /\ log_of (event_log r) = exchange_log req p event (cite_served_session sealed (served_instance_id resp)) resp cb wb.
Proof.
  unfold exchange_receipt. cbn zeta.
  intros (rid & s1 & _ & (at_ & s2 & _ & He)%svc_bind_Ok)%svc_bind_Ok.
  apply svc_bind_Ok in He as ([u0 b0] & s3 & [E0%logs_request ->]%svc_build_Ok & He).
  apply svc_bind_Ok in He as (sealed & s4 & Hsealed%record_sessions & He).
  apply svc_bind_Ok in He as ([u1 b1] & s5 & [E1%logs_upstream ->]%svc_build_Ok & He).
  apply svc_bind_Ok in He as ([u2 b2] & s6 & [E2%logs_modified ->]%svc_build_Ok & He).
  apply svc_bind_Ok in He as ([u3 b3] & s7 & [E3%logs_returned ->]%svc_build_Ok & He).
  cbn [snd] in *. injection He as Hr ->. apply sign_receipt_signed in Hr as [Hsig ->]. split; [done|].
  exists sealed. split; [done|]. rewrite E3, E2. cbn [set_upstream_verified_model_id set_events rb_events].
  cbn [new_builder ReceiptBuilder_new rb_events log_of map app] in E0. rewrite E0 in E1.
  rewrite (set_model_log _ _ _ _ E1 (request_log_types req p)).
  unfold exchange_log. by rewrite <- !app_assoc.
Qed.

Lemma stable_request {X} (f : ReceiptBuilder -> X) (Hf : forall b evs n, f (set_events b evs n) = f b) req p :
  stable f (request_events req p).
Proof.
  unfold request_events. cbn zeta.
  repeat first [apply stable_append; exact Hf | apply stable_ret | apply stable_bind; [|intros ?]
               | match goal with |- stable _ match ?x with _ => _ end => destruct x end].
Qed.

(** The workload a builder writes for. *)
Definition written_for (b : ReceiptBuilder) : string * string := (rb_workload_id b, rb_workload_keyset_digest b).

Lemma exchange_receipt_workload req p event resp cb wb s r s' :
  exchange_receipt req p event resp cb wb s = (Ok r, s') ->
  r_workload_id r = svc_workload_id svc /\ r_workload_keyset_digest r = svc_workload_keyset_digest svc
  /\ exists b, finalize b (default_receipt_key_id svc) = Ok r.
Proof.
  unfold exchange_receipt. cbn zeta.
  intros (rid & s1 & _ & (at_ & s2 & _ & He)%svc_bind_Ok)%svc_bind_Ok.
  apply svc_bind_Ok in He as ([u0 b0] & s3 & [E0%(stable_request written_for (fun _ _ _ => eq_refl)) ->]%svc_build_Ok & He).
  apply svc_bind_Ok in He as (sealed & s4 & _ & He).
  apply svc_bind_Ok in He as ([u1 b1] & s5 & [E1 ->]%svc_build_Ok & He).
  apply svc_bind_Ok in He as ([u2 b2] & s6 & [E2 ->]%svc_build_Ok & He).
  apply svc_bind_Ok in He as ([u3 b3] & s7 & [E3 ->]%svc_build_Ok & He). cbn [snd] in *.
  assert (Hw1 : written_for b1 = written_for b0).
  { by eapply (stable_upstream written_for). }
  assert (Hw2 : written_for b2 = written_for b1).
  { destruct (String.eqb _ _) in E2; [by injection E2 as _ <-|]. by eapply (stable_append written_for) in E2. }
  assert (Hw3 : written_for b3 = written_for b2).
  { by eapply (stable_returned written_for). }
  injection He as Hr _. unfold sign_receipt_of in Hr. destruct (finalize b3 _) as [r'|] eqn:Ef; [|done]. injection Hr as ->.
  rewrite Hw2, Hw1, E0 in Hw3. unfold written_for, new_builder, ReceiptBuilder_new in Hw3. cbn in Hw3. injection Hw3 as Hid Hdg.
  pose proof Ef as (bytes & sig & k & _ & _ & _ & _ & _ & _ & -> & -> & _)%finalize_signs. eauto.
Qed.

Lemma silent_performed {A} (m : Svc A) s r s' : silent m -> m s = (r, s') -> performed s s' [].
Proof. intros Hm E. pose proof (performed_silent m s Hm) as Hp. by rewrite E in Hp. Qed.

Lemma silent_finish req x : silent (finish_exchange req x).
Proof.
  destruct x as [[p ev] resp]. unfold finish_exchange. destruct (client_response req resp) as [[st cb] hs].
  apply silent_bind; [destruct (rq_e2ee req); auto|intros wb]. silence.
Qed.

Lemma silent_start req x : silent (start_stream req x).
Proof. destruct x as [[p ev] resp]. unfold start_stream. destruct (negb _); silence. Qed.

Lemma forward_then {R A} (fwd : PreparedUpstreamRequest -> UpstreamVerifiedEvent -> Shared S Env Rng ->
    result UpstreamError R * Shared S Env Rng) (k : PreparedUpstreamRequest * UpstreamVerifiedEvent * R -> Svc A) req s :
  (forall x, silent (k x)) ->
  exists acts, performed s ((forward_verified fwd req ≫= k) s).2 acts
    /\ (acts = [] \/ exists p, (prepare_request req s).1 = Ok p
         /\ run p (effective_required req p) (start (effective_required req p) (upstream_verification_event req)) (sendings req) acts).
Proof.
  intros Hk. destruct ((forward_verified fwd req ≫= k) s) as [r s'] eqn:E.
  apply svc_bind_inv in E as [(e & E & ->)|(x & s1 & E & Ek)];
    apply forward_verified_runs in E as (acts & Hp & Hrun & _); exists acts; (split; [|done]); [done|].
  apply (silent_performed _ _ _ _ (Hk x)) in Ek. rewrite <- (app_nil_r acts). by eapply performed_trans.
Qed.

Lemma request_acts req s s' :
  s' ∈ [(forward_chat_completion_request req s).2; (forward_chat_completion_stream_request req s).2] ->
  exists acts, performed s s' acts
    /\ (acts = [] \/ exists p, (prepare_request req s).1 = Ok p
         /\ run p (effective_required req p) (start (effective_required req p) (upstream_verification_event req)) (sendings req) acts).
Proof.
  rewrite !elem_of_cons, elem_of_nil. intros [->|[->|[]]]; apply forward_then; [apply silent_finish|apply silent_start].
Qed.

Lemma run_after_forward p r phase n acts :
  run p r phase n acts -> forall pre p1 e1 o1 rest, acts = pre ++ AForward p1 e1 o1 :: rest -> exists n', run p r (Sent o1) n' rest.
Proof.
  induction 1 as [|ev n acts Hrun IH|n acts Hv Hr Hrun IH|ev fl n acts Hev Hrun IH|why n acts Hrun IH|why n acts Hv Hrun IH];
    intros pre p1 e1 o1 rest Heq; eauto.
  - by destruct pre.
  - destruct pre; injection Heq as Ha Heq; [done|eauto].
  - destruct pre; injection Heq as Ha Heq; [subst; eauto|eauto].
  - destruct pre; injection Heq as Ha Heq; [done|eauto].
Qed.

Lemma run_Sent p r o n acts : run p r (Sent o) n acts ->
  acts = [] \/ ((exists why, o = Some (ChannelBindingMismatch why))
    /\ (upstream_verifier svc <> None ->
        exists rest, acts = AInvalidate (upstream_verification_request p r) :: rest /\ run p r Flushed n rest)).
Proof. inversion 1; subst; [by left|right; split; [by eexists|eauto]|right; split; [by eexists|done]]. Qed.

Lemma run_Flushed p r n acts : run p r Flushed n acts -> upstream_verifier svc <> None ->
  acts = [] \/ exists ev rest, acts = AVerify (upstream_verification_request p r) ev :: rest
    /\ run p r (Cleared (with_required ev r)) n rest.
Proof. inversion 1; eauto. congruence. Qed.

Lemma run_Cleared p r e n acts : run p r (Cleared e) n acts -> acts = [] \/ exists o rest, acts = AForward p e o :: rest.
Proof. inversion 1; eauto. Qed.

(** Two sendings in a row have the mismatch, the flush and the verification
    between them. *)
Lemma run_retry_fresh p r n o1 mid p2 e2 o2 post :
  Forall (fun a => is_forward a = false) mid -> run p r (Sent o1) n (mid ++ AForward p2 e2 o2 :: post) ->
  (exists why, o1 = Some (ChannelBindingMismatch why))
  /\ (upstream_verifier svc <> None ->
      exists ev, mid = [AInvalidate (upstream_verification_request p r); AVerify (upstream_verification_request p r) ev]
        /\ e2 = with_required ev r).
Proof.
  intros Hmid [Hnil|[Ho Hflush]]%run_Sent; [by destruct mid|]. split; [done|]. intros Hv.
  destruct (Hflush Hv) as (l1 & E1 & [->|(ev & l2 & -> & [->|(o3 & l3 & ->)]%run_Cleared)]%run_Flushed); try done.
  { by destruct mid as [|? []]; simplify_eq/=. }
  { by destruct mid as [|? [|? []]]; simplify_eq/=. }
  destruct mid as [|a1 [|a2 [|a3 mid]]]; try done; simplify_eq/=; [eauto|].
  rewrite !Forall_cons in Hmid. by destruct Hmid as (_ & _ & ? & _).
Qed.

(** C13: A request, buffered or streaming, does to the verifier and the upstream
    only what the protocol allows, its sendings bounded by the reverification
    limit. A second sending follows the first only when that one failed with a
    mismatch of its channel binding; and when a verifier is configured, only
    after the verifier dropped its cached answer and was asked again, and it
    carries the new answer. *)
Theorem request_refines_protocol req s s' :
  s' ∈ [(forward_chat_completion_request req s).2; (forward_chat_completion_stream_request req s).2] ->
  exists acts, performed s s' acts
    /\ (acts = [] \/ exists p, (prepare_request req s).1 = Ok p
         /\ run p (effective_required req p) (start (effective_required req p) (upstream_verification_event req)) (sendings req) acts
         /\ forall pre p1 e1 o1 mid p2 e2 o2 post, acts = pre ++ AForward p1 e1 o1 :: mid ++ AForward p2 e2 o2 :: post ->
            Forall (fun a => is_forward a = false) mid ->
            (exists why, o1 = Some (ChannelBindingMismatch why))
            /\ (upstream_verifier svc <> None ->
                exists ev, let rq := upstream_verification_request p (effective_required req p) in
                  mid = [AInvalidate rq; AVerify rq ev] /\ e2 = with_required ev (effective_required req p))).
Proof.
  intros (acts & Hp & Hrun)%request_acts. exists acts. split; [done|].
  destruct Hrun as [->|(p & Hpr & Hrun)]; [by left|right]. exists p. do 2 (split; [done|]).
  intros pre p1 e1 o1 mid p2 e2 o2 post Heq Hmid.
  apply (run_after_forward _ _ _ _ _ Hrun) in Heq as [n Hs]. by eapply run_retry_fresh.
Qed.

(** C1: Fail closed: when verification is required, whatever is sent upstream
    was cleared by an event whose result is [Verified], which the caller supplied
    or the verifier gave for exactly this request; and a request is sent at most
    three times, once if its caller supplied the event. *)
Theorem required_sends_verified req s s' :
  s' ∈ [(forward_chat_completion_request req s).2; (forward_chat_completion_stream_request req s).2] ->
  exists acts, performed s s' acts /\ (length (List.filter is_forward acts) <= sendings req)%nat
    /\ forall p event failed, AForward p event failed ∈ acts -> effective_required req p = true ->
       uv_result event = Verified
       /\ ((exists ev, upstream_verification_event req = Some ev /\ event = with_required ev true)
           \/ exists ev, AVerify (upstream_verification_request p true) ev ∈ acts /\ event = with_required ev true).
Proof.
  intros (acts & Hp & Hrun)%request_acts.
  exists acts. split; [done|]. destruct Hrun as [->|(p & _ & Hrun)].
  { split; [cbn; lia|]. intros p event failed []%elem_of_nil. }
  split; [by eapply run_forwards_bounded|]. intros p' event failed Hin Hreq.
  apply (run_forward_cleared _ _ _ _ _ _ _ _ Hrun) in Hin as (-> & Hv & Hcase). rewrite Hreq in *. split; [auto|].
  destruct Hcase as [Hst|[?|[? _]]]; [|auto|done]. left. unfold start in Hst.
  destruct (upstream_verification_event req) as [ev|]; [|done]. injection Hst as <-. eauto.
Qed.

(** The receipt of a buffered request. *)
Lemma exchange_receipt_kept req s res s' :
  forward_chat_completion_request req s = (Ok res, s') ->
  exists p event resp sealed acts client_body headers t,
    performed s s' acts /\ sent_last up_forward p acts event resp /\ sessions_of event sealed
    /\ client_response req resp = (upstream_status res, client_body, headers)
    /\ (rq_e2ee req = None -> upstream_body res = client_body)
    /\ log_of (event_log (fr_receipt res))
       = exchange_log req p event (cite_served_session sealed (served_instance_id resp)) resp client_body (upstream_body res)
    /\ signed (fr_receipt res)
    /\ by_receipt (receipts (shared s')) !! receipt_id (fr_receipt res)
       = Some {| sr_receipt := fr_receipt res; sr_owner := requester req; expires_at := t |}.
Proof.
  unfold forward_chat_completion_request. intros ([[p event] resp] & s1 & Hf & Hk)%svc_bind_Ok.
  apply forward_verified_runs in Hf as (acts & Hp & _ & Hlast). destruct (Hlast _ _ _ eq_refl) as [_ Hsent].
  assert (Hp' : performed s s' acts).
  { rewrite <- (app_nil_r acts). eapply performed_trans; [done|].
    by eapply silent_performed; [apply (silent_finish req)|]. }
  unfold finish_exchange in Hk. destruct (client_response req resp) as [[cs cb] hs] eqn:Hc.
  apply svc_bind_Ok in Hk as (wb & s2 & Hwb & Hk).
  apply svc_bind_Ok in Hk as (r & s3 & [Hsig (sealed & Hsealed & Hlog)]%exchange_receipt_log & Hk).
  apply svc_bind_Ok in Hk as (u & s4 & Hst & [= <- <-]). cbn.
  unfold store_receipt in Hst. apply svc_bind_Ok in Hst as (now & s5 & _ & [= _ <-]). cbn.
  exists p, event, resp, sealed, acts, cb, hs, (u64_saturating_add now (receipt_ttl_seconds (config svc))).
  do 3 (split; [done|]). split; [done|]. split; [|split; [done|split; [done|]]].
  - intros He. rewrite He in Hwb. by injection Hwb as ->.
  - unfold put, insert_receipt. cbn. by rewrite lookup_insert_eq.
Qed.

(** C6: The receipt a buffered request returns tells the truth and is kept. Its
    log is exactly: the hash of the received body, the route's events, the hash of
    the body that was last sent, the event that cleared that sending with the
    served model and the session of the channel that served, the marks of changed
    bytes, and the hashes of the client's cleartext and of the bytes it is given.
    It is signed over its canonical bytes and stored for its requester. *)
Theorem exchange_receipt_truthful req s res s' :
  forward_chat_completion_request req s = (Ok res, s') ->
  exists p event resp sealed acts client_body headers t,
    performed s s' acts /\ sent_last up_forward p acts event resp /\ sessions_of event sealed
    /\ client_response req resp = (upstream_status res, client_body, headers)
    /\ (rq_e2ee req = None -> upstream_body res = client_body)
    /\ log_of (event_log (fr_receipt res))
       = exchange_log req p event (cite_served_session sealed (served_instance_id resp)) resp client_body (upstream_body res)
    /\ signed (fr_receipt res)
    /\ by_receipt (receipts (shared s')) !! receipt_id (fr_receipt res)
       = Some {| sr_receipt := fr_receipt res; sr_owner := requester req; expires_at := t |}.
Proof. apply exchange_receipt_kept. Qed.
End Forward.

(** ** A concrete exchange: the first sending meets a changed channel, the second is answered *)

Module DemoForward.
Export DemoService Toy.
#[export] Existing Instance demo_serde.
#[export] Remove Hints demo_digest : typeclass_instances.

Abbreviation Sh := (Shared InMemorySessionStore nat Rng).

Definition prepared (req : UpstreamRequest) : PreparedUpstreamRequest := {|
  p_request := req; p_upstream_name := "u"; p_url_origin := Some "https://u"; p_model_id := "m"; p_route_id := None;
  p_is_tee := None |}.

Definition sent_once_more (sh : Sh) : Sh :=
  {| env := Datatypes.S (env sh); rng := rng sh; receipts := receipts sh; sessions := sessions sh; disk := disk sh |}.

Definition reply {R} (ok : R) (sh : Sh) : result UpstreamError R * Sh :=
  (match env sh with O => Err (ChannelBindingMismatch "spki") | _ => Ok ok end, sent_once_more sh).

#[export] Instance outside : Outside Sh := {|
  up_prepare req _ := Ok (prepared req);
  up_forward p ev := reply {| status_code := 200; resp_body := "{}"; resp_headers := ∅; served_instance_id := None |};
  up_forward_stream p ev :=
    reply {| s_status_code := 200; s_headers := ∅; s_body := [Ok "data: {}"; Ok "x"]; s_served_instance_id := None |};
  now_secs sh := (1000, sh);
  random_id sh := ("id", sh) |}.

Definition service : AciService StaticUpstreamVerifier := svc (Some {| static_event := demo_event |}).

Definition init : State (S := InMemorySessionStore) (Env := nat) := {|
  shared := {| env := 0%nat; rng := tt; receipts := store_default; sessions := {| mem_index := index_default |};
               disk := {| files := ∅; faults := [] |} |};
  trace := [] |}.

Definition request : ChatCompletionRequest := {|
  rq_context := {| request_id := "r"; user_model := Some "m"; ctx_target_route_id := Some "t"; user_tier := None |};
  endpoint_path := CHAT_COMPLETIONS_PATH; received_body := "hi"; forwarded_body := Some "ho"; upstream_required := Some true;
  upstream_verification_event := None; requester := None; rq_e2ee := None |}.

Definition outcome := forward_chat_completion_request service request init.

Example sends : List.filter is_forward (trace outcome.2)
  = [AForward (prepared {| req_body := "ho"; req_headers := ∅; req_path := Some CHAT_COMPLETIONS_PATH; target_route_id := Some "t" |})
       (with_required demo_event true) (Some (ChannelBindingMismatch "spki"));
     AForward (prepared {| req_body := "ho"; req_headers := ∅; req_path := Some CHAT_COMPLETIONS_PATH; target_route_id := Some "t" |})
       (with_required demo_event true) None].
Proof. vm_compute. reflexivity. Qed.
End DemoForward.

Import DemoForward.

Lemma demo_outcome : exists res s', forward_chat_completion_request service request init = (Ok res, s').
Proof.
  destruct (is_ok_pair (forward_chat_completion_request service request init)) as [res E]; [vm_compute; reflexivity|eauto].
Qed.

Lemma request_refines_protocol_witness :
  exists acts, performed init outcome.2 acts
    /\ (acts = [] \/ exists p, (prepare_request request init).1 = Ok p
         /\ run service p true Flushed 3 acts).
Proof.
  destruct (request_refines_protocol service request init outcome.2) as (acts & Hp & Hrun); [by left|].
  exists acts. split; [exact Hp|]. destruct Hrun as [?|(p & Hpr & Hrun & _)]; [by left|right]. exists p.
  split; [exact Hpr|]. injection Hpr as <-. exact Hrun.
Defined.

Lemma required_sends_verified_witness :
  exists acts, performed init outcome.2 acts /\ (length (List.filter is_forward acts) <= 3)%nat
    /\ forall p event failed, AForward p event failed ∈ acts -> effective_required service request p = true -> uv_result event = Verified.
Proof.
  destruct (required_sends_verified service request init outcome.2) as (acts & Hp & Hn & Hf); [by left|].
  exists acts. split; [exact Hp|]. split; [exact Hn|]. intros p event failed Hin Hr. apply (Hf p event failed Hin Hr).
Defined.

Lemma exchange_receipt_truthful_witness :
  exists res s', forward_chat_completion_request service request init = (Ok res, s') /\ signed service (fr_receipt res)
    /\ exists p event resp sealed acts, performed init s' acts /\ sent_last up_forward p acts event resp
       /\ sessions_of event sealed.
Proof.
  destruct demo_outcome as (res & s' & E). exists res, s'. split; [exact E|].
  destruct (exchange_receipt_truthful service request init res s' E)
    as (p & ev & resp & sealed & acts & cb & hs & t & Hp & Hs & Hss & _ & _ & _ & Hsig & _).
  split; [exact Hsig|]. exists p, ev, resp, sealed, acts. auto.
Defined.
