(* ===== verification/Streaming.v ===== *)
(** * Streaming responses and their receipts

    Model of the three streams of [src/aggregator/service/streaming.rs]: the one
    that finishes the receipt of a streaming request, the one that drafts a
    receipt while the provider's stream passes to the middleware, and the one
    that finishes that draft on the middleware's stream; with the receipt journal
    of [wire.rs].  A hasher is the text it was given.  A stream is polled: each
    poll is a step that starts in whatever state other requests left.  The inner
    stream is the list of its answers to polls, each with what its producer did
    meanwhile to the state it shares with the wrapper. *)
From S2P Require Import Prelude StrOps Json Serde Canonical Identity Fs Revocation Receipt ReceiptStore Session SessionStore.
From S2P Require Import Upstream AciVerifier Verifiers Claims Errors E2ee E2eeFields Sse Service Forward.
Import Types.

Inductive Poll (A : Type) := Pending | Ready (a : A).
Arguments Pending {A}.
Arguments Ready {A}.

(** [Poll<Option<Result<Bytes, ServiceError>>>] *)
Abbreviation StreamPoll := (Poll (option (result ServiceError string))).

(** ** The journal *)

Inductive RequestMode := Buffered | Streaming.

Record MiddlewareReceiptDraft := {
  d_receipt_id : string;
  d_builder : ReceiptBuilder;
  provider_response_hash : string;
  d_endpoint_path : string;
  request_mode : RequestMode;
  response_model : option string;
}.

Record MiddlewareReceiptJournal := { j_receipt_id : option string; j_draft : option MiddlewareReceiptDraft }.

Definition journal_default : MiddlewareReceiptJournal := {| j_receipt_id := None; j_draft := None |}.

Definition reserve_receipt_id (id : string) (j : MiddlewareReceiptJournal) : MiddlewareReceiptJournal :=
  {| j_receipt_id := Some id; j_draft := j_draft j |}.

Definition journal_set (d : MiddlewareReceiptDraft) (j : MiddlewareReceiptJournal) : MiddlewareReceiptJournal :=
  {| j_receipt_id := Some (d_receipt_id d); j_draft := Some d |}.

Definition journal_take (j : MiddlewareReceiptJournal) : option MiddlewareReceiptDraft * MiddlewareReceiptJournal :=
  (j_draft j, {| j_receipt_id := j_receipt_id j; j_draft := None |}).

Definition peek_receipt_id (j : MiddlewareReceiptJournal) : option string := j_receipt_id j.

(** ** What the finalizers share *)

Record FinalizerShared := {
  cleartext_hasher : string;
  wire_hasher : string;
  f_requester : option ReceiptOwner;
  f_endpoint_path : string;
  sse_parser : SseChatIdParser;
  e2ee_transformer : option (E2eeRequestContext * E2eeSseTransformer);
  upstream_ended : bool;
  finished : bool;
}.

Definition FinalizerShared_new (requester_ : option ReceiptOwner) (endpoint_ : string) (e2ee : option E2eeRequestContext) :
    FinalizerShared :=
  {| cleartext_hasher := ""; wire_hasher := ""; f_requester := requester_; f_endpoint_path := endpoint_;
     sse_parser := SseChatIdParser_default;
     e2ee_transformer := (fun ctx => (ctx, E2eeSseTransformer_new)) <$> e2ee;
     upstream_ended := false; finished := false |}.

Definition finish_now (f : FinalizerShared) : FinalizerShared :=
  {| cleartext_hasher := cleartext_hasher f; wire_hasher := wire_hasher f; f_requester := f_requester f;
     f_endpoint_path := f_endpoint_path f; sse_parser := sse_parser f; e2ee_transformer := e2ee_transformer f;
     upstream_ended := upstream_ended f; finished := true |}.

Definition end_upstream (f : FinalizerShared) : FinalizerShared :=
  {| cleartext_hasher := cleartext_hasher f; wire_hasher := wire_hasher f; f_requester := f_requester f;
     f_endpoint_path := f_endpoint_path f; sse_parser := sse_parser f; e2ee_transformer := e2ee_transformer f;
     upstream_ended := true; finished := finished f |}.

Definition set_transformer (t : option (E2eeRequestContext * E2eeSseTransformer)) (f : FinalizerShared) : FinalizerShared :=
  {| cleartext_hasher := cleartext_hasher f; wire_hasher := wire_hasher f; f_requester := f_requester f;
     f_endpoint_path := f_endpoint_path f; sse_parser := sse_parser f; e2ee_transformer := t;
     upstream_ended := upstream_ended f; finished := finished f |}.

Definition hash_wire (wire : string) (f : FinalizerShared) : FinalizerShared :=
  {| cleartext_hasher := cleartext_hasher f; wire_hasher := wire_hasher f +:+ wire; f_requester := f_requester f;
     f_endpoint_path := f_endpoint_path f; sse_parser := sse_parser f; e2ee_transformer := e2ee_transformer f;
     upstream_ended := upstream_ended f; finished := finished f |}.

Definition see_cleartext `{SerdeJson} (chunk : string) (f : FinalizerShared) : FinalizerShared :=
  {| cleartext_hasher := cleartext_hasher f +:+ chunk; wire_hasher := wire_hasher f; f_requester := f_requester f;
     f_endpoint_path := f_endpoint_path f; sse_parser := observe chunk (sse_parser f); e2ee_transformer := e2ee_transformer f;
     upstream_ended := upstream_ended f; finished := finished f |}.

Definition hashes `{Digest} (f : FinalizerShared) : string * string :=
  (sha256_hex (cleartext_hasher f), sha256_hex (wire_hasher f)).

(** One answer of the inner stream: nothing yet, a chunk or an error. *)
Record Answer (X : Type) := { answer : option (result ServiceError string); effect : X -> X }.
Arguments answer {X}.
Arguments effect {X}.

(** A finalizing stream with its own state [X]. *)
Record Finalizing (X : Type) := {
  inner : list (Answer X);
  at_end : X -> X;
  f_shared : FinalizerShared;
  own : X;
}.
Arguments inner {X}.
Arguments at_end {X}.
Arguments f_shared {X}.
Arguments own {X}.

Section Streams.
Context `{Digest} `{Crypto} `{CurveLibs} `{SerdeJson} `{KeyProvider}.
Context {V S Env : Type} `{!Outside (Shared S Env Rng)}.
Context (svc : AciService V).

Abbreviation State := (State (S := S) (Env := Env)).
Abbreviation Svc := (Svc (S := S) (Env := Env)).

Definition sign_and_store (f : FinalizerShared) (builder : ReceiptBuilder) : Svc unit :=
  receipt ← svc_lift (sign_receipt_of svc builder);
  store_receipt svc receipt (f_requester f).

(** ** Polling *)

Section Poll.
Context {X : Type}.
(** [finalize_receipt], and what it leaves of the own state. *)
Context (finalize_receipt : FinalizerShared -> X -> Svc unit) (taken : X -> X).

Definition rebuild (f : Finalizing X) (rest : list (Answer X)) (sh : FinalizerShared) (x : X) : Finalizing X :=
  {| inner := rest; at_end := at_end f; f_shared := sh; own := x |}.

(** The branch after the end of the inner stream. *)
Definition poll_ended (f : Finalizing X) (st : State) : StreamPoll * Finalizing X * State :=
  let conclude sh st :=
    let sh := finish_now sh in
    let '(r, st) := finalize_receipt sh (own f) st in
    (Ready match r with Ok _ => None | Err e => Some (Err e) end, rebuild f (inner f) sh (taken (own f)), st) in
  match e2ee_transformer (f_shared f) with
  | None => conclude (f_shared f) st
  | Some (ctx, t) =>
      let sh := set_transformer None (f_shared f) in
      match svc_encrypt (finish ctx (f_endpoint_path sh) t) st with
      | (Err e, st) => (Ready (Some (Err e)), rebuild f (inner f) (finish_now sh) (own f), st)
      | (Ok (wire, _), st) =>
          if String.eqb wire "" then conclude sh st
          else (Ready (Some (Ok wire)), rebuild f (inner f) (hash_wire wire sh) (own f), st)
      end
  end.

(** The loop, by the answers of the inner stream. *)
Fixpoint poll_loop (f : Finalizing X) (answers : list (Answer X)) (sh : FinalizerShared) (x : X) (st : State) :
    StreamPoll * Finalizing X * State :=
  match answers with
  | [] => poll_ended (rebuild f [] (end_upstream sh) (at_end f x)) st
  | a :: answers =>
      let x := effect a x in
      match answer a with
      | None => (Pending, rebuild f answers sh x, st)
      | Some (Err e) => (Ready (Some (Err e)), rebuild f answers (finish_now sh) x, st)
      | Some (Ok chunk) =>
          let sh := see_cleartext chunk sh in
          match e2ee_transformer sh with
          | None => (Ready (Some (Ok chunk)), rebuild f answers (hash_wire chunk sh) x, st)
          | Some (ctx, t) =>
              match svc_encrypt (push_chunk ctx (f_endpoint_path sh) chunk t) st with
              | (Err e, st) => (Ready (Some (Err e)), rebuild f answers (finish_now sh) x, st)
              | (Ok (wire, t), st) =>
                  let sh := set_transformer (Some (ctx, t)) sh in
                  if String.eqb wire "" then poll_loop f answers sh x st
                  else (Ready (Some (Ok wire)), rebuild f answers (hash_wire wire sh) x, st)
              end
          end
      end
  end.

Definition poll_finalizing_stream (f : Finalizing X) (st : State) : StreamPoll * Finalizing X * State :=
  if finished (f_shared f) then (Ready None, f, st)
  else if upstream_ended (f_shared f) then poll_ended f st
  else poll_loop f (inner f) (f_shared f) (own f) st.
End Poll.

(** ** The stream of a streaming request *)

Record ReceiptOwn := { r_builder : option ReceiptBuilder; response_modified : bool }.

Definition receipt_finalize (f : FinalizerShared) (x : ReceiptOwn) : Svc unit :=
  let '(cleartext_hash, wire_hash) := hashes f in
  builder ← svc_lift (ok_or (r_builder x) (ServiceReceipt EmptyReceipt));
  let builder := set_chat_id (sp_chat_id (sse_parser f)) builder in
  let builder := set_upstream_verified_model_id (sp_model_id (sse_parser f)) builder in
  b ← svc_build (if response_modified x then add_transparency_event ResponseModified else mret tt) builder;
  b ← svc_build (add_response_returned_hashes cleartext_hash wire_hash) b.2;
  sign_and_store f b.2.

Definition receipt_taken (x : ReceiptOwn) : ReceiptOwn := {| r_builder := None; response_modified := response_modified x |}.

Definition receipt_poll : Finalizing ReceiptOwn -> State -> StreamPoll * Finalizing ReceiptOwn * State :=
  poll_finalizing_stream receipt_finalize receipt_taken.

(** The upstream's chunks, as answers to polls: errors lifted, nothing shared. *)
Definition upstream_answers {X} (chunks : list (option (result UpstreamError string))) : list (Answer X) :=
  map (fun c => {| answer := map_err ServiceUpstream <$> c; effect := id |}) chunks.

Definition ReceiptFinalizingStream_new (chunks : list (option (result UpstreamError string))) (builder : ReceiptBuilder)
    (requester_ : option ReceiptOwner) (endpoint_ : string) (e2ee : option E2eeRequestContext) (modified_ : bool) :
    Finalizing ReceiptOwn :=
  {| inner := upstream_answers chunks; at_end := id; f_shared := FinalizerShared_new requester_ endpoint_ e2ee;
     own := {| r_builder := Some builder; response_modified := modified_ |} |}.

(** ** The stream the middleware produces *)

Record MiddlewareOwn := { journal : MiddlewareReceiptJournal; response_modified_by_wire : bool }.

Definition middleware_finalize (f : FinalizerShared) (x : MiddlewareOwn) : Svc unit :=
  match (journal_take (journal x)).1 with
  | None => mret tt
  | Some draft =>
      let '(cleartext_hash, wire_hash) := hashes f in
      let builder := match sp_chat_id (sse_parser f) with
                     | Some c => set_chat_id (Some c) (d_builder draft)
                     | None => d_builder draft
                     end in
      b ← svc_build (if negb (String.eqb (provider_response_hash draft) cleartext_hash) || response_modified_by_wire x
                     then add_transparency_event ResponseModified else mret tt) builder;
      b ← svc_build (add_response_returned_hashes cleartext_hash wire_hash) b.2;
      sign_and_store f b.2
  end.

Definition middleware_taken (x : MiddlewareOwn) : MiddlewareOwn :=
  {| journal := (journal_take (journal x)).2; response_modified_by_wire := response_modified_by_wire x |}.

Definition middleware_poll : Finalizing MiddlewareOwn -> State -> StreamPoll * Finalizing MiddlewareOwn * State :=
  poll_finalizing_stream middleware_finalize middleware_taken.

Definition MiddlewareResponseFinalizingStream_new (answers : list (Answer MiddlewareOwn)) (end_ : MiddlewareOwn -> MiddlewareOwn)
    (j : MiddlewareReceiptJournal) (requester_ : option ReceiptOwner) (endpoint_ : string)
    (e2ee : option E2eeRequestContext) (modified_ : bool) : Finalizing MiddlewareOwn :=
  {| inner := answers; at_end := end_; f_shared := FinalizerShared_new requester_ endpoint_ e2ee;
     own := {| journal := j; response_modified_by_wire := modified_ |} |}.

(** ** The provider's stream on its way to the middleware *)

Record MiddlewareProviderResponseDraftingStream := {
  p_inner : list (option (result UpstreamError string));
  p_builder : option ReceiptBuilder;
  p_journal : MiddlewareReceiptJournal;
  provider_response_hasher : string;
  p_receipt_id : string;
  p_endpoint_path : string;
  p_sse_parser : SseChatIdParser;
  p_finished : bool;
}.

Definition DraftingStream_new (chunks : list (option (result UpstreamError string))) (builder : ReceiptBuilder)
    (j : MiddlewareReceiptJournal) (rid endpoint_ : string) : MiddlewareProviderResponseDraftingStream :=
  {| p_inner := chunks; p_builder := Some builder; p_journal := j; provider_response_hasher := ""; p_receipt_id := rid;
     p_endpoint_path := endpoint_; p_sse_parser := SseChatIdParser_default; p_finished := false |}.

Definition publish_draft (p : MiddlewareProviderResponseDraftingStream) :
    result ServiceError unit * MiddlewareProviderResponseDraftingStream :=
  let hash := sha256_hex (provider_response_hasher p) in
  let model_ := sp_model_id (p_sse_parser p) in
  let with_journal j := {| p_inner := p_inner p; p_builder := None; p_journal := j;
                           provider_response_hasher := provider_response_hasher p; p_receipt_id := p_receipt_id p;
                           p_endpoint_path := p_endpoint_path p; p_sse_parser := p_sse_parser p; p_finished := p_finished p |} in
  match p_builder p with
  | None => (Err (ServiceReceipt EmptyReceipt), p)
  | Some builder =>
      let builder := set_chat_id (sp_chat_id (p_sse_parser p)) builder in
      let builder := set_upstream_verified_model_id model_ builder in
      match add_response_received_hash hash builder with
      | (Err e, _) => (Err (ServiceReceipt e), with_journal (p_journal p))
      | (Ok _, builder) =>
          (Ok tt, with_journal (journal_set {| d_receipt_id := p_receipt_id p; d_builder := builder;
                                               provider_response_hash := hash; d_endpoint_path := p_endpoint_path p;
                                               request_mode := Streaming; response_model := model_ |} (p_journal p)))
      end
  end.

Definition drafting_poll (p : MiddlewareProviderResponseDraftingStream) : StreamPoll * MiddlewareProviderResponseDraftingStream :=
  let next rest hasher parser fin :=
    {| p_inner := rest; p_builder := p_builder p; p_journal := p_journal p; provider_response_hasher := hasher;
       p_receipt_id := p_receipt_id p; p_endpoint_path := p_endpoint_path p; p_sse_parser := parser; p_finished := fin |} in
  if p_finished p then (Ready None, p)
  else
    match p_inner p with
    | [] =>
        let '(r, p) := publish_draft (next [] (provider_response_hasher p) (p_sse_parser p) true) in
        (Ready match r with Ok _ => None | Err e => Some (Err e) end, p)
    | None :: rest => (Pending, next rest (provider_response_hasher p) (p_sse_parser p) false)
    | Some (Ok chunk) :: rest =>
        (Ready (Some (Ok chunk)), next rest (provider_response_hasher p +:+ chunk) (observe chunk (p_sse_parser p)) false)
    | Some (Err e) :: rest =>
        (Ready (Some (Err (ServiceUpstream e))), next rest (provider_response_hasher p) (p_sse_parser p) true)
    end.

(** ** What polling does *)

(** The receipts are as they were. *)
Definition kept (st st' : State) : Prop := receipts (shared st') = receipts (shared st).

Lemma encrypt_kept {A} (m : EncE A) (st : State) : kept st (svc_encrypt m st).2.
Proof. unfold svc_encrypt, kept. by destruct (m _). Qed.

(** The chunks among the answers, and an error among them. *)
Definition chunk_of {X} (a : Answer X) : option string := match answer a with Some (Ok c) => Some c | _ => None end.
Definition chunks_of {X} (l : list (Answer X)) : list string := omap chunk_of l.
Definition no_error {X} (a : Answer X) : Prop := match answer a with Some (Err _) => False | _ => True end.

Lemma chunks_of_app {X} (l l' : list (Answer X)) : chunks_of (l ++ l') = chunks_of l ++ chunks_of l'.
Proof. apply omap_app. Qed.

Lemma chunks_of_snoc {X} (l : list (Answer X)) a c : answer a = Some (Ok c) -> chunks_of (l ++ [a]) = chunks_of l ++ [c].
Proof. intros Ha. rewrite chunks_of_app. f_equal. unfold chunks_of. cbn. unfold chunk_of. by rewrite Ha. Qed.

Lemma concat_str_app l l' : concat_str (l ++ l') = concat_str l +:+ concat_str l'.
Proof. induction l as [|s l IH]; cbn; [done|]. by rewrite IH, string_app_assoc. Qed.

Lemma concat_str_snoc l s : concat_str (l ++ [s]) = concat_str l +:+ s.
Proof. rewrite concat_str_app. cbn. by rewrite string_app_nil_r. Qed.

Definition parse_chunks (l : list string) : SseChatIdParser := fold_left (fun p c => observe c p) l SseChatIdParser_default.

Section PollFacts.
Context {X : Type} (finalize_receipt : FinalizerShared -> X -> Svc unit) (taken : X -> X).
Context (finalize_kept : forall f x st e st', finalize_receipt f x st = (Err e, st') -> kept st st').
Context (requester_ : option ReceiptOwner) (endpoint_ : string) (e2ee : option E2eeRequestContext).
Context (answers0 : list (Answer X)) (end_ : X -> X) (x0 : X).

Definition fresh_stream : Finalizing X :=
  {| inner := answers0; at_end := end_; f_shared := FinalizerShared_new requester_ endpoint_ e2ee; own := x0 |}.

(** What the shared state knows after the answers [seen] with [out] emitted. *)
Record Seen (seen : list (Answer X)) (sh : FinalizerShared) (out : list string) : Prop := {
  seen_clear : cleartext_hasher sh = concat_str (chunks_of seen);
  seen_wire : wire_hasher sh = concat_str out;
  seen_parser : sse_parser sh = parse_chunks (chunks_of seen);
  seen_static : f_requester sh = requester_ /\ f_endpoint_path sh = endpoint_;
  seen_plain : e2ee = None -> e2ee_transformer sh = None /\ out = chunks_of seen;
  seen_ok : Forall no_error seen;
}.

Definition own_after (seen : list (Answer X)) : X := fold_left (fun x a => effect a x) seen x0.

(** A stream that has emitted [out] and may go on. *)
Definition Running (f : Finalizing X) (out : list string) : Prop :=
  at_end f = end_ /\ finished (f_shared f) = false
  /\ ((upstream_ended (f_shared f) = false
       /\ exists seen, answers0 = seen ++ inner f /\ Seen seen (f_shared f) out /\ own f = own_after seen)
      \/ (upstream_ended (f_shared f) = true /\ e2ee_transformer (f_shared f) = None
          /\ Seen answers0 (f_shared f) out /\ own f = end_ (own_after answers0))).

(** What a poll of it may answer. *)
Inductive poll_result (out : list string) (st : State) : StreamPoll -> Finalizing X -> State -> Prop :=
| result_pending f' st' : kept st st' -> Running f' out -> poll_result out st Pending f' st'
| result_chunk c f' st' : kept st st' -> Running f' (out ++ [c]) -> poll_result out st (Ready (Some (Ok c))) f' st'
| result_error e f' st' : kept st st' -> finished (f_shared f') = true -> poll_result out st (Ready (Some (Err e))) f' st'
| result_done sh f' st1 st' :
    kept st st1 -> Seen answers0 sh out -> finished (f_shared f') = true ->
    finalize_receipt sh (end_ (own_after answers0)) st1 = (Ok tt, st') -> poll_result out st (Ready None) f' st'.

Lemma Seen_chunk seen sh out a c :
  answer a = Some (Ok c) -> Seen seen sh out -> e2ee_transformer sh <> None ->
  Seen (seen ++ [a]) (see_cleartext c sh) out.
Proof.
  intros Ha [Hc Hw Hp Hs Hpl Hok] Ht. pose proof (chunks_of_snoc seen a c Ha) as Hch. split; cbn; rewrite ?Hch.
  - by rewrite Hc, concat_str_snoc.
  - done.
  - unfold parse_chunks. rewrite fold_left_app. cbn. by rewrite Hp.
  - done.
  - intros [??]%Hpl. congruence.
  - apply Forall_app. split; [done|]. constructor; [unfold no_error; by rewrite Ha|done].
Qed.

Lemma Seen_plain_chunk seen sh out a c :
  answer a = Some (Ok c) -> Seen seen sh out -> e2ee_transformer sh = None ->
  Seen (seen ++ [a]) (hash_wire c (see_cleartext c sh)) (out ++ [c]).
Proof.
  intros Ha [Hc Hw Hp Hs Hpl Hok] Ht. pose proof (chunks_of_snoc seen a c Ha) as Hch. split; cbn; rewrite ?Hch.
  - by rewrite Hc, concat_str_snoc.
  - by rewrite Hw, concat_str_snoc.
  - unfold parse_chunks. rewrite fold_left_app. cbn. by rewrite Hp.
  - done.
  - intros [_ ->]%Hpl. done.
  - apply Forall_app. split; [done|]. constructor; [unfold no_error; by rewrite Ha|done].
Qed.

Lemma Seen_pending seen sh out a : answer a = None -> Seen seen sh out -> Seen (seen ++ [a]) sh out.
Proof.
  intros Ha [Hc Hw Hp Hs Hpl Hok].
  assert (Hch : chunks_of (seen ++ [a]) = chunks_of seen)
    by (rewrite chunks_of_app; unfold chunks_of at 2; cbn; unfold chunk_of; rewrite Ha; by rewrite app_nil_r).
  split; rewrite ?Hch; try done. apply Forall_app. split; [done|]. constructor; [unfold no_error; by rewrite Ha|done].
Qed.

Lemma Seen_wire seen sh out t w :
  Seen seen sh out -> e2ee_transformer sh <> None -> Seen seen (hash_wire w (set_transformer t sh)) (out ++ [w]).
Proof.
  intros [Hc Hw Hp Hs Hpl Hok] Ht. split; cbn; try done; [by rewrite Hw, concat_str_snoc|]. intros [??]%Hpl. done.
Qed.

Lemma Seen_transformer seen sh out t : Seen seen sh out -> e2ee_transformer sh <> None -> Seen seen (set_transformer t sh) out.
Proof. intros [Hc Hw Hp Hs Hpl Hok] Ht. split; cbn; try done. intros [??]%Hpl. done. Qed.

Lemma kept_trans (s1 s2 s3 : State) : kept s1 s2 -> kept s2 s3 -> kept s1 s3.
Proof. unfold kept. congruence. Qed.

Lemma Seen_finish seen sh out : Seen seen sh out -> Seen seen (finish_now sh) out.
Proof. by intros []. Qed.

Lemma Seen_end seen sh out : Seen seen sh out -> Seen seen (end_upstream sh) out.
Proof. by intros []. Qed.

Lemma own_after_snoc seen a : own_after (seen ++ [a]) = effect a (own_after seen).
Proof. unfold own_after. by rewrite fold_left_app. Qed.

Lemma poll_result_later out st st1 o f' st' : kept st st1 -> poll_result out st1 o f' st' -> poll_result out st o f' st'.
Proof.
  intros Hk Hr. destruct Hr as [| | |sh f' st2 st' Hk2]; [econstructor; eauto using kept_trans..|].
  eapply result_done; [exact (kept_trans _ _ _ Hk Hk2)|eassumption..].
Qed.

Lemma poll_ended_result f out st o f' st' :
  at_end f = end_ -> upstream_ended (f_shared f) = true -> finished (f_shared f) = false ->
  Seen answers0 (f_shared f) out -> own f = end_ (own_after answers0) ->
  poll_ended finalize_receipt taken f st = (o, f', st') -> poll_result out st o f' st'.
Proof.
  intros Hend Hu Hf Hs Ho. unfold poll_ended.
  assert (Hconclude : forall sh st1, kept st st1 -> Seen answers0 sh out ->
    (let sh := finish_now sh in let '(r, st) := finalize_receipt sh (own f) st1 in
     (Ready match r with Ok _ => None | Err e => Some (Err e) end, rebuild f (inner f) sh (taken (own f)), st)) = (o, f', st') ->
    poll_result out st o f' st').
  { intros sh st1 Hk Hsh. cbn zeta. rewrite Ho. destruct (finalize_receipt _ _ st1) as [[[]|e] st2] eqn:E; intros [= <- <- <-].
    - econstructor; [done|by apply Seen_finish|done|done].
    - econstructor; [|done]. by eapply kept_trans, finalize_kept. }
  destruct (e2ee_transformer (f_shared f)) as [[ctx t]|] eqn:Et; [|by apply Hconclude].
  cbn zeta. pose proof (encrypt_kept (finish ctx (f_endpoint_path (set_transformer None (f_shared f))) t) st) as Hk.
  destruct (svc_encrypt _ st) as [[[wire t']|e] st1]; cbn in Hk.
  2: { intros [= <- <- <-]. by econstructor. }
  assert (Hne : e2ee_transformer (f_shared f) <> None) by by rewrite Et.
  destruct (String.eqb wire ""); [apply Hconclude; [done|by apply Seen_transformer]|].
  intros [= <- <- <-]. constructor; [done|]. split; [done|]. split; [done|]. right.
  split; [done|]. split; [done|]. split; [by apply Seen_wire|done].
Qed.

Lemma poll_loop_result f out answers seen sh x st o f' st' :
  at_end f = end_ -> answers0 = seen ++ answers -> Seen seen sh out -> x = own_after seen ->
  upstream_ended sh = false -> finished sh = false ->
  poll_loop finalize_receipt taken f answers sh x st = (o, f', st') -> poll_result out st o f' st'.
Proof.
  intros Hend. revert seen sh x st. induction answers as [|a answers IH]; intros seen sh x st Ha Hs -> Hu Hf; cbn [poll_loop].
  { rewrite app_nil_r in Ha. subst seen. apply poll_ended_result; cbn; try done; [by apply Seen_end|by rewrite Hend]. }
  rewrite cons_middle, app_assoc in Ha. cbn zeta. rewrite <- own_after_snoc.
  assert (Hrun : forall sh out', Seen (seen ++ [a]) sh out' -> upstream_ended sh = false -> finished sh = false ->
    Running (rebuild f answers sh (own_after (seen ++ [a]))) out').
  { intros. split; [done|]. split; [done|]. left. split; [done|]. eauto. }
  destruct (answer a) as [[c|e]|] eqn:Ea.
  - cbn [see_cleartext e2ee_transformer]. destruct (e2ee_transformer sh) as [[ctx t]|] eqn:Et.
    + pose proof (Seen_chunk _ _ _ _ _ Ea Hs) as Hc. rewrite Et in Hc. specialize (Hc ltac:(done)).
      pose proof (encrypt_kept (push_chunk ctx (f_endpoint_path (see_cleartext c sh)) c t) st) as Hk.
      destruct (svc_encrypt _ st) as [[[wire t']|e] st1]; cbn in Hk.
      2: { intros [= <- <- <-]. by econstructor. }
      assert (Hne : e2ee_transformer (see_cleartext c sh) <> None) by (cbn; by rewrite Et).
      destruct (String.eqb wire "").
      * intros Hl%(IH (seen ++ [a])); [by eapply poll_result_later|done|by apply Seen_transformer|done..].
      * intros [= <- <- <-]. constructor; [done|]. apply Hrun; [by apply Seen_wire|done..].
    + intros [= <- <- <-]. constructor; [done|]. apply Hrun; [by apply Seen_plain_chunk|done..].
  - intros [= <- <- <-]. by econstructor.
  - intros [= <- <- <-]. constructor; [done|]. apply Hrun; [by apply Seen_pending|done..].
Qed.

Lemma poll_running f out st o f' st' :
  Running f out -> poll_finalizing_stream finalize_receipt taken f st = (o, f', st') -> poll_result out st o f' st'.
Proof.
  intros (Hend & Hf & Hcase). unfold poll_finalizing_stream. rewrite Hf.
  destruct Hcase as [(Hu & seen & Ha & Hs & Ho)|(Hu & Ht & Hs & Ho)]; rewrite Hu.
  - by eapply poll_loop_result.
  - by apply poll_ended_result.
Qed.

Lemma running_fresh : Running fresh_stream [].
Proof.
  split; [done|]. split; [done|]. left. split; [done|]. exists []. split; [done|]. split; [|done].
  split; cbn; try done. by intros ->.
Qed.

(** Polls whose answers were [out], each in a state of its own. *)
Inductive polled : Finalizing X -> list string -> Prop :=
| polled_start : polled fresh_stream []
| polled_pending f out st f' st' :
    polled f out -> poll_finalizing_stream finalize_receipt taken f st = (Pending, f', st') -> polled f' out
| polled_chunk f out st c f' st' :
    polled f out -> poll_finalizing_stream finalize_receipt taken f st = (Ready (Some (Ok c)), f', st') -> polled f' (out ++ [c]).

Lemma polled_running f out : polled f out -> Running f out.
Proof.
  induction 1 as [|f out st f' st' _ IH Hp|f out st c f' st' _ IH Hp]; [apply running_fresh| |];
    apply (poll_running _ _ _ _ _ _ IH) in Hp; by inversion Hp.
Qed.

End PollFacts.

(** ** Progress *)

Section Progress.
Context {X : Type} (finalize_receipt : FinalizerShared -> X -> Svc unit) (taken : X -> X).

(** Polls that are left at most. *)
Definition remaining (f : Finalizing X) : nat :=
  if finished (f_shared f) then 0
  else length (inner f) + (match e2ee_transformer (f_shared f) with Some _ => 1 | None => 0 end) + 1.

Lemma poll_ended_progress f st o f' st' :
  finished (f_shared f) = false ->
  poll_ended finalize_receipt taken f st = (o, f', st') -> (remaining f' < remaining f)%nat.
Proof.
  intros Hf. unfold poll_ended, remaining. rewrite Hf. cbn zeta.
  destruct (e2ee_transformer (f_shared f)) as [[ctx t]|].
  - destruct (svc_encrypt _ st) as [[[wire t']|e] st1]; [|intros [= <- <- <-]; cbn; lia].
    destruct (String.eqb wire ""); [|intros [= <- <- <-]; cbn; rewrite Hf; lia].
    destruct (finalize_receipt _ _ st1) as [r st2]. intros [= <- <- <-]. cbn. lia.
  - destruct (finalize_receipt _ _ st) as [r st2]. intros [= <- <- <-]. cbn. lia.
Qed.

Lemma poll_loop_progress f answers sh x st o f' st' :
  finished sh = false ->
  poll_loop finalize_receipt taken f answers sh x st = (o, f', st') ->
  (remaining f' < length answers + (match e2ee_transformer sh with Some _ => 1 | None => 0 end) + 1)%nat.
Proof.
  revert sh x st. induction answers as [|a answers IH]; intros sh x st Hf; cbn [poll_loop length].
  { intros Hp%poll_ended_progress; [|done]. unfold remaining in Hp at 2. cbn in Hp. rewrite Hf in Hp. lia. }
  cbn zeta. unfold remaining. destruct (answer a) as [[c|e]|]; [|intros [= <- <- <-]; cbn; lia|intros [= <- <- <-]; cbn; rewrite Hf; lia].
  cbn [see_cleartext e2ee_transformer]. destruct (e2ee_transformer sh) as [[ctx t]|] eqn:Et.
  - destruct (svc_encrypt _ st) as [[[wire t']|e] st1]; [|intros [= <- <- <-]; cbn; lia].
    destruct (String.eqb wire ""); [|intros [= <- <- <-]; cbn; rewrite Hf; lia].
    intros Hl%IH; [|done]. cbn in Hl. unfold remaining in Hl. lia.
  - intros [= <- <- <-]; cbn; rewrite Hf, Et; lia.
Qed.

Lemma poll_progress f st o f' st' :
  poll_finalizing_stream finalize_receipt taken f st = (o, f', st') -> (remaining f' <= remaining f - 1)%nat.
Proof.
  unfold poll_finalizing_stream. destruct (finished (f_shared f)) eqn:Hf.
  { intros [= <- <- <-]. unfold remaining. by rewrite Hf. }
  destruct (upstream_ended (f_shared f)); [intros Hp%poll_ended_progress|intros Hp%poll_loop_progress]; try done.
  - lia.
  - unfold remaining at 2. rewrite Hf. lia.
Qed.

(** The stream polled once in each of the states. *)
Fixpoint poll_in (states : list State) (f : Finalizing X) : Finalizing X :=
  match states with
  | [] => f
  | st :: states => poll_in states (poll_finalizing_stream finalize_receipt taken f st).1.2
  end.

Lemma poll_in_finished states f : (remaining f <= length states)%nat -> finished (f_shared (poll_in states f)) = true.
Proof.
  revert f. induction states as [|st states IH]; intros f; cbn.
  - unfold remaining. destruct (finished _); [done|lia].
  - intros Hr. apply IH. destruct (poll_finalizing_stream _ _ f st) as [[o f'] st'] eqn:E. cbn.
    apply poll_progress in E. lia.
Qed.
End Progress.

(** ** Receipts of streams *)

Lemma build_kept {A} (m : Build A) b (st : State) : kept st (svc_build m b st).2.
Proof. unfold svc_build, kept. by destruct (m b) as [[] ?]. Qed.

(** A failure to finish leaves the store alone. *)
Definition fails_kept {A} (m : Svc A) : Prop := forall st e st', m st = (Err e, st') -> kept st st'.

Lemma fails_kept_build {A B} (m : Build A) b (k : A * ReceiptBuilder -> Svc B) :
  (forall a, fails_kept (k a)) -> fails_kept (svc_build m b ≫= k).
Proof.
  intros Hk st e st' [(e' & E & _)|(a & st1 & E & Ek)]%svc_bind_inv; pose proof (build_kept m b st) as Hb; rewrite E in Hb.
  - done.
  - eapply kept_trans; [done|]. by eapply Hk.
Qed.

Lemma fails_kept_store r o : fails_kept (store_receipt svc r o).
Proof.
  intros st e st'. unfold store_receipt, read_clock, mbind, svc_bind. destruct (now_secs _) as [t sh]. done.
Qed.

Lemma fails_kept_sign f b : fails_kept (sign_and_store f b).
Proof.
  intros st e st'. unfold sign_and_store.
  intros [(e' & E & _)|(a & st1 & E & Ek)]%svc_bind_inv; unfold svc_lift in E; injection E as E ->; [done|].
  by eapply fails_kept_store.
Qed.
#[local] Hint Resolve fails_kept_build fails_kept_sign : core.

Lemma receipt_finalize_kept f x st e st' : receipt_finalize f x st = (Err e, st') -> kept st st'.
Proof.
  revert st e st'. change (fails_kept (receipt_finalize f x)). unfold receipt_finalize. cbn [hashes].
  destruct (r_builder x) as [b|]; [|by intros st e st' [= <- <-]].
  intros st e st'. cbn [ok_or]. unfold mbind at 1, svc_bind at 1, svc_lift. cbn zeta iota beta.
  apply fails_kept_build. intros a. apply fails_kept_build. auto.
Qed.

Lemma middleware_finalize_kept f x st e st' : middleware_finalize f x st = (Err e, st') -> kept st st'.
Proof.
  revert st e st'. change (fails_kept (middleware_finalize f x)). unfold middleware_finalize. cbn [hashes].
  destruct (journal_take (journal x)).1 as [d|]; [|done]. cbn zeta.
  apply fails_kept_build. intros a. apply fails_kept_build. auto.
Qed.

(** A receipt with this log, these ids and this owner is in the store. *)
Definition stored (st : State) (owner : option ReceiptOwner) (chat : option string) (b : ReceiptBuilder)
    (l : list (string * Value)) : Prop :=
  exists r t, by_receipt (receipts (shared st)) !! receipt_id r = Some {| sr_receipt := r; sr_owner := owner; expires_at := t |}
    /\ signed svc r /\ receipt_id r = rb_receipt_id b /\ chat_id r = chat /\ log_of (event_log r) = l.

Lemma finalize_ids b k r : finalize b k = Ok r -> receipt_id r = rb_receipt_id b /\ chat_id r = rb_chat_id b.
Proof.
  unfold finalize. destruct (bool_decide _); [done|]. destruct (missing_required _); [done|]. destruct (find _ _); [|done].
  rewrite result_bind_Ok. intros (bytes & _ & E). apply result_bind_Ok in E as (sig & _ & [= <-]). done.
Qed.

Lemma sign_and_store_stored f b st st' :
  sign_and_store f b st = (Ok tt, st') -> stored st' (f_requester f) (rb_chat_id b) b (log_of (rb_events b)).
Proof.
  unfold sign_and_store. intros (r & s1 & [= Hr ->] & Hs)%svc_bind_Ok.
  unfold store_receipt in Hs. apply svc_bind_Ok in Hs as (now & s2 & _ & [= <-]).
  pose proof (sign_receipt_signed _ _ _ Hr) as [Hsig Hlog]. unfold sign_receipt_of in Hr.
  destruct (finalize b _) as [r'|] eqn:Ef; [|done]. injection Hr as ->. apply finalize_ids in Ef as [Hid Hc].
  eexists r, _. cbn. unfold put, insert_receipt. cbn. rewrite lookup_insert_eq, Hlog. auto.
Qed.

(** Appending keeps the ids. *)
Lemma append_ids ty f b a b' : append ty f b = (Ok a, b') -> rb_receipt_id b' = rb_receipt_id b /\ rb_chat_id b' = rb_chat_id b.
Proof.
  unfold append. destruct (_ && _); [done|]. destruct (match f with Obj obj => _ | _ => _ end); [done|].
  by intros [= <- <-].
Qed.

Definition returned (cleartext wire : string) : list (string * Value) :=
  [(EVENT_RESPONSE_RETURNED, {{ "cleartext_hash" ≔ Str (sha256_hex cleartext); "wire_hash" ≔ Str (sha256_hex wire) }})].

Definition marked (m : bool) : list (string * Value) :=
  if m then [(transparency_event_type ResponseModified, Obj [])] else [].

(** The end of both finalizers. *)
Lemma conclude_stored f m cleartext wire b st st' :
  (b ← svc_build (if (m : bool) then add_transparency_event ResponseModified else mret tt) b;
   b ← svc_build (add_response_returned_hashes (sha256_hex cleartext) (sha256_hex wire)) b.2;
   sign_and_store f b.2) st = (Ok tt, st') ->
  stored st' (f_requester f) (rb_chat_id b) b (log_of (rb_events b) ++ marked m ++ returned cleartext wire).
Proof.
  intros ([u1 b1] & s1 & [E1 ->]%svc_build_Ok & Hk)%svc_bind_Ok.
  apply svc_bind_Ok in Hk as ([u2 b2] & s2 & [E2 ->]%svc_build_Ok & Hk).
  apply sign_and_store_stored in Hk as (r & t & Hst & Hsig & Hid & Hc & Hl). cbn [snd] in *.
  exists r, t. do 2 (split; [done|]). pose proof (append_ids _ _ _ _ _ E2) as [Hi2 Hc2].
  assert (rb_receipt_id b1 = rb_receipt_id b /\ rb_chat_id b1 = rb_chat_id b) as [Hi1 Hc1].
  { destruct m; [by eapply append_ids|]. by injection E1 as _ ->. }
  split; [congruence|]. split; [congruence|]. rewrite Hl, (logs_append _ _ _ _ _ E2).
  assert (log_of (rb_events b1) = log_of (rb_events b) ++ marked m) as ->.
  { destruct m; [by eapply logs_append|by eapply logs_ret]. }
  by rewrite <- app_assoc.
Qed.

Definition receipt_polled (chunks : list (option (result UpstreamError string))) (builder : ReceiptBuilder)
    (requester_ : option ReceiptOwner) (endpoint_ : string) (e2ee : option E2eeRequestContext) (modified_ : bool) :
    Finalizing ReceiptOwn -> list string -> Prop :=
  polled receipt_finalize receipt_taken requester_ endpoint_ e2ee (upstream_answers chunks) id
    {| r_builder := Some builder; response_modified := modified_ |}.

Lemma upstream_answers_chunks {X} chunks :
  Forall (no_error (X := X)) (upstream_answers chunks) -> omap id chunks = map Ok (chunks_of (X := X) (upstream_answers chunks)).
Proof.
  induction chunks as [|[[c|e]|] chunks IH]; cbn; [done|..]; rewrite Forall_cons; intros [Ha Hs]; cbn in *; unfold chunks_of in *; cbn.
  - f_equal. auto.
  - done.
  - auto.
Qed.

(** A stream that is over: every further poll says so and does nothing. *)
Definition over (f : Finalizing ReceiptOwn) : Prop := forall st, receipt_poll f st = (Ready None, f, st).

Lemma finished_over f : finished (f_shared f) = true -> over f.
Proof. intros Hf st. unfold receipt_poll, poll_finalizing_stream. by rewrite Hf. Qed.

Lemma stream_over chunks builder requester_ endpoint_ e2ee modified_ f out st o f' st' :
  receipt_polled chunks builder requester_ endpoint_ e2ee modified_ f out -> receipt_poll f st = (o, f', st') ->
  match o with Pending | Ready (Some (Ok _)) => True | Ready _ => over f' end.
Proof.
  intros Hp%polled_running; [|apply receipt_finalize_kept]. intros Hpoll.
  eapply poll_running in Hpoll; [|apply receipt_finalize_kept|done]. destruct Hpoll; [done..|by apply finished_over|by apply finished_over].
Qed.

Lemma upstream_answers_own {X} chunks (x : X) : own_after x (upstream_answers chunks) = x.
Proof. unfold own_after, upstream_answers. induction chunks as [|c chunks IH]; [done|apply IH]. Qed.

Lemma stream_receipt chunks builder requester_ endpoint_ e2ee modified_ f out st o f' st' :
  receipt_polled chunks builder requester_ endpoint_ e2ee modified_ f out -> receipt_poll f st = (o, f', st') ->
  match o with
  | Ready None =>
      exists texts, omap id chunks = map Ok texts /\ (e2ee = None -> out = texts)
        /\ let parser := observe (concat_str texts) SseChatIdParser_default in
           stored st' requester_ (sp_chat_id parser) builder
             (log_of (rb_events (set_upstream_verified_model_id (sp_model_id parser) builder))
                ++ marked modified_ ++ returned (concat_str texts) (concat_str out))
  | _ => kept st st'
  end.
Proof.
  intros Hp%polled_running; [|apply receipt_finalize_kept]. intros Hpoll.
  eapply poll_running in Hpoll; [|apply receipt_finalize_kept|done].
  destruct Hpoll as [?? Hk _|??? Hk _|??? Hk _|sh f' st1 st' _ Hs _ Hfin]; [done..|].
  rewrite upstream_answers_own in Hfin. destruct Hs as [Hc Hw Hpa [Hrq _] Hpl Hok].
  exists (chunks_of (upstream_answers (X := ReceiptOwn) chunks)).
  split; [by apply upstream_answers_chunks|]. split; [by intros [_ ?]%Hpl|].
  cbn zeta. rewrite <- observe_chunks. fold (parse_chunks (chunks_of (upstream_answers (X := ReceiptOwn) chunks))). rewrite <- Hpa, <- Hc, <- Hw, <- Hrq.
  unfold receipt_finalize in Hfin. cbn [hashes r_builder id ok_or response_modified] in Hfin.
  apply svc_bind_Ok in Hfin as (b & s2 & [= <- ->] & Hfin). cbn zeta in Hfin. by apply conclude_stored in Hfin.
Qed.

(** ** The middleware's streams *)

Definition middleware_polled (answers : list (Answer MiddlewareOwn)) (end_ : MiddlewareOwn -> MiddlewareOwn)
    (j : MiddlewareReceiptJournal) (requester_ : option ReceiptOwner) (endpoint_ : string)
    (e2ee : option E2eeRequestContext) (modified_ : bool) : Finalizing MiddlewareOwn -> list string -> Prop :=
  polled middleware_finalize middleware_taken requester_ endpoint_ e2ee answers end_
    {| journal := j; response_modified_by_wire := modified_ |}.

(** The chat id of the finished receipt: the stream's, or else the draft's. *)
Definition final_chat_id (texts : list string) (d : MiddlewareReceiptDraft) : option string :=
  match sp_chat_id (parse_chunks texts) with Some c => Some c | None => rb_chat_id (d_builder d) end.

Lemma middleware_stream_receipt answers end_ j requester_ endpoint_ e2ee modified_ f out st o f' st' :
  middleware_polled answers end_ j requester_ endpoint_ e2ee modified_ f out -> middleware_poll f st = (o, f', st') ->
  match o with
  | Ready None =>
      let x := end_ (own_after {| journal := j; response_modified_by_wire := modified_ |} answers) in
      let texts := chunks_of answers in
      Forall no_error answers /\ (e2ee = None -> out = texts)
      /\ match j_draft (journal x) with
         | None => kept st st'
         | Some d =>
             stored st' requester_ (final_chat_id texts d) (d_builder d)
               (log_of (rb_events (d_builder d))
                ++ marked (negb (String.eqb (provider_response_hash d) (sha256_hex (concat_str texts)))
                             || response_modified_by_wire x)
                ++ returned (concat_str texts) (concat_str out))
         end
  | _ => kept st st'
  end.
Proof.
  intros Hp%polled_running; [|apply middleware_finalize_kept]. intros Hpoll.
  eapply poll_running in Hpoll; [|apply middleware_finalize_kept|done].
  destruct Hpoll as [?? Hk _|??? Hk _|??? Hk _|sh f' st1 st' Hk1 Hs _ Hfin]; [done..|].
  cbn zeta. destruct Hs as [Hc Hw Hpa [Hrq _] Hpl Hok]. split; [done|]. split; [by intros [_ ?]%Hpl|].
  unfold middleware_finalize, final_chat_id in *. cbn [journal_take fst hashes] in Hfin.
  destruct (j_draft _) as [d|]; [|by injection Hfin as <-].
  rewrite <- Hpa, <- Hc, <- Hw, <- Hrq. cbn zeta in Hfin. apply conclude_stored in Hfin.
  by destruct (sp_chat_id (sse_parser sh)).
Qed.

(** Polls of the drafting stream that let [out] through. *)
Inductive drafting_polled (p0 : MiddlewareProviderResponseDraftingStream) :
    MiddlewareProviderResponseDraftingStream -> list string -> Prop :=
| drafting_start : drafting_polled p0 p0 []
| drafting_pending p out p' : drafting_polled p0 p out -> drafting_poll p = (Pending, p') -> drafting_polled p0 p' out
| drafting_chunk p out c p' :
    drafting_polled p0 p out -> drafting_poll p = (Ready (Some (Ok c)), p') -> drafting_polled p0 p' (out ++ [c]).

Record Drafting (chunks : list (option (result UpstreamError string))) (builder : ReceiptBuilder)
    (j : MiddlewareReceiptJournal) (rid endpoint_ : string) (p : MiddlewareProviderResponseDraftingStream)
    (out : list string) : Prop := {
  dr_inner : exists seen, chunks = seen ++ p_inner p /\ omap id seen = map Ok out;
  dr_hasher : provider_response_hasher p = concat_str out;
  dr_parser : p_sse_parser p = parse_chunks out;
  dr_static : p_builder p = Some builder /\ p_journal p = j /\ p_receipt_id p = rid /\ p_endpoint_path p = endpoint_;
  dr_running : p_finished p = false;
}.

Lemma drafting_step chunks builder j rid endpoint_ p out a rest :
  Drafting chunks builder j rid endpoint_ p out -> p_inner p = a :: rest ->
  exists seen, chunks = seen ++ rest /\ omap id seen = map Ok out ++ match a with Some r => [r] | None => [] end.
Proof.
  intros [(seen & -> & Hs) _ _ _ _] ->. exists (seen ++ [a]). rewrite <- app_assoc. split; [done|].
  rewrite omap_app, Hs. by destruct a.
Qed.

Lemma drafting_runs chunks builder j rid endpoint_ p out :
  drafting_polled (DraftingStream_new chunks builder j rid endpoint_) p out -> Drafting chunks builder j rid endpoint_ p out.
Proof.
  induction 1 as [|p out p' _ IH Hp|p out c p' _ IH Hp].
  { split; try done. by exists []. }
  all: pose proof IH as Hd; destruct IH as [_ Hh Hpa Hst Hf]; unfold drafting_poll in Hp; rewrite Hf in Hp.
  all: destruct (p_inner p) as [|[[c'|e]|] rest] eqn:Ei; try done.
  1, 3: destruct (publish_draft _) as [[] ?]; done.
  - injection Hp as <-. apply (drafting_step _ _ _ _ _ _ _ _ _ Hd) in Ei as (seen & ? & Hs).
    rewrite app_nil_r in Hs. split; cbn; eauto.
  - injection Hp as <- <-. apply (drafting_step _ _ _ _ _ _ _ _ _ Hd) in Ei as (seen & ? & Hs).
    split; cbn; [exists seen; by rewrite map_app| | |done|done].
    + by rewrite Hh, concat_str_snoc.
    + unfold parse_chunks. rewrite fold_left_app. cbn. by rewrite Hpa.
Qed.

(** The draft of a provider's stream that was read to its end. *)
Definition draft_of (builder : ReceiptBuilder) (rid endpoint_ : string) (texts : list string) (d : MiddlewareReceiptDraft) : Prop :=
  let parser := observe (concat_str texts) SseChatIdParser_default in
  let hash := sha256_hex (concat_str texts) in
  d_receipt_id d = rid /\ d_endpoint_path d = endpoint_ /\ provider_response_hash d = hash
  /\ request_mode d = Streaming /\ response_model d = sp_model_id parser
  /\ rb_receipt_id (d_builder d) = rb_receipt_id builder /\ rb_chat_id (d_builder d) = sp_chat_id parser
  /\ log_of (rb_events (d_builder d))
     = log_of (rb_events (set_upstream_verified_model_id (sp_model_id parser) builder))
       ++ [(EVENT_RESPONSE_RECEIVED, {{ "cleartext_hash" ≔ Str hash }})].

(** The draft is published by the poll that ends the stream, and by no other. *)
Lemma drafting_publishes chunks builder j rid endpoint_ p out o p' :
  drafting_polled (DraftingStream_new chunks builder j rid endpoint_) p out -> drafting_poll p = (o, p') ->
  match o with
  | Ready None => omap id chunks = map Ok out
      /\ exists d, p_journal p' = {| j_receipt_id := Some rid; j_draft := Some d |} /\ draft_of builder rid endpoint_ out d
  | _ => p_journal p' = j
  end.
Proof.
  intros Hd%drafting_runs. destruct Hd as [(seen & Hi & Hs) Hh Hpa (Hb & Hj & Hr & He) Hf].
  unfold drafting_poll. rewrite Hf. destruct (p_inner p) as [|[[c|e]|] rest]; [|intros [= <- <-]; done..].
  rewrite app_nil_r in Hi. subst seen. unfold publish_draft. cbn [p_builder provider_response_hasher p_sse_parser]. rewrite Hb. cbn zeta.
  destruct (add_response_received_hash _ _) as [[u|e] b'] eqn:E; intros [= <- <-]; [|by cbn].
  cbn. rewrite Hr, He, Hh. split; [done|]. eexists. split; [done|]. unfold draft_of. cbn zeta.
  rewrite <- observe_chunks. fold (parse_chunks out). rewrite <- Hpa. cbn.
  pose proof (append_ids _ _ _ _ _ E) as [Hi' Hc']. apply logs_append in E. cbn in Hi', Hc'. rewrite Hh in E. auto 10.
Qed.

(** C28: Both finalizing streams come to their end: whatever the inner stream
    answers and whatever the states the polls find, after two polls more than the
    inner stream has answers the stream is finished, its receipt decided. *)
Theorem streams_finish chunks builder answers end_ j requester_ endpoint_ e2ee modified_ states :
  ((length chunks + 2 <= length states)%nat ->
   finished (f_shared (poll_in receipt_finalize receipt_taken states
     (ReceiptFinalizingStream_new chunks builder requester_ endpoint_ e2ee modified_))) = true)
  /\ ((length answers + 2 <= length states)%nat ->
     finished (f_shared (poll_in middleware_finalize middleware_taken states
       (MiddlewareResponseFinalizingStream_new answers end_ j requester_ endpoint_ e2ee modified_))) = true).
Proof.
  assert (Hm : length (upstream_answers (X := ReceiptOwn) chunks) = length chunks) by apply length_map.
  split; intros Hl; apply poll_in_finished; unfold remaining;
    cbn [ReceiptFinalizingStream_new MiddlewareResponseFinalizingStream_new FinalizerShared_new f_shared inner finished e2ee_transformer];
    rewrite ?Hm; destruct e2ee; cbn; lia.
Qed.
End Streams.

(** ** A streaming request from start to end *)

(** [m] keeps the ids of the receipt. *)
Definition keeps_ids {A} (m : Build A) : Prop :=
  forall b a b', m b = (Ok a, b') -> rb_receipt_id b' = rb_receipt_id b /\ rb_chat_id b' = rb_chat_id b.

Lemma keeps_ret {A} (a : A) : keeps_ids (mret a).
Proof. by intros b a' b' [= <- <-]. Qed.

Lemma keeps_bind {A B} (m : Build A) (f : A -> Build B) : keeps_ids m -> (forall a, keeps_ids (f a)) -> keeps_ids (m ≫= f).
Proof.
  intros Hm Hf b a b'. unfold mbind, build_bind. destruct (m b) as [[a1|e] b1] eqn:E; [|done].
  intros [Hi Hc]%Hf. apply Hm in E as [Hi1 Hc1]. split; congruence.
Qed.

Lemma keeps_append ty f : keeps_ids (append ty f).
Proof. intros b a b'. apply append_ids. Qed.

Lemma keeps_append_ret {A} ty f (a : A) : keeps_ids (append ty f ≫= fun _ => mret a).
Proof. apply keeps_bind; [apply keeps_append|intros _; apply keeps_ret]. Qed.

Lemma keeps_of_stable {A} (m : Build A) : stable (fun b => (rb_receipt_id b, rb_chat_id b)) m -> keeps_ids m.
Proof. intros Hm b a b' E%Hm. by injection E. Qed.

Lemma keeps_request `{Digest} req p : keeps_ids (request_events req p).
Proof. by apply keeps_of_stable, stable_request. Qed.

Lemma keeps_upstream `{Digest} event recorded : keeps_ids (append_upstream_verified event recorded).
Proof. by apply keeps_of_stable, stable_upstream. Qed.

Section StreamingRequest.
Context `{Digest} `{Crypto} `{CurveLibs} `{SerdeJson} `{KeyProvider}.
Context {V S Env : Type} `{SessionStoreOps S}.
Context `{UpstreamVerifier V (Shared S Env Rng)} `{!Outside (Shared S Env Rng)}.
Context (svc : AciService V).

Abbreviation State := (State (S := S) (Env := Env)).

(** The log of a finished stream. *)
Definition stream_log (req : ChatCompletionRequest) (p : PreparedUpstreamRequest) (event : UpstreamVerifiedEvent)
    (recorded : option (string * SessionClaims)) (served_model : option string) (cleartext wire : string) : list (string * Value) :=
  let served_model := match served_model with Some m => m | None => "unknown" end in
  request_log req p
  ++ [(EVENT_UPSTREAM_VERIFIED, Obj (map_insert "model_id" (Str served_model) (upstream_fields event recorded)))]
  ++ marked (match rq_e2ee req with Some _ => true | None => false end) ++ returned cleartext wire.

Lemma start_stream_log req p event resp (s : State) x s1 :
  start_stream svc req (p, event, resp) s = (Ok (ForwardStream x), s1) ->
  s_status_code resp = 200 /\ st_body x = s_body resp /\ rb_receipt_id (st_builder x) = st_receipt_id x
  /\ exists sealed, sessions_of event sealed
     /\ log_of (rb_events (st_builder x))
        = request_log req p ++ [(EVENT_UPSTREAM_VERIFIED,
            Obj (upstream_fields event (cite_served_session sealed (s_served_instance_id resp))))].
Proof.
  unfold start_stream. destruct (Z.eqb_spec (s_status_code resp) 200) as [Hst|]; cbn [negb].
  2: { intros (body & s2 & _ & [=])%svc_bind_Ok. }
  intros (rid & s2 & _ & (at_ & s3 & _ & He)%svc_bind_Ok)%svc_bind_Ok. cbn zeta in He.
  apply svc_bind_Ok in He as ([u0 b0] & s4 & [E0 ->]%svc_build_Ok & He).
  apply svc_bind_Ok in He as (sealed & s5 & Hsealed%record_sessions & He).
  apply svc_bind_Ok in He as ([u1 b1] & s6 & [E1 ->]%svc_build_Ok & [= <- <-]). cbn [snd st_body st_builder st_receipt_id] in *.
  do 2 (split; [done|]). apply keeps_upstream in E1 as Hk1. apply keeps_request in E0 as Hk0.
  apply logs_upstream in E1. apply logs_request in E0. split.
  - destruct Hk0 as [Hk0 _], Hk1 as [Hk1 _]. by rewrite Hk1, Hk0.
  - exists sealed. split; [done|]. by rewrite E1, E0.
Qed.

(** C14: The receipt of a streaming request appears when, and only when, its
    stream ends: a poll that answers anything else leaves the receipts alone, and
    the poll that ends the stream stores, for the requester and under the id given
    at the start, a signed receipt whose log tells of the request as sent, the
    event that cleared the sending, and the hashes of all the upstream's bytes in
    order and of all the bytes given to the client, however they were cut. Once a
    poll answered with the end or with an error, every later one answers with the
    end and changes nothing. *)
Theorem streaming_receipt_truthful req (s : State) x s1 chunks f out st o f' st' :
  forward_chat_completion_stream_request svc req s = (Ok (ForwardStream x), s1) ->
  omap id chunks = st_body x ->
  receipt_polled svc chunks (st_builder x) (requester req) (endpoint_path req) (rq_e2ee req)
    (match rq_e2ee req with Some _ => true | None => false end) f out ->
  receipt_poll svc f st = (o, f', st') ->
  match o with
  | Ready None =>
      exists p event resp sealed acts texts r t,
        performed s s1 acts /\ sent_last up_forward_stream p acts event resp /\ s_status_code resp = 200
        /\ sessions_of event sealed /\ s_body resp = map Ok texts /\ (rq_e2ee req = None -> out = texts)
        /\ (let parser := observe (concat_str texts) SseChatIdParser_default in
            chat_id r = sp_chat_id parser
            /\ log_of (event_log r) = stream_log req p event (cite_served_session sealed (s_served_instance_id resp))
                 (sp_model_id parser) (concat_str texts) (concat_str out))
        /\ receipt_id r = st_receipt_id x /\ signed svc r
        /\ by_receipt (receipts (shared st')) !! st_receipt_id x
           = Some {| sr_receipt := r; sr_owner := requester req; expires_at := t |}
        /\ over svc f'
  | Ready (Some (Err _)) => kept st st' /\ over svc f'
  | _ => kept st st'
  end.
Proof.
  intros ([[p event] resp] & s2 & Hf & Hk)%svc_bind_Ok Hchunks Hpolled Hpoll.
  pose proof (stream_receipt _ _ _ _ _ _ _ _ _ _ _ _ _ Hpolled Hpoll) as Hres.
  pose proof (stream_over _ _ _ _ _ _ _ _ _ _ _ _ _ Hpolled Hpoll) as Hover.
  destruct o as [|[[c|e]|]]; [done..|]. destruct Hres as (texts & Htexts & Hout & r & t & Hst & Hsig & Hid & Hc & Hlog).
  apply forward_verified_runs in Hf as (acts & Hp & _ & Hlast). destruct (Hlast _ _ _ eq_refl) as [_ Hsent].
  assert (Hp' : performed s s1 acts).
  { rewrite <- (app_nil_r acts). eapply performed_trans; [done|]. by eapply silent_performed; [apply (silent_start svc req)|]. }
  apply start_stream_log in Hk as (H200 & Hbody & Hrid & sealed & Hsealed & Hl).
  exists p, event, resp, sealed, acts, texts, r, t. do 4 (split; [done|]). split; [congruence|]. split; [done|].
  split; [split; [done|]|].
  - rewrite Hlog. cbn [set_upstream_verified_model_id set_events rb_events].
    rewrite (set_model_log _ _ _ _ Hl (request_log_types req p)). unfold stream_log. by rewrite <- !app_assoc.
  - rewrite Hid, Hrid in *. done.
Qed.
End StreamingRequest.

(** ** A concrete stream *)

Import DemoForward.

Definition demo_started (r : result ServiceError StreamingForwardResult) : bool :=
  match r with
  | Ok (ForwardStream x) =>
      match st_body x with [Ok a; Ok b] => String.eqb a "data: {}" && String.eqb b "x" | _ => false end
  | _ => false
  end.

Definition demo_stream_of (r : result ServiceError StreamingForwardResult) : StartedStream :=
  match r with
  | Ok (ForwardStream x) => x
  | _ => {| st_receipt_id := ""; st_builder := demo_builder; st_status := 0; st_headers := ∅; st_e2ee := None; st_body := [] |}
  end.

Lemma demo_started_Ok {St} (r : result ServiceError StreamingForwardResult * St) :
  demo_started r.1 = true ->
  r = (Ok (ForwardStream (demo_stream_of r.1)), r.2) /\ st_body (demo_stream_of r.1) = [Ok "data: {}"; Ok "x"].
Proof.
  destruct r as [[[x|]|] s1]; [|done..]. cbn. destruct (st_body x) as [|[a|] [|[b|] []]] eqn:Eb; try done.
  by intros [->%String.eqb_eq ->%String.eqb_eq]%andb_prop.
Qed.

Abbreviation demo_start := (forward_chat_completion_stream_request service request init).
Abbreviation demo_stream := (demo_stream_of demo_start.1).

Lemma demo_stream_Ok :
  demo_start = (Ok (ForwardStream demo_stream), demo_start.2) /\ st_body demo_stream = [Ok "data: {}"; Ok "x"].
Proof.
  pose proof (demo_started_Ok demo_start) as Hx. apply Hx. vm_compute. reflexivity.
Qed.

(** Its chunks arrive with a pause; both were given to the client. *)
Definition demo_chunks : list (option (result UpstreamError string)) := [Some (Ok "data: {}"); None; Some (Ok "x")].

Definition demo_last (b : ReceiptBuilder) : Finalizing ReceiptOwn :=
  poll_in (receipt_finalize service) receipt_taken [init; init; init]
    (ReceiptFinalizingStream_new demo_chunks b None CHAT_COMPLETIONS_PATH None false).

Lemma demo_polled b :
  receipt_polled service demo_chunks b None CHAT_COMPLETIONS_PATH None false (demo_last b) ["data: {}"; "x"].
Proof.
  eapply polled_chunk with (out := ["data: {}"]) (st := init).
  { eapply polled_pending with (st := init).
    { eapply polled_chunk with (out := []) (st := init); [apply polled_start|reflexivity]. }
    reflexivity. }
  reflexivity.
Qed.

Lemma demo_last_done : (receipt_poll service (demo_last (st_builder demo_stream)) init).1.1 = Ready None.
Proof. vm_compute. reflexivity. Qed.

Lemma streams_finish_witness :
  finished (f_shared (poll_in (receipt_finalize service) receipt_taken [init; init; init; init; init]
    (ReceiptFinalizingStream_new demo_chunks demo_builder None CHAT_COMPLETIONS_PATH None false))) = true.
Proof.
  apply (streams_finish service demo_chunks demo_builder [] id journal_default None CHAT_COMPLETIONS_PATH None false
    [init; init; init; init; init]). cbn. lia.
Defined.

Lemma streaming_receipt_truthful_witness :
  exists r t, receipt_id r = st_receipt_id demo_stream /\ signed service r
    /\ by_receipt (receipts (shared (receipt_poll service (demo_last (st_builder demo_stream)) init).2)) !! st_receipt_id demo_stream
       = Some {| sr_receipt := r; sr_owner := None; expires_at := t |}.
Proof.
  destruct demo_stream_Ok as [Hf Hb].
  assert (Hp : forall o, (receipt_poll service (demo_last (st_builder demo_stream)) init).1.1 = o ->
    receipt_poll service (demo_last (st_builder demo_stream)) init
    = (o, (receipt_poll service (demo_last (st_builder demo_stream)) init).1.2,
       (receipt_poll service (demo_last (st_builder demo_stream)) init).2)).
  { intros o <-. rewrite <- !surjective_pairing. reflexivity. }
  destruct (streaming_receipt_truthful service request init demo_stream _ demo_chunks (demo_last (st_builder demo_stream))
    ["data: {}"; "x"] init (Ready None) _ _ Hf (eq_sym Hb) (demo_polled _) (Hp _ demo_last_done))
    as (p & ev & resp & sealed & acts & texts & r & t & _ & _ & _ & _ & _ & _ & _ & Hid & Hsig & Hst & _).
  exists r, t. auto.
Defined.
