(* ===== verification/MiddlewareForward.v ===== *)
(** * The middleware seam of the service

    Model of [src/aggregator/service/middleware.rs]: forwarding over an ordered
    list of candidate routes with failover, and finishing the receipt on the
    response the middleware hands back; with the records of [wire.rs] they use. *)
From S2P Require Import Prelude StrOps Json Serde Canonical Identity Fs Revocation Receipt ReceiptStore Session SessionStore.
From S2P Require Import Upstream AciVerifier Verifiers Claims Errors E2ee E2eeFields Sse Service Forward Streaming.
Import Types.

Record ForwardCandidate := { c_route_id : string; c_body : string }.

(** Routes that failed, with the status, in the order tried. *)
Abbreviation Attempts := (list (string * Z)).

Record MiddlewareForwarded := {
  mf_receipt_id : string;
  mf_receipt : MiddlewareReceiptDraft;
  mf_status : Z;
  mf_body : string;
  mf_headers : gmap string string;
  mf_selected_route : string;
  mf_failed_attempts : Attempts;
  mf_session_id : option string;
}.

Record MiddlewareStreamingForwarded := {
  ms_receipt_id : string;
  ms_status : Z;
  ms_headers : gmap string string;
  ms_body : MiddlewareProviderResponseDraftingStream;
  ms_selected_route : string;
  ms_failed_attempts : Attempts;
  ms_session_id : option string;
}.

Record MiddlewareUpstreamError := {
  mu_error : StreamingUpstreamError;
  mu_selected_route : string;
  mu_failed_attempts : Attempts;
}.

Record MiddlewareAllFailed := { ma_failed_attempts : Attempts; ma_error : ServiceError }.

Inductive MiddlewareForwardResult :=
| MForwarded (f : MiddlewareForwarded)
| MStream (f : MiddlewareStreamingForwarded)
| MUpstreamError (e : MiddlewareUpstreamError)
| MAllFailed (e : MiddlewareAllFailed).

Definition is_retryable_provider_status (status : Z) : bool :=
  existsb (Z.eqb status) [401; 402; 403; 429; 500; 502; 503; 504].

Definition should_fail_over `{SerdeJson} (status : Z) (received upstream : string) : bool :=
  is_retryable_provider_status status
  && match classify_image_input_error received status upstream with None => true | Some _ => false end.

Definition upgrade_err (slot : option (Z * ServiceError)) (priority : Z) (err : ServiceError) : option (Z * ServiceError) :=
  if match slot with Some (p, _) => p <=? priority | None => true end then Some (priority, err) else slot.

Record MiddlewareReceiptInputs := {
  in_receipt_id : string;
  in_chat_id : option string;
  in_model : option string;
  in_served_at : Z;
  in_endpoint_path : string;
  in_received_body : string;
  middleware_forwarded_body : string;
  selected_route_id : string;
  in_forwarded_body : string;
  recorded_event : UpstreamVerifiedEvent;
  in_recorded : option (string * SessionClaims);
}.

(** What becomes of a candidate: it is abandoned with a status and perhaps an
    error to remember, or it answers. *)
Inductive CandidateOutcome (R : Type) :=
| Abandoned (status : Z) (err : option (Z * ServiceError))
| Answered (prepared : PreparedUpstreamRequest) (event : UpstreamVerifiedEvent) (response : R).
Arguments Abandoned {R}.
Arguments Answered {R}.

(** One pass of the loop: the next candidate is tried (with the status
    and error of this one), or the request is answered. *)
Inductive Step := TryNext (status : Z) (err : option (Z * ServiceError)) | Answer_ (r : MiddlewareForwardResult).

Section MiddlewareForward.
Context `{Digest} `{Crypto} `{CurveLibs} `{SerdeJson} `{KeyProvider}.
Context {V S Env : Type} `{SessionStoreOps S}.
Context `{UpstreamVerifier V (Shared S Env Rng)} `{!Outside (Shared S Env Rng)}.
Context (svc : AciService V).

Abbreviation State := (State (S := S) (Env := Env)).
Abbreviation Svc := (Svc (S := S) (Env := Env)).

Definition receipt_prefix_events (i : MiddlewareReceiptInputs) : Build unit :=
  _ ← add_request_received (in_received_body i);
  _ ← add_middleware_forwarded (middleware_forwarded_body i);
  _ ← add_route_selected (selected_route_id i);
  _ ← add_request_forwarded (in_forwarded_body i);
  _ ← (if String.eqb (in_received_body i) (in_forwarded_body i) then mret tt else add_transparency_event RequestModified);
  append_upstream_verified (recorded_event i) (in_recorded i).

Definition build_middleware_receipt_prefix (i : MiddlewareReceiptInputs) : Svc ReceiptBuilder :=
  b ← svc_build (receipt_prefix_events i)
        (new_builder svc (in_receipt_id i) (in_chat_id i) (in_model i) (in_endpoint_path i) (in_served_at i));
  mret b.2.

(** ** Candidates *)

Section Request.
Context (req : ChatCompletionRequest) (single_caller_event : option UpstreamVerifiedEvent) (j : MiddlewareReceiptJournal).

Definition upstream_headers_for : gmap string string :=
  match user_tier (rq_context req) with Some tier => {[ "x-user-tier" := tier ]} | None => ∅ end.

Definition prepare_candidate (c : ForwardCandidate) (st : State) : result UpstreamError PreparedUpstreamRequest :=
  up_prepare {| req_body := c_body c; req_headers := upstream_headers_for; req_path := Some (endpoint_path req);
                target_route_id := Some (c_route_id c) |} (shared st).

Definition is_verification_error (e : ServiceError) : bool :=
  match e with UpstreamVerification _ => true | _ => false end.

Definition routing_priority (e : UpstreamError) : Z := match e with Routing _ => 1 | _ => 2 end.

Definition caller_supplied : bool := match single_caller_event with Some _ => true | None => false end.

Section Send.
Context {R : Type} (fwd : PreparedUpstreamRequest -> UpstreamVerifiedEvent -> Shared S Env Rng ->
  result UpstreamError R * Shared S Env Rng).

(** Verification of a prepared candidate and its forwarding. *)
Definition send_prepared (prepared : PreparedUpstreamRequest) (st : State) : result ServiceError (CandidateOutcome R) * State :=
  let candidate_required := upstream_required_for_prepared prepared (upstream_required req) in
  match recorded_upstream_event svc prepared candidate_required single_caller_event st with
  | (Err e, st) =>
      if is_verification_error e then (Ok (Abandoned 502 (Some (3, e))), st) else (Err e, st)
  | (Ok event, st) =>
      match forward_with_binding_reverify svc fwd prepared candidate_required caller_supplied true event st with
      | (Forwarded response, event, st) => (Ok (Answered prepared event response), st)
      | (RefreshFailed e, _, st) =>
          (Ok (Abandoned 502 (Some (if is_verification_error e then 3 else 2, e))), st)
      | (ForwardFailed e, _, st) => (Ok (Abandoned 502 (Some (2, ServiceUpstream e))), st)
      end
  end.

Definition send_candidate (c : ForwardCandidate) (st : State) : result ServiceError (CandidateOutcome R) * State :=
  match prepare_candidate c st with
  | Err e => (Ok (Abandoned 502 (Some (routing_priority e, ServiceUpstream e))), st)
  | Ok prepared => send_prepared prepared st
  end.
End Send.

(** The facts of a committed candidate that the receipt's prefix records. *)
Definition commit_prefix (c : ForwardCandidate) (prepared : PreparedUpstreamRequest) (event : UpstreamVerifiedEvent)
    (chat served_instance : option string) : Svc (string * option string * ReceiptBuilder) :=
  rid ← generate_receipt_id;
  served_at ← read_clock;
  sealed ← record_attested_upstream_session svc event;
  let recorded := cite_served_session sealed served_instance in
  builder ← build_middleware_receipt_prefix
    {| in_receipt_id := rid; in_chat_id := chat; in_model := user_model (rq_context req); in_served_at := served_at;
       in_endpoint_path := endpoint_path req; in_received_body := received_body req; middleware_forwarded_body := c_body c;
       selected_route_id := c_route_id c; in_forwarded_body := req_body (p_request prepared); recorded_event := event;
       in_recorded := recorded |};
  mret (rid, fst <$> recorded, builder).

Definition commit_buffered (c : ForwardCandidate) (prepared : PreparedUpstreamRequest) (event : UpstreamVerifiedEvent)
    (resp : UpstreamResponse) (failed : Attempts) : Svc MiddlewareForwardResult :=
  let model_ := accepted_response_model (status_code resp) (resp_body resp) in
  prefix ← commit_prefix c prepared event (extract_chat_id (resp_body resp)) (served_instance_id resp);
  let '(rid, session_id_, builder) := prefix in
  let builder := set_upstream_verified_model_id model_ builder in
  b ← svc_build (add_response_received (resp_body resp)) builder;
  mret (MForwarded
    {| mf_receipt_id := rid;
       mf_receipt := {| d_receipt_id := rid; d_builder := b.2; provider_response_hash := b.1;
                        d_endpoint_path := endpoint_path req; request_mode := Buffered; response_model := model_ |};
       mf_status := status_code resp; mf_body := resp_body resp; mf_headers := resp_headers resp;
       mf_selected_route := c_route_id c; mf_failed_attempts := failed; mf_session_id := session_id_ |}).

(** The chunks of the answer arrive with pauses that [pauses] puts in. *)
Definition commit_stream (pauses : list (result UpstreamError string) -> list (option (result UpstreamError string)))
    (c : ForwardCandidate) (prepared : PreparedUpstreamRequest) (event : UpstreamVerifiedEvent)
    (resp : UpstreamStreamResponse) (failed : Attempts) : Svc MiddlewareForwardResult :=
  prefix ← commit_prefix c prepared event None (s_served_instance_id resp);
  let '(rid, session_id_, builder) := prefix in
  mret (MStream
    {| ms_receipt_id := rid; ms_status := s_status_code resp; ms_headers := s_headers resp;
       ms_body := DraftingStream_new (pauses (s_body resp)) builder (reserve_receipt_id rid j) rid (endpoint_path req);
       ms_selected_route := c_route_id c; ms_failed_attempts := failed; ms_session_id := session_id_ |}).

Definition try_buffered (c : ForwardCandidate) (is_last : bool) (failed : Attempts) : Svc Step :=
  out ← send_candidate up_forward c;
  match out with
  | Abandoned status err => mret (TryNext status err)
  | Answered prepared event resp =>
      if negb is_last && should_fail_over (status_code resp) (received_body req) (resp_body resp)
      then mret (TryNext (status_code resp) None)
      else r ← commit_buffered c prepared event resp failed; mret (Answer_ r)
  end.

Definition try_stream (pauses : list (result UpstreamError string) -> list (option (result UpstreamError string)))
    (c : ForwardCandidate) (is_last : bool) (failed : Attempts) : Svc Step :=
  out ← send_candidate up_forward_stream c;
  match out with
  | Abandoned status err => mret (TryNext status err)
  | Answered prepared event resp =>
      if negb (s_status_code resp =? 200) then
        let body := match collect_upstream_body (s_body resp) with Ok b => b | Err _ => "" end in
        if negb is_last && should_fail_over (s_status_code resp) (received_body req) body
        then mret (TryNext (s_status_code resp) None)
        else mret (Answer_ (MUpstreamError
               {| mu_error := {| err_status := s_status_code resp; err_headers := s_headers resp; err_body := body |};
                  mu_selected_route := c_route_id c; mu_failed_attempts := failed |}))
      else r ← commit_stream pauses c prepared event resp failed; mret (Answer_ r)
  end.

Definition is_nil {A} (l : list A) : bool := match l with [] => true | _ => false end.

Fixpoint try_candidates (try_ : ForwardCandidate -> bool -> Attempts -> Svc Step) (route_ids : list string)
    (candidates : list ForwardCandidate) (aggregated : option (Z * ServiceError)) (failed : Attempts) :
    Svc MiddlewareForwardResult :=
  match candidates with
  | [] =>
      let error := match aggregated with
                   | Some (_, e) => e
                   | None => ServiceUpstream (Routing ("all upstream routes failed (attempted: " +:+ str_join ", " route_ids +:+ ")"))
                   end in
      mret (MAllFailed {| ma_failed_attempts := failed; ma_error := error |})
  | c :: candidates =>
      step ← try_ c (is_nil candidates) failed;
      match step with
      | Answer_ r => mret r
      | TryNext status err =>
          let aggregated := match err with Some (p, e) => upgrade_err aggregated p e | None => aggregated end in
          try_candidates try_ route_ids candidates aggregated (failed ++ [(c_route_id c, status)])
      end
  end.
End Request.

Definition forward_chat_completion_for_middleware (req : ChatCompletionRequest) (candidates : list ForwardCandidate)
    (stream : bool) (pauses : list (result UpstreamError string) -> list (option (result UpstreamError string)))
    (j : MiddlewareReceiptJournal) : Svc MiddlewareForwardResult :=
  match candidates with
  | [] => svc_lift (Err (ServiceUpstream (Routing "no candidate routes supplied")))
  | _ =>
      let single := if Nat.eqb (length candidates) 1 then upstream_verification_event req else None in
      let try_ := if stream then try_stream req single j pauses else try_buffered req single in
      try_candidates try_ (map c_route_id candidates) candidates None []
  end.

(** ** Finishing the response *)

Record MiddlewareReceiptFinalization := { fin_receipt : Receipt.Receipt; fin_wire_body : string; fin_e2ee : option E2eeResponseInfo }.
Record MiddlewareGeneratedFinalization := { gen_wire_body : string; gen_e2ee : option E2eeResponseInfo }.

Definition final_wire_body (body : string) (endpoint_ : string) (is_sse : bool) (e2ee : option E2eeRequestContext) : Svc string :=
  match e2ee with
  | Some ctx => svc_encrypt (encrypt_e2ee_final_response ctx endpoint_ body is_sse)
  | None => mret body
  end.

(** The chat id the final body shows, if any. *)
Definition final_body_chat_id (body : string) (is_sse : bool) : option string :=
  if is_sse then sp_chat_id (observe body SseChatIdParser_default) else extract_chat_id body.

Definition finalize_middleware_receipt (draft : MiddlewareReceiptDraft) (body : string) (content_type : option string)
    (requester_ : option ReceiptOwner) (e2ee : option E2eeRequestContext) : Svc MiddlewareReceiptFinalization :=
  let is_sse := is_sse_content_type content_type in
  let builder := match final_body_chat_id body is_sse with
                 | Some c => set_chat_id (Some c) (d_builder draft)
                 | None => d_builder draft
                 end in
  wire_body ← final_wire_body body (d_endpoint_path draft) is_sse e2ee;
  let modified_ := negb (String.eqb (provider_response_hash draft) (sha256_hex body)) || negb (String.eqb wire_body body) in
  b ← svc_build (if modified_ then add_transparency_event ResponseModified else mret tt) builder;
  b ← svc_build (add_response_returned body wire_body) b.2;
  receipt ← svc_lift (sign_receipt_of svc b.2);
  _ ← store_receipt svc receipt requester_;
  mret {| fin_receipt := receipt; fin_wire_body := wire_body; fin_e2ee := response_info e2ee |}.

Definition finalize_middleware_generated_response (endpoint_ body : string) (content_type : option string)
    (e2ee : option E2eeRequestContext) : Svc MiddlewareGeneratedFinalization :=
  wire_body ← final_wire_body body endpoint_ (is_sse_content_type content_type) e2ee;
  mret {| gen_wire_body := wire_body; gen_e2ee := response_info e2ee |}.

Definition finalize_middleware_response_stream (j : MiddlewareReceiptJournal) (answers : list (Answer MiddlewareOwn))
    (end_ : MiddlewareOwn -> MiddlewareOwn) (endpoint_ : string) (content_type : option string)
    (requester_ : option ReceiptOwner) (e2ee : option E2eeRequestContext) :
    result ServiceError (Finalizing MiddlewareOwn * option E2eeResponseInfo) :=
  if match e2ee with Some _ => negb (is_sse_content_type content_type) | None => false end
  then Err (ServiceE2ee EncryptionFailed)
  else Ok (MiddlewareResponseFinalizingStream_new answers end_ j requester_ endpoint_ e2ee
             (match e2ee with Some _ => true | None => false end), response_info e2ee).

(** ** The order of attempts *)

Definition outcome_routes (r : MiddlewareForwardResult) : list string :=
  match r with
  | MForwarded f => map fst (mf_failed_attempts f) ++ [mf_selected_route f]
  | MStream f => map fst (ms_failed_attempts f) ++ [ms_selected_route f]
  | MUpstreamError e => map fst (mu_failed_attempts e) ++ [mu_selected_route e]
  | MAllFailed e => map fst (ma_failed_attempts e)
  end.

Definition is_all_failed (r : MiddlewareForwardResult) : bool := match r with MAllFailed _ => true | _ => false end.

Section Order.
Context (req : ChatCompletionRequest) (single : option UpstreamVerifiedEvent) (j : MiddlewareReceiptJournal).

Definition candidate_sendings : nat := match single with Some _ => 1 | None => Datatypes.S CHANNEL_BINDING_REVERIFY_ATTEMPTS end.

(** The actions for one candidate follow the protocol for its prepared request. *)
Definition candidate_run (c : ForwardCandidate) (acts : list Action) : Prop :=
  acts = [] \/ exists p st, prepare_candidate req c st = Ok p
    /\ run svc p (effective_required svc req p) (start (effective_required svc req p) single) candidate_sendings acts.

Section Sent.
Context {R : Type} (fwd : PreparedUpstreamRequest -> UpstreamVerifiedEvent -> Shared S Env Rng ->
  result UpstreamError R * Shared S Env Rng).

Lemma send_prepared_runs p st res st' :
  send_prepared req single fwd p st = (res, st') ->
  exists acts, performed st st' acts
    /\ run svc p (effective_required svc req p) (start (effective_required svc req p) single) candidate_sendings acts
    /\ forall p' e r, res = Ok (Answered p' e r) -> p' = p /\ sent_last fwd p acts e r.
Proof.
  unfold send_prepared, effective_required. set (ro := upstream_required_for_prepared p (upstream_required req)).
  destruct (recorded_upstream_event svc p ro single st) as [[ev|e] st1] eqn:Hr;
    apply (recorded_clears svc p ro _ candidate_sendings) in Hr as (l1 & Hp1 & Hc); cbn in Hc.
  2: { intros He. exists l1. split; [by destruct (is_verification_error e); injection He as <- <-|]. split; [done|].
       intros p' e' r ->. by destruct (is_verification_error e). }
  destruct Hc as (_ & Hv & Hc). unfold forward_with_binding_reverify.
  destruct (reverify_loop _ _ _ _ _ _ _ _ _) as [[out ev'] st2] eqn:Hl.
  apply reverify_runs in Hl as (l2 & Hp2 & Hrun & Hlast); [|done]. intros Hout.
  assert (st' = st2) as -> by (destruct out; congruence).
  exists (l1 ++ l2). split; [by eapply performed_trans|]. split.
  - apply Hc. unfold caller_supplied, candidate_sendings in *. by destruct single.
  - intros p' event response ->. destruct out as [resp| |]; [|done..]. injection Hout as -> -> ->. split; [done|].
    destruct (Hlast _ eq_refl) as (before & sh & sh' & -> & Hok). exists (l1 ++ before), sh, sh'. by rewrite app_assoc.
Qed.

Lemma send_candidate_runs c st res st' :
  send_candidate req single fwd c st = (res, st') ->
  exists acts, performed st st' acts /\ candidate_run c acts
    /\ forall p e r, res = Ok (Answered p e r) -> prepare_candidate req c st = Ok p /\ sent_last fwd p acts e r.
Proof.
  unfold send_candidate, candidate_run. destruct (prepare_candidate req c st) as [p|e] eqn:Ep.
  - intros (acts & Hp & Hrun & Hans)%send_prepared_runs. exists acts. split; [done|]. split; [right; eauto|].
    intros p' ev r [-> ?]%Hans. done.
  - intros [= <- <-]. exists []. split; [unfold performed; by rewrite app_nil_r|]. split; [by left|done].
Qed.
End Sent.

Lemma silent_commit_prefix c p ev chat inst : silent (commit_prefix req c p ev chat inst).
Proof.
  unfold commit_prefix, build_middleware_receipt_prefix.
  apply silent_bind; [apply silent_id|intros rid]. apply silent_bind; [apply silent_clock|intros at_].
  apply silent_bind; [apply silent_record|intros sealed]. apply silent_bind; [|intros b; apply silent_ret].
  apply silent_bind; [apply silent_build|intros ?; apply silent_ret].
Qed.

Lemma silent_commit_buffered c p ev resp failed : silent (commit_buffered req c p ev resp failed).
Proof.
  unfold commit_buffered. apply silent_bind; [apply silent_commit_prefix|intros [[rid sid] b]].
  apply silent_bind; [apply silent_build|intros ?; apply silent_ret].
Qed.

Lemma silent_commit_stream pauses c p ev resp failed : silent (commit_stream req j pauses c p ev resp failed).
Proof. unfold commit_stream. apply silent_bind; [apply silent_commit_prefix|intros [[rid sid] b]; apply silent_ret]. Qed.

(** What one pass of the loop does. *)
Definition try_orderly (try_ : ForwardCandidate -> bool -> Attempts -> Svc Step) : Prop :=
  forall c last failed st res st', try_ c last failed st = (res, st') ->
    exists acts, performed st st' acts /\ candidate_run c acts
      /\ forall r, res = Ok (Answer_ r) -> outcome_routes r = map fst failed ++ [c_route_id c] /\ is_all_failed r = false.

Lemma silent_after st st1 st' {A} (m : Svc A) acts r : silent m -> performed st st1 acts -> m st1 = (r, st') -> performed st st' acts.
Proof.
  intros Hm Hp Hr. rewrite <- (app_nil_r acts). eapply performed_trans; [done|]. by eapply silent_performed.
Qed.

Lemma try_buffered_orderly : try_orderly (try_buffered req single).
Proof.
  intros c last failed st res st' [(e & Hs & ->)|(out & st1 & Hs & Hk)]%svc_bind_inv;
    apply send_candidate_runs in Hs as (acts & Hp & Hrun & _); exists acts.
  { split; [done|]. split; [done|]. done. }
  destruct out as [status err|p ev resp]; [by injection Hk as <- <-|].
  destruct (_ && _); [by injection Hk as <- <-|].
  split; [eapply silent_after; [|done|exact Hk]|split; [done|]].
  { apply silent_bind; [apply silent_commit_buffered|intros ?; apply silent_ret]. }
  intros r ->. apply svc_bind_Ok in Hk as (r' & st2 & Hc & [= -> _]).
  unfold commit_buffered in Hc. apply svc_bind_Ok in Hc as ([[rid sid] b] & st3 & _ & Hc).
  by apply svc_bind_Ok in Hc as (b' & st4 & _ & [= <- _]).
Qed.

Lemma try_stream_orderly pauses : try_orderly (try_stream req single j pauses).
Proof.
  intros c last failed st res st' [(e & Hs & ->)|(out & st1 & Hs & Hk)]%svc_bind_inv;
    apply send_candidate_runs in Hs as (acts & Hp & Hrun & _); exists acts.
  { split; [done|]. split; [done|]. done. }
  destruct out as [status err|p ev resp]; [by injection Hk as <- <-|].
  destruct (negb _); [cbn zeta in Hk; destruct (_ && _); injection Hk as <- <-; [done|]|].
  { split; [done|]. split; [done|]. by intros r [= <-]. }
  split; [eapply silent_after; [|done|exact Hk]|split; [done|]].
  { apply silent_bind; [apply silent_commit_stream|intros ?; apply silent_ret]. }
  intros r ->. apply svc_bind_Ok in Hk as (r' & st2 & Hc & [= -> _]).
  unfold commit_stream in Hc. by apply svc_bind_Ok in Hc as ([[rid sid] b] & st3 & _ & [= <- _]).
Qed.

Lemma try_candidates_order try_ route_ids candidates agg failed st res st' :
  try_orderly try_ ->
  try_candidates try_ route_ids candidates agg failed st = (res, st') ->
  exists tried rest actss, candidates = tried ++ rest /\ performed st st' (concat actss) /\ Forall2 candidate_run tried actss
    /\ forall r, res = Ok r -> outcome_routes r = map fst failed ++ map c_route_id tried
       /\ (forall e, r = MAllFailed e -> rest = []).
Proof.
  intros Htry. revert agg failed st. induction candidates as [|c candidates IH]; intros agg failed st; cbn [try_candidates].
  { intros [= <- <-]. exists [], [], []. split; [done|]. split; [unfold performed; by rewrite app_nil_r|].
    split; [constructor|]. intros r [= <-]. split; [|done]. cbn. by rewrite app_nil_r. }
  intros [(e & Hs & ->)|(step & st1 & Hs & Hk)]%svc_bind_inv; apply Htry in Hs as (acts & Hp & Hrun & Hans).
  { exists [c], candidates, [acts]. cbn. rewrite app_nil_r. split; [done|]. split; [done|]. split; [by constructor; [|constructor]|]. done. }
  destruct step as [status err|r].
  - apply IH in Hk as (tried & rest & actss & -> & Hp2 & Hruns & Hres). exists (c :: tried), rest, (acts :: actss).
    split; [done|]. split; [by eapply performed_trans|]. split; [by constructor|].
    intros r [Hr Hall]%Hres. split; [|done]. rewrite Hr, map_app. cbn. by rewrite <- app_assoc.
  - injection Hk as <- <-. exists [c], candidates, [acts]. cbn. rewrite app_nil_r. split; [done|]. split; [done|].
    split; [by constructor; [|constructor]|]. intros r' [= <-]. destruct (Hans _ eq_refl) as [Hr Hf]. split; [done|].
    by intros e ->.
Qed.
End Order.

Definition single_event (req : ChatCompletionRequest) (candidates : list ForwardCandidate) : option UpstreamVerifiedEvent :=
  if Nat.eqb (length candidates) 1 then upstream_verification_event req else None.

Lemma candidate_run_verified req single c acts p e failed :
  candidate_run req single c acts -> AForward p e failed ∈ acts -> effective_required svc req p = true -> uv_result e = Verified.
Proof.
  intros [->|(p0 & st & _ & Hrun)] Hin Hreq; [by apply elem_of_nil in Hin|].
  apply (run_forward_cleared _ _ _ _ _ _ _ _ _ Hrun) in Hin as (-> & Hv & _). auto.
Qed.

Lemma concat_elem {A B} (P : A -> list B -> Prop) l ls x :
  Forall2 P l ls -> x ∈ concat ls -> exists a acts, a ∈ l /\ P a acts /\ x ∈ acts.
Proof.
  induction 1 as [|a acts l ls HP _ IH]; cbn; [by intros ?%elem_of_nil|].
  rewrite elem_of_app. intros [Hx|(a' & acts' & ? & ? & ?)%IH]; [exists a, acts|exists a', acts']; rewrite elem_of_cons; auto.
Qed.

(** What the failover does, in order. *)
Lemma for_middleware_runs req candidates stream pauses j st res st' :
  forward_chat_completion_for_middleware req candidates stream pauses j st = (res, st') ->
  exists tried rest actss, candidates = tried ++ rest /\ performed st st' (concat actss)
    /\ Forall2 (candidate_run req (single_event req candidates)) tried actss
    /\ (forall p e failed, AForward p e failed ∈ concat actss -> effective_required svc req p = true -> uv_result e = Verified)
    /\ forall r, res = Ok r -> outcome_routes r = map c_route_id tried /\ (forall e, r = MAllFailed e -> rest = []).
Proof.
  unfold forward_chat_completion_for_middleware. intros Hf.
  assert (exists tried rest actss, candidates = tried ++ rest /\ performed st st' (concat actss)
    /\ Forall2 (candidate_run req (single_event req candidates)) tried actss
    /\ forall r, res = Ok r -> outcome_routes r = map c_route_id tried /\ (forall e, r = MAllFailed e -> rest = []))
    as (tried & rest & actss & -> & Hp & Hruns & Hres).
  { destruct candidates as [|c cs] eqn:Ec.
    { injection Hf as <- <-. exists [], [], []. split; [done|]. split; [unfold performed; by rewrite app_nil_r|].
      split; [constructor|done]. }
    rewrite <- Ec in Hf |- *. cbn zeta in Hf. fold (single_event req candidates) in Hf.
    eapply try_candidates_order in Hf; [exact Hf|]. destruct stream; [apply try_stream_orderly|apply try_buffered_orderly]. }
  exists tried, rest, actss. do 3 (split; [done|]). split; [|done].
  intros p e failed (c & acts & _ & Hc & Hin)%(concat_elem _ _ _ _ Hruns). by apply (candidate_run_verified _ _ _ _ _ _ failed Hc).
Qed.

(** C15: Failover keeps the order and fails closed. The candidates that are tried
    are the first of the list, each once; what is done for each follows the
    protocol of a single request; nothing is sent to a route that requires
    verification but with a verified event; and the answer names the routes that
    were tried, in order, the one that served last, or says that all failed only
    when all were tried. *)
Theorem failover_in_order req candidates stream pauses j st res st' :
  forward_chat_completion_for_middleware req candidates stream pauses j st = (res, st') ->
  exists tried rest actss, candidates = tried ++ rest /\ performed st st' (concat actss)
    /\ Forall2 (candidate_run req (single_event req candidates)) tried actss
    /\ (forall p e failed, AForward p e failed ∈ concat actss -> effective_required svc req p = true -> uv_result e = Verified)
    /\ forall r, res = Ok r -> outcome_routes r = map c_route_id tried /\ (forall e, r = MAllFailed e -> rest = []).
Proof. apply for_middleware_runs. Qed.

(** ** The receipt of a middleware exchange *)

Definition middleware_prefix (req : ChatCompletionRequest) (c : ForwardCandidate) (p : PreparedUpstreamRequest) : list (string * Value) :=
  let sent := req_body (p_request p) in
  [(EVENT_REQUEST_RECEIVED, {{ "body_hash" ≔ Str (sha256_hex (received_body req)) }});
   (EVENT_MIDDLEWARE_FORWARDED, {{ "body_hash" ≔ Str (sha256_hex (c_body c)) }});
   (EVENT_ROUTE_SELECTED, {{ "target_route_id" ≔ Str (c_route_id c) }});
   (EVENT_REQUEST_FORWARDED, {{ "body_hash" ≔ Str (sha256_hex sent) }})]
  ++ modified RequestModified (received_body req) sent.

(** Up to the provider's response. *)
Definition middleware_log (req : ChatCompletionRequest) (c : ForwardCandidate) (p : PreparedUpstreamRequest)
    (event : UpstreamVerifiedEvent) (recorded : option (string * SessionClaims)) (served_model : option string)
    (provider_body : string) : list (string * Value) :=
  let served_model := match served_model with Some m => m | None => "unknown" end in
  middleware_prefix req c p
  ++ [(EVENT_UPSTREAM_VERIFIED, Obj (map_insert "model_id" (Str served_model) (upstream_fields event recorded)));
      (EVENT_RESPONSE_RECEIVED, {{ "cleartext_hash" ≔ Str (sha256_hex provider_body) }})].

Lemma middleware_prefix_types req c p : Forall (fun e => e.1 <> EVENT_UPSTREAM_VERIFIED) (middleware_prefix req c p).
Proof. unfold middleware_prefix, modified. destruct (String.eqb _ _); repeat constructor; done. Qed.

Lemma logs_prefix i :
  logs (receipt_prefix_events i)
    ([(EVENT_REQUEST_RECEIVED, {{ "body_hash" ≔ Str (sha256_hex (in_received_body i)) }})]
     ++ [(EVENT_MIDDLEWARE_FORWARDED, {{ "body_hash" ≔ Str (sha256_hex (middleware_forwarded_body i)) }})]
     ++ [(EVENT_ROUTE_SELECTED, {{ "target_route_id" ≔ Str (selected_route_id i) }})]
     ++ [(EVENT_REQUEST_FORWARDED, {{ "body_hash" ≔ Str (sha256_hex (in_forwarded_body i)) }})]
     ++ modified RequestModified (in_received_body i) (in_forwarded_body i)
     ++ [(EVENT_UPSTREAM_VERIFIED, Obj (upstream_fields (recorded_event i) (in_recorded i)))]).
Proof.
  unfold receipt_prefix_events. do 2 (apply logs_bind; [apply logs_append_ret|intros _]).
  apply logs_bind; [apply logs_append|intros _]. apply logs_bind; [apply logs_append_ret|intros _].
  apply logs_bind; [apply logs_modified|intros _]. apply logs_upstream.
Qed.

Lemma keeps_prefix i : keeps_ids (receipt_prefix_events i).
Proof.
  unfold receipt_prefix_events. do 2 (apply keeps_bind; [apply keeps_append_ret|intros _]).
  apply keeps_bind; [apply keeps_append|intros _]. apply keeps_bind; [apply keeps_append_ret|intros _].
  apply keeps_bind; [destruct (String.eqb _ _); [apply keeps_ret|apply keeps_append]|intros _]. apply keeps_upstream.
Qed.

(** [m] appends between [lo] and [hi] events, counted by the sequence number. *)
Definition adds {A} (m : Build A) (lo hi : Z) : Prop :=
  forall b a b', m b = (Ok a, b') -> 0 <= next_seq b -> next_seq b + hi < u64_max -> next_seq b + lo <= next_seq b' <= next_seq b + hi.

Lemma adds_ret {A} (a : A) hi : 0 <= hi -> adds (mret a) 0 hi.
Proof. intros Hh b a' b' [= _ <-]. lia. Qed.

Lemma adds_append ty f : adds (append ty f) 1 1.
Proof.
  intros b a b'. unfold append. destruct (_ && _); [done|]. destruct (match f with Obj obj => _ | _ => _ end); [done|].
  intros [= _ <-] Hz Hu. cbn. unfold u64_add, u64_max in *. rewrite Z.mod_small; lia.
Qed.

Lemma adds_bind {A B} (m : Build A) (f : A -> Build B) lo1 hi1 lo2 hi2 :
  adds m lo1 hi1 -> (forall a, adds (f a) lo2 hi2) -> 0 <= lo1 -> 0 <= hi2 -> adds (m ≫= f) (lo1 + lo2) (hi1 + hi2).
Proof.
  intros Hm Hf Hlo Hhi b a b'. unfold mbind, build_bind. destruct (m b) as [[a1|e] b1] eqn:E; [|done]. intros Hr Hz Hu.
  apply Hm in E; try lia. apply Hf in Hr; lia.
Qed.

Lemma adds_append_ret {A} ty f (a : A) : adds (append ty f ≫= fun _ => mret a) 1 1.
Proof. apply (adds_bind _ _ 1 1 0 0); [apply adds_append|intros _; by apply adds_ret|done|done]. Qed.

Lemma adds_prefix i : adds (receipt_prefix_events i) 5 6.
Proof.
  unfold receipt_prefix_events.
  apply (adds_bind _ _ 1 1 4 5); [apply adds_append_ret|intros _|done|done].
  apply (adds_bind _ _ 1 1 3 4); [apply adds_append_ret|intros _|done|done].
  apply (adds_bind _ _ 1 1 2 3); [apply adds_append|intros _|done|done].
  apply (adds_bind _ _ 1 1 1 2); [apply adds_append_ret|intros _|done|done].
  apply (adds_bind _ _ 0 1 1 1); [|intros _; unfold append_upstream_verified; destruct (in_recorded i) as [[]|]; apply adds_append|done|done].
  destruct (String.eqb _ _); [by apply adds_ret|]. intros b a b' Hb Hz Hu. apply adds_append in Hb; lia.
Qed.

Lemma commit_prefix_log req c p event chat inst st rid sid b st' :
  commit_prefix req c p event chat inst st = (Ok (rid, sid, b), st') ->
  rb_receipt_id b = rid /\ rb_chat_id b = chat /\ 0 < next_seq b
  /\ exists sealed, sessions_of event sealed
     /\ log_of (rb_events b) = middleware_prefix req c p
          ++ [(EVENT_UPSTREAM_VERIFIED, Obj (upstream_fields event (cite_served_session sealed inst)))].
Proof.
  unfold commit_prefix. intros (rid' & s1 & _ & (at_ & s2 & _ & Hc)%svc_bind_Ok)%svc_bind_Ok.
  apply svc_bind_Ok in Hc as (sealed & s3 & Hsealed%record_sessions & Hc). cbn zeta in Hc.
  apply svc_bind_Ok in Hc as (b' & s4 & Hb & [= <- _ <- _]).
  unfold build_middleware_receipt_prefix in Hb. apply svc_bind_Ok in Hb as ([u b1] & s5 & [Eb _]%svc_build_Ok & [= <- _]).
  apply keeps_prefix in Eb as Hk. pose proof (adds_prefix _ _ _ _ Eb) as Hn.
  apply logs_prefix in Eb. destruct Hk as [-> ->]. split; [done|]. split; [done|]. cbn in Hn. split; [unfold u64_max in Hn; lia|].
  exists sealed. split; [done|]. unfold middleware_prefix. by rewrite <- app_assoc.
Qed.

(** The pass of the loop that answered. *)
Lemma try_candidates_answer req single try_ route_ids candidates agg failed st r st' :
  try_orderly req single try_ -> is_all_failed r = false ->
  try_candidates try_ route_ids candidates agg failed st = (Ok r, st') ->
  exists c last failed' st0 before, c ∈ candidates /\ performed st st0 before /\ try_ c last failed' st0 = (Ok (Answer_ r), st').
Proof.
  intros Htry Hr. revert agg failed st. induction candidates as [|c candidates IH]; intros agg failed st; cbn [try_candidates].
  { intros [= <- <-]. done. }
  intros (step & st1 & Hs & Hk)%svc_bind_Ok. pose proof (Htry _ _ _ _ _ _ Hs) as (acts & Hp & _). destruct step as [status err|r'].
  - apply IH in Hk as (c' & last & failed' & st0 & before & Hin & Hp0 & Ht). exists c', last, failed', st0, (acts ++ before).
    split; [by apply elem_of_cons; right|]. split; [by eapply performed_trans|done].
  - injection Hk as -> ->. exists c, (is_nil candidates), failed, st, []. split; [by apply elem_of_cons; left|].
    split; [unfold performed; by rewrite app_nil_r|done].
Qed.

(** What a committed candidate [c] is: the last thing done is the sending that was
    answered, and the draft's log is of that exchange. *)
Definition committed {R} (fwd : PreparedUpstreamRequest -> UpstreamVerifiedEvent -> Shared S Env Rng ->
      result UpstreamError R * Shared S Env Rng) (inst : R -> option string)
    (req : ChatCompletionRequest) (candidates : list ForwardCandidate) (st st' : State)
    (c : ForwardCandidate) (p : PreparedUpstreamRequest) (event : UpstreamVerifiedEvent) (resp : R)
    (recorded : option (string * SessionClaims)) : Prop :=
  c ∈ candidates /\ exists acts, performed st st' acts /\ sent_last fwd p acts event resp
    /\ exists sealed, sessions_of event sealed /\ recorded = cite_served_session sealed (inst resp).

Lemma sent_last_before {R} (fwd : PreparedUpstreamRequest -> UpstreamVerifiedEvent -> Shared S Env Rng ->
      result UpstreamError R * Shared S Env Rng) p before acts event resp :
  sent_last fwd p acts event resp -> sent_last fwd p (before ++ acts) event resp.
Proof. intros (b & sh & sh' & -> & Hok). exists (before ++ b), sh, sh'. by rewrite app_assoc. Qed.

Lemma for_middleware_answer req candidates stream pauses j st r st' :
  forward_chat_completion_for_middleware req candidates stream pauses j st = (Ok r, st') -> is_all_failed r = false ->
  exists c last failed st0 before, c ∈ candidates /\ performed st st0 before
    /\ (if stream then try_stream req (single_event req candidates) j pauses
        else try_buffered req (single_event req candidates)) c last failed st0 = (Ok (Answer_ r), st').
Proof.
  unfold forward_chat_completion_for_middleware. intros Hf Hr. destruct candidates as [|c0 cs] eqn:Ec; [done|].
  rewrite <- Ec in Hf |- *. cbn zeta in Hf. fold (single_event req candidates) in Hf.
  eapply try_candidates_answer in Hf; [|destruct stream; [apply try_stream_orderly|apply try_buffered_orderly]|done].
  destruct Hf as (c & last & failed & st0 & before & Hin & Hp & Ht). exists c, last, failed, st0, before.
  split; [done|]. split; [done|]. by destruct stream.
Qed.

Lemma forwarded_draft req candidates pauses j st f st' :
  forward_chat_completion_for_middleware req candidates false pauses j st = (Ok (MForwarded f), st') ->
  exists c p event resp recorded,
    committed up_forward served_instance_id req candidates st st' c p event resp recorded
    /\ mf_selected_route f = c_route_id c /\ mf_status f = status_code resp /\ mf_body f = resp_body resp
    /\ provider_response_hash (mf_receipt f) = sha256_hex (resp_body resp)
    /\ rb_receipt_id (d_builder (mf_receipt f)) = mf_receipt_id f
    /\ rb_chat_id (d_builder (mf_receipt f)) = extract_chat_id (resp_body resp)
    /\ log_of (rb_events (d_builder (mf_receipt f)))
       = middleware_log req c p event recorded (accepted_response_model (status_code resp) (resp_body resp)) (resp_body resp).
Proof.
  intros (c & last & failed & st0 & before & Hin & Hp & Ht)%for_middleware_answer; [|done]. cbn beta iota in Ht.
  unfold try_buffered in Ht. apply svc_bind_Ok in Ht as (out & st1 & Hs & Hk).
  apply send_candidate_runs in Hs as (acts & Hp1 & _ & Hans). destruct out as [|p event resp]; [done|].
  destruct (Hans _ _ _ eq_refl) as [_ Hsent]. destruct (_ && _); [done|].
  apply svc_bind_Ok in Hk as (r' & st2 & Hc & [= -> <-]).
  pose proof (silent_after _ _ _ _ _ _ (silent_commit_buffered _ _ _ _ _ _) Hp1 Hc) as Hp2.
  unfold commit_buffered in Hc. cbn zeta in Hc. apply svc_bind_Ok in Hc as ([[rid sid] b] & st3 & Hpre & Hc).
  apply commit_prefix_log in Hpre as (Hrid & Hchat & _ & sealed & Hsealed & Hlog).
  apply svc_bind_Ok in Hc as ([h b'] & st4 & [Eb _]%svc_build_Ok & [= <- _]). cbn.
  exists c, p, event, resp, (cite_served_session sealed (served_instance_id resp)). split.
  { split; [done|]. exists (before ++ acts). split; [by eapply performed_trans|]. split; [by apply sent_last_before|]. eauto. }
  unfold add_response_received, mbind, build_bind in Eb.
  destruct (add_response_received_hash _ _) as [[u|] b1] eqn:E1; [|done]. injection Eb as <- <-.
  apply append_ids in E1 as Hi. destruct Hi as [Hi Hch]. apply logs_append in E1. cbn in Hi, Hch.
  do 4 (split; [done|]). split; [congruence|]. split; [congruence|].
  rewrite E1. cbn [set_upstream_verified_model_id set_events rb_events].
  rewrite (set_model_log _ _ _ _ Hlog (middleware_prefix_types req c p)). unfold middleware_log. by rewrite <- !app_assoc.
Qed.

Lemma finalized_receipt draft body ct owner e2ee (st : State) fin st' :
  finalize_middleware_receipt draft body ct owner e2ee st = (Ok fin, st') ->
  (e2ee = None -> fin_wire_body fin = body)
  /\ signed svc (fin_receipt fin) /\ receipt_id (fin_receipt fin) = rb_receipt_id (d_builder draft)
  /\ log_of (event_log (fin_receipt fin))
     = log_of (rb_events (d_builder draft))
       ++ marked (negb (String.eqb (provider_response_hash draft) (sha256_hex body))
                    || negb (String.eqb (fin_wire_body fin) body))
       ++ returned body (fin_wire_body fin)
  /\ exists t, by_receipt (receipts (shared st')) !! receipt_id (fin_receipt fin)
     = Some {| sr_receipt := fin_receipt fin; sr_owner := owner; expires_at := t |}.
Proof.
  unfold finalize_middleware_receipt. cbn zeta. set (builder := match final_body_chat_id _ _ with Some _ => _ | None => _ end).
  assert (Hb : rb_receipt_id builder = rb_receipt_id (d_builder draft) /\ rb_events builder = rb_events (d_builder draft)).
  { unfold builder. by destruct (final_body_chat_id _ _). }
  clearbody builder. destruct Hb as [Hid Hev].
  intros (wire & s1 & Hw & Hk)%svc_bind_Ok. set (m := _ || _) in Hk.
  apply svc_bind_Ok in Hk as ([u1 b1] & s2 & [E1 ->]%svc_build_Ok & Hk).
  apply svc_bind_Ok in Hk as ([u2 b2] & s3 & [E2 ->]%svc_build_Ok & Hk).
  apply svc_bind_Ok in Hk as (r & s4 & [= Hr ->] & Hk). apply svc_bind_Ok in Hk as (u3 & s5 & Hst & [= <- <-]). cbn [snd fin_receipt fin_wire_body] in *.
  pose proof (sign_receipt_signed _ _ _ Hr) as [Hsig Hlog].
  split; [intros ->; by injection Hw|]. split; [done|]. split; [|split].
  - unfold sign_receipt_of in Hr. destruct (finalize b2 _) as [r'|] eqn:Ef; [|done]. injection Hr as ->.
    apply finalize_ids in Ef as [-> _]. unfold add_response_returned, mbind, build_bind in E2.
    destruct (add_response_returned_hashes _ _ _) as [[u|] b3] eqn:E3; [|done]. injection E2 as _ <-.
    apply append_ids in E3 as [-> _]. rewrite <- Hid.
    destruct m; [by eapply append_ids|by injection E1 as _ ->].
  - rewrite Hlog. apply logs_returned in E2. rewrite E2, <- Hev.
    assert (log_of (rb_events b1) = log_of (rb_events builder) ++ marked m) as ->.
    { destruct m; [by eapply logs_append|by eapply logs_ret]. }
    by rewrite <- app_assoc.
  - unfold store_receipt in Hst. apply svc_bind_Ok in Hst as (now & s6 & _ & [= _ <-]). eexists. cbn.
    unfold put, insert_receipt. cbn. by rewrite lookup_insert_eq.
Qed.

(** The receipt of a buffered exchange through the middleware: it tells of the
    candidate that served and of no other - the bytes the client sent, those the
    middleware made of them for this route, those sent upstream, the event that
    cleared the sending, the hash of the provider's answer - and of the bytes the
    client is given, marked as modified when they are not the provider's; it is
    signed and stored for its requester under the id that was announced. *)
Theorem middleware_receipt_truthful req candidates pauses j st f st1 body ct owner e2ee st2 fin st3 :
  forward_chat_completion_for_middleware req candidates false pauses j st = (Ok (MForwarded f), st1) ->
  finalize_middleware_receipt (mf_receipt f) body ct owner e2ee st2 = (Ok fin, st3) ->
  exists c p event resp recorded t,
    committed up_forward served_instance_id req candidates st st1 c p event resp recorded
    /\ mf_selected_route f = c_route_id c /\ mf_status f = status_code resp /\ mf_body f = resp_body resp
    /\ (e2ee = None -> fin_wire_body fin = body)
    /\ log_of (event_log (fin_receipt fin))
       = middleware_log req c p event recorded (accepted_response_model (status_code resp) (resp_body resp)) (resp_body resp)
         ++ marked (negb (String.eqb (sha256_hex (resp_body resp)) (sha256_hex body))
                      || negb (String.eqb (fin_wire_body fin) body))
         ++ returned body (fin_wire_body fin)
    /\ signed svc (fin_receipt fin) /\ receipt_id (fin_receipt fin) = mf_receipt_id f
    /\ by_receipt (receipts (shared st3)) !! mf_receipt_id f
       = Some {| sr_receipt := fin_receipt fin; sr_owner := owner; expires_at := t |}.
Proof.
  intros (c & p & event & resp & recorded & Hc & Hroute & Hst & Hb & Hph & Hrid & _ & Hlog)%forwarded_draft
    (Hw & Hsig & Hid & Hl & t & Hby)%finalized_receipt.
  exists c, p, event, resp, recorded, t. do 5 (split; [done|]). split; [by rewrite Hl, Hlog, Hph|].
  split; [done|]. rewrite Hrid in Hid. split; [done|]. by rewrite <- Hid.
Qed.

(** A committed stream: the draft the provider's stream will publish. *)
Lemma stream_draft req candidates pauses j st f st' :
  (forall l, omap id (pauses l) = l) ->
  forward_chat_completion_for_middleware req candidates true pauses j st = (Ok (MStream f), st') ->
  exists c p event resp recorded builder chunks,
    committed up_forward_stream s_served_instance_id req candidates st st' c p event resp recorded
    /\ ms_selected_route f = c_route_id c /\ ms_status f = 200 /\ s_body resp = omap id chunks
    /\ ms_body f = DraftingStream_new chunks builder (reserve_receipt_id (ms_receipt_id f) j) (ms_receipt_id f) (endpoint_path req)
    /\ rb_receipt_id builder = ms_receipt_id f /\ 0 < next_seq builder
    /\ log_of (rb_events builder) = middleware_prefix req c p ++ [(EVENT_UPSTREAM_VERIFIED, Obj (upstream_fields event recorded))].
Proof.
  intros Hpauses (c & last & failed & st0 & before & Hin & Hp & Ht)%for_middleware_answer; [|done]. cbn beta iota in Ht.
  unfold try_stream in Ht. apply svc_bind_Ok in Ht as (out & st1 & Hs & Hk).
  apply send_candidate_runs in Hs as (acts & Hp1 & _ & Hans). destruct out as [|p event resp]; [done|].
  destruct (Hans _ _ _ eq_refl) as [_ Hsent]. destruct (Z.eqb_spec (s_status_code resp) 200) as [H200|]; cbn [negb] in Hk.
  2: { cbn zeta in Hk. by destruct (_ && _). }
  apply svc_bind_Ok in Hk as (r' & st2 & Hc & [= -> <-]).
  pose proof (silent_after _ _ _ _ _ _ (silent_commit_stream _ _ _ _ _ _ _ _) Hp1 Hc) as Hp2.
  unfold commit_stream in Hc. apply svc_bind_Ok in Hc as ([[rid sid] b] & st3 & Hpre & [= <- _]).
  apply commit_prefix_log in Hpre as (Hrid & _ & Hseq & sealed & Hsealed & Hlog). cbn.
  exists c, p, event, resp, (cite_served_session sealed (s_served_instance_id resp)), b, (pauses (s_body resp)). split.
  { split; [done|]. exists (before ++ acts). split; [by eapply performed_trans|]. split; [by apply sent_last_before|]. eauto. }
  by rewrite Hpauses.
Qed.

(** The receipt of a stream through the middleware: when the provider's stream
    was read to its end and the middleware's stream then ends with the draft in
    the journal, the stored receipt tells of the candidate that served, of the
    hash of all the provider's bytes, and of the hashes of all the bytes of the
    middleware's stream and of those given to the client; if the draft was never
    published, no receipt appears. *)
Theorem middleware_stream_receipt_truthful req candidates pauses j st f st1 p texts p'
    answers end_ owner endpoint_ e2ee modified_ g out st2 g' st3 :
  (forall l, omap id (pauses l) = l) ->
  forward_chat_completion_for_middleware req candidates true pauses j st = (Ok (MStream f), st1) ->
  drafting_polled (ms_body f) p texts -> drafting_poll p = (Ready None, p') ->
  middleware_polled svc answers end_ j owner endpoint_ e2ee modified_ g out -> middleware_poll svc g st2 = (Ready None, g', st3) ->
  let x := end_ (own_after {| journal := j; response_modified_by_wire := modified_ |} answers) in
  (j_draft (journal x) = None -> kept st2 st3)
  /\ (j_draft (journal x) = j_draft (p_journal p') ->
     exists c q event resp recorded chat b,
       committed up_forward_stream s_served_instance_id req candidates st st1 c q event resp recorded
       /\ s_body resp = map Ok texts /\ rb_receipt_id b = ms_receipt_id f
       /\ stored svc st3 owner chat b
            (middleware_log req c q event recorded (sp_model_id (observe (concat_str texts) SseChatIdParser_default)) (concat_str texts)
             ++ marked (negb (String.eqb (sha256_hex (concat_str texts)) (sha256_hex (concat_str (chunks_of answers))))
                          || response_modified_by_wire x)
             ++ returned (concat_str (chunks_of answers)) (concat_str out))).
Proof.
  intros Hpauses (c & q & event & resp & recorded & builder & chunks & Hcom & _ & _ & Hbody & -> & Hrid & _ & Hlog)%stream_draft; [|done].
  intros Hd Hdp Hm Hmp. apply (drafting_publishes _ _ _ _ _ _ _ _ _ Hd) in Hdp as (Htexts & d & Hj & Hdraft).
  pose proof (middleware_stream_receipt _ _ _ _ _ _ _ _ _ _ _ _ _ _ Hm Hmp) as (_ & _ & Hres). cbn zeta.
  split; [by intros Hn; rewrite Hn in Hres|]. intros Hsame. rewrite Hsame, Hj in Hres. cbn [j_draft] in Hres.
  destruct Hdraft as (_ & _ & Hph & _ & _ & Hid & _ & Hdl).
  exists c, q, event, resp, recorded. eexists _, _. split; [done|]. split; [congruence|].
  rewrite Hph, Hdl in Hres. cbn [set_upstream_verified_model_id set_events rb_events] in Hres.
  rewrite (set_model_log _ _ _ _ Hlog (middleware_prefix_types req c q)) in Hres.
  split; [|unfold middleware_log; rewrite <- !app_assoc in *; exact Hres]. congruence.
Qed.
End MiddlewareForward.

(** ** A concrete exchange over two candidates *)

Import DemoForward.

Definition demo_candidates : list ForwardCandidate := [{| c_route_id := "a"; c_body := "for a" |}; {| c_route_id := "b"; c_body := "for b" |}].

Abbreviation demo_pauses := (map (fun c => Some c)).

Lemma demo_pauses_id {A} (l : list A) : omap id (demo_pauses l) = l.
Proof. induction l as [|a l IH]; cbn; [done|]. by f_equal. Qed.

Abbreviation demo_run stream := (forward_chat_completion_for_middleware service request demo_candidates stream demo_pauses journal_default init).

Lemma answered_forwarded {St} (x : result ServiceError MiddlewareForwardResult * St) :
  match x.1 with Ok (MForwarded _) => true | _ => false end = true -> exists f, x = (Ok (MForwarded f), x.2).
Proof. destruct x as [[[f| | |]|] s]; try done. by exists f. Qed.

Definition is_stream (r : result ServiceError MiddlewareForwardResult) : bool :=
  match r with Ok (MStream _) => true | _ => false end.

Lemma answered_stream {St} (x : result ServiceError MiddlewareForwardResult * St) :
  is_stream x.1 = true -> exists f, x = (Ok (MStream f), x.2).
Proof. destruct x as [[[|f| |]|] s]; try done. by exists f. Qed.

Lemma failover_in_order_witness :
  exists tried rest actss, demo_candidates = tried ++ rest /\ performed init (demo_run false).2 (concat actss)
    /\ Forall2 (candidate_run service request None) tried actss.
Proof.
  destruct (failover_in_order service request demo_candidates false demo_pauses journal_default init
    (demo_run false).1 (demo_run false).2 (surjective_pairing _)) as (tried & rest & actss & Hc & Hp & Hr & _).
  exists tried, rest, actss. split; [exact Hc|]. split; [exact Hp|exact Hr].
Defined.

Definition demo_draft (r : result ServiceError MiddlewareForwardResult) : option MiddlewareReceiptDraft :=
  match r with Ok (MForwarded f) => Some (mf_receipt f) | _ => None end.

Abbreviation demo_finish d := (finalize_middleware_receipt service d "answer" None None None init).

Lemma demo_finish_Ok : match demo_draft (demo_run false).1 with
                       | Some d => match (demo_finish d).1 with Ok _ => true | Err _ => false end
                       | None => false end = true.
Proof. vm_compute. reflexivity. Qed.

Lemma middleware_receipt_truthful_witness :
  exists f fin, demo_run false = (Ok (MForwarded f), (demo_run false).2)
    /\ demo_finish (mf_receipt f) = (Ok fin, (demo_finish (mf_receipt f)).2)
    /\ exists c p event resp recorded,
       committed up_forward served_instance_id request demo_candidates init (demo_run false).2 c p event resp recorded
       /\ mf_selected_route f = c_route_id c /\ fin_wire_body fin = "answer" /\ signed service (fin_receipt fin)
       /\ receipt_id (fin_receipt fin) = mf_receipt_id f.
Proof.
  pose proof demo_finish_Ok as Hd. destruct (answered_forwarded (demo_run false)) as [f Hf].
  { revert Hd. generalize (demo_run false). intros [[[]|] s]; done. }
  rewrite Hf in Hd. cbn [fst demo_draft] in Hd. destruct (is_ok_pair _ Hd) as [fin Hfin].
  exists f, fin. split; [exact Hf|]. split; [exact Hfin|].
  destruct (middleware_receipt_truthful service request demo_candidates demo_pauses journal_default init f _
    "answer" None None None init fin _ Hf Hfin) as (c & p & ev & resp & rec & t & Hc & Hr & _ & _ & Hw & _ & Hsig & Hid & _).
  exists c, p, ev, resp, rec. split; [exact Hc|]. split; [exact Hr|]. split; [exact (Hw eq_refl)|]. split; [exact Hsig|exact Hid].
Defined.

(** The same as a stream: two chunks from the provider, one from the middleware. *)

Definition demo_streamed (r : result ServiceError MiddlewareForwardResult) : MiddlewareProviderResponseDraftingStream :=
  match r with Ok (MStream f) => ms_body f | _ => DraftingStream_new [] demo_builder journal_default "" "" end.

Abbreviation demo_p0 := (demo_streamed (demo_run true).1).
Abbreviation demo_p1 := ((drafting_poll demo_p0).2).
Abbreviation demo_p2 := ((drafting_poll demo_p1).2).

Lemma demo_p0_poll : (drafting_poll demo_p0).1 = Ready (Some (Ok "data: {}")).
Proof. vm_compute. reflexivity. Qed.

Lemma demo_p1_poll : (drafting_poll demo_p1).1 = Ready (Some (Ok "x")).
Proof. vm_compute. reflexivity. Qed.

Lemma demo_p2_poll : (drafting_poll demo_p2).1 = Ready None.
Proof. vm_compute. reflexivity. Qed.

Lemma demo_drafting : drafting_polled demo_p0 demo_p2 ["data: {}"; "x"].
Proof.
  eapply (drafting_chunk _ demo_p1 ["data: {}"]).
  - eapply (drafting_chunk _ demo_p0 []); [apply drafting_start|]. rewrite <- demo_p0_poll. apply surjective_pairing.
  - rewrite <- demo_p1_poll. apply surjective_pairing.
Qed.

(** The provider's stream has ended when the middleware's does. *)
Definition demo_end (j : MiddlewareReceiptJournal) (x : MiddlewareOwn) : MiddlewareOwn :=
  {| journal := j; response_modified_by_wire := response_modified_by_wire x |}.

Lemma demo_end_draft j x : j_draft (journal (demo_end j x)) = j_draft j.
Proof. reflexivity. Qed.

Definition demo_middle (j : MiddlewareReceiptJournal) : Finalizing MiddlewareOwn :=
  poll_in (middleware_finalize service) middleware_taken [init]
    (MiddlewareResponseFinalizingStream_new [{| answer := Some (Ok "y"); effect := id |}] (demo_end j) journal_default None
       CHAT_COMPLETIONS_PATH None false).

Lemma demo_middle_polled j :
  middleware_polled service [{| answer := Some (Ok "y"); effect := id |}] (demo_end j) journal_default None CHAT_COMPLETIONS_PATH
    None false (demo_middle j) ["y"].
Proof. eapply polled_chunk with (out := []) (st := init); [apply polled_start|reflexivity]. Qed.

Abbreviation demo_journal := (p_journal (drafting_poll demo_p2).2).

Lemma demo_middle_done : (middleware_poll service (demo_middle demo_journal) init).1.1 = Ready None.
Proof. vm_compute. reflexivity. Qed.

Lemma demo_streams : is_stream (demo_run true).1 = true.
Proof. vm_compute. reflexivity. Qed.

Lemma middleware_stream_receipt_truthful_witness :
  exists f, demo_run true = (Ok (MStream f), (demo_run true).2)
    /\ exists chat b l, rb_receipt_id b = ms_receipt_id f
       /\ stored service (middleware_poll service (demo_middle demo_journal) init).2 None chat b l.
Proof.
  destruct (answered_stream (demo_run true) demo_streams) as [f Hf]. exists f. split; [exact Hf|].
  assert (Hbody : ms_body f = demo_p0) by (rewrite Hf; reflexivity).
  assert (Hp : forall o, (middleware_poll service (demo_middle demo_journal) init).1.1 = o ->
    middleware_poll service (demo_middle demo_journal) init
    = (o, (middleware_poll service (demo_middle demo_journal) init).1.2,
       (middleware_poll service (demo_middle demo_journal) init).2)).
  { intros o <-. rewrite <- !surjective_pairing. reflexivity. }
  assert (Hend : drafting_poll demo_p2 = (Ready None, (drafting_poll demo_p2).2)).
  { rewrite <- demo_p2_poll. apply surjective_pairing. }
  destruct (middleware_stream_receipt_truthful service request demo_candidates demo_pauses journal_default init f _
    demo_p2 ["data: {}"; "x"] _ _ (demo_end demo_journal) None CHAT_COMPLETIONS_PATH None false (demo_middle demo_journal) ["y"]
    init _ _ demo_pauses_id Hf (eq_rect_r (fun p => drafting_polled p demo_p2 _) demo_drafting Hbody) Hend
    (demo_middle_polled demo_journal) (Hp _ demo_middle_done)) as [_ Hs].
  destruct (Hs (demo_end_draft _ _)) as (c & q & ev & resp & rec & chat & b & _ & _ & Hrid & Hst).
  exists chat, b. eexists. split; [exact Hrid|exact Hst].
Defined.
