(* ===== verification/JsonWf.v ===== *)
(** * Well-formed JSON, constructively

    The lemmas and the hint database that show that a value the gateway builds is
    well formed: its strings are UTF-8, the keys of its objects are distinct and its
    numbers are ones the data model has. *)
From S2P Require Import Prelude StrOps Json Serde Identity.

(** ** Splitting text at an ASCII byte *)

Lemma split_by_cons_ne p s : exists l ls, split_by p s = l :: ls.
Proof. destruct s as [|c s]; cbn; [eauto|]. destruct (p c); [eauto|]. destruct (split_by p s); eauto. Qed.

Lemma split_by_app_free p a s :
  string_forallb (fun c => negb (p c)) a = true ->
  exists l ls, split_by p s = l :: ls /\ split_by p (a +:+ s) = (a +:+ l) :: ls.
Proof.
  induction a as [|c a IH]; cbn; [intros _; destruct (split_by_cons_ne p s) as (l & ls & ->); eauto|].
  intros [Hc Ha]%andb_prop. destruct (IH Ha) as (l & ls & Hs & ->). apply negb_true_iff in Hc. rewrite Hc. eauto.
Qed.

(** An ASCII separator never occurs inside the bytes of another character. *)
Lemma encode_utf8_free sep c :
  is_scalar c -> is_ascii sep = true -> N_of_ascii sep <> c ->
  string_forallb (fun x => negb (Ascii.eqb sep x)) (encode_utf8 c) = true.
Proof.
  intros Hc Hs Hne. unfold is_scalar in Hc. unfold is_ascii in Hs. apply N.ltb_lt in Hs.
  assert (Hb : forall n, (n < 256)%N -> N_of_ascii sep <> n -> negb (Ascii.eqb sep (byte n)) = true).
  { intros n Hn Hd. apply negb_true_iff. apply Ascii.eqb_neq. intros ->. apply Hd. unfold byte. by rewrite N_ascii_embedding. }
  unfold encode_utf8. destruct (N.ltb_spec c 0x80); [|destruct (N.ltb_spec c 0x800); [|destruct (N.ltb_spec c 0x10000)]];
    cbn [string_forallb]; rewrite !Hb; try done; try lia.
Qed.

Lemma encode_utf8_ascii c : (c < 128)%N -> encode_utf8 c = String (byte c) "".
Proof. intros Hc. unfold encode_utf8. destruct (N.ltb_spec c 0x80); [done|lia]. Qed.

Lemma split_by_valid sep s :
  is_ascii sep = true -> valid_utf8 s -> Forall valid_utf8 (split_by (Ascii.eqb sep) s).
Proof.
  intros Hs (cs & Hcs & ->). induction Hcs as [|c cs Hc Hcs IH]; cbn [of_chars].
  - constructor; [by apply valid_utf8b_sound|constructor].
  - destruct (N.eq_dec (N_of_ascii sep) c) as [<-|Hne].
    + rewrite encode_utf8_ascii by (by apply N.ltb_lt in Hs). cbn. unfold byte. rewrite ascii_N_embedding, Ascii.eqb_refl.
      constructor; [by apply valid_utf8b_sound|done].
    + destruct (split_by_app_free (Ascii.eqb sep) (encode_utf8 c) (of_chars cs)) as (l & ls & Hl & ->);
        [by apply encode_utf8_free|].
      rewrite Hl in IH. inversion IH; subst. constructor; [|done]. apply valid_utf8_app; [|done].
      rewrite <- (string_app_nil_r (encode_utf8 c)). apply (valid_utf8_of_chars [c]). by constructor.
Qed.

(** ** Reading and building *)

Definition wf_all (l : list Value) : Prop := Forall wf_value l.
Definition wf_some (o : option Value) : Prop := match o with Some v => wf_value v | None => True end.

Lemma wf_get v k : wf_value v -> wf_some (get v k).
Proof.
  destruct v as [| | | | |m]; try done. intros [_ HF]%wf_value_Obj. cbn.
  destruct (map_get k m) as [w|] eqn:E; [|done]. apply map_get_Some in E. rewrite Forall_forall in HF. by destruct (HF _ E).
Qed.

Lemma wf_get_Some v k w : get v k = Some w -> wf_value v -> wf_value w.
Proof. intros Hk Hv. pose proof (wf_get v k Hv) as Hw. by rewrite Hk in Hw. Qed.

Lemma wf_get_bind o k : wf_some o -> wf_some (o ≫= fun v => get v k).
Proof. destruct o as [v|]; [apply wf_get|done]. Qed.

Lemma wf_as_str o s : wf_some o -> o ≫= as_str = Some s -> valid_utf8 s.
Proof. by destruct o as [[| | | | |]|]; intros Hv [= <-]. Qed.

Lemma wf_as_array o l : wf_some o -> o ≫= as_array = Some l -> wf_all l.
Proof. destruct o as [[| | | | |]|]; intros Hv [= <-]. by apply wf_value_Arr. Qed.

Lemma wf_cons x l : wf_value x -> wf_all l -> wf_all (x :: l).
Proof. by constructor. Qed.

Lemma wf_nil : wf_all [].
Proof. constructor. Qed.

Lemma wf_app l1 l2 : wf_all l1 -> wf_all l2 -> wf_all (l1 ++ l2).
Proof. unfold wf_all. rewrite Forall_app. auto. Qed.

Lemma wf_map (f : Value -> Value) l : (forall v, wf_value v -> wf_value (f v)) -> wf_all l -> wf_all (map f l).
Proof. intros Hf Hl. apply Forall_fmap. eapply Forall_impl; [exact Hl|exact Hf]. Qed.

Lemma wf_concat_map (f : Value -> list Value) l :
  (forall v, wf_value v -> wf_all (f v)) -> wf_all l -> wf_all (List.concat (map f l)).
Proof. intros Hf. induction 1; cbn; [apply wf_nil|]. apply wf_app; auto. Qed.

Lemma wf_filter p l : wf_all l -> wf_all (List.filter p l).
Proof. induction 1 as [|x l Hx _ IH]; cbn; [apply wf_nil|]. destruct (p x); [by apply wf_cons|done]. Qed.

Lemma wf_fold (f : list Value -> Value -> list Value) l acc :
  (forall acc v, wf_all acc -> wf_value v -> wf_all (f acc v)) -> wf_all l -> wf_all acc -> wf_all (fold_left f l acc).
Proof. intros Hf Hl. revert acc. induction Hl; cbn; auto. Qed.

Lemma wf_from_i64 m : i64_min <= m <= i64_max -> wf_value (from_i64 m).
Proof. unfold from_i64, i64_min, i64_max. intros Hm. cbn. destruct (Z.ltb_spec m 0); cbn; unfold is_u64, u64_max, i64_min; lia. Qed.

Lemma wf_Arr l : wf_all l -> wf_value (Arr l).
Proof. apply wf_value_Arr. Qed.

Lemma valid_utf8_Str s : wf_value (Str s) -> valid_utf8 s.
Proof. done. Qed.

Lemma str_join_valid sep l : valid_utf8 sep -> Forall valid_utf8 l -> valid_utf8 (str_join sep l).
Proof.
  intros Hs. induction 1 as [|s l Hv Hl IH]; [by apply valid_utf8b_sound|].
  destruct l as [|t l]; cbn [str_join]; [done|]. auto using valid_utf8_app.
Qed.

Create HintDb wf.
#[export] Hint Resolve wf_get wf_get_bind wf_cons wf_nil wf_app wf_map wf_concat_map wf_filter wf_Arr wf_value_insert valid_utf8_app str_join_valid : wf.
#[export] Hint Extern 0 => assumption : wf.
#[export] Hint Extern 1 (valid_utf8 _) => (apply valid_utf8b_sound; reflexivity) : wf.
#[export] Hint Extern 1 (wf_value (Str _)) => (cbn [wf_value]) : wf.
#[export] Hint Extern 1 (wf_value Null) => exact I : wf.
#[export] Hint Extern 1 (wf_value (Bool _)) => exact I : wf.
#[export] Hint Extern 1 (wf_value _) => (apply wf_valueb_sound; reflexivity) : wf.
#[export] Hint Extern 1 (wf_some None) => exact I : wf.
#[export] Hint Extern 1 (wf_some (Some _)) => (cbn [wf_some]) : wf.

(** Object literals: the keys are closed. *)
Ltac wf_entries :=
  apply wf_Obj_entries; [reflexivity|];
  repeat (apply Forall_cons; split; [split; cbn [fst snd]|]); [..|constructor].
#[export] Hint Extern 2 (wf_value (Obj (_ :: _))) => wf_entries : wf.
#[export] Hint Extern 2 (wf_value (Obj [])) => (apply wf_valueb_sound; reflexivity) : wf.

Ltac wf := eauto 12 with wf.
