(* ===== verification/RequestTransform.v ===== *)
(** * Request shaping

    Model of [src/middleware/request_transform.rs]: the engine that writes a
    provider's request from a table of parameters, the tables, and the
    translations between the OpenAI and the Anthropic shape of messages, tools
    and tool choices. *)
From S2P Require Import Prelude StrOps Json Serde Float Router.

Definition PDF_MIME : string := "application/pdf".
Definition TXT_MIME : string := "text/plain".
Definition SYSTEM_MESSAGE_ROLES : list string := ["system"; "developer"].
Definition LF : string := String (byte 10) "".

Definition label (e : Endpoint) : string :=
  match e with
  | ChatComplete => "chatComplete"
  | Complete => "complete"
  | Embed => "embed"
  | Messages => "messages"
  | CreateModelResponse => "createModelResponse"
  end.

Inductive TransformError := Unsupported (format : ProviderFormat) (endpoint : Endpoint) | InvalidRequest (message : string).

Definition TransformError_display (e : TransformError) : string :=
  match e with
  | Unsupported f endpoint =>
      label endpoint +:+ " is not supported by " +:+ match f with FmtOpenai => "openai" | FmtAnthropic => "anthropic" end
  | InvalidRequest message => message
  end.

Definition TransformFn : Type := Value -> result TransformError (option Value).

Record ParamConfig := {
  param : string;
  default_ : option Value;
  min_ : option Z;
  max_ : option Z;
  required_ : bool;
  transform : option TransformFn;
}.

Definition pc (p : string) : ParamConfig :=
  {| param := p; default_ := None; min_ := None; max_ := None; required_ := false; transform := None |}.

Definition with_default (v : Value) (c : ParamConfig) : ParamConfig :=
  {| param := param c; default_ := Some v; min_ := min_ c; max_ := max_ c; required_ := required_ c; transform := transform c |}.
Definition with_min (m : Z) (c : ParamConfig) : ParamConfig :=
  {| param := param c; default_ := default_ c; min_ := Some m; max_ := max_ c; required_ := required_ c; transform := transform c |}.
Definition with_max (m : Z) (c : ParamConfig) : ParamConfig :=
  {| param := param c; default_ := default_ c; min_ := min_ c; max_ := Some m; required_ := required_ c; transform := transform c |}.
Definition require (c : ParamConfig) : ParamConfig :=
  {| param := param c; default_ := default_ c; min_ := min_ c; max_ := max_ c; required_ := true; transform := transform c |}.
Definition with_transform (t : TransformFn) (c : ParamConfig) : ParamConfig :=
  {| param := param c; default_ := default_ c; min_ := min_ c; max_ := max_ c; required_ := required_ c; transform := Some t |}.

Abbreviation ProviderConfig := (list (string * list ParamConfig)).

(** Rust's method chains. *)
Notation "c '.>' f" := (f c) (at level 40, left associativity, only parsing).

(** ** The engine *)

Definition num_as_f64 (n : Number) : spec_float :=
  match n with PosInt u => f64_of_Z u | NegInt i => f64_of_Z i | Float f => f end.

Definition substitute_default (c : ParamConfig) (v : Value) : Value :=
  match v with
  | Str s => if String.eqb s "gateway-default" then match default_ c with Some d => d | None => v end else v
  | _ => v
  end.

Definition clamp (c : ParamConfig) (v : Value) : Value :=
  match v with
  | Num n =>
      let f := num_as_f64 n in
      let below := match min_ c with Some m => if SFltb f (f64_of_Z m) then Some m else None | None => None end in
      let above := match max_ c with Some m => if SFltb (f64_of_Z m) f then Some m else None | None => None end in
      match below, above with
      | Some m, _ => from_i64 m
      | None, Some m => from_i64 m
      | None, None => v
      end
  | _ => v
  end.

Definition get_value (input_key : string) (params : Value) (c : ParamConfig) : result TransformError (option Value) :=
  v ← (match transform c with Some t => t params | None => Ok (get params input_key) end);
  Ok (match v with Some v => Some (clamp c (substitute_default c v)) | None => None end).

Definition as_map (v : Value) : list (string * Value) := match v with Obj m => m | _ => [] end.

(** The assignment along the path; a value that is no object is replaced by one. *)
Fixpoint set_nested (parts : list string) (value obj : Value) : Value :=
  match parts with
  | [] => obj
  | [part] => Obj (map_insert part value (as_map obj))
  | part :: parts =>
      let m := as_map obj in
      let child := match map_get part m with Some v => v | None => Obj [] end in
      Obj (map_insert part (set_nested parts value child) m)
  end.

Definition path_parts (path : string) : list string := split_by (Ascii.eqb ".") path.

Definition set_nested_property (obj : Value) (path : string) (value : Value) : Value :=
  set_nested (path_parts path) value obj.

(** One parameter of one entry. *)
Definition apply_param (params : Value) (input_key : string) (out : Value) (c : ParamConfig) : result TransformError Value :=
  match get params input_key with
  | Some _ =>
      v ← get_value input_key params c;
      Ok (match v with Some v => set_nested_property out (param c) v | None => out end)
  | None =>
      Ok (if required_ c then match default_ c with Some d => set_nested_property out (param c) d | None => out end else out)
  end.

Fixpoint apply_params (params : Value) (input_key : string) (cs : list ParamConfig) (out : Value) : result TransformError Value :=
  match cs with
  | [] => Ok out
  | c :: cs => out ← apply_param params input_key out c; apply_params params input_key cs out
  end.

Fixpoint apply_config (params : Value) (config : ProviderConfig) (out : Value) : result TransformError Value :=
  match config with
  | [] => Ok out
  | (input_key, cs) :: config => out ← apply_params params input_key cs out; apply_config params config out
  end.

Definition transform_using_provider_config (config : ProviderConfig) (params : Value) : result TransformError Value :=
  apply_config params config (Obj []).

Definition is_true (o : option Value) : bool := match o with Some (Bool true) => true | _ => false end.

Definition inject_stream_options (params : Value) : Value :=
  if negb (is_true (get params "stream")) then params
  else if is_true (get params "stream_options" ≫= fun so => get so "include_usage") then params
  else
    match params with
    | Obj m =>
        let so := match map_get "stream_options" m with Some v => v | None => Obj [] end in
        Obj (map_insert "stream_options" (Obj (map_insert "include_usage" (Bool true) (as_map so))) m)
    | _ => params
    end.

(** ** Shared helpers *)

Definition is_system_role (role : string) : bool := existsb (String.eqb role) SYSTEM_MESSAGE_ROLES.

Definition truthy (v : Value) : bool :=
  match v with
  | Null => false
  | Bool b => b
  | Num n => negb (SFeqb (num_as_f64 n) Float.zero)
  | Str s => negb (String.eqb s "")
  | Arr _ | Obj _ => true
  end.

Definition truthy_opt (o : option Value) : bool := match o with Some v => truthy v | None => false end.

Definition str_or_empty (o : option Value) : string := match o ≫= as_str with Some s => s | None => "" end.

Definition or_null (o : option Value) : Value := match o with Some v => v | None => Null end.
Definition or_else (d : Value) (o : option Value) : Value := match o with Some v => v | None => d end.

(** The text of a field, and whether it is this one. *)
Definition str_of (v : Value) (k : string) : option string := get v k ≫= as_str.
Definition has_type (v : Value) (t : string) : bool := bool_decide (str_of v "type" = Some t).

(** Entries added to an object as the source inserts them one by one. *)
Definition with_field (k : string) (o : option Value) (m : list (string * Value)) : list (string * Value) :=
  match o with Some v => map_insert k v m | None => m end.

Definition ephemeral (v : Value) : option Value :=
  match get v "cache_control" with Some _ => Some ({{ "type" ≔ Str "ephemeral" }}) | None => None end.

(** ** OpenAI chat completions to Anthropic messages *)

Section ToAnthropic.
Context `{SerdeJson}.

Definition tool_call_input (call : Value) : result TransformError Value :=
  match get call "function" ≫= fun f => str_of f "arguments" with
  | Some s =>
      if String.eqb s "" then Ok (Obj [])
      else map_err (fun e => InvalidRequest ("invalid tool call arguments: " +:+ e)) (from_slice s)
  | None => Ok (Obj [])
  end.

Definition tool_use_block (call : Value) : result TransformError Value :=
  input ← tool_call_input call;
  let m := [("type", Str "tool_use"); ("name", or_null (get call "function" ≫= fun f => get f "name"));
            ("id", or_null (get call "id")); ("input", input)] in
  Ok (Obj (with_field "cache_control" (get call "cache_control") m)).

Fixpoint tool_use_blocks (calls : list Value) : result TransformError (list Value) :=
  match calls with
  | [] => Ok []
  | call :: calls => b ← tool_use_block call; bs ← tool_use_blocks calls; Ok (b :: bs)
  end.

Definition assistant_content (msg : Value) : list Value :=
  match (match get msg "content_blocks" with Some v => Some v | None => get msg "content" end) with
  | Some (Str s) => if String.eqb s "" then [] else [ {{ "type" ≔ Str "text"; "text" ≔ Str s }} ]
  | Some (Arr items) => List.filter (fun item => negb (has_type item "tool_use")) items
  | _ => []
  end.

Definition transform_assistant_message (msg : Value) : result TransformError Value :=
  blocks ← (match get msg "tool_calls" ≫= as_array with Some calls => tool_use_blocks calls | None => Ok [] end);
  Ok ({{ "role" ≔ or_null (get msg "role"); "content" ≔ Arr (assistant_content msg ++ blocks) }}).

Definition transform_tool_message (msg : Value) : Value :=
  let tool_use_id := match get msg "tool_call_id" with Some Null | None => Str "" | Some v => v end in
  let block := Obj (with_field "content" (get msg "content") [("type", Str "tool_result"); ("tool_use_id", tool_use_id)]) in
  {{ "role" ≔ Str "user"; "content" ≔ Arr [block] }}.

(** The part a data URL becomes. *)
Definition data_url_block (item : Value) (url : string) : option Value :=
  match split_by (Ascii.eqb ";") url with
  | [head_; tail_] =>
      let base64_image := match split_by (Ascii.eqb ",") tail_ with _ :: d :: _ => d | _ => "" end in
      match split_by (Ascii.eqb ":") head_ with
      | [_; media_type] =>
          if String.eqb base64_image "" then None
          else
            let block_type := if String.eqb media_type PDF_MIME then "document" else "image" in
            Some (Obj (with_field "cache_control" (ephemeral item)
                    [("type", Str block_type);
                     ("source", {{ "type" ≔ Str "base64"; "media_type" ≔ Str media_type; "data" ≔ Str base64_image }})]))
      | _ => None
      end
  | _ => None
  end.

Definition append_image_content_item (item : Value) (content : list Value) : list Value :=
  match get item "image_url" ≫= fun iu => str_of iu "url" with
  | None => content
  | Some url =>
      if String.eqb url "" then content
      else if negb (starts_with "data:" url) then
        content ++ [ {{ "type" ≔ Str "image"; "source" ≔ {{ "type" ≔ Str "url"; "url" ≔ Str url }} }} ]
      else match data_url_block item url with Some b => content ++ [b] | None => content end
  end.

Definition append_file_data (file : option Value) (content : list Value) : list Value :=
  match file ≫= fun f => get f "file_data" with
  | Some data =>
      if truthy data then
        let mime := match file ≫= fun f => str_of f "mime_type" with Some m => m | None => PDF_MIME end in
        let content_type := if String.eqb mime TXT_MIME then "text" else "base64" in
        content ++ [ {{ "type" ≔ Str "document";
                        "source" ≔ {{ "type" ≔ Str content_type; "data" ≔ data; "media_type" ≔ Str mime }} }} ]
      else content
  | None => content
  end.

Definition append_file_content_item (item : Value) (content : list Value) : list Value :=
  let file := get item "file" in
  match file ≫= fun f => get f "file_url" with
  | Some url =>
      if truthy url then
        content ++ [ {{ "type" ≔ Str "document"; "source" ≔ {{ "type" ≔ Str "url"; "url" ≔ url }} }} ]
      else append_file_data file content
  | None => append_file_data file content
  end.

(** One item of a user message. *)
Definition append_user_item (content : list Value) (item : Value) : list Value :=
  if has_type item "text" then
    content ++ [Obj (with_field "cache_control" (ephemeral item) (with_field "text" (get item "text") [("type", Str "text")]))]
  else if has_type item "image_url" then append_image_content_item item content
  else if has_type item "file" then append_file_content_item item content
  else content.

Definition transform_user_message (role : string) (msg : Value) : Value :=
  match get msg "content" with
  | Some (Arr (i :: items)) => {{ "role" ≔ Str role; "content" ≔ Arr (fold_left append_user_item (i :: items) []) }}
  | content => Obj (with_field "content" content [("role", Str role)])
  end.

Definition transform_message (msg : Value) : result TransformError (list Value) :=
  let role := str_or_empty (get msg "role") in
  if is_system_role role then Ok []
  else if String.eqb role "assistant" then m ← transform_assistant_message msg; Ok [m]
  else if String.eqb role "tool" then Ok [transform_tool_message msg]
  else Ok [transform_user_message role msg].

Fixpoint transform_messages (msgs : list Value) : result TransformError (list Value) :=
  match msgs with
  | [] => Ok []
  | msg :: msgs => m ← transform_message msg; ms ← transform_messages msgs; Ok (m ++ ms)
  end.

Definition messages_of (params : Value) : list Value :=
  match get params "messages" ≫= as_array with Some l => l | None => [] end.

Definition anthropic_messages : TransformFn := fun params =>
  ms ← transform_messages (messages_of params); Ok (Some (Arr ms)).

Definition system_entry (block : Value) : Value :=
  Obj (with_field "cache_control" (ephemeral block) (with_field "text" (get block "text") [("type", Str "text")])).

Definition system_blocks (msg : Value) : list Value :=
  if negb (is_system_role (str_or_empty (get msg "role"))) then []
  else
    match get msg "content" with
    | Some (Arr items) =>
        if truthy_opt (head items ≫= fun b => get b "text") then map system_entry items else []
    | Some (Str s) => [ {{ "type" ≔ Str "text"; "text" ≔ Str s }} ]
    | _ => []
    end.

Definition anthropic_system : TransformFn := fun params =>
  Ok (Some (Arr (List.concat (map system_blocks (messages_of params))))).

Definition function_tool (tool function : Value) : Value :=
  let parameters := get function "parameters" in
  let field k d := or_else d (parameters ≫= fun p => get p k) in
  let schema := {{ "type" ≔ field "type" (Str "object"); "properties" ≔ field "properties" (Obj []);
                   "required" ≔ field "required" (Arr []); "$defs" ≔ field "$defs" (Obj []) }} in
  Obj (with_field "cache_control" (ephemeral tool)
         [("name", or_null (get function "name")); ("description", Str (str_or_empty (get function "description")));
          ("input_schema", schema)]).

Definition typed_tool (tool : Value) (tool_type : string) : Value :=
  let options := get tool tool_type in
  let entry := match options with Some (Obj m) => m | _ => [] end in
  let entry := map_insert "name" (Str tool_type) entry in
  let entry := with_field "type" (options ≫= fun o => get o "name") entry in
  Obj (with_field "cache_control" (ephemeral tool) entry).

Definition tool_entries (tool : Value) : list Value :=
  match get tool "function" with
  | Some function => [function_tool tool function]
  | None => match str_of tool "type" with Some t => [typed_tool tool t] | None => [] end
  end.

Definition anthropic_tools : TransformFn := fun params =>
  let tools := match get params "tools" ≫= as_array with Some l => l | None => [] end in
  Ok (Some (Arr (List.concat (map tool_entries tools)))).

Definition anthropic_tool_choice : TransformFn := fun params =>
  Ok (Some match get params "tool_choice" with
           | Some (Str s) =>
               if String.eqb s "required" then {{ "type" ≔ Str "any" }}
               else if String.eqb s "auto" then {{ "type" ≔ Str "auto" }}
               else Null
           | Some (Obj m) =>
               {{ "type" ≔ Str "tool"; "name" ≔ or_null (map_get "function" m ≫= fun f => get f "name") }}
           | _ => Null
           end).

(** ** Anthropic's legacy completions *)

Definition anthropic_complete_prompt : TransformFn := fun params =>
  Ok (Some (Str (LF +:+ LF +:+ "Human: " +:+ str_or_empty (get params "prompt") +:+ LF +:+ LF +:+ "Assistant:"))).

Definition anthropic_complete_stop : TransformFn := fun params =>
  Ok match get params "stop" with Some Null => Some (Arr []) | Some v => Some v | None => None end.

(** ** Anthropic messages to OpenAI chat completions *)

Definition system_message (params : Value) : list Value :=
  let message text := if String.eqb text "" then [] else [ {{ "role" ≔ Str "system"; "content" ≔ Str text }} ] in
  match get params "system" with
  | Some (Str s) => message s
  | Some (Arr blocks) => message (str_join LF (omap (fun b => str_of b "text") (List.filter (fun b => has_type b "text") blocks)))
  | _ => []
  end.

(** What the blocks of one message collect. *)
Record Collected := { col_content : list Value; col_tool_calls : list Value; col_tool_results : list (Value * option Value) }.

Definition collected_nil : Collected := {| col_content := []; col_tool_calls := []; col_tool_results := [] |}.

Definition add_content (v : Value) (c : Collected) : Collected :=
  {| col_content := col_content c ++ [v]; col_tool_calls := col_tool_calls c; col_tool_results := col_tool_results c |}.
Definition add_tool_call (v : Value) (c : Collected) : Collected :=
  {| col_content := col_content c; col_tool_calls := col_tool_calls c ++ [v]; col_tool_results := col_tool_results c |}.
Definition add_tool_result (r : Value * option Value) (c : Collected) : Collected :=
  {| col_content := col_content c; col_tool_calls := col_tool_calls c; col_tool_results := col_tool_results c ++ [r] |}.

(** [source] when it is truthy, with its type. *)
Definition source_of (block : Value) : option (Value * option string) :=
  match get block "source" with Some s => if truthy s then Some (s, str_of s "type") else None | None => None end.

Definition image_url_part (url : string) : Value :=
  {{ "type" ≔ Str "image_url"; "image_url" ≔ {{ "url" ≔ Str url }} }}.

Definition file_part (key : string) (source : Value) (field : string) : Value :=
  {{ "type" ≔ Str "file"; "file" ≔ Obj [(key, or_null (get source field)); ("mime_type", or_null (get source "media_type"))] }}.

Definition tool_call_of (block : Value) : Value :=
  let input := or_else (Obj []) (get block "input") in
  let arguments := match to_vec input with Ok s => s | Err _ => "{}" end in
  {{ "id" ≔ Str (str_or_empty (get block "id")); "type" ≔ Str "function";
     "function" ≔ {{ "name" ≔ Str (str_or_empty (get block "name")); "arguments" ≔ Str arguments }} }}.

Definition collect_block (c : Collected) (block : Value) : Collected :=
  match str_of block "type" with
  | None => c
  | Some t =>
      if String.eqb t "text" then
        match get block "text" with
        | Some _ => add_content ({{ "type" ≔ Str "text"; "text" ≔ Str (str_or_empty (get block "text")) }}) c
        | None => c
        end
      else if String.eqb t "image" then
        match source_of block with
        | Some (source, Some st) =>
            if String.eqb st "base64" then
              add_content (image_url_part ("data:" +:+ str_or_empty (get source "media_type") +:+ ";base64,"
                                             +:+ str_or_empty (get source "data"))) c
            else if String.eqb st "url" then add_content (image_url_part (str_or_empty (get source "url"))) c
            else c
        | _ => c
        end
      else if String.eqb t "tool_use" then
        match get block "id", get block "name" with
        | Some _, Some _ => add_tool_call (tool_call_of block) c
        | _, _ => c
        end
      else if String.eqb t "tool_result" then
        match get block "tool_use_id" with
        | Some _ =>
            let content_value := match get block "content" with
                                 | Some (Str s) => Some (Str s)
                                 | Some v => Some (Str match to_vec v with Ok s => s | Err _ => "" end)
                                 | None => None
                                 end in
            add_tool_result (Str (str_or_empty (get block "tool_use_id")), content_value) c
        | None => c
        end
      else if String.eqb t "document" then
        match source_of block with
        | Some (source, Some st) =>
            if String.eqb st "url" then add_content (file_part "file_url" source "url") c
            else if String.eqb st "base64" || String.eqb st "text" then add_content (file_part "file_data" source "data") c
            else c
        | _ => c
        end
      else c
  end.

(** The message of the collected content and tool calls. *)
Definition collected_message (role : Value) (c : Collected) : list Value :=
  match col_content c, col_tool_calls c with
  | [], [] => []
  | content, calls =>
      let m := [("role", role)] in
      let m := match content with
               | [] => m
               | [part] => map_insert "content" (if has_type part "text" then or_else (Str "") (get part "text") else Arr [part]) m
               | parts => map_insert "content" (Arr parts) m
               end in
      let m := match calls with
               | [] => m
               | calls =>
                   let m := map_insert "tool_calls" (Arr calls) m in
                   if truthy_opt (map_get "content" m) then m else map_insert "content" (Str "") m
               end in
      [Obj m]
  end.

Definition tool_result_message (r : Value * option Value) : Value :=
  Obj (with_field "content" r.2 [("role", Str "tool"); ("tool_call_id", r.1)]).

Definition oai_message (msg : Value) : list Value :=
  let role := or_null (get msg "role") in
  match get msg "content" with
  | Some (Str s) => [ {{ "role" ≔ role; "content" ≔ Str s }} ]
  | Some (Arr blocks) =>
      let c := fold_left collect_block blocks collected_nil in
      collected_message role c ++ map tool_result_message (col_tool_results c)
  | _ => []
  end.

Definition oai_transform_messages : TransformFn := fun params =>
  Ok (Some (Arr (system_message params ++ List.concat (map oai_message (messages_of params))))).
End ToAnthropic.

Definition empty_schema : Value := {{ "type" ≔ Str "object"; "properties" ≔ Obj []; "required" ≔ Arr [] }}.

Definition nonempty (o : option string) : option string :=
  match o with Some s => if String.eqb s "" then None else Some s | None => None end.

Definition oai_tool (tool : Value) : Value :=
  let schema := get tool "input_schema" in
  let function := if truthy_opt (get tool "type") && negb (truthy_opt schema) then
      let tool_type := str_or_empty (get tool "type") in
      {{ "name" ≔ Str match nonempty (str_of tool "name") with Some n => n | None => tool_type end;
         "description" ≔ Str match nonempty (str_of tool "description") with Some d => d | None => tool_type +:+ " tool" end;
         "parameters" ≔ empty_schema }}
    else
      {{ "name" ≔ or_null (get tool "name"); "description" ≔ Str (str_or_empty (get tool "description"));
         "parameters" ≔ if truthy_opt schema then or_null schema else empty_schema }} in
  {{ "type" ≔ Str "function"; "function" ≔ function }}.

Definition oai_transform_tools : TransformFn := fun params =>
  Ok match get params "tools" ≫= as_array with
     | Some (t :: tools) => Some (Arr (map oai_tool (t :: tools)))
     | _ => None
     end.

Definition oai_transform_tool_choice : TransformFn := fun params =>
  Ok match get params "tool_choice" with
     | Some choice =>
         if negb (truthy choice) then None
         else
           match str_of choice "type" with
           | Some t =>
               if String.eqb t "auto" then Some (Str "auto")
               else if String.eqb t "any" then Some (Str "required")
               else if String.eqb t "tool" then
                 Some match nonempty (str_of choice "name") with
                      | Some name => {{ "type" ≔ Str "function"; "function" ≔ {{ "name" ≔ Str name }} }}
                      | None => Str "required"
                      end
               else None
           | None => None
           end
     | None => None
     end.

Definition oai_transform_stop_sequences : TransformFn := fun params =>
  Ok match get params "stop_sequences" ≫= as_array with Some (s :: l) => Some (Arr (s :: l)) | _ => None end.

Definition oai_user_from_metadata : TransformFn := fun params => Ok (get params "metadata" ≫= fun m => get m "user_id").

Definition map_sglang_reasoning_effort : TransformFn := fun params =>
  Ok match get params "reasoning_effort" with
     | Some (Str effort) =>
         Some (Str (if String.eqb effort "minimal" then "low" else if String.eqb effort "xhigh" then "max" else effort))
     | other => other
     end.

(** ** The tables *)

Section Tables.
Context `{SerdeJson}.

Definition openai_chat_complete_base : ProviderConfig :=
  [("model", [pc "model" .> with_default (Str "gpt-3.5-turbo") .> require]);
   ("messages", [pc "messages" .> with_default (Str "")]); ("functions", [pc "functions"]);
   ("function_call", [pc "function_call"]);
   ("max_tokens", [pc "max_tokens" .> with_default (from_u64 100) .> with_min (0)]);
   ("temperature", [pc "temperature" .> with_default (from_u64 1) .> with_min (0) .> with_max (2)]);
   ("top_p", [pc "top_p" .> with_default (from_u64 1) .> with_min (0) .> with_max (1)]);
   ("n", [pc "n" .> with_default (from_u64 1)]); ("stream", [pc "stream" .> with_default (Bool false)]);
   ("stop", [pc "stop"]); ("presence_penalty", [pc "presence_penalty" .> with_min (-2) .> with_max (2)]);
   ("frequency_penalty", [pc "frequency_penalty" .> with_min (-2) .> with_max (2)]); ("logit_bias", [pc "logit_bias"]);
   ("user", [pc "user"]); ("seed", [pc "seed"]); ("tools", [pc "tools"]); ("tool_choice", [pc "tool_choice"]);
   ("response_format", [pc "response_format"]); ("logprobs", [pc "logprobs" .> with_default (Bool false)]);
   ("top_logprobs", [pc "top_logprobs"]); ("stream_options", [pc "stream_options"]);
   ("service_tier", [pc "service_tier"]); ("parallel_tool_calls", [pc "parallel_tool_calls"]);
   ("max_completion_tokens", [pc "max_completion_tokens"]); ("store", [pc "store"]); ("metadata", [pc "metadata"]);
   ("modalities", [pc "modalities"]); ("audio", [pc "audio"]); ("prediction", [pc "prediction"]);
   ("reasoning_effort", [pc "reasoning_effort"]); ("web_search_options", [pc "web_search_options"]);
   ("prompt_cache_key", [pc "prompt_cache_key"]); ("safety_identifier", [pc "safety_identifier"]);
   ("verbosity", [pc "verbosity"])].

Definition openai_chat_complete_config (e : option Engine) : ProviderConfig :=
  match e with
  | None => openai_chat_complete_base
  | Some e =>
      let config := openai_chat_complete_base ++
        [("top_k", [pc "top_k"]); ("min_p", [pc "min_p"]); ("repetition_penalty", [pc "repetition_penalty"]);
         ("chat_template_kwargs", [pc "chat_template_kwargs"])] in
      match e with
      | Sglang =>
          map (fun entry => if String.eqb entry.1 "reasoning_effort"
                            then (entry.1, [pc "reasoning_effort" .> with_transform map_sglang_reasoning_effort]) else entry) config
      | Vllm => config
      end
  end.

Definition openai_complete_config : ProviderConfig :=
  [("model", [pc "model" .> with_default (Str "text-davinci-003") .> require]);
   ("prompt", [pc "prompt" .> with_default (Str "")]);
   ("max_tokens", [pc "max_tokens" .> with_default (from_u64 100) .> with_min (0)]);
   ("temperature", [pc "temperature" .> with_default (from_u64 1) .> with_min (0) .> with_max (2)]);
   ("top_p", [pc "top_p" .> with_default (from_u64 1) .> with_min (0) .> with_max (1)]);
   ("n", [pc "n" .> with_default (from_u64 1)]); ("stream", [pc "stream" .> with_default (Bool false)]);
   ("stream_options", [pc "stream_options"]); ("logprobs", [pc "logprobs" .> with_max (5)]);
   ("echo", [pc "echo" .> with_default (Bool false)]); ("stop", [pc "stop"]);
   ("presence_penalty", [pc "presence_penalty" .> with_min (-2) .> with_max (2)]);
   ("frequency_penalty", [pc "frequency_penalty" .> with_min (-2) .> with_max (2)]); ("best_of", [pc "best_of"]);
   ("logit_bias", [pc "logit_bias"]); ("user", [pc "user"]); ("seed", [pc "seed"]); ("suffix", [pc "suffix"])].

Definition openai_embed_config : ProviderConfig :=
  [("model", [pc "model" .> with_default (Str "text-embedding-ada-002") .> require]);
   ("input", [pc "input" .> require]); ("encoding_format", [pc "encoding_format"]); ("dimensions", [pc "dimensions"]);
   ("user", [pc "user"])].

Definition openai_create_model_response_config : ProviderConfig :=
  [("input", [pc "input" .> require]); ("model", [pc "model" .> require]); ("background", [pc "background"]);
   ("include", [pc "include"]); ("instructions", [pc "instructions"]); ("max_output_tokens", [pc "max_output_tokens"]);
   ("metadata", [pc "metadata"]); ("modalities", [pc "modalities"]);
   ("parallel_tool_calls", [pc "parallel_tool_calls"]); ("previous_response_id", [pc "previous_response_id"]);
   ("prompt", [pc "prompt"]); ("prompt_cache_key", [pc "prompt_cache_key"]); ("reasoning", [pc "reasoning"]);
   ("store", [pc "store"]); ("stream", [pc "stream"]); ("temperature", [pc "temperature"]); ("text", [pc "text"]);
   ("tool_choice", [pc "tool_choice"]); ("tools", [pc "tools"]); ("top_p", [pc "top_p"]);
   ("truncation", [pc "truncation"]); ("user", [pc "user"]); ("verbosity", [pc "verbosity"])].

Definition openai_to_anthropic_messages_config : ProviderConfig :=
  [("model", [pc "model" .> require]);
   ("messages", [pc "messages" .> require .> with_transform oai_transform_messages]);
   ("max_tokens", [pc "max_tokens" .> require]); ("temperature", [pc "temperature" .> with_min (0) .> with_max (2)]);
   ("top_p", [pc "top_p" .> with_min (0) .> with_max (1)]); ("top_k", [pc "top_k"]);
   ("stream", [pc "stream" .> with_default (Bool false)]); ("stream_options", [pc "stream_options"]);
   ("stop_sequences", [pc "stop" .> with_transform oai_transform_stop_sequences]);
   ("tools", [pc "tools" .> with_transform oai_transform_tools]);
   ("tool_choice", [pc "tool_choice" .> with_transform oai_transform_tool_choice]);
   ("metadata", [pc "user" .> with_transform oai_user_from_metadata])].

Definition anthropic_chat_complete_config : ProviderConfig :=
  [("model", [pc "model" .> with_default (Str "claude-2.1") .> require]);
   ("messages", [pc "messages" .> require .> with_transform anthropic_messages; pc "system" .> with_transform anthropic_system]);
   ("tools", [pc "tools" .> with_transform anthropic_tools]);
   ("tool_choice", [pc "tool_choice" .> with_transform anthropic_tool_choice]);
   ("max_tokens", [pc "max_tokens" .> require]); ("max_completion_tokens", [pc "max_tokens"]);
   ("temperature", [pc "temperature" .> with_default (from_u64 1) .> with_min (0) .> with_max (1)]);
   ("top_p", [pc "top_p" .> with_default (from_i64 (-1)) .> with_min (-1)]);
   ("top_k", [pc "top_k" .> with_default (from_i64 (-1))]); ("stop", [pc "stop_sequences"]);
   ("stream", [pc "stream" .> with_default (Bool false)]); ("user", [pc "metadata.user_id"]);
   ("thinking", [pc "thinking"])].

Definition anthropic_complete_config : ProviderConfig :=
  [("model", [pc "model" .> with_default (Str "claude-instant-1") .> require]);
   ("prompt", [pc "prompt" .> require .> with_transform anthropic_complete_prompt]);
   ("max_tokens", [pc "max_tokens_to_sample" .> require]);
   ("temperature", [pc "temperature" .> with_default (from_u64 1) .> with_min (0) .> with_max (1)]);
   ("top_p", [pc "top_p" .> with_default (from_i64 (-1)) .> with_min (-1)]);
   ("top_k", [pc "top_k" .> with_default (from_i64 (-1))]);
   ("stop", [pc "stop_sequences" .> with_transform anthropic_complete_stop]);
   ("stream", [pc "stream" .> with_default (Bool false)]); ("user", [pc "metadata.user_id"])].

Definition anthropic_messages_config : ProviderConfig :=
  [("model", [pc "model" .> require]); ("messages", [pc "messages" .> require]);
   ("max_tokens", [pc "max_tokens" .> require]); ("container", [pc "container"]); ("mcp_servers", [pc "mcp_servers"]);
   ("metadata", [pc "metadata"]); ("service_tier", [pc "service_tier"]); ("stop_sequences", [pc "stop_sequences"]);
   ("stream", [pc "stream"]); ("system", [pc "system"]); ("temperature", [pc "temperature"]);
   ("thinking", [pc "thinking"]); ("tool_choice", [pc "tool_choice"]); ("tools", [pc "tools"]);
   ("top_k", [pc "top_k"]); ("top_p", [pc "top_p"])].

Definition select_config (f : ProviderFormat) (endpoint : Endpoint) (e : option Engine) : result TransformError ProviderConfig :=
  match f, endpoint with
  | FmtOpenai, ChatComplete => Ok (openai_chat_complete_config e)
  | FmtOpenai, Complete => Ok openai_complete_config
  | FmtOpenai, Embed => Ok openai_embed_config
  | FmtOpenai, Messages => Ok openai_to_anthropic_messages_config
  | FmtOpenai, CreateModelResponse => Ok openai_create_model_response_config
  | FmtAnthropic, Complete => Ok anthropic_complete_config
  | FmtAnthropic, ChatComplete => Ok anthropic_chat_complete_config
  | FmtAnthropic, Messages => Ok anthropic_messages_config
  | FmtAnthropic, Embed | FmtAnthropic, CreateModelResponse => Err (Unsupported f endpoint)
  end.

Definition transform_to_provider_request (f : ProviderFormat) (params : Value) (endpoint : Endpoint) (e : option Engine) :
    result TransformError Value :=
  let params := inject_stream_options params in
  config ← select_config f endpoint e;
  transform_using_provider_config config params.

Fixpoint build_candidates (params : Value) (endpoint : Endpoint) (candidates : list RouteCandidate) :
    result TransformError (list (string * Value)) :=
  match candidates with
  | [] => Ok []
  | c :: candidates =>
      body ← transform_to_provider_request (format c) params endpoint (engine c);
      rest ← build_candidates params endpoint candidates;
      Ok ((rc_route_id c, body) :: rest)
  end.
End Tables.

(** ** What a shaped request holds *)

(** The value parameter [c] of entry [key] gives, when it gives one. *)
Definition gives (params : Value) (key : string) (c : ParamConfig) (v : Value) : Prop :=
  (is_Some (get params key) /\ exists v0,
     match transform c with Some t => t params | None => Ok (get params key) end = Ok (Some v0)
     /\ v = clamp c (substitute_default c v0))
  \/ (get params key = None /\ required_ c = true /\ default_ c = Some v).

(** [k] of the output was written by a parameter of the table. *)
Definition accounted (config : ProviderConfig) (params : Value) (k : string) (v : Value) : Prop :=
  exists key cs c, (key, cs) ∈ config /\ c ∈ cs /\ head (path_parts (param c)) = Some k
    /\ (path_parts (param c) = [k] -> gives params key c v)
    /\ (path_parts (param c) <> [k] -> exists m, v = Obj m).

Definition all_accounted (config : ProviderConfig) (params : Value) (out : Value) : Prop :=
  exists m, out = Obj m /\ forall k v, map_get k m = Some v -> accounted config params k v.

Lemma set_nested_get parts v obj : parts <> [] ->
  exists m, set_nested parts v obj = Obj m
    /\ forall k w, map_get k m = Some w ->
       (head parts = Some k /\ (parts = [k] -> w = v) /\ (parts <> [k] -> exists m', w = Obj m')) \/ (head parts <> Some k /\ get obj k = Some w).
Proof.
  destruct parts as [|p ps]; [done|]. intros _.
  assert (Hins : forall x k w, map_get k (map_insert p x (as_map obj)) = Some w ->
    (k = p /\ w = x) \/ (k <> p /\ get obj k = Some w)).
  { intros x k w. rewrite map_get_insert. destruct (String.eqb_spec k p) as [->|]; [intros [= ->]; by left|].
    intros Hg. right. split; [done|]. by destruct obj. }
  destruct ps as [|p' ps]; cbn [set_nested]; eexists; (split; [done|]); intros k w [[-> ->]|[? ?]]%Hins; cbn.
  - left. do 2 (split; [done|]). by intros [].
  - right. split; [congruence|done].
  - left. split; [done|]. split; [done|]. intros _. destruct ps; cbn; eauto.
  - right. split; [congruence|done].
Qed.

Lemma split_by_nonempty p s : split_by p s <> [].
Proof. destruct s as [|c s]; cbn; [done|]. destruct (p c); [done|]. by destruct (split_by p s). Qed.

Lemma set_property_accounted config params key cs c v out :
  (key, cs) ∈ config -> c ∈ cs -> gives params key c v ->
  all_accounted config params out -> all_accounted config params (set_nested_property out (param c) v).
Proof.
  intros Hk Hc Hg (m & -> & Hm). unfold set_nested_property.
  destruct (set_nested_get (path_parts (param c)) v (Obj m)) as (m' & -> & Hm'); [apply split_by_nonempty|].
  exists m'. split; [done|]. intros k w [(Hh & Hw & Ho)|[_ Hold]]%Hm'; [|by apply Hm].
  exists key, cs, c. do 3 (split; [done|]). split; [|done]. intros Hp. by rewrite (Hw Hp).
Qed.

Lemma apply_param_accounted config params key cs c out out' :
  (key, cs) ∈ config -> c ∈ cs -> apply_param params key out c = Ok out' ->
  all_accounted config params out -> all_accounted config params out'.
Proof.
  intros Hk Hc Ha Hout. unfold apply_param in Ha. destruct (get params key) as [x|] eqn:Hx.
  - apply result_bind_Ok in Ha as (v & Hv & [= <-]). destruct v as [v|]; [|done].
    eapply set_property_accounted; [done..| |done]. left. rewrite Hx. split; [done|].
    unfold get_value in Hv. apply result_bind_Ok in Hv as (v0 & Hv0 & [= Hv]). destruct v0 as [v0|]; [|done].
    injection Hv as <-. rewrite Hx in Hv0. eauto.
  - injection Ha as <-. destruct (required_ c) eqn:Hr; [|done]. destruct (default_ c) as [d|] eqn:Hd; [|done].
    eapply set_property_accounted; [done..| |done]. right. auto.
Qed.

Lemma apply_params_accounted config params key all cs out out' :
  (key, all) ∈ config -> cs ⊆ all -> apply_params params key cs out = Ok out' ->
  all_accounted config params out -> all_accounted config params out'.
Proof.
  intros Hk. revert out. induction cs as [|c cs IH]; intros out Hsub; cbn [apply_params]; [by intros [= <-]|].
  intros (o & Ho & Hr)%result_bind_Ok Hout. eapply IH; [set_solver|done|].
  eapply apply_param_accounted; [done| |done|done]. set_solver.
Qed.

Lemma apply_config_accounted all params config out out' :
  config ⊆ all -> apply_config params config out = Ok out' -> all_accounted all params out -> all_accounted all params out'.
Proof.
  revert out. induction config as [|[key cs] config IH]; intros out Hsub; cbn [apply_config]; [by intros [= <-]|].
  intros (o & Ho & Hr)%result_bind_Ok Hout. eapply IH; [set_solver|done|].
  eapply (apply_params_accounted _ _ key cs cs); [set_solver|done|done|done].
Qed.

Lemma transform_accounted config params out :
  transform_using_provider_config config params = Ok out -> all_accounted config params out.
Proof.
  intros Ht. eapply (apply_config_accounted config); [done|exact Ht|]. by exists [].
Qed.

(** Only what the table of the upstream names is forwarded: the shaped request
    is an object, each of its fields is one the table writes, and a field that is
    not nested holds what the table says - the client's value (or what the entry's
    translation makes of it) with the sentinel replaced and numbers clamped, or
    the default of a required parameter the client left out. *)
Theorem request_fields_accounted `{SerdeJson} f params endpoint e out :
  transform_to_provider_request f params endpoint e = Ok out ->
  exists config m, select_config f endpoint e = Ok config /\ out = Obj m
    /\ forall k v, map_get k m = Some v -> accounted config (inject_stream_options params) k v.
Proof.
  unfold transform_to_provider_request. intros (config & Hc & Ht)%result_bind_Ok.
  apply transform_accounted in Ht as (m & -> & Hm). eauto.
Qed.

(** A client's request: a streaming chat with an out-of-range temperature and a
    field no table names. *)
Definition demo_request : Value :=
  {{ "model" ≔ Str "m"; "temperature" ≔ from_u64 9; "stream" ≔ Bool true; "user" ≔ Str "u";
     "messages" ≔ Arr [ {{ "role" ≔ Str "user"; "content" ≔ Str "hi" }} ]; "secret" ≔ Str "s" }}.

Definition demo_shaped : Value :=
  Eval vm_compute in
    match @transform_to_provider_request demo_serde FmtAnthropic demo_request ChatComplete None with Ok v => v | Err _ => Null end.

Lemma demo_shaped_ok : @transform_to_provider_request demo_serde FmtAnthropic demo_request ChatComplete None = Ok demo_shaped.
Proof. vm_compute. reflexivity. Qed.

Lemma request_fields_accounted_witness :
  exists config m, @select_config demo_serde FmtAnthropic ChatComplete None = Ok config /\ demo_shaped = Obj m /\ map_get "secret" m = None
    /\ forall k v, map_get k m = Some v -> accounted config (inject_stream_options demo_request) k v.
Proof.
  destruct (request_fields_accounted (H := demo_serde) FmtAnthropic demo_request ChatComplete None demo_shaped demo_shaped_ok)
    as (config & m & Hc & Hout & Hm).
  exists config, m. split; [exact Hc|]. split; [exact Hout|]. split; [|exact Hm].
  injection Hout as <-. reflexivity.
Defined.

(** ** Numbers *)

(** The number is within the bounds of the parameter. *)
Definition within (c : ParamConfig) (n : Number) : Prop :=
  (forall lo, min_ c = Some lo -> SFltb (num_as_f64 n) (f64_of_Z lo) = false)
  /\ (forall hi, max_ c = Some hi -> SFltb (f64_of_Z hi) (num_as_f64 n) = false).

(** The bounds of an entry make sense, and its default is no number. *)
Definition sane (c : ParamConfig) : bool :=
  match min_ c, max_ c with Some lo, Some hi => negb (SFltb (f64_of_Z hi) (f64_of_Z lo)) | _, _ => true end
  && negb (required_ c && match default_ c with Some (Num _) => true | _ => false end).

Lemma SFltb_irrefl x : SFltb x x = false.
Proof.
  unfold SFltb, SFcompare. destruct x as [| [] | |[] m ex]; try done;
    rewrite Z.compare_refl, Pos.compare_cont_refl; done.
Qed.

Lemma num_as_f64_of_i64 m : num_as_f64 (if m <? 0 then NegInt m else PosInt m) = f64_of_Z m.
Proof. by destruct (m <? 0). Qed.

Lemma clamp_within c v n : sane c = true -> clamp c v = Num n -> within c n.
Proof.
  intros [Hs _]%andb_prop. unfold clamp, within. destruct v as [| |n0| | |]; try done.
  destruct (min_ c) as [lo|], (max_ c) as [hi|]; cbn zeta.
  - apply negb_true_iff in Hs. destruct (SFltb (num_as_f64 n0) (f64_of_Z lo)) eqn:Hlo; [|destruct (SFltb (f64_of_Z hi) (num_as_f64 n0)) eqn:Hhi];
      intros [= <-]; rewrite ?num_as_f64_of_i64; split; intros ? [= <-]; auto using SFltb_irrefl.
  - destruct (SFltb (num_as_f64 n0) (f64_of_Z lo)) eqn:Hlo; intros [= <-]; rewrite ?num_as_f64_of_i64;
      split; intros ? [=]; subst; auto using SFltb_irrefl.
  - destruct (SFltb (f64_of_Z hi) (num_as_f64 n0)) eqn:Hhi; intros [= <-]; rewrite ?num_as_f64_of_i64;
      split; intros ? [=]; subst; auto using SFltb_irrefl.
  - intros [= <-]. by split.
Qed.

Lemma tables_sane `{SerdeJson} f endpoint e config :
  select_config f endpoint e = Ok config -> forallb (fun entry => forallb sane entry.2) config = true.
Proof. destruct f, endpoint, e as [[]|]; intros [= <-]; reflexivity. Qed.

(** C26: Every number the gateway sends in a field is within the bounds the table
    of the upstream sets for that field, whatever the client wrote: too small
    becomes the minimum, too large the maximum. *)
Theorem request_numbers_clamped `{SerdeJson} f params endpoint e out k n :
  transform_to_provider_request f params endpoint e = Ok out -> get out k = Some (Num n) ->
  exists config key cs c, select_config f endpoint e = Ok config /\ (key, cs) ∈ config /\ c ∈ cs
    /\ path_parts (param c) = [k] /\ within c n.
Proof.
  unfold transform_to_provider_request. intros (config & Hc & Ht)%result_bind_Ok Hk.
  apply transform_accounted in Ht as (m & -> & Hm). apply Hm in Hk as (key & cs & c & Hin & Hcin & Hh & Hg & Ho).
  assert (Hs : sane c = true).
  { apply tables_sane in Hc. rewrite forallb_forall in Hc. apply list_elem_of_In, Hc in Hin. cbn in Hin.
    rewrite forallb_forall in Hin. by apply list_elem_of_In, Hin in Hcin. }
  destruct (decide (path_parts (param c) = [k])) as [Hp|Hp]; [|by destruct (Ho Hp)].
  exists config, key, cs, c. do 4 (split; [done|]).
  destruct (Hg Hp) as [(_ & v0 & _ & Hv)|(_ & Hr & Hd)]; [by eapply clamp_within|].
  apply andb_prop in Hs as [_ Hs]. by rewrite Hr, Hd in Hs.
Qed.

Lemma request_numbers_clamped_witness :
  exists config key cs c, get demo_shaped "temperature" = Some (from_u64 1)
    /\ @select_config demo_serde FmtAnthropic ChatComplete None = Ok config /\ (key, cs) ∈ config /\ c ∈ cs
    /\ path_parts (param c) = ["temperature"] /\ within c (PosInt 1).
Proof.
  destruct (request_numbers_clamped (H := demo_serde) FmtAnthropic demo_request ChatComplete None demo_shaped
    "temperature" (PosInt 1) demo_shaped_ok eq_refl) as (config & key & cs & c & Hr).
  exists config, key, cs, c. split; [reflexivity|exact Hr].
Defined.

(** ** Usage is asked for *)

(** No parameter of the table writes the field [k]. *)
Definition untouched (k : string) (config : ProviderConfig) : bool :=
  forallb (fun entry => forallb (fun c => negb (bool_decide (head (path_parts (param c)) = Some k))) entry.2) config.

Lemma set_nested_other parts v obj k : parts <> [] -> head parts <> Some k -> get (set_nested parts v obj) k = get obj k.
Proof.
  destruct parts as [|p ps]; [done|]. intros _ Hh.
  assert (Hne : String.eqb k p = false) by (apply String.eqb_neq; intros ->; by apply Hh).
  destruct ps as [|p' ps]; cbn; rewrite map_get_insert, Hne; by destruct obj.
Qed.

Lemma apply_param_other params key c out out' k :
  apply_param params key out c = Ok out' -> head (path_parts (param c)) <> Some k -> get out' k = get out k.
Proof.
  intros Ha Hh. unfold apply_param in Ha.
  assert (Hset : forall v, get (set_nested_property out (param c) v) k = get out k).
  { intros v. apply set_nested_other; [apply split_by_nonempty|done]. }
  destruct (get params key) as [x|]; [apply result_bind_Ok in Ha as ([v|] & _ & [= <-])|injection Ha as <-]; auto.
  destruct (required_ c); [|done]. by destruct (default_ c).
Qed.

Lemma apply_params_other params key cs out out' k :
  apply_params params key cs out = Ok out' ->
  forallb (fun c => negb (bool_decide (head (path_parts (param c)) = Some k))) cs = true -> get out' k = get out k.
Proof.
  revert out. induction cs as [|c cs IH]; intros out; cbn [apply_params forallb]; [by intros [= <-]|].
  intros (o & Ho & Hr)%result_bind_Ok [Hc Hcs]%andb_prop. rewrite (IH _ Hr Hcs). eapply apply_param_other; [done|].
  apply negb_true_iff, bool_decide_eq_false in Hc. done.
Qed.

Lemma apply_config_other params config out out' k :
  apply_config params config out = Ok out' -> untouched k config = true -> get out' k = get out k.
Proof.
  revert out. induction config as [|[key cs] config IH]; intros out; cbn [apply_config untouched forallb]; [by intros [= <-]|].
  intros (o & Ho & Hr)%result_bind_Ok [Hc Hcs]%andb_prop. rewrite (IH _ Hr Hcs). by eapply apply_params_other.
Qed.

Lemma apply_config_app params c1 c2 out :
  apply_config params (c1 ++ c2) out = (apply_config params c1 out ≫= apply_config params c2).
Proof.
  revert out. induction c1 as [|[key cs] c1 IH]; intros out; [done|]. cbn.
  destruct (apply_params params key cs out) as [o|]; cbn; [apply IH|done].
Qed.

(** A plain parameter that is not overwritten carries the client's value. *)
Lemma plain_param_get params pre k post out v :
  transform_using_provider_config (pre ++ (k, [pc k]) :: post) params = Ok out ->
  path_parts k = [k] -> untouched k post = true -> get params k = Some v -> (forall n, v <> Num n) ->
  get out k = Some v.
Proof.
  unfold transform_using_provider_config. rewrite apply_config_app. intros (o & _ & Ho)%result_bind_Ok Hp Hu Hv Hn.
  cbn [apply_config apply_params] in Ho. apply result_bind_Ok in Ho as (o2 & Ho2 & Hr).
  apply result_bind_Ok in Ho2 as (o3 & Ho3 & [= <-]). rewrite (apply_config_other _ _ _ _ _ Hr Hu).
  unfold apply_param in Ho3. rewrite Hv in Ho3. cbn [get_value transform pc] in Ho3. unfold get_value in Ho3. cbn [transform pc] in Ho3.
  rewrite Hv in Ho3. injection Ho3 as <-. unfold set_nested_property. cbn [param pc]. rewrite Hp. cbn.
  rewrite map_get_insert, String.eqb_refl. f_equal.
  assert (Hsub : substitute_default (pc k) v = v) by (unfold substitute_default; destruct v; try done; by destruct (String.eqb _ _)).
  rewrite Hsub. unfold clamp. destruct v as [| |n| | |]; try done.
Qed.

Lemma inject_stream_usage m :
  is_true (map_get "stream" m) = true ->
  exists so, get (inject_stream_options (Obj m)) "stream_options" = Some (Obj so) /\ is_true (map_get "include_usage" so) = true.
Proof.
  intros Hs. unfold inject_stream_options. cbn [get]. rewrite Hs. cbn [negb].
  destruct (is_true (map_get "stream_options" m ≫= fun so => get so "include_usage")) eqn:Ha; cbn [get].
  - destruct (map_get "stream_options" m) as [[| | | | |so]|]; try done. eauto.
  - rewrite map_get_insert, String.eqb_refl. eexists. split; [done|]. by rewrite map_get_insert, String.eqb_refl.
Qed.

(** A streaming request to an OpenAI-compatible upstream asks for the usage
    report, whatever the client wrote in [stream_options]: the gateway meters
    streams by it. *)
Theorem stream_usage_requested `{SerdeJson} m endpoint e out :
  endpoint ∈ [ChatComplete; Complete; Messages] -> is_true (map_get "stream" m) = true ->
  transform_to_provider_request FmtOpenai (Obj m) endpoint e = Ok out ->
  is_true (get out "stream_options" ≫= fun so => get so "include_usage") = true.
Proof.
  intros He Hs. unfold transform_to_provider_request. intros (config & Hc & Ht)%result_bind_Ok.
  destruct (inject_stream_usage m Hs) as (so & Hso & Hu).
  assert (Hsplit : exists pre post, config = pre ++ ("stream_options", [pc "stream_options"]) :: post /\ untouched "stream_options" post = true).
  { rewrite !elem_of_cons, elem_of_nil in He. destruct He as [->|[->|[->|[]]]]; [destruct e as [[]|]|..]; injection Hc as <-.
    1, 2, 3: eexists (take 20 openai_chat_complete_base), _; split; reflexivity.
    - eexists (take 7 openai_complete_config), _. split; reflexivity.
    - eexists (take 7 openai_to_anthropic_messages_config), _. split; reflexivity. }
  destruct Hsplit as (pre & post & -> & Hpost).
  rewrite (plain_param_get _ _ _ _ _ _ Ht eq_refl Hpost Hso); [|done]. done.
Qed.

Definition demo_stream_shaped : Value :=
  Eval vm_compute in
    match @transform_to_provider_request demo_serde FmtOpenai demo_request ChatComplete (Some Vllm) with Ok v => v | Err _ => Null end.

Lemma stream_usage_requested_witness :
  is_true (get demo_stream_shaped "stream_options" ≫= fun so => get so "include_usage") = true.
Proof.
  apply (stream_usage_requested (H := demo_serde) (as_map demo_request) ChatComplete (Some Vllm));
    [by repeat constructor|reflexivity|vm_compute; reflexivity].
Defined.

(** ** Tool calls there and back *)

Record ToolUse := { tu_id : string; tu_name : string; tu_input : Value }.

Definition tool_use_value (t : ToolUse) : Value :=
  {{ "type" ≔ Str "tool_use"; "name" ≔ Str (tu_name t); "id" ≔ Str (tu_id t); "input" ≔ tu_input t }}.

(** An assistant's turn in Anthropic's shape: perhaps a text, then tool uses. *)
Definition assistant_turn (text : option string) (tools : list ToolUse) : Value :=
  {{ "role" ≔ Str "assistant";
     "content" ≔ Arr (match text with Some t => [ {{ "type" ≔ Str "text"; "text" ≔ Str t }} ] | None => [] end
                        ++ map tool_use_value tools) }}.

(** The same tool use, its input equal but for the digits of floats. *)
Definition same_use (a b : ToolUse) : Prop :=
  tu_id a = tu_id b /\ tu_name a = tu_name b /\ erase_floats (tu_input a) = erase_floats (tu_input b).

Section RoundTrip.
Context `{SerdeJsonLaws}.

Lemma collect_tools tools c :
  fold_left collect_block (map tool_use_value tools) c
  = {| col_content := col_content c; col_tool_calls := col_tool_calls c ++ map (fun t => tool_call_of (tool_use_value t)) tools;
       col_tool_results := col_tool_results c |}.
Proof.
  revert c. induction tools as [|t tools IH]; intros c; cbn [map fold_left].
  - rewrite app_nil_r. by destruct c.
  - rewrite IH. cbn. by rewrite <- app_assoc.
Qed.

Definition parsable (v : Value) : Prop := wf_value v /\ (depth v <= MAX_DEPTH)%nat.

Lemma tool_call_back t :
  parsable (tu_input t) -> exists t', tool_use_block (tool_call_of (tool_use_value t)) = Ok (tool_use_value t') /\ same_use t t'.
Proof.
  intros [Hwf Hd]. destruct (to_vec_total _ Hwf) as [s Hs].
  destruct (from_slice_to_vec _ _ Hwf Hd Hs) as (v' & Hv & He).
  assert (Hne : String.eqb s "" = false).
  { apply String.eqb_neq. intros ->. by apply from_slice_empty in Hv. }
  exists {| tu_id := tu_id t; tu_name := tu_name t; tu_input := v' |}. split; [|by repeat split].
  unfold tool_use_block, tool_call_input, tool_call_of, str_of. cbn. rewrite Hs, Hne, Hv. done.
Qed.

Lemma tool_calls_back tools :
  Forall (fun t => parsable (tu_input t)) tools ->
  exists tools', tool_use_blocks (map (fun t => tool_call_of (tool_use_value t)) tools) = Ok (map tool_use_value tools')
    /\ Forall2 same_use tools tools'.
Proof.
  induction 1 as [|t tools Ht _ (tools' & Hb & Hs)]; [exists []; split; [done|constructor]|].
  destruct (tool_call_back t Ht) as (t' & Hb' & Hs'). exists (t' :: tools'). cbn [map tool_use_blocks].
  rewrite Hb', Hb. split; [done|by constructor].
Qed.

Lemma assistant_back m calls blocks :
  get m "role" = Some (Str "assistant") -> get m "tool_calls" = Some (Arr calls) -> tool_use_blocks calls = Ok blocks ->
  transform_message m = Ok [ {{ "role" ≔ Str "assistant"; "content" ≔ Arr (assistant_content m ++ blocks) }} ].
Proof.
  intros Hr Hc Hb. unfold transform_message, transform_assistant_message, str_or_empty. rewrite Hr, Hc. cbn [mbind option_bind as_str as_array].
  rewrite Hb. done.
Qed.
End RoundTrip.

(** An assistant's turn with tool uses survives the translation to OpenAI's
    shape and back: it becomes one message, and translating that message again
    gives the same text, ids and names in the same order and inputs equal but for
    the digits of floats, although on the way they are JSON text. *)
Theorem tool_use_roundtrip `{SerdeJsonLaws} text tools :
  (forall t, text = Some t -> t <> "") -> (text <> None \/ tools <> []) -> Forall (fun t => parsable (tu_input t)) tools ->
  exists m tools', oai_message (assistant_turn text tools) = [m]
    /\ transform_message m = Ok [assistant_turn text tools'] /\ Forall2 same_use tools tools'.
Proof.
  intros Htext Hne Hp. destruct (tool_calls_back tools Hp) as (tools' & Hb & Hs).
  destruct text as [t|].
  - destruct t as [|a t]; [by destruct (Htext "" eq_refl)|].
    destruct tools as [|u tools].
    + inversion Hs; subst. eexists _, []. split; [reflexivity|]. split; [|constructor]. unfold transform_message. cbn.
      done.
    + eexists _, tools'. split; [|split; [|done]].
      * unfold oai_message, assistant_turn. cbn [get map_get String.eqb Ascii.eqb Bool.eqb].
        change ([ {{ "type" ≔ Str "text"; "text" ≔ Str (String a t) }} ] ++ map tool_use_value (u :: tools))
          with ({{ "type" ≔ Str "text"; "text" ≔ Str (String a t) }} :: map tool_use_value (u :: tools)).
        cbn [fold_left]. rewrite collect_tools. cbn. reflexivity.
      * erewrite assistant_back; [|reflexivity|reflexivity|exact Hb]. done.
  - destruct tools as [|u tools]; [by destruct Hne|]. eexists _, tools'. split; [|split; [|done]].
    + unfold oai_message, assistant_turn. cbn [get map_get String.eqb Ascii.eqb Bool.eqb].
      change ([] ++ map tool_use_value (u :: tools)) with (map tool_use_value (u :: tools)).
      rewrite collect_tools. cbn. reflexivity.
    + erewrite assistant_back; [|reflexivity|reflexivity|exact Hb]. done.
Qed.

Definition demo_tool : ToolUse := {| tu_id := "t1"; tu_name := "search"; tu_input := {{ "q" ≔ Str "x" }} |}.

Lemma tool_use_roundtrip_witness :
  exists m tools', @oai_message demo_serde (assistant_turn (Some "ok") [demo_tool]) = [m]
    /\ @transform_message demo_serde m = Ok [assistant_turn (Some "ok") tools'] /\ Forall2 same_use [demo_tool] tools'.
Proof.
  apply (@tool_use_roundtrip demo_serde demo_serde_laws (Some "ok") [demo_tool]).
  - by intros t [= <-].
  - by left.
  - constructor; [|constructor]. split; [apply wf_valueb_sound; vm_compute; reflexivity|]. apply Nat.leb_le. reflexivity.
Defined.
