(* ===== verification/RequestTypes.v ===== *)
(** * The requests the gateway shapes are JSON

    Every translation and table of [src/middleware/request_transform.rs] builds
    well-formed values from well-formed ones, so the body of every candidate can be
    serialised. *)
From S2P Require Import Prelude StrOps Json Serde Identity JsonWf Float Router RequestTransform.

Definition wf_fn (t : TransformFn) : Prop := forall params o, wf_value params -> t params = Ok o -> wf_some o.

Lemma wf_or_null o : wf_some o -> wf_value (or_null o).
Proof. by destruct o. Qed.

Lemma wf_or_else d o : wf_value d -> wf_some o -> wf_value (or_else d o).
Proof. by destruct o. Qed.

Lemma valid_str_or_empty o : wf_some o -> valid_utf8 (str_or_empty o).
Proof. destruct o as [[| | | | |]|]; intros Hv; cbn; wf. Qed.

Lemma wf_with_field k o m : valid_utf8 k -> wf_some o -> wf_value (Obj m) -> wf_value (Obj (with_field k o m)).
Proof. destruct o; cbn [with_field wf_some]; wf. Qed.

Lemma wf_ephemeral v : wf_some (ephemeral v).
Proof. unfold ephemeral. destruct (get v "cache_control"); wf. Qed.

Lemma valid_str_of v k s : wf_value v -> str_of v k = Some s -> valid_utf8 s.
Proof. intros Hv. apply wf_as_str. wf. Qed.

Lemma valid_str_of_bind o k s : wf_some o -> (o ≫= fun v => str_of v k) = Some s -> valid_utf8 s.
Proof. destruct o as [v|]; [|done]. apply valid_str_of. Qed.

Lemma valid_LF : valid_utf8 LF.
Proof. wf. Qed.

#[export] Hint Resolve wf_or_null wf_or_else valid_str_or_empty wf_with_field wf_ephemeral valid_LF : wf.

Lemma wf_messages_of params : wf_value params -> wf_all (messages_of params).
Proof.
  intros Hp. unfold messages_of. destruct (_ ≫= as_array) as [l|] eqn:E; [|wf].
  eapply wf_as_array; [|exact E]. wf.
Qed.
#[export] Hint Resolve wf_messages_of : wf.

Section Chat.
Context `{SerdeJsonLaws}.

(** ** OpenAI to Anthropic *)

Lemma wf_tool_use_block call b : wf_value call -> tool_use_block call = Ok b -> wf_value b.
Proof.
  intros Hc. unfold tool_use_block. intros (input & Hi & [= <-])%result_bind_Ok.
  assert (Hw : wf_value input).
  { unfold tool_call_input in Hi. destruct (get call "function" ≫= _) as [s|]; [|injection Hi as <-; wf].
    destruct (String.eqb s ""); [injection Hi as <-; wf|]. destruct (from_slice s) as [v|] eqn:Ev; [|done].
    injection Hi as <-. by apply from_slice_wf in Ev as [? _]. }
  wf.
Qed.

Lemma wf_tool_use_blocks calls bs : wf_all calls -> tool_use_blocks calls = Ok bs -> wf_all bs.
Proof.
  intros Hc. revert bs. induction Hc as [|call calls Hc _ IH]; intros bs; cbn [tool_use_blocks]; [intros [= <-]; wf|].
  intros (b & Hb & Hr)%result_bind_Ok. apply result_bind_Ok in Hr as (bs' & Hbs & [= <-]). apply wf_cons; [by eapply wf_tool_use_block|auto].
Qed.

Lemma wf_assistant_content msg : wf_value msg -> wf_all (assistant_content msg).
Proof.
  intros Hm. unfold assistant_content.
  assert (Hs : wf_some (match get msg "content_blocks" with Some v => Some v | None => get msg "content" end)).
  { destruct (get msg "content_blocks") eqn:E; [by eapply wf_get_Some|wf]. }
  revert Hs. generalize (match get msg "content_blocks" with Some v => Some v | None => get msg "content" end).
  intros [[| | |s|l|]|] Hs; try wf.
  - destruct (String.eqb s ""); wf.
  - apply wf_filter. by apply wf_value_Arr.
Qed.

Lemma wf_transform_assistant msg m : wf_value msg -> transform_assistant_message msg = Ok m -> wf_value m.
Proof.
  intros Hm. unfold transform_assistant_message. intros (bs & Hb & [= <-])%result_bind_Ok.
  assert (Hbs : wf_all bs).
  { destruct (get msg "tool_calls" ≫= as_array) as [calls|] eqn:E; [|injection Hb as <-; wf].
    eapply wf_tool_use_blocks; [|exact Hb]. eapply wf_as_array; [|exact E]. wf. }
  pose proof (wf_assistant_content msg Hm). wf.
Qed.

Lemma wf_transform_tool msg : wf_value msg -> wf_value (transform_tool_message msg).
Proof.
  intros Hm. unfold transform_tool_message.
  assert (Hid : wf_value (match get msg "tool_call_id" with Some Null | None => Str "" | Some v => v end)).
  { pose proof (wf_get msg "tool_call_id" Hm). destruct (get msg "tool_call_id") as [[]|]; wf. }
  wf.
Qed.

Lemma wf_data_url_block item url b : valid_utf8 url -> data_url_block item url = Some b -> wf_value b.
Proof.
  intros Hu. unfold data_url_block.
  pose proof (split_by_valid ";" url eq_refl Hu) as H1.
  destruct (split_by (Ascii.eqb ";") url) as [|h [|t [|]]]; try done. inversion_clear H1 as [|?? Hh H2].
  inversion_clear H2 as [|?? Ht _]. pose proof (split_by_valid ":" h eq_refl Hh) as H3.
  pose proof (split_by_valid "," t eq_refl Ht) as H4.
  destruct (split_by (Ascii.eqb ":") h) as [|x [|media [|]]]; try done.
  assert (Hm : valid_utf8 media) by (inversion_clear H3 as [|?? _ H5]; by inversion H5).
  set (data := match split_by (Ascii.eqb ",") t with _ :: d :: _ => d | _ => "" end).
  assert (Hd : valid_utf8 data).
  { subst data. destruct (split_by (Ascii.eqb ",") t) as [|x1 [|x2 l]]; [wf..|]. inversion_clear H4 as [|?? _ H5]. by inversion H5. }
  destruct (String.eqb data ""); [done|]. intros [= <-]. destruct (String.eqb media PDF_MIME); wf.
Qed.

Lemma wf_append_image item content : wf_value item -> wf_all content -> wf_all (append_image_content_item item content).
Proof.
  intros Hi Hc. unfold append_image_content_item. destruct (get item "image_url" ≫= _) as [url|] eqn:E; [|done].
  assert (Hu : valid_utf8 url) by (eapply valid_str_of_bind; [|exact E]; wf).
  destruct (String.eqb url ""); [done|]. destruct (negb _); [wf|].
  destruct (data_url_block item url) as [b|] eqn:Eb; [|done]. pose proof (wf_data_url_block _ _ _ Hu Eb). wf.
Qed.

Lemma wf_append_file_data file content : wf_some file -> wf_all content -> wf_all (append_file_data file content).
Proof.
  intros Hf Hc. unfold append_file_data. pose proof (wf_get_bind file "file_data" Hf) as Hd.
  destruct (file ≫= fun f => get f "file_data") as [data|]; [|done]. destruct (truthy data); [|done].
  destruct (file ≫= fun f => str_of f "mime_type") as [mime|] eqn:E.
  - assert (valid_utf8 mime) by (eapply valid_str_of_bind; [exact Hf|exact E]). destruct (String.eqb mime TXT_MIME); wf.
  - wf.
Qed.

Lemma wf_append_file item content : wf_value item -> wf_all content -> wf_all (append_file_content_item item content).
Proof.
  intros Hi Hc. unfold append_file_content_item. pose proof (wf_get item "file" Hi) as Hf.
  pose proof (wf_get_bind _ "file_url" Hf) as Hu.
  destruct (get item "file" ≫= fun f => get f "file_url") as [url|]; [destruct (truthy url)|]; [wf|..];
    by apply wf_append_file_data.
Qed.

Lemma wf_append_user_item content item : wf_all content -> wf_value item -> wf_all (append_user_item content item).
Proof.
  intros Hc Hi. unfold append_user_item. destruct (has_type item "text"); [wf|].
  destruct (has_type item "image_url"); [by apply wf_append_image|].
  destruct (has_type item "file"); [by apply wf_append_file|done].
Qed.

Lemma wf_transform_user role msg : valid_utf8 role -> wf_value msg -> wf_value (transform_user_message role msg).
Proof.
  intros Hr Hm. unfold transform_user_message. pose proof (wf_get msg "content" Hm) as Hc.
  destruct (get msg "content") as [[| | | |[|i items]|]|]; [wf..| |wf|wf].
  cbn [wf_some] in Hc. apply wf_value_Arr in Hc. assert (wf_all (fold_left append_user_item (i :: items) [])); [|wf].
  apply wf_fold; [apply wf_append_user_item|done|wf].
Qed.

Lemma wf_transform_message msg ms : wf_value msg -> transform_message msg = Ok ms -> wf_all ms.
Proof.
  intros Hm. unfold transform_message. destruct (is_system_role _); [intros [= <-]; wf|].
  destruct (String.eqb _ "assistant").
  - intros (m & Ha & [= <-])%result_bind_Ok. pose proof (wf_transform_assistant _ _ Hm Ha). wf.
  - pose proof (wf_transform_tool msg Hm). destruct (String.eqb _ "tool"); intros [= <-]; [wf|].
    apply wf_cons; [|wf]. apply wf_transform_user; wf.
Qed.

Lemma wf_anthropic_messages : wf_fn anthropic_messages.
Proof.
  intros params o Hp. unfold anthropic_messages. intros (ms & Hms & [= <-])%result_bind_Ok. cbn [wf_some]. apply wf_Arr.
  revert ms Hms. pose proof (wf_messages_of params Hp) as Hl.
  induction Hl as [|m l Hm _ IH]; intros ms; cbn [transform_messages]; [intros [= <-]; wf|].
  intros (m' & Hm' & Hr)%result_bind_Ok. apply result_bind_Ok in Hr as (ms' & Hms & [= <-]).
  apply wf_app; [by eapply wf_transform_message|auto].
Qed.

Lemma wf_system_blocks msg : wf_value msg -> wf_all (system_blocks msg).
Proof.
  intros Hm. unfold system_blocks. destruct (negb _); [wf|]. pose proof (wf_get msg "content" Hm) as Hc.
  destruct (get msg "content") as [[| | |s|items|]|]; try wf.
  destruct (truthy_opt _); [|wf]. cbn [wf_some] in Hc. apply wf_value_Arr in Hc. apply wf_map; [|done].
  intros v Hv. unfold system_entry. wf.
Qed.

Lemma wf_anthropic_system : wf_fn anthropic_system.
Proof. intros params o Hp [= <-]. cbn [wf_some]. apply wf_Arr, wf_concat_map; [apply wf_system_blocks|wf]. Qed.

Lemma wf_function_tool tool function : wf_value function -> wf_value (function_tool tool function).
Proof.
  intros Hf. unfold function_tool. pose proof (wf_get function "parameters" Hf) as Hp.
  apply wf_with_field; [wf..|]. wf_entries; [wf..|]. wf_entries; wf.
Qed.

Lemma wf_typed_tool tool t : wf_value tool -> valid_utf8 t -> wf_value (typed_tool tool t).
Proof.
  intros Ht Hv. unfold typed_tool. pose proof (wf_get tool t Ht) as Ho.
  assert (wf_value (Obj match get tool t with Some (Obj m) => m | _ => [] end)).
  { destruct (get tool t) as [[]|]; wf. }
  wf.
Qed.

Lemma wf_tool_entries tool : wf_value tool -> wf_all (tool_entries tool).
Proof.
  intros Ht. unfold tool_entries. destruct (get tool "function") as [f|] eqn:E.
  - apply wf_cons; [|wf]. apply wf_function_tool. by eapply wf_get_Some.
  - destruct (str_of tool "type") as [t|] eqn:Et; [|wf]. apply wf_cons; [|wf]. apply wf_typed_tool; [done|by eapply valid_str_of].
Qed.

Lemma wf_anthropic_tools : wf_fn anthropic_tools.
Proof.
  intros params o Hp [= <-]. cbn [wf_some]. apply wf_Arr, wf_concat_map; [apply wf_tool_entries|].
  destruct (_ ≫= as_array) as [l|] eqn:E; [|wf]. eapply wf_as_array; [|exact E]. wf.
Qed.

Lemma wf_anthropic_tool_choice : wf_fn anthropic_tool_choice.
Proof.
  intros params o Hp [= <-]. cbn [wf_some]. pose proof (wf_get params "tool_choice" Hp) as Hc.
  destruct (get params "tool_choice") as [[| | |s| |m]|]; try wf.
  - destruct (String.eqb s "required"); [wf|]. destruct (String.eqb s "auto"); wf.
  - wf_entries; [wf..|]. apply wf_or_null, wf_get_bind. exact (wf_get (Obj m) "function" Hc).
Qed.
(** ** Legacy completions *)

Lemma wf_anthropic_complete_prompt : wf_fn anthropic_complete_prompt.
Proof.
  intros params o Hp E. unfold anthropic_complete_prompt in E. set (s := LF +:+ _) in E.
  assert (valid_utf8 s) by (repeat (apply valid_utf8_app; [wf|]); wf). by injection E as <-.
Qed.

Lemma wf_anthropic_complete_stop : wf_fn anthropic_complete_stop.
Proof.
  intros params o Hp [= <-]. pose proof (wf_get params "stop" Hp) as Hs.
  destruct (get params "stop") as [[]|]; wf.
Qed.

(** ** Anthropic to OpenAI *)

Lemma wf_system_message params : wf_value params -> wf_all (system_message params).
Proof.
  intros Hp. unfold system_message. pose proof (wf_get params "system" Hp) as Hs.
  destruct (get params "system") as [[| | |s|blocks|]|]; try wf.
  - destruct (String.eqb s ""); wf.
  - cbn [wf_some] in Hs. apply wf_value_Arr in Hs. set (text := str_join LF _).
    assert (valid_utf8 text); [|destruct (String.eqb text ""); wf].
    apply str_join_valid; [wf|]. apply wf_filter with (p := fun b => has_type b "text") in Hs.
    induction Hs as [|b bs Hb _ IH]; cbn; [constructor|].
    destruct (str_of b "text") as [t|] eqn:E; [|done]. constructor; [by eapply valid_str_of|done].
Qed.

Lemma valid_to_vec v d : wf_value v -> valid_utf8 d -> valid_utf8 (match to_vec v with Ok s => s | Err _ => d end).
Proof. intros Hv Hd. destruct (to_vec v) as [s|] eqn:E; [by eapply to_vec_utf8|done]. Qed.

Definition wf_collected (c : Collected) : Prop :=
  wf_all (col_content c) /\ wf_all (col_tool_calls c)
  /\ Forall (fun r => wf_value r.1 /\ wf_some r.2) (col_tool_results c).

Lemma wf_add_content v c : wf_value v -> wf_collected c -> wf_collected (add_content v c).
Proof. intros Hv (?&?&?). repeat split; cbn; wf. Qed.

Lemma wf_tool_call_of block : wf_value block -> wf_value (tool_call_of block).
Proof.
  intros Hb. unfold tool_call_of.
  assert (valid_utf8 match to_vec (or_else (Obj []) (get block "input")) with Ok s => s | Err _ => "{}" end)
    by (apply valid_to_vec; wf).
  wf_entries; [wf..|]. wf_entries; wf.
Qed.

Lemma wf_source_of block source st : wf_value block -> source_of block = Some (source, st) -> wf_value source.
Proof.
  intros Hb. unfold source_of. destruct (get block "source") as [s|] eqn:E; [|done]. destruct (truthy s); [|done].
  intros [= <- _]. by eapply wf_get_Some.
Qed.

Lemma wf_image_url_part url : valid_utf8 url -> wf_value (image_url_part url).
Proof. intros. unfold image_url_part. wf. Qed.

Lemma wf_file_part key source field :
  valid_utf8b key && negb (String.eqb key "mime_type") = true -> wf_value source -> wf_value (file_part key source field).
Proof.
  intros [Hk Hne]%andb_prop Hs. unfold file_part. wf_entries; [wf..|]. apply wf_value_Obj. split.
  - apply negb_true_iff, String.eqb_neq in Hne. cbn. apply NoDup_cons. split; [|apply NoDup_singleton].
    by intros ?%list_elem_of_singleton.
  - apply valid_utf8b_sound in Hk. repeat constructor; cbn; wf.
Qed.

Lemma wf_collect_block c block : wf_collected c -> wf_value block -> wf_collected (collect_block c block).
Proof.
  intros Hc Hb. unfold collect_block. destruct (str_of block "type") as [t|]; [|done].
  destruct (String.eqb t "text").
  { destruct (get block "text") as [x|] eqn:E; [|done]. apply wf_add_content; [|done]. rewrite <- E. wf. }
  destruct (String.eqb t "image").
  { destruct (source_of block) as [[source [st|]]|] eqn:E; try done. apply wf_source_of in E; [|done].
    destruct (String.eqb st "base64"); [|destruct (String.eqb st "url"); [|done]];
      apply wf_add_content; try done; apply wf_image_url_part; repeat (apply valid_utf8_app; [wf; fail|]); wf. }
  destruct (String.eqb t "tool_use").
  { destruct (get block "id"), (get block "name"); try done. destruct Hc as (?&?&?).
    pose proof (wf_tool_call_of block Hb). repeat split; cbn; wf. }
  destruct (String.eqb t "tool_result").
  { destruct (get block "tool_use_id") as [x|] eqn:E; [|done]. rewrite <- E. destruct Hc as (?&?&?).
    repeat split; cbn; [wf..|]. apply Forall_app. split; [done|]. constructor; [|constructor]. cbn. split; [wf|].
    pose proof (wf_get block "content" Hb) as Hv.
    destruct (get block "content") as [[]|]; try done; cbn [wf_some wf_value]; try (apply valid_to_vec; [done|wf]). }
  destruct (String.eqb t "document"); [|done].
  destruct (source_of block) as [[source [st|]]|] eqn:E; try done. apply wf_source_of in E; [|done].
  destruct (String.eqb st "url"); [|destruct (_ || _); [|done]];
    apply wf_add_content; try done; by apply wf_file_part.
Qed.

Lemma wf_collect_blocks blocks c : wf_all blocks -> wf_collected c -> wf_collected (fold_left collect_block blocks c).
Proof. intros Hb. revert c. induction Hb; cbn; auto using wf_collect_block. Qed.

Lemma wf_collected_content part : wf_value part -> wf_value (if has_type part "text" then or_else (Str "") (get part "text") else Arr [part]).
Proof. intros. destruct (has_type part "text"); wf. Qed.

Lemma wf_collected_message role c : wf_value role -> wf_collected c -> wf_all (collected_message role c).
Proof.
  intros Hr (Hc & Ht & _). unfold collected_message.
  assert (Hrole : wf_value (Obj [("role", role)])) by wf.
  assert (Hcont : wf_value (Obj match col_content c with
                                | [] => [("role", role)]
                                | [part] => map_insert "content" (if has_type part "text" then or_else (Str "") (get part "text") else Arr [part]) [("role", role)]
                                | parts => map_insert "content" (Arr parts) [("role", role)]
                                end)).
  { destruct Hc as [|part parts Hp Hps]; [done|]. destruct parts; apply wf_value_insert; try done; [wf| |wf|wf].
    by apply wf_collected_content. }
  destruct (col_tool_calls c) as [|call calls] eqn:Ecalls.
  - destruct (col_content c) as [|? []]; [wf|apply wf_cons; [exact Hcont|wf]..].
  - assert (Hx : forall m, wf_value (Obj m) ->
      wf_value (Obj (let m := map_insert "tool_calls" (Arr (call :: calls)) m in
                     if truthy_opt (map_get "content" m) then m else map_insert "content" (Str "") m))).
    { intros m Hm. cbn zeta. destruct (truthy_opt _); wf. }
    destruct (col_content c) as [|? []]; (apply wf_cons; [apply Hx; exact Hcont|wf]).
Qed.

Lemma wf_oai_message msg : wf_value msg -> wf_all (oai_message msg).
Proof.
  intros Hm. unfold oai_message. pose proof (wf_get msg "content" Hm) as Hc.
  destruct (get msg "content") as [[| | |s|blocks|]|]; try wf.
  cbn [wf_some] in Hc. apply wf_value_Arr in Hc.
  assert (Hw : wf_collected (fold_left collect_block blocks collected_nil)).
  { apply wf_collect_blocks; [done|]. repeat split; cbn; try wf. }
  apply wf_app; [apply wf_collected_message; [wf|done]|]. destruct Hw as (_&_&Hr). apply Forall_fmap.
  eapply Forall_impl; [exact Hr|]. intros [id content] [Hi Ho]. apply wf_with_field; wf.
Qed.

Lemma wf_oai_transform_messages : wf_fn oai_transform_messages.
Proof.
  intros params o Hp [= <-]. cbn [wf_some]. apply wf_Arr, wf_app; [by apply wf_system_message|].
  apply wf_concat_map; [apply wf_oai_message|wf].
Qed.
End Chat.

Lemma valid_nonempty o s : (forall t, o = Some t -> valid_utf8 t) -> nonempty o = Some s -> valid_utf8 s.
Proof. destruct o as [t|]; cbn; [|done]. destruct (String.eqb t ""); [done|]. intros Ho [= <-]. auto. Qed.

Lemma wf_oai_tool tool : wf_value tool -> wf_value (oai_tool tool).
Proof.
  intros Ht. unfold oai_tool. pose proof (wf_get tool "input_schema" Ht) as Hs.
  set (fallback := str_or_empty (get tool "type")).
  assert (Hf : valid_utf8 fallback) by (subst fallback; wf).
  assert (Hor : forall k d, valid_utf8 d -> valid_utf8 match nonempty (str_of tool k) with Some n => n | None => d end).
  { intros k d Hd. destruct (nonempty (str_of tool k)) as [n|] eqn:E; [|done]. eapply valid_nonempty; [|exact E].
    intros t. by apply valid_str_of. }
  wf_entries; [wf..|].
  assert (Hschema : wf_value (if truthy_opt (get tool "input_schema") then or_null (get tool "input_schema") else empty_schema)).
  { destruct (truthy_opt (get tool "input_schema")); wf. }
  pose proof (Hor "name" fallback Hf). assert (Hd : valid_utf8 (fallback +:+ " tool")) by wf.
  pose proof (Hor "description" _ Hd). destruct (_ && _); wf_entries; wf.
Qed.

Lemma wf_oai_transform_tools : wf_fn oai_transform_tools.
Proof.
  intros params o Hp [= <-]. destruct (get params "tools" ≫= as_array) as [[|t tools]|] eqn:E; try done.
  apply wf_as_array in E; [|wf]. cbn [wf_some]. apply wf_Arr. exact (wf_map oai_tool _ wf_oai_tool E).
Qed.

Lemma wf_oai_transform_tool_choice : wf_fn oai_transform_tool_choice.
Proof.
  intros params o Hp [= <-]. destruct (get params "tool_choice") as [choice|] eqn:Ec; [|done].
  apply wf_get_Some in Ec; [|done].
  destruct (negb _); [done|]. destruct (str_of choice "type") as [t|]; [|done].
  repeat (destruct (String.eqb t _); [try wf|]); [|done].
  destruct (nonempty (str_of choice "name")) as [name|] eqn:E; [|wf].
  assert (valid_utf8 name); [|cbn [wf_some]; wf]. eapply valid_nonempty; [|exact E]. intros s. by apply valid_str_of.
Qed.

Lemma wf_oai_transform_stop_sequences : wf_fn oai_transform_stop_sequences.
Proof.
  intros params o Hp [= <-]. destruct (get params "stop_sequences" ≫= as_array) as [[|s l]|] eqn:E; try done.
  apply wf_as_array in E; wf.
Qed.

Lemma wf_oai_user_from_metadata : wf_fn oai_user_from_metadata.
Proof. intros params o Hp [= <-]. wf. Qed.

Lemma wf_map_sglang_reasoning_effort : wf_fn map_sglang_reasoning_effort.
Proof.
  intros params o Hp [= <-]. pose proof (wf_get params "reasoning_effort" Hp) as Hv.
  destruct (get params "reasoning_effort") as [[| | |s| |]|]; try wf.
  destruct (String.eqb s "minimal"); [wf|]. destruct (String.eqb s "xhigh"); wf.
Qed.

#[export] Hint Resolve wf_anthropic_messages wf_anthropic_system wf_anthropic_tools wf_anthropic_tool_choice wf_anthropic_complete_prompt
  wf_anthropic_complete_stop wf_oai_transform_messages wf_oai_transform_tools wf_oai_transform_tool_choice
  wf_oai_transform_stop_sequences wf_oai_user_from_metadata wf_map_sglang_reasoning_effort : wf.

(** ** The engine *)

(** What an entry may put in a request: its default, its bounds and its path. *)
Definition literal_ok (c : ParamConfig) : bool :=
  match default_ c with Some d => wf_valueb d | None => true end
  && match min_ c with Some m => (i64_min <=? m) && (m <=? i64_max) | None => true end
  && match max_ c with Some m => (i64_min <=? m) && (m <=? i64_max) | None => true end
  && forallb valid_utf8b (path_parts (param c)).

Definition transform_ok (c : ParamConfig) : Prop := match transform c with Some t => wf_fn t | None => True end.

Lemma wf_clamp c v : literal_ok c = true -> wf_value v -> wf_value (clamp c v).
Proof.
  unfold literal_ok. rewrite !andb_true_iff. intros [[[_ Hmin] Hmax] _] Hv. unfold clamp. destruct v as [| |n| | |]; try done.
  destruct (min_ c) as [lo|]; [destruct (SFltb _ (f64_of_Z lo)); [apply wf_from_i64; lia|]|];
    (destruct (max_ c) as [hi|]; [destruct (SFltb (f64_of_Z hi) _); [apply wf_from_i64; lia|]|]); done.
Qed.

Lemma wf_substitute_default c v : literal_ok c = true -> wf_value v -> wf_value (substitute_default c v).
Proof.
  unfold literal_ok. rewrite !andb_true_iff. intros [[[Hd _] _] _] Hv. unfold substitute_default. destruct v as [| | |s| |]; try done.
  destruct (String.eqb _ _); [|done]. destruct (default_ c); [by apply wf_valueb_sound|done].
Qed.

Lemma wf_as_map v : wf_value v -> wf_value (Obj (as_map v)).
Proof. destruct v; wf. Qed.

Lemma wf_set_nested parts v obj :
  Forall valid_utf8 parts -> wf_value v -> wf_value obj -> wf_value (set_nested parts v obj).
Proof.
  intros Hp Hv. revert obj. induction Hp as [|p ps Hp Hps IH]; intros obj Ho; [done|].
  pose proof (wf_as_map obj Ho) as Hm. cbn [set_nested]. destruct ps as [|p' ps]; [by apply wf_value_insert|].
  apply wf_value_insert; [done|apply IH|done]. destruct (map_get p (as_map obj)) as [w|] eqn:E; [|wf].
  exact (wf_get_Some (Obj (as_map obj)) p w E Hm).
Qed.

Lemma wf_set_property c v out :
  literal_ok c = true -> wf_value v -> wf_value out -> wf_value (set_nested_property out (param c) v).
Proof.
  unfold literal_ok. rewrite !andb_true_iff. intros [_ Hp] Hv Ho. apply wf_set_nested; [|done|done].
  rewrite forallb_forall in Hp. apply Forall_forall. intros x Hx%list_elem_of_In. by apply valid_utf8b_sound, Hp.
Qed.

Lemma wf_apply_param params key c out out' :
  literal_ok c = true -> transform_ok c -> wf_value params -> wf_value out ->
  apply_param params key out c = Ok out' -> wf_value out'.
Proof.
  intros Hl Ht Hp Ho. unfold apply_param. destruct (get params key) as [x|] eqn:Ex.
  - intros (v & Hv & [= <-])%result_bind_Ok. destruct v as [v|]; [|done]. apply wf_set_property; [done| |done].
    unfold get_value in Hv. apply result_bind_Ok in Hv as (w & Hw & [= Hv]). destruct w as [w|]; [|done]. injection Hv as <-.
    apply wf_clamp, wf_substitute_default; try done. unfold transform_ok in Ht. destruct (transform c) as [t|].
    + exact (Ht _ _ Hp Hw).
    + injection Hw as Hw. by eapply wf_get_Some.
  - intros [= <-]. destruct (required_ c); [|done]. destruct (default_ c) as [d|] eqn:Ed; [|done].
    apply wf_set_property; [done| |done]. unfold literal_ok in Hl. rewrite Ed, !andb_true_iff in Hl.
    apply wf_valueb_sound. tauto.
Qed.

Lemma wf_apply_params params key cs out out' :
  forallb literal_ok cs = true -> Forall transform_ok cs -> wf_value params -> wf_value out ->
  apply_params params key cs out = Ok out' -> wf_value out'.
Proof.
  intros Hl Ht Hp. revert out Hl. induction Ht as [|c cs Hc _ IH]; intros out Hl Ho; cbn [apply_params]; [by intros [= <-]|].
  cbn in Hl. apply andb_prop in Hl as [Hl1 Hl2]. intros (o & Ha & Hr)%result_bind_Ok.
  eapply IH; [exact Hl2| |exact Hr]. exact (wf_apply_param _ _ _ _ _ Hl1 Hc Hp Ho Ha).
Qed.

Lemma wf_apply_config params (config : ProviderConfig) out out' :
  forallb (fun entry => forallb literal_ok entry.2) config = true -> Forall (fun entry => Forall transform_ok entry.2) config ->
  wf_value params -> wf_value out -> apply_config params config out = Ok out' -> wf_value out'.
Proof.
  intros Hl Ht Hp. revert out Hl. induction Ht as [|[key cs] config Hc _ IH]; intros out Hl Ho; cbn [apply_config]; [by intros [= <-]|].
  cbn in Hl, Hc. apply andb_prop in Hl as [Hl1 Hl2]. intros (o & Ha & Hr)%result_bind_Ok.
  eapply IH; [exact Hl2| |exact Hr]. exact (wf_apply_params _ _ _ _ _ Hl1 Hc Hp Ho Ha).
Qed.

Lemma wf_inject params : wf_value params -> wf_value (inject_stream_options params).
Proof.
  intros Hp. unfold inject_stream_options. destruct (negb _); [done|]. destruct (is_true _); [done|].
  destruct params as [| | | | |m]; try done. apply wf_value_insert; [wf| |done]. apply wf_value_insert; [wf..|].
  apply wf_as_map. destruct (map_get "stream_options" m) as [v|] eqn:E; [|wf]. exact (wf_get_Some (Obj m) _ _ E Hp).
Qed.

(** ** The tables *)

Lemma tables_literal_ok `{SerdeJson} f endpoint e config :
  select_config f endpoint e = Ok config -> forallb (fun entry => forallb literal_ok entry.2) config = true.
Proof. destruct f, endpoint, e as [[]|]; intros [= <-]; vm_compute; reflexivity. Qed.

Lemma tables_transform_ok `{SerdeJsonLaws} f endpoint e config :
  select_config f endpoint e = Ok config -> Forall (fun entry : string * list ParamConfig => Forall transform_ok entry.2) config.
Proof.
  destruct f, endpoint, e as [[]|]; intros [= <-]; repeat (constructor; cbn [snd]); unfold transform_ok; cbn; wf.
Qed.

(** Well formed, and [serde_json::to_vec] succeeds. *)
Definition serialises `{SerdeJson} (v : Value) : Prop := wf_value v /\ exists bytes, to_vec v = Ok bytes.

(** A request the client sent as JSON is shaped into JSON: whatever the upstream
    format, endpoint and engine, the body is well formed (its text is UTF-8, keys do
    not repeat, its numbers are representable), so serialising it for the upstream
    cannot fail. *)
Theorem request_well_formed `{SerdeJsonLaws} f params endpoint e out :
  wf_value params -> transform_to_provider_request f params endpoint e = Ok out -> serialises out.
Proof.
  intros Hp. unfold transform_to_provider_request. intros (config & Hc & Ht)%result_bind_Ok.
  assert (Hw : wf_value out); [|split; [done|by apply to_vec_total]].
  exact (wf_apply_config _ config (Obj []) _ (tables_literal_ok _ _ _ _ Hc) (tables_transform_ok _ _ _ _ Hc)
           (wf_inject _ Hp) (wf_valueb_sound (Obj []) eq_refl) Ht).
Qed.

Lemma request_well_formed_witness : @serialises demo_serde demo_shaped.
Proof.
  apply (@request_well_formed demo_serde demo_serde_laws FmtAnthropic demo_request ChatComplete None);
    [apply wf_valueb_sound; vm_compute; reflexivity|exact demo_shaped_ok].
Defined.
