(* ===== verification/ResponseTransform.v ===== *)
(** * Buffered response shaping

    Model of [src/middleware/response_transform.rs]: a success body of an upstream
    is turned into the shape of the client's API.  The clock is an argument. *)
From S2P Require Import Prelude StrOps Json Serde Identity JsonWf Float Router RequestTransform RequestTypes.

Definition STRICT_OPENAI_COMPLIANCE : bool := true.

(** The time read while the response is shaped. *)
Record WallClock := { wall_secs : Z; wall_millis : Z }.

(** A token count, as an integer or a float. *)
Definition i64_field (value : Value) (key : string) : Z :=
  match get value key with
  | Some v =>
      match as_i64 v with
      | Some i => i
      | None => match v with Num n => trunc_as_i64 (num_as_f64 n) | _ => 0 end
      end
  | None => 0
  end.

Definition transform_finish_reason (stop_reason : option string) (strict : bool) : string :=
  match stop_reason with
  | None => "stop"
  | Some reason =>
      if negb strict then reason
      else if existsb (String.eqb reason) ["stop_sequence"; "end_turn"; "pause_turn"] then "stop"
      else if String.eqb reason "tool_use" then "tool_calls"
      else if String.eqb reason "max_tokens" then "length"
      else "stop"
  end.

Definition map_finish_reason (finish_reason : option string) : string :=
  match finish_reason with
  | Some r =>
      if String.eqb r "length" then "max_tokens"
      else if String.eqb r "tool_calls" || String.eqb r "function_call" then "tool_use"
      else "end_turn"
  | None => "end_turn"
  end.

Definition items_of (response : Value) (k : string) : list Value :=
  match get response k ≫= as_array with Some l => l | None => [] end.

Section Responses.
Context `{SerdeJson} (clock : WallClock).

(** ** Anthropic messages to an OpenAI chat completion *)

(** The loop over the content items: the text so far and the tool calls so far. *)
Definition take_item (acc : string * list Value) (item : Value) : string * list Value :=
  let '(content, tool_calls) := acc in
  match str_of item "type" with
  | Some t =>
      if String.eqb t "text" then (match str_of item "text" with Some text => content +:+ text | None => content end, tool_calls)
      else if String.eqb t "tool_use" then
        let arguments := match to_vec (or_null (get item "input")) with Ok s => s | Err _ => "null" end in
        (content, tool_calls ++ [ {{ "id" ≔ or_null (get item "id"); "type" ≔ Str "function";
                                     "function" ≔ {{ "name" ≔ or_null (get item "name"); "arguments" ≔ Str arguments }} }} ])
      else acc
  | None => acc
  end.

Definition openai_usage (usage_src : Value) : Value :=
  let input := i64_field usage_src "input_tokens" in
  let output := i64_field usage_src "output_tokens" in
  let cache_creation := i64_field usage_src "cache_creation_input_tokens" in
  let cache_read := i64_field usage_src "cache_read_input_tokens" in
  let usage := [("prompt_tokens", from_i64 (i64_add (i64_add input cache_creation) cache_read));
                ("completion_tokens", from_i64 output);
                ("total_tokens", from_i64 (i64_add (i64_add (i64_add input output) cache_creation) cache_read))] in
  if negb (cache_creation =? 0) || negb (cache_read =? 0) then
    let usage := with_field "cache_read_input_tokens" (get usage_src "cache_read_input_tokens") usage in
    Obj (with_field "cache_creation_input_tokens" (get usage_src "cache_creation_input_tokens") usage)
  else Obj usage.

Definition anthropic_chat_to_openai (response : Value) (strict : bool) : Value :=
  let content_items := items_of response "content" in
  let '(content, tool_calls) := fold_left take_item content_items ("", []) in
  let usage := openai_usage (or_null (get response "usage")) in
  let message := [("role", Str "assistant"); ("content", Str content)] in
  let message := match tool_calls with [] => message | _ => map_insert "tool_calls" (Arr tool_calls) message end in
  let message := if negb strict
                 then map_insert "content_blocks" (Arr (List.filter (fun item => negb (has_type item "tool_use")) content_items)) message
                 else message in
  {{ "id" ≔ or_null (get response "id"); "object" ≔ Str "chat.completion"; "created" ≔ from_u64 (wall_secs clock);
     "model" ≔ or_null (get response "model"); "provider" ≔ Str "anthropic";
     "choices" ≔ Arr [ {{ "message" ≔ Obj message; "index" ≔ from_u64 0; "logprobs" ≔ Null;
                          "finish_reason" ≔ Str (transform_finish_reason (str_of response "stop_reason") strict) }} ];
     "usage" ≔ usage }}.

(** ** Anthropic's legacy completions *)

Definition anthropic_complete_to_openai (response : Value) : Value :=
  {{ "id" ≔ or_null (get response "log_id"); "object" ≔ Str "text_completion"; "created" ≔ from_u64 (wall_secs clock);
     "model" ≔ or_null (get response "model"); "provider" ≔ Str "anthropic";
     "choices" ≔ Arr [ {{ "text" ≔ or_null (get response "completion"); "index" ≔ from_u64 0; "logprobs" ≔ Null;
                          "finish_reason" ≔ or_null (get response "stop_reason") }} ] }}.

(** ** An OpenAI chat completion to an Anthropic message *)

Definition tool_use_of_call (call : Value) : Value :=
  let arguments := match get call "function" ≫= fun f => str_of f "arguments" with Some a => a | None => "" end in
  let input := match from_slice arguments with Ok v => v | Err _ => Obj [] end in
  {{ "type" ≔ Str "tool_use"; "id" ≔ or_null (get call "id");
     "name" ≔ or_null (get call "function" ≫= fun f => get f "name"); "input" ≔ input }}.

Definition message_content (message : Value) : list Value :=
  let text := match str_of message "content" with
              | Some t => if String.eqb t "" then [] else [ {{ "type" ≔ Str "text"; "text" ≔ Str t }} ]
              | None => []
              end in
  match text ++ map tool_use_of_call (items_of message "tool_calls") with
  | [] => [ {{ "type" ≔ Str "text"; "text" ≔ Str "" }} ]
  | content => content
  end.

Definition anthropic_usage (response_usage : option Value) : Value :=
  let count k := match response_usage with Some u => i64_field u k | None => 0 end in
  let usage := [("input_tokens", from_i64 (count "prompt_tokens")); ("output_tokens", from_i64 (count "completion_tokens"))] in
  match response_usage with
  | Some u =>
      let usage := with_field "cache_read_input_tokens" (get u "cache_read_input_tokens") usage in
      Obj (with_field "cache_creation_input_tokens" (get u "cache_creation_input_tokens") usage)
  | None => Obj usage
  end.

Definition message_id (response : Value) : string :=
  match str_of response "id" with
  | Some id => if String.eqb id "" then "msg_" +:+ z_to_string (wall_millis clock) else id
  | None => "msg_" +:+ z_to_string (wall_millis clock)
  end.

Definition openai_to_anthropic_messages (response : Value) : Value :=
  let choice := or_null (head (items_of response "choices")) in
  let message := or_null (get choice "message") in
  {{ "id" ≔ Str (message_id response); "type" ≔ Str "message"; "role" ≔ Str "assistant";
     "content" ≔ Arr (message_content message); "model" ≔ or_null (get response "model");
     "stop_reason" ≔ Str (map_finish_reason (str_of choice "finish_reason")); "stop_sequence" ≔ Null;
     "usage" ≔ anthropic_usage (get response "usage") }}.

Definition transform_response (f : ProviderFormat) (endpoint : Endpoint) (body : Value) : Value :=
  match f, endpoint with
  | FmtAnthropic, ChatComplete => anthropic_chat_to_openai body STRICT_OPENAI_COMPLIANCE
  | FmtAnthropic, Complete => anthropic_complete_to_openai body
  | FmtOpenai, Messages => openai_to_anthropic_messages body
  | _, _ => body
  end.
End Responses.

(** ** The shaped response can be sent *)

Lemma as_i64_range v i : wf_value v -> as_i64 v = Some i -> i64_min <= i <= i64_max.
Proof.
  destruct v as [| |[u|z|f]| | |]; cbn; try done.
  - destruct (Z.leb_spec u i64_max) as [Hle|]; [|done]. unfold is_u64, i64_min. intros Hu [= <-]. lia.
  - unfold i64_max. intros Hz [= <-]. lia.
Qed.

Lemma i64_field_range v k : wf_value v -> i64_min <= i64_field v k <= i64_max.
Proof.
  intros Hv. unfold i64_field. destruct (get v k) as [w|] eqn:E; [|unfold i64_min, i64_max; lia].
  destruct (as_i64 w) as [i|] eqn:Ei; [eapply as_i64_range; [|exact Ei]; by eapply wf_get_Some|].
  destruct w; try (unfold i64_min, i64_max; lia). apply trunc_as_i64_range.
Qed.

Lemma i64_wrap_range x : i64_min <= i64_wrap x <= i64_max.
Proof. unfold i64_wrap, i64_min, i64_max. lia. Qed.

Lemma wf_i64_field v k : wf_value v -> wf_value (from_i64 (i64_field v k)).
Proof. intros. by apply wf_from_i64, i64_field_range. Qed.

Lemma wf_i64_add x y : wf_value (from_i64 (i64_add x y)).
Proof. apply wf_from_i64, i64_wrap_range. Qed.

#[export] Hint Resolve wf_i64_field wf_i64_add : wf.

Lemma wf_items_of v k : wf_value v -> wf_all (items_of v k).
Proof.
  intros Hv. unfold items_of. destruct (_ ≫= as_array) as [l|] eqn:E; [|wf]. eapply wf_as_array; [|exact E]. wf.
Qed.
#[export] Hint Resolve wf_items_of : wf.

Lemma valid_finish_reason o strict :
  (forall s, o = Some s -> valid_utf8 s) -> valid_utf8 (transform_finish_reason o strict).
Proof.
  intros Ho. unfold transform_finish_reason. destruct o as [r|]; [|wf]. destruct (negb strict); [auto|].
  destruct (existsb _ _); [wf|]. repeat (destruct (String.eqb r _); [wf|]). wf.
Qed.

Lemma valid_map_finish_reason o : valid_utf8 (map_finish_reason o).
Proof.
  unfold map_finish_reason. destruct o as [r|]; [|wf]. destruct (String.eqb r "length"); [wf|].
  destruct (_ || _); wf.
Qed.

#[export] Hint Resolve valid_map_finish_reason z_to_string_valid : wf.

Section Types.
Context `{SerdeJsonLaws} (clock : WallClock) (Hclock : is_u64 (wall_secs clock)).

Lemma wf_created : wf_value (from_u64 (wall_secs clock)).
Proof. exact Hclock. Qed.
Hint Resolve wf_created : wf.

Lemma wf_take_items items acc :
  wf_all items -> valid_utf8 acc.1 /\ wf_all acc.2 ->
  valid_utf8 (fold_left take_item items acc).1 /\ wf_all (fold_left take_item items acc).2.
Proof.
  intros Hi. revert acc. induction Hi as [|item items Hi _ IH]; intros [content calls] [Hc Ht]; [done|].
  cbn [fold_left]. apply IH. unfold take_item. destruct (str_of item "type") as [t|]; [|done].
  destruct (String.eqb t "text").
  - split; [|done]. cbn. destruct (str_of item "text") as [x|] eqn:E; [|done]. apply valid_str_of in E; wf.
  - destruct (String.eqb t "tool_use"); [|done]. split; [done|]. cbn [snd]. apply wf_app; [done|].
    assert (valid_utf8 match to_vec (or_null (get item "input")) with Ok s => s | Err _ => "null" end)
      by (apply valid_to_vec; wf).
    wf.
Qed.

Lemma wf_openai_usage u : wf_value u -> wf_value (openai_usage u).
Proof.
  intros Hu. unfold openai_usage. destruct (_ || _); [|wf_entries; wf].
  repeat (apply wf_with_field; [wf|wf|]). wf_entries; wf.
Qed.

Lemma wf_anthropic_chat response : wf_value response -> wf_value (anthropic_chat_to_openai clock response STRICT_OPENAI_COMPLIANCE).
Proof.
  intros Hr. unfold anthropic_chat_to_openai.
  destruct (wf_take_items (items_of response "content") ("", [])) as [Hc Ht]; [wf|split; wf|].
  destruct (fold_left take_item (items_of response "content") ("", [])) as [content calls]. cbn in Hc, Ht.
  assert (Hm : wf_value (Obj match calls with
                             | [] => [("role", Str "assistant"); ("content", Str content)]
                             | _ => map_insert "tool_calls" (Arr calls) [("role", Str "assistant"); ("content", Str content)] end)).
  { destruct calls; wf. }
  assert (Hf : valid_utf8 (transform_finish_reason (str_of response "stop_reason") STRICT_OPENAI_COMPLIANCE)).
  { apply valid_finish_reason. intros s. by apply valid_str_of. }
  assert (Hu : wf_value (openai_usage (or_null (get response "usage")))) by (apply wf_openai_usage; wf).
  wf_entries; [wf..|]. exact Hu.
Qed.

Lemma wf_tool_use_of_call call : wf_value call -> wf_value (tool_use_of_call call).
Proof.
  intros Hc. unfold tool_use_of_call. set (input := match from_slice _ with Ok v => v | Err _ => Obj [] end).
  assert (wf_value input).
  { subst input. destruct (from_slice _) as [v|] eqn:E; [by apply from_slice_wf in E as [? _]|wf]. }
  wf_entries; wf.
Qed.

Lemma wf_message_content message : wf_value message -> wf_all (message_content message).
Proof.
  intros Hm. unfold message_content.
  set (text := match str_of message "content" with Some t => _ | None => [] end).
  assert (Hw : wf_all (text ++ map tool_use_of_call (items_of message "tool_calls"))).
  { apply wf_app; [|apply wf_map; [apply wf_tool_use_of_call|wf]].
    subst text. destruct (str_of message "content") as [t|] eqn:E; [|wf]. apply valid_str_of in E; [|done].
    destruct (String.eqb t ""); wf. }
  destruct (text ++ _); [wf|done].
Qed.

Lemma wf_anthropic_usage o : wf_some o -> wf_value (anthropic_usage o).
Proof.
  intros Ho. unfold anthropic_usage. destruct o as [u|]; [|wf]. cbn in Ho.
  repeat (apply wf_with_field; [wf|wf|]). wf_entries; wf.
Qed.

Lemma wf_openai_message response : wf_value response -> wf_value (openai_to_anthropic_messages clock response).
Proof.
  intros Hr. unfold openai_to_anthropic_messages.
  assert (Hid : valid_utf8 (message_id clock response)).
  { unfold message_id. destruct (str_of response "id") as [id|] eqn:E; [|wf]. apply valid_str_of in E; [|done].
    destruct (String.eqb id ""); wf. }
  assert (Hch : wf_value (or_null (head (items_of response "choices")))).
  { pose proof (wf_items_of response "choices" Hr) as Hi. destruct Hi; wf. }
  assert (Hc : wf_all (message_content (or_null (get (or_null (head (items_of response "choices"))) "message")))).
  { apply wf_message_content. wf. }
  assert (Hu : wf_value (anthropic_usage (get response "usage"))) by (apply wf_anthropic_usage; wf).
  wf_entries; [wf..|]. exact Hu.
Qed.
End Types.

(** A success body of an upstream that is JSON is shaped into JSON for every
    format and endpoint: the shaped body is well formed and serialises, so the
    empty default of [unwrap_or_default] is never what the client gets. *)
Theorem response_well_formed `{SerdeJsonLaws} clock f endpoint body :
  is_u64 (wall_secs clock) -> wf_value body ->
  wf_value (transform_response clock f endpoint body) /\ exists bytes, to_vec (transform_response clock f endpoint body) = Ok bytes.
Proof.
  intros Hc Hb. assert (Hw : wf_value (transform_response clock f endpoint body)); [|split; [done|by apply to_vec_total]].
  destruct f, endpoint; cbn [transform_response]; try done.
  - by apply wf_openai_message.
  - by apply wf_anthropic_chat.
  - unfold anthropic_complete_to_openai. pose proof (wf_created clock Hc). wf_entries; wf.
Qed.

Definition demo_clock : WallClock := {| wall_secs := 1700000000; wall_millis := 1700000000000 |}.

Lemma response_well_formed_witness :
  wf_value (@transform_response demo_serde demo_clock FmtAnthropic Complete ({{ "completion" ≔ Str "hi" }}))
  /\ exists bytes, @to_vec demo_serde (@transform_response demo_serde demo_clock FmtAnthropic Complete ({{ "completion" ≔ Str "hi" }})) = Ok bytes.
Proof.
  apply (@response_well_formed demo_serde demo_serde_laws demo_clock FmtAnthropic Complete ({{ "completion" ≔ Str "hi" }})).
  - unfold is_u64, u64_max. cbn. lia.
  - apply wf_valueb_sound. vm_compute. reflexivity.
Defined.

(** ** What the model said survives *)

Inductive Stop := EndTurn | MaxTokens | UseTools.

(** An assistant's turn, whatever the API it is told in.  [t_in] counts every token of
    the prompt, [t_cached] those written to and those read from a cache. *)
Record Turn := {
  t_id : string;
  t_model : string;
  t_text : string;
  t_tools : list ToolUse;
  t_stop : Stop;
  t_in : Z;
  t_out : Z;
  t_cached : Z * Z;
}.

(** Why a turn ended, in the words of either API; what has no word in the other API
    is an ordinary end. *)
Definition anthropic_stop (reason : string) : Stop :=
  if String.eqb reason "max_tokens" then MaxTokens else if String.eqb reason "tool_use" then UseTools else EndTurn.

Definition openai_stop (reason : string) : Stop :=
  if String.eqb reason "length" then MaxTokens
  else if bool_decide (reason ∈ ["tool_calls"; "function_call"]) then UseTools else EndTurn.

(** A token count: a number, or nothing for none. *)
Definition says_count (usage : Value) (key : string) (n : Z) : Prop :=
  get usage key = Some (from_i64 n) \/ (get usage key = None \/ get usage key = Some Null) /\ n = 0.

(** Two spellings of a tool's input, equal but for the digits of floats. *)
Definition same_input (v w : Value) : Prop := erase_floats v = erase_floats w.

Definition block_uses (b : Value) (u : ToolUse) : Prop :=
  str_of b "type" = Some "tool_use" /\ str_of b "id" = Some (tu_id u) /\ str_of b "name" = Some (tu_name u)
  /\ exists input, get b "input" = Some input /\ same_input input (tu_input u).

(** What the blocks of an Anthropic message say: the texts one after the other, and
    the tool uses in order, wherever they stand; blocks of other types (thinking)
    have no place in a turn. *)
Inductive blocks_say : list Value -> string -> list ToolUse -> Prop :=
| say_nothing : blocks_say [] "" []
| say_text b t l text tools :
    str_of b "type" = Some "text" -> str_of b "text" = Some t -> blocks_say l text tools -> blocks_say (b :: l) (t +:+ text) tools
| say_use b u l text tools : block_uses b u -> blocks_say l text tools -> blocks_say (b :: l) text (u :: tools)
| say_other b ty l text tools :
    str_of b "type" = Some ty -> ty ∉ ["text"; "tool_use"] -> blocks_say l text tools -> blocks_say (b :: l) text tools.

(** Anthropic's API counts the tokens of the cache apart from the other input. *)
Record anthropic_says (v : Value) (t : Turn) : Prop := {
  an_id : str_of v "id" = Some (t_id t);
  an_model : str_of v "model" = Some (t_model t);
  an_content : exists blocks, get v "content" = Some (Arr blocks) /\ blocks_say blocks (t_text t) (t_tools t);
  an_stop : exists reason, str_of v "stop_reason" = Some reason /\ anthropic_stop reason = t_stop t;
  an_usage : exists usage input, get v "usage" = Some usage
    /\ says_count usage "input_tokens" input /\ says_count usage "output_tokens" (t_out t)
    /\ says_count usage "cache_creation_input_tokens" (t_cached t).1 /\ says_count usage "cache_read_input_tokens" (t_cached t).2
    /\ t_in t = input + (t_cached t).1 + (t_cached t).2;
}.

Section Preserved.
Context `{SerdeJsonLaws} (clock : WallClock).

(** OpenAI's API gives the input of a tool as JSON text, empty for a tool without. *)
Definition call_uses (call : Value) (u : ToolUse) : Prop :=
  str_of call "id" = Some (tu_id u)
  /\ exists f arguments, get call "function" = Some f /\ str_of f "name" = Some (tu_name u) /\ str_of f "arguments" = Some arguments
     /\ ((exists input, from_slice arguments = Ok input /\ same_input input (tu_input u))
         \/ arguments = "" /\ tu_input u = Obj []).

(** OpenAI's API counts every token of the prompt. *)
Record openai_says (v : Value) (t : Turn) : Prop := {
  oa_id : str_of v "id" = Some (t_id t);
  oa_model : str_of v "model" = Some (t_model t);
  oa_message : exists choice rest message, get v "choices" = Some (Arr (choice :: rest)) /\ get choice "message" = Some message
    /\ (str_of message "content" = Some (t_text t) \/ str_of message "content" = None /\ t_text t = "")
    /\ Forall2 call_uses (items_of message "tool_calls") (t_tools t)
    /\ exists reason, str_of choice "finish_reason" = Some reason /\ openai_stop reason = t_stop t;
  oa_usage : exists usage, get v "usage" = Some usage
    /\ says_count usage "prompt_tokens" (t_in t) /\ says_count usage "completion_tokens" (t_out t)
    /\ says_count usage "cache_creation_input_tokens" (t_cached t).1 /\ says_count usage "cache_read_input_tokens" (t_cached t).2;
}.

(** Counts an API can report. *)
Definition countable_turn (t : Turn) : Prop :=
  0 <= (t_cached t).1 /\ 0 <= (t_cached t).2 /\ (t_cached t).1 + (t_cached t).2 <= t_in t
  /\ 0 <= t_out t /\ t_in t + t_out t <= i64_max.

Lemma str_of_get v k t : str_of v k = Some t -> get v k = Some (Str t).
Proof. unfold str_of. intros (w & -> & Hw)%bind_Some. destruct w; try done. by injection Hw as ->. Qed.

Lemma says_count_field usage key n : 0 <= n <= i64_max -> says_count usage key n -> i64_field usage key = n.
Proof.
  intros Hn [Hg|[[Hg|Hg] ->]]; unfold i64_field; rewrite Hg; [|done..]. unfold from_i64. destruct (Z.ltb_spec n 0); [lia|]. cbn.
  destruct (Z.leb_spec n i64_max); [done|lia].
Qed.

(** ** Inputs can be printed and read back *)

Lemma depth_entry k v (m : list (string * Value)) : map_get k m = Some v -> (depth v <= depth (Obj m))%nat.
Proof.
  intros Hg. cbn. apply Nat.le_le_succ_r. induction m as [|[k' w] m IH]; [done|]. cbn in *.
  destruct (String.eqb k k'); [injection Hg as ->; lia|]. specialize (IH Hg). lia.
Qed.

Lemma depth_item v (l : list Value) : v ∈ l -> (depth v <= depth (Arr l))%nat.
Proof. intros Hv. cbn. apply Nat.le_le_succ_r. induction Hv as [w l|v w l _ IH]; cbn; lia. Qed.

Lemma parsable_get v k w : parsable v -> get v k = Some w -> parsable w.
Proof.
  intros [Hw Hd] Hg. split; [by eapply wf_get_Some|]. destruct v as [| | | | |m]; try done. etrans; [by eapply depth_entry|done].
Qed.

Lemma parsable_items l : parsable (Arr l) -> Forall parsable l.
Proof.
  intros [Hw%wf_value_Arr Hd]. apply Forall_forall. intros v Hv. unfold wf_all in Hw. rewrite Forall_forall in Hw. split; [by apply Hw|].
  etrans; [by apply depth_item|done].
Qed.

(** ** From Anthropic's telling *)

Lemma take_blocks l text tools :
  blocks_say l text tools -> Forall parsable l -> forall content calls,
  exists cs, fold_left take_item l (content, calls) = (content +:+ text, calls ++ cs) /\ Forall2 call_uses cs tools.
Proof.
  induction 1 as [|b t l text tools Hty Ht _ IH|b u l text tools (Hty & Hid & Hname & input & Hin & Hsame) _ IH|b ty l text tools Hty Hno _ IH];
    intros Hp content calls.
  - exists []. cbn. by rewrite app_nil_r, string_app_nil_r.
  - inversion_clear Hp as [|?? _ Hp']. cbn [fold_left]. unfold take_item at 2. rewrite Hty, Ht. cbn [String.eqb Ascii.eqb Bool.eqb].
    destruct (IH Hp' (content +:+ t) calls) as (cs & Hcs & Hu). exists cs. split; [|done]. rewrite Hcs. f_equal. by rewrite string_app_assoc.
  - inversion_clear Hp as [|?? Hb Hp']. cbn [fold_left]. unfold take_item at 2. rewrite Hty. cbn [String.eqb Ascii.eqb Bool.eqb].
    apply str_of_get in Hid, Hname. rewrite Hid, Hname, Hin. cbn [or_null].
    destruct (parsable_get _ _ _ Hb Hin) as [Hwf Hd]. destruct (to_vec_total _ Hwf) as [s Ht].
    destruct (from_slice_to_vec _ _ Hwf Hd Ht) as (v & Hv & He). rewrite Ht.
    edestruct (IH Hp' content) as (cs & Hcs & Hu). rewrite Hcs. eexists (_ :: cs). rewrite <- app_assoc. split; [reflexivity|].
    constructor; [|done]. split; [done|]. eexists _, s. split; [reflexivity|]. split; [reflexivity|]. split; [reflexivity|].
    left. exists v. split; [done|]. unfold same_input in *. congruence.
  - inversion_clear Hp as [|?? _ Hp']. cbn [fold_left]. unfold take_item at 2. rewrite Hty.
    rewrite !not_elem_of_cons in Hno. destruct Hno as (H1 & H2 & _). apply String.eqb_neq in H1, H2. rewrite H1, H2. by apply IH.
Qed.

Lemma finish_reason_kept reason : openai_stop (transform_finish_reason (Some reason) true) = anthropic_stop reason.
Proof.
  unfold transform_finish_reason, anthropic_stop. cbn [negb existsb].
  destruct (String.eqb_spec reason "stop_sequence") as [->|]; [done|]. destruct (String.eqb_spec reason "end_turn") as [->|]; [done|].
  destruct (String.eqb_spec reason "pause_turn") as [->|]; [done|]. cbn [orb].
  destruct (String.eqb_spec reason "tool_use") as [->|]; [done|]. by destruct (String.eqb_spec reason "max_tokens") as [->|].
Qed.

Lemma openai_usage_counts usage input t :
  countable_turn t -> says_count usage "input_tokens" input -> says_count usage "output_tokens" (t_out t) ->
  says_count usage "cache_creation_input_tokens" (t_cached t).1 -> says_count usage "cache_read_input_tokens" (t_cached t).2 ->
  t_in t = input + (t_cached t).1 + (t_cached t).2 ->
  says_count (openai_usage usage) "prompt_tokens" (t_in t) /\ says_count (openai_usage usage) "completion_tokens" (t_out t)
  /\ says_count (openai_usage usage) "total_tokens" (t_in t + t_out t)
  /\ says_count (openai_usage usage) "cache_creation_input_tokens" (t_cached t).1
  /\ says_count (openai_usage usage) "cache_read_input_tokens" (t_cached t).2.
Proof.
  intros (Hc & Hr & Hcr & Ho & Hs) Hi Hout Hcc Hcrd Hin. unfold openai_usage.
  rewrite (says_count_field usage "input_tokens" input), (says_count_field usage "output_tokens" (t_out t)),
    (says_count_field usage "cache_creation_input_tokens" (t_cached t).1), (says_count_field usage "cache_read_input_tokens" (t_cached t).2) by (done || lia).
  assert (Hw : forall z, 0 <= z <= i64_max -> i64_wrap z = z) by (intros z Hz; apply i64_wrap_small; unfold i64_min; lia).
  assert (Hsum : i64_add (i64_add input (t_cached t).1) (t_cached t).2 = t_in t).
  { unfold i64_add. rewrite (Hw (input + _)), Hw by lia. lia. }
  assert (Htotal : i64_add (i64_add (i64_add input (t_out t)) (t_cached t).1) (t_cached t).2 = t_in t + t_out t).
  { unfold i64_add. rewrite (Hw (input + _)), (Hw (input + _ + _)), Hw by lia. lia. }
  rewrite Hsum, Htotal.
  unfold says_count in *. destruct (negb _ || negb _) eqn:Ez.
  - revert Hcc Hcrd. destruct (get usage "cache_read_input_tokens") as [r|], (get usage "cache_creation_input_tokens") as [c|]; intros Hcc Hcrd;
      cbn [with_field map_insert String.eqb Ascii.eqb Bool.eqb get map_get]; split_and!; tauto.
  - assert ((t_cached t).1 = 0 /\ (t_cached t).2 = 0) as [-> ->] by lia. cbn [get map_get String.eqb Ascii.eqb Bool.eqb]. tauto.
Qed.

Lemma anthropic_to_openai v t :
  parsable v -> countable_turn t -> anthropic_says v t ->
  openai_says (anthropic_chat_to_openai clock v true) t
  /\ exists usage, get (anthropic_chat_to_openai clock v true) "usage" = Some usage /\ says_count usage "total_tokens" (t_in t + t_out t).
Proof.
  intros Hp Hc [Hid Hmodel (blocks & Hb & Hsay) (reason & Hr & Hstop) (usage & input & Hu & Hi & Hout & Hcc & Hcr & Hin)].
  unfold anthropic_chat_to_openai. unfold items_of. rewrite Hb, Hu, Hr. cbn [mbind option_bind as_array or_null].
  destruct (take_blocks _ _ _ Hsay (parsable_items _ (parsable_get _ _ _ Hp Hb)) "" []) as (cs & Hcs & Huse). rewrite Hcs.
  destruct (openai_usage_counts _ _ _ Hc Hi Hout Hcc Hcr Hin) as (H1 & H2 & H3 & H4 & H5).
  apply str_of_get in Hid, Hmodel. rewrite Hid, Hmodel. cbn [negb or_null]. split; [|by eexists]. split.
  - done.
  - done.
  - eexists _, _, _. split; [reflexivity|]. split; [reflexivity|]. cbn [app]. split; [|split].
    + left. by destruct cs.
    + unfold items_of. destruct cs; [by inversion Huse|exact Huse].
    + eexists. split; [reflexivity|]. by rewrite finish_reason_kept.
  - eexists. split; [reflexivity|]. tauto.
Qed.

(** ** From OpenAI's telling *)

Lemma uses_of_calls calls tools : Forall2 call_uses calls tools -> blocks_say (map tool_use_of_call calls) "" tools.
Proof.
  induction 1 as [|call u calls tools (Hid & f & args & Hf & Hname & Hargs & Hin) _ IH]; [constructor|]. cbn [map].
  apply say_use; [|done]. unfold tool_use_of_call. rewrite Hf. cbn [mbind option_bind]. rewrite Hargs.
  apply str_of_get in Hid, Hname. rewrite Hid, Hname. split; [done|]. split; [done|]. split; [done|].
  destruct Hin as [(input & Hi & Hs)|[-> Hempty]]; eexists; (split; [reflexivity|]).
  - by rewrite Hi.
  - rewrite Hempty. by destruct (from_slice "") as [v|] eqn:E; [by apply from_slice_empty in E|].
Qed.

Lemma message_content_says message t :
  str_of message "content" = Some (t_text t) \/ str_of message "content" = None /\ t_text t = "" ->
  Forall2 call_uses (items_of message "tool_calls") (t_tools t) -> blocks_say (message_content message) (t_text t) (t_tools t).
Proof.
  intros Htext Huse%uses_of_calls. unfold message_content.
  assert (Hb : blocks_say ((match str_of message "content" with
                | Some t => if String.eqb t "" then [] else [ {{ "type" ≔ Str "text"; "text" ≔ Str t }} ]
                | None => [] end) ++ map tool_use_of_call (items_of message "tool_calls")) (t_text t) (t_tools t)).
  { destruct Htext as [->|[-> ->]]; [|done]. destruct (String.eqb_spec (t_text t) "") as [->|Hne]; [done|]. cbn [app].
    rewrite <- (string_app_nil_r (t_text t)) at 2. by apply say_text. }
  destruct (_ ++ _) as [|b bs]; [|done]. inversion Hb. change "" with ("" +:+ ""). apply say_text; [done|done|constructor].
Qed.

Lemma stop_reason_kept reason : anthropic_stop (map_finish_reason (Some reason)) = openai_stop reason.
Proof.
  unfold map_finish_reason, openai_stop. destruct (String.eqb_spec reason "length"); [done|].
  destruct (String.eqb_spec reason "tool_calls") as [->|]; [done|]. by destruct (String.eqb_spec reason "function_call") as [->|];
    [|rewrite bool_decide_eq_false_2 by set_solver].
Qed.

Lemma openai_to_anthropic v t :
  t_id t <> "" -> countable_turn t -> t_cached t = (0, 0) -> openai_says v t ->
  anthropic_says (openai_to_anthropic_messages clock v) t.
Proof.
  intros Hne (_ & _ & Hle & Ho & Hs) Hz [Hid Hmodel (choice & rest & message & Hch & Hm & Htext & Huse & reason & Hr & Hstop) (usage & Hu & Hin & Hout & Hcc & Hcr)].
  rewrite Hz in *. cbn [fst snd] in *.
  unfold openai_to_anthropic_messages. unfold items_of at 1 2. rewrite Hch, Hu. cbn [mbind option_bind as_array head or_null]. rewrite Hm, Hr. cbn [or_null].
  split.
  - unfold message_id. rewrite Hid. apply String.eqb_neq in Hne. by rewrite Hne.
  - apply str_of_get in Hmodel. by rewrite Hmodel.
  - eexists. split; [reflexivity|]. by apply message_content_says.
  - eexists. split; [reflexivity|]. by rewrite stop_reason_kept.
  - eexists _, (t_in t). split; [reflexivity|]. rewrite Hz. cbn [fst snd]. unfold anthropic_usage.
    rewrite (says_count_field usage "prompt_tokens" (t_in t)), (says_count_field usage "completion_tokens" (t_out t)) by (done || lia). unfold says_count in *.
    revert Hcc Hcr. destruct (get usage "cache_read_input_tokens") as [r|], (get usage "cache_creation_input_tokens") as [c|]; intros Hcc Hcr;
      cbn [with_field map_insert String.eqb Ascii.eqb Bool.eqb get map_get]; split_and!; tauto || lia.
Qed.
End Preserved.

(** C25: The client reads the turn the model produced, in the client's own API.  A
    message of Anthropic's API, with any number of text and tool blocks in any order,
    any stop reason and counts of cached tokens, becomes a chat completion that tells
    the same turn: its id, model, whole text, tool uses in order, why it ended, and
    every token of the prompt and of the answer, in all [total_tokens].  And a chat
    completion of an OpenAI upstream (that counts no cached tokens apart) becomes a
    message that tells the same turn.  Inputs of tools are equal but for the digits
    of floats. *)
Theorem response_turn_preserved `{SerdeJsonLaws} clock v t :
  countable_turn t ->
  (parsable v -> anthropic_says v t ->
     openai_says (transform_response clock FmtAnthropic ChatComplete v) t
     /\ exists usage, get (transform_response clock FmtAnthropic ChatComplete v) "usage" = Some usage
          /\ says_count usage "total_tokens" (t_in t + t_out t))
  /\ (t_id t <> "" -> t_cached t = (0, 0) -> openai_says v t ->
     anthropic_says (transform_response clock FmtOpenai Messages v) t).
Proof. intros Hc. split; [intros Hp; by apply anthropic_to_openai|intros ? ?; by apply openai_to_anthropic]. Qed.

(** Thinking, two texts around a tool use, and a cache. *)
Definition demo_message : Value :=
  {{ "id" ≔ Str "msg_1"; "model" ≔ Str "m"; "stop_reason" ≔ Str "tool_use";
     "content" ≔ Arr [ {{ "type" ≔ Str "thinking"; "thinking" ≔ Str "hm" }};
                       {{ "type" ≔ Str "text"; "text" ≔ Str "let me " }};
                       {{ "type" ≔ Str "tool_use"; "id" ≔ Str "t1"; "name" ≔ Str "search"; "input" ≔ {{ "q" ≔ Str "x" }} }};
                       {{ "type" ≔ Str "text"; "text" ≔ Str "see" }} ];
     "usage" ≔ {{ "input_tokens" ≔ from_i64 7; "output_tokens" ≔ from_i64 5; "cache_creation_input_tokens" ≔ Null;
                  "cache_read_input_tokens" ≔ from_i64 3 }} }}.

Definition demo_turn : Turn :=
  {| t_id := "msg_1"; t_model := "m"; t_text := "let me see"; t_tools := [demo_tool]; t_stop := UseTools; t_in := 10; t_out := 5;
     t_cached := (0, 3) |}.

Lemma demo_message_says : anthropic_says demo_message demo_turn.
Proof.
  split; [done|done| | |].
  - eexists. split; [reflexivity|]. eapply say_other; [done|set_solver|]. eapply (say_text _ "let me " _ "see"); [done|done|].
    apply say_use; [split_and!; try done; by eexists|]. eapply (say_text _ "see" _ ""); [done|done|constructor].
  - by eexists.
  - eexists _, 7. split; [reflexivity|]. split; [by left|]. split; [by left|]. split; [right; by auto|]. split; [by left|]. done.
Qed.

Lemma response_turn_preserved_witness :
  @openai_says demo_serde (@transform_response demo_serde demo_clock FmtAnthropic ChatComplete demo_message) demo_turn.
Proof.
  apply (@response_turn_preserved demo_serde demo_serde_laws demo_clock demo_message demo_turn).
  - unfold countable_turn, i64_max. cbn. lia.
  - split; [apply wf_valueb_sound; vm_compute; reflexivity|]. apply Nat.leb_le. reflexivity.
  - exact demo_message_says.
Defined.

(** A chat completion that counts cached tokens apart, as the one this gateway makes of
    an Anthropic message, becomes a message in which they are counted twice: the input
    count has them and so has the count of the cache. *)
Theorem cached_tokens_counted_twice `{SerdeJsonLaws} clock v t usage :
  countable_turn t -> t_cached t <> (0, 0) -> openai_says v t -> get (transform_response clock FmtOpenai Messages v) "usage" = Some usage ->
  says_count usage "input_tokens" (t_in t) /\ says_count usage "cache_creation_input_tokens" (t_cached t).1
  /\ says_count usage "cache_read_input_tokens" (t_cached t).2 /\ t_in t < t_in t + (t_cached t).1 + (t_cached t).2.
Proof.
  intros (Hc & Hr & Hle & Ho & Hs) Hnz Hsay Hg. destruct (oa_usage _ _ Hsay) as (u & Hu & Hin & Hout & Hcc & Hcr).
  cbn in Hg. rewrite Hu in Hg. injection Hg as <-. unfold anthropic_usage.
  rewrite (says_count_field u "prompt_tokens" (t_in t)), (says_count_field u "completion_tokens" (t_out t)) by (done || lia). unfold says_count in *.
  assert (0 < (t_cached t).1 + (t_cached t).2) by (destruct (t_cached t) as [[] []]; cbn in *; (lia || done)).
  revert Hcc Hcr. destruct (get u "cache_read_input_tokens") as [r|], (get u "cache_creation_input_tokens") as [c|]; intros Hcc Hcr;
    cbn [with_field map_insert String.eqb Ascii.eqb Bool.eqb get map_get]; split_and!; tauto || lia.
Qed.
