(* ===== verification/StreamTransform.v ===== *)
(** * Streaming response shaping

    Model of [src/middleware/stream_transform.rs]: the three machines that turn
    the events of an upstream's stream into events of the client's API, and the
    adapter that cuts the byte stream into events.  The clock is read anew for
    every event: [clocks n] is its reading at the [n]th. *)
From S2P Require Import Prelude StrOps Json Serde Canonical Identity JsonWf Float Router RequestTransform RequestTypes ResponseTransform.
From S2P Require Import Sse Service Forward Streaming.

Inductive StreamTransform := AnthropicToOpenaiChat | OpenaiToAnthropicMessages | AnthropicCompleteToOpenai.

Definition split_pattern (t : StreamTransform) : string :=
  match t with
  | AnthropicCompleteToOpenai => String CR (String NL (String CR nl))
  | _ => String NL nl
  end.

Definition provider (t : StreamTransform) : string :=
  match t with OpenaiToAnthropicMessages => "openai" | _ => "anthropic" end.

Definition select_stream_transform (f : ProviderFormat) (endpoint : Endpoint) : option StreamTransform :=
  match f, endpoint with
  | FmtAnthropic, ChatComplete => Some AnthropicToOpenaiChat
  | FmtAnthropic, Complete => Some AnthropicCompleteToOpenai
  | FmtOpenai, Messages => Some OpenaiToAnthropicMessages
  | _, _ => None
  end.

Record StreamState := {
  tool_index : option Z;
  usage : option Value;
  model : option string;
  ss_id : option string;
  input_tokens : Z;
  output_tokens : Z;
  has_started : bool;
  content_block_started : bool;
  current_content_index : Z;
  tool_calls_started : list Z;
  finish_reason : option string;
}.

Definition StreamState_default : StreamState :=
  {| tool_index := None; usage := None; model := None; ss_id := None; input_tokens := 0; output_tokens := 0;
     has_started := false; content_block_started := false; current_content_index := 0; tool_calls_started := [];
     finish_reason := None |}.

(** Assignments to fields. *)
Definition set_tool_index (x : option Z) (s : StreamState) : StreamState :=
  {| tool_index := x; usage := usage s; model := model s; ss_id := ss_id s; input_tokens := input_tokens s;
     output_tokens := output_tokens s; has_started := has_started s; content_block_started := content_block_started s;
     current_content_index := current_content_index s; tool_calls_started := tool_calls_started s; finish_reason := finish_reason s |}.
Definition set_start (m : option string) (u : option Value) (s : StreamState) : StreamState :=
  {| tool_index := tool_index s; usage := u; model := m; ss_id := ss_id s; input_tokens := input_tokens s;
     output_tokens := output_tokens s; has_started := has_started s; content_block_started := content_block_started s;
     current_content_index := current_content_index s; tool_calls_started := tool_calls_started s; finish_reason := finish_reason s |}.
Definition set_seen (i m : option string) (it ot : Z) (s : StreamState) : StreamState :=
  {| tool_index := tool_index s; usage := usage s; model := m; ss_id := i; input_tokens := it;
     output_tokens := ot; has_started := has_started s; content_block_started := content_block_started s;
     current_content_index := current_content_index s; tool_calls_started := tool_calls_started s; finish_reason := finish_reason s |}.
Definition set_has_started (s : StreamState) : StreamState :=
  {| tool_index := tool_index s; usage := usage s; model := model s; ss_id := ss_id s; input_tokens := input_tokens s;
     output_tokens := output_tokens s; has_started := true; content_block_started := content_block_started s;
     current_content_index := current_content_index s; tool_calls_started := tool_calls_started s; finish_reason := finish_reason s |}.
Definition set_block_started (b : bool) (s : StreamState) : StreamState :=
  {| tool_index := tool_index s; usage := usage s; model := model s; ss_id := ss_id s; input_tokens := input_tokens s;
     output_tokens := output_tokens s; has_started := has_started s; content_block_started := b;
     current_content_index := current_content_index s; tool_calls_started := tool_calls_started s; finish_reason := finish_reason s |}.
Definition set_tools (l : list Z) (s : StreamState) : StreamState :=
  {| tool_index := tool_index s; usage := usage s; model := model s; ss_id := ss_id s; input_tokens := input_tokens s;
     output_tokens := output_tokens s; has_started := has_started s; content_block_started := content_block_started s;
     current_content_index := current_content_index s; tool_calls_started := l; finish_reason := finish_reason s |}.
Definition set_finish (r : option string) (s : StreamState) : StreamState :=
  {| tool_index := tool_index s; usage := usage s; model := model s; ss_id := ss_id s; input_tokens := input_tokens s;
     output_tokens := output_tokens s; has_started := has_started s; content_block_started := content_block_started s;
     current_content_index := current_content_index s; tool_calls_started := tool_calls_started s; finish_reason := r |}.

(** [BTreeSet::insert], the set as its ascending elements. *)
Fixpoint btree_set_insert (x : Z) (l : list Z) : list Z :=
  match l with
  | [] => [x]
  | y :: l' => if x <? y then x :: l else if x =? y then l else y :: btree_set_insert x l'
  end.

Definition stream_i64_field (value : Value) (key : string) : Z :=
  match get value key ≫= as_i64 with Some i => i | None => 0 end.

Definition is_line_end (c : ascii) : bool := Ascii.eqb c CR || Ascii.eqb c NL.

(** The text after the first line, without line ends at its front. *)
Definition after_first_line (text : string) : string :=
  match find_sub nl text with Some n => drop_while is_line_end (str_drop (S n) text) | None => "" end.

Definition without_data (text : string) : string := match strip_prefix "data: " text with Some t => t | None => text end.

Definition strip_event_and_data (event : string) : string :=
  let text := str_trim event in
  let text := if starts_with "event: " text then after_first_line text else text in
  str_trim (without_data text).

Definition DONE : string := "data: [DONE]" +:+ nl +:+ nl.

Section Machines.
Context `{SerdeJson}.

Definition json_str (v : Value) : string := match to_vec v with Ok s => s | Err _ => "" end.

Definition data_line (v : Value) : string := "data: " +:+ json_str v +:+ nl +:+ nl.

(** ** Anthropic messages to OpenAI chat chunks *)

Section Chat.
Context (clock : WallClock) (fallback_id : string).

(** The chunk object all branches build. *)
Definition chat_chunk (m : string) (choice : Value) (rest : list (string * Value)) : Value :=
  Obj ([("id", Str fallback_id); ("object", Str "chat.completion.chunk"); ("created", from_u64 (wall_secs clock));
        ("model", Str m); ("provider", Str "anthropic"); ("choices", Arr [choice])] ++ rest).

Definition error_chunk (error : Value) : string :=
  let body := chat_chunk "" ({{ "finish_reason" ≔ or_null (get error "type"); "delta" ≔ {{ "content" ≔ Str "" }} }}) [] in
  data_line body +:+ DONE.

Definition start_usage (u : Value) : Value :=
  let input := stream_i64_field u "input_tokens" in
  let cache_read := stream_i64_field u "cache_read_input_tokens" in
  let cache_creation := stream_i64_field u "cache_creation_input_tokens" in
  let state := [("prompt_tokens", from_i64 (i64_add (i64_add input cache_read) cache_creation))] in
  if negb (cache_read =? 0) || negb (cache_creation =? 0) then
    let state := with_field "cache_read_input_tokens" (get u "cache_read_input_tokens") state in
    Obj (with_field "cache_creation_input_tokens" (get u "cache_creation_input_tokens") state)
  else Obj state.

Definition start_chunk (parsed u : Value) (state : StreamState) : string * StreamState :=
  let m := match get parsed "message" ≫= fun m => str_of m "model" with Some m => m | None => "" end in
  let state := set_start (Some m) (Some (start_usage u)) state in
  let body := chat_chunk m ({{ "delta" ≔ {{ "content" ≔ Str "" }}; "index" ≔ from_u64 0; "logprobs" ≔ Null; "finish_reason" ≔ Null }}) [] in
  (data_line body, state).

(** The usage the last chunk reports. *)
Definition final_usage (u : Value) (state : StreamState) : Value :=
  let output := stream_i64_field u "output_tokens" in
  let prompt := match usage state with Some s => stream_i64_field s "prompt_tokens" | None => 0 end in
  let entries := match usage state with Some (Obj m) => m | _ => [] end in
  let out := fold_left (fun out kv => map_insert kv.1 kv.2 out) entries [("completion_tokens", from_i64 output)] in
  Obj (map_insert "total_tokens" (from_i64 (i64_add prompt output)) out).

Definition delta_chunk (parsed u : Value) (m : string) (state : StreamState) (strict : bool) : string :=
  let stop_reason := get parsed "delta" ≫= fun d => str_of d "stop_reason" in
  data_line (chat_chunk m ({{ "index" ≔ from_u64 0; "delta" ≔ {{ }};
                              "finish_reason" ≔ Str (transform_finish_reason stop_reason strict) }})
               [("usage", final_usage u state)]).

Definition json_opt_i64 (o : option Z) : Value := match o with Some i => from_i64 i | None => Null end.

Definition is_tool_block_start (parsed : Value) : bool :=
  has_type parsed "content_block_start"
  && match get parsed "content_block" with Some b => has_type b "tool_use" | None => false end.

(** The argument text of a delta, null being none. *)
Definition partial_json (parsed : Value) : option Value :=
  match get parsed "delta" ≫= fun d => get d "partial_json" with Some Null | None => None | Some v => Some v end.

Definition next_tool_index (o : option Z) : Z :=
  match o with Some n => if negb (n =? 0) then i64_add n 1 else 0 | None => 0 end.

Definition block_chunk (parsed : Value) (m : string) (state : StreamState) : string * StreamState :=
  let state := if is_tool_block_start parsed then set_tool_index (Some (next_tool_index (tool_index state))) state else state in
  let tool_calls :=
    if is_tool_block_start parsed then
      match get parsed "content_block" with
      | Some block =>
          [ {{ "index" ≔ json_opt_i64 (tool_index state); "id" ≔ or_null (get block "id"); "type" ≔ Str "function";
               "function" ≔ {{ "name" ≔ or_null (get block "name"); "arguments" ≔ Str "" }} }} ]
      | None => []
      end
    else if has_type parsed "content_block_delta" && bool_decide (is_Some (partial_json parsed)) then
      [ {{ "index" ≔ json_opt_i64 (tool_index state); "function" ≔ {{ "arguments" ≔ or_null (partial_json parsed) }} }} ]
    else [] in
  let delta := with_field "content" (get parsed "delta" ≫= fun d => get d "text") [] in
  let delta := match tool_calls with [] => delta | _ => map_insert "tool_calls" (Arr tool_calls) delta end in
  (data_line (chat_chunk m ({{ "delta" ≔ Obj delta; "index" ≔ from_u64 0; "logprobs" ≔ Null; "finish_reason" ≔ Null }}) []), state).

Definition anthropic_chat_chunk (parsed : Value) (state : StreamState) (strict : bool) : option string * StreamState :=
  let m := match model state with Some m => m | None => "" end in
  match (if has_type parsed "error" then get parsed "error" else None) with
  | Some error => (Some (error_chunk error), state)
  | None =>
      match (if has_type parsed "message_start" then get parsed "message" ≫= fun m => get m "usage" else None) with
      | Some u => let '(out, state) := start_chunk parsed u state in (Some out, state)
      | None =>
          match (if has_type parsed "message_delta" then get parsed "usage" else None) with
          | Some u => (Some (delta_chunk parsed u m state strict), state)
          | None => let '(out, state) := block_chunk parsed m state in (Some out, state)
          end
      end
  end.

(** [Err] rejects the event. *)
Definition anthropic_chat_stream (event : string) (state : StreamState) (strict : bool) : result unit (option string) * StreamState :=
  let chunk := str_trim event in
  if starts_with "event: ping" chunk || starts_with "event: content_block_stop" chunk then (Ok None, state)
  else if starts_with "event: message_stop" chunk then (Ok (Some DONE), state)
  else
    match from_slice (strip_event_and_data chunk) with
    | Err _ => (Err tt, state)
    | Ok parsed => let '(out, state) := anthropic_chat_chunk parsed state strict in (Ok out, state)
    end.
End Chat.

(** ** OpenAI chat chunks to Anthropic messages *)

(** One event of the output; the last one is a literal of the source. *)
Inductive OutEvent := Ev (name : string) (data : Value) | MessageStop.

Definition sse_event (name : string) (data : Value) : string :=
  "event: " +:+ name +:+ nl +:+ "data: " +:+ json_str data +:+ nl +:+ nl.

Definition render (e : OutEvent) : string :=
  match e with
  | Ev name data => sse_event name data
  | MessageStop => "event: message_stop" +:+ nl +:+ "data: {" +:+ dquote +:+ "type" +:+ dquote +:+ ": " +:+ dquote
                     +:+ "message_stop" +:+ dquote +:+ "}" +:+ nl +:+ nl
  end.

(** The string the events are pushed on, empty being none. *)
Definition output_of (events : list OutEvent) : option string :=
  match str_join "" (map render events) with "" => None | out => Some out end.

Definition block_stop (i : Z) : OutEvent :=
  Ev "content_block_stop" ({{ "type" ≔ Str "content_block_stop"; "index" ≔ from_i64 i }}).
Definition block_start (i : Z) (block : Value) : OutEvent :=
  Ev "content_block_start" ({{ "type" ≔ Str "content_block_start"; "index" ≔ from_i64 i; "content_block" ≔ block }}).
Definition block_delta (i : Z) (delta : Value) : OutEvent :=
  Ev "content_block_delta" ({{ "type" ≔ Str "content_block_delta"; "index" ≔ from_i64 i; "delta" ≔ delta }}).

Definition done_events (state : StreamState) : list OutEvent :=
  (if content_block_started state then [block_stop (current_content_index state)] else [])
  ++ map block_stop (tool_calls_started state)
  ++ (let fr := finish_reason state in
      let ends_error := match fr with Some f => ends_with "_error" f | None => false end in
      if bool_decide (fr = Some "error") || ends_error then
        let error_type := match fr with Some f => if ends_with "_error" f then f else "api_error" | None => "api_error" end in
        [Ev "error" ({{ "type" ≔ Str "error";
                        "error" ≔ {{ "type" ≔ Str error_type; "message" ≔ Str "The upstream provider returned an error" }} }})]
      else
        [Ev "message_delta" ({{ "type" ≔ Str "message_delta";
                                "delta" ≔ {{ "stop_reason" ≔ Str (map_finish_reason fr); "stop_sequence" ≔ Null }};
                                "usage" ≔ {{ "input_tokens" ≔ from_i64 (input_tokens state);
                                             "output_tokens" ≔ from_i64 (output_tokens state) }} }});
         MessageStop]).

(** What a parsed event leaves in the state before anything is emitted. *)
Definition note_parsed (parsed : Value) (state : StreamState) : StreamState :=
  let or_old (new old : option string) := match new with Some x => Some x | None => old end in
  let count k old := match get parsed "usage" with
                     | Some u => if negb (stream_i64_field u k =? 0) then stream_i64_field u k else old
                     | None => old
                     end in
  set_seen (or_old (str_of parsed "id") (ss_id state)) (or_old (str_of parsed "model") (model state))
    (count "prompt_tokens" (input_tokens state)) (count "completion_tokens" (output_tokens state)) state.

Definition orelse {A} (a b : option A) : option A := match a with Some x => Some x | None => b end.

Definition start_events (clock : WallClock) (fallback_id : string) (parsed : Value) (state : StreamState) : list OutEvent * StreamState :=
  if has_started state then ([], state)
  else
    let id := match orelse (nonempty (str_of parsed "id")) (nonempty (ss_id state)) with
              | Some id => id
              | None => if String.eqb fallback_id "" then "msg_" +:+ z_to_string (wall_millis clock) else fallback_id
              end in
    let m := match orelse (nonempty (str_of parsed "model")) (nonempty (model state)) with Some m => m | None => "unknown" end in
    let tokens := match get parsed "usage" with
                  | Some u => let t := stream_i64_field u "prompt_tokens" in if negb (t =? 0) then t else input_tokens state
                  | None => input_tokens state
                  end in
    ([Ev "message_start"
        ({{ "type" ≔ Str "message_start";
            "message" ≔ {{ "id" ≔ Str id; "type" ≔ Str "message"; "role" ≔ Str "assistant"; "content" ≔ Arr [];
                           "model" ≔ Str m; "stop_reason" ≔ Null; "stop_sequence" ≔ Null;
                           "usage" ≔ {{ "input_tokens" ≔ from_i64 tokens; "output_tokens" ≔ from_u64 0 }} }} }})],
     set_has_started state).

Definition text_events (delta : option Value) (state : StreamState) : list OutEvent * StreamState :=
  match nonempty (delta ≫= fun d => str_of d "content") with
  | None => ([], state)
  | Some content =>
      let i := current_content_index state in
      let start := if content_block_started state then []
                   else [block_start i ({{ "type" ≔ Str "text"; "text" ≔ Str "" }})] in
      (start ++ [block_delta i ({{ "type" ≔ Str "text_delta"; "text" ≔ Str content }})], set_block_started true state)
  end.

Definition call_index (state : StreamState) (tool_call : Value) : Z :=
  i64_add (i64_add (current_content_index state) 1) (stream_i64_field tool_call "index").

(** A call with an id and a name opens a block. *)
Definition open_tool (i : Z) (tool_call : Value) (state : StreamState) : list OutEvent * StreamState :=
  match nonempty (str_of tool_call "id"), get tool_call "function" ≫= fun f => str_of f "name" with
  | Some id, Some name =>
      let closes := content_block_started state && negb (existsb (Z.eqb i) (tool_calls_started state)) in
      let stop := if closes then [block_stop (current_content_index state)] else [] in
      let state := if closes then set_block_started false state else state in
      (stop ++ [block_start i ({{ "type" ≔ Str "tool_use"; "id" ≔ Str id; "name" ≔ Str name; "input" ≔ {{ }} }})],
       set_tools (btree_set_insert i (tool_calls_started state)) state)
  | _, _ => ([], state)
  end.

Definition tool_arguments (i : Z) (tool_call : Value) : list OutEvent :=
  match nonempty (get tool_call "function" ≫= fun f => str_of f "arguments") with
  | Some arguments => [block_delta i ({{ "type" ≔ Str "input_json_delta"; "partial_json" ≔ Str arguments }})]
  | None => []
  end.

Fixpoint tool_events (tool_calls : list Value) (state : StreamState) : list OutEvent * StreamState :=
  match tool_calls with
  | [] => ([], state)
  | tool_call :: tool_calls =>
      let i := call_index state tool_call in
      let '(opened, state) := open_tool i tool_call state in
      let '(rest, state) := tool_events tool_calls state in
      (opened ++ tool_arguments i tool_call ++ rest, state)
  end.

Definition note_finish (choice : Value) (state : StreamState) : StreamState :=
  match str_of choice "finish_reason" with Some r => set_finish (Some r) state | None => state end.

Definition choice_calls (choice : Value) : list Value :=
  match get choice "delta" ≫= fun d => get d "tool_calls" with Some (Arr l) => l | _ => [] end.

Definition choice_events (choice : Value) (state : StreamState) : list OutEvent * StreamState :=
  let delta := get choice "delta" in
  let '(texts, state) := text_events delta state in
  let '(tools, state) := tool_events (choice_calls choice) state in
  (texts ++ tools, note_finish choice state).

Definition parsed_events (clock : WallClock) (fallback_id : string) (parsed : Value) (state : StreamState) : list OutEvent * StreamState :=
  let state := note_parsed parsed state in
  let '(start, state) := start_events clock fallback_id parsed state in
  match head (items_of parsed "choices") with
  | None => (start, state)
  | Some choice => let '(rest, state) := choice_events choice state in (start ++ rest, state)
  end.

Definition is_done (chunk : string) : bool := String.eqb chunk "data: [DONE]" || String.eqb chunk "[DONE]".

Definition message_events (clock : WallClock) (fallback_id event : string) (state : StreamState) : list OutEvent * StreamState :=
  let chunk := str_trim event in
  if is_done chunk then (done_events state, state)
  else
    let payload := without_data chunk in
    if String.eqb payload "" then ([], state)
    else match from_slice payload with
         | Err _ => ([], state)
         | Ok parsed => parsed_events clock fallback_id parsed state
         end.

Definition openai_to_anthropic_messages_stream (clock : WallClock) (fallback_id event : string) (state : StreamState) :
    option string * StreamState :=
  let '(events, state) := message_events clock fallback_id event state in (output_of events, state).

(** ** Anthropic's legacy completions *)

Definition anthropic_complete_stream (clock : WallClock) (event : string) : result unit (option string) :=
  let chunk := str_trim event in
  if starts_with "event: ping" chunk then Ok None
  else
    let payload := if starts_with "event: completion" chunk then after_first_line chunk else chunk in
    let payload := str_trim (without_data payload) in
    if String.eqb payload "[DONE]" then Ok (Some "[DONE]")
    else
      match from_slice payload with
      | Err _ => Err tt
      | Ok parsed =>
          Ok (Some (data_line
            ({{ "id" ≔ or_null (get parsed "log_id"); "object" ≔ Str "text_completion"; "created" ≔ from_u64 (wall_secs clock);
                "model" ≔ or_null (get parsed "model"); "provider" ≔ Str "anthropic";
                "choices" ≔ Arr [ {{ "text" ≔ or_null (get parsed "completion"); "index" ≔ from_u64 0; "logprobs" ≔ Null;
                                     "finish_reason" ≔ or_null (get parsed "stop_reason") }} ] }})))
      end.

Definition apply (t : StreamTransform) (clock : WallClock) (event fallback_id : string) (state : StreamState) :
    result unit (option string) * StreamState :=
  match t with
  | AnthropicToOpenaiChat => anthropic_chat_stream clock fallback_id event state STRICT_OPENAI_COMPLIANCE
  | OpenaiToAnthropicMessages =>
      let '(out, state) := openai_to_anthropic_messages_stream clock fallback_id event state in (Ok out, state)
  | AnthropicCompleteToOpenai => (anthropic_complete_stream clock event, state)
  end.
End Machines.

(** ** The adapter *)

(** [events_seen] counts the events for the clock; the inner stream is the list of
    its answers to polls, [None] being pending. *)
Record SseTransformStream := {
  t_inner : list (option (result ServiceError string));
  t_transform : StreamTransform;
  t_fallback_id : string;
  t_state : StreamState;
  t_buffer : string;
  t_queue : list string;
  inner_done : bool;
  events_seen : nat;
}.

Definition find_subslice (haystack needle : string) : option nat :=
  if String.eqb needle "" || Nat.ltb (String.length haystack) (String.length needle) then None else find_sub needle haystack.

Section Adapter.
Context `{SerdeJson} (clocks : nat -> WallClock).

Definition SseTransformStream_new (inner_ : list (option (result ServiceError string))) (t : StreamTransform) (clock : WallClock) :
    SseTransformStream :=
  {| t_inner := inner_; t_transform := t; t_fallback_id := provider t +:+ "-" +:+ z_to_string (wall_millis clock);
     t_state := StreamState_default; t_buffer := ""; t_queue := []; inner_done := false; events_seen := 0 |}.

Definition with_buffer (b : string) (s : SseTransformStream) : SseTransformStream :=
  {| t_inner := t_inner s; t_transform := t_transform s; t_fallback_id := t_fallback_id s; t_state := t_state s;
     t_buffer := b; t_queue := t_queue s; inner_done := inner_done s; events_seen := events_seen s |}.
Definition with_inner (l : list (option (result ServiceError string))) (s : SseTransformStream) : SseTransformStream :=
  {| t_inner := l; t_transform := t_transform s; t_fallback_id := t_fallback_id s; t_state := t_state s;
     t_buffer := t_buffer s; t_queue := t_queue s; inner_done := inner_done s; events_seen := events_seen s |}.
Definition with_queue (q : list string) (s : SseTransformStream) : SseTransformStream :=
  {| t_inner := t_inner s; t_transform := t_transform s; t_fallback_id := t_fallback_id s; t_state := t_state s;
     t_buffer := t_buffer s; t_queue := q; inner_done := inner_done s; events_seen := events_seen s |}.

(** The stream is over; what was buffered is dropped. *)
Definition end_inner (s : SseTransformStream) : SseTransformStream :=
  {| t_inner := t_inner s; t_transform := t_transform s; t_fallback_id := t_fallback_id s; t_state := t_state s;
     t_buffer := ""; t_queue := t_queue s; inner_done := true; events_seen := events_seen s |}.

Definition emit (event_bytes : string) (s : SseTransformStream) : bool * SseTransformStream :=
  if String.eqb event_bytes "" then (true, s)
  else
    let '(r, state) := apply (t_transform s) (clocks (events_seen s)) (from_utf8_lossy event_bytes) (t_fallback_id s) (t_state s) in
    let next q := {| t_inner := t_inner s; t_transform := t_transform s; t_fallback_id := t_fallback_id s; t_state := state;
                     t_buffer := t_buffer s; t_queue := q; inner_done := inner_done s; events_seen := S (events_seen s) |} in
    match r with
    | Ok (Some out) => (true, next (t_queue s ++ [out]))
    | Ok None => (true, next (t_queue s))
    | Err _ => (false, next (t_queue s))
    end.

(** Every round takes a separator out of the buffer: its length is fuel enough. *)
Fixpoint drain_loop (fuel : nat) (s : SseTransformStream) : SseTransformStream :=
  match fuel with
  | O => s
  | S fuel =>
      let split := split_pattern (t_transform s) in
      match find_subslice (t_buffer s) split with
      | None => s
      | Some pos =>
          let event := str_take pos (t_buffer s) in
          let '(accepted, s) := emit event (with_buffer (str_drop (pos + String.length split) (t_buffer s)) s) in
          if accepted then drain_loop fuel s else end_inner s
      end
  end.

Definition drain_buffer (s : SseTransformStream) : SseTransformStream := drain_loop (S (String.length (t_buffer s))) s.

(** The end of the inner stream flushes what is left, once. *)
Definition inner_ended (s : SseTransformStream) : SseTransformStream :=
  if String.eqb (t_buffer s) "" then end_inner s else (emit (t_buffer s) (end_inner s)).2.

Definition pop (s : SseTransformStream) : StreamPoll * SseTransformStream :=
  match t_queue s with b :: q => (Ready (Some (Ok b)), with_queue q s) | [] => (Ready None, s) end.

Fixpoint sse_poll_loop (inner_ : list (option (result ServiceError string))) (s : SseTransformStream) : StreamPoll * SseTransformStream :=
  match t_queue s with
  | b :: q => (Ready (Some (Ok b)), with_queue q (with_inner inner_ s))
  | [] =>
      if inner_done s then (Ready None, with_inner inner_ s)
      else
        match inner_ with
        | [] => pop (inner_ended (with_inner [] s))
        | None :: rest => (Pending, with_inner rest s)
        | Some (Ok bytes) :: rest => sse_poll_loop rest (drain_buffer (with_buffer (t_buffer s +:+ bytes) s))
        | Some (Err _) :: rest => (Ready None, end_inner (with_inner rest s))
        end
  end.

Definition sse_poll_next (s : SseTransformStream) : StreamPoll * SseTransformStream := sse_poll_loop (t_inner s) s.

(** Polled to its end, the stream gives these chunks. *)
Inductive drained : SseTransformStream -> list string -> Prop :=
| drained_end s s' : sse_poll_next s = (Ready None, s') -> drained s []
| drained_pending s s' out : sse_poll_next s = (Pending, s') -> drained s' out -> drained s out
| drained_chunk s s' b out : sse_poll_next s = (Ready (Some (Ok b)), s') -> drained s' out -> drained s (b :: out).

(** ** The reference *)

(** The complete events of a text, and the rest after the last separator. *)
Fixpoint cut_fuel (fuel : nat) (pat text : string) : list string * string :=
  match fuel with
  | O => ([], text)
  | S fuel =>
      match find_sub pat text with
      | None => ([], text)
      | Some n => let '(evs, rest) := cut_fuel fuel pat (str_drop (n + String.length pat) text) in (str_take n text :: evs, rest)
      end
  end.

Definition cut (pat text : string) : list string * string := cut_fuel (S (String.length text)) pat text.

(** The outputs of a list of events up to the first that is rejected; the state
    after them when none is. *)
Fixpoint run_events (t : StreamTransform) (fallback_id : string) (evs : list string) (n : nat) (state : StreamState) :
    list string * option (nat * StreamState) :=
  match evs with
  | [] => ([], Some (n, state))
  | ev :: evs =>
      if String.eqb ev "" then run_events t fallback_id evs n state
      else
        let '(r, state) := apply t (clocks n) (from_utf8_lossy ev) fallback_id state in
        match r with
        | Err _ => ([], None)
        | Ok o => let '(outs, st) := run_events t fallback_id evs (S n) state in
                  (match o with Some out => out :: outs | None => outs end, st)
        end
  end.

(** The text that arrives before an error or the end, and whether it is the end. *)
Fixpoint arrives (inner_ : list (option (result ServiceError string))) : string * bool :=
  match inner_ with
  | [] => ("", true)
  | None :: rest => arrives rest
  | Some (Err _) :: _ => ("", false)
  | Some (Ok bytes) :: rest => let '(text, ended) := arrives rest in (bytes +:+ text, ended)
  end.

(** What the client should get: the outputs of the complete events, and of what is
    left when the upstream ended its stream properly. *)
Definition shaped (t : StreamTransform) (fallback_id : string) (n : nat) (state : StreamState) (text : string) (ended : bool) : list string :=
  let '(evs, rest) := cut (split_pattern t) text in
  (run_events t fallback_id (if ended then evs ++ [rest] else evs) n state).1.
End Adapter.

(** ** The adapter gives what the reference says *)

Lemma starts_with_app_long needle s b :
  (String.length needle <= String.length s)%nat -> starts_with needle (s +:+ b) = starts_with needle s.
Proof.
  unfold starts_with. revert s. induction needle as [|c needle IH]; intros [|d s] Hl; cbn in *; try done; [by destruct b|lia|].
  destruct (ascii_dec c d); [|done]. apply IH. lia.
Qed.

Lemma find_sub_length needle s n : find_sub needle s = Some n -> (n + String.length needle <= String.length s)%nat.
Proof.
  intros Hn. pose proof (f_equal String.length (find_sub_Some _ _ _ Hn)) as Hl. rewrite !string_app_length in Hl.
  assert (Ht : String.length (str_take n s) = n); [|lia]. clear Hl. revert n Hn.
  induction s as [|c s IH]; intros n; cbn [find_sub]; case_match; [by intros [= <-]|done|by intros [= <-]|].
  intros (m & Hm & ->)%fmap_Some. cbn. by rewrite IH.
Qed.

Lemma find_sub_app needle s b n : find_sub needle s = Some n -> find_sub needle (s +:+ b) = Some n.
Proof.
  revert n. induction s as [|c s IH]; intros n Hn; pose proof (find_sub_length _ _ _ Hn) as Hl; cbn [find_sub] in Hn.
  - destruct needle; [|done]. injection Hn as <-. by destruct b.
  - change (String c s +:+ b) with (String c (s +:+ b)). cbn [find_sub].
    pose proof (starts_with_app_long needle (String c s) b ltac:(lia)) as He. change (String c s +:+ b) with (String c (s +:+ b)) in He.
    rewrite He. destruct (starts_with needle (String c s)); [done|]. apply fmap_Some in Hn as (m & Hm & ->). by rewrite (IH _ Hm).
Qed.

Lemma str_take_app_short n a b : (n <= String.length a)%nat -> str_take n (a +:+ b) = str_take n a.
Proof. revert a. induction n as [|n IH]; intros [|c a] Hn; cbn in *; try done; try lia. rewrite IH; [done|lia]. Qed.

Lemma str_drop_app_short n a b : (n <= String.length a)%nat -> str_drop n (a +:+ b) = str_drop n a +:+ b.
Proof. revert a. induction n as [|n IH]; intros [|c a] Hn; cbn in *; try done; try lia. rewrite IH; [done|lia]. Qed.

Lemma str_drop_length n s : String.length (str_drop n s) = (String.length s - n)%nat.
Proof. revert s. induction n as [|n IH]; intros [|c s]; cbn; done. Qed.

Lemma cut_fuel_enough f1 f2 pat text :
  pat <> "" -> (String.length text < f1)%nat -> (String.length text < f2)%nat -> cut_fuel f1 pat text = cut_fuel f2 pat text.
Proof.
  intros Hp. revert f2 text. induction f1 as [|f1 IH]; intros [|f2] text H1 H2; try lia. cbn [cut_fuel].
  destruct (find_sub pat text) as [n|] eqn:En; [|done]. apply find_sub_length in En.
  assert (String.length pat <> 0)%nat by (destruct pat; cbn; [done|lia]).
  rewrite (IH f2); [done|rewrite str_drop_length; lia..].
Qed.

Lemma cut_eq pat text :
  pat <> "" ->
  cut pat text = match find_sub pat text with
                 | None => ([], text)
                 | Some n => let '(evs, rest) := cut pat (str_drop (n + String.length pat) text) in (str_take n text :: evs, rest)
                 end.
Proof.
  intros Hp. change (cut pat text) with (cut_fuel (S (String.length text)) pat text). cbn [cut_fuel].
  destruct (find_sub pat text) as [n|] eqn:En; [|done]. apply find_sub_length in En.
  assert (String.length pat <> 0)%nat by (destruct pat; cbn; [done|lia]). unfold cut.
  rewrite (cut_fuel_enough (String.length text) (S (String.length (str_drop (n + String.length pat) text))));
    [reflexivity|done|rewrite str_drop_length; lia|lia].
Qed.

Lemma split_pattern_nonempty t : split_pattern t <> "".
Proof. by destruct t. Qed.

Lemma find_subslice_find h t : find_subslice h (split_pattern t) = find_sub (split_pattern t) h.
Proof.
  unfold find_subslice. rewrite (proj2 (String.eqb_neq _ _) (split_pattern_nonempty t)). cbn [orb].
  destruct (Nat.ltb_spec (String.length h) (String.length (split_pattern t))); [|done].
  destruct (find_sub (split_pattern t) h) as [n|] eqn:E; [apply find_sub_length in E; lia|done].
Qed.

Section AdapterFacts.
Context `{SerdeJson} (clocks : nat -> WallClock).

(** What the stream will still give. *)
Definition future (inner_ : list (option (result ServiceError string))) (s : SseTransformStream) : list string :=
  t_queue s ++
  (if inner_done s then []
   else let '(text, ended) := arrives inner_ in
        shaped clocks (t_transform s) (t_fallback_id s) (events_seen s) (t_state s) (t_buffer s +:+ text) ended).

(** A stream that is not over has no complete event waiting. *)
Definition clean (s : SseTransformStream) : Prop := inner_done s = false -> find_sub (split_pattern (t_transform s)) (t_buffer s) = None.

(** One event of a run is one call of [emit]. *)
Lemma emit_run ev evs s :
  let '(accepted, s') := emit clocks ev s in
  t_queue s' ++ (if accepted then (run_events clocks (t_transform s') (t_fallback_id s') evs (events_seen s') (t_state s')).1 else [])
  = t_queue s ++ (run_events clocks (t_transform s) (t_fallback_id s) (ev :: evs) (events_seen s) (t_state s)).1
  /\ t_transform s' = t_transform s /\ t_fallback_id s' = t_fallback_id s /\ t_buffer s' = t_buffer s /\ inner_done s' = inner_done s
  /\ t_inner s' = t_inner s.
Proof.
  unfold emit. cbn [run_events]. destruct (String.eqb ev ""); [done|].
  destruct (apply _ _ _ _ _) as [[[out|]|[]] st]; cbn; [| |done];
    destruct (run_events clocks (t_transform s) (t_fallback_id s) evs (S (events_seen s)) st); cbn; [|done].
  by rewrite <- app_assoc.
Qed.

Lemma shaped_step t fb n st buf text ended pos :
  find_sub (split_pattern t) buf = Some pos ->
  exists evs, shaped clocks t fb n st (buf +:+ text) ended = (run_events clocks t fb (str_take pos buf :: evs) n st).1
    /\ forall n' st', shaped clocks t fb n' st' (str_drop (pos + String.length (split_pattern t)) buf +:+ text) ended
                      = (run_events clocks t fb evs n' st').1.
Proof.
  intros Hf. pose proof (find_sub_length _ _ _ Hf) as Hl. unfold shaped.
  rewrite (cut_eq _ (buf +:+ text)) by apply split_pattern_nonempty. rewrite (find_sub_app _ _ _ _ Hf).
  rewrite str_take_app_short, str_drop_app_short by lia.
  destruct (cut (split_pattern t) (str_drop (pos + String.length (split_pattern t)) buf +:+ text)) as [evs rest].
  exists (if ended then evs ++ [rest] else evs). split; [by destruct ended|done].
Qed.

Lemma drain_loop_ok fuel s inner_ :
  (String.length (t_buffer s) < fuel)%nat -> inner_done s = false ->
  future inner_ (drain_loop clocks fuel s) = future inner_ s /\ clean (drain_loop clocks fuel s).
Proof.
  revert s. induction fuel as [|fuel IH]; intros s Hf Hd; [lia|]. cbn [drain_loop]. rewrite find_subslice_find.
  destruct (find_sub (split_pattern (t_transform s)) (t_buffer s)) as [pos|] eqn:Ep; [|split; [done|intros _; exact Ep]].
  pose proof (find_sub_length _ _ _ Ep) as Hl. pose proof (split_pattern_nonempty (t_transform s)) as Hne.
  assert (0 < String.length (split_pattern (t_transform s)))%nat by (destruct (split_pattern _); [done|cbn; lia]).
  set (s1 := with_buffer _ s).
  assert (Hstep : exists evs text ended, arrives inner_ = (text, ended)
    /\ future inner_ s = t_queue s1 ++ (run_events clocks (t_transform s1) (t_fallback_id s1) (str_take pos (t_buffer s) :: evs) (events_seen s1) (t_state s1)).1
    /\ forall n' st', shaped clocks (t_transform s) (t_fallback_id s) n' st' (t_buffer s1 +:+ text) ended
                      = (run_events clocks (t_transform s) (t_fallback_id s) evs n' st').1).
  { unfold future. rewrite Hd. destruct (arrives inner_) as [text ended].
    destruct (shaped_step (t_transform s) (t_fallback_id s) (events_seen s) (t_state s) (t_buffer s) text ended pos Ep) as (evs & He & Hn).
    exists evs, text, ended. by rewrite He. }
  destruct Hstep as (evs & text & ended & Ha & Hfut & Hrest).
  pose proof (emit_run (str_take pos (t_buffer s)) evs s1) as He.
  destruct (emit clocks (str_take pos (t_buffer s)) s1) as [accepted s2]. destruct He as (Hq & Ht & Hfb & Hb & Hdone & _).
  rewrite Hfut, <- Hq. destruct accepted; [|split; [unfold future; cbn; by rewrite !app_nil_r|intros E; discriminate E]].
  destruct (IH s2) as [Hi Hc]; [rewrite Hb; subst s1; cbn; rewrite str_drop_length; lia|by rewrite Hdone|]. split; [|done].
  rewrite Hi. unfold future. rewrite Hdone, Ha. change (inner_done s1) with (inner_done s). rewrite Hd, Hb, Ht, Hfb.
  by rewrite Hrest.
Qed.

Lemma inner_ended_ok s :
  clean s -> inner_done s = false -> t_queue s = [] ->
  t_queue (inner_ended clocks s) = future [] s /\ inner_done (inner_ended clocks s) = true
  /\ t_inner (inner_ended clocks s) = t_inner s.
Proof.
  intros Hc Hd Hq. unfold future. rewrite Hq, Hd. cbn [arrives app]. rewrite string_app_nil_r. unfold shaped.
  rewrite cut_eq by apply split_pattern_nonempty. rewrite (Hc Hd). cbn [app]. unfold inner_ended.
  destruct (String.eqb (t_buffer s) "") eqn:Eb; [cbn; by rewrite Eb, Hq|].
  pose proof (emit_run (t_buffer s) [] (end_inner s)) as He. destruct (emit clocks (t_buffer s) (end_inner s)) as [acc s'].
  cbn [snd]. destruct He as (Hr & _ & _ & _ & Hdone & Hin). split; [|split; [by rewrite Hdone|by rewrite Hin]].
  cbn [t_queue end_inner t_transform t_fallback_id events_seen t_state] in Hr. rewrite Hq in Hr. cbn [app] in Hr. rewrite <- Hr. cbn.
  destruct acc; by rewrite app_nil_r.
Qed.

(** One poll: a chunk is the next of the future, pending and the end change nothing. *)
Lemma poll_future inner_ s :
  clean s ->
  let '(p, s') := sse_poll_loop clocks inner_ s in
  clean s' /\
  match p with
  | Pending => future (t_inner s') s' = future inner_ s /\ (length (t_inner s') < length inner_)%nat
  | Ready None => future inner_ s = []
  | Ready (Some (Ok b)) => future inner_ s = b :: future (t_inner s') s' /\ (length (t_inner s') <= length inner_)%nat
  | Ready (Some (Err _)) => False
  end.
Proof.
  revert s. induction inner_ as [|a inner_ IH]; intros s Hc; cbn [sse_poll_loop]; destruct (t_queue s) as [|b q] eqn:Eq.
  - destruct (inner_done s) eqn:Ed; [split; [intros E; cbn in E; congruence|unfold future; by rewrite Eq, Ed]|].
    destruct (inner_ended_ok (with_inner [] s)) as (Hq & Hd & Hin); [done..|].
    unfold pop. change (future [] (with_inner [] s)) with (future [] s) in Hq. destruct (t_queue (inner_ended clocks (with_inner [] s))) as [|b q].
    + split; [intros E; by rewrite Hd in E|done].
    + split; [intros E; cbn in E; by rewrite Hd in E|]. cbn [t_inner with_queue]. rewrite <- Hq, Hin. split; [|done]. unfold future.
      cbn [t_queue with_queue inner_done]. rewrite Hd. by rewrite app_nil_r.
  - split; [exact Hc|]. split; [unfold future; by rewrite Eq|done].
  - destruct (inner_done s) eqn:Ed; [split; [intros E; cbn in E; congruence|unfold future; by rewrite Eq, Ed]|].
    destruct a as [[bytes|e]|].
    + set (s1 := with_buffer (t_buffer s +:+ bytes) s).
      destruct (drain_loop_ok (S (String.length (t_buffer s1))) s1 inner_) as [Hf Hc']; [lia|done|].
      specialize (IH (drain_buffer clocks s1) Hc'). destruct (sse_poll_loop clocks inner_ (drain_buffer clocks s1)) as [p s'].
      destruct IH as [Hc2 IH]. split; [done|]. unfold drain_buffer in IH. rewrite Hf in IH.
      assert (Hfut : future inner_ s1 = future (Some (Ok bytes) :: inner_) s).
      { unfold future. cbn [t_queue with_buffer inner_done arrives s1 t_transform t_fallback_id events_seen t_state t_buffer].
        rewrite Ed. destruct (arrives inner_) as [text ended]. by rewrite string_app_assoc. }
      rewrite Hfut in IH. destruct p as [|[[|]|]]; try done; destruct IH as [? ?]; (split; [done|cbn; lia]).
    + split; [intros E; cbn in E; congruence|]. unfold future. rewrite Eq, Ed. cbn [arrives app]. rewrite string_app_nil_r. unfold shaped.
      rewrite cut_eq by apply split_pattern_nonempty. rewrite (Hc Ed). done.
    + split; [exact Hc|]. split; [done|cbn; lia].
  - split; [exact Hc|]. split; [unfold future; by rewrite Eq|done].
Qed.

Lemma drained_future k s : clean s -> (length (future (t_inner s) s) + length (t_inner s) <= k)%nat -> drained clocks s (future (t_inner s) s).
Proof.
  revert s. induction k as [k IH] using (well_founded_induction lt_wf). intros s Hc Hk.
  pose proof (poll_future (t_inner s) s Hc) as Hp. destruct (sse_poll_loop clocks (t_inner s) s) as [p s'] eqn:E. destruct Hp as [Hc' Hp].
  destruct p as [|[[b|e]|]].
  - destruct Hp as [Hf Hl]. eapply drained_pending; [exact E|]. rewrite <- Hf. apply (IH (length (future (t_inner s') s') + length (t_inner s'))%nat); [|done|done].
    rewrite Hf. lia.
  - destruct Hp as [Hf Hl]. rewrite Hf in Hk |- *. cbn [length] in Hk. eapply drained_chunk; [exact E|].
    apply (IH (length (future (t_inner s') s') + length (t_inner s'))%nat); [lia|done|done].
  - done.
  - rewrite Hp. eapply drained_end. exact E.
Qed.
End AdapterFacts.

Lemma drained_det `{SerdeJson} clocks s out1 out2 : drained clocks s out1 -> drained clocks s out2 -> out1 = out2.
Proof.
  intros H1. revert out2. induction H1 as [s s' E|s s' out E _ IH|s s' b out E _ IH]; intros out2 H2; inversion H2; subst;
    try congruence.
  - apply IH. congruence.
  - assert (b0 = b) as -> by congruence. f_equal. apply IH. congruence.
Qed.

(** C23: The adapter is exact: whatever chunks the upstream's bytes arrive in and however
    often the stream is polled before they are there, polling it to the end gives the
    outputs of the events the bytes spell, up to the first event that is rejected,
    with what is left after the last separator as an event of its own only if the
    upstream ended the stream properly; a rejected event or an upstream error ends the
    client's stream with nothing after it. *)
Theorem stream_shaping_exact `{SerdeJson} clocks inner_ t clock out :
  drained clocks (SseTransformStream_new inner_ t clock) out <->
  out = shaped clocks t (provider t +:+ "-" +:+ z_to_string (wall_millis clock)) 0 StreamState_default (arrives inner_).1 (arrives inner_).2.
Proof.
  set (s := SseTransformStream_new inner_ t clock).
  assert (Hc : clean s) by (intros _; by destruct t).
  pose proof (drained_future clocks _ s Hc (le_n _)) as Hd.
  assert (Hf : future clocks (t_inner s) s = shaped clocks t (provider t +:+ "-" +:+ z_to_string (wall_millis clock)) 0 StreamState_default (arrives inner_).1 (arrives inner_).2).
  { unfold future. subst s. cbn. by destruct (arrives inner_). }
  rewrite Hf in Hd. split; [|by intros ->]. intros Ho. exact (drained_det _ _ _ _ Ho Hd).
Qed.
