(* ===== verification/MessageStream.v ===== *)
(** * The shape of an Anthropic message stream

    What a client of the messages API may rely on in the events the gateway makes of
    an OpenAI stream: one [message_start] first, a block started at most once while
    it is open, deltas only inside an open block, every block closed before the one
    event that ends the stream. *)
From S2P Require Import Prelude StrOps Json Serde JsonWf Float Router RequestTransform ResponseTransform StreamTransform.

(** ** The rules, as a checker *)

Record Scan := { sc_started : bool; sc_open : gset Z; sc_ended : bool }.

Definition scan_nil : Scan := {| sc_started := false; sc_open := ∅; sc_ended := false |}.

(** Between [message_start] and the end. *)
Definition inside (open : gset Z) : Scan := {| sc_started := true; sc_open := open; sc_ended := false |}.

Definition ended : Scan := {| sc_started := true; sc_open := ∅; sc_ended := true |}.

Definition ev_index (data : Value) : Z := stream_i64_field data "index".

Definition scan (s : Scan) (e : OutEvent) : option Scan :=
  if sc_ended s then None
  else
    match e with
    | Ev name data =>
        let i := ev_index data in
        if String.eqb name "message_start" then if sc_started s then None else Some (inside (sc_open s))
        else if negb (sc_started s) then None
        else if String.eqb name "content_block_start" then
          if decide (i ∈ sc_open s) then None else Some (inside ({[ i ]} ∪ sc_open s))
        else if String.eqb name "content_block_stop" then
          if decide (i ∈ sc_open s) then Some (inside (sc_open s ∖ {[ i ]})) else None
        else if String.eqb name "content_block_delta" then if decide (i ∈ sc_open s) then Some s else None
        else if String.eqb name "error" then if decide (sc_open s = ∅) then Some ended else None
        else Some s
    | MessageStop => if sc_started s then if decide (sc_open s = ∅) then Some ended else None else None
    end.

Fixpoint scan_all (s : Scan) (es : list OutEvent) : option Scan :=
  match es with [] => Some s | e :: es => s ← scan s e; scan_all s es end.

Lemma scan_all_app s a b : scan_all s (a ++ b) = (scan_all s a ≫= fun s => scan_all s b).
Proof. revert s. induction a as [|e a IH]; intros s; [done|]. cbn. destruct (scan s e); cbn; [apply IH|done]. Qed.

(** ** Runs of the machine *)

Section Runs.
Context `{SerdeJsonLaws} (clocks : nat -> WallClock) (fallback_id : string).

(** The events a list of upstream events makes. *)
Fixpoint messages_run (evs : list string) (n : nat) (state : StreamState) : list OutEvent * StreamState :=
  match evs with
  | [] => ([], state)
  | ev :: evs =>
      let '(es, state) := message_events (clocks n) fallback_id ev state in
      let '(rest, state) := messages_run evs (S n) state in
      (es ++ rest, state)
  end.

(** The value an event carries, if it carries one. *)
Definition carried (ev : string) : option Value :=
  let payload := without_data (str_trim ev) in
  if String.eqb payload "" then None else match from_slice payload with Ok v => Some v | Err _ => None end.

(** ** What the upstream has to keep to *)

(** A tool call with an id and a name announces it; one with arguments continues it. *)
Definition announces (call : Value) : bool :=
  match nonempty (str_of call "id"), get call "function" ≫= fun f => str_of f "name" with Some _, Some _ => true | _, _ => false end.

Definition continues (call : Value) : bool :=
  match nonempty (get call "function" ≫= fun f => str_of f "arguments") with Some _ => true | None => false end.

(** Calls are numbered from zero, announced once, and continued only once announced. *)
Fixpoint announced (seen : gset Z) (calls : list Value) : option (gset Z) :=
  match calls with
  | [] => Some seen
  | call :: calls =>
      let i := stream_i64_field call "index" in
      if negb ((0 <=? i) && (i <? i64_max)) then None
      else if announces call then if decide (i ∈ seen) then None else announced ({[ i ]} ∪ seen) calls
      else if continues call then if decide (i ∈ seen) then announced seen calls else None
      else announced seen calls
  end.

Lemma announced_app seen a b : announced seen (a ++ b) = (announced seen a ≫= fun seen => announced seen b).
Proof.
  revert seen. induction a as [|call a IH]; intros seen; [done|]. cbn [app announced].
  destruct (negb _); [done|]. destruct (announces call); [case_decide; [done|apply IH]|].
  destruct (continues call); [case_decide; [apply IH|done]|apply IH].
Qed.

(** The tool calls an event carries. *)
Definition event_calls (ev : string) : list Value :=
  match carried ev with
  | Some v => match head (items_of v "choices") with Some choice => choice_calls choice | None => [] end
  | None => []
  end.

(** The checker and the machine agree: the text is block 0, and the call numbered [i]
    is block [i + 1], open once announced. *)
Record Agree (seen : gset Z) (st : StreamState) (s : Scan) : Prop := {
  ag_index : current_content_index st = 0;
  ag_started : sc_started s = has_started st;
  ag_ended : sc_ended s = false;
  ag_seen i : i ∈ seen -> 0 <= i < i64_max;
  ag_tools i : i ∈ tool_calls_started st <-> i - 1 ∈ seen;
  ag_open : sc_open s = list_to_set (tool_calls_started st) ∪ (if content_block_started st then {[ 0 ]} else ∅);
  ag_before : has_started st = false -> content_block_started st = false /\ tool_calls_started st = [];
  ag_sorted : StronglySorted Z.lt (tool_calls_started st);
}.

Lemma agree_not_zero seen st s : Agree seen st s -> 0 ∉ tool_calls_started st.
Proof. intros Hag Hzero%(ag_tools _ _ _ Hag). apply (ag_seen _ _ _ Hag) in Hzero. lia. Qed.

Lemma agree_range seen st s i : Agree seen st s -> i ∈ tool_calls_started st -> i64_min <= i <= i64_max.
Proof. intros Hag Hi%(ag_tools _ _ _ Hag). apply (ag_seen _ _ _ Hag) in Hi. unfold i64_min, i64_max in *. lia. Qed.

Lemma agree_inside seen st s : Agree seen st s -> has_started st = true -> s = inside (sc_open s).
Proof. intros Hag Hs. pose proof (ag_started _ _ _ Hag). pose proof (ag_ended _ _ _ Hag). destruct s; cbn in *. subst. by rewrite Hs. Qed.

Lemma btree_set_insert_elem x y l : y ∈ btree_set_insert x l <-> y = x \/ y ∈ l.
Proof.
  induction l as [|z l IH]; cbn; [set_solver|]. destruct (x <? z); [set_solver|].
  destruct (Z.eqb_spec x z) as [->|]; set_solver.
Qed.

Lemma btree_set_insert_sorted x l : StronglySorted Z.lt l -> StronglySorted Z.lt (btree_set_insert x l).
Proof.
  induction 1 as [|z l Hl IH HF]; cbn; [by repeat constructor|]. destruct (Z.ltb_spec x z).
  - constructor; [by constructor|]. constructor; [done|]. eapply Forall_impl; [exact HF|]. intros y. cbn. lia.
  - destruct (Z.eqb_spec x z) as [->|]; [by constructor|]. constructor; [done|]. apply Forall_forall.
    intros y [->|Hy]%btree_set_insert_elem; [lia|]. rewrite Forall_forall in HF. by apply HF.
Qed.

Lemma sorted_nodup l : StronglySorted Z.lt l -> NoDup l.
Proof.
  induction 1 as [|z l _ IH HF]; constructor; [|done]. intros Hz. rewrite Forall_forall in HF. apply HF in Hz. lia.
Qed.

Lemma index_of_i64 i data :
  i64_min <= i <= i64_max -> get data "index" = Some (from_i64 i) -> ev_index data = i.
Proof.
  intros Hi Hg. unfold ev_index, stream_i64_field. rewrite Hg. unfold from_i64, i64_max in *. cbn.
  destruct (Z.ltb_spec i 0); cbn; [done|]. destruct (Z.leb_spec i i64_max); [done|unfold i64_max in *; lia].
Qed.

Lemma i64_zero : i64_min <= 0 <= i64_max.
Proof. unfold i64_min, i64_max. lia. Qed.

Lemma scan_start op i block :
  i64_min <= i <= i64_max -> i ∉ op -> scan (inside op) (block_start i block) = Some (inside ({[ i ]} ∪ op)).
Proof. intros Hi Ho. cbn. rewrite (index_of_i64 i) by done. by rewrite decide_False. Qed.

Lemma scan_stop op i : i64_min <= i <= i64_max -> i ∈ op -> scan (inside op) (block_stop i) = Some (inside (op ∖ {[ i ]})).
Proof. intros Hi Ho. cbn. rewrite (index_of_i64 i) by done. by rewrite decide_True. Qed.

Lemma scan_delta op i delta : i64_min <= i <= i64_max -> i ∈ op -> scan (inside op) (block_delta i delta) = Some (inside op).
Proof. intros Hi Ho. cbn. rewrite (index_of_i64 i) by done. by rewrite decide_True. Qed.

(** Each part of an event's handling keeps the checker going. *)
Definition follows (seen seen' : gset Z) (m : StreamState -> list OutEvent * StreamState) : Prop :=
  forall st s, Agree seen st s -> has_started st = true ->
  exists s', scan_all s (m st).1 = Some s' /\ Agree seen' (m st).2 s' /\ has_started (m st).2 = true.

Lemma text_follows seen delta : follows seen seen (text_events delta).
Proof.
  intros st s Hag Hs. unfold text_events. destruct (nonempty _) as [content|]; [|exists s; split; [done|by split]].
  pose proof (agree_not_zero _ _ _ Hag) as Hzero. rewrite (agree_inside _ _ _ Hag Hs).
  destruct Hag as [Hi Hst He Hse Ht Ho Hb Hsort]. rewrite Hi. destruct (content_block_started st) eqn:Ec.
  - exists (inside (sc_open s)). cbn [app fst snd scan_all]. rewrite scan_delta; [|apply i64_zero|rewrite Ho; set_solver].
    split; [done|]. split; [|done]. split; cbn; try done; congruence.
  - exists (inside ({[0]} ∪ sc_open s)). cbn [app fst snd scan_all].
    rewrite scan_start; [|apply i64_zero|rewrite Ho; set_solver]. cbn [mbind option_bind].
    rewrite scan_delta; [|apply i64_zero|set_solver]. split; [done|]. split; [|done].
    split; cbn; try done; [rewrite Ho; set_solver|congruence].
Qed.

(** A call that announces opens its block, after the text's if that is open. *)
Lemma open_follows seen k call :
  0 <= k < i64_max -> announces call = true -> k ∉ seen -> follows seen ({[ k ]} ∪ seen) (open_tool (k + 1) call).
Proof.
  intros Hk Hann Hnew st s Hag Hs. unfold open_tool. unfold announces in Hann.
  destruct (nonempty (str_of call "id")) as [id|]; [|done]. destruct (get call "function" ≫= _) as [name|]; [|done].
  pose proof (agree_not_zero _ _ _ Hag) as Hzero.
  assert (Hir : i64_min <= k + 1 <= i64_max) by (unfold i64_min, i64_max in *; lia).
  assert (Hfresh : k + 1 ∉ tool_calls_started st).
  { intros Hin%(ag_tools _ _ _ Hag). by replace (k + 1 - 1) with k in Hin by lia. }
  rewrite (agree_inside _ _ _ Hag Hs).
  destruct Hag as [Hi Hst He Hse Ht Ho Hb Hsort]. rewrite Hi.
  assert (Hagree : forall b, Agree ({[ k ]} ∪ seen) (set_tools (btree_set_insert (k + 1) (tool_calls_started st)) (set_block_started b st))
                   (inside ({[k + 1]} ∪ (list_to_set (tool_calls_started st) ∪ (if b then {[0]} else ∅))))).
  { intros b. split; cbn; try done.
    - intros i. rewrite elem_of_union, elem_of_singleton. intros [->|?]; [done|by apply Hse].
    - intros i. rewrite btree_set_insert_elem, Ht, elem_of_union, elem_of_singleton. split; intros [?|?]; auto; left; lia.
    - apply set_eq. intros y. rewrite !elem_of_union, !elem_of_list_to_set, btree_set_insert_elem. set_solver.
    - by rewrite Hs.
    - by apply btree_set_insert_sorted. }
  destruct (existsb _ _) eqn:Eex.
  { apply existsb_exists in Eex as (x & Hx%list_elem_of_In & Hx'%Z.eqb_eq). by subst x. }
  destruct (content_block_started st) eqn:Ec; cbn [andb negb app fst snd scan_all]; eexists.
  - rewrite scan_stop; [|apply i64_zero|rewrite Ho; set_solver]. cbn [mbind option_bind].
    rewrite scan_start; [|done|rewrite Ho; set_solver by lia]. cbn [mbind option_bind]. split; [done|]. split; [|done].
    specialize (Hagree false). replace (sc_open s ∖ {[0]}) with (list_to_set (tool_calls_started st) ∪ ∅ : gset Z); [exact Hagree|].
    rewrite Ho. apply set_eq. intros y. rewrite elem_of_union, elem_of_difference, elem_of_union, elem_of_list_to_set, !elem_of_singleton.
    split; [|set_solver]. intros [Hy|Hy]; [|set_solver]. split; [by left|]. by intros ->.
  - rewrite scan_start; [|done|rewrite Ho; set_solver]. cbn [mbind option_bind]. split; [done|]. split; [|done].
    specialize (Hagree false). cbn iota in Hagree. rewrite <- Ho in Hagree. destruct st. cbn in Ec. by subst.
Qed.

Lemma open_quiet i call st : announces call = false -> open_tool i call st = ([], st).
Proof. unfold open_tool, announces. destruct (nonempty _); [|done]. by destruct (get call "function" ≫= fun f => str_of f "name"). Qed.

(** Arguments go to an open block. *)
Lemma args_follow seen k call :
  continues call = false \/ k ∈ seen -> follows seen seen (fun st => (tool_arguments (k + 1) call, st)).
Proof.
  intros Hk st s Hag Hs. exists s. cbn [fst snd]. split; [|done]. unfold tool_arguments. unfold continues in Hk.
  destruct (nonempty _); [|done]. destruct Hk as [|Hk]; [done|]. rewrite (agree_inside _ _ _ Hag Hs). cbn [scan_all].
  assert (Hin : k + 1 ∈ tool_calls_started st) by (apply (ag_tools _ _ _ Hag); by replace (k + 1 - 1) with k by lia).
  rewrite scan_delta; [done|by eapply agree_range|]. rewrite (ag_open _ _ _ Hag). apply elem_of_union_l. by apply elem_of_list_to_set.
Qed.

Lemma call_index_of st call :
  current_content_index st = 0 -> 0 <= stream_i64_field call "index" < i64_max -> call_index st call = stream_i64_field call "index" + 1.
Proof. intros Hi Hr. unfold call_index. rewrite Hi. unfold i64_add, i64_wrap, i64_min, i64_max in *. lia. Qed.

Lemma tools_follow calls : forall seen seen', announced seen calls = Some seen' -> follows seen seen' (tool_events calls).
Proof.
  induction calls as [|call calls IH]; intros seen seen' Hann st s Hag Hs; cbn [tool_events announced] in *.
  { injection Hann as <-. exists s. split; [done|by split]. }
  destruct (negb _) eqn:Er; [done|]. set (k := stream_i64_field call "index") in *.
  assert (Hk : 0 <= k < i64_max) by lia. rewrite (call_index_of st call (ag_index _ _ _ Hag) Hk).
  assert (exists seen1, announced seen1 calls = Some seen' /\ follows seen seen1 (open_tool (k + 1) call)
    /\ (continues call = false \/ k ∈ seen1)) as (seen1 & Hrest & Hopen & Hargs).
  { destruct (announces call) eqn:Ea.
    - case_decide; [done|]. exists ({[ k ]} ∪ seen). split; [done|]. split; [by apply open_follows|set_solver].
    - exists seen. destruct (continues call); [case_decide; [|done]|];
        (split; [done|]); (split; [|by auto]); intros st0 s0 ? ?; rewrite open_quiet by done; exists s0; by split. }
  destruct (Hopen st s Hag Hs) as (s1 & Hs1 & Hag1 & Hst1).
  subst k. destruct (open_tool _ call st) as [opened st1]. cbn [fst snd] in *.
  destruct (args_follow seen1 _ call Hargs st1 s1 Hag1 Hst1) as (s2 & Hs2 & Hag2 & _). cbn [fst snd] in *.
  destruct (IH _ _ Hrest st1 s2 Hag2 Hst1) as (s3 & Hs3 & Hag3 & Hst3).
  destruct (tool_events calls st1) as [rest st2]. cbn [fst snd] in *. exists s3. rewrite !scan_all_app, Hs1. cbn [mbind option_bind].
  rewrite scan_all_app, Hs2. cbn [mbind option_bind]. auto.
Qed.

Lemma agree_finish seen choice st s : Agree seen st s -> Agree seen (note_finish choice st) s.
Proof. intros []. unfold note_finish. by destruct (str_of choice "finish_reason"). Qed.

Lemma choice_follows seen seen' choice : announced seen (choice_calls choice) = Some seen' -> follows seen seen' (choice_events choice).
Proof.
  intros Hann st s Hag Hs. unfold choice_events.
  destruct (text_follows seen (get choice "delta") st s Hag Hs) as (s1 & Hs1 & Hag1 & Hst1).
  destruct (text_events (get choice "delta") st) as [texts st1]. cbn [fst snd] in *.
  destruct (tools_follow _ _ _ Hann st1 s1 Hag1 Hst1) as (s2 & Hs2 & Hag2 & Hst2).
  destruct (tool_events (choice_calls choice) st1) as [tools st2]. cbn [fst snd] in *.
  exists s2. rewrite scan_all_app, Hs1. split; [done|]. split; [by apply agree_finish|].
  unfold note_finish. by destruct (str_of choice "finish_reason").
Qed.

(** A parsed event: the message is started first if it was not. *)
Lemma parsed_follows clock v seen seen' st s :
  announced seen (match head (items_of v "choices") with Some choice => choice_calls choice | None => [] end) = Some seen' ->
  Agree seen st s ->
  exists s', scan_all s (parsed_events clock fallback_id v st).1 = Some s' /\ Agree seen' (parsed_events clock fallback_id v st).2 s'
    /\ has_started (parsed_events clock fallback_id v st).2 = true.
Proof.
  intros Hann Hag. unfold parsed_events.
  assert (Hag0 : Agree seen (note_parsed v st) s) by (destruct Hag; by split).
  set (st0 := note_parsed v st) in *.
  assert (Hstart : exists s1, scan_all s (start_events clock fallback_id v st0).1 = Some s1
    /\ Agree seen (start_events clock fallback_id v st0).2 s1 /\ has_started (start_events clock fallback_id v st0).2 = true).
  { unfold start_events. destruct (has_started st0) eqn:Es; [by exists s|].
    destruct Hag0 as [Hi Hst He Hse Ht Ho Hb Hsort]. rewrite Es in Hst. exists (inside (sc_open s)).
    cbn [fst snd scan_all scan String.eqb Ascii.eqb Bool.eqb].
    unfold scan. rewrite He, Hst. cbn [String.eqb Ascii.eqb Bool.eqb]. cbn [mbind option_bind]. split; [done|]. split; [|done]. by split. }
  destruct Hstart as (s1 & Hs1 & Hag1 & Hst1). destruct (start_events clock fallback_id v st0) as [start st1]. cbn [fst snd] in *.
  destruct (head (items_of v "choices")) as [choice|] eqn:Ec; [|injection Hann as <-; exists s1; split; [done|by split]].
  destruct (choice_follows _ _ choice Hann st1 s1 Hag1 Hst1) as (s2 & Hs2 & Hag2 & Hst2).
  destruct (choice_events choice st1) as [rest st2]. cbn [fst snd] in *. exists s2. by rewrite scan_all_app, Hs1.
Qed.

Lemma event_follows clock ev seen seen' st s :
  is_done (str_trim ev) = false -> announced seen (event_calls ev) = Some seen' -> Agree seen st s ->
  exists s', scan_all s (message_events clock fallback_id ev st).1 = Some s' /\ Agree seen' (message_events clock fallback_id ev st).2 s'
    /\ has_started (message_events clock fallback_id ev st).2 = has_started st || bool_decide (is_Some (carried ev)).
Proof.
  intros Hd Hann Hag. unfold message_events. rewrite Hd. unfold event_calls, carried in *.
  destruct (String.eqb (without_data (str_trim ev)) "") eqn:Ep.
  { injection Hann as <-. exists s. split; [done|]. split; [done|]. by rewrite orb_false_r. }
  destruct (from_slice (without_data (str_trim ev))) as [v|] eqn:Ev.
  2: { injection Hann as <-. exists s. split; [done|]. split; [done|]. by rewrite orb_false_r. }
  destruct (parsed_follows clock v seen seen' st s Hann Hag) as (s' & Hs' & Hag' & Hst').
  exists s'. split; [done|]. split; [done|]. rewrite Hst'. by rewrite bool_decide_true, orb_true_r by done.
Qed.

Lemma run_follows evs n seen seen' st s :
  Forall (fun ev => is_done (str_trim ev) = false) evs -> announced seen (evs ≫= event_calls) = Some seen' -> Agree seen st s ->
  exists s', scan_all s (messages_run evs n st).1 = Some s' /\ Agree seen' (messages_run evs n st).2 s'
    /\ has_started (messages_run evs n st).2 = has_started st || existsb (fun ev => bool_decide (is_Some (carried ev))) evs.
Proof.
  intros Hp. revert n seen st s. induction Hp as [|ev evs Hev _ IH]; intros n seen st s Hann Hag; cbn [messages_run].
  - injection Hann as <-. exists s. cbn. by rewrite orb_false_r.
  - cbn in Hann. rewrite announced_app in Hann. apply bind_Some in Hann as (seen1 & Hev1 & Hann).
    destruct (event_follows (clocks n) ev _ _ st s Hev Hev1 Hag) as (s1 & Hs1 & Hag1 & Hst1).
    destruct (message_events (clocks n) fallback_id ev st) as [es st1]. cbn [fst snd] in *.
    destruct (IH (S n) _ st1 s1 Hann Hag1) as (s2 & Hs2 & Hag2 & Hst2).
    destruct (messages_run evs (S n) st1) as [rest st2]. cbn [fst snd] in *.
    exists s2. rewrite scan_all_app, Hs1. split; [done|]. split; [done|]. rewrite Hst2, Hst1. cbn. by rewrite orb_assoc.
Qed.

(** ** The end *)

Lemma scan_stops l op :
  Forall (fun i => i64_min <= i <= i64_max) l -> NoDup l -> (forall i, i ∈ l -> i ∈ op) ->
  scan_all (inside op) (map block_stop l) = Some (inside (op ∖ list_to_set l)).
Proof.
  revert op. induction l as [|i l IH]; intros op Hr Hnd Hin; cbn [map scan_all].
  - do 2 f_equal. set_solver.
  - inversion_clear Hr as [|?? Hi Hr']. apply NoDup_cons in Hnd as [Hni Hnd].
    rewrite scan_stop; [|done|apply Hin; set_solver]. cbn [mbind option_bind]. rewrite IH; try done.
    + do 2 f_equal. set_solver.
    + intros j Hj. apply elem_of_difference. split; [apply Hin; set_solver|]. rewrite elem_of_singleton. by intros ->.
Qed.

Lemma agree_default : Agree ∅ StreamState_default scan_nil.
Proof. split; cbn; try done; try set_solver. constructor. Qed.

Lemma done_scan seen st s : Agree seen st s -> scan_all s (done_events st) = Some ended <-> has_started st = true.
Proof.
  intros Hag. unfold done_events. rewrite (ag_index _ _ _ Hag). set (tail_ := if bool_decide _ || _ then _ else _).
  assert (Htail : scan_all (inside ∅) tail_ = Some ended
                  /\ forall op, scan_all {| sc_started := false; sc_open := op; sc_ended := false |} tail_ = None).
  { subst tail_. by destruct (bool_decide _ || _). }
  clearbody tail_. destruct Htail as [Hok Hno]. split.
  - intros Hs'. destruct (has_started st) eqn:Es; [done|]. destruct (ag_before _ _ _ Hag Es) as [Hc Hl]. rewrite Hc, Hl in Hs'.
    pose proof (ag_started _ _ _ Hag) as Hst. pose proof (ag_ended _ _ _ Hag) as He.
    destruct s as [b op e]. cbn in Hst, He. subst b e. rewrite Es in Hs'. cbn [app map] in Hs'. by rewrite Hno in Hs'.
  - intros Hs. pose proof (agree_not_zero _ _ _ Hag) as Hzero. rewrite (agree_inside _ _ _ Hag Hs). rewrite (ag_open _ _ _ Hag), scan_all_app.
    assert (Htext : scan_all (inside (list_to_set (tool_calls_started st) ∪ (if content_block_started st then {[0]} else ∅)))
                      (if content_block_started st then [block_stop 0] else [])
                    = Some (inside (list_to_set (tool_calls_started st)))).
    { destruct (content_block_started st); cbn [scan_all].
      - rewrite scan_stop; [|apply i64_zero|set_solver]. cbn [mbind option_bind]. do 2 f_equal.
        apply set_eq. intros y. rewrite elem_of_difference, elem_of_union, elem_of_list_to_set, !elem_of_singleton.
        split; [tauto|]. intros Hy. split; [by left|]. by intros ->.
      - do 2 f_equal. set_solver. }
    rewrite Htext. cbn [mbind option_bind]. rewrite scan_all_app, scan_stops.
    + cbn [mbind option_bind]. by rewrite difference_diag_L.
    + apply Forall_forall. intros i Hi. by eapply agree_range.
    + apply sorted_nodup, (ag_sorted _ _ _ Hag).
    + intros i. by rewrite elem_of_list_to_set.
Qed.

Lemma messages_run_app a b n st :
  (messages_run (a ++ b) n st).1 = (messages_run a n st).1 ++ (messages_run b (n + length a) (messages_run a n st).2).1.
Proof.
  revert n st. induction a as [|ev a IH]; intros n st; cbn [app messages_run length]; [by rewrite Nat.add_0_r|].
  destruct (message_events (clocks n) fallback_id ev st) as [es st1]. specialize (IH (S n) st1).
  destruct (messages_run (a ++ b) (S n) st1) as [r1 s1], (messages_run a (S n) st1) as [r2 s2]. cbn [fst snd] in *.
  rewrite IH. rewrite Nat.add_succ_r. by rewrite app_assoc.
Qed.
End Runs.

(** C24: The message stream the gateway makes of an OpenAI stream is well bracketed,
    provided at least one event carried JSON: [message_start] comes once and first, a
    block is started only when it is not open, deltas are only sent inside an open
    block, only open blocks are stopped, and the end marker closes every block and
    ends with one [message_stop] (or one error), which nothing follows.  Without such
    an event the end marker alone yields an ending with no start.  The upstream is
    taken to number its tool calls from zero, to give id and name of a call once and
    its arguments not before, and to send one end marker, last. *)
Theorem message_stream_bracketed `{SerdeJsonLaws} clocks fallback_id evs fin :
  Forall (fun ev => is_done (str_trim ev) = false) evs -> is_Some (announced ∅ (evs ≫= event_calls)) -> is_done (str_trim fin) = true ->
  scan_all scan_nil (messages_run clocks fallback_id (evs ++ [fin]) 0 StreamState_default).1 = Some ended
  <-> Exists (fun ev => is_Some (carried ev)) evs.
Proof.
  intros Hp [seen Hann] Hfin. rewrite messages_run_app.
  destruct (run_follows clocks fallback_id evs 0 _ _ _ _ Hp Hann agree_default) as (s & Hs & Hag & Hst).
  rewrite scan_all_app, Hs. cbn [mbind option_bind messages_run].
  destruct (messages_run clocks fallback_id evs 0 StreamState_default) as [es st]. cbn [fst snd] in *.
  unfold message_events. rewrite Hfin. cbn [fst]. rewrite app_nil_r, (done_scan _ _ _ Hag). rewrite Hst. cbn [has_started StreamState_default orb].
  rewrite existsb_exists, Exists_exists. split.
  - intros (ev & Hin%list_elem_of_In & Hev%bool_decide_eq_true). eauto.
  - intros (ev & Hin & Hev). exists ev. split; [by apply list_elem_of_In|by apply bool_decide_eq_true].
Qed.

(** An event with some text, as the demonstration codec spells it. *)
Definition demo_delta : Value := {{ "choices" ≔ Arr [ {{ "delta" ≔ {{ "content" ≔ Str "hi" }} }} ] }}.

Definition demo_call : Value :=
  {{ "choices" ≔ Arr [ {{ "delta" ≔ {{ "tool_calls" ≔ Arr [ {{ "index" ≔ from_u64 0; "id" ≔ Str "t";
       "function" ≔ {{ "name" ≔ Str "f"; "arguments" ≔ Str "" }} }} ] }} }} ] }}.

Definition demo_events : list string := map (fun v => "data: " +:+ @json_str demo_serde v) [demo_delta; demo_call].

Lemma message_stream_bracketed_witness :
  scan_all scan_nil (@messages_run demo_serde (fun _ => demo_clock) "f" (demo_events ++ ["data: [DONE]"]) 0 StreamState_default).1 = Some ended
  <-> Exists (fun ev => is_Some (@carried demo_serde ev)) demo_events.
Proof.
  apply (@message_stream_bracketed demo_serde demo_serde_laws (fun _ => demo_clock) "f" demo_events "data: [DONE]").
  - repeat constructor; vm_compute; reflexivity.
  - eexists. vm_compute. reflexivity.
  - vm_compute. reflexivity.
Defined.

(** ** Text after a tool call *)

Definition is_start_at (i : Z) (e : OutEvent) : bool :=
  match e with Ev name data => String.eqb name "content_block_start" && (ev_index data =? i) | MessageStop => false end.

(** Text, a tool call, text: the second text opens block 0 again, which was stopped
    when the tool call opened block 1, instead of a block of its own. *)
Theorem text_block_index_reused clock :
  let '(e1, st) := parsed_events clock "f" demo_delta StreamState_default in
  let '(e2, st) := parsed_events clock "f" demo_call st in
  let '(e3, st) := parsed_events clock "f" demo_delta st in
  length (List.filter (is_start_at 0) (e1 ++ e2 ++ e3)) = 2%nat.
Proof. reflexivity. Qed.
