(* ===== verification/KeepAlive.v ===== *)
(** * Keep-alive comments

    Model of [src/middleware/sse.rs]: the stream that sends an SSE comment when
    nothing came for a while.  The timer is the list of its answers to polls: it
    is only polled when the inner stream has nothing. *)
From S2P Require Import Prelude StrOps Json Serde Canonical Sse Service Forward Streaming RequestTransform StreamTransform.

Definition KEEP_ALIVE_COMMENT : string := ": PROCESSING" +:+ nl +:+ nl.

Record KeepAliveStream := {
  k_inner : list (option (result ServiceError string));
  k_interval : option Z;
  k_sleep : list bool;
  k_done : bool;
}.

Definition KeepAliveStream_new (inner_ : list (option (result ServiceError string))) (interval : option Z) (sleep : list bool) :
    KeepAliveStream :=
  {| k_inner := inner_; k_interval := interval; k_sleep := sleep; k_done := false |}.

Definition keepalive_poll (k : KeepAliveStream) : StreamPoll * KeepAliveStream :=
  let next rest sleep done_ := {| k_inner := rest; k_interval := k_interval k; k_sleep := sleep; k_done := done_ |} in
  if k_done k then (Ready None, k)
  else
    match k_inner k with
    | Some item :: rest => (Ready (Some item), next rest (k_sleep k) false)
    | [] => (Ready None, next [] (k_sleep k) true)
    | None :: rest =>
        match k_interval k, k_sleep k with
        | Some _, true :: sleep => (Ready (Some (Ok KEEP_ALIVE_COMMENT)), next rest sleep false)
        | Some _, _ :: sleep => (Pending, next rest sleep false)
        | _, _ => (Pending, next rest (k_sleep k) false)
        end
    end.

(** Polled to its end, the stream gives these items. *)
Inductive ka_drained : KeepAliveStream -> list (result ServiceError string) -> Prop :=
| ka_end k k' : keepalive_poll k = (Ready None, k') -> ka_drained k []
| ka_pending k k' out : keepalive_poll k = (Pending, k') -> ka_drained k' out -> ka_drained k out
| ka_item k k' i out : keepalive_poll k = (Ready (Some i), k') -> ka_drained k' out -> ka_drained k (i :: out).

(** ** What a client reads *)

(** The bytes of the items that are not errors. *)
Definition text_of (items : list (result ServiceError string)) : string :=
  str_join "" (omap (fun i => match i with Ok c => Some c | Err _ => None end) items).

Definition errors_of (items : list (result ServiceError string)) : list ServiceError :=
  omap (fun i => match i with Ok _ => None | Err e => Some e end) items.

(** The data of the events of a text. *)
Definition events_data (text : string) : list string := omap sse_event_data (sse_events text).

(** The text stops between events. *)
Definition at_boundary (c : string) : Prop := c = "" \/ exists a, c = a +:+ nl +:+ nl.

Lemma split_by_app_sep p a b c : p c = true -> split_by p (a +:+ String c b) = split_by p a ++ split_by p b.
Proof.
  intros Hc. induction a as [|x a IH]; cbn; [by rewrite Hc|]. rewrite IH. destruct (p x); [done|].
  destruct (split_by p a) as [|l ls] eqn:E; [|done]. exfalso. revert E. destruct a as [|y a]; cbn; [done|].
  destruct (p y); [done|]. by destruct (split_by p a).
Qed.

Lemma seg_lines_app l1 l2 : l2 <> [] -> seg_lines (l1 ++ l2) = map pop_cr l1 ++ seg_lines l2.
Proof.
  intros Hne. induction l1 as [|x l1 IH]; [done|]. change ((x :: l1) ++ l2) with (x :: (l1 ++ l2)).
  cbn [map app]. rewrite <- IH. destruct (l1 ++ l2) eqn:E; [|done]. by apply app_eq_nil in E as [_ ?].
Qed.

Lemma sse_lines_boundary a b :
  sse_lines ((a +:+ nl +:+ nl) +:+ b) = map pop_cr (split_by (Ascii.eqb NL) a) ++ "" :: sse_lines b.
Proof.
  unfold sse_lines. rewrite string_app_assoc. unfold nl. cbn [String.append]. rewrite split_by_app_sep by done.
  change (split_by (Ascii.eqb NL) (String NL b)) with ("" :: split_by (Ascii.eqb NL) b).
  destruct (split_by_cons (Ascii.eqb NL) b) as (s0 & ss & Hb). rewrite Hb.
  rewrite seg_lines_app by done. reflexivity.
Qed.

Lemma group_events_blank cur l l' : group_events cur (l ++ "" :: l') = group_events cur (l ++ [""]) ++ group_events [] l'.
Proof.
  revert cur. induction l as [|x l IH]; intros cur; cbn [app group_events].
  - cbn [String.eqb]. by rewrite app_nil_r.
  - destruct (String.eqb x ""); [by rewrite IH, app_assoc|apply IH].
Qed.

Lemma events_data_app a b : at_boundary a -> events_data (a +:+ b) = events_data a ++ events_data b.
Proof.
  intros [->|[a' ->]]; [done|]. unfold events_data, sse_events. rewrite sse_lines_boundary, group_events_blank.
  pose proof (sse_lines_boundary a' "") as Ha. rewrite string_app_nil_r in Ha. rewrite Ha, omap_app. by rewrite group_events_blank, app_nil_r.
Qed.

Lemma str_join_cons s l : str_join "" (s :: l) = s +:+ str_join "" l.
Proof. destruct l as [|t l]; cbn; [by rewrite string_app_nil_r|done]. Qed.

Lemma text_of_cons i items : text_of (i :: items) = match i with Ok c => c | Err _ => "" end +:+ text_of items.
Proof. unfold text_of. destruct i as [c|e]; [apply str_join_cons|done]. Qed.

(** Keep-alive comments are invisible: whenever the timer fires, if the inner
    stream's chunks stop between events, the client reads the same events with the
    same data and sees the same errors as without the comments. *)
Theorem keepalive_transparent inner_ interval sleep :
  Forall (fun c => match c with Some (Ok c) => at_boundary c | _ => True end) inner_ ->
  exists out, ka_drained (KeepAliveStream_new inner_ interval sleep) out
    /\ events_data (text_of out) = events_data (text_of (omap id inner_))
    /\ errors_of out = errors_of (omap id inner_).
Proof.
  intros Hb. revert sleep. induction Hb as [|c inner_ Hc _ IH]; intros sleep.
  - exists []. split; [by eapply ka_end|done].
  - destruct c as [i|].
    + destruct (IH sleep) as (out & Hd & Ht & He). exists (i :: out). split; [by eapply ka_item|].
      change (omap id (Some i :: inner_)) with (i :: omap id inner_). rewrite !text_of_cons.
      destruct i as [c|e]; [rewrite !events_data_app by done; by rewrite Ht|]. split; [exact Ht|]. exact (f_equal (cons e) He).
    + change (omap id (None :: inner_)) with (omap id inner_).
      assert (Hpend : forall sleep', keepalive_poll (KeepAliveStream_new (None :: inner_) interval sleep) = (Pending, KeepAliveStream_new inner_ interval sleep') ->
        exists out, ka_drained (KeepAliveStream_new (None :: inner_) interval sleep) out
          /\ events_data (text_of out) = events_data (text_of (omap id inner_)) /\ errors_of out = errors_of (omap id inner_)).
      { intros sleep' Hp. destruct (IH sleep') as (out & Hd & Ht & He). exists out. split; [by eapply ka_pending|done]. }
      destruct interval as [d|]; [|by apply (Hpend sleep)]. destruct sleep as [|[] sleep]; [by apply (Hpend [])| |by apply (Hpend sleep)].
      destruct (IH sleep) as (out & Hd & Ht & He). exists (Ok KEEP_ALIVE_COMMENT :: out). split; [by eapply ka_item|].
      rewrite text_of_cons, events_data_app by (right; by exists ": PROCESSING"). split; [exact Ht|exact He].
Qed.

Lemma keepalive_transparent_witness :
  exists out, ka_drained (KeepAliveStream_new [Some (Ok ("data: a" +:+ nl +:+ nl)); None; Some (Ok ("data: b" +:+ nl +:+ nl))] (Some 10) [true]) out
    /\ events_data (text_of out) = ["a"; "b"] /\ errors_of out = [].
Proof.
  apply (keepalive_transparent [Some (Ok ("data: a" +:+ nl +:+ nl)); None; Some (Ok ("data: b" +:+ nl +:+ nl))] (Some 10) [true]).
  constructor; [right; by exists "data: a"|]. constructor; [done|]. constructor; [right; by exists "data: b"|constructor].
Defined.

(** A comment between two chunks of one event ends the event early: the client reads
    other data than the upstream sent. *)
Theorem keepalive_splits_event :
  ka_drained (KeepAliveStream_new [Some (Ok "data: a"); None; Some (Ok ("b" +:+ nl +:+ nl))] (Some 10) [true])
    [Ok "data: a"; Ok KEEP_ALIVE_COMMENT; Ok ("b" +:+ nl +:+ nl)]
  /\ events_data (text_of [Ok "data: a"; Ok ("b" +:+ nl +:+ nl)]) = ["ab"]
  /\ events_data (text_of [Ok "data: a"; Ok KEEP_ALIVE_COMMENT; Ok ("b" +:+ nl +:+ nl)]) = ["a: PROCESSING"].
Proof.
  split; [|by vm_compute].
  eapply ka_item; [reflexivity|]. eapply ka_item; [reflexivity|]. eapply ka_item; [reflexivity|]. by eapply ka_end.
Qed.

(** ** Shaped chat streams stop between events *)

Lemma boundary_app a b : at_boundary b -> b <> "" -> at_boundary (a +:+ b).
Proof. intros [->|[c ->]] Hne; [done|]. right. exists (a +:+ c). by rewrite string_app_assoc. Qed.

Section Boundaries.
Context `{SerdeJson}.

Lemma data_line_boundary v : at_boundary (data_line v).
Proof. right. exists ("data: " +:+ json_str v). by rewrite !string_app_assoc. Qed.

Lemma render_boundary e : at_boundary (render e) /\ render e <> "".
Proof.
  destruct e as [name data|]; split; try done; cbn [render].
  - right. exists ("event: " +:+ name +:+ nl +:+ "data: " +:+ json_str data). unfold sse_event. by rewrite !string_app_assoc.
  - right. by eexists ("event: message_stop" +:+ nl +:+ "data: {" +:+ dquote +:+ "type" +:+ dquote +:+ ": " +:+ dquote +:+ "message_stop" +:+ dquote +:+ "}").
Qed.

Lemma renders_boundary events : at_boundary (str_join "" (map render events)).
Proof.
  induction events as [|e events IH]; [by left|]. cbn [map]. rewrite str_join_cons. destruct (render_boundary e) as [He Hne].
  destruct (String.eqb_spec (str_join "" (map render events)) "") as [->|Hr]; [by rewrite string_app_nil_r|by apply boundary_app].
Qed.

Lemma apply_boundary t clock ev fb st out st' :
  t <> AnthropicCompleteToOpenai -> apply t clock ev fb st = (Ok (Some out), st') -> at_boundary out.
Proof.
  intros Ht. destruct t; [| |done]; cbn [apply].
  - unfold anthropic_chat_stream. destruct (_ || _); [done|]. destruct (starts_with _ _); [intros [= <- _]; by right; exists "data: [DONE]"|].
    destruct (from_slice _) as [v|]; [|done]. unfold anthropic_chat_chunk.
    destruct (if has_type v "error" then _ else _) as [error|].
    { intros [= <- _]. apply boundary_app; [by right; exists "data: [DONE]"|done]. }
    destruct (if has_type v "message_start" then _ else _) as [u|]; [intros [= <- _]; apply data_line_boundary|].
    destruct (if has_type v "message_delta" then _ else _) as [u|]; intros [= <- _]; apply data_line_boundary.
  - unfold openai_to_anthropic_messages_stream. destruct (message_events _ _ _ _) as [events st1]. unfold output_of.
    pose proof (renders_boundary events) as Hb. destruct (str_join "" (map render events)); [done|]. by intros [= <- _].
Qed.

(** The chunks of a shaped chat or message stream are ones keep-alive comments do no
    harm between. *)
Lemma shaped_boundary clocks t fb evs n st :
  t <> AnthropicCompleteToOpenai -> Forall at_boundary (run_events clocks t fb evs n st).1.
Proof.
  intros Ht. revert n st. induction evs as [|ev evs IH]; intros n st; cbn [run_events]; [constructor|].
  destruct (String.eqb ev ""); [apply IH|]. destruct (apply t _ _ _ _) as [r st'] eqn:E. destruct r as [o|]; [|constructor].
  specialize (IH (S n) st'). destruct (run_events clocks t fb evs (S n) st') as [outs rest]. cbn [fst] in *.
  destruct o as [out|]; [|done]. constructor; [by eapply apply_boundary|done].
Qed.
End Boundaries.
