(* ===== verification/Completion.v ===== *)
(** * Completions through the middleware

    Model of [src/middleware/completion.rs]: the request is shaped for every
    candidate, forwarded by the service, and the answer is shaped for the client
    and finished by the service.  Logging is left out.  Header names and values
    are checked by the [http] crate and maps are iterated in an order of their
    own: both are parameters, as is the text of a service error. *)
From S2P Require Import Prelude StrOps Json Serde Canonical Identity Fs Revocation Receipt ReceiptStore Session SessionStore.
From S2P Require Import Upstream AciVerifier Verifiers Claims Errors E2ee E2eeFields Sse Service Forward Streaming MiddlewareForward.
From S2P Require Import Float Router RequestTransform RequestTypes ResponseTransform StreamTransform KeepAlive.
Import Types.

Record CompletionInput := {
  ci_endpoint : Endpoint;
  ci_endpoint_path : string;
  surface : Surface;
  params : Value;
  ci_received_body : string;
  ci_requester : option ReceiptOwner;
  ci_e2ee : option E2eeRequestContext;
  ci_upstream_required : bool;
  ci_request_id : string;
  ci_user_model : option string;
  ci_user_tier : option string;
  ci_stream : bool;
}.

(** [http]'s header names and values, the iteration of a [HashMap] and the text
    of a service error. *)
Class Http : Type := {
  header_name : string -> option string;
  header_value : string -> option string;
  iterate : gmap string string -> list (string * string);
  error_text : ServiceError -> string;
}.

(** Names are kept in lower case, values as they are. *)
Class HttpLaws `{Http} : Prop := {
  header_name_lower n m : header_name n = Some m -> m = to_ascii_lowercase n;
  header_value_text v w : header_value v = Some w -> w = v;
  iterate_perm h : iterate h ≡ₚ map_to_list h;
}.

(** The nested streams of a streaming answer: the provider's, shaped if the formats
    differ, kept alive, and finished by the service. *)
Record MiddlewareStream := {
  bs_provider : MiddlewareProviderResponseDraftingStream;
  bs_transform : option StreamTransform;
  bs_keepalive : option Z;
}.

Inductive Body := Bytes (b : string) | Stream (source : MiddlewareStream) (finalizer : Finalizing MiddlewareOwn).

Record ClientResponse := { cr_status : Z; cr_headers : gmap string string; cr_body : Body }.

(** ** Headers *)

Definition is_gateway_owned (name : string) : bool :=
  let lower := to_ascii_lowercase name in
  String.eqb lower "x-receipt-id" || starts_with "x-e2ee-" lower || starts_with "x-aci-" lower
  || starts_with "x-private-ai-gateway-" lower.

Definition is_hop_by_hop (name : string) : bool :=
  existsb (String.eqb (to_ascii_lowercase name))
    ["connection"; "keep-alive"; "proxy-authenticate"; "proxy-authorization"; "te"; "trailer"; "transfer-encoding";
     "upgrade"; "content-length"].

Section Headers.
Context `{Http}.

Definition insert_header (name value : string) (headers : gmap string string) : gmap string string :=
  match header_name name, header_value value with
  | Some name, Some value => <[name := value]> headers
  | _, _ => headers
  end.

Definition skipped (name : string) : bool :=
  is_gateway_owned name || is_hop_by_hop name || eq_ignore_ascii_case name "content-type"
  || eq_ignore_ascii_case name "content-encoding".

Definition response_headers (upstream_headers : gmap string string) (content_type : string) : gmap string string :=
  let headers := fold_left (fun h kv => if skipped kv.1 then h else insert_header kv.1 kv.2 h) (iterate upstream_headers) ∅ in
  match header_value content_type with Some v => <["content-type" := v]> headers | None => headers end.

Definition apply_e2ee_headers (e2ee : option E2eeResponseInfo) (include_plain_false : bool) (headers : gmap string string) :
    gmap string string :=
  match e2ee with
  | Some info =>
      insert_header "x-e2ee-algo" (ei_algo info)
        (insert_header "x-e2ee-version" (ei_version info) (<["x-e2ee-applied" := "true"]> headers))
  | None => if include_plain_false then <["x-e2ee-applied" := "false"]> headers else headers
  end.
End Headers.

Definition forward_error_status (e : ServiceError) : Z :=
  match e with
  | ServiceE2ee _ => 400
  | UpstreamVerification _ => 503
  | ServiceUpstream (Routing _) => 404
  | _ => 502
  end.

(** ** How the nested streams answer polls *)

Section Polls.
Context `{Digest} `{SerdeJson} (clocks : nat -> WallClock).

(** The answers of the provider's stream, each with the journal it leaves, and what
    the poll that ends it leaves. *)
Fixpoint provider_answers (fuel : nat) (p : MiddlewareProviderResponseDraftingStream) :
    list (Answer MiddlewareOwn) * (MiddlewareOwn -> MiddlewareOwn) :=
  match fuel with
  | O => ([], id)
  | Datatypes.S fuel =>
      let '(o, p') := drafting_poll p in
      let eff x := {| journal := p_journal p'; response_modified_by_wire := response_modified_by_wire x |} in
      match o with
      | Ready None => ([], eff)
      | Pending => let '(l, e) := provider_answers fuel p' in ({| answer := None; effect := eff |} :: l, e)
      | Ready (Some r) => let '(l, e) := provider_answers fuel p' in ({| answer := Some r; effect := eff |} :: l, e)
      end
  end.

(** A poll of the adapter gets as far as the end of the inner stream. *)
Fixpoint polls_end (inner_ : list (option (result ServiceError string))) (s : SseTransformStream) : bool :=
  match t_queue s with
  | _ :: _ => false
  | [] =>
      if inner_done s then false
      else
        match inner_ with
        | [] => true
        | Some (Ok bytes) :: rest => polls_end rest (drain_buffer clocks (with_buffer (t_buffer s +:+ bytes) s))
        | _ => false
        end
  end.

(** What the inner answers a poll consumed did meanwhile. *)
Definition all_effects {X} (l : list (Answer X)) : X -> X := fun x => fold_left (fun x a => effect a x) l x.

(** The answers of the adapter over a stream that answers [l] and then [e]. *)
Fixpoint shaped_answers {X} (fuel : nat) (s : SseTransformStream) (l : list (Answer X)) (e : X -> X) : list (Answer X) * (X -> X) :=
  match fuel with
  | O => ([], id)
  | Datatypes.S fuel =>
      let '(o, s') := sse_poll_next clocks s in
      let consumed := (length (t_inner s) - length (t_inner s'))%nat in
      let eff x := let x := all_effects (take consumed l) x in if polls_end (t_inner s) s then e x else x in
      match o with
      | Ready None => ([], eff)
      | Pending => let '(l, e) := shaped_answers fuel s' (drop consumed l) e in ({| answer := None; effect := eff |} :: l, e)
      | Ready (Some r) => let '(l, e) := shaped_answers fuel s' (drop consumed l) e in ({| answer := Some r; effect := eff |} :: l, e)
      end
  end.

(** The answers of the keep-alive stream. *)
Fixpoint kept_answers {X} (interval : option Z) (sleep : list bool) (l : list (Answer X)) : list (Answer X) :=
  match l with
  | [] => []
  | a :: l =>
      match answer a, interval, sleep with
      | None, Some _, true :: sleep => {| answer := Some (Ok KEEP_ALIVE_COMMENT); effect := effect a |} :: kept_answers interval sleep l
      | None, Some _, _ :: sleep => a :: kept_answers interval sleep l
      | _, _, _ => a :: kept_answers interval sleep l
      end
  end.

(** Bytes that can be turned into chunks, and polls that can find nothing. *)
Definition polls_enough {X} (l : list (Answer X)) : nat := (2 + length l + String.length (concat_str (chunks_of l)))%nat.

Definition stream_answers (clock : WallClock) (sleep : list bool) (m : MiddlewareStream) :
    list (Answer MiddlewareOwn) * (MiddlewareOwn -> MiddlewareOwn) :=
  let '(l, e) := provider_answers (2 + length (p_inner (bs_provider m))) (bs_provider m) in
  let '(l, e) := match bs_transform m with
                 | Some t => shaped_answers (polls_enough l) (SseTransformStream_new (map answer l) t clock) l e
                 | None => (l, e)
                 end in
  (kept_answers (bs_keepalive m) sleep l, e).
End Polls.

(** ** The handler *)

Section Run.
Context `{Digest} `{Crypto} `{CurveLibs} `{SerdeJson} `{KeyProvider} `{Http}.
Context {V S Env : Type} `{SessionStoreOps S}.
Context `{UpstreamVerifier V (Shared S Env Rng)} `{!Outside (Shared S Env Rng)}.
Context (svc : AciService V).

(** What time brings: the clock at each event of a stream and when a response is
    shaped, the pauses of the provider's stream and the polls of the keep-alive
    timer. *)
Context (clocks : nat -> WallClock) (clock : WallClock) (sleep : list bool).
Context (pauses : list (result UpstreamError string) -> list (option (result UpstreamError string))).

Abbreviation State := (State (S := S) (Env := Env)).

Definition json_headers : gmap string string := {[ "content-type" := "application/json" ]}.

Definition finalize_generated (surf : Surface) (endpoint_path_ : string) (status : Z) (body : string)
    (e2ee : option E2eeRequestContext) (st : State) : ClientResponse * State :=
  let plain := {| cr_status := status_or_bad_gateway status; cr_headers := json_headers; cr_body := Bytes body |} in
  match e2ee with
  | None => (plain, st)
  | Some _ =>
      match finalize_middleware_generated_response endpoint_path_ body (Some "application/json") e2ee st with
      | (Ok finalized, st) =>
          ({| cr_status := status_or_bad_gateway status; cr_headers := apply_e2ee_headers (gen_e2ee finalized) false json_headers;
              cr_body := Bytes (gen_wire_body finalized) |}, st)
      | (Err _, st) =>
          let r := error_response surf 500 (error_type surf 500) "response finalization failed" None in
          ({| cr_status := r_status r; cr_headers := list_to_map (r_headers r); cr_body := Bytes (r_body r) |}, st)
      end
  end.

Definition service_error_response (surf : Surface) (endpoint_path_ rid : string) (e : ServiceError)
    (e2ee : option E2eeRequestContext) (st : State) : ClientResponse * State :=
  let status := forward_error_status e in
  let e2ee := match e with ServiceE2ee _ => None | _ => e2ee end in
  finalize_generated surf endpoint_path_ status (envelope_bytes surf (error_type surf status) (error_text e) (Some rid)) e2ee st.

(** The format of the route that served. *)
Definition selected_format (candidates : list RouteCandidate) (selected : string) : ProviderFormat :=
  match find (fun c => String.eqb (rc_route_id c) selected) candidates with
  | Some c => format c
  | None => match candidates with c :: _ => format c | [] => FmtOpenai end
  end.

Section Request.
Context (input : CompletionInput) (candidates : list RouteCandidate).

Definition generated (status : Z) (ty message : string) (st : State) : ClientResponse * State :=
  finalize_generated (surface input) (ci_endpoint_path input) status
    (envelope_bytes (surface input) ty message (Some (ci_request_id input))) (ci_e2ee input) st.

(** A buffered answer, shaped for the client: its status and bytes, or a message. *)
Definition shaped_answer (forward : MiddlewareForwarded) : result string (Z * string) :=
  if (200 <=? mf_status forward) && (mf_status forward <? 300) then
    match from_slice (mf_body forward) with
    | Err _ => Err "upstream returned a malformed success body"
    | Ok upstream_json =>
        let transformed := transform_response clock (selected_format candidates (mf_selected_route forward)) (ci_endpoint input) upstream_json in
        Ok (mf_status forward, to_vec_or_default transformed)
    end
  else Ok (normalize_upstream_error_parts (surface input) (mf_status forward) (mf_body forward) (ci_received_body input)
             (Some (ci_request_id input))).

Definition answer_buffered (forward : MiddlewareForwarded) (st : State) : ClientResponse * State :=
  match shaped_answer forward with
  | Err message => generated 502 (error_type (surface input) 502) message st
  | Ok (client_status, final_body) =>
      match finalize_middleware_receipt svc (mf_receipt forward) final_body (Some "application/json") (ci_requester input) (ci_e2ee input) st with
      | (Ok finalized, st) =>
          let headers := response_headers (mf_headers forward) "application/json" in
          let headers := insert_header "x-receipt-id" (receipt_id (fin_receipt finalized)) headers in
          ({| cr_status := status_or_bad_gateway client_status; cr_headers := apply_e2ee_headers (fin_e2ee finalized) true headers;
              cr_body := Bytes (fin_wire_body finalized) |}, st)
      | (Err e, st) => service_error_response (surface input) (ci_endpoint_path input) (ci_request_id input) e None st
      end
  end.

Definition keepalive_interval (sse_keepalive_ms : option Z) : option Z :=
  let ms := match sse_keepalive_ms with Some ms => ms | None => 10000 end in
  if ms =? 0 then None else Some ms.

Definition answer_stream (sse_keepalive_ms : option Z) (forward : MiddlewareStreamingForwarded) (st : State) : ClientResponse * State :=
  let content_type := match ms_headers forward !! "content-type" with Some c => c | None => "text/event-stream" end in
  let source := {| bs_provider := ms_body forward;
                   bs_transform := select_stream_transform (selected_format candidates (ms_selected_route forward)) (ci_endpoint input);
                   bs_keepalive := keepalive_interval sse_keepalive_ms |} in
  let '(answers, end_) := stream_answers clocks clock sleep source in
  let j := p_journal (ms_body forward) in
  match finalize_middleware_response_stream j answers end_ (ci_endpoint_path input) (Some content_type) (ci_requester input) (ci_e2ee input) with
  | Ok (body, info) =>
      let headers := response_headers (ms_headers forward) content_type in
      let headers := match peek_receipt_id j with
                     | Some rid => apply_e2ee_headers info true (insert_header "x-receipt-id" rid headers)
                     | None => apply_e2ee_headers info false headers
                     end in
      let headers := <["cache-control" := "no-cache"]> (<["x-accel-buffering" := "no"]> headers) in
      ({| cr_status := status_or_bad_gateway (ms_status forward); cr_headers := headers; cr_body := Stream source body |}, st)
  | Err e => service_error_response (surface input) (ci_endpoint_path input) (ci_request_id input) e None st
  end.

Definition forward_candidates (shaped : list (string * Value)) : list ForwardCandidate :=
  map (fun rb => {| c_route_id := rb.1; c_body := to_vec_or_default rb.2 |}) shaped.

Definition chat_request : ChatCompletionRequest :=
  {| rq_context := {| request_id := ci_request_id input; user_model := ci_user_model input; ctx_target_route_id := None;
                      user_tier := ci_user_tier input |};
     endpoint_path := ci_endpoint_path input; received_body := ci_received_body input; forwarded_body := None;
     upstream_required := Some (ci_upstream_required input); upstream_verification_event := None;
     requester := ci_requester input; rq_e2ee := ci_e2ee input |}.

(** The answer of a forwarded request, and the route the in-flight guard moves to. *)
Definition answer_forwarded (sse_keepalive_ms : option Z) (r : result ServiceError MiddlewareForwardResult) (st : State) :
    ClientResponse * option string * State :=
  let errs e := service_error_response (surface input) (ci_endpoint_path input) (ci_request_id input) e (ci_e2ee input) st in
  match r with
  | Ok (MForwarded forward) => let '(resp, st) := answer_buffered forward st in (resp, Some (mf_selected_route forward), st)
  | Ok (MStream forward) => let '(resp, st) := answer_stream sse_keepalive_ms forward st in (resp, Some (ms_selected_route forward), st)
  | Ok (MUpstreamError forward) =>
      let '(status, body) := normalize_upstream_error_parts (surface input) (err_status (mu_error forward)) (err_body (mu_error forward))
                               (ci_received_body input) (Some (ci_request_id input)) in
      let '(resp, st) := finalize_generated (surface input) (ci_endpoint_path input) status body (ci_e2ee input) st in
      (resp, Some (mu_selected_route forward), st)
  | Ok (MAllFailed forward) => let '(resp, st) := errs (ma_error forward) in (resp, None, st)
  | Err e => let '(resp, st) := errs e in (resp, None, st)
  end.

Definition run_request (sse_keepalive_ms : option Z) (st : State) : ClientResponse * option string * State :=
  match candidates with
  | [] =>
      let name := match str_of (params input) "model" with Some m => m | None => "(none)" end in
      let '(resp, st) := generated 400 "model_not_found" ("no route available for model " +:+ name) st in (resp, None, st)
  | _ =>
      match build_candidates (params input) (ci_endpoint input) candidates with
      | Err e =>
          let '(resp, st) := generated 500 (error_type (surface input) 500) ("failed to shape provider request: " +:+ TransformError_display e) st in
          (resp, None, st)
      | Ok shaped =>
          let '(r, st) := forward_chat_completion_for_middleware svc chat_request (forward_candidates shaped) (ci_stream input) pauses
                            journal_default st in
          answer_forwarded sse_keepalive_ms r st
      end
  end.

(** The guard counts on the route that served, and lives as long as a streaming
    body; otherwise it is dropped with the answer. *)
Definition run (sse_keepalive_ms : option Z) (guard : option RouteInFlight) (router : RouterState) (st : State) :
    ClientResponse * option RouteInFlight * RouterState * State :=
  let '(resp, moved, st) := run_request sse_keepalive_ms st in
  match guard with
  | None => (resp, None, router, st)
  | Some g =>
      let '(g, router) := match moved with Some rid => retarget router g rid | None => (g, router) end in
      match cr_body resp with
      | Stream _ _ => (resp, Some g, router, st)
      | Bytes _ => (resp, None, (in_flight_drop router g).2, st)
      end
  end.
End Request.
End Run.

(** ** Headers the gateway owns *)

Section HeaderFacts.
Context `{HttpLaws}.

Lemma insert_header_other name value h k : to_ascii_lowercase name <> k -> insert_header name value h !! k = h !! k.
Proof.
  intros Hne. unfold insert_header. destruct (header_name name) as [n|] eqn:En; [|done].
  destruct (header_value value) as [v|]; [|done]. apply header_name_lower in En as ->. by rewrite lookup_insert_ne.
Qed.

Lemma insert_header_same name value h v :
  h !! to_ascii_lowercase name = None -> insert_header name value h !! to_ascii_lowercase name = Some v -> v = value.
Proof.
  intros Hn. unfold insert_header. destruct (header_name name) as [n|] eqn:En; [|congruence].
  destruct (header_value value) as [w|] eqn:Ew; [|congruence]. apply header_name_lower in En as ->. apply header_value_text in Ew as ->.
  rewrite lookup_insert_eq. congruence.
Qed.

Lemma to_ascii_lowercase_idem s : to_ascii_lowercase (to_ascii_lowercase s) = to_ascii_lowercase s.
Proof.
  induction s as [|c s IH]; [done|]. cbn [to_ascii_lowercase] in *. rewrite IH. f_equal.
  by destruct c as [[] [] [] [] [] [] [] []].
Qed.

Lemma upstream_headers_owned up ct k : is_gateway_owned k = true -> k = to_ascii_lowercase k -> response_headers up ct !! k = None.
Proof.
  intros Hk Hl. unfold response_headers.
  assert (Hfold : forall l h, h !! k = None ->
    fold_left (fun h kv => if skipped kv.1 then h else insert_header kv.1 kv.2 h) l h !! k = None).
  { induction l as [|[n v] l IH]; intros h Hh; [done|]. cbn [fold_left fst snd]. apply IH. destruct (skipped n) eqn:Es; [done|].
    rewrite insert_header_other; [done|]. intros He. unfold skipped in Es. rewrite !orb_false_iff in Es. destruct Es as [[[Es _] _] _].
    unfold is_gateway_owned in Hk, Es. rewrite He in Es. rewrite Hl, to_ascii_lowercase_idem in Hk. rewrite <- Hl in Hk. congruence. }
  destruct (header_value ct); [|by apply Hfold]. rewrite lookup_insert_ne; [by apply Hfold|]. by intros <-.
Qed.

Lemma e2ee_headers_receipt info b h : apply_e2ee_headers info b h !! "x-receipt-id" = h !! "x-receipt-id".
Proof.
  unfold apply_e2ee_headers. destruct info as [info|].
  - rewrite !insert_header_other by done. by rewrite lookup_insert_ne.
  - destruct b; [|done]. by rewrite lookup_insert_ne.
Qed.
End HeaderFacts.

Section Receipted.
Context `{Digest} `{Crypto} `{CurveLibs} `{SerdeJson} `{KeyProvider} `{HttpLaws}.
Context {V S Env : Type} `{SessionStoreOps S}.
Context `{UpstreamVerifier V (Shared S Env Rng)} `{!Outside (Shared S Env Rng)}.
Context (svc : AciService V) (clocks : nat -> WallClock) (clock : WallClock) (sleep : list bool).
Context (pauses : list (result UpstreamError string) -> list (option (result UpstreamError string))).

Abbreviation State := (State (S := S) (Env := Env)).

(** Answers the gateway makes up have no receipt. *)
Lemma generated_no_receipt surf path status body e2ee (st : State) resp st' :
  finalize_generated surf path status body e2ee st = (resp, st') -> cr_headers resp !! "x-receipt-id" = None.
Proof.
  unfold finalize_generated. destruct e2ee as [ctx|]; [|by intros [= <- _]].
  destruct (finalize_middleware_generated_response _ _ _ _ _) as [[f|e] st1]; intros [= <- _]; [|done].
  cbn [cr_headers]. by rewrite e2ee_headers_receipt.
Qed.

Lemma service_error_no_receipt surf path rid e e2ee (st : State) resp st' :
  service_error_response surf path rid e e2ee st = (resp, st') -> cr_headers resp !! "x-receipt-id" = None.
Proof. apply generated_no_receipt. Qed.

(** The receipt an answer refers to. *)
Definition receipt_tells (input : CompletionInput) (shaped : list (string * Value)) (wire rid : string) (st st' : State) : Prop :=
  exists r t c p event resp recorded body st1,
    by_receipt (receipts (shared st')) !! rid = Some {| sr_receipt := r; sr_owner := ci_requester input; expires_at := t |}
    /\ receipt_id r = rid /\ signed svc r
    /\ committed up_forward served_instance_id (chat_request input) (forward_candidates shaped) st st1 c p event resp recorded
    /\ (ci_e2ee input = None -> wire = body)
    /\ log_of (event_log r)
       = middleware_log (chat_request input) c p event recorded (accepted_response_model (status_code resp) (resp_body resp)) (resp_body resp)
         ++ marked (negb (String.eqb (sha256_hex (resp_body resp)) (sha256_hex body)) || negb (String.eqb wire body))
         ++ returned body wire.

Lemma buffered_receipt input candidates shaped forward st st1 resp st2 rid wire :
  forward_chat_completion_for_middleware svc (chat_request input) (forward_candidates shaped) false pauses journal_default st
    = (Ok (MForwarded forward), st1) ->
  answer_buffered svc clock input candidates forward st1 = (resp, st2) ->
  cr_headers resp !! "x-receipt-id" = Some rid -> cr_body resp = Bytes wire ->
  receipt_tells input shaped wire rid st st2.
Proof.
  intros Hf Ha Hh Hb. apply forwarded_draft in Hf as (c & p & event & up & recorded & Hc & _ & _ & Hbody & Hph & Hrid & _ & Hlog).
  unfold answer_buffered in Ha. destruct (shaped_answer _ _ _ _) as [[status final]|message].
  2: { apply generated_no_receipt in Ha. congruence. }
  destruct (finalize_middleware_receipt svc (mf_receipt forward) final _ _ _ st1) as [[fin|e] st3] eqn:Ef.
  - injection Ha as <- <-. cbn [cr_headers cr_body] in *. injection Hb as <-.
    apply finalized_receipt in Ef as (Hw & Hsig & Hid & Hl & t & Hby).
    rewrite e2ee_headers_receipt in Hh. apply (insert_header_same "x-receipt-id") in Hh; [|by apply upstream_headers_owned].
    subst rid. exists (fin_receipt fin), t, c, p, event, up, recorded, final, st1. rewrite Hph, Hlog in Hl. by repeat (split; [done|]).
  - apply service_error_no_receipt in Ha. congruence.
Qed.

(** A streaming request is never answered by a buffered exchange. *)
Lemma stream_not_forwarded req candidates j (st : State) f st' :
  forward_chat_completion_for_middleware svc req candidates true pauses j st <> (Ok (MForwarded f), st').
Proof.
  intros (c & last & failed & st0 & before & _ & _ & Ht)%for_middleware_answer; [|done]. cbn beta iota in Ht.
  unfold try_stream in Ht. apply svc_bind_Ok in Ht as (out & st1 & _ & Hk). destruct out as [|p event resp]; [done|].
  destruct (negb _); [cbn zeta in Hk; by destruct (_ && _)|].
  apply svc_bind_Ok in Hk as (r & st2 & Hc & [= -> _]). unfold commit_stream in Hc.
  by apply svc_bind_Ok in Hc as ([[rid sid] b] & st3 & _ & [= <- _]).
Qed.

Lemma stream_no_bytes ka input candidates forward (st : State) resp st' wire :
  answer_stream clocks clock sleep input candidates ka forward st = (resp, st') -> cr_body resp = Bytes wire ->
  cr_headers resp !! "x-receipt-id" = None.
Proof.
  unfold answer_stream. destruct (stream_answers _ _ _ _) as [answers end_].
  destruct (finalize_middleware_response_stream _ _ _ _ _ _ _) as [[body info]|e]; [by intros [= <- _]|].
  intros Ha _. by apply service_error_no_receipt in Ha.
Qed.

(** The receipt of a buffered answer. *)
Lemma run_receipted input candidates ka guard router (st : State) resp guard' router' st' rid wire :
  run svc clocks clock sleep pauses input candidates ka guard router st = (resp, guard', router', st') ->
  cr_headers resp !! "x-receipt-id" = Some rid -> cr_body resp = Bytes wire ->
  exists shaped, build_candidates (params input) (ci_endpoint input) candidates = Ok shaped
    /\ ci_stream input = false /\ receipt_tells input shaped wire rid st st'.
Proof.
  intros Hrun Hh Hb. unfold run in Hrun.
  destruct (run_request svc clocks clock sleep pauses input candidates ka st) as [[r0 moved] s0] eqn:Er.
  assert (r0 = resp /\ s0 = st') as [-> ->].
  { destruct guard as [g|]; [|by injection Hrun as -> _ _ ->]. destruct (match moved with Some rid => _ | None => _ end) as [g1 rt].
    destruct (cr_body r0); by injection Hrun as -> _ _ ->. }
  clear Hrun. unfold run_request in Er. destruct candidates as [|c0 cs] eqn:Ec.
  { destruct (generated _ _ _ _ _) as [r s] eqn:Eg. injection Er as -> _ _. apply generated_no_receipt in Eg. congruence. }
  rewrite <- Ec in *. destruct (build_candidates (params input) (ci_endpoint input) candidates) as [shaped|e].
  2: { destruct (generated _ _ _ _ _) as [r s] eqn:Eg. injection Er as -> _ _. apply generated_no_receipt in Eg. congruence. }
  exists shaped. split; [done|].
  destruct (forward_chat_completion_for_middleware _ _ _ _ _ _ st) as [res st1] eqn:Ef. unfold answer_forwarded in Er.
  destruct res as [[forward|forward|forward|forward]|e].
  - destruct (ci_stream input); [by apply stream_not_forwarded in Ef|]. split; [done|].
    destruct (answer_buffered _ _ _ _ _ _) as [r s] eqn:Ea. injection Er as -> _ ->. by eapply buffered_receipt.
  - destruct (answer_stream _ _ _ _ _ _ _ _) as [r s] eqn:Ea. injection Er as -> _ ->.
    rewrite (stream_no_bytes _ _ _ _ _ _ _ _ Ea Hb) in Hh. done.
  - destruct (normalize_upstream_error_parts _ _ _ _ _) as [status body].
    destruct (finalize_generated _ _ _ _ _ _) as [r s] eqn:Eg. injection Er as -> _ _. apply generated_no_receipt in Eg. congruence.
  - destruct (service_error_response _ _ _ _ _ _) as [r s] eqn:Eg. injection Er as -> _ _. apply service_error_no_receipt in Eg. congruence.
  - destruct (service_error_response _ _ _ _ _ _) as [r s] eqn:Eg. injection Er as -> _ _. apply service_error_no_receipt in Eg. congruence.
Qed.

(** C3: A receipt id the client is given is the id of a receipt that exists and is
    about this answer: whatever headers the upstream sent, if a buffered answer of
    the middleware carries [x-receipt-id], the store holds a receipt under that id
    for this requester, signed, whose log is of the candidate that served this
    request and ends with the hashes of the bytes the client got.  Answers the
    gateway makes up carry no receipt id. *)
Theorem completion_receipted input candidates ka guard router (st : State) resp guard' router' st' rid wire :
  run svc clocks clock sleep pauses input candidates ka guard router st = (resp, guard', router', st') ->
  cr_headers resp !! "x-receipt-id" = Some rid -> cr_body resp = Bytes wire ->
  exists shaped, build_candidates (params input) (ci_endpoint input) candidates = Ok shaped
    /\ ci_stream input = false /\ receipt_tells input shaped wire rid st st'.
Proof. apply run_receipted. Qed.
End Receipted.

(** ** What the client is told of an upstream's error answer *)

Section ErrorAnswers.
Context `{Digest} `{Crypto} `{CurveLibs} `{SerdeJson} `{KeyProvider} `{HttpLaws}.
Context {V S Env : Type} `{SessionStoreOps S}.
Context `{UpstreamVerifier V (Shared S Env Rng)} `{!Outside (Shared S Env Rng)}.
Context (svc : AciService V) (clocks : nat -> WallClock) (clock : WallClock) (sleep : list bool).
Context (pauses : list (result UpstreamError string) -> list (option (result UpstreamError string))).

Abbreviation State := (State (S := S) (Env := Env)).

(** The upstream's error answer in the outcome of a forwarding, if it is one: status,
    body, and the headers an answer with a receipt relays. *)
Definition error_answer (r : result ServiceError MiddlewareForwardResult) : option (Z * string * gmap string string) :=
  match r with
  | Ok (MForwarded f) =>
      if bool_decide (200 <= mf_status f < 300) then None else Some (mf_status f, mf_body f, mf_headers f)
  | Ok (MUpstreamError e) => Some (err_status (mu_error e), err_body (mu_error e), ∅)
  | _ => None
  end.

Definition own_headers : list string := ["content-type"; "x-receipt-id"; "x-e2ee-applied"; "x-e2ee-version"; "x-e2ee-algo"].

(** Every header is the gateway's own, or one of the upstream's that is neither in
    the gateway's name space nor about the connection or the encoding. *)
Definition headers_confined (up h : gmap string string) : Prop :=
  forall n v, h !! n = Some v ->
    n ∈ own_headers \/ exists m, up !! m = Some v /\ n = to_ascii_lowercase m /\ skipped m = false.

(** The bytes sent for a body: the body, or what the client's own key encrypts it to. *)
Definition sent_for (input : CompletionInput) (body wire : string) : Prop :=
  exists path (s s' : State), final_wire_body body path false (ci_e2ee input) s = (Ok wire, s').

(** The gateway could not finish the answer, and says so in words of its own. *)
Definition finishing_failed (input : CompletionInput) (resp : ClientResponse) : Prop :=
  (exists e, (forall u, e <> ServiceUpstream u) /\ cr_status resp = forward_error_status e
     /\ cr_body resp = Bytes (envelope_bytes (surface input) (error_type (surface input) (forward_error_status e)) (error_text e)
                                (Some (ci_request_id input))))
  \/ (cr_status resp = 500
      /\ cr_body resp = Bytes (envelope_bytes (surface input) (error_type (surface input) 500) "response finalization failed" None)).

(** What the client gets for an upstream's error answer. *)
Definition confined_answer (input : CompletionInput) (ustatus : Z) (ubody : string) (up : gmap string string) (resp : ClientResponse) : Prop :=
  400 <= cr_status resp <= 504
  /\ headers_confined up (cr_headers resp)
  /\ ((exists body wire, confined_error (surface input) (Some (ci_request_id input)) (ci_received_body input) ustatus ubody (cr_status resp) body
          /\ cr_body resp = Bytes wire /\ sent_for input body wire /\ (ci_e2ee input = None -> wire = body))
      \/ finishing_failed input resp).

Lemma sent_plain input body wire : ci_e2ee input = None -> sent_for input body wire -> wire = body.
Proof. intros He (path & s & s' & Hw). unfold final_wire_body in Hw. rewrite He in Hw. by injection Hw. Qed.

Lemma insert_header_confined up h name value :
  to_ascii_lowercase name ∈ own_headers \/ (up !! name = Some value /\ skipped name = false) ->
  headers_confined up h -> headers_confined up (insert_header name value h).
Proof.
  intros Hn Hh n v. unfold insert_header. destruct (header_name name) as [m|] eqn:En; [|apply Hh].
  destruct (header_value value) as [w|] eqn:Ew; [|apply Hh]. apply header_name_lower in En as ->. apply header_value_text in Ew as ->.
  rewrite lookup_insert_Some. intros [[<- <-]|[_ ?]]; [|by apply Hh]. destruct Hn as [?|[? ?]]; [by left|right; eauto].
Qed.

Lemma insert_own_confined up h (name value : string) :
  name ∈ own_headers -> headers_confined up h -> headers_confined up (<[name := value]> h).
Proof. intros Hn Hh n v. rewrite lookup_insert_Some. intros [[<- _]|[_ ?]]; [by left|by apply Hh]. Qed.

Lemma e2ee_headers_confined up info b h : headers_confined up h -> headers_confined up (apply_e2ee_headers info b h).
Proof.
  intros Hh. unfold apply_e2ee_headers. destruct info as [info|].
  - do 2 (apply insert_header_confined; [left; unfold own_headers; cbn; set_solver|]).
    apply insert_own_confined; [unfold own_headers; set_solver|done].
  - destruct b; [|done]. apply insert_own_confined; [unfold own_headers; set_solver|done].
Qed.

Lemma response_headers_confined up ct : headers_confined up (response_headers up ct).
Proof.
  unfold response_headers.
  assert (Hfold : forall l h, (forall kv, kv ∈ l -> up !! kv.1 = Some kv.2) -> headers_confined up h ->
    headers_confined up (fold_left (fun h kv => if skipped kv.1 then h else insert_header kv.1 kv.2 h) l h)).
  { induction l as [|[n v] l IH]; intros h Hl Hh; [done|]. cbn [fold_left fst snd]. apply IH; [set_solver|].
    destruct (skipped n) eqn:Es; [done|]. apply insert_header_confined; [right|done]. split; [|done]. apply (Hl (n, v)). set_solver. }
  assert (Hup : headers_confined up (fold_left (fun h kv => if skipped kv.1 then h else insert_header kv.1 kv.2 h) (iterate up) ∅)).
  { apply Hfold; [|by intros ? ? ?]. intros [n v] Hn. rewrite iterate_perm in Hn. by apply elem_of_map_to_list in Hn. }
  destruct (header_value ct); [|done]. apply insert_own_confined; [unfold own_headers; set_solver|done].
Qed.

Lemma json_headers_confined up : headers_confined up json_headers.
Proof. intros n v. unfold json_headers. rewrite lookup_singleton_Some. intros [<- _]. left. unfold own_headers. set_solver. Qed.

(** A made-up answer carries its body, or the failure to encrypt it. *)
Lemma generated_sent input status body (st : State) resp st' up :
  400 <= status <= 504 ->
  finalize_generated (surface input) (ci_endpoint_path input) status body (ci_e2ee input) st = (resp, st') ->
  headers_confined up (cr_headers resp)
  /\ ((exists wire, cr_status resp = status /\ cr_body resp = Bytes wire /\ sent_for input body wire) \/ finishing_failed input resp).
Proof.
  intros Hs. unfold finalize_generated. destruct (ci_e2ee input) as [ctx|] eqn:Ectx.
  - destruct (finalize_middleware_generated_response _ _ _ _ _) as [[f|e] st1] eqn:Ef; intros [= <- _]; cbn [cr_status cr_headers cr_body].
    + split; [apply e2ee_headers_confined, json_headers_confined|]. left. exists (gen_wire_body f).
      apply svc_bind_Ok in Ef as (w & st2 & Hw & [= <- _]). cbn [gen_wire_body]. rewrite status_or_bad_gateway_small by done.
      repeat split. exists (ci_endpoint_path input), st, st2. by rewrite Ectx.
    + split; [apply json_headers_confined|]. right. by right.
  - intros [= <- _]. split; [apply json_headers_confined|]. left. exists body. cbn [cr_status cr_body]. rewrite status_or_bad_gateway_small by done.
    repeat split. exists "", st, st. unfold final_wire_body. by rewrite Ectx.
Qed.

(** The failures of finishing an answer are never an upstream's. *)
Lemma finish_error_own draft body ct owner e2ee (st : State) e st' :
  finalize_middleware_receipt svc draft body ct owner e2ee st = (Err e, st') -> forall u, e <> ServiceUpstream u.
Proof.
  assert (Hbuild : forall A (m : Build A) b (s : State) e s', svc_build m b s = (Err e, s') -> forall u, e <> ServiceUpstream u).
  { intros A m b s e0 s'. unfold svc_build. destruct (m b) as [[a|x] b']; [done|]. by intros [= <- _]. }
  unfold finalize_middleware_receipt. cbn zeta.
  intros [(e0 & Hw & [= <-])|(w & s1 & _ & Hk)]%svc_bind_inv.
  { destruct e2ee as [ctx|]; [|done]. cbn [final_wire_body] in Hw. unfold svc_encrypt in Hw. destruct (encrypt_e2ee_final_response _ _ _ _ _) as [[w|x] g]; [done|].
    by injection Hw as <- _. }
  apply svc_bind_inv in Hk as [(e0 & Hb & [= <-])|(b & s2 & _ & Hk)]; [by eapply Hbuild|].
  apply svc_bind_inv in Hk as [(e0 & Hb & [= <-])|(b2 & s3 & _ & Hk)]; [by eapply Hbuild|].
  apply svc_bind_inv in Hk as [(e0 & Hb & [= <-])|(r & s4 & _ & Hk)].
  { unfold svc_lift, sign_receipt_of in Hb. destruct (finalize _ _); [done|]. by injection Hb as <- _. }
  apply svc_bind_inv in Hk as [(e0 & Hb & [= <-])|(x & s5 & _ & Hk)]; [|done]. unfold store_receipt in Hb.
  apply svc_bind_inv in Hb as [(e1 & Hb & _)|(t & s5 & _ & Hb)]; [|done]. unfold read_clock in Hb. by destruct (now_secs _).
Qed.

Lemma finished_sent input draft body ct owner (st : State) fin st' :
  is_sse_content_type ct = false ->
  finalize_middleware_receipt svc draft body ct owner (ci_e2ee input) st = (Ok fin, st') -> sent_for input body (fin_wire_body fin).
Proof.
  intros Hct. unfold finalize_middleware_receipt. rewrite Hct. cbn zeta.
  intros (w & s1 & Hw & Hk)%svc_bind_Ok. do 4 apply svc_bind_Ok in Hk as (? & ? & _ & Hk). injection Hk as <- _.
  by exists (d_endpoint_path draft), st, s1.
Qed.

(** The status of an unfinished answer. *)
Lemma finishing_failed_range input resp : finishing_failed input resp -> 400 <= cr_status resp <= 504.
Proof.
  intros [(e & Hu & -> & _)|[-> _]]; [|lia]. destruct e; cbn; try lia. by destruct (Hu e).
Qed.

Lemma confined_of_sent input ustatus ubody up status body resp :
  confined_error (surface input) (Some (ci_request_id input)) (ci_received_body input) ustatus ubody status body ->
  headers_confined up (cr_headers resp) ->
  (exists wire, cr_status resp = status /\ cr_body resp = Bytes wire /\ sent_for input body wire) \/ finishing_failed input resp ->
  confined_answer input ustatus ubody up resp.
Proof.
  intros Hc Hh [(wire & <- & Hb & Hs)|Hd].
  - split; [by eapply confined_range|]. split; [done|]. left. exists body, wire. repeat (split; [done|]). intros ?. by eapply sent_plain.
  - split; [by eapply finishing_failed_range|]. auto.
Qed.

Lemma buffered_confined input candidates f (st : State) resp st' :
  ~ 200 <= mf_status f < 300 ->
  answer_buffered svc clock input candidates f st = (resp, st') ->
  confined_answer input (mf_status f) (mf_body f) (mf_headers f) resp.
Proof.
  intros Hst. unfold answer_buffered, shaped_answer.
  replace ((200 <=? mf_status f) && (mf_status f <? 300)) with false by lia.
  pose proof (normalized_confined (surface input) (mf_status f) (mf_body f) (ci_received_body input) (Some (ci_request_id input))) as Hc.
  destruct (normalize_upstream_error_parts _ _ _ _ _) as [status body]. pose proof (confined_range _ _ _ _ _ _ _ Hc).
  destruct (finalize_middleware_receipt _ _ _ _ _ _ _) as [[fin|e] st1] eqn:Ef.
  - intros [= <- _]. eapply confined_of_sent; [done|..]; cbn [cr_status cr_headers cr_body].
    + apply e2ee_headers_confined, insert_header_confined; [left; unfold own_headers; cbn; set_solver|]. apply response_headers_confined.
    + left. exists (fin_wire_body fin). rewrite status_or_bad_gateway_small by done. split; [done|]. split; [done|].
      eapply (finished_sent _ _ _ (Some "application/json")); [reflexivity|exact Ef].
  - intros Hs. pose proof (finish_error_own _ _ _ _ _ _ _ _ Ef) as Hown. unfold service_error_response in Hs.
    assert (He2 : (match e with ServiceE2ee _ => None | _ => None end) = @None E2eeRequestContext) by (by destruct e).
    rewrite He2 in Hs. injection Hs as <- _.
    assert (Hff : finishing_failed input {| cr_status := status_or_bad_gateway (forward_error_status e); cr_headers := json_headers;
      cr_body := Bytes (envelope_bytes (surface input) (error_type (surface input) (forward_error_status e)) (error_text e) (Some (ci_request_id input))) |}).
    { left. exists e. split; [done|]. split; [|done]. cbn [cr_status]. apply status_or_bad_gateway_small.
      destruct e; cbn; try lia. by destruct (Hown e). }
    split; [by eapply finishing_failed_range|]. split; [apply json_headers_confined|by right].
Qed.

(** The answer for an outcome that is an upstream's error. *)
Lemma answered_confined input candidates ka r (st : State) resp moved st' ustatus ubody up :
  answer_forwarded svc clocks clock sleep input candidates ka r st = (resp, moved, st') ->
  error_answer r = Some (ustatus, ubody, up) ->
  confined_answer input ustatus ubody up resp.
Proof.
  unfold answer_forwarded. destruct r as [[f|f|f|f]|e]; cbn [error_answer]; try done.
  - case_bool_decide as Hst; [done|]. destruct (answer_buffered _ _ _ _ _ _) as [r s] eqn:Ea. intros [= -> _ _] [= <- <- <-].
    by eapply buffered_confined.
  - pose proof (normalized_confined (surface input) (err_status (mu_error f)) (err_body (mu_error f)) (ci_received_body input)
      (Some (ci_request_id input))) as Hc. destruct (normalize_upstream_error_parts _ _ _ _ _) as [status body].
    destruct (finalize_generated _ _ _ _ _ _) as [r s] eqn:Eg. intros [= -> _ _] [= <- <- <-].
    apply generated_sent with (up := ∅) in Eg as [Hh Hd]; [|by eapply confined_range].
    by eapply confined_of_sent.
Qed.

End ErrorAnswers.

(** ** A concrete completion *)

Import DemoForward.

Module DemoCompletion.
(** The upstream of the demonstration answers the empty object. *)
#[export] Instance outside_json : Outside Sh := {|
  up_prepare := @up_prepare _ outside;
  up_forward p ev := reply {| status_code := 200; resp_body := "#0000110001"; resp_headers := {[ "X-Receipt-Id" := "forged" ]}; served_instance_id := None |};
  up_forward_stream := @up_forward_stream _ outside;
  now_secs := @Forward.now_secs _ outside;
  random_id := @random_id _ outside |}.

#[export] Instance demo_http : Http := {|
  header_name n := Some (to_ascii_lowercase n); header_value v := Some v; iterate := map_to_list; error_text _ := "error" |}.

#[export] Instance demo_http_laws : HttpLaws.
Proof. split; cbn; congruence || done. Qed.

Definition input : CompletionInput := {|
  ci_endpoint := ChatComplete; ci_endpoint_path := CHAT_COMPLETIONS_PATH; surface := Openai; params := demo_request;
  ci_received_body := "hi"; ci_requester := None; ci_e2ee := None; ci_upstream_required := true; ci_request_id := "r";
  ci_user_model := Some "m"; ci_user_tier := None; ci_stream := false |}.

Definition routes : list RouteCandidate := [{| rc_route_id := "a"; format := FmtOpenai; engine := None |}].

Abbreviation outcome := (Completion.run service (fun _ => demo_clock) demo_clock [] (map (fun c => Some c)) input routes None None RouterState_default init).
End DemoCompletion.

Import DemoCompletion.

Lemma completion_receipted_witness :
  exists shaped rid wire, build_candidates (params input) (ci_endpoint input) routes = Ok shaped
    /\ cr_headers outcome.1.1.1 !! "x-receipt-id" = Some rid
    /\ receipt_tells service input shaped wire rid init outcome.2.
Proof.
  assert (Hh : exists rid, cr_headers outcome.1.1.1 !! "x-receipt-id" = Some rid)
    by (eexists; vm_compute; reflexivity).
  assert (Hb : exists wire, cr_body outcome.1.1.1 = Bytes wire) by (eexists; vm_compute; reflexivity).
  destruct Hh as [rid Hh], Hb as [wire Hb].
  destruct (completion_receipted service (fun _ => demo_clock) demo_clock [] (map (fun c => Some c)) input routes None None RouterState_default init
    outcome.1.1.1 outcome.1.1.2 outcome.1.2 outcome.2 rid wire) as (shaped & Hs & _ & Ht); [|exact Hh|exact Hb|].
  - by rewrite <- !surjective_pairing.
  - exists shaped, rid, wire. split; [exact Hs|]. split; [exact Hh|exact Ht].
Defined.

Module DemoDenied.
(** The upstream of the demonstration refuses the gateway's key. *)
Definition outside_denied : Outside Sh := {|
  up_prepare := @up_prepare _ outside;
  up_forward p ev := reply {| status_code := 401; resp_body := "key sk-1 expired"; resp_headers := {[ "X-Receipt-Id" := "forged"; "Server" := "nginx" ]};
                              served_instance_id := None |};
  up_forward_stream := @up_forward_stream _ outside;
  now_secs := @Forward.now_secs _ outside;
  random_id := @random_id _ outside |}.

Definition shaped : list (string * Value) :=
  match build_candidates (params input) (ci_endpoint input) routes with Ok l => l | Err _ => [] end.

Abbreviation forwarded := (forward_chat_completion_for_middleware (Outside0 := outside_denied) service (chat_request input) (forward_candidates shaped) false
  (map (fun c => Some c)) journal_default init).

Abbreviation denied := (Completion.run (Outside0 := outside_denied) service (fun _ => demo_clock) demo_clock [] (map (fun c => Some c)) input routes
  None None RouterState_default init).
End DemoDenied.

