(* ===== verification/StreamedCompletion.v ===== *)
(** * Streaming completions, end to end

    The nested streams of a streaming answer composed: the provider's stream drafts
    the receipt, the adapter shapes its events, comments keep it alive, and the
    finalizer signs the receipt of what the client got. *)
From S2P Require Import Prelude StrOps Json Serde Canonical Identity Fs Revocation Receipt ReceiptStore Session SessionStore.
From S2P Require Import Upstream AciVerifier Verifiers Claims Errors E2ee E2eeFields Sse Service Forward Streaming MiddlewareForward.
From S2P Require Import Float Router RequestTransform ResponseTransform StreamTransform KeepAlive Completion.
Import Types.

(** ** The adapter reaches the end of a stream it accepts *)

Section Accepting.
Context `{SerdeJson} (clocks : nat -> WallClock).

(** No event of the text is rejected. *)
Definition accepts_text (t : StreamTransform) (fb : string) (n : nat) (state : StreamState) (text : string) : Prop :=
  let '(evs, rest) := cut (split_pattern t) text in is_Some (run_events clocks t fb (evs ++ [rest]) n state).2.

(** The rest of the stream arrives whole and is accepted. *)
Definition accepts (inner_ : list (option (result ServiceError string))) (s : SseTransformStream) : Prop :=
  (arrives inner_).2 = true
  /\ accepts_text (t_transform s) (t_fallback_id s) (events_seen s) (t_state s) (t_buffer s +:+ (arrives inner_).1).

Lemma emit_accepts ev evs s acc s' :
  emit clocks ev s = (acc, s') ->
  (run_events clocks (t_transform s) (t_fallback_id s) (ev :: evs) (events_seen s) (t_state s)).2
  = if acc then (run_events clocks (t_transform s') (t_fallback_id s') evs (events_seen s') (t_state s')).2 else None.
Proof.
  unfold emit. cbn [run_events]. destruct (String.eqb ev ""); [by intros [= <- <-]|].
  destruct (apply _ _ _ _ _) as [[[out|]|[]] st]; intros [= <- <-]; cbn; [| |done];
    by destruct (run_events clocks (t_transform s) (t_fallback_id s) evs (S (events_seen s)) st).
Qed.

Lemma accepts_step t fb n st buf text pos :
  find_sub (split_pattern t) buf = Some pos ->
  exists evs, (accepts_text t fb n st (buf +:+ text) <-> is_Some (run_events clocks t fb (str_take pos buf :: evs) n st).2)
    /\ forall n' st', accepts_text t fb n' st' (str_drop (pos + String.length (split_pattern t)) buf +:+ text)
                      <-> is_Some (run_events clocks t fb evs n' st').2.
Proof.
  intros Hf. pose proof (find_sub_length _ _ _ Hf) as Hl. unfold accepts_text.
  rewrite (cut_eq _ (buf +:+ text)) by apply split_pattern_nonempty. rewrite (find_sub_app _ _ _ _ Hf).
  rewrite str_take_app_short, str_drop_app_short by lia.
  destruct (cut (split_pattern t) (str_drop (pos + String.length (split_pattern t)) buf +:+ text)) as [evs rest].
  by exists (evs ++ [rest]).
Qed.

Lemma drain_accepts fuel s inner_ :
  (String.length (t_buffer s) < fuel)%nat -> inner_done s = false -> accepts inner_ s ->
  accepts inner_ (drain_loop clocks fuel s) /\ inner_done (drain_loop clocks fuel s) = false.
Proof.
  revert s. induction fuel as [|fuel IH]; intros s Hf Hd Ha; [lia|]. cbn [drain_loop]. rewrite find_subslice_find.
  destruct (find_sub (split_pattern (t_transform s)) (t_buffer s)) as [pos|] eqn:Ep; [|done].
  pose proof (find_sub_length _ _ _ Ep) as Hl. pose proof (split_pattern_nonempty (t_transform s)) as Hne.
  assert (0 < String.length (split_pattern (t_transform s)))%nat by (destruct (split_pattern _); [done|cbn; lia]).
  destruct Ha as [He Ha].
  destruct (accepts_step (t_transform s) (t_fallback_id s) (events_seen s) (t_state s) (t_buffer s) (arrives inner_).1 pos Ep) as (evs & H1 & H2).
  apply H1 in Ha. set (s1 := with_buffer _ s). pose proof (emit_run clocks (str_take pos (t_buffer s)) evs s1) as Hr.
  destruct (emit clocks (str_take pos (t_buffer s)) s1) as [acc s2] eqn:E. apply (emit_accepts _ evs) in E.
  change (run_events clocks (t_transform s1) (t_fallback_id s1) (str_take pos (t_buffer s) :: evs) (events_seen s1) (t_state s1))
    with (run_events clocks (t_transform s) (t_fallback_id s) (str_take pos (t_buffer s) :: evs) (events_seen s) (t_state s)) in E.
  rewrite E in Ha. destruct acc; [|by destruct Ha]. destruct Hr as (_ & Ht & Hfb & Hb & Hdone & _).
  apply IH; [rewrite Hb; subst s1; cbn; rewrite str_drop_length; lia|by rewrite Hdone|]. split; [done|].
  rewrite Hb. rewrite Ht, Hfb in Ha |- *. by apply H2.
Qed.

(** One poll of a stream that is not over: it consumes a part of the inner answers;
    if it gets to their end the stream is over, and otherwise, if all is accepted, it
    is not over and all that is left is accepted. *)
Lemma sse_poll_progress inner_ s :
  inner_done s = false ->
  let '(p, s') := sse_poll_loop clocks inner_ s in
  exists pre, inner_ = pre ++ t_inner s'
  /\ (polls_end clocks inner_ s = true -> t_inner s' = [] /\ inner_done s' = true)
  /\ (accepts inner_ s -> polls_end clocks inner_ s = false -> inner_done s' = false /\ accepts (t_inner s') s' /\ p <> Ready None).
Proof.
  revert s. induction inner_ as [|a inner_ IH]; intros s Hd; cbn [sse_poll_loop polls_end]; destruct (t_queue s) as [|b q] eqn:Eq.
  - rewrite Hd. assert (Hin : t_inner (inner_ended clocks (with_inner [] s)) = [] /\ inner_done (inner_ended clocks (with_inner [] s)) = true).
    { unfold inner_ended. destruct (String.eqb _ _); [done|]. pose proof (emit_run clocks (t_buffer (with_inner [] s)) [] (end_inner (with_inner [] s))) as Hr.
      destruct (emit _ _ _) as [acc s2]. destruct Hr as (_ & _ & _ & _ & H1 & H2). cbn [snd]. by rewrite H1, H2. }
    unfold pop. destruct (t_queue (inner_ended clocks (with_inner [] s))); exists []; cbn [t_inner with_queue inner_done]; by destruct Hin as [-> ->].
  - exists []. split; [done|]. split; [done|]. intros [He Ha] _. done.
  - rewrite Hd. destruct a as [[bytes|e]|].
    + set (s1 := with_buffer (t_buffer s +:+ bytes) s).
      assert (Hacc : accepts (Some (Ok bytes) :: inner_) s -> accepts inner_ s1).
      { intros [He Ha]. cbn [arrives] in *. destruct (arrives inner_) as [text ended] eqn:Ea. cbn in *. split; [by rewrite Ea|].
        rewrite Ea. cbn. by rewrite string_app_assoc. }
      destruct (inner_done (drain_buffer clocks s1)) eqn:Edd.
      * assert (Hno : ~ accepts (Some (Ok bytes) :: inner_) s).
        { intros Ha%Hacc. apply (drain_accepts (S (String.length (t_buffer s1)))) in Ha as [_ Hx]; [|lia|done].
          unfold drain_buffer in Edd. congruence. }
        assert (Hpe : polls_end clocks inner_ (drain_buffer clocks s1) = false).
        { destruct inner_; cbn [polls_end]; rewrite Edd; by destruct (t_queue (drain_buffer clocks s1)). }
        rewrite Hpe. destruct inner_ as [|a' inner_]; cbn [sse_poll_loop]; destruct (t_queue (drain_buffer clocks s1)); rewrite ?Edd;
          (eexists [_]; split; [reflexivity|]; split; [done|by intros Ha]).
      * specialize (IH (drain_buffer clocks s1) Edd). destruct (sse_poll_loop clocks inner_ (drain_buffer clocks s1)) as [p s'].
        destruct IH as (pre & -> & He & Ha). exists (Some (Ok bytes) :: pre). split; [done|]. split; [done|].
        intros Hacc'. apply Ha. apply (drain_accepts (S (String.length (t_buffer s1)))); [lia|done|by apply Hacc].
    + exists [Some (Err e)]. split; [done|]. split; [done|]. by intros [He _].
    + exists [None]. split; [done|]. split; [done|]. intros [He Ha] _. done.
  - exists []. split; [done|]. split; [done|]. intros [He Ha] _. done.
Qed.
End Accepting.

Section Answers.
Context `{SerdeJson} (clocks : nat -> WallClock).

Lemma poll_done inner_ s :
  inner_done s = true ->
  polls_end clocks inner_ s = false
  /\ sse_poll_loop clocks inner_ s = match t_queue s with
                                     | b :: q => (Ready (Some (Ok b)), with_queue q (with_inner inner_ s))
                                     | [] => (Ready None, with_inner inner_ s)
                                     end.
Proof. intros Hd. destruct inner_; cbn [polls_end sse_poll_loop]; rewrite Hd; by destruct (t_queue s). Qed.

Lemma all_effects_app {X} (a b : list (Answer X)) x : all_effects (a ++ b) x = all_effects b (all_effects a x).
Proof. apply fold_left_app. Qed.

(** What the answers of the adapter did in all. *)
Record Effects {X} (s : SseTransformStream) (l : list (Answer X)) (e : X -> X) (x y : X) : Prop := {
  ef_done : inner_done s = true -> y = x;
  ef_some : inner_done s = false -> (exists pre rest, l = pre ++ rest /\ y = all_effects pre x) \/ y = e (all_effects l x);
  ef_all : inner_done s = false -> accepts clocks (t_inner s) s -> y = e (all_effects l x);
}.

(** A poll of a stream that is not over, on the answers it consumes. *)
Lemma poll_effects {X} s (l : list (Answer X)) (e : X -> X) x p s' :
  inner_done s = false -> map answer l = t_inner s -> sse_poll_next clocks s = (p, s') ->
  let consumed := (length (t_inner s) - length (t_inner s'))%nat in
  let x' := all_effects (take consumed l) x in
  map answer (drop consumed l) = t_inner s'
  /\ (polls_end clocks (t_inner s) s = true -> Effects s l e x (e x') /\ inner_done s' = true)
  /\ (polls_end clocks (t_inner s) s = false ->
      (p = Ready None -> Effects s l e x x')
      /\ forall y, Effects s' (drop consumed l) e x' y -> Effects s l e x y).
Proof.
  intros Hd Hl Hp. pose proof (sse_poll_progress clocks (t_inner s) s Hd) as Hpr. unfold sse_poll_next in Hp. rewrite Hp in Hpr.
  destruct Hpr as (pre & Hpre & Hend & Hacc). cbn zeta.
  assert (Hk : (length (t_inner s) - length (t_inner s'))%nat = length pre).
  { rewrite Hpre, length_app. lia. }
  rewrite Hk. set (k := length pre). assert (Hlk : (k <= length l)%nat).
  { apply (f_equal length) in Hl. rewrite length_map, Hpre, length_app in Hl. lia. }
  split; [|split].
  - rewrite <- skipn_map. rewrite Hl, Hpre. unfold k. rewrite List.skipn_app, List.skipn_all, Nat.sub_diag. done.
  - intros He. destruct (Hend He) as [Hnil Hdone]. rewrite Hnil, app_nil_r in Hpre.
    assert (take k l = l) as ->.
    { apply take_ge. apply (f_equal length) in Hl. rewrite length_map, Hpre in Hl. unfold k. lia. }
    split; [|done]. split; [congruence|by right|done].
  - intros He. rewrite He in Hacc. split.
    + intros ->. split; [congruence|intros _; left; exists (take k l), (drop k l); by rewrite take_drop|].
      intros _ Ha. by destruct (Hacc Ha eq_refl) as (_ & _ & ?).
    + intros y [Hy1 Hy2 Hy3]. split; [congruence| |].
      * intros _. destruct (inner_done s') eqn:Ed.
        { left. exists (take k l), (drop k l). rewrite take_drop. split; [done|by apply Hy1]. }
        destruct (Hy2 eq_refl) as [(p1 & p2 & Hp12 & ->)| ->].
        { left. exists (take k l ++ p1), p2. rewrite <- app_assoc, <- Hp12, take_drop. split; [done|]. by rewrite all_effects_app. }
        right. by rewrite <- all_effects_app, take_drop.
      * intros _ Ha. destruct (Hacc Ha eq_refl) as (Ed & Ha' & _). rewrite (Hy3 Ed Ha'). by rewrite <- all_effects_app, take_drop.
Qed.

Lemma own_after_cons {X} (x : X) a l : own_after x (a :: l) = own_after (effect a x) l.
Proof. done. Qed.

Lemma shaped_answers_spec {X} fuel s (l : list (Answer X)) e x :
  clean s -> map answer l = t_inner s -> (length (future clocks (t_inner s) s) + length (t_inner s) < fuel)%nat ->
  let '(l', e') := shaped_answers clocks fuel s l e in
  chunks_of l' = future clocks (t_inner s) s /\ Forall no_error l' /\ Effects s l e x (e' (own_after x l')).
Proof.
  revert s l x. induction fuel as [|fuel IH]; intros s l x Hc Hl Hf; [lia|]. cbn [shaped_answers].
  pose proof (poll_future clocks (t_inner s) s Hc) as Hp. unfold sse_poll_next.
  destruct (sse_poll_loop clocks (t_inner s) s) as [p s'] eqn:E. destruct Hp as [Hc' Hp].
  set (consumed := (length (t_inner s) - length (t_inner s'))%nat).
  set (eff := fun x => if polls_end clocks (t_inner s) s then e (all_effects (take consumed l) x) else all_effects (take consumed l) x).
  assert (Hstep : map answer (drop consumed l) = t_inner s' /\ (p = Ready None -> Effects s l e x (eff x))
    /\ forall y, Effects s' (drop consumed l) e (eff x) y -> Effects s l e x y).
  { destruct (inner_done s) eqn:Ed.
    - destruct (poll_done (t_inner s) s Ed) as [Hpe Hq]. rewrite E in Hq.
      assert (Hs' : t_inner s' = t_inner s /\ inner_done s' = true) by (destruct (t_queue s); injection Hq as _ ->; done).
      destruct Hs' as [Hi Hd']. assert (consumed = O) as -> by (subst consumed; rewrite Hi; lia). subst eff. cbn beta. rewrite Hpe.
      cbn [take drop]. split; [by rewrite Hi|]. split; [intros _; split; [done|congruence|congruence]|].
      intros y [Hy _ _]. split; [intros _; by apply Hy|congruence|congruence].
    - destruct (poll_effects s l e x p s' Ed Hl E) as (Hm & H1 & H2). split; [exact Hm|]. subst eff. cbn beta.
      destruct (polls_end clocks (t_inner s) s).
      + destruct (H1 eq_refl) as [Hef Hd']. split; [by intros _|]. intros y [Hy _ _]. by rewrite (Hy Hd').
      + by destruct (H2 eq_refl). }
  destruct Hstep as (Hm & Hnone & Hnext). destruct p as [|[[b|er]|]].
  - destruct Hp as [Hfut Hlen]. specialize (IH s' (drop consumed l) (eff x) Hc' Hm).
    destruct (shaped_answers clocks fuel s' (drop consumed l) e) as [l' e']. destruct IH as (Hch & Hne & Hef); [rewrite Hfut; lia|].
    split; [by rewrite <- Hfut|]. split; [by constructor|]. rewrite own_after_cons. by apply Hnext.
  - destruct Hp as [Hfut Hlen]. rewrite Hfut in Hf |- *. cbn [length] in Hf. specialize (IH s' (drop consumed l) (eff x) Hc' Hm).
    destruct (shaped_answers clocks fuel s' (drop consumed l) e) as [l' e']. destruct IH as (Hch & Hne & Hef); [lia|].
    split; [unfold chunks_of in *; cbn; by rewrite Hch|]. split; [by constructor|]. rewrite own_after_cons. by apply Hnext.
  - done.
  - rewrite Hp. split; [done|]. split; [constructor|]. by apply Hnone.
Qed.
End Answers.

(** ** Enough polls *)

Section Enough.
Context `{SerdeJson} (clocks : nat -> WallClock).

Lemma cut_count fuel pat text : pat <> "" -> (length (cut_fuel fuel pat text).1 <= String.length text)%nat.
Proof.
  intros Hp. revert text. induction fuel as [|fuel IH]; intros text; cbn [cut_fuel]; [cbn; lia|].
  destruct (find_sub pat text) as [n|] eqn:En; [|cbn; lia]. apply find_sub_length in En.
  assert (String.length pat <> 0)%nat by (destruct pat; cbn; [done|lia]).
  specialize (IH (str_drop (n + String.length pat) text)). rewrite str_drop_length in IH.
  destruct (cut_fuel fuel pat _) as [evs rest]. cbn in *. lia.
Qed.

Lemma run_count t fb evs n st : (length (run_events clocks t fb evs n st).1 <= length evs)%nat.
Proof.
  revert n st. induction evs as [|ev evs IH]; intros n st; cbn [run_events]; [cbn; lia|].
  destruct (String.eqb ev ""); [specialize (IH n st); cbn; lia|]. destruct (apply t _ _ _ _) as [[o|] st']; [|cbn; lia].
  specialize (IH (S n) st'). destruct (run_events clocks t fb evs (S n) st') as [outs r]. destruct o; cbn in *; lia.
Qed.

Lemma shaped_count t fb n st text ended : (length (shaped clocks t fb n st text ended) <= String.length text + 1)%nat.
Proof.
  unfold shaped. pose proof (cut_count (S (String.length text)) (split_pattern t) text (split_pattern_nonempty t)) as Hc.
  unfold cut. destruct (cut_fuel _ _ text) as [evs rest]. cbn [fst] in Hc.
  pose proof (run_count t fb (if ended then evs ++ [rest] else evs) n st) as Hr.
  destruct ended; [rewrite length_app in Hr; cbn in Hr|]; lia.
Qed.

Lemma arrives_length {X} (l : list (Answer X)) :
  (String.length (arrives (map answer l)).1 <= String.length (concat_str (chunks_of l)))%nat.
Proof.
  induction l as [|a l IH]; [cbn; lia|]. cbn [map arrives]. unfold chunks_of in *. cbn. unfold chunk_of at 1.
  destruct (answer a) as [[c|e]|]; [|cbn; lia|exact IH]. destruct (arrives (map answer l)) as [text ended]. cbn in *.
  rewrite !string_app_length. lia.
Qed.

Lemma arrives_ok {X} (l : list (Answer X)) : Forall no_error l -> arrives (map answer l) = (concat_str (chunks_of l), true).
Proof.
  induction 1 as [|a l Ha _ IH]; [done|]. cbn [map arrives]. unfold no_error in Ha. unfold chunks_of in *. cbn. unfold chunk_of at 1.
  destruct (answer a) as [[c|e]|]; [by rewrite IH|done|done].
Qed.

Lemma polls_enough_ok {X} (l : list (Answer X)) t clock :
  let s := SseTransformStream_new (map answer l) t clock in
  clean s /\ (length (future clocks (t_inner s) s) + length (t_inner s) < polls_enough l)%nat.
Proof.
  cbn zeta. split; [intros _; by destruct t|]. unfold polls_enough.
  assert (Hf : (length (future clocks (map answer l) (SseTransformStream_new (map answer l) t clock)) <= String.length (concat_str (chunks_of l)) + 1)%nat).
  { pose proof (arrives_length l) as Ha. unfold future. cbn [t_queue inner_done SseTransformStream_new app t_buffer].
    destruct (arrives (map answer l)) as [text ended]. cbn [fst] in Ha. etransitivity; [apply shaped_count|].
    rewrite string_app_length. cbn [String.length]. lia. }
  cbn [t_inner SseTransformStream_new] in *. rewrite length_map. lia.
Qed.
End Enough.

(** ** The provider's stream *)

Section Provider.
Context `{Digest} `{SerdeJson}.

Definition set_journal (j : MiddlewareReceiptJournal) (x : MiddlewareOwn) : MiddlewareOwn :=
  {| journal := j; response_modified_by_wire := response_modified_by_wire x |}.

(** With a log to append to, the draft is published: an error is the upstream's. *)
Lemma drafting_error_upstream chunks builder j rid ep p out er p' :
  drafting_polled (DraftingStream_new chunks builder j rid ep) p out -> drafting_poll p = (Ready (Some (Err er)), p') ->
  0 < next_seq builder -> exists e, Some (Err e) ∈ chunks.
Proof.
  intros [(seen & Hi & _) _ _ (Hb & _) Hf]%drafting_runs. unfold drafting_poll. rewrite Hf.
  destruct (p_inner p) as [|[[c|e]|] rest]; [|done| |done].
  - unfold publish_draft. cbn [p_builder]. rewrite Hb. cbn zeta. unfold add_response_received_hash, append.
    cbn [set_chat_id set_upstream_verified_model_id set_events next_seq reserved_key].
    intros Hp Hseq. destruct (Z.eqb_spec (next_seq builder) 0); [lia|]. cbn [andb] in Hp. discriminate Hp.
  - intros _ _. exists e. rewrite Hi. apply elem_of_app. right. apply elem_of_cons. by left.
Qed.

Lemma provider_answers_spec chunks builder j rid ep fuel p out :
  drafting_polled (DraftingStream_new chunks builder j rid ep) p out -> (1 + length (p_inner p) < fuel)%nat ->
  let '(l, e) := provider_answers fuel p in
  Forall (fun a => forall x, effect a x = set_journal j x) l
  /\ ((Forall no_error l /\ exists p2 p3, drafting_polled (DraftingStream_new chunks builder j rid ep) p2 (out ++ chunks_of l)
         /\ drafting_poll p2 = (Ready None, p3) /\ forall x, e x = set_journal (p_journal p3) x)
      \/ (~ Forall no_error l /\ (forall x, e x = set_journal j x)
         /\ (0 < next_seq builder -> exists er, Some (Err er) ∈ chunks))).
Proof.
  revert p out. induction fuel as [|fuel IH]; intros p out Hd Hf; [lia|]. cbn [provider_answers].
  destruct (drafting_poll p) as [o p'] eqn:E. pose proof (drafting_publishes _ _ _ _ _ _ _ _ _ Hd E) as Hj.
  destruct o as [|[[c|er]|]].
  - assert (Hd' : drafting_polled (DraftingStream_new chunks builder j rid ep) p' out) by (by eapply drafting_pending).
    assert (Hlen : (1 + length (p_inner p') < fuel)%nat).
    { unfold drafting_poll in E. destruct (p_finished p); [done|]. destruct (p_inner p) as [|[[]|] rest]; try done.
      - by destruct (publish_draft _) as [[] ?].
      - injection E as <-. cbn in *. lia. }
    specialize (IH p' out Hd' Hlen). destruct (provider_answers fuel p') as [l e]. destruct IH as [Hl Hcase].
    split; [constructor; [intros x; by rewrite Hj|done]|].
    destruct Hcase as [[Hn Hx]|[Hn Hx]]; [left; split; [by constructor|exact Hx]|right; split; [|exact Hx]]. intros Hbad. by inversion Hbad.
  - assert (Hd' : drafting_polled (DraftingStream_new chunks builder j rid ep) p' (out ++ [c])) by (by eapply drafting_chunk).
    assert (Hlen : (1 + length (p_inner p') < fuel)%nat).
    { unfold drafting_poll in E. destruct (p_finished p); [done|]. destruct (p_inner p) as [|[[]|] rest]; try done.
      - by destruct (publish_draft _) as [[] ?].
      - injection E as _ <-. cbn in *. lia. }
    specialize (IH p' _ Hd' Hlen). destruct (provider_answers fuel p') as [l e]. destruct IH as [Hl Hcase].
    split; [constructor; [intros x; by rewrite Hj|done]|].
    destruct Hcase as [[Hn Hx]|[Hn Hx]]; [left; split; [by constructor|]|right; split; [|exact Hx]; intros Hbad; by inversion Hbad].
    rewrite <- app_assoc in Hx. exact Hx.
  - assert (Hfin : drafting_poll p' = (Ready None, p')).
    { unfold drafting_poll in E. destruct (p_finished p); [done|]. destruct (p_inner p) as [|[[]|] rest]; try done.
      - unfold publish_draft in E. cbn [p_builder] in E. destruct (p_builder p).
        + destruct (add_response_received_hash _ _) as [[] ?]; [done|]. injection E as _ <-. done.
        + injection E as _ <-. done.
      - injection E as _ <-. done. }
    destruct fuel as [|fuel]; [lia|]. cbn [provider_answers]. rewrite Hfin.
    split; [constructor; [intros x; by rewrite Hj|constructor]|]. right. split; [intros Hbad; by inversion Hbad|].
    split; [intros x; by rewrite Hj|]. intros Hseq. by eapply drafting_error_upstream.
  - split; [constructor|]. left. split; [constructor|]. exists p, p'. rewrite app_nil_r. done.
Qed.
End Provider.

(** ** Comments *)

Lemma kept_effects {X} interval sleep (l : list (Answer X)) x : own_after x (kept_answers interval sleep l) = own_after x l.
Proof.
  revert sleep x. induction l as [|a l IH]; intros sleep x; [done|]. cbn [kept_answers].
  destruct (answer a), interval, sleep as [|[] sleep]; rewrite !own_after_cons; cbn [effect]; apply IH.
Qed.

Lemma kept_no_error {X} interval sleep (l : list (Answer X)) : Forall no_error (kept_answers interval sleep l) -> Forall no_error l.
Proof.
  revert sleep. induction l as [|a l IH]; intros sleep; [done|]. cbn [kept_answers].
  destruct (answer a) eqn:Ea, interval, sleep as [|[] sleep]; intros Hf; inversion_clear Hf; constructor; eauto;
    unfold no_error; by rewrite Ea.
Qed.

Lemma chunks_of_cons {X} (a : Answer X) l : chunks_of (a :: l) = match chunk_of a with Some c => c :: chunks_of l | None => chunks_of l end.
Proof. done. Qed.

Lemma kept_events {X} interval sleep (l : list (Answer X)) :
  Forall at_boundary (chunks_of l) ->
  events_data (concat_str (chunks_of (kept_answers interval sleep l))) = events_data (concat_str (chunks_of l)).
Proof.
  revert sleep. induction l as [|a l IH]; intros sleep Hb; [done|]. cbn [kept_answers].
  assert (Hsame : forall sleep', events_data (concat_str (chunks_of (a :: kept_answers interval sleep' l))) = events_data (concat_str (chunks_of (a :: l)))).
  { intros sleep'. rewrite !chunks_of_cons in *. destruct (chunk_of a) as [c|]; [|by apply IH].
    inversion_clear Hb. cbn [concat_str]. rewrite !events_data_app by done. by rewrite IH. }
  assert (Hcomment : answer a = None -> forall sleep',
    events_data (concat_str (chunks_of ({| answer := Some (Ok KEEP_ALIVE_COMMENT); effect := effect a |} :: kept_answers interval sleep' l)))
    = events_data (concat_str (chunks_of (a :: l)))).
  { intros Ha sleep'. rewrite !chunks_of_cons in *. change (chunk_of {| answer := Some (Ok KEEP_ALIVE_COMMENT); effect := effect a |}) with (Some KEEP_ALIVE_COMMENT).
    assert (chunk_of a = None) as En by (unfold chunk_of; by rewrite Ha). rewrite En in Hb |- *. cbn [concat_str].
    rewrite events_data_app by (right; by exists ": PROCESSING"). by rewrite IH. }
  destruct (answer a) eqn:Ea, interval, sleep as [|[] sleep]; auto.
Qed.

(** The chunks with comments put between them. *)
Inductive commented : list string -> list string -> Prop :=
| commented_nil : commented [] []
| commented_chunk c given parts : commented given parts -> commented (c :: given) (c :: parts)
| commented_comment given parts : commented given parts -> commented given (KEEP_ALIVE_COMMENT :: parts).

Lemma kept_commented {X} interval sleep (l : list (Answer X)) : commented (chunks_of l) (chunks_of (kept_answers interval sleep l)).
Proof.
  revert sleep. induction l as [|a l IH]; intros sleep; [constructor|]. cbn [kept_answers].
  assert (Hsame : forall sleep', commented (chunks_of (a :: l)) (chunks_of (a :: kept_answers interval sleep' l))).
  { intros sleep'. rewrite !chunks_of_cons. destruct (chunk_of a); [constructor|]; apply IH. }
  assert (Hcomment : answer a = None -> forall sleep',
    commented (chunks_of (a :: l)) (chunks_of ({| answer := Some (Ok KEEP_ALIVE_COMMENT); effect := effect a |} :: kept_answers interval sleep' l))).
  { intros Ha sleep'. rewrite !chunks_of_cons. assert (chunk_of a = None) as -> by (unfold chunk_of; by rewrite Ha). constructor. apply IH. }
  destruct (answer a) eqn:Ea, interval, sleep as [|[] sleep]; auto.
Qed.

Lemma kept_silent {X} sleep (l : list (Answer X)) : chunks_of (kept_answers None sleep l) = chunks_of l.
Proof.
  revert sleep. induction l as [|a l IH]; intros sleep; [done|]. cbn [kept_answers].
  destruct (answer a); rewrite !chunks_of_cons, IH; done.
Qed.

(** ** All together *)

Section Composed.
Context `{Digest} `{SerdeJson} (clocks : nat -> WallClock) (clock : WallClock) (sleep : list bool).

Definition fallback_of (t : StreamTransform) : string := provider t +:+ "-" +:+ z_to_string (wall_millis clock).

(** No event of the provider's text is rejected. *)
Definition all_accepted (source : MiddlewareStream) (texts : list string) : Prop :=
  match bs_transform source with
  | None => True
  | Some t => accepts_text clocks t (fallback_of t) 0 StreamState_default (concat_str texts)
  end.

(** The chunks the client is given of the provider's text: as they came, or shaped. *)
Definition given_chunks (source : MiddlewareStream) (texts : list string) : list string :=
  match bs_transform source with
  | None => texts
  | Some t => shaped clocks t (fallback_of t) 0 StreamState_default (concat_str texts) true
  end.

(** What the client reads in the cleartext of its stream, given the provider's: those
    chunks with nothing but comments between them, and no comments when there is no
    keep-alive; and, where the chunks stop between events, the same events, which
    shaped chunks do but for the one adapter that passes lines on as they are. *)
Definition reads (source : MiddlewareStream) (texts : list string) (cleartext : string) : Prop :=
  let given := given_chunks source texts in
  (exists parts, commented given parts /\ concat_str parts = cleartext /\ (bs_keepalive source = None -> parts = given))
  /\ (Forall at_boundary given -> events_data cleartext = events_data (concat_str given))
  /\ (forall t, bs_transform source = Some t -> t <> AnthropicCompleteToOpenai -> Forall at_boundary given).

Lemma reads_kept {X} source texts (l : list (Answer X)) : chunks_of l = given_chunks source texts ->
  (forall t, bs_transform source = Some t -> t <> AnthropicCompleteToOpenai -> Forall at_boundary (given_chunks source texts)) ->
  reads source texts (concat_str (chunks_of (kept_answers (bs_keepalive source) sleep l))).
Proof.
  intros Hl Hb. unfold reads. cbn zeta. rewrite <- Hl in Hb |- *. split; [|split; [apply kept_events|exact Hb]].
  eexists. split; [apply kept_commented|]. split; [done|]. intros ->. apply kept_silent.
Qed.

Lemma effects_keep j (l : list (Answer MiddlewareOwn)) x :
  Forall (fun a => forall x, effect a x = set_journal j x) l -> journal x = j -> all_effects l x = x.
Proof.
  intros Hl. revert x. induction Hl as [|a l Ha _ IH]; intros x Hx; [done|].
  change (all_effects (a :: l) x) with (all_effects l (effect a x)). rewrite Ha.
  assert (set_journal j x = x) as -> by (destruct x; cbn in *; by subst). by apply IH.
Qed.

Lemma stream_answers_spec source chunks builder j rid ep x :
  bs_provider source = DraftingStream_new chunks builder j rid ep -> journal x = j ->
  Forall no_error (stream_answers clocks clock sleep source).1 ->
  let y := (stream_answers clocks clock sleep source).2 (own_after x (stream_answers clocks clock sleep source).1) in
  let cleartext := concat_str (chunks_of (stream_answers clocks clock sleep source).1) in
  (y = x /\ (0 < next_seq builder -> forall texts, omap id chunks <> map Ok texts))
  \/ exists texts p2 p3, drafting_polled (DraftingStream_new chunks builder j rid ep) p2 texts /\ drafting_poll p2 = (Ready None, p3)
       /\ (y = x \/ y = set_journal (p_journal p3) x) /\ (all_accepted source texts -> y = set_journal (p_journal p3) x)
       /\ reads source texts cleartext.
Proof.
  intros Hs Hj. unfold stream_answers. rewrite Hs.
  pose proof (provider_answers_spec chunks builder j rid ep (2 + length chunks) (DraftingStream_new chunks builder j rid ep) []
    (drafting_start _) ltac:(cbn; lia)) as Hp. cbn [p_inner DraftingStream_new app] in Hp |- *.
  destruct (provider_answers (2 + length chunks) (DraftingStream_new chunks builder j rid ep)) as [l e]. destruct Hp as [Hl Hcase].
  assert (Hpre : forall pre rest, l = pre ++ rest -> all_effects pre x = x).
  { intros pre rest ->. apply Forall_app in Hl as [Hl _]. by apply (effects_keep j). }
  assert (Hall : all_effects l x = x) by (by apply (effects_keep j)).
  destruct (bs_transform source) as [t|] eqn:Et.
  - destruct (polls_enough_ok clocks l t clock) as [Hc Hf].
    pose proof (shaped_answers_spec clocks (polls_enough l) (SseTransformStream_new (map answer l) t clock) l e x Hc eq_refl Hf) as Hsp.
    destruct (shaped_answers clocks (polls_enough l) (SseTransformStream_new (map answer l) t clock) l e) as [l' e'].
    destruct Hsp as (Hch & _ & [_ Hsome Hacc]). cbn [fst snd]. intros _. cbn zeta. rewrite kept_effects.
    specialize (Hsome eq_refl). specialize (Hacc eq_refl). rewrite Hall in Hsome, Hacc.
    destruct Hcase as [(Hne & p2 & p3 & Hp2 & Hp3 & He)|(_ & He & Herr)].
    + right. exists (chunks_of l), p2, p3. split; [done|]. split; [done|].
      assert (Harr : arrives (map answer l) = (concat_str (chunks_of l), true)) by (by apply arrives_ok). split.
      * destruct Hsome as [(pre & rest & Hpr & Hy)|Hy]; [left; rewrite Hy; by eapply Hpre|right; by rewrite Hy, He].
      * split; [unfold all_accepted; rewrite Et; intros Ha; rewrite Hacc; [by rewrite He|]; unfold accepts;
          cbn [t_inner SseTransformStream_new]; by rewrite Harr|].
        apply reads_kept.
        -- rewrite Hch. unfold future, given_chunks. cbn [t_queue inner_done SseTransformStream_new app t_buffer t_inner]. by rewrite Harr, Et.
        -- intros t' Ht' Hnot. unfold given_chunks. rewrite Et in Ht' |- *. injection Ht' as ->.
           unfold shaped. destruct (cut _ _) as [evs rest]. by apply shaped_boundary.
    + left. split; [destruct Hsome as [(pre & rest & Hpr & ->)| ->]; [by eapply Hpre|]; rewrite He; by destruct x; cbn in *; subst|].
      intros Hseq texts Htexts. destruct (Herr Hseq) as [er Hin].
      assert (Hbad : Err er ∈ omap id chunks) by (apply list_elem_of_omap; by exists (Some (Err er))).
      rewrite Htexts in Hbad. by apply list_elem_of_fmap in Hbad as (? & ? & _).
  - cbn [fst snd]. intros Hne%kept_no_error. cbn zeta. rewrite kept_effects. change (own_after x l) with (all_effects l x). rewrite Hall.
    destruct Hcase as [(_ & p2 & p3 & Hp2 & Hp3 & He)|[Hbad _]]; [|done].
    right. exists (chunks_of l), p2, p3. split; [done|]. split; [done|]. split; [right; apply He|].
    split; [intros _; apply He|]. apply reads_kept; [unfold given_chunks; by rewrite Et|by rewrite Et].
Qed.
End Composed.

Section EndToEnd.
Context `{Digest} `{Crypto} `{CurveLibs} `{SerdeJson} `{KeyProvider} `{HttpLaws}.
Context {V S Env : Type} `{SessionStoreOps S}.
Context `{UpstreamVerifier V (Shared S Env Rng)} `{!Outside (Shared S Env Rng)}.
Context (svc : AciService V) (clocks : nat -> WallClock) (clock : WallClock) (sleep : list bool).
Context (pauses : list (result UpstreamError string) -> list (option (result UpstreamError string))).

Abbreviation State := (State (S := S) (Env := Env)).

Lemma generated_bytes surf path status body e2ee (st : State) resp st' :
  finalize_generated surf path status body e2ee st = (resp, st') -> exists b, cr_body resp = Bytes b.
Proof.
  unfold finalize_generated. destruct e2ee as [ctx|]; [|intros [= <- _]; eauto].
  destruct (finalize_middleware_generated_response _ _ _ _ _) as [[f|e] st1]; intros [= <- _]; eauto.
Qed.

Lemma buffered_bytes input candidates forward (st : State) resp st' :
  answer_buffered svc clock input candidates forward st = (resp, st') -> exists b, cr_body resp = Bytes b.
Proof.
  unfold answer_buffered. destruct (shaped_answer _ _ _ _) as [[status final]|message]; [|apply generated_bytes].
  destruct (finalize_middleware_receipt _ _ _ _ _ _ _) as [[fin|e] st3]; [intros [= <- _]; eauto|apply generated_bytes].
Qed.

(** A buffered request is never answered by a stream. *)
Lemma buffered_not_stream req candidates j (st : State) f st' :
  forward_chat_completion_for_middleware svc req candidates false pauses j st <> (Ok (MStream f), st').
Proof.
  intros (c & last & failed & st0 & before & _ & _ & Ht)%for_middleware_answer; [|done]. cbn beta iota in Ht.
  unfold try_buffered in Ht. apply svc_bind_Ok in Ht as (out & st1 & _ & Hk). destruct out as [|p event resp]; [done|].
  destruct (_ && _); [done|]. apply svc_bind_Ok in Hk as (r & st2 & Hc & [= -> _]). unfold commit_buffered in Hc. cbn zeta in Hc.
  apply svc_bind_Ok in Hc as ([[rid sid] b] & st3 & _ & Hc). by apply svc_bind_Ok in Hc as (b' & st4 & _ & [= <- _]).
Qed.

(** A streaming body comes from a committed stream. *)
Lemma run_stream input candidates ka guard router (st : State) resp guard' router' st1 source fin :
  run svc clocks clock sleep pauses input candidates ka guard router st = (resp, guard', router', st1) -> cr_body resp = Stream source fin ->
  exists shaped_ forward, build_candidates (params input) (ci_endpoint input) candidates = Ok shaped_
    /\ forward_chat_completion_for_middleware svc (chat_request input) (forward_candidates shaped_) true pauses journal_default st
       = (Ok (MStream forward), st1)
    /\ answer_stream clocks clock sleep input candidates ka forward st1 = (resp, st1).
Proof.
  intros Hrun Hb. unfold run in Hrun.
  destruct (run_request svc clocks clock sleep pauses input candidates ka st) as [[r0 moved] s0] eqn:Er.
  assert (r0 = resp /\ s0 = st1) as [-> ->].
  { destruct guard as [g0|]; [|by injection Hrun as -> _ _ ->]. destruct (match moved with Some rid => _ | None => _ end) as [g1 rt].
    destruct (cr_body r0); by injection Hrun as -> _ _ ->. }
  clear Hrun. unfold run_request in Er.
  assert (Hgen : forall surf path status body e2ee (s : State) r s', finalize_generated surf path status body e2ee s = (r, s') -> r <> resp).
  { intros surf path status body e2ee s r s' (b & Hx)%generated_bytes ->. congruence. }
  destruct candidates as [|c0 cs] eqn:Ec; [destruct (generated _ _ _ _ _) as [r s] eqn:Eg; injection Er as -> _ _; by apply Hgen in Eg|].
  rewrite <- Ec in *. destruct (build_candidates (params input) (ci_endpoint input) candidates) as [shaped_|e].
  2: { destruct (generated _ _ _ _ _) as [r s] eqn:Eg. injection Er as -> _ _. by apply Hgen in Eg. }
  destruct (forward_chat_completion_for_middleware _ _ _ _ _ _ st) as [res s1] eqn:Ef. unfold answer_forwarded in Er.
  destruct res as [[forward|forward|forward|forward]|e].
  - destruct (answer_buffered _ _ _ _ _ _) as [r s] eqn:Ea. injection Er as -> _ _. apply buffered_bytes in Ea as [b Hx]. congruence.
  - exists shaped_, forward. split; [done|]. destruct (ci_stream input); [|by apply buffered_not_stream in Ef].
    destruct (answer_stream _ _ _ _ _ _ _ _) as [r s] eqn:Ea. injection Er as -> _ <-.
    assert (Hst : s = s1).
    { unfold answer_stream in Ea. destruct (stream_answers _ _ _ _). destruct (finalize_middleware_response_stream _ _ _ _ _ _ _) as [[]|];
        [by injection Ea as _ <-|]. by apply Hgen in Ea. }
    subst s. done.
  - destruct (normalize_upstream_error_parts _ _ _ _ _) as [status body].
    destruct (finalize_generated _ _ _ _ _ _) as [r s] eqn:Eg. injection Er as -> _ _. by apply Hgen in Eg.
  - destruct (service_error_response _ _ _ _ _ _) as [r s] eqn:Eg. injection Er as -> _ _. by apply Hgen in Eg.
  - destruct (service_error_response _ _ _ _ _ _) as [r s] eqn:Eg. injection Er as -> _ _. by apply Hgen in Eg.
Qed.

Lemma answer_stream_parts input candidates ka forward (st : State) resp st' source fin :
  answer_stream clocks clock sleep input candidates ka forward st = (resp, st') -> cr_body resp = Stream source fin ->
  let j := p_journal (ms_body forward) in
  bs_provider source = ms_body forward
  /\ fin = MiddlewareResponseFinalizingStream_new (stream_answers clocks clock sleep source).1 (stream_answers clocks clock sleep source).2
             j (ci_requester input) (ci_endpoint_path input) (ci_e2ee input) (match ci_e2ee input with Some _ => true | None => false end)
  /\ forall v rid, j_receipt_id j = Some rid -> cr_headers resp !! "x-receipt-id" = Some v -> v = rid.
Proof.
  unfold answer_stream. set (src := {| bs_provider := ms_body forward; bs_transform := _; bs_keepalive := _ |}).
  destruct (stream_answers clocks clock sleep src) as [answers end_] eqn:Es. unfold finalize_middleware_response_stream.
  destruct (match ci_e2ee input with Some _ => _ | None => false end).
  { unfold service_error_response. intros (b & Hx)%generated_bytes Hb. congruence. }
  intros [= <- <-]. cbn [cr_body]. intros [= <- <-]. cbn zeta. rewrite Es. cbn [fst snd]. split; [done|]. split; [done|].
  intros v rid Hrid. unfold peek_receipt_id. rewrite Hrid. cbn [cr_headers]. rewrite !lookup_insert_ne by done.
  rewrite e2ee_headers_receipt. apply (insert_header_same "x-receipt-id"). by apply upstream_headers_owned.
Qed.

(** The receipt of a stream whose provider sent [texts]. *)
Definition stream_told (input : CompletionInput) (c : ForwardCandidate) (q : PreparedUpstreamRequest) (event : UpstreamVerifiedEvent)
    (recorded : option (string * SessionClaims)) (rid : string) (source : MiddlewareStream) (texts : list string) (cleartext wire : string) (st3 : State) : Prop :=
  reads clocks clock source texts cleartext
  /\ exists chat b, rb_receipt_id b = rid
     /\ stored svc st3 (ci_requester input) chat b
          (middleware_log (chat_request input) c q event recorded (sp_model_id (observe (concat_str texts) SseChatIdParser_default)) (concat_str texts)
           ++ marked (negb (String.eqb (sha256_hex (concat_str texts)) (sha256_hex cleartext)) || match ci_e2ee input with Some _ => true | None => false end)
           ++ returned cleartext wire).

(** C5: The receipt of a streaming completion, through every layer: when the client's
    stream is read to its end, either no receipt appears, or one does under the id the
    client was given and for this requester, signed, telling of the candidate that
    served, of the hash of all bytes the provider sent, and of the hashes of the
    cleartext and of the bytes the client got; and the cleartext is the provider's
    chunks, or what they are shaped into, with nothing but keep-alive comments between
    them.  Where those chunks stop between events, as shaped ones do but for the
    adapter of Anthropic's text completions, the client reads the same events.  The
    receipt does appear when the provider's stream ended without error and none of its
    events was rejected. *)
Theorem streamed_completion_receipted input candidates ka guard router (st : State) resp guard' router' st1 source fin g out st2 g' st3 :
  (forall l, omap id (pauses l) = l) ->
  run svc clocks clock sleep pauses input candidates ka guard router st = (resp, guard', router', st1) -> cr_body resp = Stream source fin ->
  middleware_polled svc (inner fin) (at_end fin) (journal (own fin)) (f_requester (f_shared fin)) (f_endpoint_path (f_shared fin))
    (ci_e2ee input) (response_modified_by_wire (own fin)) g out ->
  middleware_poll svc g st2 = (Ready None, g', st3) ->
  exists shaped_ c q event up recorded rid cleartext,
    build_candidates (params input) (ci_endpoint input) candidates = Ok shaped_
    /\ committed up_forward_stream s_served_instance_id (chat_request input) (forward_candidates shaped_) st st1 c q event up recorded
    /\ (forall v, cr_headers resp !! "x-receipt-id" = Some v -> v = rid)
    /\ (ci_e2ee input = None -> concat_str out = cleartext)
    /\ (kept st2 st3 \/ exists texts, s_body up = map Ok texts
                         /\ stream_told input c q event recorded rid source texts cleartext (concat_str out) st3)
    /\ (forall texts, s_body up = map Ok texts -> all_accepted clocks clock source texts ->
          stream_told input c q event recorded rid source texts cleartext (concat_str out) st3).
Proof.
  intros Hpauses Hrun Hbody Hpolled Hpoll.
  destruct (run_stream _ _ _ _ _ _ _ _ _ _ _ _ Hrun Hbody) as (shaped_ & forward & Hsh & Hf & Ha).
  destruct (answer_stream_parts _ _ _ _ _ _ _ _ _ Ha Hbody) as (Hprov & -> & Hhead).
  apply stream_draft in Hf as (c & q & event & up & recorded & builder & chunks & Hcom & _ & _ & Hup & Hms & Hrid & Hseq & Hlog); [|done].
  rewrite Hms in Hprov, Hpolled, Hhead. cbn [p_journal DraftingStream_new] in Hpolled, Hhead.
  set (x0 := {| journal := reserve_receipt_id (ms_receipt_id forward) journal_default;
                response_modified_by_wire := match ci_e2ee input with Some _ => true | None => false end |}).
  pose proof (middleware_stream_receipt svc _ _ _ _ _ _ _ _ _ _ _ _ _ Hpolled Hpoll) as (Hok & Hplain & Hres).
  pose proof (stream_answers_spec clocks clock sleep source chunks builder _ _ _ x0 Hprov eq_refl Hok) as Hspec. cbn zeta in Hspec.
  cbn [inner at_end MiddlewareResponseFinalizingStream_new own journal response_modified_by_wire f_shared FinalizerShared_new f_requester f_endpoint_path] in Hok, Hplain, Hres.
  fold x0 in Hres.
  set (cleartext := concat_str (chunks_of (stream_answers clocks clock sleep source).1)) in *.
  set (y := (stream_answers clocks clock sleep source).2 (own_after x0 (stream_answers clocks clock sleep source).1)) in *.
  exists shaped_, c, q, event, up, recorded, (ms_receipt_id forward), cleartext. split; [done|]. split; [done|].
  split; [intros v; by apply Hhead|]. split; [intros He; by rewrite (Hplain He)|].
  assert (Htold : forall texts p2 p3, drafting_polled (DraftingStream_new chunks builder (reserve_receipt_id (ms_receipt_id forward) journal_default) (ms_receipt_id forward) (endpoint_path (chat_request input))) p2 texts ->
    drafting_poll p2 = (Ready None, p3) -> y = set_journal (p_journal p3) x0 -> reads clocks clock source texts cleartext ->
    stream_told input c q event recorded (ms_receipt_id forward) source texts cleartext (concat_str out) st3).
  { intros texts p2 p3 Hp2 Hp3 Hy Hreads. split; [done|].
    apply (drafting_publishes _ _ _ _ _ _ _ _ _ Hp2) in Hp3 as (_ & d & Hj & Hdraft). rewrite Hy, Hj in Hres. cbn [set_journal journal j_draft response_modified_by_wire] in Hres.
    destruct Hdraft as (_ & _ & Hph & _ & _ & Hid & _ & Hdl). eexists _, _. split; [|rewrite Hph, Hdl in Hres; cbn [set_upstream_verified_model_id set_events rb_events] in Hres;
      rewrite (set_model_log _ _ _ _ Hlog (middleware_prefix_types (chat_request input) c q)) in Hres; unfold middleware_log; rewrite <- !app_assoc in *; exact Hres].
    congruence. }
  destruct Hspec as [[Hy Hno]|(texts & p2 & p3 & Hp2 & Hp3 & Hor & Hacc & Hreads)].
  - split; [left; by rewrite Hy in Hres|]. intros texts Htexts. destruct (Hno Hseq texts). by rewrite <- Hup.
  - pose proof (drafting_publishes _ _ _ _ _ _ _ _ _ Hp2 Hp3) as [Htexts _]. split.
    + destruct Hor as [Hy|Hy]; [left; by rewrite Hy in Hres|right]. exists texts. split; [by rewrite Hup|]. by eapply Htold.
    + intros texts' Htexts' Hacc'. assert (texts' = texts) as ->.
      { rewrite Hup, Htexts in Htexts'. symmetry. revert Htexts'. apply map_inj_on. by intros ? ? _ _ [=]. }
      eapply Htold; [done|done|by apply Hacc|done].
Qed.
End EndToEnd.

(** ** A concrete stream *)

(** The client's stream of a body. *)
Definition body_stream (b : Body) : Finalizing MiddlewareOwn :=
  match b with
  | Stream _ f => f
  | Bytes _ => MiddlewareResponseFinalizingStream_new [] id journal_default None "" None false
  end.
Definition is_stream_body (b : Body) : bool :=
  match b with Stream _ _ => true | Bytes _ => false end.

Section Scenario.
Context `{Digest} `{Crypto} `{CurveLibs} `{SerdeJson} `{KeyProvider} {V S Env : Type} `{!Outside (Shared S Env Rng)} (svc : AciService V).

(** The stream of a body before it is polled, and after one poll. *)
Definition before (b : Body) : Finalizing MiddlewareOwn :=
  let f := body_stream b in
  fresh_stream (f_requester (f_shared f)) (f_endpoint_path (f_shared f)) None (inner f) (at_end f)
    {| journal := journal (own f); response_modified_by_wire := response_modified_by_wire (own f) |}.
Definition after_poll (st : State (S := S) (Env := Env)) (f : Finalizing MiddlewareOwn) : Finalizing MiddlewareOwn :=
  (middleware_poll svc f st).1.2.

(** A completion whose stream answers two chunks and ends. *)
Lemma two_chunks {G R T : Type} (o : ClientResponse * G * R * T) st c1 c2 :
  let b := cr_body o.1.1.1 in
  is_stream_body b = true ->
  (middleware_poll svc (before b) st).1.1 = Ready (Some (Ok c1)) ->
  (middleware_poll svc (after_poll st (before b)) st).1.1 = Ready (Some (Ok c2)) ->
  (middleware_poll svc (after_poll st (after_poll st (before b))) st).1.1 = Ready None ->
  exists resp x y z source fin g g' st',
    o = (resp, x, y, z) /\ cr_body resp = Stream source fin
    /\ middleware_polled svc (inner fin) (at_end fin) (journal (own fin)) (f_requester (f_shared fin)) (f_endpoint_path (f_shared fin)) None
         (response_modified_by_wire (own fin)) g [c1; c2]
    /\ middleware_poll svc g st = (Ready None, g', st').
Proof.
  destruct o as [[[resp x] y] z]. cbn [fst]. cbn zeta. destruct (cr_body resp) as [|source fin] eqn:Eb; [done|]. intros _.
  unfold before, after_poll. cbn [body_stream]. intros Hp1 Hp2 Hp3. apply triple_eta in Hp1, Hp2, Hp3.
  eexists resp, x, y, z, source, fin, _, _, _. split; [done|]. split; [done|]. split; [|exact Hp3].
  eapply (polled_chunk _ _ _ _ _ _ _ _ _ [c1]); [|exact Hp2]. eapply (polled_chunk _ _ _ _ _ _ _ _ _ []); [|exact Hp1]. constructor.
Qed.
End Scenario.

Import DemoForward DemoCompletion.

Module DemoStream.
Definition input : CompletionInput := {|
  ci_endpoint := ChatComplete; ci_endpoint_path := CHAT_COMPLETIONS_PATH; surface := Openai; params := demo_request;
  ci_received_body := "hi"; ci_requester := None; ci_e2ee := None; ci_upstream_required := true; ci_request_id := "r";
  ci_user_model := Some "m"; ci_user_tier := None; ci_stream := true |}.

(** Two chunks, then the end. *)
Lemma scenario :
  exists resp guard' router' st1 source fin g g' st3,
    Completion.run service (fun _ => demo_clock) demo_clock [] (map (fun c => Some c)) input routes None None RouterState_default init
      = (resp, guard', router', st1)
    /\ cr_body resp = Stream source fin
    /\ middleware_polled service (inner fin) (at_end fin) (journal (own fin)) (f_requester (f_shared fin)) (f_endpoint_path (f_shared fin)) None
         (response_modified_by_wire (own fin)) g ["data: {}"; "x"]
    /\ middleware_poll service g init = (Ready None, g', st3).
Proof. apply two_chunks; vm_compute; reflexivity. Qed.
End DemoStream.

Lemma streamed_completion_receipted_witness :
  exists c q event up recorded rid cleartext st3,
    concat_str ["data: {}"; "x"] = cleartext
    /\ (kept init st3
        \/ exists texts source, s_body up = map Ok texts
            /\ stream_told service (fun _ => demo_clock) demo_clock DemoStream.input c q event recorded rid source texts cleartext
                 (concat_str ["data: {}"; "x"]) st3).
Proof.
  destruct DemoStream.scenario as (resp & guard' & router' & st1 & source & fin & g & g' & st3 & Hrun & Hbody & Hpolled & Hpoll).
  destruct (streamed_completion_receipted service (fun _ => demo_clock) demo_clock [] (map (fun c => Some c)) DemoStream.input routes None None
    RouterState_default init resp guard' router' st1 source fin g ["data: {}"; "x"] init g' st3 demo_pauses_id Hrun Hbody Hpolled Hpoll)
    as (sh & c & q & event & up & recorded & rid & cleartext & _ & _ & _ & Hp & Hor & _).
  exists c, q, event, up, recorded, rid, cleartext, st3. split; [exact (Hp eq_refl)|].
  destruct Hor as [Hk|(texts & Ht & Htold)]; [left; exact Hk|right]. exists texts, source. split; [exact Ht|exact Htold].
Defined.
