(* ===== verification/OutcomeLog.v ===== *)
(** * What is logged about a completion

    Model of the logging helpers of [src/middleware/completion.rs].  The log leaves
    the trusted environment, so what matters is what a line may hold: names a
    client or an operator chose, cut and stripped of control characters, and what
    an upstream answered only when debug logging is on. *)
From S2P Require Import Prelude StrOps MiddlewareForward.

(** [char::is_control], the category Cc. *)
Definition is_control (c : N) : bool := ((c <? 0x20) || ((0x7F <=? c) && (c <=? 0x9F)))%N.

Definition MAX_LOG_DETAIL_CHARS : nat := 240.

Definition blank_controls (cs : list N) : list N := map (fun c => if is_control c then 32%N else c) cs.

Definition should_log_failure (status : Z) : bool := negb (status =? 429).

Definition sanitize_log_value (value : string) (max_chars : nat) : string :=
  of_chars (take max_chars (blank_controls (chars value))).

Definition detail_snippet_bytes (raw : string) : string :=
  let capped := String.substring 0 (Nat.min (String.length raw) (4 * MAX_LOG_DETAIL_CHARS)) raw in
  of_chars (take MAX_LOG_DETAIL_CHARS (blank_controls (chars (from_utf8_lossy capped)))).

Definition detail_snippet_text (raw : string) : string := sanitize_log_value raw MAX_LOG_DETAIL_CHARS.

(** [debug] is whether the target's debug level is enabled. *)
Definition debug_gated_detail (debug : bool) (detail : string) : string := if debug then detail else "".

Record OutcomeCtx := { oc_request_id : string; oc_model : string }.

(** A line of the target [request_outcome], less its duration. *)
Record OutcomeLine := {
  ol_request_id : string;
  ol_model : string;
  ol_route : string;
  ol_attempt : Z;
  ol_status : Z;
  ol_upstream_status : Z;
  ol_phase : string;
  ol_detail : option string;
}.

Definition log_generated_outcome (debug : bool) (ctx : OutcomeCtx) (phase : string) (status upstream_status : Z) (route : string) (attempt : Z)
    (detail : string) : list OutcomeLine :=
  if negb (should_log_failure status) then []
  else [{| ol_request_id := oc_request_id ctx; ol_model := sanitize_log_value (oc_model ctx) 128; ol_route := sanitize_log_value route 128;
           ol_attempt := attempt; ol_status := status; ol_upstream_status := upstream_status; ol_phase := phase;
           ol_detail := Some (debug_gated_detail debug detail) |}].

Fixpoint log_attempts_from (ctx : OutcomeCtx) (index : Z) (attempts : Attempts) : list OutcomeLine :=
  match attempts with
  | [] => []
  | (route, status) :: attempts =>
      (if negb (should_log_failure status) then []
       else [{| ol_request_id := oc_request_id ctx; ol_model := sanitize_log_value (oc_model ctx) 128; ol_route := sanitize_log_value route 128;
                ol_attempt := index mod 2 ^ 32; ol_status := status; ol_upstream_status := status; ol_phase := "attempt_failed";
                ol_detail := None |}])
      ++ log_attempts_from ctx (index + 1) attempts
  end.

Definition log_failed_attempts (ctx : OutcomeCtx) (attempts : Attempts) : list OutcomeLine := log_attempts_from ctx 0 attempts.

(** ** Properties *)

(** At most [n] characters, none of them a control character: a value can
    neither break the line nor forge one. *)
Definition clean (n : nat) (s : string) : Prop := (length (chars s) <= n)%nat /\ Forall (fun c => is_control c = false) (chars s).

Lemma blank_controls_clean cs : Forall is_scalar cs -> Forall is_scalar (blank_controls cs) /\ Forall (fun c => is_control c = false) (blank_controls cs).
Proof.
  induction 1 as [|c cs Hc Hcs [IHs IHc]]; [by split; constructor|]. cbn. destruct (is_control c) eqn:E; split; constructor; try done. by left.
Qed.

Lemma cut_clean n s : valid_utf8 s -> clean n (of_chars (take n (blank_controls (chars s)))).
Proof.
  intros Hs. destruct (blank_controls_clean (chars s) (chars_scalar s Hs)) as [Hsc Hcl]. unfold clean.
  rewrite chars_of_chars by (by apply Forall_take). split; [rewrite length_take; lia|by apply Forall_take].
Qed.

Lemma sanitize_clean s n : valid_utf8 s -> clean n (sanitize_log_value s n).
Proof. apply cut_clean. Qed.

Definition line_clean (debug : bool) (l : OutcomeLine) : Prop :=
  clean 128 (ol_model l) /\ clean 128 (ol_route l) /\ ol_status l <> 429 /\ (debug = false -> ol_detail l = None \/ ol_detail l = Some "").

(** A line about a failed request names the model and the route in at most 128
    characters without a control character, is not about a rate limit, and without
    debug logging carries nothing of what the upstream said. *)
Lemma outcome_line_clean debug ctx phase status upstream_status route attempt detail :
  valid_utf8 (oc_model ctx) -> valid_utf8 route ->
  Forall (line_clean debug) (log_generated_outcome debug ctx phase status upstream_status route attempt detail).
Proof.
  intros Hm Hr. unfold log_generated_outcome, should_log_failure. destruct (Z.eqb_spec status 429); cbn; constructor; [|done].
  split_and!; [by apply sanitize_clean..|done|]. intros ->. by right.
Qed.

Lemma attempt_lines_clean debug ctx index attempts : valid_utf8 (oc_model ctx) -> Forall (fun a => valid_utf8 a.1) attempts ->
  Forall (line_clean debug) (log_attempts_from ctx index attempts).
Proof.
  intros Hm Ha. revert index. induction Ha as [|[route status] attempts Hr Ha IH]; intros index; cbn; [done|].
  unfold should_log_failure. destruct (Z.eqb_spec status 429); cbn; [apply IH|]. constructor; [|apply IH].
  split_and!; [by apply sanitize_clean..|done|]. by left.
Qed.

(** Every attempt that failed for another reason than a rate limit has its line,
    under its own position. *)
Lemma attempt_lines_complete ctx index attempts : 0 <= index -> index + Z.of_nat (length attempts) < 2 ^ 32 ->
  map (fun l => (ol_attempt l, ol_status l)) (log_attempts_from ctx index attempts)
  = List.filter (fun p => should_log_failure p.2) (imap (fun i a => (index + Z.of_nat i, a.2)) attempts).
Proof.
  revert index. induction attempts as [|[route status] attempts IH]; intros index H0 H1; cbn [log_attempts_from imap]; [done|].
  cbn [length] in H1. rewrite map_app, IH by lia. cbn [List.filter snd].
  replace (imap ((fun (i : nat) (a : string * Z) => (index + Z.of_nat i, a.2)) ∘ S) attempts)
    with (imap (fun (i : nat) (a : string * Z) => (index + 1 + Z.of_nat i, a.2)) attempts)
    by (apply imap_ext; intros i a _; cbn; f_equal; lia).
  destruct (should_log_failure status); cbn; [|done]. by rewrite Z.add_0_r, Z.mod_small by lia.
Qed.
