(* ===== verification/Access.v ===== *)
(** * Who may read what over HTTP

    Model of [src/http/app/util.rs] and [error_responses.rs], the lookups of
    [src/aggregator/service/receipts.rs], and the handlers of
    [src/http/app/handlers.rs] that serve receipts and attested sessions.

    A handler asks the stores several times, each time under the store's lock and
    with its own reading of the clock; what other requests do to the store in
    between is an argument. *)
From S2P Require Import Prelude StrOps Json Serde Canonical Identity Fs Revocation Receipt ReceiptStore Session SessionStore.
From S2P Require Import AciVerifier Errors E2ee E2eeFields Service Forward Streaming MiddlewareForward Completion.

(** ** Requests and responses *)

(** The headers of a request: names in lower case, several values in order. *)
Abbreviation HeaderMap := (list (string * string)).

(** [HeaderValue::to_str]: the text of a value, if it is visible ASCII. *)
Class HeaderText : Type := to_str : string -> option string.
Definition visible (c : ascii) : bool := let n := N_of_ascii c in ((32 <=? n) && (n <? 127) || (n =? 9))%N.
Class HeaderTextLaws `{HeaderText} : Prop := {
  to_str_text v s : to_str v = Some s -> s = v;
  to_str_visible v : string_forallb visible v = true -> to_str v = Some v;
}.

(** A body: bytes, or one of the streams of the service. *)
Inductive HttpBody :=
| Text (b : string)
| MiddlewareBody (source : MiddlewareStream) (finalizer : Finalizing MiddlewareOwn)
| DirectBody (finalizer : Finalizing ReceiptOwn).

Record HttpResponse := { hr_status : Z; hr_headers : gmap string string; hr_body : HttpBody }.

Section Access.
Context `{SerdeJson} `{HeaderText}.

(** [(status, Json(v)).into_response()]: a value that cannot be printed is a 500. *)
Definition json_reply (status : Z) (v : Value) : HttpResponse :=
  match to_vec v with
  | Ok b => {| hr_status := status; hr_headers := {[ "content-type" := "application/json" ]}; hr_body := Text b |}
  | Err e => {| hr_status := 500; hr_headers := {[ "content-type" := "text/plain; charset=utf-8" ]}; hr_body := Text e |}
  end.

(** ** [util.rs] *)

Definition header_str (headers : HeaderMap) (name : string) : option string := map_get name headers ≫= to_str.

Definition extract_bearer (headers : HeaderMap) : option string :=
  value ← header_str headers "authorization";
  token ← match strip_prefix "Bearer " value with Some t => Some t | None => strip_prefix "bearer " value end;
  let token := str_trim token in
  if String.eqb token "" then None else Some token.

(** [raw.split_once(':')]'s first part, or all of it. *)
Definition before_colon (raw : string) : string := take_while (fun c => negb (Ascii.eqb c ":")) raw.

Definition host_part (raw : string) : option string :=
  match strip_prefix "[" raw with
  | Some rest =>
      let host := take_while (fun c => negb (Ascii.eqb c "]")) rest in
      if Nat.eqb (String.length host) (String.length rest) then None else Some host
  | None => Some (before_colon raw)
  end.

Definition normalize_host_domain (raw : string) : option string :=
  let raw := str_trim raw in
  if String.eqb raw "" then None
  else
    host ← host_part raw;
    let domain := to_ascii_lowercase (trim_end_dots (str_trim host)) in
    if String.eqb domain "" || str_contains "/" domain || str_contains "=" domain || str_contains "," domain
       || existsb char_is_whitespace (chars domain)
    then None else Some domain.

Definition request_host_domain (headers : HeaderMap) : option string :=
  header_str headers "host" ≫= normalize_host_domain.

Definition E2EE_HEADERS : list string :=
  ["x-signing-algo"; "x-client-pub-key"; "x-model-pub-key"; "x-e2ee-version"; "x-e2ee-nonce"; "x-e2ee-timestamp"].

Definition has_e2ee_headers (headers : HeaderMap) : bool :=
  existsb (fun n => match map_get n headers with Some _ => true | None => false end) E2EE_HEADERS.

(** ** [error_responses.rs] *)

Definition http_error (status : Z) (error_type message : string) : HttpResponse :=
  json_reply status {{ "error" ≔ {{ "message" ≔ Str message; "type" ≔ Str error_type; "code" ≔ Null; "param" ≔ Null }} }}.

Definition unsupported_e2ee_response : HttpResponse :=
  http_error 400 "e2ee_invalid_version" "ACI E2EE is not supported by this service".

Definition invalid_signing_algo_response : HttpResponse :=
  http_error 400 "invalid_signing_algo" "Invalid signing algorithm. Must be 'ed25519' or 'ecdsa'".

Definition admin_not_found_response : HttpResponse :=
  http_error 404 "not_found" "admin upstream config endpoint is not enabled".

Definition keyset_revoked_response : HttpResponse :=
  http_error 503 "keyset_revoked" "the current workload keyset has been revoked; the service is not serving it".

Section ErrorTexts.
Context `{Http}.

Definition internal_error_response (e : ServiceError) : HttpResponse := http_error 500 "internal_error" (error_text e).

Definition unknown_downstream_host_response (e : ServiceError) : HttpResponse := http_error 404 "not_found" (error_text e).

Definition UpstreamVerificationError_text (e : UpstreamVerificationError) : string :=
  match e with
  | NoVerifierResult => "upstream verification required but no verifier result supplied"
  | VerifierFailed reason => "upstream verifier reported failed: " +:+ reason
  end.

Definition upstream_verification_error_response (e : UpstreamVerificationError) : HttpResponse :=
  http_error 503 "upstream_verification_failed" (UpstreamVerificationError_text e).

Definition E2eeError_text (e : E2eeError) : string :=
  match e with
  | HeaderMissing => "missing E2EE header"
  | InvalidSigningAlgo => "invalid E2EE signing algorithm"
  | InvalidVersion => "invalid E2EE version"
  | InvalidPublicKey => "invalid E2EE public key"
  | ModelKeyMismatch => "X-Model-Pub-Key does not match this ACI service"
  | InvalidNonce => "invalid E2EE nonce"
  | ReplayDetected => "E2EE replay detected"
  | InvalidTimestamp => "invalid E2EE timestamp"
  | InvalidPayloadModel => "invalid E2EE payload model"
  | DecryptionFailed => "E2EE decryption failed"
  | EncryptionFailed => "E2EE encryption failed"
  end.

Definition e2ee_error_type (e : E2eeError) : string :=
  match e with
  | HeaderMissing => "e2ee_header_missing"
  | InvalidSigningAlgo => "e2ee_invalid_signing_algo"
  | InvalidVersion => "e2ee_invalid_version"
  | InvalidPublicKey => "e2ee_invalid_public_key"
  | ModelKeyMismatch => "e2ee_model_key_mismatch"
  | InvalidNonce => "e2ee_invalid_nonce"
  | ReplayDetected => "e2ee_replay_detected"
  | InvalidTimestamp => "e2ee_invalid_timestamp"
  | InvalidPayloadModel => "e2ee_invalid_payload_model"
  | DecryptionFailed => "e2ee_decryption_failed"
  | EncryptionFailed => "internal_error"
  end.

Definition e2ee_error_response (e : E2eeError) : HttpResponse :=
  match e with
  | EncryptionFailed => internal_error_response (ServiceE2ee e)
  | _ => http_error 400 (e2ee_error_type e) (E2eeError_text e)
  end.
End ErrorTexts.
(** ** Guards *)

(** [ReceiptOwner::from_bearer]: only the digest of a token is kept. *)
Definition from_bearer `{Digest} (token : string) : ReceiptOwner := {| auth_token_sha256 := sha256_hex token |}.

#[export] Instance ReceiptOwner_eq_dec : EqDecision ReceiptOwner.
Proof. solve_decision. Defined.

(** [None] lets the caller through. *)
Definition token_guard (headers : HeaderMap) (accepts : string -> bool) (missing refused : HttpResponse) : option HttpResponse :=
  match extract_bearer headers with
  | None => Some missing
  | Some token => if accepts token then None else Some refused
  end.

Definition owner_missing : HttpResponse :=
  http_error 401 "unauthorized" "this receipt is owned; authenticate with the original bearer token".
Definition owner_refused : HttpResponse :=
  http_error 403 "redaction_required" "the presented credential does not match the receipt owner".

Definition enforce_owner `{Digest} (headers : HeaderMap) (rid : string) (now : Z) (store : InMemoryReceiptStoreInner) :
    option HttpResponse * InMemoryReceiptStoreInner :=
  let '(recorded, store) := owner_of rid now store in
  (match recorded with
   | None => None
   | Some owner => token_guard headers (fun t => bool_decide (from_bearer t = owner)) owner_missing owner_refused
   end, store).

Definition enforce_admin (admin_token : option string) (headers : HeaderMap) : option HttpResponse :=
  match admin_token with
  | None => Some admin_not_found_response
  | Some expected =>
      token_guard headers (fun t => String.eqb t expected) (http_error 401 "unauthorized" "admin bearer token required")
        (http_error 403 "forbidden" "invalid admin bearer token")
  end.

Definition enforce_api (api_token : option string) (headers : HeaderMap) : option HttpResponse :=
  match api_token with
  | None => None
  | Some expected =>
      token_guard headers (fun t => String.eqb t expected) (http_error 401 "unauthorized" "api bearer token required")
        (http_error 403 "forbidden" "invalid api bearer token")
  end.

(** ** Receipts *)

(** What other requests do to the store meanwhile. *)
Definition meanwhile (ops : list StoreOp) (store : InMemoryReceiptStoreInner) : InMemoryReceiptStoreInner :=
  fold_left (fun s op => (run_store s op).2) ops store.

(** The three readings of the clock, and the two gaps between them. *)
Record Lookups := { at_first : Z; gap_first : list StoreOp; at_second : Z; gap_owner : list StoreOp; at_owner : Z }.

Definition or_lookup (a b : Z -> InMemoryReceiptStoreInner -> option Receipt.Receipt * InMemoryReceiptStoreInner)
    (l : Lookups) (store : InMemoryReceiptStoreInner) : option Receipt.Receipt * InMemoryReceiptStoreInner :=
  match a (at_first l) store with
  | (Some r, store) => (Some r, store)
  | (None, store) => b (at_second l) (meanwhile (gap_first l) store)
  end.

Definition owned `{Digest} (headers : HeaderMap) (not_found : string) (l : Lookups)
    (found : option Receipt.Receipt * InMemoryReceiptStoreInner) (serve : Receipt.Receipt -> HttpResponse) :
    HttpResponse * InMemoryReceiptStoreInner :=
  match found with
  | (None, store) => (http_error 404 "not_found" not_found, store)
  | (Some receipt, store) =>
      match enforce_owner headers (receipt_id receipt) (at_owner l) (meanwhile (gap_owner l) store) with
      | (Some resp, store) => (resp, store)
      | (None, store) => (serve receipt, store)
      end
  end.

Definition serve_receipt (r : Receipt.Receipt) : HttpResponse := json_reply 200 (Receipt_value r true).

Definition aci_receipt `{Digest} (headers : HeaderMap) (id : string) (l : Lookups) (store : InMemoryReceiptStoreInner) :
    HttpResponse * InMemoryReceiptStoreInner :=
  owned headers "Receipt id (receipt_id or chat_id) not found or expired" l
    (or_lookup (get_by_receipt_id id) (get_by_chat_id id) l store) serve_receipt.

Definition serve_signature `{Http} `{Digest} `{KeyProvider} `{E2eeKeys} (signing_algo : option string) (r : Receipt.Receipt) : HttpResponse :=
  match legacy_signature_for_receipt r signing_algo with
  | Ok sig =>
      json_reply 200 {{ "api_version" ≔ Str "aci/1"; "text" ≔ Str (lsr_text sig); "signature" ≔ Str (lsr_signature sig);
                        "signing_address" ≔ Str (lsr_signing_address sig); "signing_algo" ≔ Str (lsr_signing_algo sig);
                        "receipt" ≔ Receipt_value r true }}
  | Err (ServiceKey (UnsupportedAlgo _)) => invalid_signing_algo_response
  | Err other => internal_error_response other
  end.

Definition receipt_by_chat_id `{Http} `{Digest} `{KeyProvider} `{E2eeKeys} (headers : HeaderMap) (id : string) (signing_algo : option string) (l : Lookups)
    (store : InMemoryReceiptStoreInner) : HttpResponse * InMemoryReceiptStoreInner :=
  owned headers "Receipt id (chat_id or receipt_id) not found or expired" l
    (or_lookup (get_by_chat_id id) (get_by_receipt_id id) l store) (serve_signature signing_algo).
(** ** Attested sessions *)

Definition EvidenceRef_value (e : EvidenceRef) : Value :=
  Obj (opt_entry "digest" (Str <$> digest e) ++ opt_entry "data" (Str <$> data_uri e)).

Definition AttestedSession_value (s : AttestedSession) : Value :=
  Obj ([("api_version", Str (s_api_version s)); ("session_id", Str (session_id s)); ("upstream_name", Str (s_upstream_name s))]
       ++ opt_entry "endpoint" (Str <$> s_endpoint s)
       ++ [("verifier_id", Str (s_verifier_id s)); ("established_at", from_u64 (established_at s)); ("expires_at", from_u64 (s_expires_at s))]
       ++ opt_entry "identity" (WorkloadIdentityRef_value <$> identity s)
       ++ [("channel_binding", Arr (map ChannelBinding_value (channel_binding s))); ("claims", SessionClaims_value (claims s));
           ("evidence", EvidenceRef_value (s_evidence s))]).

Section Sessions.
Context {S : Type} `{SessionStoreOps S}.

Definition attested_session (id : string) (now : Z) (store : S) : HttpResponse * S :=
  match store_get_session store id now with
  | (Some session, store) => (json_reply 200 (AttestedSession_value session), store)
  | (None, store) => (http_error 404 "not_found" "Attested session not found or expired", store)
  end.

Definition without_data (s : AttestedSession) : AttestedSession :=
  {| s_api_version := s_api_version s; session_id := session_id s; s_upstream_name := s_upstream_name s; s_endpoint := s_endpoint s;
     s_verifier_id := s_verifier_id s; established_at := established_at s; s_expires_at := s_expires_at s; identity := identity s;
     channel_binding := channel_binding s; claims := claims s;
     s_evidence := {| digest := digest (s_evidence s); data_uri := None |} |}.

(** [names] are the upstreams that serve the model asked for; [seen i] is the store
    and the time of the [i]-th listing. *)
Definition listed_sessions (upstream_name : option string) (names : option (list string)) (seen : nat -> S * Z) : list AttestedSession :=
  match names with
  | Some names =>
      let wanted := List.filter (fun n => match upstream_name with None => true | Some p => String.eqb p n end) names in
      sort_sessions_newest_first (concat (imap (fun i n => store_list_sessions (seen i).1 (Some n) (seen i).2) wanted))
  | None => store_list_sessions (seen O).1 upstream_name (seen O).2
  end.

Definition aci_list_sessions (upstream_name : option string) (names : option (list string)) (seen : nat -> S * Z) : HttpResponse :=
  json_reply 200 {{ "api_version" ≔ Str "aci/1";
                    "sessions" ≔ Arr (map (fun s => AttestedSession_value (without_data s)) (listed_sessions upstream_name names seen)) }}.
End Sessions.
End Access.

(** ** Lemmas on the receipt store *)

(** An operation that does not store a receipt under [rid]. *)
Definition spares (rid : string) (op : StoreOp) : Prop :=
  match op with OpPut r _ _ _ => receipt_id r <> rid | _ => True end.

(** What a history comes to, and the time of its last operation. *)
Definition history_after (ops : list StoreOp) (h : list StoredReceipt) : list StoredReceipt :=
  fold_left (fun h op => (run_spec h op).2) ops h.

Fixpoint last_time (t : Z) (ops : list StoreOp) : Z :=
  match ops with [] => t | op :: ops => last_time (op_time op) ops end.

Lemma sim_meanwhile ops : forall t h s,
  sim t h s -> monotone t ops -> sim (last_time t ops) (history_after ops h) (meanwhile ops s).
Proof.
  induction ops as [|op ops IH]; intros t h s Hs; [done|]. intros [Ht Hm]. cbn.
  apply IH; [|done]. by eapply sim_step.
Qed.

Lemma monotone_app a : forall t b, monotone t (a ++ b) <-> monotone t a /\ monotone (last_time t a) b.
Proof. induction a as [|op a IH]; intros t b; cbn; [tauto|]. rewrite IH. tauto. Qed.

Lemma last_time_le ops : forall t, monotone t ops -> t <= last_time t ops.
Proof. induction ops as [|op ops IH]; intros t; cbn; [lia|]. intros [? Hm]. specialize (IH _ Hm). lia. Qed.

Lemma latest_spared rid ops : forall h, Forall (spares rid) ops -> latest rid (history_after ops h) = latest rid h.
Proof.
  induction ops as [|op ops IH]; intros h; [done|]. intros [Hop Hops]%Forall_cons. cbn. rewrite IH by done.
  destruct op; cbn; try done. cbn in Hop. by destruct (String.eqb_spec (receipt_id r) rid).
Qed.

(** ** The receipt a request names *)

(** What one lookup finds in the history. *)
Definition by_name (chat : bool) (id : string) (t : Z) (h : list StoredReceipt) : option StoredReceipt :=
  unexpired t (if chat then latest_chat id h else latest id h).

(** The two lookups of a handler, [chat_first] telling their order, and the history
    after them. *)
Definition named (chat_first : bool) (id : string) (l : Lookups) (h : list StoredReceipt) : option StoredReceipt * list StoredReceipt :=
  match by_name chat_first id (at_first l) h with
  | Some e => (Some e, h)
  | None => let h := history_after (gap_first l) h in (by_name (negb chat_first) id (at_second l) h, h)
  end.

(** A lookup of the store. *)
Definition store_lookup (chat : bool) (id : string) (now : Z) (s : InMemoryReceiptStoreInner) :
    option Receipt.Receipt * InMemoryReceiptStoreInner :=
  if chat then get_by_chat_id id now s else get_by_receipt_id id now s.

(** The operations of a request in time order, other requests' among them. *)
Definition lookup_op (chat : bool) (id : string) (t : Z) : StoreOp := if chat then OpChat id t else OpReceipt id t.
Definition request_ops (chat_first : bool) (id : string) (l : Lookups) : list StoreOp :=
  lookup_op chat_first id (at_first l) :: gap_first l ++ lookup_op (negb chat_first) id (at_second l)
    :: gap_owner l ++ [OpOwner id (at_owner l)].

Definition may_read `{Digest} `{HeaderText} (headers : HeaderMap) (e : StoredReceipt) : Prop :=
  match sr_owner e with
  | None => True
  | Some owner => exists token, extract_bearer headers = Some token /\ from_bearer token = owner
  end.

Lemma lookup_spec chat id now t h s :
  sim t h s -> t <= now ->
  (store_lookup chat id now s).1 = sr_receipt <$> by_name chat id now h /\ sim now h (store_lookup chat id now s).2.
Proof.
  intros Hs Ht. destruct (sim_step t h s (lookup_op chat id now) Hs) as [Hr Hs']; [by destruct chat|].
  destruct chat; cbn in Hr, Hs'; unfold store_lookup, by_name.
  - destruct (get_by_chat_id id now s). by simplify_eq/=.
  - destruct (get_by_receipt_id id now s). by simplify_eq/=.
Qed.

Lemma by_name_latest chat id t h e :
  by_name chat id t h = Some e -> latest (receipt_id (sr_receipt e)) h = Some e /\ t < expires_at e.
Proof.
  unfold by_name, unexpired. destruct (if chat then _ else _) as [e'|] eqn:E; [|done].
  destruct (Z.ltb_spec t (expires_at e')); [|done]. intros [= ->]. split; [|done].
  destruct chat; [by apply latest_chat_Some in E as [_ ?]|]. by rewrite (latest_id _ _ _ E).
Qed.

(** The lookups of a handler, against the history. *)
Lemma or_lookup_spec chat id l t h s :
  sim t h s -> monotone t (request_ops chat id l) ->
  let found := or_lookup (store_lookup chat id) (store_lookup (negb chat) id) l s in
  found.1 = sr_receipt <$> (named chat id l h).1
  /\ exists t', sim t' (named chat id l h).2 found.2 /\ monotone t' (gap_owner l ++ [OpOwner id (at_owner l)]).
Proof.
  intros Hs. unfold request_ops. cbn [monotone]. rewrite monotone_app. cbn [monotone]. intros (Ht1 & Hg1 & Ht2 & Hg2).
  assert (E1 : op_time (lookup_op chat id (at_first l)) = at_first l) by by destruct chat. rewrite E1 in *.
  assert (E2 : op_time (lookup_op (negb chat) id (at_second l)) = at_second l) by by destruct chat. rewrite E2 in *.
  pose proof (lookup_spec chat id (at_first l) t h s Hs Ht1) as [Hr1 Hs1].
  unfold or_lookup, named. destruct (store_lookup chat id (at_first l) s) as [r s1]. cbn [fst snd] in *.
  destruct (by_name chat id (at_first l) h) as [e|]; cbn in Hr1; subst r; cbn [fst snd].
  - split; [done|]. exists (at_first l). split; [done|].
    apply monotone_app in Hg2 as [Hg2 Hlast]. pose proof (last_time_le _ _ Hg1).
    destruct (gap_owner l) as [|op ops]; cbn in *; [split; [lia|done]|].
    destruct Hg2 as [? Hg2]. split; [lia|]. apply monotone_app. split; [done|]. by cbn.
  - pose proof (sim_meanwhile _ _ _ _ Hs1 Hg1) as Hs2. pose proof (lookup_spec (negb chat) id (at_second l) _ _ _ Hs2 Ht2) as [Hr2 Hs3].
    split; [done|]. by exists (at_second l).
Qed.

Lemma named_latest chat id l h e : (named chat id l h).1 = Some e -> latest (receipt_id (sr_receipt e)) (named chat id l h).2 = Some e.
Proof.
  unfold named. destruct (by_name chat id (at_first l) h) as [e'|] eqn:E; cbn; [intros [= <-]|]; intros; by eapply by_name_latest.
Qed.

Section Owners.
Context `{SerdeJson} `{HeaderText} `{Digest}.

(** The guard asks who may read, unless the receipt has expired by then. *)
Lemma enforce_owner_spec headers e now t h s :
  sim t h s -> t <= now -> latest (receipt_id (sr_receipt e)) h = Some e ->
  let refused := (enforce_owner headers (receipt_id (sr_receipt e)) now s).1 in
  (may_read headers e -> refused = None)
  /\ (now < expires_at e -> ~ may_read headers e -> refused = Some owner_missing \/ refused = Some owner_refused).
Proof.
  intros Hs Ht Hl. destruct (sim_step t h s (OpOwner (receipt_id (sr_receipt e)) now) Hs Ht) as [Hr _]. cbn in Hr.
  unfold enforce_owner. destruct (owner_of _ now s) as [o s']. cbn in Hr |- *. injection Hr as ->. rewrite Hl. unfold unexpired, may_read.
  assert (Hg : forall owner, sr_owner e = Some owner ->
    token_guard headers (fun t => bool_decide (from_bearer t = owner)) owner_missing owner_refused
    = match extract_bearer headers with
      | None => Some owner_missing
      | Some token => if bool_decide (from_bearer token = owner) then None else Some owner_refused
      end) by done.
  destruct (sr_owner e) as [owner|] eqn:Eo; split.
  - intros (token & Htok & Hown). destruct (now <? expires_at e); [|done]. rewrite Eo, Hg, Htok by done. by rewrite bool_decide_eq_true_2.
  - intros Hlt Hno. replace (now <? expires_at e) with true by (symmetry; apply Z.ltb_lt; lia). rewrite Eo, Hg by done.
    destruct (extract_bearer headers) as [token|]; [|by left]. rewrite bool_decide_eq_false_2; [by right|]. intros E. destruct Hno. eauto.
  - intros _. by destruct (now <? expires_at e); rewrite ?Eo.
  - intros _ Hno. by destruct Hno.
Qed.

(** What a handler answers that looks a receipt up and asks for its owner. *)
Definition access_answer (chat_first : bool) (headers : HeaderMap) (id not_found : string) (l : Lookups) (h : list StoredReceipt)
    (serve : Receipt.Receipt -> HttpResponse) (resp : HttpResponse) : Prop :=
  match (named chat_first id l h).1 with
  | None => resp = http_error 404 "not_found" not_found
  | Some e =>
      (may_read headers e -> resp = serve (sr_receipt e))
      /\ (at_owner l < expires_at e -> ~ may_read headers e -> resp = owner_missing \/ resp = owner_refused)
  end.

Lemma owned_spec chat headers id not_found l t h s serve :
  sim t h s -> monotone t (request_ops chat id l) ->
  (forall e, (named chat id l h).1 = Some e -> Forall (spares (receipt_id (sr_receipt e))) (gap_owner l)) ->
  access_answer chat headers id not_found l h serve
    (owned headers not_found l (or_lookup (store_lookup chat id) (store_lookup (negb chat) id) l s) serve).1.
Proof.
  intros Hs Hm Hsp. destruct (or_lookup_spec chat id l t h s Hs Hm) as (Hf & t' & Hs' & Hm'). unfold access_answer, owned.
  destruct (or_lookup _ _ l s) as [found s']. cbn [fst snd] in *. subst found.
  pose proof (named_latest chat id l h) as Hnl. destruct (named chat id l h) as [[e|] h']; cbn [fst snd fmap option_fmap option_map] in *; [|done].
  apply monotone_app in Hm' as [Hg Hlast]. pose proof (sim_meanwhile _ _ _ _ Hs' Hg) as Hs2. cbn in Hlast.
  destruct (enforce_owner_spec headers e (at_owner l) _ _ _ Hs2) as [Hyes Hno]; [lia| |].
  { rewrite latest_spared by auto. auto. }
  destruct (enforce_owner headers _ _ _) as [[resp|] s2]; cbn [fst] in *.
  - split; [intros Hr; by apply Hyes in Hr|]. intros Hlt Hn. destruct (Hno Hlt Hn) as [[= ->]|[= ->]]; auto.
  - split; [done|]. intros Hlt Hn. by destruct (Hno Hlt Hn).
Qed.

(** C10: A receipt is for the one who asked for it.  With a clock that does not run
    backwards, after any history of the store and with other requests' operations on it
    between the lookups of this one, a request for a receipt by receipt id or by chat id
    finds the latest unexpired one of that name or is told there is none; its owner, and
    anyone if it has none, is given the receipt, signed as it was stored (or the legacy
    signature over it); and as long as it has not expired anyone else is given one of two
    fixed refusals.  The one thing other requests must not do is to store another receipt
    under the same receipt id, which is random, between the lookup and the guard. *)
Theorem receipt_for_its_owner `{Http} `{KeyProvider} `{E2eeKeys} t ops chat headers id algo l :
  monotone t (ops ++ request_ops chat id l) ->
  let h := history_after ops [] in
  let store := meanwhile ops store_default in
  (forall e, (named chat id l h).1 = Some e -> Forall (spares (receipt_id (sr_receipt e))) (gap_owner l)) ->
  if chat
  then access_answer true headers id "Receipt id (chat_id or receipt_id) not found or expired" l h (serve_signature algo)
         (receipt_by_chat_id headers id algo l store).1
  else access_answer false headers id "Receipt id (receipt_id or chat_id) not found or expired" l h serve_receipt
         (aci_receipt headers id l store).1.
Proof.
  intros [Hops Hm]%monotone_app h store Hsp. pose proof (sim_meanwhile ops t [] store_default (sim_empty t) Hops) as Hs.
  destruct chat.
  - exact (owned_spec true headers id _ l _ h store (serve_signature algo) Hs Hm Hsp).
  - exact (owned_spec false headers id _ l _ h store serve_receipt Hs Hm Hsp).
Qed.
(** The guard lets everyone through when the receipt has expired between the lookup
    and the guard: the owner is looked up a second time, an expired receipt has none,
    and no owner means anyone may read. *)
Theorem expiring_receipt_unguarded t ops headers id l e :
  monotone t (ops ++ request_ops false id l) ->
  (named false id l (history_after ops [])).1 = Some e -> Forall (spares (receipt_id (sr_receipt e))) (gap_owner l) ->
  expires_at e <= at_owner l ->
  (aci_receipt headers id l (meanwhile ops store_default)).1 = serve_receipt (sr_receipt e).
Proof.
  intros [Hops Hm]%monotone_app Hn Hsp Hexp. pose proof (sim_meanwhile ops t [] store_default (sim_empty t) Hops) as Hs.
  destruct (or_lookup_spec false id l _ _ _ Hs Hm) as (Hf & t' & Hs' & Hm'). cbn in Hf, Hs'. unfold aci_receipt, owned.
  pose proof (named_latest _ _ _ _ _ Hn) as Hl. rewrite Hn in Hf. destruct (or_lookup _ _ l _) as [found s']. cbn [fst snd fmap option_fmap option_map] in *. subst found.
  apply monotone_app in Hm' as [Hg Hlast]. pose proof (sim_meanwhile _ _ _ _ Hs' Hg) as Hs2.
  destruct (sim_step _ _ _ (OpOwner (receipt_id (sr_receipt e)) (at_owner l)) Hs2) as [Hr _]; [cbn in *; lia|]. cbn in Hr.
  rewrite latest_spared, Hl in Hr by done. unfold enforce_owner. destruct (owner_of _ _ _) as [o s2]. cbn in Hr. unfold unexpired in Hr.
  replace (at_owner l <? expires_at e) with false in Hr by (symmetry; apply Z.ltb_ge; lia). by injection Hr as ->.
Qed.
End Owners.

(** ** A concrete store *)

Module DemoAccess.
Import DemoForward DemoCompletion.
#[export] Instance demo_text : HeaderText := fun v => Some v.
#[export] Instance demo_text_laws : HeaderTextLaws.
Proof. split; [by intros v s [= ->]|done]. Qed.

Definition alice : HeaderMap := [("authorization", "Bearer alice")].
Definition stored_for_alice : list StoreOp := [OpPut (demo_stored "r1" (Some "c")) (Some (from_bearer "alice")) 10 100].
(** Another request expires a receipt of its own in between. *)
Definition lookups (t : Z) : Lookups :=
  {| at_first := 20; gap_first := []; at_second := 20; gap_owner := [OpPut (demo_stored "r2" None) None 25 300]; at_owner := t |}.

Example served_to_alice : (aci_receipt alice "r1" (lookups 30) (meanwhile stored_for_alice store_default)).1 = serve_receipt (demo_stored "r1" (Some "c")).
Proof. vm_compute. reflexivity. Qed.
Example not_to_others : (aci_receipt [] "r1" (lookups 30) (meanwhile stored_for_alice store_default)).1 = owner_missing.
Proof. vm_compute. reflexivity. Qed.
Example but_when_it_expires : (aci_receipt [] "r1" (lookups 100) (meanwhile stored_for_alice store_default)).1 = serve_receipt (demo_stored "r1" (Some "c")).
Proof. vm_compute. reflexivity. Qed.

Lemma receipt_for_its_owner_witness :
  access_answer false [] "r1" "Receipt id (receipt_id or chat_id) not found or expired" (lookups 30) (history_after stored_for_alice [])
    serve_receipt (aci_receipt [] "r1" (lookups 30) (meanwhile stored_for_alice store_default)).1.
Proof.
  apply (receipt_for_its_owner 0 stored_for_alice false [] "r1" None (lookups 30)); [cbn; lia|].
  intros e [= <-]. repeat constructor. cbn. discriminate.
Defined.
End DemoAccess.
