(* ===== verification/Reports.v ===== *)
(** * Attestation reports over HTTP

    Model of the report handlers of [src/http/app/handlers.rs] and of the part of
    [src/http/app/backend.rs] that fetches GPU evidence from the upstream a model
    is served by, which may be another gateway asking a third one in turn.  The
    HTTP client is a parameter. *)
From S2P Require Import Prelude StrOps Json Serde Canonical Identity Fs Revocation Receipt ReceiptStore Session SessionStore.
From S2P Require Import Upstream UpstreamConfig AciVerifier UpstreamManager Verifiers Errors E2ee E2eeFields Service E2eeRequest Forward Completion Access.
Import Types.

(** ** A report as JSON *)

(** The derived serialisation writes the domain first. *)
Definition TlsSpki_wire (t : TlsSpki) : Value :=
  Obj (opt_entry "domain" (Str <$> domain t) ++ [("spki_sha256", Str (spki_sha256_hex t))]).

Definition WorkloadKeyset_wire (k : WorkloadKeyset) : Value :=
  {{ "workload_identity" ≔ WorkloadIdentity_value (workload_identity k);
     "keyset_epoch" ≔ KeysetEpoch_value (keyset_epoch k);
     "receipt_signing_keys" ≔ Arr (map KeyedPublicKey_value (receipt_signing_keys k));
     "e2ee_public_keys" ≔ Arr (map KeyedPublicKey_value (e2ee_public_keys k));
     "tls_public_keys" ≔ Arr (map TlsSpki_wire (tls_public_keys k)) }}.

Definition SourceProvenance_value (p : SourceProvenance) : Value :=
  {{ "repo_url" ≔ from_opt_str (repo_url p); "repo_commit" ≔ from_opt_str (repo_commit p);
     "image_digest" ≔ from_opt_str (image_digest p);
     "image_provenance" ≔ match image_provenance p with Some v => v | None => Null end }}.

Definition AttestationEnvelope_value (e : AttestationEnvelope) : Value :=
  Obj ([("vendor", Str (vendor e)); ("tee_type", Str (tee_type e)); ("workload_keyset", WorkloadKeyset_wire (workload_keyset e));
        ("report_data", Str (report_data_hex e));
        ("keyset_endorsement", {{ "algo" ≔ Str (ke_algo (keyset_endorsement e)); "value" ≔ Str (ke_value_hex (keyset_endorsement e)) }})]
       ++ opt_entry "source_provenance" (if is_unknown (source_provenance e) then None else Some (SourceProvenance_value (source_provenance e)))
       ++ [("freshness", {{ "fetched_at" ≔ from_u64 (fetched_at (freshness e)); "stale_after" ≔ from_u64 (stale_after (freshness e)) }});
           ("evidence", att_evidence e)]).

Definition AttestationReport_value (r : AttestationReport) : Value :=
  {{ "api_version" ≔ Str (AciVerifier.api_version r); "workload_id" ≔ Str (rep_workload_id r);
     "workload_keyset_digest" ≔ Str (rep_workload_keyset_digest r);
     "attestation" ≔ AttestationEnvelope_value (attestation r);
     "service_capabilities" ≔ {{ "supported_e2ee_versions" ≔ Arr (map Str (supported_e2ee_versions r)) }} }}.

(** ** GPU evidence of the upstream *)

Definition ACI_FORWARD_DEPTH_HEADER : string := "x-aci-forward-depth".
Definition MAX_ACI_FORWARD_HOPS : Z := 8.

(** [str::parse::<u32>] *)
Definition parse_u32 (s : string) : option Z :=
  z ← parse_u64 s; if z <=? 2 ^ 32 - 1 then Some z else None.

Definition inbound_aci_forward_depth `{HeaderText} (headers : HeaderMap) : Z :=
  match header_str headers ACI_FORWARD_DEPTH_HEADER ≫= parse_u32 with
  | Some v => Z.min v MAX_ACI_FORWARD_HOPS
  | None => MAX_ACI_FORWARD_HOPS
  end.

(** A GET of an URL with headers: the status and the JSON of the body, if any. *)
Definition Get : Type := string -> HeaderMap -> option (Z * option Value).

Definition nearai_nvidia_payload (body : Value) (target : AttestationUpstreamTarget) : option Value :=
  entries ← get body "model_attestations" ≫= as_array;
  entry ← List.find (fun e => bool_decide ((get e "model_name" ≫= as_str) = Some (at_upstream_model_id target))) entries;
  get entry "nvidia_payload".

Definition fetch_report_nvidia_payload (http_get : Get) (target : AttestationUpstreamTarget) (query : string) (forward_depth : option Z) :
    option Value :=
  let url := at_base_url target +:+ "/v1/attestation/report?" +:+ query in
  let headers := [("accept", "application/json")]
    ++ (match forward_depth with Some d => [(ACI_FORWARD_DEPTH_HEADER, z_to_string d)] | None => [] end)
    ++ (match at_bearer_token target with Some t => [("authorization", "Bearer " +:+ t)] | None => [] end) in
  '(status, body) ← http_get url headers;
  if (200 <=? status) && (status <? 300) then
    body ← body;
    match at_provider target with
    | NearAi => nearai_nvidia_payload body target
    | _ => get body "nvidia_payload"
    end
  else None.

Definition fetch_upstream_nvidia_payload (http_get : Get) (target : AttestationUpstreamTarget) (nonce : string) (forward_depth : Z) :
    option Value :=
  match at_provider target with
  | PhalaDirect =>
      fetch_report_nvidia_payload http_get target ("signing_algo=ecdsa&nonce=" +:+ nonce +:+ "&version=2") None
  | NearAi =>
      fetch_report_nvidia_payload http_get target
        ("signing_algo=ecdsa&nonce=" +:+ nonce +:+ "&include_tls_fingerprint=true&model=" +:+ at_upstream_model_id target) None
  | UpstreamConfig.AciService =>
      if forward_depth =? 0 then None
      else fetch_report_nvidia_payload http_get target ("model=" +:+ at_upstream_model_id target +:+ "&nonce=" +:+ nonce)
             (Some (forward_depth - 1))
  | _ => None
  end.

(** ** The handlers *)

Record AttestationQuery := { q_nonce : option string; q_signing_algo : option string; q_model : option string; q_version : option Z }.

Section Handlers.
Context `{SerdeJson} `{HeaderText} `{Http} `{Digest} `{Crypto} `{CurveLibs} `{KeyProvider} `{E2eeKeys} `{Quoter} `{Keccak}.

Definition LEGACY_ALGO_ECDSA : string := "ecdsa".
Definition LEGACY_ALGO_ED25519 : string := "ed25519".

(** [random] are the 32 bytes drawn when the client sent no nonce. *)
Definition resolve_report_nonce (random : string) (client_nonce : option string) : string :=
  match client_nonce with
  | Some n => if String.eqb n "" then hex_encode random else n
  | None => hex_encode random
  end.

Definition empty_nvidia_payload (nonce : option string) : Value :=
  Str (to_vec_or_default {{ "nonce" ≔ Str (default "" nonce); "evidence_list" ≔ Arr []; "arch" ≔ Str "HOPPER" }}).

(** The value a path of keys leads to. *)
Fixpoint get_path (v : Value) (keys : list string) : option Value :=
  match keys with [] => Some v | k :: keys => get v k ≫= fun v => get_path v keys end.

(** The E2EE keys of a report as it is written. *)
Definition report_e2ee_keys (report : Value) : option (list Value) :=
  get_path report ["attestation"; "workload_keyset"; "e2ee_public_keys"] ≫= as_array.

Definition key_of (accepts : string -> bool) (key : Value) : option string :=
  match key with
  | Obj _ =>
      algo ← get key "algo" ≫= as_str;
      public_key ← get key "public_key" ≫= as_str;
      if accepts algo then Some public_key else None
  | _ => None
  end.

Definition matches_signing_algo (signing_algo algo : string) : bool :=
  if String.eqb signing_algo LEGACY_ALGO_ECDSA then
    String.eqb algo E2EE_ALGO_LEGACY_ECDSA || String.eqb algo E2EE_ALGO_SECP256K1_AESGCM
  else if String.eqb signing_algo LEGACY_ALGO_ED25519 then String.eqb algo E2EE_ALGO_LEGACY_ED25519
  else false.

Definition signing_fields (public_key signing_algo signing_address : string) (obj : list (string * Value)) : list (string * Value) :=
  map_insert "signing_address" (Str signing_address)
    (map_insert "signing_algo" (Str signing_algo) (map_insert "signing_public_key" (Str public_key) obj)).

(** The signing key of the legacy clients, placed on the report. *)
Definition with_signing_key (report : Value) (signing_algo : string) (obj : list (string * Value)) :
    result ServiceError (list (string * Value)) :=
  match report_e2ee_keys report ≫= (fun keys => head (omap (key_of (matches_signing_algo signing_algo)) keys)) with
  | Some public_key =>
      address ← (if String.eqb signing_algo LEGACY_ALGO_ED25519 then Ok public_key
                 else map_err ServiceKey (ethereum_address_from_uncompressed_public_key public_key));
      Ok (signing_fields public_key signing_algo address obj)
  | None =>
      if negb (String.eqb signing_algo LEGACY_ALGO_ECDSA || String.eqb signing_algo LEGACY_ALGO_ED25519)
      then Err (ServiceKey (UnsupportedAlgo signing_algo))
      else
        match (keys ← report_e2ee_keys report; key ← head keys; key_of (String.eqb E2EE_ALGO_SECP256K1_AESGCM) key) with
        | Some public_key =>
            address ← map_err ServiceKey (ethereum_address_from_uncompressed_public_key public_key);
            Ok (signing_fields public_key LEGACY_ALGO_ECDSA address obj)
        | None => Ok obj
        end
  end.

Definition report_with_legacy_attestation_fields (report : AttestationReport) (signing_algo : option string) (nvidia_payload : Value) :
    result ServiceError Value :=
  let value := AttestationReport_value report in
  let signing_algo := to_ascii_lowercase (default LEGACY_ALGO_ECDSA signing_algo) in
  obj ← with_signing_key value signing_algo match value with Obj m => m | _ => [] end;
  let obj := match get_path value ["attestation"; "evidence"; "quote"] ≫= as_str with
             | Some quote => map_insert "intel_quote" (Str quote) obj
             | None => obj
             end in
  let obj := map_insert "nvidia_payload" nvidia_payload obj in
  let legacy_attestation := map_remove "all_attestations" obj in
  Ok (Obj (map_insert "all_attestations" (Arr [Obj legacy_attestation]) obj)).

Section Serving.
Context {V : Type} (svc : AciService V).

Definition aci_attestation_report (revocations : RevocationStore) (now : Z) (headers : HeaderMap) (q : AttestationQuery) : HttpResponse :=
  match attestation_report_for_domain svc revocations now (q_nonce q) (request_host_domain headers) with
  | Ok report => json_reply 200 (AttestationReport_value report)
  | Err KeysetRevoked => keyset_revoked_response
  | Err (DownstreamTlsDomainMissing as e) | Err (DownstreamTlsDomainUnknown _ as e) => unknown_downstream_host_response e
  | Err e => internal_error_response e
  end.

(** [chutes] is the report the upstream of a Chutes model gives of itself. *)
Definition legacy_attestation_handler (manager : option UpstreamConfigManager) (chutes : string -> result UpstreamError Value)
    (proxy_error : UpstreamError -> HttpResponse) (http_get : Get) (random : string) (now : Z) (headers : HeaderMap) (q : AttestationQuery) :
    HttpResponse :=
  let model := match q_model q with Some m => if String.eqb m "" then None else Some m | None => None end in
  let target := m ← model; mgr ← manager; attestation_upstream_target mgr m in
  let own :=
    let nonce := resolve_report_nonce random (q_nonce q) in
    match legacy_attestation_report_for_domain svc now (q_signing_algo q) (default 1 (q_version q)) (Some nonce) (request_host_domain headers) with
    | Ok report =>
        let nvidia_payload := default (empty_nvidia_payload (Some nonce))
          (target ≫= fun t => fetch_upstream_nvidia_payload http_get t nonce (inbound_aci_forward_depth headers)) in
        match report_with_legacy_attestation_fields report (q_signing_algo q) nvidia_payload with
        | Ok value => json_reply 200 value
        | Err e => internal_error_response e
        end
    | Err (DownstreamTlsDomainMissing as e) | Err (DownstreamTlsDomainUnknown _ as e) => unknown_downstream_host_response e
    | Err e => internal_error_response e
    end in
  match model, target with
  | Some m, Some t =>
      match at_provider t with
      | Chutes => match chutes m with Ok value => json_reply 200 value | Err e => proxy_error e end
      | _ => own
      end
  | _, _ => own
  end.
End Serving.
End Handlers.

(** ** Chains of gateways *)

Section Network.
Context `{SerdeJson} `{HeaderText} `{!HeaderTextLaws} `{Http} `{Digest} `{Crypto} `{CurveLibs} `{KeyProvider} `{E2eeKeys} `{Quoter} `{Keccak}.
Context {V : Type} (proxy_error : UpstreamError -> HttpResponse).

(** A gateway that answers report requests, and what a query asks of it. *)
Record ReportSite := {
  site_service : AciService V;
  site_manager : option UpstreamConfigManager;
  site_chutes : string -> result UpstreamError Value;
  site_random : string;
  site_now : Z;
  site_query : AttestationQuery;
}.

(** The JSON a client reads off a response. *)
Definition read_json (r : HttpResponse) : Z * option Value :=
  (hr_status r, match hr_body r with Text b => match from_slice b with Ok v => Some v | Err _ => None end | _ => None end).

(** An URL leads to a gateway, or to something else with its own answer. *)
Context (sites : string -> ReportSite + option (Z * option Value)).

Definition site_get (next : Get) : Get := fun url headers =>
  match sites url with
  | inr answer => answer
  | inl s => Some (read_json (legacy_attestation_handler (site_service s) (site_manager s) (site_chutes s) proxy_error next
                     (site_random s) (site_now s) headers (site_query s)))
  end.

(** Requests nested to a depth of [fuel]; beyond it, whatever [lost] says. *)
Fixpoint net_get (lost : Get) (fuel : nat) : Get :=
  match fuel with O => lost | S fuel => site_get (net_get lost fuel) end.

(** One request nested in another: a gateway's answer to [r] depends on the answer it
    gets to [r']. *)
Definition Request : Type := (string * HeaderMap)%type.

Definition asks (r r' : Request) : Prop :=
  exists get1 get2 : Get, (forall url headers, (url, headers) <> r' -> get1 url headers = get2 url headers)
    /\ site_get get1 r.1 r.2 <> site_get get2 r.1 r.2.

(** Providers asked without a budget are not gateways themselves. *)
Definition terminal_providers : Prop := forall s t, at_provider t = PhalaDirect \/ at_provider t = NearAi ->
  (exists url mgr m, sites url = inl s /\ site_manager s = Some mgr /\ attestation_upstream_target mgr m = Some t) ->
  forall query, exists answer, sites (at_base_url t +:+ "/v1/attestation/report?" +:+ query) = inr answer.

Lemma parse_u64_nonneg s z : parse_u64 s = Some z -> 0 <= z.
Proof.
  unfold parse_u64. set (digits := match s with String _ _ => _ | _ => _ end). destruct (String.eqb digits ""); [done|].
  destruct (string_forallb _ digits) eqn:Ed; [|done]. intros (z' & Hz & Hle)%bind_Some.
  destruct (z' <=? u64_max); [|done]. injection Hle as ->.
  destruct digits as [|a d]; [done|]. cbn in Ed. apply andb_true_iff in Ed as [Ea _].
  eapply string_to_z_nonneg; [done|]. by intros ->.
Qed.

Lemma inbound_depth_range headers : 0 <= inbound_aci_forward_depth headers <= MAX_ACI_FORWARD_HOPS.
Proof.
  unfold inbound_aci_forward_depth, MAX_ACI_FORWARD_HOPS. destruct (header_str _ _ ≫= parse_u32) as [v|] eqn:E; [|lia].
  apply bind_Some in E as (s & _ & (z & Hz & Hv)%bind_Some). destruct (z <=? _); [|done]. injection Hv as ->.
  apply parse_u64_nonneg in Hz. lia.
Qed.

(** The budget a gateway sends on is what the next one reads. *)
Lemma depth_sent d rest : 0 < d <= MAX_ACI_FORWARD_HOPS ->
  inbound_aci_forward_depth ([("accept", "application/json")] ++ [(ACI_FORWARD_DEPTH_HEADER, z_to_string (d - 1))] ++ rest) = d - 1.
Proof.
  unfold MAX_ACI_FORWARD_HOPS. intros Hd. unfold inbound_aci_forward_depth, header_str. cbn [app map_get].
  replace (String.eqb ACI_FORWARD_DEPTH_HEADER "accept") with false by done. rewrite String.eqb_refl. cbn.
  assert (Hp : to_str (z_to_string (d - 1)) = Some (z_to_string (d - 1)) /\ parse_u32 (z_to_string (d - 1)) = Some (d - 1)).
  { assert (Hk : In (d - 1) [0; 1; 2; 3; 4; 5; 6; 7]) by (cbn; lia). revert Hk. generalize (d - 1). intros k Hk.
    split; [apply to_str_visible|]; cbn in Hk; repeat destruct Hk as [<-|Hk]; try done; vm_compute; reflexivity. }
  destruct Hp as [-> Hp]. cbn. rewrite Hp. unfold MAX_ACI_FORWARD_HOPS. lia.
Qed.

(** Two clients that agree on what a gateway asks give it the same evidence. *)
Lemma fetch_agrees (get1 get2 : Get) t nonce d :
  0 <= d <= MAX_ACI_FORWARD_HOPS ->
  (at_provider t = UpstreamConfig.AciService -> 0 < d -> forall url headers, inbound_aci_forward_depth headers = d - 1 ->
     get1 url headers = get2 url headers) ->
  (at_provider t = PhalaDirect \/ at_provider t = NearAi -> forall query headers,
     get1 (at_base_url t +:+ "/v1/attestation/report?" +:+ query) headers = get2 (at_base_url t +:+ "/v1/attestation/report?" +:+ query) headers) ->
  fetch_upstream_nvidia_payload get1 t nonce d = fetch_upstream_nvidia_payload get2 t nonce d.
Proof.
  intros Hd Haci Hterm. unfold fetch_upstream_nvidia_payload.
  destruct (at_provider t) eqn:Ep; try done; unfold fetch_report_nvidia_payload; rewrite ?Ep.
  - destruct (Z.eqb_spec d 0); [done|]. rewrite Haci; [done..| |]; [lia|]. apply depth_sent. lia.
  - by rewrite Hterm by auto.
  - by rewrite Hterm by auto.
Qed.

(** What a gateway asks of an upstream: with a budget, one less; without, a provider. *)
Lemma fetch_one (get1 get2 : Get) t nonce d (r' : Request) :
  0 <= d <= MAX_ACI_FORWARD_HOPS -> (forall url headers, (url, headers) <> r' -> get1 url headers = get2 url headers) ->
  fetch_upstream_nvidia_payload get1 t nonce d <> fetch_upstream_nvidia_payload get2 t nonce d ->
  (0 < d /\ inbound_aci_forward_depth r'.2 = d - 1)
  \/ ((at_provider t = PhalaDirect \/ at_provider t = NearAi) /\ exists query, r'.1 = at_base_url t +:+ "/v1/attestation/report?" +:+ query).
Proof.
  intros Hd Hag Hne. unfold fetch_upstream_nvidia_payload in Hne.
  assert (Hone : forall u h (k : option (Z * option Value) -> option Value), k (get1 u h) <> k (get2 u h) -> (u, h) = r').
  { intros u h k Hk. destruct (decide ((u, h) = r')) as [|Hn]; [done|]. by rewrite (Hag u h Hn) in Hk. }
  destruct (at_provider t) eqn:Ep; try done.
  - destruct (Z.eqb_spec d 0); [done|]. apply (Hone _ _ (fun a => '(status, body) ← a; _)) in Hne as <-. left. split; [lia|]. apply depth_sent. lia.
  - apply (Hone _ _ (fun a => '(status, body) ← a; _)) in Hne as <-. right. split; [by auto|]. by eexists.
  - apply (Hone _ _ (fun a => '(status, body) ← a; _)) in Hne as <-. right. split; [by auto|]. by eexists.
Qed.

Lemma asks_inv r r' : asks r r' ->
  exists s, sites r.1 = inl s
  /\ ((0 < inbound_aci_forward_depth r.2 /\ inbound_aci_forward_depth r'.2 = inbound_aci_forward_depth r.2 - 1)
      \/ exists t mgr m query, (at_provider t = PhalaDirect \/ at_provider t = NearAi) /\ site_manager s = Some mgr
           /\ attestation_upstream_target mgr m = Some t /\ r'.1 = at_base_url t +:+ "/v1/attestation/report?" +:+ query).
Proof.
  intros (get1 & get2 & Hag & Hne). unfold site_get in Hne. destruct (sites r.1) as [s|answer]; [|done]. exists s. split; [done|].
  unfold legacy_attestation_handler in Hne.
  destruct (legacy_attestation_report_for_domain _ _ _ _ _ _) as [report|]; [|done].
  set (model := match q_model _ with Some _ => _ | None => _ end) in Hne.
  destruct (m ← model; mgr ← site_manager s; attestation_upstream_target mgr m) as [t|] eqn:Et; [|done]. cbn [mbind option_bind] in Hne.
  set (nonce := resolve_report_nonce _ _) in Hne.
  destruct (decide (fetch_upstream_nvidia_payload get1 t nonce (inbound_aci_forward_depth r.2)
                    = fetch_upstream_nvidia_payload get2 t nonce (inbound_aci_forward_depth r.2))) as [He|Hf]; [by rewrite He in Hne|].
  apply bind_Some in Et as (m & _ & (mgr & Hmgr & Ht)%bind_Some).
  apply (fetch_one _ _ _ _ _ r') in Hf as [Hf|[Hp [query Hq]]]; [by left| |apply inbound_depth_range|done].
  right. by exists t, mgr, m, query.
Qed.

(** A chain of nested requests is as long as the budget, and a provider. *)
Lemma chain_bounded n r r' : terminal_providers -> nsteps asks n r r' -> Z.of_nat n <= inbound_aci_forward_depth r.2 + 1.
Proof.
  intros Hterm Hn. induction Hn as [r|n r r1 r' Hask Hrest IH]; [pose proof (inbound_depth_range r.2); lia|].
  destruct (asks_inv _ _ Hask) as (s & Hs & [[Hpos Hd]|(t & mgr & m & query & Hp & Hmgr & Ht & Hq)]); [lia|].
  destruct (Hterm s t Hp) with (query := query) as [answer Ha]; [eauto 7|]. rewrite <- Hq in Ha.
  inversion Hrest as [|n' ? r2 ? Hask' _]; subst; [pose proof (inbound_depth_range r.2); lia|].
  destruct (asks_inv _ _ Hask') as (s' & Hs' & _). by rewrite Ha in Hs'.
Qed.

(** Requests deeper than the budget do not matter. *)
Lemma deeper_irrelevant (lost lost' : Get) (fuel fuel' : nat) url headers :
  terminal_providers -> (10 <= fuel)%nat -> (10 <= fuel')%nat ->
  net_get lost fuel url headers = net_get lost' fuel' url headers.
Proof.
  intros Hterm.
  assert (Hn : forall n headers, (Z.to_nat (inbound_aci_forward_depth headers) < n)%nat -> forall fuel fuel' url,
    (n < fuel)%nat -> (n < fuel')%nat -> net_get lost fuel url headers = net_get lost' fuel' url headers).
  { clear fuel fuel' url headers. induction n as [|n IH]; intros headers Hdep fuel fuel' url Hf Hf'; [lia|].
    destruct fuel as [|fuel]; [lia|]. destruct fuel' as [|fuel']; [lia|]. cbn [net_get]. unfold site_get.
    destruct (sites url) as [s|answer] eqn:Es; [|done]. do 2 f_equal. unfold legacy_attestation_handler.
    destruct (legacy_attestation_report_for_domain _ _ _ _ _ _) as [report|]; [|done].
    set (model := match q_model _ with Some _ => _ | None => _ end).
    destruct (m ← model; mgr ← site_manager s; attestation_upstream_target mgr m) as [t|] eqn:Et; [|done]. cbn [mbind option_bind].
    pose proof (inbound_depth_range headers) as Hr. unfold MAX_ACI_FORWARD_HOPS in Hr.
    rewrite (fetch_agrees (net_get lost fuel) (net_get lost' fuel') t _ _ Hr); [done|..].
    - intros _ Hpos url' headers' Hd'. apply IH; [rewrite Hd'|..]; lia.
    - intros Hp query headers'. apply bind_Some in Et as (m & _ & (mgr & Hmgr & Ht)%bind_Some).
      destruct (Hterm s t Hp) with (query := query) as [answer Ha]; [eauto 7|].
      destruct fuel as [|fuel]; [lia|]. destruct fuel' as [|fuel']; [lia|]. cbn [net_get]. unfold site_get. by rewrite Ha. }
  intros Hf Hf'. pose proof (inbound_depth_range headers) as Hr. unfold MAX_ACI_FORWARD_HOPS in Hr. apply (Hn 9%nat); lia.
Qed.

(** C29: A request for a report comes to an end: however gateways name each other as
    [aci-service] upstreams, cycles included, no chain of requests each nested in the
    one before is longer than nine, whatever headers the first came with; deeper ones,
    and anything they would answer, do not matter.  Providers that are asked without a
    hop budget ([phala-direct] and [near-ai]) are taken not to be gateways themselves:
    see [nearai_cycle_endless]. *)
Theorem nested_reports_end :
  terminal_providers ->
  (forall n r r', nsteps asks n r r' -> (n <= 9)%nat)
  /\ forall (lost lost' : Get) (fuel fuel' : nat) url headers, (10 <= fuel)%nat -> (10 <= fuel')%nat ->
       net_get lost fuel url headers = net_get lost' fuel' url headers.
Proof.
  intros Hterm. split; [|intros; by apply deeper_irrelevant].
  intros n r r' Hn. apply chain_bounded in Hn; [|done]. pose proof (inbound_depth_range r.2). unfold MAX_ACI_FORWARD_HOPS in *. lia.
Qed.
End Network.

(** ** A gateway that names itself *)

Module DemoReports.
Import DemoForward DemoCompletion DemoAccess.
#[export] Instance demo_keccak : Keccak := fun _ => zeros 32.

(** The key the legacy report is bound to. *)
#[export] Instance demo_keys : E2eeKeys := {|
  e2ee_keys := [{| key_id := "e2ee-2"; algo := E2EE_ALGO_SECP256K1_AESGCM; public_key_hex := hex_encode (zeros 64) |}];
  decrypt_e2ee key_id ct aad := Ok ct;
  decrypt_legacy_e2ee algo ct aad := Err (UnsupportedAlgo algo);
  tls_spkis := [];
  sign_legacy_message algo text := Err (UnsupportedAlgo algo);
  key_custody_evidence := Null;
  is_test_only := false |}.

Definition itself : UpstreamConfigManager :=
  demo_manager {| cu_config := [demo_upstream "self" UpstreamConfig.AciService {[ "m" := "m" ]}]; cu_config_digest := "";
                  cu_backend := None; cu_verifier := None; cu_sessions := ∅ |}.

Definition site : ReportSite (V := StaticUpstreamVerifier) := {|
  site_service := service; site_manager := Some itself; site_chutes _ := Err no_upstreams; site_random := zeros 32; site_now := 1000;
  site_query := {| q_nonce := Some "n"; q_signing_algo := None; q_model := Some "m"; q_version := None |} |}.

Definition cycle (url : string) : ReportSite (V := StaticUpstreamVerifier) + option (Z * option Value) := inl site.

Definition bad_gateway (_ : UpstreamError) : HttpResponse := http_error 502 "upstream_error" "".

Lemma cycle_terminal : terminal_providers cycle.
Proof.
  intros s t Hp (url & mgr & m & [= <-] & [= <-] & Ht). exfalso. unfold attestation_upstream_target in Ht.
  destruct (List.find _ _) as [cfg|] eqn:F; [|done]. injection Ht as <-. apply find_some in F as [[<-|[]] _]. cbn in Hp. by destruct Hp.
Qed.

Definition nothing : Get := fun _ _ => None.
Definition anything : Get := fun _ _ => Some (200, Some (Str "x")).

Lemma nested_reports_end_witness :
  (forall n r r', nsteps (asks bad_gateway cycle) n r r' -> (n <= 9)%nat)
  /\ net_get bad_gateway cycle nothing 10 "https://u/v1/attestation/report?model=m" [] = net_get bad_gateway cycle anything 20 "https://u/v1/attestation/report?model=m" [].
Proof.
  destruct (nested_reports_end bad_gateway cycle cycle_terminal) as [Hn Hd]. split; [exact Hn|]. apply Hd; lia.
Defined.

(** ** A gateway that names itself as a NEAR AI upstream *)

Definition nearai_itself : UpstreamConfigManager :=
  demo_manager {| cu_config := [demo_upstream "self" NearAi {[ "m" := "m" ]}]; cu_config_digest := "";
                  cu_backend := None; cu_verifier := None; cu_sessions := ∅ |}.

Definition nearai_site : ReportSite (V := StaticUpstreamVerifier) := {|
  site_service := service; site_manager := Some nearai_itself; site_chutes _ := Err no_upstreams; site_random := zeros 32; site_now := 1000;
  site_query := {| q_nonce := Some "n"; q_signing_algo := None; q_model := Some "m"; q_version := None |} |}.

Definition nearai_cycle (url : string) : ReportSite (V := StaticUpstreamVerifier) + option (Z * option Value) := inl nearai_site.

(** The request it makes, whatever request it serves. *)
Definition nearai_request : Request :=
  match attestation_upstream_target nearai_itself "m" with
  | Some t => (at_base_url t +:+ "/v1/attestation/report?signing_algo=ecdsa&nonce=n&include_tls_fingerprint=true&model=m",
               [("accept", "application/json")] ++ match at_bearer_token t with Some b => [("authorization", "Bearer " +:+ b)] | None => [] end)
  | None => ("", [])
  end.

Definition gpu_answer : Get := fun url headers =>
  if decide ((url, headers) = nearai_request)
  then Some (200, Some {{ "model_attestations" ≔ Arr [ {{ "model_name" ≔ Str "m"; "nvidia_payload" ≔ Str "gpu" }} ] }})
  else None.

(** The hop of a near-ai upstream carries the model and no budget, and the gateway it
    reaches starts with a full one: chains of such requests have every length. *)
Theorem nearai_cycle_endless n budget :
  nsteps (asks bad_gateway nearai_cycle) n nearai_request nearai_request
  /\ asks bad_gateway nearai_cycle ("https://u/v1/attestation/report?model=m", [(ACI_FORWARD_DEPTH_HEADER, budget)]) nearai_request.
Proof.
  assert (Hask : forall r, site_get bad_gateway nearai_cycle gpu_answer r.1 r.2 <> site_get bad_gateway nearai_cycle nothing r.1 r.2 ->
    asks bad_gateway nearai_cycle r nearai_request).
  { intros r Hr. exists gpu_answer, nothing. split; [|done]. intros url h Hne. unfold gpu_answer. by rewrite decide_False. }
  split; [|apply Hask; intros E; vm_compute in E; discriminate E].
  induction n as [|n IH]; [constructor|]. econstructor; [|exact IH]. apply Hask. intros E. vm_compute in E. discriminate E.
Qed.
End DemoReports.
