(* ===== verification/Dstack.v ===== *)
(** * The dstack key provider

    Model of [src/dstack.rs]: the keys released by the dstack KMS, what is
    published and signed with them, the custody evidence, and the quotes; and of
    [verify_receipt_signature] of [src/aci/keys.rs].  The provider is the
    instance of the interfaces [KeyProvider], [E2eeKeys] and [Quoter] the
    gateway runs with, and the laws the service assumes of them are proved of
    it.  The dstack SDK and the signature schemes are parameters. *)
From S2P Require Import Prelude StrOps Json Canonical Identity Fs Revocation Receipt AciVerifier E2ee E2eeFields Errors Service Reports.
Import Types.

Definition IDENTITY_PURPOSE : string := "aci.identity.v1".
Definition RECEIPT_PURPOSE : string := "aci.receipt.v1".
Definition RECEIPT_ED25519_PURPOSE : string := "aci.receipt.ed25519.v1".
Definition E2EE_PURPOSE : string := "aci.e2ee.v1".
Definition E2EE_X25519_PURPOSE : string := "aci.e2ee.x25519.v1".
Definition LEGACY_ED25519_PURPOSE : string := "aci.legacy.ed25519.v1".
Definition ALGO_ED25519 : string := "ed25519".
Definition ALGO_ECDSA_SECP256K1 : string := "ecdsa-secp256k1".

(** ** Libraries *)

Record GetKeyResponse := { gk_key : string; gk_signature_chain : list string }.
Record GetQuoteResponse := { gq_quote : string; gq_report_data : string; gq_vm_config : string }.

(** [dstack_sdk]: a client for an endpoint and its answers.  [event_log_text] is
    the JSON text of the event log of [info]. *)
Class DstackSdk : Type := {
  DstackClient : Type;
  DstackClient_new : option string -> DstackClient;
  get_key : DstackClient -> string -> string -> result string GetKeyResponse;
  decode_key : GetKeyResponse -> result string string;
  client_get_quote : DstackClient -> string -> result string GetQuoteResponse;
  decode_quote : GetQuoteResponse -> result string string;
  Info : Type;
  client_info : DstackClient -> result string Info;
  event_log_text : Info -> result string string;
}.

(** Signing with k256 and ed25519.  A verifying key is its compressed encoding;
    [encoded_verifying_key] is the uncompressed one. *)
Class Signers `{CurveLibs} : Type := {
  SigningKey : Type;
  signing_key_from_slice : string -> result string SigningKey;
  signing_key_to_bytes : SigningKey -> string;
  signing_key_of_secret : SecretKey -> SigningKey;
  encoded_verifying_key : SigningKey -> string;
  k256_sign : SigningKey -> string -> string;
  k256_sign_prehash_recoverable : SigningKey -> string -> result string (string * Z);
  k256_recover_prehash : string -> string -> Z -> result string string;
  ed25519_sign : string -> string -> string;
}.

(** ** Checking a receipt's signature *)

Section Verify.
Context `{Digest} `{AciVerifier.Crypto} `{CurveLibs} `{!Signers}.

Definition verify_receipt_signature (receipt_key : KeyedPublicKey) (canonical_bytes signature : string) : bool :=
  if String.eqb (algo receipt_key) ALGO_ED25519 then
    match hex_decode (public_key_hex receipt_key) with
    | Ok pub => Nat.eqb (String.length pub) 32 && Nat.eqb (String.length signature) 64
                && ed25519_verify_strict pub canonical_bytes signature
    | Err _ => false
    end
  else if String.eqb (algo receipt_key) ALGO_ECDSA_SECP256K1 then
    if negb (Nat.eqb (String.length signature) 65) then false
    else
      let v := byte_at signature 64 in
      let v := if (27 <=? v) && (v <=? 30) then v - 27 else v in
      if negb (v <=? 3) then false
      else
        match hex_decode (public_key_hex receipt_key) with
        | Err _ => false
        | Ok pub =>
            match k256_from_encoded_point pub with
            | Err _ => false
            | Ok expected_vk =>
                match k256_signature_from_slice (str_take 64 signature) with
                | Err _ => false
                | Ok _ =>
                    match k256_recover_prehash (sha256 canonical_bytes) (str_take 64 signature) v with
                    | Ok recovered_vk => String.eqb recovered_vk expected_vk
                    | Err _ => false
                    end
                end
            end
        end
  else false.
End Verify.

(** ** The provider *)

Record DstackAciProviderConfig := {
  identity_path : string;
  receipt_path : string;
  ed25519_receipt_path : string;
  e2ee_path : string;
  x25519_e2ee_path : string;
  legacy_ed25519_path : string;
  cfg_receipt_key_id : string;
  cfg_ed25519_receipt_key_id : string;
  cfg_e2ee_key_id : string;
  cfg_x25519_e2ee_key_id : string;
  cfg_legacy_ed25519_key_id : string;
}.

Definition DstackAciProviderConfig_default : DstackAciProviderConfig := {|
  identity_path := "aci/identity/v1";
  receipt_path := "aci/receipt/v1";
  ed25519_receipt_path := "aci/receipt-ed25519/v1";
  e2ee_path := "aci/e2ee/v1";
  x25519_e2ee_path := "aci/e2ee-x25519/v1";
  legacy_ed25519_path := "aci/legacy-ed25519/v1";
  cfg_receipt_key_id := "dstack-kms-receipt-v1";
  cfg_ed25519_receipt_key_id := "dstack-kms-receipt-ed25519-v1";
  cfg_e2ee_key_id := "dstack-kms-e2ee-v1";
  cfg_x25519_e2ee_key_id := "dstack-kms-e2ee-x25519-v1";
  cfg_legacy_ed25519_key_id := "dstack-kms-legacy-ed25519-v1" |}.

Record KmsKeyEvidence := {
  ev_role : string;
  ev_path : string;
  ev_purpose : string;
  ev_algo : string;
  ev_public_key_hex : string;
  ev_signature_chain : list string;
}.

Section Dstack.
Context `{Digest} `{AciVerifier.Crypto} `{CurveLibs} `{!Signers} `{DstackSdk} `{Keccak}.

Record DstackAciProvider := {
  dp_client : DstackClient;
  dp_identity : SigningKey;
  dp_receipt : SigningKey;
  dp_ed25519_receipt : string;
  dp_e2ee : SecretKey;
  dp_x25519_e2ee : string;
  dp_legacy_ed25519 : string;
  identity_evidence : KmsKeyEvidence;
  receipt_evidence : KmsKeyEvidence;
  ed25519_receipt_evidence : KmsKeyEvidence;
  e2ee_evidence : KmsKeyEvidence;
  x25519_e2ee_evidence : KmsKeyEvidence;
  legacy_ed25519_evidence : KmsKeyEvidence;
  receipt_key_id : string;
  ed25519_receipt_key_id : string;
  e2ee_key_id : string;
  x25519_e2ee_key_id : string;
  legacy_ed25519_key_id : string;
}.

Definition crypto_failed {A} (what : string) (r : result string A) : result KeyError A :=
  map_err (fun e => Revocation.Crypto (what +:+ ": " +:+ e)) r.

Definition quote_failed {A} (what : string) (r : result string A) : result KeyError A :=
  map_err (fun e => Revocation.Quote (what +:+ ": " +:+ e)) r.

Definition must_be_32 {A} (role bytes : string) : result KeyError A :=
  Err (Revocation.Crypto ("dstack KMS key for " +:+ role +:+ " must be 32 bytes, got " +:+ nat_to_string (String.length bytes))).

Definition decode_kms_key (role : string) (response : GetKeyResponse) : result KeyError string :=
  key_bytes ← crypto_failed ("invalid dstack KMS key hex for " +:+ role) (decode_key response);
  if Nat.eqb (String.length key_bytes) 32 then Ok key_bytes else must_be_32 role key_bytes.

Definition signing_key_from_kms_response (role : string) (response : GetKeyResponse) : result KeyError SigningKey :=
  key_bytes ← decode_kms_key role response;
  crypto_failed ("invalid secp256k1 KMS key for " +:+ role) (signing_key_from_slice key_bytes).

Definition k256_public_key_hex (key : SigningKey) : string := hex_encode (encoded_verifying_key key).

Definition kms_get_key (client : DstackClient) (role path purpose : string) : result KeyError GetKeyResponse :=
  crypto_failed ("dstack KMS get_key(" +:+ role +:+ ")") (get_key client path purpose).

Definition load_kms_signing_key (client : DstackClient) (role path purpose : string) :
    result KeyError (SigningKey * KmsKeyEvidence) :=
  response ← kms_get_key client role path purpose;
  key ← signing_key_from_kms_response role response;
  Ok (key, {| ev_role := role; ev_path := path; ev_purpose := purpose;
              ev_algo := if String.eqb role "e2ee" then E2EE_ALGO_SECP256K1_AESGCM else ALGO_ECDSA_SECP256K1;
              ev_public_key_hex := k256_public_key_hex key; ev_signature_chain := gk_signature_chain response |}).

Definition load_kms_raw32_key (client : DstackClient) (role path purpose : string) : result KeyError (string * list string) :=
  response ← kms_get_key client role path purpose;
  key_bytes ← decode_kms_key role response;
  Ok (key_bytes, gk_signature_chain response).

Definition load_kms_ed25519_key (client : DstackClient) (role path purpose algo : string) :
    result KeyError (string * KmsKeyEvidence) :=
  '(key, chain) ← load_kms_raw32_key client role path purpose;
  Ok (key, {| ev_role := role; ev_path := path; ev_purpose := purpose; ev_algo := algo;
              ev_public_key_hex := ed25519_public_key_hex key; ev_signature_chain := chain |}).

Definition load_kms_x25519_key (client : DstackClient) (role path purpose : string) :
    result KeyError (string * KmsKeyEvidence) :=
  '(bytes, chain) ← load_kms_raw32_key client role path purpose;
  key ← x25519_secret_key_from_bytes bytes;
  Ok (key, {| ev_role := role; ev_path := path; ev_purpose := purpose; ev_algo := E2EE_ALGO_X25519_AESGCM;
              ev_public_key_hex := x25519_public_key_hex key; ev_signature_chain := chain |}).

Definition from_client (client : DstackClient) (config : DstackAciProviderConfig) : result KeyError DstackAciProvider :=
  '(identity, identity_ev) ← load_kms_signing_key client "identity" (identity_path config) IDENTITY_PURPOSE;
  '(receipt, receipt_ev) ← load_kms_signing_key client "receipt" (receipt_path config) RECEIPT_PURPOSE;
  '(ed_receipt, ed_receipt_ev) ← load_kms_ed25519_key client "receipt-ed25519" (ed25519_receipt_path config)
                                   RECEIPT_ED25519_PURPOSE ALGO_ED25519;
  '(e2ee_signing_key, e2ee_ev) ← load_kms_signing_key client "e2ee" (e2ee_path config) E2EE_PURPOSE;
  e2ee ← secret_key_from_bytes (signing_key_to_bytes e2ee_signing_key);
  '(x25519, x25519_ev) ← load_kms_x25519_key client "e2ee-x25519" (x25519_e2ee_path config) E2EE_X25519_PURPOSE;
  '(legacy, legacy_ev) ← load_kms_ed25519_key client "legacy-ed25519" (legacy_ed25519_path config)
                           LEGACY_ED25519_PURPOSE E2EE_ALGO_LEGACY_ED25519;
  Ok {| dp_client := client; dp_identity := identity; dp_receipt := receipt; dp_ed25519_receipt := ed_receipt;
        dp_e2ee := e2ee; dp_x25519_e2ee := x25519; dp_legacy_ed25519 := legacy;
        identity_evidence := identity_ev; receipt_evidence := receipt_ev; ed25519_receipt_evidence := ed_receipt_ev;
        e2ee_evidence := e2ee_ev; x25519_e2ee_evidence := x25519_ev; legacy_ed25519_evidence := legacy_ev;
        receipt_key_id := cfg_receipt_key_id config; ed25519_receipt_key_id := cfg_ed25519_receipt_key_id config;
        e2ee_key_id := cfg_e2ee_key_id config; x25519_e2ee_key_id := cfg_x25519_e2ee_key_id config;
        legacy_ed25519_key_id := cfg_legacy_ed25519_key_id config |}.

Definition normalize_dstack_endpoint (endpoint : option string) : result KeyError (option string) :=
  match endpoint with
  | None => Ok None
  | Some endpoint =>
      let endpoint := str_trim endpoint in
      if String.eqb endpoint "" then Err (Revocation.Quote "dstack endpoint is empty")
      else
        let normalized := match strip_prefix "unix://" endpoint with
                          | Some rest => rest
                          | None => default endpoint (strip_prefix "unix:" endpoint)
                          end in
        if String.eqb normalized "" then Err (Revocation.Quote "dstack endpoint is empty") else Ok (Some normalized)
  end.

Definition DstackAciProvider_new (endpoint : option string) (config : DstackAciProviderConfig) : result KeyError DstackAciProvider :=
  endpoint ← normalize_dstack_endpoint endpoint;
  from_client (DstackClient_new endpoint) config.

(** ** Quotes *)

(** 64 bytes: the digest and zeros. *)
Definition dstack_report_data (aci_report_data : string) : string := aci_report_data +:+ zeros 32.

Definition decode_hex_field (field value : string) : result KeyError string :=
  quote_failed ("invalid hex in " +:+ field) (hex_decode (strip_0x value)).

Definition quote_with_report_data (p : DstackAciProvider) (report_data : string) : result KeyError Quote :=
  response ← quote_failed "dstack get_quote" (client_get_quote (dp_client p) report_data);
  raw ← quote_failed "invalid dstack quote hex" (decode_quote response);
  returned ← decode_hex_field "dstack report_data" (gq_report_data response);
  if negb (String.eqb returned report_data) then
    Err (Revocation.Quote ("dstack quote report_data mismatch: expected " +:+ hex_encode report_data +:+ ", got "
                             +:+ hex_encode returned))
  else
    info ← quote_failed "dstack info" (client_info (dp_client p));
    event_log ← quote_failed "serialize dstack event log" (event_log_text info);
    Ok {| raw_quote := raw; q_report_data := returned; q_event_log := Str event_log; vm_config := Str (gq_vm_config response) |}.

Definition dstack_quoter (p : DstackAciProvider) : Quoter := {|
  get_quote report_data := quote_with_report_data p (dstack_report_data report_data);
  get_quote_raw report_data := quote_with_report_data p report_data |}.

(** ** Signing *)

Definition identity_key (p : DstackAciProvider) : PublicKeyMaterial :=
  {| pk_algo := ALGO_ECDSA_SECP256K1; pk_public_key_hex := k256_public_key_hex (dp_identity p) |}.

Definition dstack_receipt_keys (p : DstackAciProvider) : list KeyedPublicKey :=
  [{| key_id := ed25519_receipt_key_id p; algo := ALGO_ED25519; public_key_hex := ed25519_public_key_hex (dp_ed25519_receipt p) |};
   {| key_id := receipt_key_id p; algo := ALGO_ECDSA_SECP256K1; public_key_hex := k256_public_key_hex (dp_receipt p) |}].

Definition recoverable (what : string) (key : SigningKey) (prehash : string) (offset : Z) : result KeyError string :=
  '(sig, recid) ← crypto_failed what (k256_sign_prehash_recoverable key prehash);
  Ok (sig +:+ String (byte (Z.to_N (recid + offset))) "").

Definition dstack_sign_receipt (p : DstackAciProvider) (kid canonical_bytes : string) : result KeyError string :=
  if String.eqb kid (ed25519_receipt_key_id p) then Ok (ed25519_sign (dp_ed25519_receipt p) canonical_bytes)
  else if negb (String.eqb kid (receipt_key_id p)) then Err (UnknownReceiptKeyId kid)
  else recoverable "k256 sign_prehash" (dp_receipt p) (sha256 canonical_bytes) 0.

Definition dstack_keys (p : DstackAciProvider) : KeyProvider := {|
  identity_public_key := identity_key p;
  sign_keyset_endorsement payload := Ok (k256_sign (dp_identity p) payload);
  sign_keyset_revocation payload := Ok (k256_sign (dp_identity p) payload);
  receipt_keys := dstack_receipt_keys p;
  sign_receipt := dstack_sign_receipt p |}.

Definition dstack_e2ee_keys (p : DstackAciProvider) : list KeyedPublicKey :=
  [{| key_id := e2ee_key_id p; algo := E2EE_ALGO_SECP256K1_AESGCM; public_key_hex := public_key_from_secret (dp_e2ee p) |};
   {| key_id := x25519_e2ee_key_id p; algo := E2EE_ALGO_X25519_AESGCM; public_key_hex := x25519_public_key_hex (dp_x25519_e2ee p) |};
   {| key_id := e2ee_key_id p +:+ "-legacy-ecdsa"; algo := E2EE_ALGO_LEGACY_ECDSA;
      public_key_hex := legacy_ecdsa_public_key_from_secret (dp_e2ee p) |};
   {| key_id := legacy_ed25519_key_id p; algo := E2EE_ALGO_LEGACY_ED25519;
      public_key_hex := ed25519_public_key_hex (dp_legacy_ed25519 p) |}].

Definition dstack_decrypt_e2ee (p : DstackAciProvider) (kid ciphertext_hex aad : string) : result KeyError string :=
  if String.eqb kid (e2ee_key_id p) then decrypt_with_secret_key (dp_e2ee p) ciphertext_hex aad
  else if String.eqb kid (x25519_e2ee_key_id p) then decrypt_x25519_with_secret_key (dp_x25519_e2ee p) ciphertext_hex aad
  else Err (UnknownE2eeKeyId kid).

Definition dstack_decrypt_legacy_e2ee (p : DstackAciProvider) (signing_algo ciphertext_hex : string) (aad : option string) :
    result KeyError string :=
  if String.eqb signing_algo E2EE_ALGO_LEGACY_ECDSA then decrypt_legacy_ecdsa_with_secret_key (dp_e2ee p) ciphertext_hex aad
  else if String.eqb signing_algo E2EE_ALGO_LEGACY_ED25519 then
    decrypt_legacy_ed25519_with_secret_key (dp_legacy_ed25519 p) ciphertext_hex aad
  else Err (UnsupportedAlgo signing_algo).

(** EIP-191 *)
Definition ethereum_personal_message_hash (text : string) : string :=
  keccak256 (String (byte 25) ("Ethereum Signed Message:" +:+ String (byte 10) "") +:+ nat_to_string (String.length text) +:+ text).

Definition dstack_sign_legacy_message (p : DstackAciProvider) (signing_algo text : string) : result KeyError LegacySignature :=
  if String.eqb signing_algo LEGACY_ALGO_ECDSA then
    out ← recoverable "k256 legacy sign_prehash" (signing_key_of_secret (dp_e2ee p)) (ethereum_personal_message_hash text) 27;
    address ← ethereum_address_from_uncompressed_public_key (public_key_from_secret (dp_e2ee p));
    Ok {| ls_signing_algo := LEGACY_ALGO_ECDSA; ls_signing_address := address; ls_signature := "0x" +:+ hex_encode out |}
  else if String.eqb signing_algo LEGACY_ALGO_ED25519 then
    Ok {| ls_signing_algo := LEGACY_ALGO_ED25519; ls_signing_address := ed25519_public_key_hex (dp_legacy_ed25519 p);
          ls_signature := hex_encode (ed25519_sign (dp_legacy_ed25519 p) text) |}
  else Err (UnsupportedAlgo signing_algo).

(** ** Custody *)

Definition key_evidence_json (e : KmsKeyEvidence) : Value :=
  {{ "role" ≔ Str (ev_role e); "path" ≔ Str (ev_path e); "purpose" ≔ Str (ev_purpose e); "algo" ≔ Str (ev_algo e);
     "public_key" ≔ Str (ev_public_key_hex e); "signature_chain" ≔ Arr (map Str (ev_signature_chain e)) }}.

Definition dstack_custody (p : DstackAciProvider) : Value :=
  {{ "provider" ≔ Str "dstack-kms";
     "keys" ≔ Arr [key_evidence_json (identity_evidence p); key_evidence_json (ed25519_receipt_evidence p);
                   key_evidence_json (receipt_evidence p); key_evidence_json (e2ee_evidence p);
                   key_evidence_json (x25519_e2ee_evidence p); key_evidence_json (legacy_ed25519_evidence p)] }}.

Definition dstack_e2ee (p : DstackAciProvider) : E2eeKeys := {|
  e2ee_keys := dstack_e2ee_keys p;
  decrypt_e2ee := dstack_decrypt_e2ee p;
  decrypt_legacy_e2ee := dstack_decrypt_legacy_e2ee p;
  tls_spkis := [];
  sign_legacy_message := dstack_sign_legacy_message p;
  key_custody_evidence := dstack_custody p;
  is_test_only := false |}.
End Dstack.

(** ** What is signed verifies *)

(** The documented behaviour of the schemes: keys encode to what parses, and
    what is signed verifies, or is recovered, under the signer's key. *)
Class SignersLaws `{Digest} `{AciVerifier.Crypto} `{CurveLibs} `{!Signers} : Prop := {
  signers_curve :: CurveLaws;
  secret_agrees k secret : secret_from_slice (signing_key_to_bytes k) = Ok secret ->
    to_uncompressed (public_key_of secret) = encoded_verifying_key k;
  sha256_bytes b : String.length (sha256 b) = 32%nat;
  verifying_key_parses k : exists vk, k256_from_encoded_point (encoded_verifying_key k) = Ok vk;
  k256_sign_verifies k m : String.length (k256_sign k m) = 64%nat /\ k256_signature_from_slice (k256_sign k m) = Ok tt
    /\ forall vk, k256_from_encoded_point (encoded_verifying_key k) = Ok vk -> k256_verify vk m (k256_sign k m) = true;
  recoverable_total k prehash : String.length prehash = 32%nat -> exists sig v, k256_sign_prehash_recoverable k prehash = Ok (sig, v);
  recoverable_recovers k prehash sig v : k256_sign_prehash_recoverable k prehash = Ok (sig, v) ->
    String.length sig = 64%nat /\ 0 <= v <= 3 /\ k256_signature_from_slice sig = Ok tt
    /\ k256_recover_prehash prehash sig v = k256_from_encoded_point (encoded_verifying_key k);
  ed25519_sign_verifies secret m : String.length secret = 32%nat ->
    String.length (ed25519_sign secret m) = 64%nat
    /\ ed25519_verify_strict (ed25519_verifying_key secret) m (ed25519_sign secret m) = true;
}.

Section Provider.
Context `{SignersLaws} `{DstackSdk} `{Keccak}.

(** What a provider holds after it was loaded: keys of 32 bytes, an E2EE key that
    is the signing key released for it, and evidence that names the keys in use
    and carries the chains the KMS gave. *)
Record loaded (client : DstackClient) (config : DstackAciProviderConfig) (p : DstackAciProvider) : Prop := {
  ld_client : dp_client p = client;
  ld_receipt_id : receipt_key_id p = cfg_receipt_key_id config;
  ld_ed_id : ed25519_receipt_key_id p = cfg_ed25519_receipt_key_id config;
  ld_e2ee_id : e2ee_key_id p = cfg_e2ee_key_id config;
  ld_x25519_id : x25519_e2ee_key_id p = cfg_x25519_e2ee_key_id config;
  ld_ed_length : String.length (dp_ed25519_receipt p) = 32%nat;
  ld_identity : exists response, get_key client (identity_path config) IDENTITY_PURPOSE = Ok response
    /\ identity_evidence p = {| ev_role := "identity"; ev_path := identity_path config; ev_purpose := IDENTITY_PURPOSE;
                                ev_algo := ALGO_ECDSA_SECP256K1; ev_public_key_hex := k256_public_key_hex (dp_identity p);
                                ev_signature_chain := gk_signature_chain response |};
  ld_keys : [ev_public_key_hex (ed25519_receipt_evidence p); ev_public_key_hex (receipt_evidence p)]
            = map public_key_hex (dstack_receipt_keys p);
  ld_e2ee : [ev_public_key_hex (e2ee_evidence p); ev_public_key_hex (x25519_e2ee_evidence p)]
            = map public_key_hex (firstn 2 (dstack_e2ee_keys p));
}.

Lemma load_signing_Ok client role path purpose key ev :
  load_kms_signing_key client role path purpose = Ok (key, ev) ->
  exists response, get_key client path purpose = Ok response
    /\ ev = {| ev_role := role; ev_path := path; ev_purpose := purpose;
               ev_algo := if String.eqb role "e2ee" then E2EE_ALGO_SECP256K1_AESGCM else ALGO_ECDSA_SECP256K1;
               ev_public_key_hex := k256_public_key_hex key; ev_signature_chain := gk_signature_chain response |}.
Proof.
  unfold load_kms_signing_key, kms_get_key, crypto_failed. destruct (get_key client path purpose) as [response|]; [|done].
  cbn. destruct (signing_key_from_kms_response role response); [|done]. cbn. intros [= -> <-]. by exists response.
Qed.

Lemma load_raw_Ok client role path purpose key chain :
  load_kms_raw32_key client role path purpose = Ok (key, chain) -> String.length key = 32%nat.
Proof.
  unfold load_kms_raw32_key, kms_get_key, decode_kms_key, crypto_failed. destruct (get_key client path purpose) as [response|]; [|done].
  cbn. destruct (decode_key response) as [bytes|]; [|done]. cbn. destruct (Nat.eqb_spec (String.length bytes) 32); [|done].
  cbn. by intros [= <- _].
Qed.

Lemma from_client_loaded client config p : from_client client config = Ok p -> loaded client config p.
Proof.
  unfold from_client. intros Hp.
  apply result_bind_Ok in Hp as ([identity identity_ev] & Hid & Hp). apply load_signing_Ok in Hid as (r1 & Hr1 & ->).
  apply result_bind_Ok in Hp as ([receipt receipt_ev] & Hrc & Hp). apply load_signing_Ok in Hrc as (r2 & _ & ->).
  apply result_bind_Ok in Hp as ([ed ed_ev] & Hed & Hp). unfold load_kms_ed25519_key in Hed at 1.
  apply result_bind_Ok in Hed as ([ed' chain] & Hlen%load_raw_Ok & [= -> <-]).
  apply result_bind_Ok in Hp as ([esk e2ee_ev] & Hes & Hp). apply load_signing_Ok in Hes as (r3 & _ & ->).
  apply result_bind_Ok in Hp as (e2ee & He & Hp). unfold secret_key_from_bytes, crypto_err in He.
  destruct (secret_from_slice (signing_key_to_bytes esk)) as [secret|] eqn:Hs; [|done]. injection He as ->.
  apply result_bind_Ok in Hp as ([x x_ev] & Hx & Hp). unfold load_kms_x25519_key in Hx.
  apply result_bind_Ok in Hx as ([xb xchain] & _ & Hx). apply result_bind_Ok in Hx as (xk & _ & [= -> <-]).
  apply result_bind_Ok in Hp as ([l l_ev] & _ & [= <-]).
  split; try done; [by exists r1|]. cbn. unfold k256_public_key_hex, public_key_from_secret. by rewrite (secret_agrees _ _ Hs).
Qed.

Lemma k256_public_key_decodes k : hex_decode (k256_public_key_hex k) = Ok (encoded_verifying_key k).
Proof. apply hex_decode_encode. Qed.

(** The laws the service assumes of its key provider. *)
#[export] Instance dstack_signer_laws p : @SignerLaws _ _ (dstack_keys p).
Proof.
  split; [|apply sha256_bytes]. intros payload sig [= <-]. unfold verify_keyset_endorsement. cbn -[hex_decode k256_public_key_hex].
  destruct (k256_sign_verifies (dp_identity p) payload) as (Hl & Hp & Hv). rewrite Hl. cbn -[hex_decode k256_public_key_hex].
  rewrite k256_public_key_decodes. destruct (verifying_key_parses (dp_identity p)) as [vk Hvk]. rewrite Hvk, Hp. by apply Hv.
Qed.

Lemma byte_at_app s b : byte_at (s +:+ String b "") (String.length s) = Z.of_N (N_of_ascii b).
Proof. unfold byte_at. induction s as [|c s IH]; [done|]. exact IH. Qed.

Lemma ed25519_receipt_verifies secret id bytes :
  String.length secret = 32%nat ->
  verify_receipt_signature {| key_id := id; algo := ALGO_ED25519; public_key_hex := ed25519_public_key_hex secret |}
    bytes (ed25519_sign secret bytes) = true.
Proof.
  intros Hl. unfold verify_receipt_signature, ed25519_public_key_hex. cbn [algo public_key_hex String.eqb Ascii.eqb Bool.eqb ALGO_ED25519].
  rewrite hex_decode_encode, ed25519_length. destruct (ed25519_sign_verifies secret bytes Hl) as [-> ->]. done.
Qed.

Lemma k256_receipt_verifies k id bytes :
  exists sig, recoverable "k256 sign_prehash" k (sha256 bytes) 0 = Ok sig
    /\ verify_receipt_signature {| key_id := id; algo := ALGO_ECDSA_SECP256K1; public_key_hex := k256_public_key_hex k |} bytes sig = true.
Proof.
  destruct (recoverable_total k (sha256 bytes) (sha256_bytes bytes)) as (sig & v & Hs). unfold recoverable, crypto_failed. rewrite Hs.
  cbn [map_err mbind result_bind]. eexists. split; [done|].
  apply recoverable_recovers in Hs as (Hl & Hv & Hparse & Hr). unfold verify_receipt_signature.
  cbn [algo public_key_hex String.eqb Ascii.eqb Bool.eqb ALGO_ED25519 ALGO_ECDSA_SECP256K1].
  rewrite string_app_length, Hl. cbn [String.length Nat.add Nat.eqb negb].
  assert (Hb : byte_at (sig +:+ String (byte (Z.to_N (v + 0))) "") 64 = v).
  { rewrite <- Hl, byte_at_app, Z.add_0_r. unfold byte. rewrite N_ascii_embedding by lia. by rewrite Z2N.id by lia. }
  rewrite Hb. replace (27 <=? v) with false by (symmetry; apply Z.leb_gt; lia). cbn [andb].
  replace (v <=? 3) with true by (symmetry; apply Z.leb_le; lia). cbn [negb].
  rewrite k256_public_key_decodes, <- Hl, str_take_app, Hparse, Hr.
  destruct (verifying_key_parses k) as [vk ->]. apply String.eqb_refl.
Qed.

(** Under each listed receipt key the provider signs, and the signature verifies. *)
Lemma receipt_sign_verifies client config p key bytes :
  from_client client config = Ok p -> cfg_receipt_key_id config <> cfg_ed25519_receipt_key_id config ->
  key ∈ dstack_receipt_keys p ->
  exists sig, dstack_sign_receipt p (key_id key) bytes = Ok sig /\ verify_receipt_signature key bytes sig = true.
Proof.
  intros Hp%from_client_loaded Hne. destruct Hp as [_ Hrid Hedid _ _ Hlen _ _ _].
  intros [->| ->%list_elem_of_singleton]%elem_of_cons; unfold dstack_sign_receipt; cbn [key_id].
  - rewrite String.eqb_refl. eexists. split; [done|]. by apply ed25519_receipt_verifies.
  - destruct (String.eqb_spec (receipt_key_id p) (ed25519_receipt_key_id p)); [congruence|]. rewrite String.eqb_refl.
    apply k256_receipt_verifies.
Qed.

(** The two receipt keys have different ids. *)
Lemma receipt_key_unique client config p key key' :
  from_client client config = Ok p -> cfg_receipt_key_id config <> cfg_ed25519_receipt_key_id config ->
  key ∈ dstack_receipt_keys p -> key' ∈ dstack_receipt_keys p -> key_id key = key_id key' -> key = key'.
Proof.
  intros Hp%from_client_loaded Hne. destruct Hp as [_ Hrid Hedid _ _ Hlen _ _ _].
  intros [->| ->%list_elem_of_singleton]%elem_of_cons [->| ->%list_elem_of_singleton]%elem_of_cons; cbn; congruence.
Qed.

(** Every receipt the provider signs is one a client can verify: a loaded
    provider whose two receipt keys have different ids signs under each listed
    key, a receipt finished with it names a listed key with its algorithm, and
    the signature it carries is accepted by the receipt verifier under that key
    for the bytes recomputed from the receipt. *)
Theorem dstack_receipts_verify client config p :
  from_client client config = Ok p -> cfg_receipt_key_id config <> cfg_ed25519_receipt_key_id config ->
  (forall key bytes, key ∈ dstack_receipt_keys p -> exists sig, dstack_sign_receipt p (key_id key) bytes = Ok sig)
  /\ forall builder kid r, @finalize _ (dstack_keys p) builder kid = Ok r ->
     exists key bytes sig, key ∈ dstack_receipt_keys p /\ key_id key = sig_key_id (signature r) /\ algo key = sig_algo (signature r)
       /\ canonical_bytes_for_signing r = Ok bytes /\ hex_decode (sig_value_hex (signature r)) = Ok sig
       /\ verify_receipt_signature key bytes sig = true.
Proof.
  intros Hp Hne. pose proof (fun key bytes => receipt_sign_verifies _ _ _ key bytes Hp Hne) as Hsign.
  split; [intros key bytes Hk; destruct (Hsign key bytes Hk) as (sig & ? & _); by exists sig|].
  intros builder kid r Hf. apply finalize_signs in Hf as (bytes & sig & key & Hb & Hs & Hsig & Hk & Hid & _).
  exists key, bytes, sig. rewrite Hsig. cbn. split_and!; try done; [apply hex_decode_encode|].
  destruct (Hsign key bytes Hk) as (sig' & Hs' & Hv). cbn in Hs. rewrite <- Hid, Hs' in Hs. by injection Hs as ->.
Qed.

(** ** What is encrypted to a published key is decrypted *)

(** The suite a listed E2EE key belongs to, and the provider's way to open it. *)
Definition opens (p : DstackAciProvider) (key : KeyedPublicKey) (ciphertext_hex aad : string) : result KeyError string :=
  if is_aci_e2ee_suite (algo key) then dstack_decrypt_e2ee p (key_id key) ciphertext_hex aad
  else dstack_decrypt_legacy_e2ee p (algo key) ciphertext_hex (Some aad).

Definition encrypt_to (key : KeyedPublicKey) (plaintext aad : string) : Enc string :=
  if is_aci_e2ee_suite (algo key) then encrypt_aci_e2ee_for_public_key (algo key) (public_key_hex key) plaintext aad
  else encrypt_legacy_for_public_key (algo key) (public_key_hex key) plaintext (Some aad).

(** C16: every E2EE key the provider publishes can be used: what a client encrypts
    to a listed key in the suite the key is listed for, the provider decrypts,
    whatever the client's random choices, as long as the two ACI keys have
    different ids. *)
Theorem dstack_keys_decrypt client config p key plaintext aad g :
  from_client client config = Ok p -> cfg_e2ee_key_id config <> cfg_x25519_e2ee_key_id config ->
  key ∈ dstack_e2ee_keys p -> Z.of_nat (String.length plaintext) <= 2 ^ 36 - 32 ->
  exists ct g', encrypt_to key plaintext aad g = (Ok ct, g') /\ opens p key ct aad = Ok plaintext.
Proof.
  intros Hp%from_client_loaded Hne Hkey Hlen. destruct Hp as [_ _ _ Heid Hxid _ _ _ _].
  assert (Hsuite : exists s : Suite, public_key_hex key = suite_public_key s
    /\ encrypt_to key plaintext aad = suite_encrypt s (public_key_hex key) plaintext aad
    /\ forall ct, opens p key ct aad = suite_decrypt s ct aad).
  { unfold dstack_e2ee_keys in Hkey. repeat (apply elem_of_cons in Hkey as [->|Hkey]); [..|by apply elem_of_nil in Hkey].
    - exists (SuiteSecp256k1 (dp_e2ee p)). split_and!; [done..|]. intros ct. cbn. unfold dstack_decrypt_e2ee. by rewrite String.eqb_refl.
    - exists (SuiteX25519 (dp_x25519_e2ee p)). split_and!; [done..|]. intros ct. cbn. unfold dstack_decrypt_e2ee.
      destruct (String.eqb_spec (x25519_e2ee_key_id p) (e2ee_key_id p)); [congruence|]. by rewrite String.eqb_refl.
    - by exists (SuiteLegacyEcdsa (dp_e2ee p)).
    - by exists (SuiteLegacyEd25519 (dp_legacy_ed25519 p)). }
  destruct Hsuite as (s & Hpk & He & Ho). destruct (suite_encrypt_spec s plaintext aad g) as [Ht Hs].
  destruct (Ht Hlen) as (ct & g' & E). exists ct, g'. rewrite He, Hpk, Ho. split; [done|]. by eapply Hs.
Qed.

(** ** What the verifier of another gateway makes of the evidence *)

(** A quote carries the report data it was asked for. *)
Lemma quote_binds p rd q : quote_with_report_data p rd = Ok q -> q_report_data q = rd.
Proof.
  unfold quote_with_report_data, quote_failed. destruct (client_get_quote _ _) as [response|]; [|done]. cbn.
  destruct (decode_quote response); [|done]. cbn. destruct (decode_hex_field _ _) as [returned|]; [|done]. cbn.
  destruct (String.eqb_spec returned rd) as [->|]; cbn; [|done]. destruct (client_info _) as [info|]; [|done]. cbn.
  destruct (event_log_text info); [|done]. by intros [= <-].
Qed.

Lemma get_set_evidence k k' v evidence : k' <> k -> get (set_evidence k v evidence) k' = get evidence k'.
Proof. intros Hne. destruct evidence; try done. cbn. rewrite map_get_insert. by destruct (String.eqb_spec k' k). Qed.

(** The evidence of an assembled report. *)
Lemma assembled_evidence {V} p (svc : AciService V) now rd quote dom report :
  @assemble_report _ (dstack_keys p) (dstack_e2ee p) V svc now rd quote dom = Ok report ->
  get (att_evidence (attestation report)) "key_custody" = Some (dstack_custody p)
  /\ get (att_evidence (attestation report)) "quote_report_data" = Some (Str (hex_encode (q_report_data quote)))
  /\ workload_keyset (attestation report) = keyset svc /\ report_data_hex (attestation report) = hex_encode rd.
Proof.
  unfold assemble_report. intros Ha. bind_step Ha. bind_step Ha. cbn zeta in Ha.
  apply result_bind_Ok in Ha as (evidence & He & [= <-]). cbn [attestation att_evidence workload_keyset report_data_hex].
  set (base := Obj _) in He.
  assert (Hev : evidence = set_evidence "key_custody" (dstack_custody p) base
    \/ exists b, evidence = set_evidence "downstream_tls_binding" b (set_evidence "key_custody" (dstack_custody p) base)).
  { destruct (requires_host_for_downstream_tls_binding svc).
    - apply result_bind_Ok in He as (d & _ & He). apply result_bind_Ok in He as (b & _ & [= <-]). right. by exists b.
    - destruct (dom ≫= downstream_tls_binding svc) as [b|]; injection He as <-; [right; by exists b|by left]. }
  destruct Hev as [->|[b ->]]; rewrite ?get_set_evidence by done; done.
Qed.

(** The chain of a key: the app key signs the key for its purpose, a root the
    verifier accepts signs the app key for the app. *)
Definition chain_accepted (policy : AciServiceVerifierPolicy) (app_id purpose public_key : string) (chain : list string) : Prop :=
  exists s1 s2 sig1 sig2 compressed app_key root, chain = [s1; s2] /\ decode_hex s1 = Ok sig1 /\ decode_hex s2 = Ok sig2
    /\ compressed_k256_public_key_hex public_key = Ok compressed
    /\ recover_k256_public_key (purpose +:+ ":" +:+ compressed) sig1 = Ok app_key
    /\ recover_k256_public_key ("dstack-kms-issued" +:+ ":" +:+ app_id +:+ app_key) sig2 = Ok root
    /\ hex_encode root ∈ accepted_kms_root_public_keys policy.

Definition check_chain (app_id purpose public_key : string) (policy : AciServiceVerifierPolicy) (chain : list Value) : vresult unit :=
  unless (Nat.eqb (length chain) 2)
    (InvalidKeyCustody ("identity key custody signature_chain must contain 2 signatures, got " +:+ z_to_string (Z.of_nat (length chain))))
    ≫= fun _ =>
  chain_signature chain 0 ≫= fun purpose_signature =>
  chain_signature chain 1 ≫= fun app_signature =>
  map_err KmsSignatureChain (compressed_k256_public_key_hex public_key) ≫= fun identity_compressed =>
  map_err KmsSignatureChain (recover_k256_public_key (purpose +:+ ":" +:+ identity_compressed) purpose_signature) ≫= fun app_public_key =>
  map_err KmsSignatureChain
    (recover_k256_public_key ("dstack-kms-issued" +:+ ":" +:+ app_id +:+ app_public_key) app_signature) ≫= fun root_public_key =>
  unless (bool_decide (hex_encode root_public_key ∈ accepted_kms_root_public_keys policy)) KmsRootRejected.

Lemma map_err_Ok {E E' A} (f : E -> E') (r : result E A) a : map_err f r = Ok a <-> r = Ok a.
Proof. destruct r; cbn; split; by intros [= ->] || done. Qed.

Lemma check_chain_iff app_id purpose public_key policy chain :
  check_chain app_id purpose public_key policy (map Str chain) = Ok tt <-> chain_accepted policy app_id purpose public_key chain.
Proof.
  unfold check_chain, chain_accepted. split.
  - destruct chain as [|s1 [|s2 [|]]]; try done. cbn [map length Nat.eqb unless mbind result_bind]. unfold chain_signature. cbn [lookup list_lookup as_str ok_or].
    intros Hc. apply result_bind_Ok in Hc as (sig1 & Hs1%map_err_Ok & Hc). apply result_bind_Ok in Hc as (sig2 & Hs2%map_err_Ok & Hc).
    apply result_bind_Ok in Hc as (pk & Hpk%map_err_Ok & Hc). apply result_bind_Ok in Hc as (app & Happ%map_err_Ok & Hc).
    apply result_bind_Ok in Hc as (root & Hroot%map_err_Ok & Hc). exists s1, s2, sig1, sig2, pk, app, root.
    split_and!; try done. unfold unless in Hc. by case_bool_decide.
  - intros (s1 & s2 & sig1 & sig2 & pk & app & root & -> & Hs1 & Hs2 & Hpk & Happ & Hroot & Hin).
    cbn [map length Nat.eqb unless mbind result_bind]. unfold chain_signature. cbn [lookup list_lookup as_str ok_or mbind result_bind].
    rewrite Hs1, Hs2. cbn [map_err mbind result_bind]. rewrite Hpk. cbn [map_err mbind result_bind]. rewrite Happ.
    cbn [map_err mbind result_bind]. rewrite Hroot. cbn [map_err mbind result_bind]. unfold unless. by rewrite bool_decide_eq_true_2.
Qed.

(** The evidence in the gateway's own report is what another gateway's verifier
    needs: with the dstack provider the custody check on a report succeeds
    exactly when the chain the KMS released with the identity key is accepted,
    for the identity key that the report's keyset names, and the quote binds the
    report data of the keyset padded with zeros. *)
Theorem dstack_report_custody {V} client config p (v : option V) cfg svc store t nonce dom report :
  from_client client config = Ok p ->
  @new_inner _ (dstack_keys p) (dstack_e2ee p) V v cfg = Ok svc ->
  @attestation_report_for_domain _ (dstack_keys p) (dstack_e2ee p) (dstack_quoter p) V svc store t nonce dom = Ok report ->
  pk_public_key_hex (public_key (workload_identity (workload_keyset (attestation report)))) = k256_public_key_hex (dp_identity p)
  /\ (exists response, get_key client (identity_path config) IDENTITY_PURPOSE = Ok response
      /\ forall app_id policy, verify_dstack_kms_identity_custody report app_id policy = Ok tt
           <-> chain_accepted policy app_id IDENTITY_PURPOSE (k256_public_key_hex (dp_identity p)) (gk_signature_chain response))
  /\ exists statement rd, attestation_statement (keyset svc) nonce = Ok statement /\ report_data statement = Ok rd
      /\ report_data_hex (attestation report) = hex_encode rd
      /\ get_str (att_evidence (attestation report)) "quote_report_data" = Some (hex_encode (dstack_report_data rd)).
Proof.
  intros Hp%from_client_loaded Hn Hr. destruct (ld_identity _ _ _ Hp) as (response & Hresp & Hev).
  destruct (new_inner_consistent _ _ _ Hn) as ((Hpk & _) & _). unfold attestation_report_for_domain in Hr.
  destruct (is_keyset_revoked svc store); [done|]. bind_step Hr. bind_step Hr. bind_step Hr.
  apply assembled_evidence in Hr as (Hcust & Hqrd & Hks & Hrd).
  split; [by rewrite Hks, Hpk|]. split.
  - exists response. split; [done|]. intros app_id policy. unfold verify_dstack_kms_identity_custody.
    rewrite Hcust, Hks, Hpk. unfold dstack_custody. rewrite Hev.
    cbn [get_str get map_get as_str as_array ok_or mbind result_bind String.eqb Ascii.eqb Bool.eqb unless key_evidence_json
         ev_role ev_path ev_purpose ev_algo ev_public_key_hex ev_signature_chain List.find].
    rewrite (bool_decide_eq_true_2 (Some "identity" = Some "identity")) by done.
    cbn [get_str get map_get as_str as_array ok_or mbind result_bind String.eqb Ascii.eqb Bool.eqb key_evidence_json
         ev_role ev_path ev_purpose ev_algo ev_public_key_hex ev_signature_chain identity_public_key dstack_keys identity_key pk_public_key_hex].
    rewrite String.eqb_refl. apply check_chain_iff.
  - exists a, a0. split_and!; [done|done|done|]. unfold get_str. rewrite Hqrd. cbn. by rewrite (quote_binds _ _ _ E1).
Qed.
End Provider.

(** ** Witnesses *)

Module DemoDstack.
#[export] Existing Instance Demo.digest32.
#[export] Existing Instance Toy.libs.

#[export] Instance crypto : AciVerifier.Crypto := {|
  hex_decode s := Ok (Demo.unhex s); base64_encode s := s; ed25519_verify_strict _ _ _ := true;
  k256_from_encoded_point p := Ok p; k256_signature_from_slice _ := Ok tt; k256_verify _ _ _ := true;
  k256_recover_keccak _ _ _ := Ok "root"; sha384 _ := zeros 48 |}.

(** A signature names its key. *)
#[export] Instance signers : Signers := {|
  SigningKey := bool;
  signing_key_from_slice s := Ok (Toy.bit s);
  signing_key_to_bytes k := Toy.enc32 k;
  signing_key_of_secret := (fun k : bool => k) : @SecretKey Toy.libs -> bool;
  encoded_verifying_key := Toy.enc65;
  k256_sign k _ := String (if k then "1" else "0") (zeros 63);
  k256_sign_prehash_recoverable k _ := Ok (String (if k then "1" else "0") (zeros 63), 1);
  k256_recover_prehash _ sig _ := Ok (Toy.enc65 (Toy.bit sig));
  ed25519_sign _ _ := zeros 64 |}.

#[export] Instance hex_laws : HexLaws.
Proof.
  split.
  - intros b. change (Ok (E := string) (Demo.unhex (demo_hex b)) = Ok b). by rewrite Toy.unhex_hex.
  - intros b. apply (hex_encode_digits (HexLaws := Toy.hex_laws)).
Qed.

#[export] Instance curve_laws : CurveLaws.
Proof.
  pose proof Toy.laws as L. split; try apply L. apply hex_laws.
Qed.

#[export] Instance laws : SignersLaws.
Proof.
  split.
  - apply curve_laws.
  - intros k secret [= <-]. by destruct k.
  - done.
  - intros k. by eexists.
  - intros k m. by destruct k.
  - intros k prehash _. by eexists _, _.
  - intros k prehash sig v [= <- <-]. split; [by destruct k|]. split; [lia|]. split; [done|]. by destruct k.
  - done.
Qed.

#[export] Instance sdk : DstackSdk := {|
  DstackClient := unit;
  DstackClient_new _ := tt;
  get_key _ path purpose := Ok {| gk_key := path; gk_signature_chain := [demo_hex (zeros 65); demo_hex (zeros 65)] |};
  decode_key _ := Ok (zeros 32);
  client_get_quote _ rd := Ok {| gq_quote := "q"; gq_report_data := demo_hex rd; gq_vm_config := "vm" |};
  decode_quote _ := Ok "q";
  Info := unit;
  client_info _ := Ok tt;
  event_log_text _ := Ok "[]" |}.
#[export] Instance keccak : Keccak := fun _ => zeros 32.

Definition client : @DstackClient sdk := tt.

(** The provider the default configuration loads. *)
Lemma loads : { p : DstackAciProvider | from_client client DstackAciProviderConfig_default = Ok p }.
Proof. eexists. cbv. reflexivity. Defined.

Definition provider : DstackAciProvider := proj1_sig loads.
Definition provider_ok : from_client client DstackAciProviderConfig_default = Ok provider := proj2_sig loads.

Lemma dstack_receipts_verify_witness :
  exists r key bytes sig, @finalize Demo.digest32 (dstack_keys provider) Receipt.demo_full "dstack-kms-receipt-v1" = Ok r
    /\ key ∈ dstack_receipt_keys provider /\ algo key = ALGO_ECDSA_SECP256K1 /\ canonical_bytes_for_signing r = Ok bytes
    /\ hex_decode (sig_value_hex (signature r)) = Ok sig /\ verify_receipt_signature key bytes sig = true.
Proof.
  destruct (dstack_receipts_verify client DstackAciProviderConfig_default provider provider_ok ltac:(discriminate)) as [_ Hf].
  destruct (@finalize Demo.digest32 (dstack_keys provider) Receipt.demo_full "dstack-kms-receipt-v1") as [r|] eqn:E;
    [|vm_compute in E; discriminate].
  destruct (Hf _ _ _ E) as (key & bytes & sig & Hk & Hid & Ha & Hb & Hs & Hv). exists r, key, bytes, sig.
  split_and!; try assumption; [reflexivity|]. rewrite Ha. vm_compute in E. injection E as <-. reflexivity.
Defined.

Lemma dstack_keys_decrypt_witness :
  exists ct g', encrypt_to (default (demo_key "k") (dstack_e2ee_keys provider !! 1%nat)) "hello" "aad" (tt : @Rng Toy.libs) = (Ok ct, g')
    /\ opens provider (default (demo_key "k") (dstack_e2ee_keys provider !! 1%nat)) ct "aad" = Ok "hello".
Proof.
  apply (dstack_keys_decrypt client DstackAciProviderConfig_default provider);
    [exact provider_ok|discriminate|right; left|vm_compute; discriminate].
Defined.

Definition policy : AciServiceVerifierPolicy :=
  {| pol_accepted_workload_ids := ∅; pol_accepted_image_digests := ∅;
     accepted_kms_root_public_keys := {[ demo_hex "root" ]} |}.

Lemma dstack_report_custody_witness :
  exists svc report,
    @new_inner _ (dstack_keys provider) (dstack_e2ee provider) unit None DemoService.cfg = Ok svc
    /\ @attestation_report_for_domain _ (dstack_keys provider) (dstack_e2ee provider) (dstack_quoter provider) unit svc in_memory
         1000 (Some "n") None = Ok report
    /\ verify_dstack_kms_identity_custody report "app" policy = Ok tt.
Proof.
  destruct (@new_inner _ (dstack_keys provider) (dstack_e2ee provider) unit None DemoService.cfg) as [svc|] eqn:En;
    [|vm_compute in En; discriminate].
  destruct (@attestation_report_for_domain _ (dstack_keys provider) (dstack_e2ee provider) (dstack_quoter provider) unit svc in_memory
         1000 (Some "n") None) as [report|] eqn:Er.
  2: { vm_compute in En. injection En as <-. vm_compute in Er. discriminate. }
  exists svc, report. split; [reflexivity|]. split; [exact Er|].
  destruct (dstack_report_custody client DstackAciProviderConfig_default provider None DemoService.cfg svc in_memory 1000 (Some "n") None
    report provider_ok En Er) as (_ & (response & Hresp & Hiff) & _).
  apply Hiff. injection Hresp as <-. eexists _, _, _, _, _, "root", "root". split; [reflexivity|].
  split; [reflexivity|]. split; [reflexivity|]. split; [reflexivity|]. split; [vm_compute; reflexivity|].
  split; [vm_compute; reflexivity|]. vm_compute. done.
Defined.
End DemoDstack.
