(* ===== verification/RouterHandler.v ===== *)
(** * The router middleware's handlers

    Model of the handlers of [src/middleware/router.rs] and of
    [src/middleware/mod.rs]: the completion, the catalog, the status and the admin
    view, on top of the routing of [RouterBackend.v] and the completion of
    [Completion.v].  The configuration is read anew by every call, and other
    requests use the router while this one waits: both are arguments. *)
From S2P Require Import Prelude StrOps Json Serde Canonical Identity Fs Revocation Receipt ReceiptStore Session SessionStore.
From S2P Require Import Float Router UpstreamConfig RouterBackend.
From S2P Require Import Upstream AciVerifier Verifiers Claims Errors E2ee E2eeFields Service Forward Streaming MiddlewareForward.
From S2P Require Import RequestTransform RequestTypes ResponseTransform StreamTransform KeepAlive Completion Access.
Import Types.

(** ** Values for the admin view *)

(** [Number::from_f64]: a float that is not finite becomes null; an [f32] is widened. *)
Definition from_f64 (x : spec_float) : Value :=
  match x with S754_nan | S754_infinity _ => Null | _ => Num (Float x) end.

Definition f64_of_f32 (x : spec_float) : spec_float :=
  match x with
  | S754_finite s m e => binary_normalize 53 1024 (if s then Z.neg m else Z.pos m) e s
  | x => x
  end.

Definition from_f32 (x : spec_float) : Value := from_f64 (f64_of_f32 x).

Definition from_option (o : option Value) : Value := match o with Some v => v | None => Null end.

Definition Engine_value (e : Engine) : Value := Str match e with Sglang => "sglang" | Vllm => "vllm" end.

Definition MiddlewareConfig_value (c : MiddlewareConfig) : Value :=
  {{ "public_model" ≔ from_option (Str <$> public_model_name c);
     "cache_threshold" ≔ from_f32 (cache_threshold c);
     "balance_abs_threshold" ≔ from_u64 (balance_abs_threshold c);
     "balance_rel_threshold" ≔ from_f32 (balance_rel_threshold c);
     "max_history_per_route" ≔ from_u64 (max_history_per_route c);
     "metrics_poll_ms" ≔ from_u64 (metrics_poll_ms c);
     "metrics_timeout_ms" ≔ from_u64 (metrics_timeout_ms c);
     "metrics_stale_ms" ≔ from_u64 (metrics_stale_ms c);
     "metrics_path" ≔ Str (metrics_path c);
     "trusted_user_tier_header" ≔ Bool (trusted_user_tier_header c);
     "default_engine" ≔ from_option (Engine_value <$> default_engine c);
     "sse_keepalive_ms" ≔ from_option (from_u64 <$> sse_keepalive_ms c) }}.

Definition age_ms (m : UpstreamMetrics) (now : Z) : option Z :=
  (fun t => (Z.max 0 (now - t) / 1000000) mod 2 ^ 64) <$> updated_at m.

(** The clock is read for staleness and again for the age. *)
Definition metrics_admin_json (s : RouterState) (upstream_name : string) (config : MiddlewareConfig) (now now' : Z) : Value :=
  match upstream_metrics s !! upstream_name with
  | None => {{ "ok" ≔ Bool false; "stale" ≔ Bool true; "error" ≔ Str "not_collected" }}
  | Some m =>
      {{ "ok" ≔ Bool (Router.ok m); "stale" ≔ Bool (is_stale m config now); "error" ≔ from_option (Str <$> error m);
         "observed_running" ≔ from_option (from_f64 <$> observed_running m);
         "observed_waiting" ≔ from_option (from_f64 <$> observed_waiting m);
         "global_limit" ≔ from_option (from_f64 <$> global_limit m);
         "basic_limit" ≔ from_option (from_f64 <$> basic_limit m);
         "basic_inflight" ≔ from_option (from_f64 <$> basic_inflight m);
         "premium_inflight" ≔ from_option (from_f64 <$> premium_inflight m);
         "age_ms" ≔ from_option (from_u64 <$> age_ms m now') }}
  end.

Definition public_model_error_text (e : PublicModelError) : string :=
  match e with
  | NotExactlyOneModel =>
      "router middleware requires exactly one public model; set middleware.public_model or remove extra public models from upstream config"
  end.

(** The row of one upstream and one of its models; [ages] are the two readings of
    the clock. *)
Definition admin_route (s : RouterState) (config : MiddlewareConfig) (ages : Z * Z) (u : PublicUpstreamConfig) (model : string) : Value :=
  let rid := route_id_of (pub_name u) model in
  let st := stats_of s rid in
  {{ "route_id" ≔ Str rid; "enabled" ≔ Bool (pub_enabled u); "upstream_name" ≔ Str (pub_name u); "public_model" ≔ Str model;
     "provider" ≔ Str (provider_name (pub_provider u)); "running" ≔ from_u64 (running st); "processed" ≔ from_u64 (processed st);
     "selected_by_cache" ≔ from_u64 (selected_by_cache st); "selected_by_load" ≔ from_u64 (selected_by_load st);
     "selected_by_order" ≔ from_u64 (selected_by_order st);
     "history_samples" ≔ from_u64 (Z.of_nat (length (samples_of s model rid)));
     "bearer_token_configured" ≔ Bool (bearer_token_configured u);
     "pig_metrics" ≔ metrics_admin_json s (pub_name u) config ages.1 ages.2 }}.

Definition route_id_key (v : Value) : string := match get v "route_id" with Some r => default "" (as_str r) | None => "" end.

(** [at_ i] are the clocks of the [i]-th upstream's rows, as [ages] above. *)
Definition admin_snapshot_value (config : MiddlewareConfig) (digest : string) (upstreams : list PublicUpstreamConfig)
    (s : RouterState) (at_ : nat -> nat -> Z * Z) : Value :=
  let routes := concat (imap (fun i u => imap (fun k m => admin_route s config (at_ i k) u m) (map fst (btree_iter (pub_models u)))) upstreams) in
  let model := public_model config upstreams in
  {{ "mode" ≔ Str "router"; "purpose" ≔ Str "single_model_multi_backend_cache_and_load_aware_routing";
     "config" ≔ MiddlewareConfig_value config;
     "routing_text_max_chars" ≔ from_u64 (Z.of_nat MAX_ROUTING_HISTORY_CHARS);
     "public_model" ≔ match model with Ok (Some m) => Str m | _ => Null end;
     "config_error" ≔ match model with Err e => Str (public_model_error_text e) | Ok _ => Null end;
     "upstream_config_digest" ≔ Str digest;
     "routes" ≔ Arr (sort_by (cmp_on route_id_key str_compare) routes) }}.

(** ** The handlers *)

(** The response of the middleware's own error helpers, sent as it is. *)
Definition sent (r : Errors.Response) : HttpResponse :=
  {| hr_status := r_status r; hr_headers := list_to_map (r_headers r); hr_body := Text (r_body r) |}.

(** A client response of the completion. *)
Definition client_http (r : ClientResponse) : HttpResponse :=
  {| hr_status := cr_status r; hr_headers := cr_headers r;
     hr_body := match cr_body r with Bytes b => Text b | Stream source finalizer => MiddlewareBody source finalizer end |}.

Section Catalog.
Context `{SerdeJson}.

Definition handle_catalog (config : MiddlewareConfig) (upstreams : list PublicUpstreamConfig) (v1_path : string) : HttpResponse :=
  if negb (String.eqb v1_path "/v1/models") then
    sent (error_response Openai 404 "not_found" "router middleware only serves /v1/models catalog" None)
  else
    match public_model config upstreams with
    | Err e => sent (error_response Openai 503 "service_unavailable" (public_model_error_text e) None)
    | Ok model =>
        let data := match model with
                    | Some id => [ {{ "id" ≔ Str id; "object" ≔ Str "model"; "owned_by" ≔ Str "phala" }} ]
                    | None => []
                    end in
        {| hr_status := 200; hr_headers := json_headers;
           hr_body := Text (to_vec_or_default ({{ "object" ≔ Str "list"; "data" ≔ Arr data }})) |}
    end.
End Catalog.

(** What a completion meets on its way: the configuration when the model is
    resolved and when its routes are, the clock at the selection and when the loads
    are compared, and what other requests do to the router between the selection
    and the start of the guard and while the request is forwarded. *)
Record RoutingEnv := {
  first_upstreams : list PublicUpstreamConfig;
  second_upstreams : list PublicUpstreamConfig;
  select_at : Z;
  loads_at : Z;
  before_start : RouterState -> RouterState;
  while_forwarding : RouterState -> RouterState;
}.

Section HandleCompletion.
Context `{Digest} `{Crypto} `{CurveLibs} `{SerdeJson} `{KeyProvider} `{Http}.
Context {V S Env : Type} `{SessionStoreOps S}.
Context `{UpstreamVerifier V (Shared S Env Rng)} `{!Outside (Shared S Env Rng)}.
Context (svc : AciService V) (clocks : nat -> WallClock) (clock : WallClock) (sleep : list bool).
Context (pauses : list (result UpstreamError string) -> list (option (result UpstreamError string))).
Context (float_to_string : spec_float -> string).

Abbreviation State := (State (S := S) (Env := Env)).

Definition routed (input : CompletionInput) : RoutedInput :=
  {| RouterBackend.params := params input; RouterBackend.endpoint := ci_endpoint input;
     RouterBackend.user_tier := ci_user_tier input |}.

Definition without_tier (input : CompletionInput) : CompletionInput :=
  {| ci_endpoint := ci_endpoint input; ci_endpoint_path := ci_endpoint_path input; surface := surface input; params := params input;
     ci_received_body := ci_received_body input; ci_requester := ci_requester input; ci_e2ee := ci_e2ee input;
     ci_upstream_required := ci_upstream_required input; ci_request_id := ci_request_id input; ci_user_model := ci_user_model input;
     ci_user_tier := None; ci_stream := ci_stream input |}.

Definition handle_completion (config : MiddlewareConfig) (input : CompletionInput) (w : RoutingEnv) (router : RouterState) (st : State) :
    HttpResponse * option RouteInFlight * RouterState * State :=
  match public_model config (first_upstreams w) with
  | Err e =>
      (sent (error_response (surface input) 503 "service_unavailable" (public_model_error_text e) (Some (ci_request_id input))),
       None, router, st)
  | Ok model =>
      let model := match model with Some m => m | None => "" end in
      let '(routes, selected, router) :=
        ordered_routes float_to_string config (second_upstreams w) router (select_at w) (loads_at w) model (routed input) in
      let input := if trusted_user_tier_header config then input else without_tier input in
      let '(guard, router) := match selected with
                              | Some sel => let '(g, router) := in_flight_start (before_start w router) sel in (Some g, router)
                              | None => (None, router)
                              end in
      let '(resp, guard, router, st) :=
        Completion.run svc clocks clock sleep pauses input (map candidate routes) (sse_keepalive_ms config) guard
          (while_forwarding w router) st in
      (client_http resp, guard, router, st)
  end.
End HandleCompletion.

(** ** The slot of a request *)

Definition few (gs : list RouteInFlight) : Prop := Z.of_nat (length gs) < u64_max.

(** What other requests do meanwhile: [f] to the counters and [d] to the guards they
    hold.  They keep the counters exact and leave this request's guard alone. *)
Definition orderly (f : RouterState -> RouterState) (d : list RouteInFlight -> list RouteInFlight) : Prop :=
  forall s own gs, counts (s, option_list own ++ gs) -> few gs -> counts (f s, option_list own ++ d gs) /\ few (d gs).

Lemma counts_perm s gs gs' : gs ≡ₚ gs' -> counts (s, gs) -> counts (s, gs').
Proof. intros Hp Hc rid. specialize (Hc rid). cbn in *. rewrite Hc. unfold guards_on. by rewrite Hp. Qed.

Lemma counts_stats s s' gs : (forall rid, stats_of s' rid = stats_of s rid) -> counts (s, gs) -> counts (s', gs).
Proof. intros Hs Hc rid. cbn. rewrite Hs. apply Hc. Qed.

Lemma counts_retargeted s g gs rid :
  counts (s, g :: gs) -> few gs -> counts ((retarget s g rid).2, (retarget s g rid).1 :: gs).
Proof.
  intros Hc Hf. destruct (flight_step_counts _ _ (flight_retarget s (g :: gs) 0 g rid eq_refl)) as [H _]; [|done|exact H].
  cbn. unfold few in Hf. lia.
Qed.

Lemma counts_dropped s g gs : counts (s, g :: gs) -> few gs -> counts ((in_flight_drop s g).2, gs).
Proof.
  intros Hc Hf. destruct (flight_step_counts _ _ (flight_drop s (g :: gs) 0 g eq_refl)) as [H _]; [cbn; unfold few in Hf; lia|done|].
  intros rid. specialize (H rid). cbn in H |- *. rewrite H. unfold guards_on. rewrite filter_cons, decide_False; [done|].
  unfold in_flight_drop. by destruct (guard_route_id g) eqn:E; cbn; rewrite ?E.
Qed.

Lemma ordered_routes_stats f2s config ups s t t' model input rid :
  stats_of (ordered_routes f2s config ups s t t' model input).2 rid = stats_of s rid.
Proof.
  unfold ordered_routes. destruct (negb _); [done|].
  pose proof (select_stats s t model (bounded_routing_text f2s (RouterBackend.params input) (RouterBackend.endpoint input))
    (model_routes config ups model) config (request_tier config input) rid) as Hs.
  by destruct (select _ _ _ _ _ _ _) as [[sel|] s'].
Qed.

(** No route is selected only when there is none. *)
Lemma ordered_routes_none f2s config ups s t t' model input :
  (ordered_routes f2s config ups s t t' model input).1.2 = None -> (ordered_routes f2s config ups s t t' model input).1.1 = [].
Proof.
  unfold ordered_routes. destruct (negb _); [done|].
  destruct (model_routes config ups model) as [|r rs] eqn:Er; [done|]. rewrite <- Er.
  destruct (select_picks s t model (bounded_routing_text f2s (RouterBackend.params input) (RouterBackend.endpoint input))
    (model_routes config ups model) config (request_tier config input)) as (sel & s' & r0 & -> & _); [by rewrite Er|done].
Qed.

Definition is_streamed (r : HttpResponse) : Prop := match hr_body r with MiddlewareBody _ _ => True | _ => False end.

Section Slot.
Context `{Digest} `{Crypto} `{CurveLibs} `{SerdeJson} `{KeyProvider} `{Http}.
Context {V S Env : Type} `{SessionStoreOps S}.
Context `{UpstreamVerifier V (Shared S Env Rng)} `{!Outside (Shared S Env Rng)}.
Context (svc : AciService V) (clocks : nat -> WallClock) (clock : WallClock) (sleep : list bool).
Context (pauses : list (result UpstreamError string) -> list (option (result UpstreamError string))).
Context (float_to_string : spec_float -> string).

Abbreviation State := (State (S := S) (Env := Env)).

Lemma generated_not_streamed surf path status body e2ee (st : State) resp st' :
  finalize_generated surf path status body e2ee st = (resp, st') -> ~ is_streamed (client_http resp).
Proof.
  unfold finalize_generated. destruct e2ee as [ctx|]; [|intros [= <- _] []].
  destruct (finalize_middleware_generated_response _ _ _ _ _) as [[f|e] st1]; intros [= <- _] [].
Qed.

(** The counters after the completion, its guard among the live ones. *)
Lemma run_counts input candidates ka guard router gs (st : State) resp guard' router' st' :
  counts (router, option_list guard ++ gs) -> few gs -> (guard = None -> candidates = []) ->
  Completion.run svc clocks clock sleep pauses input candidates ka guard router st = (resp, guard', router', st') ->
  counts (router', option_list guard' ++ gs) /\ (is_Some guard' <-> is_streamed (client_http resp)).
Proof.
  intros Hc Hf Hnone. unfold Completion.run.
  destruct (run_request svc clocks clock sleep pauses input candidates ka st) as [[r0 moved] s0] eqn:Er.
  destruct guard as [g|].
  - assert (Hm : forall x, match moved with Some rid => retarget router g rid | None => (g, router) end = x -> counts (x.2, x.1 :: gs)).
    { intros x <-. destruct moved; [by apply counts_retargeted|exact Hc]. }
    destruct (match moved with Some rid => _ | None => _ end) as [g1 rt]. specialize (Hm _ eq_refl). cbn in Hm.
    destruct (cr_body r0) as [b|source fin] eqn:Eb; intros [= <- <- <- _]; unfold is_streamed, client_http; cbn; rewrite Eb.
    + split; [by apply counts_dropped|]. by split; [intros []|].
    + split; [done|]. split; [done|eauto].
  - rewrite (Hnone eq_refl) in Er. intros [= <- <- <- _]. split; [done|]. unfold run_request in Er.
    destruct (generated _ _ _ _ _) as [r s] eqn:Eg. injection Er as <- _ _.
    apply generated_not_streamed in Eg. by split; [intros []|].
Qed.

End Slot.

(** ** A concrete completion *)

Module DemoRouter.
Import DemoForward DemoCompletion.

Definition quiet (upstreams : list PublicUpstreamConfig) : RoutingEnv :=
  {| first_upstreams := upstreams; second_upstreams := upstreams; select_at := 5; loads_at := 6; before_start := id; while_forwarding := id |}.

Definition routing : RoutingEnv := quiet (map redacted UpstreamConfig.demo_config).
Definition config : MiddlewareConfig := {|
  public_model_name := Some "m"; cache_threshold := cache_threshold MiddlewareConfig_default;
  balance_abs_threshold := 64; balance_rel_threshold := balance_rel_threshold MiddlewareConfig_default; max_history_per_route := 256;
  metrics_poll_ms := 1000; metrics_timeout_ms := 800; metrics_stale_ms := 3000; metrics_path := "/v1/metrics";
  trusted_user_tier_header := false; default_engine := None; sse_keepalive_ms := None |}.

Abbreviation handled := (handle_completion service (fun _ => demo_clock) demo_clock [] (map (fun c => Some c)) (fun _ => "0.5") config DemoCompletion.input
  routing RouterState_default init).

Lemma orderly_id : orderly id id.
Proof. by intros s own gs. Qed.

(** One other request in flight. *)
Definition other : RouteInFlight * RouterState := in_flight_start RouterState_default demo_selection.

Abbreviation handled_beside := (handle_completion service (fun _ => demo_clock) demo_clock [] (map (fun c => Some c)) (fun _ => "0.5") config
  DemoCompletion.input routing other.2 init).


(** The request was served: the two routes of the model were tried in order. *)
Example handled_status : hr_status handled.1.1.1 = 200.
Proof. vm_compute. reflexivity. Qed.
End DemoRouter.
