(* ===== verification/DirectBackend.v ===== *)
(** * Requests without the middleware

    Model of [src/http/app/backend.rs] (less the attestation fetch, in
    [Reports.v]): the direct path from the completion endpoint to the service, and
    the shaping of what the upstream answers. *)
From S2P Require Import Prelude StrOps Json Serde Canonical Identity Fs Revocation Receipt ReceiptStore Session SessionStore.
From S2P Require Import Upstream AciVerifier Verifiers Claims Errors E2ee E2eeFields Sse Service Forward Streaming MiddlewareForward Completion Access.
From S2P Require Import RouterHandler.
Import Types.

Record BackendForwardInput := {
  bf_context : GatewayRequestContext;
  bf_endpoint_path : string;
  bf_received_body : string;
  bf_forwarded_body : option string;
  bf_upstream_required : bool;
  bf_requester : option ReceiptOwner;
  bf_e2ee : option E2eeRequestContext;
  bf_stream : bool;
}.

(** ** The request *)

(** [message.get("tool_calls").as_array().is_some_and(is_empty)] *)
Definition has_empty_tool_calls (message : list (string * Value)) : bool :=
  match map_get "tool_calls" message with Some (Arr []) => true | _ => false end.

Definition strip_message (message : Value) : Value * bool :=
  match message with
  | Obj m => if has_empty_tool_calls m then (Obj (map_remove "tool_calls" m), true) else (message, false)
  | _ => (message, false)
  end.

Definition strip_empty_tool_calls (payload : Value) : Value * bool :=
  match payload with
  | Obj m =>
      match map_get "messages" m with
      | Some (Arr messages) =>
          let stripped := map strip_message messages in
          (Obj (map_insert "messages" (Arr (map fst stripped)) m), existsb snd stripped)
      | _ => (payload, false)
      end
  | _ => (payload, false)
  end.

Definition generate_request_id `{Digest} (bytes : string) : string := "req_" +:+ hex_encode bytes.

(** ** The response *)

(** [StatusCode::from_u16(..).unwrap_or(OK)] *)
Definition status_or_ok (status : Z) : Z := if (100 <=? status) && (status <? 1000) then status else 200.

Section Headers.
Context `{Http}.

(** A header whose name is known. *)
Definition insert_str_header (name value : string) (headers : gmap string string) : gmap string string :=
  match header_value value with Some v => <[name := v]> headers | None => headers end.

Definition chat_response_headers (receipt_id : string) (upstream_headers : gmap string string) (default_content_type : string)
    (e2ee : option E2eeResponseInfo) : gmap string string :=
  let headers := insert_str_header "x-receipt-id" receipt_id ∅ in
  let headers := match e2ee with
                 | Some info => insert_str_header "x-e2ee-algo" (ei_algo info)
                                  (insert_str_header "x-e2ee-version" (ei_version info) (<["x-e2ee-applied" := "true"]> headers))
                 | None => <["x-e2ee-applied" := "false"]> headers
                 end in
  insert_str_header "content-type" match upstream_headers !! "content-type" with Some c => c | None => default_content_type end headers.

Definition not_relayed (name : string) : bool :=
  existsb (String.eqb (to_ascii_lowercase name)) ["connection"; "transfer-encoding"; "content-length"].

Definition upstream_direct_response_headers (upstream_headers : gmap string string) : gmap string string :=
  fold_left (fun h kv => if not_relayed kv.1 then h else insert_header kv.1 kv.2 h) (iterate upstream_headers) ∅.

Definition upstream_direct_response (upstream : UpstreamResponse) (default_content_type : string) : HttpResponse :=
  let headers := upstream_direct_response_headers (resp_headers upstream) in
  let headers := match headers !! "content-type" with Some _ => headers | None => <["content-type" := default_content_type]> headers end in
  {| hr_status := status_or_bad_gateway (status_code upstream); hr_headers := headers; hr_body := Text (resp_body upstream) |}.
End Headers.

Section Errors.
Context `{SerdeJson} `{Http}.

Definition image_input_error_response (endpoint_path received_body : string) (upstream_status : Z) (upstream_body : string) :
    option HttpResponse :=
  '(status, body) ← image_input_error_parts (surface_for_path endpoint_path) received_body upstream_status upstream_body None;
  Some (sent (parts_response status body)).

Definition UpstreamError_text (e : UpstreamError) : string :=
  match e with
  | Routing m => "upstream routing error: " +:+ m
  | Transport m => "upstream transport error: " +:+ m
  | ChannelBindingMismatch m => "upstream channel binding mismatch: " +:+ m
  | Upstream status body => "upstream rejected request with status " +:+ z_to_string status +:+ ": " +:+ body
  end.

Definition upstream_proxy_error_response (e : UpstreamError) : HttpResponse := http_error 502 "upstream_error" (UpstreamError_text e).

Definition routing_error_response (message : string) : HttpResponse := http_error 400 "model_routing_error" message.

(** What both modes answer to an error of the service. *)
Definition forward_error_response (e : ServiceError) : HttpResponse :=
  match e with
  | UpstreamVerification uv => upstream_verification_error_response uv
  | ServiceE2ee err => e2ee_error_response err
  | ServiceUpstream (Routing message) => routing_error_response message
  | other => internal_error_response other
  end.
End Errors.

(** ** Forwarding *)

Section ForwardToBackend.
Context `{Digest} `{Crypto} `{CurveLibs} `{SerdeJson} `{KeyProvider} `{Http}.
Context {V S Env : Type} `{SessionStoreOps S}.
Context `{UpstreamVerifier V (Shared S Env Rng)} `{!Outside (Shared S Env Rng)}.
Context (svc : AciService V).
Context (pauses : list (result UpstreamError string) -> list (option (result UpstreamError string))).

Abbreviation State := (State (S := S) (Env := Env)).

Definition direct_request (input : BackendForwardInput) : ChatCompletionRequest :=
  {| rq_context := bf_context input; endpoint_path := bf_endpoint_path input; received_body := bf_received_body input;
     forwarded_body := bf_forwarded_body input; upstream_required := Some (bf_upstream_required input);
     upstream_verification_event := None; requester := bf_requester input; rq_e2ee := bf_e2ee input |}.

Definition direct_stream (input : BackendForwardInput) (forward : StartedStream) : HttpResponse :=
  let headers := chat_response_headers (st_receipt_id forward) (st_headers forward) "text/event-stream" (st_e2ee forward) in
  {| hr_status := status_or_ok (st_status forward);
     hr_headers := <["cache-control" := "no-cache"]> (<["x-accel-buffering" := "no"]> headers);
     hr_body := DirectBody (ReceiptFinalizingStream_new (pauses (st_body forward)) (st_builder forward) (bf_requester input)
                  (bf_endpoint_path input) (bf_e2ee input) (match bf_e2ee input with Some _ => true | None => false end)) |}.

Definition direct_stream_error (input : BackendForwardInput) (forward : StreamingUpstreamError) : HttpResponse :=
  match image_input_error_response (bf_endpoint_path input) (bf_received_body input) (err_status forward) (err_body forward) with
  | Some resp => resp
  | None =>
      {| hr_status := status_or_ok (err_status forward); hr_headers := upstream_direct_response_headers (err_headers forward);
         hr_body := Text (err_body forward) |}
  end.

Definition direct_buffered (forward : ForwardResult) : HttpResponse :=
  {| hr_status := status_or_ok (upstream_status forward);
     hr_headers := chat_response_headers (receipt_id (fr_receipt forward)) (upstream_headers forward) "application/json" (fr_e2ee forward);
     hr_body := Text (upstream_body forward) |}.

Definition forward_to_backend (input : BackendForwardInput) (st : State) : HttpResponse * State :=
  if bf_stream input then
    let '(r, st) := forward_chat_completion_stream_request svc (direct_request input) st in
    (match r with
     | Ok (ForwardStream forward) => direct_stream input forward
     | Ok (StreamUpstreamError forward) => direct_stream_error input forward
     | Err e => forward_error_response e
     end, st)
  else
    let '(r, st) := forward_chat_completion_request svc (direct_request input) st in
    (match r with Ok forward => direct_buffered forward | Err e => forward_error_response e end, st).

(** The body of a streaming answer: an error ends it, and it is not polled again. *)
Definition direct_poll (ended : bool) (f : Finalizing ReceiptOwn) (st : State) : Poll (option string) * bool * Finalizing ReceiptOwn * State :=
  if ended then (Ready None, true, f, st)
  else
    let '(o, f, st) := receipt_poll svc f st in
    match o with
    | Pending => (Pending, false, f, st)
    | Ready (Some (Ok bytes)) => (Ready (Some bytes), false, f, st)
    | Ready _ => (Ready None, true, f, st)
    end.
End ForwardToBackend.

(** ** Whose headers an answer carries *)

(** The error of an upstream that was asked for a stream is relayed with its headers,
    those the gateway speaks with among them: the client is given a receipt id that the
    upstream made up. *)
Theorem direct_error_headers_relayed `{Digest} `{Crypto} `{CurveLibs} `{SerdeJson} `{KeyProvider} `{HttpLaws} {V S Env : Type} `{SessionStoreOps S}
    `{UpstreamVerifier V (Shared S Env Rng)} `{!Outside (Shared S Env Rng)} (svc : AciService V) pauses input st e st' name forged :
  bf_stream input = true ->
  forward_chat_completion_stream_request (S := S) (Env := Env) svc (direct_request input) st = (Ok (StreamUpstreamError e), st') ->
  image_input_error_response (bf_endpoint_path input) (bf_received_body input) (err_status e) (err_body e) = None ->
  err_headers e = {[ name := forged ]} -> header_name name = Some "x-receipt-id" -> header_value forged = Some forged ->
  hr_headers (forward_to_backend svc pauses input st).1 !! "x-receipt-id" = Some forged.
Proof.
  intros Hs Hf Hi He Hn Hv. unfold forward_to_backend. rewrite Hs, Hf. cbn [fst]. unfold direct_stream_error. rewrite Hi.
  cbn [hr_headers]. unfold upstream_direct_response_headers. rewrite He.
  assert (iterate {[ name := forged ]} = [(name, forged)]) as ->.
  { apply Permutation_singleton_r. rewrite iterate_perm. by rewrite map_to_list_singleton. }
  cbn [fold_left fst snd]. assert (not_relayed name = false) as ->.
  { apply header_name_lower in Hn. unfold not_relayed. by rewrite <- Hn. }
  unfold insert_header. rewrite Hn, Hv. by rewrite lookup_insert_eq.
Qed.
