(* ===== verification/Endpoint.v ===== *)
(** * The completion endpoints

    Model of the completion handlers of [src/http/app/handlers.rs]: the checks a
    request passes, in order, and where it goes from there: to the router
    middleware, or straight to the service.  Clocks, random bytes and what other
    requests do meanwhile are arguments. *)
From S2P Require Import Prelude StrOps Json Serde Canonical Identity Fs Revocation Receipt ReceiptStore Session SessionStore.
From S2P Require Import Float Router UpstreamConfig UpstreamManager RouterBackend.
From S2P Require Import Upstream AciVerifier Verifiers Claims Errors E2ee E2eeFields Service E2eeRequest Forward Streaming MiddlewareForward.
From S2P Require Import RequestTransform RequestTypes ResponseTransform StreamTransform KeepAlive Completion Access RouterHandler DirectBackend.
Import Types.

(** ** The state of the gateway *)

(** [AppState], less what changes; the middleware is its configuration. *)
Record AppState (V : Type) := {
  app_service : AciService V;
  admin_token : option string;
  api_token : option string;
  middleware : option MiddlewareConfig;
}.
Arguments app_service {V}.
Arguments admin_token {V}.
Arguments api_token {V}.
Arguments middleware {V}.

(** What requests share: the service's state, its replay cache and revocations, the
    upstream configuration and the router. *)
Record Gateway `{CurveLibs} {S Env : Type} := {
  gw_state : Forward.State (S := S) (Env := Env);
  gw_replay : ReplayCache;
  gw_revocations : RevocationStore;
  gw_upstream_config : option UpstreamConfigManager;
  gw_router : RouterState;
}.
Arguments Gateway {_} _ _.

Definition set_replay `{CurveLibs} {S Env : Type} (cache : ReplayCache) (g : Gateway S Env) : Gateway S Env :=
  {| gw_state := gw_state g; gw_replay := cache; gw_revocations := gw_revocations g;
     gw_upstream_config := gw_upstream_config g; gw_router := gw_router g |}.

Definition set_served `{CurveLibs} {S Env : Type} (st : Forward.State (S := S) (Env := Env)) (router : RouterState) (g : Gateway S Env) : Gateway S Env :=
  {| gw_state := st; gw_replay := gw_replay g; gw_revocations := gw_revocations g;
     gw_upstream_config := gw_upstream_config g; gw_router := router |}.

(** What a completion request meets: the clock of the encryption check, the bytes of
    its request id, and the router's side. *)
Record Arrival := { arr_now : Z; arr_id_bytes : string; arr_routing : RoutingEnv }.

Section Endpoint.
Context `{Digest} `{Crypto} `{CurveLibs} `{SerdeJson} `{KeyProvider} `{E2eeKeys} `{Http} `{HeaderText}.
Context {V S Env : Type} `{SessionStoreOps S}.
Context `{UpstreamVerifier V (Shared S Env Rng)} `{!Outside (Shared S Env Rng)}.
Context (app : AppState V) (clocks : nat -> WallClock) (clock : WallClock) (sleep : list bool).
Context (pauses : list (result UpstreamError string) -> list (option (result UpstreamError string))).
Context (float_to_string : spec_float -> string).

Abbreviation svc := (app_service app).
Abbreviation Gateway := (Gateway S Env).

(** ** Checks *)

Definition e2ee_parts (headers : HeaderMap) : E2eeRequestParts :=
  {| signing_algo := header_str headers "x-signing-algo"; client_public_key := header_str headers "x-client-pub-key";
     model_public_key := header_str headers "x-model-pub-key"; parts_version := header_str headers "x-e2ee-version";
     parts_nonce := header_str headers "x-e2ee-nonce"; parts_timestamp := header_str headers "x-e2ee-timestamp" |}.

(** The bytes after the end of the encryption, if the request came encrypted. *)
Definition open_body (headers : HeaderMap) (body path : string) (now : Z) (cache : ReplayCache) :
    result HttpResponse (string * option E2eeRequestContext) * ReplayCache :=
  if has_e2ee_headers headers then
    if is_nil (service_capabilities (config svc)) then (Err unsupported_e2ee_response, cache)
    else
      match prepare_e2ee_v2_request svc (e2ee_parts headers) body path now cache with
      | (Ok prepared, cache) => (Ok (decrypted_body prepared, Some (E2eeRequest.context prepared)), cache)
      | (Err e, cache) => (Err (e2ee_error_response e), cache)
      end
  else (Ok (body, None), cache).

(** The request as JSON, and the bytes to forward if it had to be normalized. *)
Definition normalized (service_body : string) : result HttpResponse (Value * option string) :=
  match from_slice service_body with
  | Err e => Err (http_error 400 "invalid_request_error" ("invalid json: " +:+ e))
  | Ok value =>
      match strip_empty_tool_calls value with
      | (value, true) =>
          match to_vec value with
          | Ok bytes => Ok (value, Some bytes)
          | Err _ => Err (http_error 500 "internal_error" "failed to serialize normalized request")
          end
      | (value, false) => Ok (value, None)
      end
  end.

Definition verification_wanted (headers : HeaderMap) : result HttpResponse bool :=
  match header_str headers "x-upstream-verification" with
  | None => Ok true
  | Some v =>
      if String.eqb v "required" then Ok true
      else if String.eqb v "none" then Ok false
      else Err (http_error 400 "invalid_request_error" ("invalid X-Upstream-Verification: " +:+ v))
  end.

Definition header_tier (headers : HeaderMap) : option string :=
  value ← header_str headers "x-user-tier";
  let value := str_trim value in
  if String.eqb value "" then None else Some value.

Definition endpoint_of_path (path : string) : Endpoint :=
  if String.eqb path COMPLETIONS_PATH then Complete
  else if String.eqb path EMBEDDINGS_PATH then Embed
  else if String.eqb path MESSAGES_PATH then Messages
  else if String.eqb path RESPONSES_PATH then CreateModelResponse
  else ChatComplete.

(** A request that passed every check. *)
Record Accepted := {
  ad_body : string;
  ad_e2ee : option E2eeRequestContext;
  ad_parsed : Value;
  ad_forwarded : option string;
  ad_required : bool;
}.

Definition check_request (headers : HeaderMap) (body path : string) (a : Arrival) (g : Gateway) : result HttpResponse Accepted * ReplayCache :=
  match enforce_api (api_token app) headers with
  | Some resp => (Err resp, gw_replay g)
  | None =>
      if is_keyset_revoked svc (gw_revocations g) then (Err keyset_revoked_response, gw_replay g)
      else
        let '(opened, cache) := open_body headers body path (arr_now a) (gw_replay g) in
        ('(service_body, e2ee) ← opened;
         '(parsed, forwarded) ← normalized service_body;
         wanted ← verification_wanted headers;
         Ok {| ad_body := service_body; ad_e2ee := e2ee; ad_parsed := parsed; ad_forwarded := forwarded; ad_required := wanted |}, cache)
  end.

(** ** Where an admitted request goes *)

Section Dispatch.
Context (headers : HeaderMap) (path : string) (force_buffered : bool) (a : Arrival) (ad : Accepted).

Definition ad_requester : option ReceiptOwner := from_bearer <$> extract_bearer headers.

Definition ad_context : GatewayRequestContext :=
  {| request_id := generate_request_id (arr_id_bytes a); user_model := get (ad_parsed ad) "model" ≫= as_str;
     ctx_target_route_id := None; user_tier := None |}.

Definition ad_stream : bool :=
  negb force_buffered && match get (ad_parsed ad) "stream" ≫= as_bool with Some b => b | None => false end.

Definition completion_input : CompletionInput :=
  let endpoint := endpoint_of_path path in
  {| ci_endpoint := endpoint; ci_endpoint_path := path;
     surface := match endpoint with Messages => Errors.Anthropic | _ => Openai end;
     params := ad_parsed ad; ci_received_body := ad_body ad; ci_requester := ad_requester; ci_e2ee := ad_e2ee ad;
     ci_upstream_required := ad_required ad; ci_request_id := request_id ad_context; ci_user_model := user_model ad_context;
     ci_user_tier := header_tier headers; ci_stream := ad_stream |}.

Definition backend_input : BackendForwardInput :=
  {| bf_context := ad_context; bf_endpoint_path := path; bf_received_body := ad_body ad; bf_forwarded_body := ad_forwarded ad;
     bf_upstream_required := ad_required ad; bf_requester := ad_requester; bf_e2ee := ad_e2ee ad; bf_stream := ad_stream |}.

Definition dispatch (g : Gateway) : HttpResponse * option RouteInFlight * Gateway :=
  match middleware app with
  | Some mw =>
      let '(resp, guard, router, st) :=
        handle_completion svc clocks clock sleep pauses float_to_string mw completion_input (arr_routing a) (gw_router g) (gw_state g) in
      (resp, guard, set_served st router g)
  | None =>
      let '(resp, st) := forward_to_backend svc pauses backend_input (gw_state g) in
      (resp, None, set_served st (gw_router g) g)
  end.
End Dispatch.

Definition openai_completion_endpoint (headers : HeaderMap) (body path : string) (force_buffered : bool) (a : Arrival) (g : Gateway) :
    HttpResponse * option RouteInFlight * Gateway :=
  let '(admitted, cache) := check_request headers body path a g in
  let g := set_replay cache g in
  match admitted with
  | Err resp => (resp, None, g)
  | Ok ad => dispatch headers path force_buffered a ad g
  end.

(** ** The five endpoints *)

Definition chat_completions (headers : HeaderMap) (body : string) := openai_completion_endpoint headers body CHAT_COMPLETIONS_PATH false.
Definition completions (headers : HeaderMap) (body : string) := openai_completion_endpoint headers body COMPLETIONS_PATH false.
Definition embeddings (headers : HeaderMap) (body : string) := openai_completion_endpoint headers body EMBEDDINGS_PATH true.
Definition messages (headers : HeaderMap) (body : string) := openai_completion_endpoint headers body MESSAGES_PATH false.

Definition e2ee_unsupported_endpoint : HttpResponse :=
  http_error 400 "e2ee_unsupported_endpoint" "ACI E2EE is not supported on /v1/responses".

Definition responses (headers : HeaderMap) (body : string) (a : Arrival) (g : Gateway) : HttpResponse * option RouteInFlight * Gateway :=
  if has_e2ee_headers headers then (e2ee_unsupported_endpoint, None, g)
  else openai_completion_endpoint headers body RESPONSES_PATH false a g.
End Endpoint.

(** ** Whatever is sent was cleared *)

Section Sends.
Context `{Digest} `{Crypto} `{CurveLibs} `{SerdeJson} `{KeyProvider} `{E2eeKeys} `{Http} `{HeaderText}.
Context {V S Env : Type} `{SessionStoreOps S}.
Context `{UpstreamVerifier V (Shared S Env Rng)} `{!Outside (Shared S Env Rng)}.

Abbreviation State := (Forward.State (S := S) (Env := Env)).

(** From [st] to [st'], with the sendings in between cleared where [required] says so. *)
Definition sends_cleared (required : PreparedUpstreamRequest -> bool) (st st' : State) : Prop :=
  exists acts, performed st st' acts
    /\ forall p e failed, AForward p e failed ∈ acts -> required p = true -> uv_result e = Verified.

Lemma sends_nothing required (st st' : State) : trace st' = trace st -> sends_cleared required st st'.
Proof. intros Ht. exists []. split; [unfold performed; by rewrite app_nil_r|]. intros p e failed []%elem_of_nil. Qed.

Lemma sends_then required (st1 st2 st3 : State) : sends_cleared required st1 st2 -> trace st3 = trace st2 -> sends_cleared required st1 st3.
Proof. intros (acts & Hp & Hv) Ht. exists acts. split; [|done]. unfold performed in *. by rewrite Ht. Qed.

Lemma trace_wire body path sse e2ee (st : State) : trace (final_wire_body body path sse e2ee st).2 = trace st.
Proof. destruct e2ee; [apply silent_encrypt|done]. Qed.

Lemma trace_generated surf path status body e2ee (st : State) : trace (finalize_generated surf path status body e2ee st).2 = trace st.
Proof.
  unfold finalize_generated. destruct e2ee as [ctx|]; [|done].
  assert (Hs : trace (finalize_middleware_generated_response path body (Some "application/json") (Some ctx) st).2 = trace st).
  { unfold finalize_middleware_generated_response. apply silent_bind; [intros ?; apply trace_wire|intros; apply silent_ret]. }
  by destruct (finalize_middleware_generated_response _ _ _ _ _) as [[f|e] st1].
Qed.

Section Run.
Context (svc : AciService V) (clocks : nat -> WallClock) (clock : WallClock) (sleep : list bool).
Context (pauses : list (result UpstreamError string) -> list (option (result UpstreamError string))).

Lemma trace_receipt draft body ct owner e2ee (st : State) :
  trace (finalize_middleware_receipt svc draft body ct owner e2ee st).2 = trace st.
Proof.
  revert st. change (silent (finalize_middleware_receipt svc draft body ct owner e2ee)). unfold finalize_middleware_receipt.
  apply silent_bind; [intros ?; apply trace_wire|intros ?].
  repeat (apply silent_bind; [first [apply silent_build|apply silent_lift|apply silent_store]|intros ?]). apply silent_ret.
Qed.

Lemma trace_service_error input e (st : State) :
  trace (service_error_response (surface input) (ci_endpoint_path input) (ci_request_id input) e (ci_e2ee input) st).2 = trace st.
Proof. apply trace_generated. Qed.

Lemma trace_answer input candidates ka r (st : State) : trace (answer_forwarded svc clocks clock sleep input candidates ka r st).2 = trace st.
Proof.
  unfold answer_forwarded. destruct r as [[f|f|f|f]|e].
  - assert (Ha : trace (answer_buffered svc clock input candidates f st).2 = trace st).
    { unfold answer_buffered. destruct (shaped_answer _ _ _ _) as [[status final]|message]; [|apply trace_generated].
      pose proof (trace_receipt (mf_receipt f) final (Some "application/json") (ci_requester input) (ci_e2ee input) st) as Hr.
      destruct (finalize_middleware_receipt _ _ _ _ _ _ _) as [[fin|e] st1]; [done|].
      rewrite <- Hr. apply trace_generated. }
    by destruct (answer_buffered _ _ _ _ _ _).
  - assert (Ha : trace (answer_stream clocks clock sleep input candidates ka f st).2 = trace st).
    { unfold answer_stream. destruct (stream_answers _ _ _ _). destruct (finalize_middleware_response_stream _ _ _ _ _ _ _) as [[b i]|e];
        [done|apply trace_generated]. }
    by destruct (answer_stream _ _ _ _ _ _ _ _).
  - destruct (normalize_upstream_error_parts _ _ _ _ _) as [status body].
    pose proof (trace_generated (surface input) (ci_endpoint_path input) status body (ci_e2ee input) st).
    by destruct (finalize_generated _ _ _ _ _ _).
  - pose proof (trace_service_error input (ma_error f) st). by destruct (service_error_response _ _ _ _ _ _).
  - pose proof (trace_service_error input e st). by destruct (service_error_response _ _ _ _ _ _).
Qed.

Lemma run_sends input candidates ka guard router (st : State) resp guard' router' st' :
  Completion.run svc clocks clock sleep pauses input candidates ka guard router st = (resp, guard', router', st') ->
  sends_cleared (effective_required svc (chat_request input)) st st'.
Proof.
  unfold Completion.run.
  assert (Hr : sends_cleared (effective_required svc (chat_request input)) st
                 (run_request svc clocks clock sleep pauses input candidates ka st).2).
  { unfold run_request.
    assert (Hg : forall status ty m, sends_cleared (effective_required svc (chat_request input)) st
       (let '(r, s) := generated input status ty m st in (r, None : option string, s)).2).
    { intros status ty m. apply sends_nothing. unfold generated.
      pose proof (trace_generated (surface input) (ci_endpoint_path input) status
        (envelope_bytes (surface input) ty m (Some (ci_request_id input))) (ci_e2ee input) st).
      by destruct (finalize_generated _ _ _ _ _ _). }
    destruct candidates as [|c cs] eqn:Ec; [apply Hg|]. rewrite <- Ec. destruct (build_candidates _ _ _) as [shaped|e]; [|apply Hg].
    destruct (forward_chat_completion_for_middleware _ _ _ _ _ _ st) as [r st1] eqn:Ef.
    apply for_middleware_runs in Ef as (tried & rest & actss & _ & Hp & _ & Hv & _).
    eapply sends_then; [|apply trace_answer]. by exists (concat actss). }
  destruct (run_request _ _ _ _ _ _ _ _ _) as [[r0 moved] s0]. cbn [snd] in Hr.
  destruct guard as [g|]; [|by intros [= _ _ _ <-]].
  destruct (match moved with Some rid => _ | None => _ end) as [g1 rt]. by destruct (cr_body r0); intros [= _ _ _ <-].
Qed.

Lemma handle_completion_sends f2s config input w router (st : State) resp guard' router' st' :
  handle_completion svc clocks clock sleep pauses f2s config input w router st = (resp, guard', router', st') ->
  sends_cleared (effective_required svc (chat_request input)) st st'.
Proof.
  unfold handle_completion. destruct (public_model _ _) as [model|e]; [|intros [= _ _ _ <-]; by apply sends_nothing].
  destruct (ordered_routes _ _ _ _ _ _ _ _) as [[routes selected] r1].
  destruct (match selected with Some _ => _ | None => _ end) as [guard r2].
  destruct (Completion.run _ _ _ _ _ _ _ _ _ _ _) as [[[r0 g0] rt0] s0] eqn:Er. intros [= _ _ _ <-].
  apply run_sends in Er. by destruct (trusted_user_tier_header config).
Qed.

Lemma forward_to_backend_sends input (st : State) resp st' :
  forward_to_backend svc pauses input st = (resp, st') -> sends_cleared (effective_required svc (direct_request input)) st st'.
Proof.
  assert (Hr : forall s', s' ∈ [(forward_chat_completion_request svc (direct_request input) st).2;
      (forward_chat_completion_stream_request svc (direct_request input) st).2] -> sends_cleared (effective_required svc (direct_request input)) st s').
  { intros s' (acts & Hp & Hrun)%request_acts. exists acts. split; [done|]. intros p e failed Hin Hreq.
    destruct Hrun as [->|(q & _ & Hrun)]; [by apply elem_of_nil in Hin|].
    apply (run_forward_cleared _ _ _ _ _ _ _ _ _ Hrun) in Hin as (-> & Hv & _). auto. }
  unfold forward_to_backend. destruct (bf_stream input).
  - destruct (forward_chat_completion_stream_request _ _ _) as [r s]. intros [= _ <-]. apply Hr. right. by left.
  - destruct (forward_chat_completion_request _ _ _) as [r s]. intros [= _ <-]. apply Hr. by left.
Qed.
End Run.

(** ** The endpoint *)

(** The caller may use what the token guards. *)
Definition bearer_allowed (expected : option string) (headers : HeaderMap) : Prop :=
  match expected with None => True | Some token => extract_bearer headers = Some token end.

Lemma token_guard_None headers expected missing refused :
  token_guard headers (fun t => String.eqb t expected) missing refused = None -> extract_bearer headers = Some expected.
Proof. unfold token_guard. destruct (extract_bearer headers) as [t|]; [|done]. by destruct (String.eqb_spec t expected) as [->|]. Qed.

Lemma enforce_api_None token headers : enforce_api token headers = None -> bearer_allowed token headers.
Proof. destruct token; [apply token_guard_None|done]. Qed.

(** Verification is required unless the caller waives it or the upstream is none that can be verified. *)
Definition must_verify (headers : HeaderMap) (p : PreparedUpstreamRequest) : bool :=
  negb (bool_decide (header_str headers "x-upstream-verification" = Some "none")) && negb (bool_decide (p_is_tee p = Some false)).

Section Admission.
Context (app : AppState V) (headers : HeaderMap) (body path : string) (a : Arrival) (g : Gateway S Env).

(** What is known of a request that passed the checks. *)
Record admission (ad : Accepted) : Prop := {
  adm_api : bearer_allowed (api_token app) headers;
  adm_live : is_keyset_revoked (app_service app) (gw_revocations g) = false;
  adm_json : exists v, from_slice (ad_body ad) = Ok v /\ ad_parsed ad = (strip_empty_tool_calls v).1
    /\ match ad_forwarded ad with None => ad_parsed ad = v | Some b => to_vec (ad_parsed ad) = Ok b end;
  adm_plain : has_e2ee_headers headers = false -> ad_body ad = body /\ ad_e2ee ad = None;
  adm_e2ee : has_e2ee_headers headers = true ->
    exists r, (prepare_e2ee_v2_request (app_service app) (e2ee_parts headers) body path (arr_now a) (gw_replay g)).1 = Ok r
      /\ ad_body ad = decrypted_body r /\ ad_e2ee ad = Some (E2eeRequest.context r);
  adm_wanted : verification_wanted headers = Ok (ad_required ad);
}.

Lemma strip_message_false v : (strip_message v).2 = false -> (strip_message v).1 = v.
Proof. destruct v; try done. cbn. by destruct (has_empty_tool_calls m). Qed.

(** A request that needs no change is not changed. *)
Lemma strip_unchanged v : (strip_empty_tool_calls v).2 = false -> (strip_empty_tool_calls v).1 = v.
Proof.
  destruct v as [| | | | |m]; try done. cbn. destruct (map_get "messages" m) as [[| | | |l|]|] eqn:Em; try done. cbn. intros Hex.
  assert (El : map fst (map strip_message l) = l).
  { clear Em. induction l as [|x l IH]; [done|]. cbn in *. apply orb_false_iff in Hex as [Hx Hl]. by rewrite (strip_message_false x Hx), IH. }
  rewrite El. f_equal. by apply map_insert_same.
Qed.

Lemma normalized_Ok b v fwd :
  normalized b = Ok (v, fwd) ->
  exists v0, from_slice b = Ok v0 /\ v = (strip_empty_tool_calls v0).1 /\ match fwd with None => v = v0 | Some t => to_vec v = Ok t end.
Proof.
  unfold normalized. destruct (from_slice b) as [v0|]; [|done]. pose proof (strip_unchanged v0) as Hs.
  destruct (strip_empty_tool_calls v0) as [v1 []] eqn:Ev; cbn in Hs.
  - destruct (to_vec v1) as [t|] eqn:Et; [|done]. intros [= <- <-]. exists v0. by rewrite Ev.
  - intros [= <- <-]. exists v0. rewrite Ev. cbn. auto.
Qed.

Lemma check_request_Ok ad : (check_request app headers body path a g).1 = Ok ad -> admission ad.
Proof.
  unfold check_request. destruct (enforce_api _ _) as [r|] eqn:Ea; [done|]. destruct (is_keyset_revoked _ _) eqn:Er; [done|].
  apply enforce_api_None in Ea. destruct (open_body _ _ _ _ _ _) as [opened cache] eqn:Eo. cbn [fst]. intros Hk.
  destruct opened as [[sb e2ee]|]; [|done]. cbn in Hk. destruct (normalized sb) as [[v fwd]|] eqn:En; [|done]. cbn in Hk.
  destruct (verification_wanted headers) as [w|] eqn:Ew; [|done]. injection Hk as <-. apply normalized_Ok in En.
  unfold open_body in Eo. destruct (has_e2ee_headers headers) eqn:Eh.
  - destruct (is_nil _); [done|]. destruct (prepare_e2ee_v2_request _ _ _ _ _ _) as [[r|] c] eqn:Ep; [|done].
    injection Eo as <- <- <-. split; cbn [ad_body ad_e2ee ad_parsed ad_forwarded ad_required]; try done; [congruence|]. intros _. rewrite Ep. by exists r.
  - injection Eo as <- <- <-. split; cbn [ad_body ad_e2ee ad_parsed ad_forwarded ad_required]; done || congruence.
Qed.

Lemma http_error_no_receipt status ty m : hr_headers (http_error status ty m) !! "x-receipt-id" = None.
Proof. unfold http_error, json_reply. by destruct (to_vec _). Qed.

(** A refusal has no receipt. *)
Lemma token_guard_no_receipt accepts m1 m2 ty1 ty2 s1 s2 r :
  token_guard headers accepts (http_error s1 ty1 m1) (http_error s2 ty2 m2) = Some r -> hr_headers r !! "x-receipt-id" = None.
Proof.
  unfold token_guard. destruct (extract_bearer headers) as [t|]; [destruct (accepts t); [done|]|]; intros [= <-]; apply http_error_no_receipt.
Qed.

Lemma open_body_no_receipt now cache r c : open_body app headers body path now cache = (Err r, c) -> hr_headers r !! "x-receipt-id" = None.
Proof.
  unfold open_body. destruct (has_e2ee_headers headers); [|done]. destruct (is_nil _); [intros [= <- _]; apply http_error_no_receipt|].
  destruct (prepare_e2ee_v2_request _ _ _ _ _ _) as [[p|e] c']; [done|]. intros [= <- _]. destruct e; apply http_error_no_receipt.
Qed.

Lemma checks_no_receipt sb r :
  normalized sb = Err r \/ verification_wanted headers = Err r -> hr_headers r !! "x-receipt-id" = None.
Proof.
  unfold normalized, verification_wanted. intros [Hr|Hr].
  - destruct (from_slice sb) as [v|]; [|injection Hr as <-; apply http_error_no_receipt].
    destruct (strip_empty_tool_calls v) as [v' []]; [|done]. destruct (to_vec v'); [done|]. injection Hr as <-. apply http_error_no_receipt.
  - destruct (header_str _ _) as [v|]; [|done]. destruct (String.eqb v "required"); [done|]. destruct (String.eqb v "none"); [done|].
    injection Hr as <-. apply http_error_no_receipt.
Qed.

Lemma check_request_no_receipt resp : (check_request app headers body path a g).1 = Err resp -> hr_headers resp !! "x-receipt-id" = None.
Proof.
  unfold check_request. destruct (enforce_api _ _) as [r|] eqn:Ea.
  { intros [= <-]. unfold enforce_api in Ea. destruct (api_token app); [|done]. by eapply token_guard_no_receipt. }
  destruct (is_keyset_revoked _ _); [intros [= <-]; apply http_error_no_receipt|].
  destruct (open_body _ _ _ _ _ _) as [[[sb e2ee]|r] cache] eqn:Eo; cbn [fst mbind result_bind].
  - destruct (normalized sb) as [[v fwd]|r] eqn:En; cbn [mbind result_bind]; [|intros [= <-]; by eapply checks_no_receipt; left].
    destruct (verification_wanted headers) as [w|r] eqn:Ew; [done|]. intros [= <-]. by apply (checks_no_receipt sb); right.
  - intros [= <-]. by eapply open_body_no_receipt.
Qed.

Lemma wanted_required w : verification_wanted headers = Ok w -> header_str headers "x-upstream-verification" <> Some "none" -> w = true.
Proof.
  unfold verification_wanted. destruct (header_str headers "x-upstream-verification") as [v|]; [|by intros [= <-]].
  destruct (String.eqb_spec v "required"); [by intros [= <-]|]. destruct (String.eqb_spec v "none"); [by subst|done].
Qed.
End Admission.

Section FailClosed.
Context (app : AppState V) (clocks : nat -> WallClock) (clock : WallClock) (sleep : list bool).
Context (pauses : list (result UpstreamError string) -> list (option (result UpstreamError string))).
Context (f2s : spec_float -> string).

Lemma dispatch_sends headers path forced a ad (g : Gateway S Env) resp guard g' :
  verification_wanted headers = Ok (ad_required ad) ->
  dispatch app clocks clock sleep pauses f2s headers path forced a ad g = (resp, guard, g') ->
  sends_cleared (must_verify headers) (gw_state g) (gw_state g').
Proof.
  intros Hw Hd.
  assert (Hreq : forall req p, upstream_required req = Some (ad_required ad) -> must_verify headers p = true ->
    effective_required (app_service app) req p = true).
  { intros req p Er [Hn Ht]%andb_true_iff. apply negb_true_iff, bool_decide_eq_false in Hn, Ht.
    unfold effective_required, upstream_required_for_prepared. rewrite Er.
    assert (ad_required ad = true) as -> by by eapply wanted_required. by destruct (p_is_tee p) as [[]|]. }
  unfold dispatch in Hd. destruct (middleware app) as [mw|].
  - destruct (handle_completion _ _ _ _ _ _ _ _ _ _ _) as [[[r gd] router] st] eqn:E. injection Hd as _ _ <-.
    apply handle_completion_sends in E as (acts & Hp & Hv). exists acts. split; [done|]. eauto.
  - destruct (forward_to_backend _ _ _ _) as [r st] eqn:E. injection Hd as _ _ <-.
    apply forward_to_backend_sends in E as (acts & Hp & Hv). exists acts. split; [done|]. eauto.
Qed.

(** A dispatched request only adds to what was done, and leaves the revocations alone. *)
Lemma dispatch_frame headers path forced a ad (g : Gateway S Env) :
  let g' := (dispatch app clocks clock sleep pauses f2s headers path forced a ad g).2 in
  gw_revocations g' = gw_revocations g /\ exists acts, performed (gw_state g) (gw_state g') acts.
Proof.
  cbn zeta. unfold dispatch. destruct (middleware app) as [mw|].
  - destruct (handle_completion _ _ _ _ _ _ _ _ _ _ _) as [[[r gd] router] st] eqn:E.
    apply handle_completion_sends in E as (acts & Hp & _). split; [done|by exists acts].
  - destruct (forward_to_backend _ _ _ _) as [r st] eqn:E. apply forward_to_backend_sends in E as (acts & Hp & _). split; [done|by exists acts].
Qed.

(** C2: The completion endpoints fail closed.  Either the request is refused by one of
    the checks, and then nothing is sent and nothing but the replay cache changes; or
    it came with the API token if one is set, the keyset is not revoked, the body is
    JSON (decrypted, if it came encrypted), and whatever is sent upstream, in either
    mode, is covered by a verified event, unless the caller waived verification or
    the upstream is one that is not a TEE. *)
Theorem endpoint_fail_closed headers body path forced a (g : Gateway S Env) resp guard g' :
  openai_completion_endpoint app clocks clock sleep pauses f2s headers body path forced a g = (resp, guard, g') ->
  (gw_revocations g' = gw_revocations g /\ gw_upstream_config g' = gw_upstream_config g)
  /\ ((check_request app headers body path a g).1 = Err resp /\ guard = None /\ gw_state g' = gw_state g /\ gw_router g' = gw_router g
      \/ exists ad, admission app headers body path a g ad /\ sends_cleared (must_verify headers) (gw_state g) (gw_state g')).
Proof.
  unfold openai_completion_endpoint. destruct (check_request app headers body path a g) as [admitted cache] eqn:Ea.
  destruct admitted as [ad|r]; [|intros [= <- <- <-]; split; [done|by left]].
  intros Hd. split.
  - unfold dispatch in Hd. destruct (middleware app).
    + destruct (handle_completion _ _ _ _ _ _ _ _ _ _ _) as [[[r gd] router] st]. by injection Hd as _ _ <-.
    + destruct (forward_to_backend _ _ _ _) as [r st]. by injection Hd as _ _ <-.
  - right. exists ad. assert (Had : admission app headers body path a g ad) by (apply check_request_Ok; by rewrite Ea). split; [done|].
    eapply dispatch_sends in Hd; [done|apply Had].
Qed.
End FailClosed.
End Sends.

(** ** The receipt an answer refers to *)

Section Retrieval.
Context `{Digest} `{Crypto} `{CurveLibs} `{SerdeJson} `{KeyProvider} `{E2eeKeys} `{HttpLaws} `{HeaderText}.
Context {V S Env : Type} `{SessionStoreOps S}.
Context `{UpstreamVerifier V (Shared S Env Rng)} `{!Outside (Shared S Env Rng)}.

(** A receipt about the exchange of these bytes. *)
Definition about_exchange (r : Receipt.Receipt) (received wire : string) : Prop :=
  exists mid cleartext,
    log_of (event_log r) = (EVENT_REQUEST_RECEIVED, {{ "body_hash" ≔ Str (sha256_hex received) }}) :: mid ++ returned cleartext wire.

Lemma about_middle r received wire pre rest mid cleartext :
  pre = (EVENT_REQUEST_RECEIVED, {{ "body_hash" ≔ Str (sha256_hex received) }}) :: rest ->
  log_of (event_log r) = pre ++ mid ++ returned cleartext wire -> about_exchange r received wire.
Proof. intros -> Hlog. exists (rest ++ mid), cleartext. by rewrite Hlog, <- app_assoc. Qed.

(** The store holds, for this requester, a receipt about the exchange. *)
Definition receipt_kept (svc : AciService V) (st : Forward.State (S := S) (Env := Env)) (owner : option ReceiptOwner)
    (rid received wire : string) : Prop :=
  exists r t, by_receipt (receipts (shared st)) !! rid = Some {| sr_receipt := r; sr_owner := owner; expires_at := t |}
    /\ receipt_id r = rid /\ signed svc r /\ about_exchange r received wire.

Lemma insert_str_header_ne name value h k : name <> k -> insert_str_header name value h !! k = h !! k.
Proof. intros. unfold insert_str_header. destruct (header_value value); [|done]. by rewrite lookup_insert_ne. Qed.

Lemma chat_headers_receipt rid up ct e2ee rid' : chat_response_headers rid up ct e2ee !! "x-receipt-id" = Some rid' -> rid' = rid.
Proof.
  unfold chat_response_headers. rewrite insert_str_header_ne by done.
  assert (Hi : insert_str_header "x-receipt-id" rid ∅ !! "x-receipt-id" = Some rid' -> rid' = rid).
  { unfold insert_str_header. destruct (header_value rid) as [v|] eqn:Ev; [|done]. apply header_value_text in Ev as ->.
    rewrite lookup_insert_eq. congruence. }
  destruct e2ee as [info|]; [|by rewrite lookup_insert_ne].
  rewrite !insert_str_header_ne by done. by rewrite lookup_insert_ne.
Qed.

Section Modes.
Context (svc : AciService V) (clocks : nat -> WallClock) (clock : WallClock) (sleep : list bool).
Context (pauses : list (result UpstreamError string) -> list (option (result UpstreamError string))).
Context (f2s : spec_float -> string).

Lemma sent_no_receipt surf status ty m rid : hr_headers (sent (error_response surf status ty m rid)) !! "x-receipt-id" = None.
Proof. done. Qed.

Lemma middleware_receipt_kept config input w router (st : Forward.State (S := S) (Env := Env)) resp guard router' st' rid wire :
  handle_completion svc clocks clock sleep pauses f2s config input w router st = (resp, guard, router', st') ->
  hr_headers resp !! "x-receipt-id" = Some rid -> hr_body resp = Text wire ->
  receipt_kept svc st' (ci_requester input) rid (ci_received_body input) wire.
Proof.
  unfold handle_completion. destruct (public_model _ _) as [model|e]; [|intros [= <- _ _ _]; by rewrite sent_no_receipt].
  destruct (ordered_routes _ _ _ _ _ _ _ _) as [[routes selected] r1].
  destruct (match selected with Some _ => _ | None => _ end) as [g1 r2].
  destruct (Completion.run _ _ _ _ _ _ _ _ _ _ _) as [[[r0 g0] rt0] s0] eqn:Er. intros [= <- _ _ <-]. cbn. intros Hh Hb.
  assert (Hb' : cr_body r0 = Bytes wire) by (destruct (cr_body r0); congruence).
  eapply run_receipted in Er as (shaped & _ & _ & Ht); [|exact Hh|exact Hb'].
  destruct Ht as (r & t & c & p & event & up & recorded & b & st1 & Hby & Hid & Hs & _ & _ & Hlog).
  exists r, t. set (input' := if trusted_user_tier_header config then _ else _) in *.
  assert (ci_requester input' = ci_requester input /\ ci_received_body input' = ci_received_body input) as [<- <-]
    by (subst input'; by destruct (trusted_user_tier_header config)).
  do 3 (split; [done|]). eapply about_middle; [reflexivity|exact Hlog].
Qed.

Lemma direct_receipt_kept input (st : Forward.State (S := S) (Env := Env)) resp st' rid wire :
  bf_stream input = false -> forward_to_backend svc pauses input st = (resp, st') ->
  hr_headers resp !! "x-receipt-id" = Some rid -> hr_body resp = Text wire ->
  receipt_kept svc st' (bf_requester input) rid (bf_received_body input) wire.
Proof.
  unfold forward_to_backend. intros ->. destruct (forward_chat_completion_request _ _ _) as [[f|e] s] eqn:Ef; intros [= <- <-].
  - cbn. intros ->%chat_headers_receipt [= <-]. apply exchange_receipt_kept in Ef.
    destruct Ef as (p & event & up & sealed & acts & cb & hs & t & _ & _ & _ & _ & _ & Hlog & Hs & Hby).
    exists (fr_receipt f), t. do 3 (split; [done|]). unfold exchange_log in Hlog. cbn zeta in Hlog. rewrite app_assoc in Hlog.
    eapply about_middle; [|exact Hlog]. reflexivity.
  - cbn. unfold forward_error_response, upstream_verification_error_response, e2ee_error_response, routing_error_response,
      internal_error_response. destruct e as [| |uv|[]| | | |[]| | | | | |]; by rewrite http_error_no_receipt.
Qed.
End Modes.

(** A quiet moment in which the receipt is still kept. *)
Definition quiet_before (t : Z) (l : Lookups) : Prop := gap_owner l = [] /\ at_first l < t /\ at_owner l < t.

Lemma served_to_owner headers rid l store r o t :
  by_receipt store !! rid = Some {| sr_receipt := r; sr_owner := o; expires_at := t |} -> receipt_id r = rid -> quiet_before t l ->
  (aci_receipt headers rid l store).1
  = match o with
    | None => serve_receipt r
    | Some owner => match extract_bearer headers with
                    | None => owner_missing
                    | Some token => if bool_decide (from_bearer token = owner) then serve_receipt r else owner_refused
                    end
    end.
Proof.
  intros Hby Hid (Hgap & Ht1 & Ht2). unfold aci_receipt, or_lookup, owned, get_by_receipt_id, enforce_owner, owner_of, token_guard.
  rewrite Hby. cbn [expires_at sr_receipt]. replace (t <=? at_first l) with false by (symmetry; apply Z.leb_gt; lia).
  cbn [fmap option_fmap option_map sr_receipt]. rewrite Hgap, Hid. cbn [meanwhile fold_left]. rewrite Hby. cbn [expires_at].
  replace (t <=? at_owner l) with false by (symmetry; apply Z.leb_gt; lia). cbn [mbind option_bind sr_owner].
  destruct o as [owner|]; [|done]. destruct (extract_bearer headers) as [token|]; [|done]. by destruct (bool_decide _).
Qed.

End Retrieval.

(** ** A concrete request, in both modes *)

Module DemoEndpoint.
Import DemoForward DemoCompletion DemoAccess DemoRouter.

Definition app_with (mw : option MiddlewareConfig) : AppState StaticUpstreamVerifier :=
  {| app_service := service; admin_token := Some "root"; api_token := Some "alice"; middleware := mw |}.

Definition gateway : Gateway InMemorySessionStore nat :=
  {| gw_state := init; gw_replay := ∅; gw_revocations := in_memory; gw_upstream_config := None; gw_router := RouterState_default |}.

Definition body : string := to_vec_or_default ({{ "model" ≔ Str "m"; "messages" ≔ Arr [ {{ "role" ≔ Str "user"; "content" ≔ Str "hi"; "tool_calls" ≔ Arr [] }} ] }}).

Definition arrival : Arrival := {| arr_now := 0; arr_id_bytes := "id"; arr_routing := routing |}.

Definition ask (mw : option MiddlewareConfig) (headers : HeaderMap) : HttpResponse * option RouteInFlight * Gateway InMemorySessionStore nat :=
  chat_completions (app_with mw) (fun _ => demo_clock) demo_clock [] (map (fun c => Some c)) (fun _ => "0.5") headers body arrival gateway.

Example answered_both : hr_status (ask (Some DemoRouter.config) alice).1.1 = 200 /\ hr_status (ask None alice).1.1 = 200.
Proof. split; vm_compute; reflexivity. Qed.
Example api_token_wanted : hr_status (ask None []).1.1 = 401.
Proof. vm_compute. reflexivity. Qed.

Lemma endpoint_fail_closed_witness :
  (exists ad, admission (app_with None) alice body CHAT_COMPLETIONS_PATH arrival gateway ad
     /\ sends_cleared (must_verify alice) (gw_state gateway) (gw_state (ask None alice).2)).
Proof.
  destruct (endpoint_fail_closed (app_with None) (fun _ => demo_clock) demo_clock [] (map (fun c => Some c)) (fun _ => "0.5") alice body
    CHAT_COMPLETIONS_PATH false arrival gateway (ask None alice).1.1 (ask None alice).1.2 (ask None alice).2) as [_ [(Hr & _)|Hs]].
  - exact (triple_eta _ _ eq_refl).
  - exfalso. revert Hr. vm_compute. discriminate.
  - exact Hs.
Defined.

End DemoEndpoint.
