(* ===== verification/Gateway.v ===== *)
(** * The gateway

    Model of the rest of [src/http/app/handlers.rs] (administration, revocation,
    catalogs and status) and of [src/http/app/mod.rs]: the routes, and the headers
    every response carries.  Requests are steps of one state, a completion two: its
    checks when it arrives, and the rest once it has been admitted, with any other
    steps in between; what background tasks do is a step of its own. *)
From S2P Require Import Prelude StrOps Json Serde Canonical Identity Fs Revocation Receipt ReceiptStore Session SessionStore Metrics.
From S2P Require Import Float Router UpstreamConfig ExternalVerifier UpstreamManager RouterBackend.
From S2P Require Import Upstream AciVerifier Verifiers Claims Errors E2ee E2eeFields Service E2eeRequest Forward Streaming MiddlewareForward.
From S2P Require Import RequestTransform RequestTypes ResponseTransform StreamTransform KeepAlive Completion Access Reports RouterHandler DirectBackend Endpoint.
Import Types.

(** ** What the handlers print *)

Definition RevocationStatement_value (s : RevocationStatement) : Value :=
  {{ "workload_id" ≔ Str (rv_workload_id s); "workload_keyset_digest" ≔ Str (rv_workload_keyset_digest s); "purpose" ≔ Str (purpose s);
     "revocation" ≔ {{ "algo" ≔ Str (rs_algo (revocation s)); "value" ≔ Str (value_hex (revocation s)) }};
     "revoked_at" ≔ from_u64 (revoked_at s) }}.

Definition BTreeMap_value (m : BTreeMap) : Value := Obj (map (fun kv => (kv.1, Str kv.2)) (btree_iter m)).

Definition strings_value (l : list string) : Value := Arr (map Str l).

Definition PublicUpstreamConfig_value (u : PublicUpstreamConfig) : Value :=
  Obj ([("name", Str (pub_name u)); ("enabled", Bool (pub_enabled u)); ("provider", Str (provider_name (pub_provider u)));
        ("base_url", Str (pub_base_url u))]
       ++ opt_entry "path" (Str <$> pub_path u)
       ++ [("models", BTreeMap_value (pub_models u)); ("bearer_token_configured", Bool (bearer_token_configured u))]
       ++ opt_entry "accepted_workload_ids" (strings_value <$> pub_accepted_workload_ids u)
       ++ opt_entry "accepted_image_digests" (strings_value <$> pub_accepted_image_digests u)
       ++ opt_entry "accepted_dstack_kms_root_public_keys" (strings_value <$> pub_accepted_dstack_kms_root_public_keys u)
       ++ opt_entry "pccs_url" (Str <$> pub_pccs_url u)
       ++ opt_entry "verifier_cache_seconds" (from_u64 <$> pub_verifier_cache_seconds u)
       ++ opt_entry "connect_timeout_seconds" (from_u64 <$> pub_connect_timeout_seconds u)
       ++ opt_entry "read_timeout_seconds" (from_u64 <$> pub_read_timeout_seconds u)
       ++ opt_entry "verifier_request_timeout_seconds" (from_u64 <$> pub_verifier_request_timeout_seconds u)
       ++ opt_entry "verification_refresh_seconds" (from_u64 <$> pub_verification_refresh_seconds u)
       ++ opt_entry "session_refresh_seconds" (from_u64 <$> pub_session_refresh_seconds u)
       ++ opt_entry "chutes_e2ee_api_base" (Str <$> pub_chutes_e2ee_api_base u)
       ++ opt_entry "chutes_chute_ids" (BTreeMap_value <$> pub_chutes_chute_ids u)
       ++ opt_entry "chutes_e2ee_discovery_rounds" (from_u64 <$> pub_chutes_e2ee_discovery_rounds u)
       ++ opt_entry "chutes_e2ee_discovery_interval_seconds" (from_u64 <$> pub_chutes_e2ee_discovery_interval_seconds u)).

Definition UpstreamConfigSnapshot_value (s : UpstreamConfigSnapshot) : Value :=
  {{ "config_path" ≔ Str (snap_config_path s); "config_digest" ≔ Str (snap_config_digest s);
     "upstreams" ≔ Arr (map PublicUpstreamConfig_value (snap_upstreams s)) }}.

(** The texts of a configuration issue and of a decoding error. *)
Class HandlerText : Type := { issue_text : ConfigIssue -> string; utf8_error_text : string -> string }.

Section Gateway.
Context `{Digest} `{Crypto} `{CurveLibs} `{SerdeJson} `{KeyProvider} `{E2eeKeys} `{Quoter} `{Keccak} `{Http} `{HeaderText} `{HandlerText}.
Context `{StrDebug} `{HttpClient} `{ChutesTransport} `{VerifierBuild} `{ConfigCodec} `{JsonCodec (list RevocationStatement)}.
Context {V S Env : Type} `{SessionStoreOps S}.
Context `{UpstreamVerifier V (Shared S Env Rng)} `{!Outside (Shared S Env Rng)}.
Context (app : AppState V).

Abbreviation svc := (app_service app).
Abbreviation Gateway := (Gateway S Env).

(** ** Changes of the shared state *)

Definition set_disk (w : World) (st : Forward.State (S := S) (Env := Env)) : Forward.State (S := S) (Env := Env) :=
  with_shared st {| env := env (shared st); rng := rng (shared st); receipts := receipts (shared st); sessions := sessions (shared st); disk := w |}.

Definition set_receipts (r : InMemoryReceiptStoreInner) (g : Gateway) : Gateway :=
  let st := gw_state g in
  set_served (with_shared st {| env := env (shared st); rng := rng (shared st); receipts := r; sessions := sessions (shared st);
                                disk := disk (shared st) |}) (gw_router g) g.

Definition set_sessions (s : S) (g : Gateway) : Gateway :=
  let st := gw_state g in
  set_served (with_shared st {| env := env (shared st); rng := rng (shared st); receipts := receipts (shared st); sessions := s;
                                disk := disk (shared st) |}) (gw_router g) g.

Definition gw_disk (g : Gateway) : World := disk (shared (gw_state g)).

(** ** Administration *)

Definition upstream_config_error_response (e : UpstreamConfigError) : HttpResponse :=
  match e with
  | InvalidConfig issue => http_error 400 "invalid_upstream_config" (issue_text issue)
  | ReadError path source => http_error 500 "internal_error" ("failed to read upstream config " +:+ path +:+ ": " +:+ message source)
  | WriteError path source => http_error 500 "internal_error" ("failed to write upstream config " +:+ path +:+ ": " +:+ message source)
  end.

(** A change of the configuration, and whether verifications are to be warmed up. *)
Definition changed_config (r : result UpstreamConfigError UpstreamConfigSnapshot * UpstreamConfigManager * World) (warm : bool) (g : Gateway) :
    HttpResponse * bool * Gateway :=
  let '(res, m, w) := r in
  let g := {| gw_state := set_disk w (gw_state g); gw_replay := gw_replay g; gw_revocations := gw_revocations g;
              gw_upstream_config := Some m; gw_router := gw_router g |} in
  match res with
  | Ok snapshot => (json_reply 200 (UpstreamConfigSnapshot_value snapshot), warm, g)
  | Err e => (upstream_config_error_response e, false, g)
  end.

Definition admin_get_upstreams (headers : HeaderMap) (g : Gateway) : HttpResponse :=
  match enforce_admin (admin_token app) headers with
  | Some resp => resp
  | None =>
      match gw_upstream_config g with
      | None => admin_not_found_response
      | Some m => json_reply 200 (UpstreamConfigSnapshot_value (snapshot m))
      end
  end.

Definition admin_put_upstreams (headers : HeaderMap) (body : string) (g : Gateway) : HttpResponse * bool * Gateway :=
  match enforce_admin (admin_token app) headers with
  | Some resp => (resp, false, g)
  | None =>
      match gw_upstream_config g with
      | None => (admin_not_found_response, false, g)
      | Some m =>
          if negb (valid_utf8b body) then
            (http_error 400 "invalid_upstream_config" ("upstream config body must be UTF-8 JSON: " +:+ utf8_error_text body), false, g)
          else
            match parse_config_text body with
            | Err e => (upstream_config_error_response e, false, g)
            | Ok config => changed_config (replace m config (gw_disk g)) true g
            end
      end
  end.

Definition admin_patch_upstream (headers : HeaderMap) (name : string) (enabled : option bool) (g : Gateway) : HttpResponse * bool * Gateway :=
  match enforce_admin (admin_token app) headers with
  | Some resp => (resp, false, g)
  | None =>
      match gw_upstream_config g with
      | None => (admin_not_found_response, false, g)
      | Some m =>
          match enabled with
          | None => (http_error 400 "invalid_upstream_config" "PATCH /v1/admin/upstreams/{name} currently requires an enabled boolean", false, g)
          | Some enabled => changed_config (set_enabled m name enabled (gw_disk g)) enabled g
          end
      end
  end.

(** [at_] are the readings of the clock the view makes. *)
Definition admin_router_status (headers : HeaderMap) (at_ : nat -> nat -> Z * Z) (snap : UpstreamConfigSnapshot) (g : Gateway) : HttpResponse :=
  match enforce_admin (admin_token app) headers with
  | Some resp => resp
  | None =>
      match middleware app with
      | None => admin_not_found_response
      | Some mw => json_reply 200 (admin_snapshot_value mw (snap_config_digest snap) (snap_upstreams snap) (gw_router g) at_)
      end
  end.

Definition admin_revoke_keyset (headers : HeaderMap) (now : Z) (g : Gateway) : HttpResponse * Gateway :=
  match enforce_admin (admin_token app) headers with
  | Some resp => (resp, g)
  | None =>
      let '(res, store, w) := revoke_current_keyset svc now (gw_revocations g) (gw_disk g) in
      let g := {| gw_state := set_disk w (gw_state g); gw_replay := gw_replay g; gw_revocations := store;
                  gw_upstream_config := gw_upstream_config g; gw_router := gw_router g |} in
      (match res with
       | Ok statement => json_reply 200 {{ "api_version" ≔ Str "aci/1"; "revoked" ≔ RevocationStatement_value statement }}
       | Err e => internal_error_response e
       end, g)
  end.

Definition aci_revocations (g : Gateway) : HttpResponse :=
  json_reply 200 {{ "api_version" ≔ Str "aci/1";
                    "revocations" ≔ Arr (map RevocationStatement_value (list_statements (gw_revocations g))) }}.

(** ** Catalogs and status *)

Definition health : HttpResponse := json_reply 200 {{ "status" ≔ Str "ok" }}.

Definition root : HttpResponse :=
  json_reply 200 {{ "api_version" ≔ Str "aci/1"; "workload_id" ≔ Str (svc_workload_id svc);
                    "workload_keyset_digest" ≔ Str (svc_workload_keyset_digest svc) }}.

(** [answer] is what the backend says, [upstreams] what the router reads. *)
Definition models (headers : HeaderMap) (answer : result UpstreamError UpstreamResponse) (upstreams : list PublicUpstreamConfig) : HttpResponse :=
  match enforce_api (api_token app) headers with
  | Some resp => resp
  | None =>
      match middleware app with
      | Some mw => handle_catalog mw upstreams "/v1/models"
      | None => match answer with
                | Ok upstream => upstream_direct_response upstream "application/json"
                | Err e => upstream_proxy_error_response e
                end
      end
  end.

(** A catalog that only the middleware may have. *)
Definition sub_catalog (missing path : string) (headers : HeaderMap) (upstreams : list PublicUpstreamConfig) : HttpResponse :=
  match enforce_api (api_token app) headers with
  | Some resp => resp
  | None =>
      match middleware app with
      | None => http_error 404 "not_found" missing
      | Some mw => handle_catalog mw upstreams path
      end
  end.

Definition models_subpath (headers : HeaderMap) (rest : string) : list PublicUpstreamConfig -> HttpResponse :=
  sub_catalog "model sub-catalogs are not available in direct-upstream mode" ("/v1/models/" +:+ rest) headers.

Definition embeddings_models : HeaderMap -> list PublicUpstreamConfig -> HttpResponse :=
  sub_catalog "embedding model catalog is not available in direct-upstream mode" "/v1/embeddings/models".

Definition metrics (headers : HeaderMap) (rendered : result ServiceError MetricsSnapshot) : HttpResponse :=
  match enforce_api (api_token app) headers with
  | Some resp => resp
  | None =>
      match rendered with
      | Ok snapshot => {| hr_status := 200; hr_headers := insert_str_header "content-type" (ms_content_type snapshot) ∅; hr_body := Text (ms_text snapshot) |}
      | Err e => internal_error_response e
      end
  end.

Definition upstream_status (headers : HeaderMap) (upstreams : list PublicUpstreamConfig) (now : Z) (g : Gateway) : HttpResponse :=
  match enforce_api (api_token app) headers with
  | Some resp => resp
  | None =>
      let code := match middleware app with Some mw => backend_status_code mw upstreams (gw_router g) now | None => 3 end in
      {| hr_status := 200; hr_headers := {[ "content-type" := "text/plain; charset=utf-8" ]}; hr_body := Text (z_to_string code +:+ newline) |}
  end.

(** ** The headers of every response *)

Definition aci_headers_middleware (resp : HttpResponse) : HttpResponse :=
  let headers := <["x-aci-version" := "aci/1"]> (hr_headers resp) in
  let headers := insert_str_header "x-aci-identity" (svc_workload_id svc) headers in
  {| hr_status := hr_status resp; hr_headers := insert_str_header "x-aci-keyset-digest" (svc_workload_keyset_digest svc) headers;
     hr_body := hr_body resp |}.

(** ** The routes *)

(** What a request for the legacy report meets outside. *)
Record ReportEnv := { re_chutes : string -> result UpstreamError Value; re_get : Get; re_random : string; re_now : Z }.

(** One constructor per route and method, with what its handler reads on the way. *)
Inductive Request :=
| GetRoot
| GetHealth
| GetModels (headers : HeaderMap) (answer : result UpstreamError UpstreamResponse) (upstreams : list PublicUpstreamConfig)
| GetModelsRest (headers : HeaderMap) (rest : string) (upstreams : list PublicUpstreamConfig)
| GetEmbeddingsModels (headers : HeaderMap) (upstreams : list PublicUpstreamConfig)
| PostChatCompletions (headers : HeaderMap) (body : string) (a : Arrival)
| PostCompletions (headers : HeaderMap) (body : string) (a : Arrival)
| PostEmbeddings (headers : HeaderMap) (body : string) (a : Arrival)
| PostMessages (headers : HeaderMap) (body : string) (a : Arrival)
| PostResponses (headers : HeaderMap) (body : string) (a : Arrival)
| GetMetrics (headers : HeaderMap) (rendered : result ServiceError MetricsSnapshot)
| GetUpstreamStatus (headers : HeaderMap) (upstreams : list PublicUpstreamConfig) (now : Z)
| GetAdminUpstreams (headers : HeaderMap)
| PutAdminUpstreams (headers : HeaderMap) (body : string)
| PatchAdminUpstream (headers : HeaderMap) (name : string) (enabled : option bool)
| GetAdminRouter (headers : HeaderMap) (at_ : nat -> nat -> Z * Z) (snap : UpstreamConfigSnapshot)
| PostRevokeKeyset (headers : HeaderMap) (now : Z)
| GetAciAttestation (headers : HeaderMap) (q : AttestationQuery) (now : Z)
| GetAciReceipt (headers : HeaderMap) (id : string) (l : Lookups)
| GetAciSessions (upstream_name : option string) (names : option (list string)) (seen : nat -> S * Z)
| GetAciSession (id : string) (now : Z)
| GetAciRevocations
| GetReport (headers : HeaderMap) (q : AttestationQuery) (e : ReportEnv)
| GetSignature (headers : HeaderMap) (id : string) (signing_algo : option string) (l : Lookups).

Section Serve.
Context (clocks : nat -> WallClock) (clock : WallClock) (sleep : list bool).
Context (pauses : list (result UpstreamError string) -> list (option (result UpstreamError string))).
Context (float_to_string : spec_float -> string).

(** The handler of each route; the guard of a streaming completion is handed on. *)
Definition route (req : Request) (g : Gateway) : HttpResponse * option RouteInFlight * Gateway :=
  let reads resp := (resp, None, g) in
  let changes r := let '(resp, _, g) := r in (resp, None, g) in
  match req with
  | GetRoot => reads root
  | GetHealth => reads health
  | GetModels headers answer upstreams => reads (models headers answer upstreams)
  | GetModelsRest headers rest upstreams => reads (models_subpath headers rest upstreams)
  | GetEmbeddingsModels headers upstreams => reads (embeddings_models headers upstreams)
  | PostChatCompletions headers body a => chat_completions app clocks clock sleep pauses float_to_string headers body a g
  | PostCompletions headers body a => completions app clocks clock sleep pauses float_to_string headers body a g
  | PostEmbeddings headers body a => embeddings app clocks clock sleep pauses float_to_string headers body a g
  | PostMessages headers body a => messages app clocks clock sleep pauses float_to_string headers body a g
  | PostResponses headers body a => responses app clocks clock sleep pauses float_to_string headers body a g
  | GetMetrics headers rendered => reads (metrics headers rendered)
  | GetUpstreamStatus headers upstreams now => reads (upstream_status headers upstreams now g)
  | GetAdminUpstreams headers => reads (admin_get_upstreams headers g)
  | PutAdminUpstreams headers body => changes (admin_put_upstreams headers body g)
  | PatchAdminUpstream headers name enabled => changes (admin_patch_upstream headers name enabled g)
  | GetAdminRouter headers at_ snap => reads (admin_router_status headers at_ snap g)
  | PostRevokeKeyset headers now => let '(resp, g) := admin_revoke_keyset headers now g in (resp, None, g)
  | GetAciAttestation headers q now => reads (aci_attestation_report svc (gw_revocations g) now headers q)
  | GetAciReceipt headers id l =>
      let '(resp, r) := aci_receipt headers id l (receipts (shared (gw_state g))) in (resp, None, set_receipts r g)
  | GetAciSessions upstream_name names seen => reads (aci_list_sessions upstream_name names seen)
  | GetAciSession id now =>
      let '(resp, s) := attested_session id now (sessions (shared (gw_state g))) in (resp, None, set_sessions s g)
  | GetAciRevocations => reads (aci_revocations g)
  | GetReport headers q e =>
      reads (legacy_attestation_handler svc (gw_upstream_config g) (re_chutes e) upstream_proxy_error_response (re_get e) (re_random e)
               (re_now e) headers q)
  | GetSignature headers id signing_algo l =>
      let '(resp, r) := receipt_by_chat_id headers id signing_algo l (receipts (shared (gw_state g))) in (resp, None, set_receipts r g)
  end.

(** The whole app: the handler, then the headers of every response. *)
Definition serve (req : Request) (g : Gateway) : HttpResponse * option RouteInFlight * Gateway :=
  let '(resp, guard, g) := route req g in (aci_headers_middleware resp, guard, g).

(** The bearer's part of a request. *)
Definition admin_headers (req : Request) : HeaderMap :=
  match req with PutAdminUpstreams h _ | PatchAdminUpstream h _ _ | PostRevokeKeyset h _ => h | _ => [] end.

Lemma enforce_admin_None headers : enforce_admin (admin_token app) headers = None ->
  exists token, admin_token app = Some token /\ extract_bearer headers = Some token.
Proof. unfold enforce_admin. destruct (admin_token app) as [t|]; [|done]. intros ?%token_guard_None. eauto. Qed.

Lemma endpoint_frame headers body path forced a (g : Gateway) :
  let g' := (openai_completion_endpoint app clocks clock sleep pauses float_to_string headers body path forced a g).2 in
  gw_revocations g' = gw_revocations g /\ gw_upstream_config g' = gw_upstream_config g.
Proof.
  unfold openai_completion_endpoint, dispatch. destruct (check_request _ _ _ _ _ _) as [[ad|r] cache]; [|done].
  destruct (middleware app); [by destruct (handle_completion _ _ _ _ _ _ _ _ _ _ _) as [[[??]?]?]|by destruct (forward_to_backend _ _ _ _)].
Qed.

Lemma changed_config_revocations r warm (g : Gateway) : gw_revocations (changed_config r warm g).2 = gw_revocations g.
Proof. unfold changed_config. destruct r as [[[] ?] ?]; done. Qed.

(** What a request changes of the revocations and the configuration. *)
Lemma serve_frame req (g : Gateway) :
  (gw_revocations (serve req g).2 = gw_revocations g /\ gw_upstream_config (serve req g).2 = gw_upstream_config g)
  \/ enforce_admin (admin_token app) (admin_headers req) = None.
Proof.
  assert (Hs : (serve req g).2 = (route req g).2) by (unfold serve; by destruct (route req g) as [[??]?]). rewrite Hs. clear Hs.
  destruct req; cbn [route snd admin_headers]; try (left; split; reflexivity); try (left; apply endpoint_frame).
  - left. unfold responses. destruct (has_e2ee_headers headers); [done|]. apply endpoint_frame.
  - unfold admin_put_upstreams. destruct (enforce_admin _ _); auto.
  - unfold admin_patch_upstream. destruct (enforce_admin _ _); auto.
  - unfold admin_revoke_keyset. destruct (enforce_admin _ _); auto.
  - left. by destruct (aci_receipt _ _ _ _).
  - left. by destruct (attested_session _ _ _).
  - left. by destruct (receipt_by_chat_id _ _ _ _ _).
Qed.

(** C11: The administrator's powers are the administrator's: whatever the request, the
    revocations and the upstream configuration stay as they are unless it carries the
    admin token; with no admin token configured they never change. *)
Theorem admin_guarded req (g : Gateway) :
  gw_revocations (serve req g).2 <> gw_revocations g \/ gw_upstream_config (serve req g).2 <> gw_upstream_config g ->
  exists token, admin_token app = Some token /\ extract_bearer (admin_headers req) = Some token.
Proof.
  intros Hch. apply enforce_admin_None. destruct (serve_frame req g) as [[Hr Hc]|He]; [|done]. by destruct Hch.
Qed.

(** ** Revocation *)

Abbreviation revoked g := (is_keyset_revoked svc (gw_revocations g) = true).

Lemma is_revoked_record store st w d : is_revoked store d = true -> is_revoked (record store st w).1.2 d = true.
Proof.
  unfold record. destruct (existsb _ _); [done|]. intros Hd. destruct (persist _ _ _) as [r w']. cbn. unfold is_revoked in *. cbn.
  rewrite existsb_app. by rewrite Hd.
Qed.

Lemma record_is_revoked store st w : is_revoked (record store st w).1.2 (rv_workload_keyset_digest st) = true.
Proof.
  unfold record. destruct (existsb _ _) eqn:E; [exact E|]. destruct (persist _ _ _) as [r w']. cbn. unfold is_revoked. cbn.
  rewrite existsb_app. cbn. rewrite String.eqb_refl. by rewrite orb_true_r.
Qed.

Lemma revoke_keeps headers now (g : Gateway) : revoked g -> revoked (admin_revoke_keyset headers now g).2.
Proof.
  unfold admin_revoke_keyset, revoke_current_keyset. destruct (enforce_admin _ _); [done|]. intros Hr.
  destruct (keyset_revocation_payload _) as [payload|]; [|done]. destruct (sign_keyset_revocation payload) as [sig|]; [|done].
  set (st := RevocationStatement_new _ _ _ _ _). pose proof (is_revoked_record (gw_revocations g) st (gw_disk g) _ Hr) as Hk.
  by destruct (record _ _ _) as [[res store] w].
Qed.

Lemma revoke_revokes headers now (g : Gateway) : hr_status (admin_revoke_keyset headers now g).1 = 200 -> revoked (admin_revoke_keyset headers now g).2.
Proof.
  assert (He : forall status ty m, status <> 200 -> hr_status (http_error status ty m) <> 200).
  { intros status ty m Hs. unfold http_error, json_reply. by destruct (to_vec _). }
  unfold admin_revoke_keyset, revoke_current_keyset. destruct (enforce_admin _ _) as [r|] eqn:Ea; cbn [fst snd].
  { intros Hr. exfalso. unfold enforce_admin, token_guard in Ea. destruct (admin_token app) as [t|].
    - destruct (extract_bearer headers) as [t'|]; [destruct (String.eqb t' t); [done|]|]; injection Ea as <-; by apply He in Hr.
    - injection Ea as <-. by apply He in Hr. }
  destruct (keyset_revocation_payload _) as [payload|]; [|intros Hr; by apply He in Hr].
  destruct (sign_keyset_revocation payload) as [sig|]; [|intros Hr; by apply He in Hr].
  set (st := RevocationStatement_new _ _ _ _ _). pose proof (record_is_revoked (gw_revocations g) st (gw_disk g)) as Hk.
  by destruct (record _ _ _) as [[res store] w].
Qed.

(** ** Requests in flight

    A completion is checked when it arrives, without giving way to other tasks, and
    then waits, for its verifier and its upstream: what is in flight is past the
    checks.  While it waits other requests arrive and are served. *)

Record InFlight := { if_headers : HeaderMap; if_path : string; if_forced : bool; if_arrival : Arrival; if_accepted : Accepted }.

Definition completion_of (req : Request) : option (HeaderMap * string * string * bool * Arrival) :=
  match req with
  | PostChatCompletions h body a => Some (h, body, CHAT_COMPLETIONS_PATH, false, a)
  | PostCompletions h body a => Some (h, body, COMPLETIONS_PATH, false, a)
  | PostEmbeddings h body a => Some (h, body, EMBEDDINGS_PATH, true, a)
  | PostMessages h body a => Some (h, body, MESSAGES_PATH, false, a)
  | PostResponses h body a => if has_e2ee_headers h then None else Some (h, body, RESPONSES_PATH, false, a)
  | _ => None
  end.

Record Site := { site_gateway : Gateway; in_flight : list InFlight }.

(** A completion that arrives: refused, or in flight. *)
Definition arrive (h : HeaderMap) (body path : string) (forced : bool) (a : Arrival) (s : Site) : Site :=
  let '(checked, cache) := check_request app h body path a (site_gateway s) in
  {| site_gateway := set_replay cache (site_gateway s);
     in_flight := match checked with
                  | Err _ => in_flight s
                  | Ok ad => in_flight s ++ [{| if_headers := h; if_path := path; if_forced := forced; if_arrival := a; if_accepted := ad |}]
                  end |}.

Definition proceed (x : InFlight) (g : Gateway) : Gateway :=
  (dispatch app clocks clock sleep pauses float_to_string (if_headers x) (if_path x) (if_forced x) (if_arrival x) (if_accepted x) g).2.

(** A completion arrives; one that is in flight goes on; another request is served; or
    a body is read, a background task runs, and time passes, which can change anything
    but the revocations and what was done for requests: only a request in flight sends
    requests upstream, and only the administrator revokes. *)
Inductive site_step : Site -> Site -> Prop :=
| step_arrive req h body path forced a s :
    completion_of req = Some (h, body, path, forced, a) -> site_step s (arrive h body path forced a s)
| step_proceed before x after g :
    site_step {| site_gateway := g; in_flight := before ++ x :: after |} {| site_gateway := proceed x g; in_flight := before ++ after |}
| step_request req s :
    completion_of req = None -> site_step s {| site_gateway := (serve req (site_gateway s)).2; in_flight := in_flight s |}
| step_background s g' :
    trace (gw_state g') = trace (gw_state (site_gateway s)) -> gw_revocations g' = gw_revocations (site_gateway s) ->
    site_step s {| site_gateway := g'; in_flight := in_flight s |}.

(** A request that is served without a pause is one that arrives and goes on. *)
Lemma served_at_once req h body path forced a g l : completion_of req = Some (h, body, path, forced, a) ->
  rtc site_step {| site_gateway := g; in_flight := l |} {| site_gateway := (serve req g).2; in_flight := l |}.
Proof.
  intros Hc. eapply rtc_l; [by eapply step_arrive|].
  assert (Hr : (serve req g).2 = (openai_completion_endpoint app clocks clock sleep pauses float_to_string h body path forced a g).2).
  { assert (Hs : (serve req g).2 = (route req g).2) by (unfold serve; by destruct (route req g) as [[??]?]). rewrite Hs.
    destruct req; try done; cbn [completion_of] in Hc; [by injection Hc as <- <- <- <- <-..|].
    cbn [route]. unfold responses. destruct (has_e2ee_headers headers); [done|]. by injection Hc as <- <- <- <- <-. }
  rewrite Hr. unfold arrive, openai_completion_endpoint. cbn [site_gateway in_flight].
  destruct (check_request _ _ _ _ _ _) as [[ad|r] cache]; [|apply rtc_refl].
  apply rtc_once.
  pose proof (step_proceed l {| if_headers := h; if_path := path; if_forced := forced; if_arrival := a; if_accepted := ad |} [] (set_replay cache g)) as Hp.
  rewrite app_nil_r in Hp. exact Hp.
Qed.

(** The requests that keep the revocations and send nothing. *)
Lemma other_request_frame req g : completion_of req = None ->
  (is_keyset_revoked svc (gw_revocations g) = true -> is_keyset_revoked svc (gw_revocations (serve req g).2) = true)
  /\ trace (gw_state (serve req g).2) = trace (gw_state g).
Proof.
  assert (Hs : (serve req g).2 = (route req g).2) by (unfold serve; by destruct (route req g) as [[??]?]). rewrite Hs. clear Hs. intros Hc.
  assert (Hcfg : forall r warm, (is_keyset_revoked svc (gw_revocations g) = true -> is_keyset_revoked svc (gw_revocations (changed_config r warm g).2) = true)
    /\ trace (gw_state (changed_config r warm g).2) = trace (gw_state g)).
  { intros r warm. rewrite changed_config_revocations. split; [done|]. unfold changed_config. by destruct r as [[[] ?] ?]. }
  destruct req; cbn [route snd]; try done.
  - cbn [completion_of] in Hc. unfold responses. by destruct (has_e2ee_headers headers).
  - unfold admin_put_upstreams. destruct (enforce_admin _ _); [done|]. destruct (gw_upstream_config g) as [m|]; [|done].
    destruct (negb _); [done|]. destruct (parse_config_text body) as [c|]; [|done].
    specialize (Hcfg (replace m c (gw_disk g)) true). by destruct (changed_config _ _ _) as [[??]?].
  - unfold admin_patch_upstream. destruct (enforce_admin _ _); [done|]. destruct (gw_upstream_config g) as [m|]; [|done].
    destruct enabled as [b|]; [|done]. specialize (Hcfg (set_enabled m name b (gw_disk g)) b). by destruct (changed_config _ _ _) as [[??]?].
  - pose proof (revoke_keeps headers now g) as Hk. split.
    + intros Hr. specialize (Hk Hr). by destruct (admin_revoke_keyset headers now g).
    + unfold admin_revoke_keyset. destruct (enforce_admin _ _); [done|]. by destruct (revoke_current_keyset _ _ _ _) as [[??]?].
  - by destruct (aci_receipt _ _ _ _).
  - by destruct (attested_session _ _ _).
  - by destruct (receipt_by_chat_id _ _ _ _ _).
Qed.

Lemma revoked_check h body path a (g : Gateway) : revoked g ->
  exists resp, check_request app h body path a g = (Err resp, gw_replay g)
    /\ (resp = keyset_revoked_response \/ enforce_api (api_token app) h = Some resp).
Proof. intros Hr. unfold check_request. destruct (enforce_api _ _) as [r|]; [by eauto|]. rewrite Hr. eauto. Qed.

(** What was done by requests in flight, each going on once. *)
Definition done_by (sent : list InFlight) (actss : list (list Action)) : Prop :=
  Forall2 (fun x acts => exists g, performed (gw_state g) (gw_state (proceed x g)) acts) sent actss.

(** One step of a revoked gateway: it stays revoked, nothing is admitted, and what is
    sent is sent by a request that was in flight and is no longer. *)
Lemma revoked_step s s' : site_step s s' -> revoked (site_gateway s) ->
  revoked (site_gateway s')
  /\ exists sent actss, in_flight s ≡ₚ sent ++ in_flight s' /\ done_by sent actss
       /\ trace (gw_state (site_gateway s')) = trace (gw_state (site_gateway s)) ++ concat actss.
Proof.
  assert (Hnone : forall (l : list InFlight) (t t' : list Action), t' = t ->
    exists sent actss, l ≡ₚ sent ++ l /\ done_by sent actss /\ t' = t ++ concat actss).
  { intros l t t' ->. exists [], []. split; [done|]. split; [constructor|]. cbn. by rewrite app_nil_r. }
  intros [req h body path forced a s0 Hc|before x after g|req s0 Hc|s0 g' Ht Hv] Hr; cbn [site_gateway in_flight].
  - unfold arrive. destruct (revoked_check h body path a (site_gateway s0) Hr) as (resp & -> & _). cbn [site_gateway in_flight].
    split; [exact Hr|]. by apply Hnone.
  - destruct (dispatch_frame app clocks clock sleep pauses float_to_string (if_headers x) (if_path x) (if_forced x) (if_arrival x) (if_accepted x) g)
      as [Hv (acts & Hp)]. fold (proceed x g) in Hv, Hp. cbn [site_gateway] in Hr. rewrite Hv. split; [done|].
    exists [x], [acts]. split; [by rewrite <- Permutation_middle|]. split; [constructor; [by exists g|constructor]|]. cbn. by rewrite app_nil_r.
  - destruct (other_request_frame req (site_gateway s0) Hc) as [Hk Ht]. split; [auto|by apply Hnone].
  - rewrite Hv. split; [done|by apply Hnone].
Qed.


(** The legacy report does not look at the revocations: what it answered before the
    keyset was revoked it answers after. *)
Theorem legacy_report_outlives_revocation headers now (g0 : Gateway) h q e :
  (route (GetReport h q e) (admin_revoke_keyset headers now g0).2).1 = (route (GetReport h q e) g0).1.
Proof.
  unfold admin_revoke_keyset. destruct (enforce_admin _ _); [done|]. by destruct (revoke_current_keyset _ _ _ _) as [[??]?].
Qed.

(** ** Identity *)

(** Every response says whose it is: whatever the request, and whatever headers an
    upstream sent, the response carries the ACI version, and the workload id and keyset
    digest of this service, unless these cannot be written as header values. *)
Theorem responses_identified req (g : Gateway) `{!HttpLaws} :
  let headers := hr_headers (serve req g).1.1 in
  headers !! "x-aci-version" = Some "aci/1"
  /\ (header_value (svc_workload_id svc) <> None -> headers !! "x-aci-identity" = Some (svc_workload_id svc))
  /\ (header_value (svc_workload_keyset_digest svc) <> None -> headers !! "x-aci-keyset-digest" = Some (svc_workload_keyset_digest svc)).
Proof.
  unfold serve. destruct (route req g) as [[resp guard] g']. cbn [fst hr_headers aci_headers_middleware].
  assert (Hi : forall name value h, header_value value <> None -> insert_str_header name value h !! name = Some value).
  { intros name value h Hv. unfold insert_str_header. destruct (header_value value) as [v|] eqn:Ev; [|done].
    apply header_value_text in Ev as ->. by rewrite lookup_insert_eq. }
  split; [by rewrite !insert_str_header_ne, lookup_insert_eq by done|]. split; intros Hv.
  - rewrite insert_str_header_ne by done. by apply Hi.
  - by apply Hi.
Qed.
End Serve.
End Gateway.

(** ** A concrete gateway *)

Module DemoGateway.
Import DemoForward DemoCompletion DemoAccess DemoReports DemoRouter DemoEndpoint.
#[export] Existing Instances demo_debug Upstream.demo_http demo_transport demo_build demo_config_codec Revocation.demo_codec.
#[export] Instance demo_texts : HandlerText := {| issue_text _ := "issue"; utf8_error_text _ := "utf-8" |}.

Definition admin : HeaderMap := [("authorization", "Bearer root")].
Definition app : AppState StaticUpstreamVerifier := app_with (Some DemoRouter.config).
Definition pauses : list (result UpstreamError string) -> list (option (result UpstreamError string)) := map (fun c => Some c).

Abbreviation demo_serve := (serve app (fun _ => demo_clock) demo_clock [] pauses (fun _ => "0.5")).
Abbreviation demo_revoke := (admin_revoke_keyset app admin 7 gateway).

Example revoked_answers :
  hr_status demo_revoke.1 = 200
  /\ hr_status (demo_serve (PostChatCompletions alice body arrival) demo_revoke.2).1.1 = 503
  /\ hr_status (demo_serve (PostChatCompletions alice body arrival) gateway).1.1 = 200.
Proof. split_and!; vm_compute; reflexivity. Qed.

Lemma admin_guarded_witness :
  exists token, admin_token app = Some token /\ extract_bearer (admin_headers (S := InMemorySessionStore) (PostRevokeKeyset admin 7)) = Some token.
Proof.
  apply (admin_guarded app (fun _ => demo_clock) demo_clock [] pauses (fun _ => "0.5") (PostRevokeKeyset admin 7) gateway).
  left. intros E. apply (f_equal (fun s => length (statements s))) in E. revert E. vm_compute. discriminate.
Defined.

(** One request was in flight when the keyset was revoked; another arrives afterwards. *)
Definition waiting : InFlight := {|
  if_headers := alice; if_path := CHAT_COMPLETIONS_PATH; if_forced := false; if_arrival := arrival;
  if_accepted := {| ad_body := body; ad_e2ee := None; ad_parsed := Null; ad_forwarded := None; ad_required := true |} |}.


(** The legacy report of a revoked keyset; with a key of the legacy suite. *)
#[local] Instance legacy_keys : E2eeKeys := {|
  e2ee_keys := [{| key_id := "legacy-1"; algo := E2EE_ALGO_LEGACY_ED25519; public_key_hex := demo_hex (zeros 32) |}];
  decrypt_e2ee key_id ct aad := Ok ct;
  decrypt_legacy_e2ee algo ct aad := Err (UnsupportedAlgo algo);
  tls_spkis := [];
  sign_legacy_message algo text := Err (UnsupportedAlgo algo);
  key_custody_evidence := Null;
  is_test_only := false |}.

Example legacy_report_served :
  hr_status (demo_serve (GetReport [] {| q_nonce := Some "n"; q_signing_algo := Some "ed25519"; q_model := None; q_version := None |}
    {| re_chutes _ := Err no_upstreams; re_get := nothing; re_random := zeros 32; re_now := 9 |}) demo_revoke.2).1.1 = 200.
Proof. vm_compute. reflexivity. Qed.
End DemoGateway.
