(* ===== verification/Maintenance.v ===== *)
(** * Background maintenance

    Model of the tasks that [src/main.rs] spawns and of the part of
    [src/aggregator/upstream_config/mod.rs] they run: the verification of every
    configured channel at boot and again on a cadence, which fills the session
    store before any traffic, and the refresh of the Chutes nonce pools; also the
    backend that follows the configuration
    ([src/aggregator/upstream_config/dynamic.rs]). *)
From S2P Require Import Prelude StrOps Json Serde Canonical Identity Fs Revocation Receipt Expiry ReceiptStore Session SessionStore.
From S2P Require Import Upstream UpstreamConfig AciVerifier Chutes UpstreamManager Verifiers Claims E2ee E2eeFields ChutesE2ee Service Forward.
Import Types.

(** ** The backend in force *)

Definition DynamicUpstreamBackend `{SerdeJson} `{HttpClient} `{StrDebug} `{Digest} `{ChutesTransport} (st : ConfiguredUpstreams) : UpstreamBackend :=
  let backend := current_backend st in {|
  be_name := "dynamic-upstream-config";
  be_url_origin := None;
  be_forward := be_forward backend;
  be_forward_verified_prepared := be_forward_verified_prepared backend;
  be_forward_stream := be_forward_stream backend;
  be_forward_stream_verified_prepared := be_forward_stream_verified_prepared backend;
  be_models := be_models backend;
  be_chutes_attestation_report := be_chutes_attestation_report backend |}.

(** ** Verification of the configured channels *)

Record UpstreamPrewarmResult := {
  pw_upstream_name : string;
  pw_model_id : string;
  pw_url_origin : option string;
  pw_verifier_id : string;
  pw_result : string;
  pw_reason : option string;
}.

Record UpstreamSessionRefreshResult := {
  sr_upstream_name : string;
  sr_model_id : string;
  sr_result : string;
  refreshed_nonces : Z;
  sr_reason : option string;
}.

Definition probe_request `{Digest} (name model : string) (origin : option string) : UpstreamVerificationRequest :=
  {| vr_upstream_name := name; vr_url_origin := origin; vr_model_id := model; forwarded_body_hash := sha256_hex ""; vr_required := true |}.

Definition target_request `{Digest} (t : UpstreamVerificationTarget) : UpstreamVerificationRequest :=
  probe_request (t_upstream_name t) (t_model_id t) (t_url_origin t).

Definition prewarm_result (t : UpstreamVerificationTarget) (event : UpstreamVerifiedEvent) : UpstreamPrewarmResult :=
  {| pw_upstream_name := t_upstream_name t; pw_model_id := t_model_id t; pw_url_origin := t_url_origin t;
     pw_verifier_id := verifier_id event; pw_result := VerificationResult_as_str (uv_result event); pw_reason := reason event |}.

Section Verification.
Context `{Digest} `{Crypto} `{CurveLibs} `{SerdeJson} `{KeyProvider}.
Context {V S Env : Type} `{SessionStoreOps S} `{!Outside (Shared S Env Rng)}.
(** The verifier of a configuration, given by what it was built from. *)
Context {VF : Type} `{UpstreamVerifier VF (Shared S Env Rng)} (verifier_of : BuiltVerifier -> VF).

(** The sink is the service, once it was attached. *)
Definition sink_event (sink : option (AciService V)) (event : UpstreamVerifiedEvent) (sh : Shared S Env Rng) : Shared S Env Rng :=
  match sink with
  | None => sh
  | Some svc => shared (record_session svc event {| shared := sh; trace := [] |})
  end.

Definition ask (refresh : bool) (v : VF) (request : UpstreamVerificationRequest) (sh : Shared S Env Rng) :
    UpstreamVerifiedEvent * Shared S Env Rng :=
  if refresh then ver_refresh v request sh else ver_verify v request sh.

Fixpoint verify_targets (refresh : bool) (v : VF) (sink : option (AciService V)) (targets : list UpstreamVerificationTarget)
    (sh : Shared S Env Rng) : list UpstreamPrewarmResult * Shared S Env Rng :=
  match targets with
  | [] => ([], sh)
  | t :: targets =>
      let '(event, sh) := ask refresh v (target_request t) sh in
      let sh := sink_event sink event sh in
      let '(results, sh) := verify_targets refresh v sink targets sh in
      (prewarm_result t event :: results, sh)
  end.

Definition round_targets (m : UpstreamConfigManager) (refresh : bool) : list UpstreamVerificationTarget :=
  if refresh then verification_targets_for_refresh (cu_config (m_state m)) (m_options m)
  else verification_targets (cu_config (m_state m)).

Definition run_upstream_verification (m : UpstreamConfigManager) (sink : option (AciService V)) (refresh : bool)
    (sh : Shared S Env Rng) : list UpstreamPrewarmResult * Shared S Env Rng :=
  match cu_verifier (m_state m) with
  | None => ([], sh)
  | Some built => verify_targets refresh (verifier_of built) sink (round_targets m refresh) sh
  end.

Definition prewarm_upstream_verification (m : UpstreamConfigManager) (sink : option (AciService V)) :=
  run_upstream_verification m sink false.

Definition refresh_upstream_verification (m : UpstreamConfigManager) (sink : option (AciService V)) :=
  run_upstream_verification m sink true.

(** One turn of the spawned loop: the seconds it sleeps, then what it does, with
    the configuration in force before and after its sleep. *)
Definition verification_sleep (m : UpstreamConfigManager) : Z := default 5 (verification_refresh_interval_seconds m).

Definition verification_turn (before after : UpstreamConfigManager) (sink : option (AciService V)) (sh : Shared S Env Rng) :
    list UpstreamPrewarmResult * Shared S Env Rng :=
  match verification_refresh_interval_seconds before with
  | None => ([], sh)
  | Some _ => refresh_upstream_verification after sink sh
  end.
End Verification.

(** ** Refresh of provider sessions *)

(** The texts of errors. *)
Class MaintenanceText : Type := {
  refresh_error_text : UpstreamError -> string;
  build_error_text : UpstreamConfigError -> string;
}.

(** What other tasks do while the sessions of a model are refreshed, and the clock
    when the answer is recorded. *)
Record Pace := { pace_schedule : Schedule; pace_recorded : Z }.

Section Sessions.
Context `{Digest} `{Base64} `{Base64Error} `{Crypto} `{SerdeJson} `{StrDebug} `{ChutesLibs} `{ChutesCodec} `{HttpClient}.
Context `{MaintenanceText}.
Context {VF St : Type} `{UpstreamVerifier VF St} (verifier_of : BuiltVerifier -> VF).

(** The verifier's state, and the link of each Chutes upstream by its name. *)
Record Upkeep := { up_state : St; up_links : string -> Link }.

Definition set_link (u : Upkeep) (name_ : string) (st : St) (l : Link) : Upkeep :=
  {| up_state := st; up_links := fun n => if String.eqb n name_ then l else up_links u n |}.

Definition failed_refresh (cfg : UpstreamConfig) (model : string) (reason_ : option string) : UpstreamSessionRefreshResult :=
  {| sr_upstream_name := name cfg; sr_model_id := model; sr_result := "failed"; refreshed_nonces := 0; sr_reason := reason_ |}.

Definition refresh_model (v : VF) (b : ChutesProviderBackend) (pace : Pace) (cfg : UpstreamConfig) (model : string) (u : Upkeep) :
    UpstreamSessionRefreshResult * Upkeep :=
  let request := probe_request (name cfg) model (Some (OpenAI.trim_end_slashes (base_url cfg))) in
  let '(event, st) := ver_verify v request (up_state u) in
  match uv_result event with
  | Failed => (failed_refresh cfg model (reason event), {| up_state := st; up_links := up_links u |})
  | Verified =>
      let '(r, l) := refresh_verified_sessions_for_model b (pace_schedule pace) (pace_recorded pace) model event (up_links u (name cfg)) in
      match r with
      | Ok n => ({| sr_upstream_name := name cfg; sr_model_id := model; sr_result := "refreshed"; refreshed_nonces := n; sr_reason := None |},
                 set_link u (name cfg) st l)
      | Err (ChannelBindingMismatch _) =>
          let '(again, st) := ver_refresh v request st in
          (match uv_result again with
           | Verified => {| sr_upstream_name := name cfg; sr_model_id := model; sr_result := "refreshed_via_verifier";
                            refreshed_nonces := 0; sr_reason := None |}
           | Failed => failed_refresh cfg model (reason again)
           end, set_link u (name cfg) st l)
      | Err e => (failed_refresh cfg model (Some (refresh_error_text e)), set_link u (name cfg) st l)
      end
  end.

Fixpoint refresh_models (v : VF) (b : ChutesProviderBackend) (pace : string -> Pace) (cfg : UpstreamConfig) (models_ : list string) (u : Upkeep) :
    list UpstreamSessionRefreshResult * Upkeep :=
  match models_ with
  | [] => ([], u)
  | model :: models_ =>
      let '(r, u) := refresh_model v b (pace model) cfg model u in
      let '(rs, u) := refresh_models v b pace cfg models_ u in (r :: rs, u)
  end.

Definition refresh_config (v : VF) (options : UpstreamRuntimeOptions) (stores : ProviderSessionRegistry) (pace : string -> Pace)
    (cfg : UpstreamConfig) (u : Upkeep) : list UpstreamSessionRefreshResult * Upkeep :=
  match chutes_store stores cfg with
  | Err _ => ([], u)
  | Ok store =>
      match build_chutes_provider_backend cfg options store with
      | Err e => (map (fun model => failed_refresh cfg model (Some (build_error_text e))) (unique_upstream_models cfg), u)
      | Ok b => refresh_models v b pace cfg (unique_upstream_models cfg) u
      end
  end.

Fixpoint refresh_configs (v : VF) (options : UpstreamRuntimeOptions) (stores : ProviderSessionRegistry) (pace : string -> string -> Pace)
    (configs : list UpstreamConfig) (u : Upkeep) : list UpstreamSessionRefreshResult * Upkeep :=
  match configs with
  | [] => ([], u)
  | cfg :: configs =>
      let '(rs, u) := refresh_config v options stores (pace (name cfg)) cfg u in
      let '(rest, u) := refresh_configs v options stores pace configs u in (rs ++ rest, u)
  end.

(** The upstreams whose pools are refreshed. *)
Definition pooled_configs (config : list UpstreamConfig) : list UpstreamConfig :=
  filter (fun cfg => provider cfg = UpstreamConfig.Chutes /\ is_Some (session_refresh_seconds_of cfg)) (enabled_configs config).

Definition refresh_provider_sessions (m : UpstreamConfigManager) (pace : string -> string -> Pace) (u : Upkeep) :
    list UpstreamSessionRefreshResult * Upkeep :=
  match cu_verifier (m_state m) with
  | None => ([], u)
  | Some built => refresh_configs (verifier_of built) (m_options m) (cu_sessions (m_state m)) pace (pooled_configs (cu_config (m_state m))) u
  end.

Definition session_sleep (m : UpstreamConfigManager) : Z := default 5 (session_refresh_interval_seconds m).

Definition session_turn (before after : UpstreamConfigManager) (pace : string -> string -> Pace) (u : Upkeep) :
    list UpstreamSessionRefreshResult * Upkeep :=
  match session_refresh_interval_seconds before with
  | None => ([], u)
  | Some _ => refresh_provider_sessions after pace u
  end.
End Sessions.

(** ** A round reports every channel and fills the session store *)

(** A session store that is an index, kept in memory, whatever else it keeps: what
    both implementations of the trait are.  A put that fails leaves it as it was. *)
Class IndexedStore (S : Type) `{SessionStoreOps S} : Type := {
  store_index : S -> SessionIndex;
  put_index s session ts w : match store_put_session s session ts w with
    | (Ok _, s', _) => store_index s' = put_and_evict session ts (store_index s)
    | (Err _, s', _) => store_index s' = store_index s
    end;
  renew_index s id t now : let '(b, s') := store_renew_session s id t now in (b, store_index s') = renew id t now (store_index s);
  get_index s id now : (store_get_session s id now).1 = (index_get id now (store_index s)).1;
}.

#[export] Program Instance in_memory_indexed : IndexedStore InMemorySessionStore := {| store_index := mem_index |}.
Next Obligation. done. Qed.
Next Obligation. intros s id t now. cbn. unfold mem_renew_session. by destruct (renew _ _ _ _). Qed.
Next Obligation. intros s id now. cbn. unfold mem_get_session. by destruct (index_get _ _ _). Qed.

#[export] Program Instance jsonl_indexed `{LogCodec} : IndexedStore JsonlSessionStore := {| store_index := index |}.
Next Obligation.
  intros ? s session ts w. cbn. unfold put_session. destruct (u64_checked_add _ _); [|done].
  destruct (print_record _ _ _); [|done]. by destruct (fs_append _ _ _) as [[] ?].
Qed.
Next Obligation. intros ? s id t now. cbn. unfold renew_session. by destruct (renew _ _ _ _). Qed.
Next Obligation. intros ? s id now. cbn. unfold get_session. by destruct (index_get _ _ _). Qed.

(** Every id of [ids] is indexed under a deadline no earlier than [deadline]. *)
Record holds (deadline : Z) (ids : list string) (ix : SessionIndex) : Prop := {
  holds_wf : index_wf ix;
  holds_ids id : id ∈ ids -> exists s, by_id ix !! id = Some s /\ deadline <= s_expires_at s;
}.

Lemma holds_evict deadline ids now ix : now < deadline -> holds deadline ids ix -> holds deadline ids (index_evict_expired now ix).
Proof.
  intros Hnow [Hwf Hids]. destruct (index_evict_spec now ix Hwf) as [Hwf' Hev]. split; [done|]. intros id Hin.
  destruct (Hids id Hin) as (s & Hs & Hd). exists s. split; [|done]. rewrite Hev, Hs. destruct (Z.leb_spec (s_expires_at s) now); [lia|done].
Qed.

Lemma put_and_evict_wf now s ix : index_wf ix -> index_wf (put_and_evict s now ix).
Proof. intros Hwf. by apply index_evict_spec, index_insert_wf. Qed.

Lemma holds_put deadline ids now s ix : now < deadline -> deadline <= s_expires_at s -> holds deadline ids ix ->
  holds deadline (session_id s :: ids) (put_and_evict s now ix).
Proof.
  intros Hnow Hs [Hwf Hids]. apply holds_evict; [done|]. split; [by apply index_insert_wf|]. intros id Hin.
  rewrite index_insert_eq by done. cbn [by_id]. destruct (decide (id = session_id s)) as [->|Hne].
  - exists s. by rewrite lookup_insert_eq.
  - rewrite lookup_insert_ne by done. apply elem_of_cons in Hin as [->|Hin]; [done|auto].
Qed.

Lemma renew_wf now t id ix : index_wf ix -> index_wf (renew id t now ix).2.
Proof.
  intros Hwf. destruct (index_evict_spec now ix Hwf) as [Hwf1 _]. unfold renew. cbn zeta.
  destruct (by_id (index_evict_expired now ix) !! id) as [s|] eqn:E; cbn [snd]; [|done].
  destruct (Z.eqb_spec (s_expires_at s) t) as [Heq|Hne]; cbn [snd]; [done|].
  pose proof (rehint_wf _ id (with_expires_at s t) Hwf1 (ix_id _ Hwf1 _ _ E)) as Hr. by rewrite E in Hr.
Qed.

Lemma holds_renew deadline ids now t id ix : now < deadline -> deadline <= t -> holds deadline ids ix ->
  holds deadline (if (renew id t now ix).1 then id :: ids else ids) (renew id t now ix).2.
Proof.
  intros Hnow Ht Hh. pose proof (renew_wf now t id ix (holds_wf _ _ _ Hh)) as Hrwf.
  apply (holds_evict _ _ now) in Hh as [Hwf Hids]; [|done]. unfold renew in *. cbn zeta in *.
  set (ix1 := index_evict_expired now ix) in *. destruct (by_id ix1 !! id) as [s|] eqn:E; cbn [fst snd]; [|by split].
  destruct (Z.eqb_spec (s_expires_at s) t) as [Heq|Hne]; cbn [fst snd] in *; (split; [done|]).
  - intros x [->|Hx]%elem_of_cons; [|auto]. exists s. split; [done|lia].
  - intros x Hx. cbn [by_id index_drop_expiry_hint]. destruct (decide (x = id)) as [->|Hxid].
    + exists (with_expires_at s t). by rewrite lookup_insert_eq.
    + rewrite lookup_insert_ne by done. apply elem_of_cons in Hx as [->|Hx]; [done|auto].
Qed.

Lemma holds_weaken deadline ids ids' ix : (forall id, id ∈ ids' -> id ∈ ids) -> holds deadline ids ix -> holds deadline ids' ix.
Proof. intros Hsub [Hwf Hids]. split; [done|]. intros id Hin. by apply Hids, Hsub. Qed.

Section Rounds.
Context `{Digest} `{Crypto} `{CurveLibs} `{SerdeJson} `{KeyProvider}.
Context {V S Env : Type} `{IndexedStore S} `{!Outside (Shared S Env Rng)}.
Context {VF : Type} `{UpstreamVerifier VF (Shared S Env Rng)}.
(** The clock, as the world outside stands. *)
Context (clock : Env -> Z).

Abbreviation Sh := (Shared S Env Rng).
Abbreviation State := (State (S := S) (Env := Env)).
Abbreviation ix_of sh := (store_index (sessions sh)).

(** What the session store goes through at the hands of other tasks: they keep every
    session that has not expired. *)
Definition spared (sh sh' : Sh) : Prop :=
  (index_wf (ix_of sh) -> index_wf (ix_of sh'))
  /\ forall deadline ids, clock (env sh') < deadline -> holds deadline ids (ix_of sh) -> holds deadline ids (ix_of sh').

(** The clock does not run backwards, and while it is read and a channel is verified
    other tasks keep the sessions. *)
Record steady (v : VF) : Prop := {
  steady_read sh : clock (env sh) <= (now_secs sh).1 /\ clock (env (now_secs sh).2) = (now_secs sh).1 /\ spared sh (now_secs sh).2;
  steady_ask refresh request sh : clock (env sh) <= clock (env (ask refresh v request sh).2) /\ spared sh (ask refresh v request sh).2;
}.

(** The session of a binding can be sealed; its id does not depend on when. *)
Definition sealed_as (event : UpstreamVerifiedEvent) (binding : ChannelBinding) (id : string) : Prop :=
  forall now expires, exists session,
    seal (upstream_name event) (url_origin event) (verifier_id event) (identity_from_provider_claims (provider_claims event)) [binding]
      (claims_for_binding event binding) {| digest := digest (evidence_for_binding event binding); data_uri := None |} now expires = Ok session
    /\ session_id session = id.

Lemma seal_data name endpoint verifier_id_ identity_ bindings claims_ d data now expires session :
  seal name endpoint verifier_id_ identity_ bindings claims_ {| digest := d; data_uri := None |} now expires = Ok session ->
  exists session', seal name endpoint verifier_id_ identity_ bindings claims_ {| digest := d; data_uri := data |} now expires = Ok session'
    /\ session_id session' = session_id session /\ s_expires_at session' = expires.
Proof.
  unfold seal, content_id. cbn zeta. intros (id & Hid & [= <-])%result_bind_Ok. cbn [session_id].
  change (ContentMaterial_value _) with (ContentMaterial_value {| s_api_version := SESSION_API_VERSION; session_id := "";
    s_upstream_name := name; s_endpoint := endpoint; s_verifier_id := verifier_id_; established_at := now; s_expires_at := expires;
    identity := identity_; channel_binding := bindings; claims := claims_; s_evidence := {| digest := d; data_uri := data |} |}) in Hid.
  rewrite Hid. cbn. by eexists.
Qed.

Lemma seal_any_time name endpoint verifier_id_ identity_ bindings claims_ ev now expires session now' expires' :
  seal name endpoint verifier_id_ identity_ bindings claims_ ev now expires = Ok session ->
  exists session', seal name endpoint verifier_id_ identity_ bindings claims_ ev now' expires' = Ok session' /\ session_id session' = session_id session.
Proof.
  unfold seal, content_id. cbn zeta. intros (id & Hid & [= <-])%result_bind_Ok. cbn [session_id].
  change (ContentMaterial_value _) with (ContentMaterial_value {| s_api_version := SESSION_API_VERSION; session_id := "";
    s_upstream_name := name; s_endpoint := endpoint; s_verifier_id := verifier_id_; established_at := now'; s_expires_at := expires';
    identity := identity_; channel_binding := bindings; claims := claims_; s_evidence := ev |}) in Hid.
  rewrite Hid. cbn. by eexists.
Qed.

(** Why a recording may fail: the store refuses to write, or the session has no
    canonical form. *)
Definition excused (event : UpstreamVerifiedEvent) (e : ServiceError) : Prop :=
  (exists id io (st : S) session ts w st' w', e = ServiceSessionStore id io /\ store_put_session st session ts w = (Err io, st', w')
     /\ session_id session = id)
  \/ exists c binding now expires, e = ServiceCanonical c /\ binding ∈ channel_bindings event
     /\ seal (upstream_name event) (url_origin event) (verifier_id event) (identity_from_provider_claims (provider_claims event)) [binding]
          (claims_for_binding event binding) {| digest := digest (evidence_for_binding event binding); data_uri := None |} now expires = Err c.

(** Sealing never loses a session, and indexes the one it returns. *)
Lemma seal_attested_kept event binding now expires (s s' : State) r :
  binding ∈ channel_bindings event ->
  seal_attested_session event (identity_from_provider_claims (provider_claims event)) [binding] (claims_for_binding event binding)
    (evidence_for_binding event binding) now expires s = (r, s') ->
  env (shared s') = env (shared s) /\ (index_wf (ix_of (shared s)) -> index_wf (ix_of (shared s')))
  /\ match r with Ok id => sealed_as event binding id | Err e => excused event e end
  /\ forall deadline ids, now < deadline <= expires -> holds deadline ids (ix_of (shared s)) ->
       holds deadline (match r with Ok id => id :: ids | Err _ => ids end) (ix_of (shared s')).
Proof.
  intros Hin. unfold seal_attested_session. cbn zeta. unfold mbind at 1, svc_bind at 1, svc_lift at 1.
  destruct (seal _ _ _ _ _ _ {| digest := _; data_uri := None |} _ _) as [probe|c] eqn:Hprobe; cbn [map_err].
  2: { intros [= <- <-]. split; [done|]. split; [done|]. split; [|done]. right. eauto 8. }
  assert (Hsealed : sealed_as event binding (session_id probe)) by (intros n' e'; by eapply seal_any_time).
  unfold mbind at 1, svc_bind at 1. unfold renew_recorded.
  pose proof (renew_index (sessions (shared s)) (session_id probe) expires now) as Hren.
  destruct (store_renew_session (sessions (shared s)) (session_id probe) expires now) as [renewed st1].
  pose proof (fun d ids Ht Ht' => holds_renew d ids now expires (session_id probe) (ix_of (shared s)) Ht Ht') as Hr.
  pose proof (renew_wf now expires (session_id probe) (ix_of (shared s))) as Hrwf. rewrite <- Hren in Hr, Hrwf. cbn [fst snd] in Hr, Hrwf.
  destruct renewed.
  { intros [= <- <-]. cbn. split; [done|]. split; [done|]. split; [done|]. intros d ids Ht. apply Hr; lia. }
  unfold mbind, svc_bind, svc_lift. destruct (evidence_for_binding event binding) as [dg data]. cbn [digest] in Hprobe.
  destruct (seal_data _ _ _ _ _ _ _ data _ _ _ Hprobe) as (session & Hs & Hid & Hexp). rewrite Hs. cbn [map_err].
  unfold persist_session. cbn [shared sessions with_shared disk].
  pose proof (put_index st1 session now (disk (shared s))) as Hput.
  destruct (store_put_session st1 session now (disk (shared s))) as [[[q|io] st2] w2] eqn:Eput; intros [= <- <-]; cbn [shared sessions with_shared env];
    rewrite Hput; (split; [done|]).
  - split; [intros Hwf; by apply put_and_evict_wf, Hrwf|]. split; [done|]. intros d ids Ht Hh. rewrite <- Hid. apply holds_put; [lia|lia|].
    apply Hr; [lia|lia|done].
  - split; [done|]. split; [left; eauto 12|]. intros d ids Ht Hh. apply Hr; [lia|lia|done].
Qed.

Lemma seal_each_kept event now expires bindings (s s' : State) r :
  (forall b, b ∈ bindings -> b ∈ channel_bindings event) ->
  seal_each event (identity_from_provider_claims (provider_claims event)) now expires bindings s = (r, s') ->
  env (shared s') = env (shared s) /\ (index_wf (ix_of (shared s)) -> index_wf (ix_of (shared s')))
  /\ match r with Ok l => Forall2 (sealed_as event) bindings (map sealed_id l) | Err e => excused event e end
  /\ forall deadline ids, now < deadline <= expires -> holds deadline ids (ix_of (shared s)) ->
       holds deadline (match r with Ok l => map sealed_id l ++ ids | Err _ => ids end) (ix_of (shared s')).
Proof.
  revert s s' r. induction bindings as [|b bindings IH]; intros s s' r Hb; cbn [seal_each].
  { intros [= <- <-]. by split_and!. }
  unfold mbind at 1, svc_bind at 1.
  destruct (seal_attested_session _ _ [b] _ _ _ _ s) as [r1 s1] eqn:E1.
  destruct (seal_attested_kept event b now expires s s1 r1 (Hb b ltac:(left)) E1) as (Henv1 & Hwf1 & Hr1 & Hh1).
  destruct r1 as [id|e]; [|intros [= <- <-]; by split_and!].
  unfold mbind, svc_bind. destruct (seal_each _ _ _ _ bindings s1) as [r2 s2] eqn:E2.
  destruct (IH s1 s2 r2 ltac:(intros x Hx; apply Hb; by right) E2) as (Henv2 & Hwf2 & Hr2 & Hh2).
  destruct r2 as [l|e]; intros [= <- <-]; (split; [congruence|]); (split; [auto|]); (split; [by (done || constructor)|]); intros d ids Ht Hh.
  - specialize (Hh2 d _ Ht (Hh1 d _ Ht Hh)). eapply holds_weaken; [|exact Hh2]. intros x. cbn [map sealed_id].
    rewrite !elem_of_app, !elem_of_cons. tauto.
  - eapply holds_weaken; [|exact (Hh2 d _ Ht (Hh1 d _ Ht Hh))]. intros x Hx. by right.
Qed.

(** What a sink does with an event: every session it says it recorded is there. *)
Lemma record_kept (svc : AciService V) v event (sh : Sh) r s' :
  steady v -> record_attested_upstream_session svc event {| shared := sh; trace := [] |} = (r, s') ->
  clock (env sh) <= clock (env (shared s')) /\ (index_wf (ix_of sh) -> index_wf (ix_of (shared s')))
  /\ match r with
     | Ok l => uv_result event = Verified -> Forall2 (sealed_as event) (channel_bindings event) (map sealed_id l)
     | Err e => excused event e
     end
  /\ forall deadline ids, clock (env (shared s')) < deadline <= u64_saturating_add (clock (env sh)) (receipt_ttl_seconds (config svc)) ->
       holds deadline ids (ix_of sh) -> holds deadline (match r with Ok l => map sealed_id l ++ ids | Err _ => ids end) (ix_of (shared s')).
Proof.
  intros Hc. unfold record_attested_upstream_session. destruct (uv_result event); [|intros [= <- <-]; by split_and!].
  unfold mbind, svc_bind, read_clock. cbn [shared]. destruct (steady_read _ Hc sh) as (Hle & Hnow & Hwf & Hsp).
  destruct (now_secs sh) as [now sh1]. cbn [fst snd] in *. intros Hseal.
  destruct (seal_each_kept event now _ (channel_bindings event) _ _ _ ltac:(done) Hseal) as (Henv & Hwf1 & Hr & Hh).
  cbn [shared with_shared] in *. rewrite Henv, Hnow. split; [done|]. split; [by auto|]. split; [by destruct r|].
  intros d ids [Hlo Hhi] Hold. apply Hh; [split; [done|]; etrans; [exact Hhi|]; unfold u64_saturating_add; lia|]. apply Hsp; [lia|done].
Qed.

(** The recordings of a round: what the sink was told of each answer. *)
Definition recorded (svc : AciService V) (event : UpstreamVerifiedEvent) (r : result ServiceError (list SealedSession)) : Prop :=
  exists sh1 : Sh, r = (record_attested_upstream_session svc event {| shared := sh1; trace := [] |}).1.

Definition sessions_of (r : result ServiceError (list SealedSession)) : list string :=
  match r with Ok l => map sealed_id l | Err _ => [] end.

Lemma verify_targets_fill refresh v (svc : AciService V) targets ids (sh : Sh) : steady v ->
  exists events recs, Forall2 (fun t e => exists sh1, e = (ask refresh v (target_request t) sh1).1) targets events
    /\ (verify_targets refresh v (Some svc) targets sh).1 = zip_with prewarm_result targets events
    /\ Forall2 (recorded svc) events recs
    /\ Forall2 (fun e r => match r with
                           | Ok l => uv_result e = Verified -> Forall2 (sealed_as e) (channel_bindings e) (map sealed_id l)
                           | Err x => excused e x end) events recs
    /\ let sh' := (verify_targets refresh v (Some svc) targets sh).2 in
       clock (env sh) <= clock (env sh') /\ (index_wf (ix_of sh) -> index_wf (ix_of sh'))
       /\ forall deadline, clock (env sh') < deadline <= u64_saturating_add (clock (env sh)) (receipt_ttl_seconds (config svc)) ->
            holds deadline ids (ix_of sh) -> holds deadline (flat_map sessions_of recs ++ ids) (ix_of sh').
Proof.
  intros Hc. revert ids sh. induction targets as [|t targets IH]; intros ids sh; cbn [verify_targets].
  { exists [], []. split_and!; done || constructor. }
  destruct (steady_ask _ Hc refresh (target_request t) sh) as (Hle1 & Hwf1 & Hsp1).
  destruct (ask refresh v (target_request t) sh) as [event sh1] eqn:E. cbn [fst snd] in *.
  unfold sink_event, record_session.
  destruct (record_attested_upstream_session svc event {| shared := sh1; trace := [] |}) as [r s2] eqn:Erec. cbn [snd].
  destruct (record_kept svc v event sh1 r s2 Hc Erec) as (Hle2 & Hwf2 & Hr & Hh2).
  destruct (IH (sessions_of r ++ ids) (shared s2)) as (events & recs & Hall & Hres & Hrecs & Hout & Hle3 & Hwf3 & Hh3).
  destruct (verify_targets refresh v (Some svc) targets (shared s2)) as [results sh3]. cbn [fst snd] in *.
  exists (event :: events), (r :: recs).
  split; [constructor; [exists sh; by rewrite E|done]|]. split; [cbn; by rewrite Hres|].
  split; [constructor; [exists sh1; by rewrite Erec|done]|]. split; [by constructor|].
  split; [lia|]. split; [by auto|]. intros d [Hlo Hhi] Hold.
  assert (Hsat : forall a b c, a <= b -> u64_saturating_add a c <= u64_saturating_add b c) by (intros; unfold u64_saturating_add; lia).
  eapply holds_weaken; [|apply (Hh3 d)]; [| |eapply holds_weaken; [|apply (Hh2 d ids)]; [| |apply Hsp1; [lia|exact Hold]]].
  - intros x. cbn [flat_map]. rewrite !elem_of_app. tauto.
  - split; [done|]. etrans; [exact Hhi|]. apply Hsat. lia.
  - intros x. by destruct r.
  - split; [lia|]. etrans; [exact Hhi|]. by apply Hsat.
Qed.

(** The channels of a configuration: each model of an enabled upstream, or one for an
    upstream whose attestation is of the router, at its origin; on a refresh, those
    whose refresh is not turned off. *)
Definition configured (m : UpstreamConfigManager) (refresh : bool) (t : UpstreamVerificationTarget) : Prop :=
  exists u, u ∈ cu_config (m_state m) /\ enabled u = true /\ (refresh = true -> verification_refresh_seconds u <> Some 0)
    /\ t_upstream_name t = name u /\ t_url_origin t = Some (OpenAI.trim_end_slashes (base_url u))
    /\ if decide (provider u ∈ [NearAi; Tinfoil]) then head (btree_values (models u)) = Some (t_model_id t)
       else exists public, models u !! public = Some (t_model_id t).

Lemma round_targets_exact m refresh : NoDup (round_targets m refresh) /\ forall t, t ∈ round_targets m refresh <-> configured m refresh t.
Proof.
  assert (Hprobed : forall u t, probed u (t_model_id t) <-> if decide (provider u ∈ [NearAi; Tinfoil])
    then head (btree_values (models u)) = Some (t_model_id t) else exists public, models u !! public = Some (t_model_id t)).
  { intros u t. unfold probed, attestation_scope. destruct (provider u); done. }
  unfold round_targets, configured. destruct refresh; (split; [apply first_seen_nodup|]); intros t.
  - unfold verification_targets_for_refresh. rewrite targets_elem. setoid_rewrite list_elem_of_filter. setoid_rewrite enabled_configs_elem.
    setoid_rewrite Hprobed.
    assert (Hon : forall u, is_Some (verification_refresh_seconds_of u (m_options m)) <-> verification_refresh_seconds u <> Some 0).
    { intros u. unfold verification_refresh_seconds_of. destruct (verification_refresh_seconds u) as [[]|]; split; try done; eauto. }
    setoid_rewrite Hon. naive_solver.
  - unfold verification_targets. rewrite targets_elem. setoid_rewrite enabled_configs_elem. setoid_rewrite Hprobed. naive_solver.
Qed.

(** C34: a verification round leaves no configured channel out: it asks the verifier
    about every channel of the configuration once (on a refresh, every channel whose
    refresh is on), reports the answers in order, and records a session for every
    binding of every answer that verified, unless the store refused to write it or it
    has no canonical form.  Each session recorded can be read from the store when the
    round ends and until its lifetime after the round began.  This holds of the
    in-memory store and of the log-backed one alike; the clock does not run
    backwards, and other tasks may use the store meanwhile as long as they keep the
    sessions that have not expired. *)
Theorem round_fills_sessions verifier_of m built (svc : AciService V) refresh (sh : Sh) :
  cu_verifier (m_state m) = Some built -> steady (verifier_of built) -> index_wf (ix_of sh) ->
  let '(results, sh') := run_upstream_verification verifier_of m (Some svc) refresh sh in
  exists targets events recs, NoDup targets /\ (forall t, t ∈ targets <-> configured m refresh t)
    /\ Forall2 (fun t e => exists sh1, e = (ask refresh (verifier_of built) (target_request t) sh1).1) targets events
    /\ results = zip_with prewarm_result targets events
    /\ Forall2 (recorded svc) events recs
    /\ Forall2 (fun e r => match r with
                           | Ok l => uv_result e = Verified -> Forall2 (sealed_as e) (channel_bindings e) (map sealed_id l)
                           | Err x => excused e x end) events recs
    /\ forall r id now, r ∈ recs -> id ∈ sessions_of r ->
         clock (env sh') <= now < u64_saturating_add (clock (env sh)) (receipt_ttl_seconds (config svc)) ->
         exists session, (store_get_session (sessions sh') id now).1 = Some session /\ session_id session = id.
Proof.
  intros Hb Hc Hwf. unfold run_upstream_verification. rewrite Hb. destruct (round_targets_exact m refresh) as [Hnd Hconf].
  destruct (verify_targets_fill refresh _ svc (round_targets m refresh) [] sh Hc) as (events & recs & Hall & Hres & Hrecs & Hout & _ & _ & Hfill).
  destruct (verify_targets _ _ _ _ sh) as [results sh']. cbn [fst snd] in *. exists (round_targets m refresh), events, recs. split_and!; try done.
  intros r id now Hin Hid [Hlo Hhi].
  destruct (Hfill (now + 1)) as [Hwf' Hids]; [lia|by split; [|intros ? ?%elem_of_nil]|].
  destruct (Hids id) as (s & Hs & Hexp); [rewrite app_nil_r, list_elem_of_In, in_flat_map; exists r; by rewrite <- !list_elem_of_In|].
  exists s. split; [|by eapply ix_id]. rewrite get_index. unfold index_get. rewrite Hs. destruct (Z.leb_spec (s_expires_at s) now); [lia|done].
Qed.
End Rounds.

(** ** A refresh reports every pooled model *)

Section Pools.
Context `{Digest} `{Base64} `{Base64Error} `{Crypto} `{SerdeJson} `{StrDebug} `{ChutesLibs} `{ChutesCodec} `{HttpClient}.
Context `{MaintenanceText} `{ChutesTransport} `{VerifierBuild} `{ConfigCodec}.
Context {VF St : Type} `{UpstreamVerifier VF St} (verifier_of : BuiltVerifier -> VF).

Definition refreshed (r : UpstreamSessionRefreshResult) : string * string := (sr_upstream_name r, sr_model_id r).

Lemma refresh_model_names v b pace cfg model (u : Upkeep) : refreshed (refresh_model v b pace cfg model u).1 = (name cfg, model).
Proof.
  unfold refresh_model. destruct (ver_verify _ _ _) as [event st]. destruct (uv_result event); [|done].
  destruct (refresh_verified_sessions_for_model _ _ _ _ _ _) as [[n|[]] l]; try done.
  destruct (ver_refresh _ _ _) as [again st']. by destruct (uv_result again).
Qed.

Lemma refresh_models_names v b pace cfg models_ (u : Upkeep) :
  map refreshed (refresh_models v b pace cfg models_ u).1 = map (pair (name cfg)) models_.
Proof.
  revert u. induction models_ as [|model models_ IH]; intros u; cbn [refresh_models map]; [done|].
  pose proof (refresh_model_names v b (pace model) cfg model u) as Hr. destruct (refresh_model _ _ _ _ _ u) as [r u1].
  specialize (IH u1). destruct (refresh_models _ _ _ _ _ u1) as [rs u2]. cbn in *. by rewrite Hr, IH.
Qed.

Lemma refresh_config_names v options stores pace cfg (u : Upkeep) : name cfg ∈ stores ->
  map refreshed (refresh_config v options stores pace cfg u).1 = map (pair (name cfg)) (unique_upstream_models cfg).
Proof.
  intros Hin. unfold refresh_config, chutes_store. rewrite bool_decide_eq_true_2 by done.
  destruct (build_chutes_provider_backend _ _ _); [apply refresh_models_names|]. cbn. by rewrite map_map.
Qed.

Lemma refresh_configs_names v options stores pace configs (u : Upkeep) : Forall (fun cfg => name cfg ∈ stores) configs ->
  map refreshed (refresh_configs v options stores pace configs u).1
  = flat_map (fun cfg => map (pair (name cfg)) (unique_upstream_models cfg)) configs.
Proof.
  intros Hall. revert u. induction Hall as [|cfg configs Hc Hall IH]; intros u; cbn [refresh_configs flat_map]; [done|].
  pose proof (refresh_config_names v options stores (pace (name cfg)) cfg u Hc) as Hr.
  destruct (refresh_config _ _ _ _ _ u) as [rs u1]. specialize (IH u1). destruct (refresh_configs _ _ _ _ _ u1) as [rest u2].
  cbn in *. by rewrite map_app, Hr, IH.
Qed.

(** A refresh of a built configuration reports each model of each enabled Chutes
    upstream whose refresh is on, once and in order: the store of every such
    upstream exists. *)
Lemma refresh_covers m config pace (u : Upkeep) built :
  build_state config (m_options m) = Ok (m_state m) -> cu_verifier (m_state m) = Some built ->
  map refreshed (refresh_provider_sessions verifier_of m pace u).1
  = flat_map (fun cfg => map (pair (name cfg)) (unique_upstream_models cfg)) (pooled_configs config).
Proof.
  intros Hb Hv. unfold refresh_provider_sessions. rewrite Hv.
  assert (Hst : cu_config (m_state m) = config /\ cu_sessions (m_state m) = sessions_new (enabled_configs config)).
  { unfold build_state in Hb. bind_step Hb. cbn zeta in Hb. bind_step Hb. bind_step Hb. bind_step Hb. by injection Hb as <-. }
  destruct Hst as [-> ->]. apply refresh_configs_names. apply Forall_forall. intros cfg Hin. unfold pooled_configs in Hin.
  apply list_elem_of_filter in Hin as [[Hp _] Hin]. unfold sessions_new.
  apply elem_of_list_to_set, list_elem_of_fmap. exists cfg. split; [done|]. apply list_elem_of_filter. split; [done|].
  apply list_elem_of_filter. split; [|done]. unfold enabled_configs in Hin. by apply list_elem_of_filter in Hin as [? _].
Qed.

(** No request leaves the gateway for a model the verifier does not vouch for. *)
Lemma unverified_not_contacted v b pace cfg model (u : Upkeep) :
  uv_result (ver_verify v (probe_request (name cfg) model (Some (OpenAI.trim_end_slashes (base_url cfg)))) (up_state u)).1 = Failed ->
  up_links (refresh_model v b pace cfg model u).2 = up_links u /\ sr_result (refresh_model v b pace cfg model u).1 = "failed".
Proof. unfold refresh_model. destruct (ver_verify _ _ _) as [event st]. cbn. by intros ->. Qed.
End Pools.

Module DemoMaintenance.
Import DemoForward.

Definition manager : UpstreamConfigManager :=
  demo_manager {| cu_config := [demo_upstream "u" Tinfoil {[ "m" := "m" ]}]; cu_config_digest := ""; cu_backend := None;
                  cu_verifier := Some (Single preverified); cu_sessions := ∅ |}.

Definition verifier_of (_ : BuiltVerifier) : StaticUpstreamVerifier := {| static_event := Receipt.demo_event |}.

Definition round := run_upstream_verification verifier_of manager (Some service) false (shared init).

Abbreviation sealed := (seal "u" (Some "https://u") "v" (identity_from_provider_claims None) [TlsSpkiSha256 "https://u" "aa"]
  (claims_for_binding Receipt.demo_event (TlsSpkiSha256 "https://u" "aa"))
  {| digest := digest (evidence_for_binding Receipt.demo_event (TlsSpkiSha256 "https://u" "aa")); data_uri := None |} 0 0).

Definition session_name : string := match sealed with Ok s => session_id s | Err _ => "" end.

Example round_reports : map pw_result round.1 = ["verified"].
Proof. vm_compute. reflexivity. Qed.

Lemma demo_sealed : sealed_as Receipt.demo_event (TlsSpkiSha256 "https://u" "aa") session_name.
Proof.
  intros now expires. unfold session_name. assert (E : match sealed with Ok _ => true | Err _ => false end = true) by (vm_compute; reflexivity). revert E.
  destruct sealed as [s|] eqn:Es; intros E; [|discriminate]. exact (seal_any_time _ _ _ _ _ _ _ _ _ _ now expires Es).
Qed.
End DemoMaintenance.

Import DemoForward.

(** A clock that stands still. *)
Definition still (_ : nat) : Z := 1000.

Abbreviation clock_at sh := (still (env sh)).

Lemma demo_steady (v : StaticUpstreamVerifier) : steady still v.
Proof.
  assert (Hsp : forall sh, spared still sh sh) by done.
  split; [intros sh; split; [vm_compute; discriminate|]; split; [reflexivity|split; intros; done]|].
  intros [|] request sh; (split; [vm_compute; discriminate|]); split; intros; done.
Qed.

Lemma round_fills_sessions_witness :
  exists session, (store_get_session (sessions DemoMaintenance.round.2) DemoMaintenance.session_name 4000).1 = Some session
    /\ session_id session = DemoMaintenance.session_name.
Proof.
  pose proof (round_fills_sessions still DemoMaintenance.verifier_of DemoMaintenance.manager (Single preverified) DemoForward.service false
    (shared DemoForward.init) eq_refl (demo_steady _) index_default_wf) as Hr.
  cbv zeta in Hr. fold DemoMaintenance.round in Hr.
  assert (Hnow : clock_at DemoMaintenance.round.2 <= 4000) by (vm_compute; discriminate).
  destruct DemoMaintenance.round as [results sh'].
  destruct Hr as (targets & events & recs & _ & Ht & Hall & _ & _ & Hout & Hfill).
  assert (Hin : exists t, t ∈ targets).
  { exists {| t_upstream_name := "u"; t_model_id := "m"; t_url_origin := Some "https://u" |}. apply Ht.
    exists (demo_upstream "u" Tinfoil {[ "m" := "m" ]}). split_and!; [left|done..]. }
  destruct Hin as [t Hin]. apply list_elem_of_lookup in Hin as [i Hi].
  destruct (Forall2_lookup_l _ _ _ _ _ Hall Hi) as (event & Hei & sh1 & He). destruct (Forall2_lookup_l _ _ _ _ _ Hout Hei) as (r & Hri & Hr).
  assert (He' : event = Receipt.demo_event) by exact He. clear He. subst event.
  apply (Hfill r); [by eapply list_elem_of_lookup_2| |split; [exact Hnow|vm_compute; reflexivity]].
  destruct r as [l|x].
  - specialize (Hr eq_refl). apply Forall2_cons_inv_l in Hr as (id & rest & Hid & _ & El). cbn [sessions_of]. rewrite El.
    destruct (Hid 0 0) as (s1 & Hs1 & <-), (DemoMaintenance.demo_sealed 0 0) as (s2 & Hs2 & <-). rewrite Hs1 in Hs2. injection Hs2 as ->. left.
  - exfalso. destruct Hr as [(id & io & st & session & ts & w & st' & w' & _ & Hput & _)|(c & binding & now & expires & _ & Hb & Hs)]; [discriminate Hput|].
    apply list_elem_of_singleton in Hb as ->. destruct (DemoMaintenance.demo_sealed now expires) as (s2 & Hs2 & _). by rewrite Hs in Hs2.
Defined.
