(* ===== verification/Launcher.v ===== *)
(** * The launcher

    Model of [src/main.rs]: the static configuration, the state directory, the
    source provenance, the TLS certificates, the seeding of the upstream
    configuration, and the assembly of the gateway from its stores, its managed
    keyset epoch, the dstack provider and the service.  The parsers of the
    configuration file, of PEM and of X.509 are parameters; the turns of
    the background tasks are in [Maintenance.v] and, for the session log, here;
    binding the listener is left out. *)
From S2P Require Import Prelude StrOps Json Serde Canonical Identity Fs Revocation Epoch Receipt ReceiptStore Session SessionStore SessionLock.
From S2P Require Import Float Router Upstream UpstreamConfig AciVerifier UpstreamManager RouterBackend.
From S2P Require Import E2ee E2eeFields Errors Service Reports Dstack Access Endpoint.
Import Types.

Definition GIT_LAUNCHER_CONFIG_PATH : Path := ("/etc/git-launcher", "gateway.conf").
Definition DEFAULT_UPSTREAM_CONNECT_TIMEOUT_SECONDS : Z := 10.
Definition DEFAULT_UPSTREAM_READ_TIMEOUT_SECONDS : Z := 600.
Definition DEFAULT_VERIFIER_REQUEST_TIMEOUT_SECONDS : Z := 60.

(** ** Configuration *)

Record TlsDomainCertificateEntry := { tls_domain : string; certificate_path : string }.

Record GatewayConfigFile := {
  g_bind : option string;
  g_state_dir : option string;
  upstream_config_seed_path : option string;
  g_admin_token : option string;
  g_api_token : option string;
  keyset_epoch_window_seconds : option Z;
  domain_certificates : list TlsDomainCertificateEntry;
  dstack_endpoint : option string;
  g_middleware : option MiddlewareConfig;
}.

(** What ends [main]: an [invalid_input], a plain message, or the error of a part. *)
Inductive LaunchError :=
| LInvalidInput (message : string)
| LMessage (message : string)
| LIo (e : io_error)
| LKey (e : KeyError)
| LConfig (e : UpstreamConfigError)
| LService (e : ServiceError).

Class LauncherLibs : Type := {
  gateway_config_from_str : string -> result string GatewayConfigFile;
  pem_certs : string -> result string (list string);
  x509_spki : string -> result string string;
  config_error_text : UpstreamConfigError -> string;
}.

Definition Launch (A : Type) : Type := World -> result LaunchError A * World.

#[export] Instance launch_ret : MRet Launch := fun A a w => (Ok a, w).
#[export] Instance launch_bind : MBind Launch := fun A B f m w =>
  match m w with (Ok a, w') => f a w' | (Err e, w') => (Err e, w') end.
Definition launch_lift {A} (r : result LaunchError A) : Launch A := fun w => (r, w).
Definition launch_io {A} (f : io_error -> LaunchError) (m : Io A) : Launch A := fun w =>
  let '(r, w) := m w in (map_err f r, w).

Section Launcher.
Context `{LauncherLibs} `{StrDebug}.

Definition env_non_empty (value : option string) : option string :=
  v ← value; let v := str_trim v in if String.eqb v "" then None else Some v.

Definition load_gateway_config (path : string) : Launch GatewayConfigFile :=
  text ← launch_io (fun e => LMessage ("failed to read gateway config " +:+ path +:+ ": " +:+ message e)) (read_to_string (path_of path));
  launch_lift (map_err (fun e => LMessage ("failed to parse gateway config " +:+ path +:+ ": " +:+ e)) (gateway_config_from_str text)).

Definition resolve_state_dir (config_state_dir : option string) : result LaunchError string :=
  let state_dir := str_trim (default "/var/lib/private-ai-gateway" config_state_dir) in
  if String.eqb state_dir "" then Err (LMessage "gateway state_dir must not be empty") else Ok state_dir.

Definition upstream_config_path (state_dir : string) : Path := (state_dir, "upstreams.json").
Definition session_log_path (state_dir : string) : Path := (state_dir, "sessions.jsonl").
Definition keyset_epoch_path (state_dir : string) : Path := (state_dir, "keyset-epoch.json").
Definition revocations_path (state_dir : string) : Path := (state_dir, "revocations.json").

(** ** Source provenance *)

Definition validate_git_launcher_commit_sha (value : string) : result string unit :=
  if (Nat.eqb (String.length value) 40 || Nat.eqb (String.length value) 64) && string_forallb is_ascii_hexdigit value then Ok tt
  else Err "expected a full 40- or 64-character hexadecimal commit hash".

(** [split_once('=')] *)
Fixpoint split_once_eq (s : string) : option (string * string) :=
  match s with
  | EmptyString => None
  | String c rest =>
      if Ascii.eqb c "=" then Some ("", rest)
      else match split_once_eq rest with Some (key, value) => Some (String c key, value) | None => None end
  end.

Definition provenance_line (found : option string * option string) (raw : string) : option string * option string :=
  let line := str_trim raw in
  if String.eqb line "" || starts_with "#" line then found
  else
    match split_once_eq line with
    | None => found
    | Some (key, value) =>
        let value := str_trim value in
        if String.eqb value "" then found
        else if String.eqb (str_trim key) "REPO_URL" then (Some value, found.2)
        else if String.eqb (str_trim key) "COMMIT_SHA" then (found.1, Some value)
        else found
    end.

Definition parse_provenance (path text : string) : result LaunchError SourceProvenance :=
  let '(url, commit) := fold_left provenance_line (split_by (Ascii.eqb "010") text) (None, None) in
  repo_url ← ok_or url (LMessage ("git-launcher config " +:+ path +:+ " is missing REPO_URL"));
  repo_commit ← ok_or commit (LMessage ("git-launcher config " +:+ path +:+ " is missing COMMIT_SHA"));
  _ ← map_err (fun err => LMessage ("git-launcher config " +:+ path +:+ " has invalid COMMIT_SHA: " +:+ err))
        (validate_git_launcher_commit_sha repo_commit);
  Ok {| repo_url := Some repo_url; repo_commit := Some repo_commit; image_digest := None; image_provenance := None |}.

Definition source_provenance_from_git_launcher_config (path : Path) : Launch (option SourceProvenance) := fun w =>
  match read_to_string path w with
  | (Ok text, w) => (parse_provenance (path_display path) text ≫= fun sp => Ok (Some sp), w)
  | (Err e, w) =>
      match kind e with
      | NotFound => (Ok None, w)
      | _ => (Err (LMessage ("failed to read git-launcher config " +:+ path_display path +:+ ": " +:+ message e)), w)
      end
  end.

Definition SourceProvenance_default : SourceProvenance :=
  {| repo_url := None; repo_commit := None; image_digest := None; image_provenance := None |}.

Definition resolve_source_provenance : Launch SourceProvenance :=
  sp ← source_provenance_from_git_launcher_config GIT_LAUNCHER_CONFIG_PATH; mret (default SourceProvenance_default sp).

(** ** TLS certificates *)

Definition normalize_config_domain (raw : string) : result LaunchError string :=
  let domain := to_ascii_lowercase (trim_end_dots (str_trim raw)) in
  if String.eqb domain "" || str_contains "/" domain || str_contains ":" domain || str_contains "=" domain
     || str_contains "," domain || existsb char_is_whitespace (chars domain)
  then Err (LMessage ("invalid TLS domain " +:+ debug_str raw)) else Ok domain.

Definition leaf_certificate_der (bytes : string) : result string string :=
  certs ← map_err (fun e => "invalid PEM certificate: " +:+ e) (pem_certs bytes);
  Ok match certs with cert :: _ => cert | [] => bytes end.

Definition tls_spki_from_cert_path `{Digest} (path : string) : Launch TlsSpki :=
  bytes ← launch_io (fun e => LMessage ("failed to read TLS certificate " +:+ path +:+ ": " +:+ message e)) (read_bytes (path_of path));
  der ← launch_lift (map_err (fun e => LMessage ("failed to parse TLS certificate " +:+ path +:+ ": " +:+ e)) (leaf_certificate_der bytes));
  spki ← launch_lift (map_err (fun e => LMessage ("failed to parse X.509 certificate " +:+ path +:+ ": " +:+ e)) (x509_spki der));
  mret {| domain := None; spki_sha256_hex := hex_encode (sha256 spki) |}.

Fixpoint parse_entries `{Digest} (entries : list TlsDomainCertificateEntry) (domains : list string) : Launch (list TlsSpki) :=
  match entries with
  | [] => mret []
  | entry :: entries =>
      d ← launch_lift (normalize_config_domain (tls_domain entry));
      _ ← launch_lift (if bool_decide (d ∈ domains) then Err (LMessage ("TLS domain " +:+ debug_str d +:+ " is duplicated")) else Ok tt);
      let path := str_trim (certificate_path entry) in
      _ ← launch_lift (if String.eqb path "" then
                         Err (LMessage ("TLS domain certificate entry for " +:+ debug_str d +:+ " has an empty certificate_path"))
                       else Ok tt);
      key ← tls_spki_from_cert_path path;
      keys ← parse_entries entries (d :: domains);
      mret ({| domain := Some d; spki_sha256_hex := spki_sha256_hex key |} :: keys)
  end.

Definition parse_domain_cert_entries `{Digest} (entries : list TlsDomainCertificateEntry) : Launch (list TlsSpki) :=
  keys ← parse_entries entries [];
  match keys with
  | [] => launch_lift (Err (LMessage "TLS domain config must contain at least one domain"))
  | _ => mret keys
  end.

Definition resolve_tls_public_keys `{Digest} (entries : list TlsDomainCertificateEntry) : Launch (option (list TlsSpki)) :=
  match entries with
  | [] => mret None
  | _ => keys ← parse_domain_cert_entries entries; mret (Some keys)
  end.

(** ** Seeding the upstream configuration *)

Definition target_has_config (target : Path) : Launch bool := fun w =>
  match read_to_string target w with
  | (Ok text, w) => (Ok (negb (is_blank text)), w)
  | (Err e, w) =>
      match kind e with
      | NotFound => (Ok false, w)
      | k => (Err (LIo {| kind := k; message := "failed to read upstream config " +:+ path_display target
                                                   +:+ " before applying seed: " +:+ message e |}), w)
      end
  end.

Definition seed_upstream_config_if_empty `{ConfigCodec} (target : Path) (seed_path : option string) : Launch unit :=
  match seed_path with
  | None => mret tt
  | Some seed_path =>
      has ← target_has_config target;
      if has : bool then mret tt
      else
        seed_text ← launch_io (fun e => LIo {| kind := kind e;
                                              message := "failed to read upstream config seed " +:+ seed_path +:+ ": " +:+ message e |})
                      (read_to_string (path_of seed_path));
        _ ← launch_lift (map_err (fun e => LInvalidInput ("invalid upstream config seed " +:+ seed_path +:+ ": " +:+ config_error_text e))
              (parse_config_text seed_text));
        _ ← launch_io LIo (create_dir_all target.1);
        launch_io LIo (fs_write target seed_text)
  end.
End Launcher.

(** ** The assembly *)

Definition upstream_options : UpstreamRuntimeOptions := {|
  verifier_mode := ModeNone;
  opt_accepted_workload_ids := []; opt_accepted_image_digests := []; opt_accepted_dstack_kms_root_public_keys := [];
  opt_pccs_url := None; opt_verifier_cache_seconds := 300;
  opt_connect_timeout_seconds := DEFAULT_UPSTREAM_CONNECT_TIMEOUT_SECONDS;
  opt_read_timeout_seconds := DEFAULT_UPSTREAM_READ_TIMEOUT_SECONDS;
  opt_verifier_request_timeout_seconds := DEFAULT_VERIFIER_REQUEST_TIMEOUT_SECONDS |}.

Definition service_config (sp : SourceProvenance) (epoch : KeysetEpoch) (tls : option (list TlsSpki)) : AciServiceConfig := {|
  cfg_vendor := "leviathan-ai-gateway"; cfg_tee_type := "tdx"; cfg_source_provenance := sp; cfg_keyset_epoch := epoch;
  identity_subject := Some "leviathan:ai-gateway"; service_capabilities := ["2"]; freshness_seconds := 3600;
  receipt_ttl_seconds := 3600; upstream_required_default := true; allow_test_keys := false; cfg_tls_public_keys := tls |}.

(** The window is a [u64]. *)
Class LauncherLaws `{LauncherLibs} : Prop :=
  window_u64 text file win : gateway_config_from_str text = Ok file -> keyset_epoch_window_seconds file = Some win -> is_u64 win.

Section Assemble.
Context `{LauncherLibs} `{StrDebug} `{SerdeJson} `{HttpClient} `{ChutesTransport} `{Digest} `{AciVerifier.Crypto} `{VerifierBuild} `{ConfigCodec}.
Context `{CurveLibs} `{!Signers} `{DstackSdk} `{Keccak} `{Base64} `{LogCodec}.
Context `{JsonCodec PersistedKeysetEpoch} `{JsonCodec (list RevocationStatement)}.
(** The verifier of a configuration manager, [UpstreamConfigManager::verifier]. *)
Context {V : Type} (verifier_of : UpstreamConfigManager -> V).

Record Launched := {
  la_bind : string;
  la_provider : DstackAciProvider;
  la_manager : UpstreamConfigManager;
  la_revocations : RevocationStore;
  la_sessions : JsonlSessionStore;
  la_app : AppState V;
  la_router : option RouterState;
}.

Definition make_keyset (p : DstackAciProvider) (tls : option (list TlsSpki)) (epoch : KeysetEpoch) : WorkloadKeyset :=
  {| workload_identity := {| public_key := identity_key p; subject := Some "leviathan:ai-gateway" |};
     keyset_epoch := epoch; receipt_signing_keys := dstack_receipt_keys p; e2ee_public_keys := dstack_e2ee_keys p;
     tls_public_keys := default [] tls |}.

Definition launch_manager (path : Path) : Launch UpstreamConfigManager := fun w =>
  let '(r, w) := manager_load path upstream_options w in (map_err LConfig r, w).

Definition compact_session_log (store : JsonlSessionStore) (now : Z) (w : World) : result string Z * JsonlSessionStore * World :=
  let '(r, store, w) := compact store now w in (map_err message r, store, w).

Definition compact_on_startup (store : JsonlSessionStore) (now : Z) : Launch JsonlSessionStore := fun w =>
  let '(r, store, w) := compact_session_log store now w in
  (map_err (fun e => LInvalidInput ("failed to compact gateway session log " +:+ path_display (log_path store) +:+ " on startup: " +:+ e)) r
     ≫= fun _ => Ok store, w).

(** The task that rewrites the log once an hour, given the times it wakes at; a
    compaction that fails is reported and the next one tries again. *)
Definition SESSION_LOG_COMPACTION_INTERVAL_SECONDS : Z := 3600.

Fixpoint session_log_compactions (times : list Z) (store : JsonlSessionStore) (w : World) :
    list (result string Z) * JsonlSessionStore * World :=
  match times with
  | [] => ([], store, w)
  | now :: times =>
      let '(r, store, w) := compact_session_log store now w in
      let '(rs, store, w) := session_log_compactions times store w in (r :: rs, store, w)
  end.

(** [locks] are the lock files other gateways hold. *)
Definition open_sessions (locks : gset Path) (path : Path) (now : Z) : Launch JsonlSessionStore :=
  store ← launch_io (fun e => LInvalidInput ("failed to open gateway session log " +:+ path_display path +:+ ": " +:+ message e))
            (JsonlSessionStore_open locks path);
  compact_on_startup store now.

(** What is read before the epoch is resolved. *)
Record Prepared := {
  pr_file : GatewayConfigFile;
  pr_state_dir : string;
  pr_provenance : SourceProvenance;
  pr_tls : option (list TlsSpki);
  pr_provider : DstackAciProvider;
  pr_manager : UpstreamConfigManager;
}.

(** [env] is the value of the variable that names the configuration file. *)
Definition prepare (env : option string) : Launch Prepared :=
  config_path ← launch_lift (ok_or (env_non_empty env)
    (LInvalidInput "PRIVATE_AI_GATEWAY_CONFIG_PATH must point to the static gateway config file"));
  file ← load_gateway_config config_path;
  state_dir ← launch_lift (resolve_state_dir (g_state_dir file));
  _ ← launch_io (fun e => LInvalidInput ("failed to create gateway state directory " +:+ state_dir +:+ ": " +:+ message e))
        (create_dir_all state_dir);
  sp ← resolve_source_provenance;
  tls ← resolve_tls_public_keys (domain_certificates file);
  provider ← launch_lift (map_err LKey (DstackAciProvider_new (dstack_endpoint file) DstackAciProviderConfig_default));
  _ ← seed_upstream_config_if_empty (upstream_config_path state_dir) (upstream_config_seed_path file);
  manager ← launch_manager (upstream_config_path state_dir);
  mret {| pr_file := file; pr_state_dir := state_dir; pr_provenance := sp; pr_tls := tls; pr_provider := provider;
          pr_manager := manager |}.

Definition epoch_window (file : GatewayConfigFile) : Z :=
  default DEFAULT_KEYSET_EPOCH_WINDOW_SECONDS (keyset_epoch_window_seconds file).

(** The two times are the clock's when the epoch is resolved and when the session
    log is compacted. *)
Definition launch (locks : gset Path) (env : option string) (epoch_now compact_now : Z) : Launch Launched :=
  p ← prepare env;
  revocations ← launch_io (fun e => LInvalidInput ("failed to open gateway revocation store: " +:+ message e))
                  (open_store (revocations_path (pr_state_dir p)));
  _ ← launch_lift (if epoch_window (pr_file p) =? 0 then Err (LInvalidInput "keyset_epoch_window_seconds must be greater than zero")
                   else Ok tt);
  epoch ← launch_io (fun e => LInvalidInput ("failed to resolve managed keyset epoch: " +:+ message e))
            (resolve_launcher_epoch (keyset_epoch_path (pr_state_dir p)) (make_keyset (pr_provider p) (pr_tls p)) revocations epoch_now
               (epoch_window (pr_file p)));
  service ← launch_lift (map_err LService
    (@new_inner _ (dstack_keys (pr_provider p)) (dstack_e2ee (pr_provider p)) V (Some (verifier_of (pr_manager p)))
       (service_config (pr_provenance p) epoch (pr_tls p))));
  sessions ← open_sessions locks (session_log_path (pr_state_dir p)) compact_now;
  router ← launch_lift match g_middleware (pr_file p) with
                       | None => Ok None
                       | Some mc => map_err LInvalidInput (RouterBackend_new mc) ≫= fun r => Ok (Some r)
                       end;
  mret {| la_bind := default "127.0.0.1:8086" (g_bind (pr_file p)); la_provider := pr_provider p; la_manager := pr_manager p;
          la_revocations := revocations; la_sessions := sessions;
          la_app := {| app_service := service; admin_token := g_admin_token (pr_file p); api_token := g_api_token (pr_file p);
                       middleware := g_middleware (pr_file p) |};
          la_router := router |}.

(** ** Properties *)

(** However often and at whatever times the log is rewritten, and whatever fails, the
    task touches no file but the log and its temporary file, and reports once per
    turn. *)
Lemma compactions_confined times store w :
  let '(rs, store', w') := session_log_compactions times store w in
  length rs = length times /\ log_path store' = log_path store /\ touches (files_of (log_path store)) w w'.
Proof.
  revert store w. induction times as [|now times IH]; intros store w; cbn [session_log_compactions]; [by split_and!|].
  unfold compact_session_log. pose proof (compact_path store now w) as Hp. pose proof (compact_confined store now w) as Ht.
  destruct (compact store now w) as [[r s1] w1]. cbn beta iota zeta. cbn [fst snd] in Hp, Ht. specialize (IH s1 w1).
  destruct (session_log_compactions times s1 w1) as [[rs s2] w2]. destruct IH as (Hl & Hs & Hw). rewrite Hp in *. cbn.
  split_and!; [by rewrite Hl|done|]. by eapply touches_trans.
Qed.

Lemma launch_bind_Ok {A B} (m : Launch A) (f : A -> Launch B) w b w' :
  (m ≫= f) w = (Ok b, w') -> exists a w1, m w = (Ok a, w1) /\ f a w1 = (Ok b, w').
Proof. unfold mbind, launch_bind. destruct (m w) as [[a|e] w1]; [eauto|done]. Qed.

Lemma launch_lift_Ok {A} (r : result LaunchError A) w a w' : launch_lift r w = (Ok a, w') -> r = Ok a /\ w' = w.
Proof. unfold launch_lift. by intros [= -> <-]. Qed.

Lemma launch_io_Ok {A} f (m : Io A) w a w' : launch_io f m w = (Ok a, w') -> m w = (Ok a, w').
Proof. unfold launch_io. destruct (m w) as [[a'|e] w1]; cbn; [|done]. by intros [= -> <-]. Qed.

(** A step that leaves the files in [P] alone. *)
Definition leaves {A} (P : Path -> Prop) (m : Launch A) : Prop := forall w p, P p -> files (m w).2 !! p = files w !! p.

Lemma leaves_bind {A B} P (m : Launch A) (f : A -> Launch B) : leaves P m -> (forall a, leaves P (f a)) -> leaves P (m ≫= f).
Proof.
  intros Hm Hf w p Hp. unfold mbind, launch_bind. specialize (Hm w p Hp). destruct (m w) as [[a|e] w1]; [|done].
  rewrite <- Hm. by apply Hf.
Qed.

Lemma leaves_pure {A} P (r : result LaunchError A) : leaves P (launch_lift r).
Proof. by intros w p _. Qed.

Lemma leaves_ret {A} P (a : A) : leaves P (mret a).
Proof. by intros w p _. Qed.

(** Reads and directories. *)
Lemma leaves_with_fault {A} (P : Path -> Prop) (f : io_error -> LaunchError) (op : gmap Path string -> result io_error A * gmap Path string) :
  (forall m, (op m).2 = m) -> leaves P (launch_io f (with_fault (fun _ m => m) op)).
Proof.
  intros Hop w p _. unfold launch_io, with_fault. specialize (Hop (files w)).
  destruct (faults w) as [|[fl|] fs]; cbn; [|done|]; destruct (op (files w)); cbn in *; by subst.
Qed.

Lemma leaves_read P f path : leaves P (launch_io f (read_to_string path)).
Proof. apply leaves_with_fault. intros m. by destruct (m !! path). Qed.

Lemma leaves_read_bytes P f path : leaves P (launch_io f (read_bytes path)).
Proof. apply leaves_with_fault. intros m. by destruct (m !! path). Qed.

Lemma leaves_mkdir P f dir : leaves P (launch_io f (create_dir_all dir)).
Proof. by apply leaves_with_fault. Qed.

Lemma read_files path w : files (read_to_string path w).2 = files w.
Proof.
  unfold read_to_string, with_fault. destruct (faults w) as [|[fl|] fs]; cbn; [|done|]; by destruct (files w !! path).
Qed.

Lemma leaves_provenance P : leaves P resolve_source_provenance.
Proof.
  apply leaves_bind; [|intros; apply leaves_ret]. intros w p _. unfold source_provenance_from_git_launcher_config.
  pose proof (read_files GIT_LAUNCHER_CONFIG_PATH w) as Hf. destruct (read_to_string _ w) as [[text|e] w1]; cbn in *; [by rewrite Hf|].
  destruct (kind e); cbn; by rewrite Hf.
Qed.

Lemma leaves_entries P entries domains : leaves P (parse_entries entries domains).
Proof.
  revert domains. induction entries as [|entry entries IH]; intros domains; cbn [parse_entries]; [apply leaves_ret|].
  repeat (apply leaves_bind; [apply leaves_pure|]; intros ?).
  apply leaves_bind; [|intros; apply leaves_bind; [apply IH|intros; apply leaves_ret]].
  apply leaves_bind; [apply leaves_read_bytes|]. intros.
  repeat (apply leaves_bind; [apply leaves_pure|]; intros ?). apply leaves_ret.
Qed.

Lemma leaves_tls P entries : leaves P (resolve_tls_public_keys entries).
Proof.
  unfold resolve_tls_public_keys. destruct entries as [|e entries]; [apply leaves_ret|].
  apply leaves_bind; [|intros; apply leaves_ret]. apply leaves_bind; [apply leaves_entries|].
  intros [|]; [apply leaves_pure|apply leaves_ret].
Qed.

(** Seeding writes its target only. *)
Lemma leaves_seed target seed : leaves (fun p => p <> target) (seed_upstream_config_if_empty target seed).
Proof.
  unfold seed_upstream_config_if_empty. destruct seed as [seed|]; [|apply leaves_ret].
  apply leaves_bind.
  { intros w p _. unfold target_has_config. pose proof (read_files target w) as Hf.
    destruct (read_to_string target w) as [[text|e] w1]; cbn in *; [by rewrite Hf|]. destruct (kind e); cbn; by rewrite Hf. }
  intros [|]; [apply leaves_ret|]. apply leaves_bind; [apply leaves_read|]. intros text.
  apply leaves_bind; [apply leaves_pure|]. intros _. apply leaves_bind; [apply leaves_mkdir|]. intros _.
  intros w p Hp. unfold launch_io, fs_write, with_fault.
  destruct (faults w) as [|[fl|] fs]; cbn; by rewrite lookup_insert_ne.
Qed.

Lemma leaves_manager P path : leaves P (launch_manager path).
Proof.
  intros w p _. unfold launch_manager, manager_load, read_config_file. pose proof (read_files path w) as Hf.
  destruct (read_to_string path w) as [[text|e] w1]; cbn in *.
  - destruct (parse_config_text text); cbn; by rewrite Hf.
  - destruct (kind e); cbn; by rewrite Hf.
Qed.

Lemma leaves_prepare env dir name : name <> "upstreams.json" -> leaves (fun p => p = (dir, name)) (prepare env).
Proof.
  intros Hn. unfold prepare. apply leaves_bind; [apply leaves_pure|]. intros path.
  apply leaves_bind; [apply leaves_bind; [apply leaves_read|intros; apply leaves_pure]|]. intros file.
  apply leaves_bind; [apply leaves_pure|]. intros state_dir. apply leaves_bind; [apply leaves_mkdir|]. intros _.
  apply leaves_bind; [apply leaves_provenance|]. intros sp. apply leaves_bind; [apply leaves_tls|]. intros tls.
  apply leaves_bind; [apply leaves_pure|]. intros provider. apply leaves_bind.
  - intros w p ->. apply leaves_seed. intros [= _ ?]. done.
  - intros _. apply leaves_bind; [apply leaves_manager|]. intros; apply leaves_ret.
Qed.

Lemma prepare_Ok `{!LauncherLaws} env w p w' :
  prepare env w = (Ok p, w') -> m_path (pr_manager p) = upstream_config_path (pr_state_dir p) /\ 0 <= epoch_window (pr_file p).
Proof.
  unfold prepare. intros (path & w1 & _ & Hp)%launch_bind_Ok. apply launch_bind_Ok in Hp as (file & w2 & Hfile & Hp).
  do 6 (apply launch_bind_Ok in Hp as (? & ? & _ & Hp)). apply launch_bind_Ok in Hp as (manager & w9 & Hm & [= <- _]). cbn. split.
  - unfold launch_manager, manager_load in Hm. destruct (read_config_file _ _) as [[config|e] w10]; [|done].
    destruct (build_state config upstream_options); cbn in Hm; [|done]. by injection Hm as <- _.
  - unfold load_gateway_config in Hfile. apply launch_bind_Ok in Hfile as (text & w10 & _ & Hf).
    apply launch_lift_Ok in Hf as [Hf _]. destruct (gateway_config_from_str text) as [file'|] eqn:E; [|done]. injection Hf as <-.
    unfold epoch_window. destruct (keyset_epoch_window_seconds file') as [win|] eqn:Ew; [|done].
    pose proof (window_u64 _ _ _ E Ew) as Hu. unfold is_u64 in Hu. cbn. lia.
Qed.

(** The service serves the keyset whose epoch was resolved. *)
Lemma launched_keyset p v sp epoch tls (svc : AciService V) :
  @new_inner _ (dstack_keys p) (dstack_e2ee p) V v (service_config sp epoch tls) = Ok svc ->
  keyset svc = make_keyset p tls epoch /\ workload_keyset_digest (keyset svc) = Ok (svc_workload_keyset_digest svc).
Proof.
  intros Hn. pose proof (new_inner_consistent _ _ _ Hn) as ((_ & _ & Hd) & _). split; [|exact Hd].
  rewrite (new_inner_keyset _ _ _ Hn). by destruct tls.
Qed.

Lemma make_keyset_epoch p tls e : make_keyset p tls = with_epoch (make_keyset p tls e).
Proof. reflexivity. Qed.

Lemma open_store_settled path w store w' :
  open_store path w = (Ok store, w') -> (open_store path (settled w)).1 = Ok store /\ files w' = files w.
Proof.
  unfold open_store, read_to_string, with_fault, settled. cbn [files faults].
  destruct (faults w) as [|[f|] fs]; cbn; [|intros [=]|]; destruct (files w !! path) as [t|]; cbn;
    intros E; injection E as E <-; cbn; rewrite ?E; auto.
Qed.

Lemma open_store_file path w w' : files w' !! path = files w !! path ->
  (open_store path (settled w')).1 = (open_store path (settled w)).1.
Proof.
  unfold open_store, read_to_string, with_fault, settled. cbn [files faults]. intros ->. by destruct (files w !! path).
Qed.

(** The state directory holds an epoch record that fits and is far from overflow. *)
Definition epoch_record_ok (dir : string) (revs : RevocationStore) (w : World) : Prop :=
  forall previous, on_disk (keyset_epoch_path dir) w previous ->
    (forall p, previous = Some p -> wf_persisted p)
    /\ 0 <= start_version previous /\ start_version previous + Z.of_nat (length (statements revs)) + 4 <= u64_max.

(** What a successful start went through. *)
Lemma launch_Ok locks env epoch_now compact_now w l w' :
  launch locks env epoch_now compact_now w = (Ok l, w') ->
  exists p w1 w2 w3 epoch,
    prepare env w = (Ok p, w1)
    /\ open_store (revocations_path (pr_state_dir p)) w1 = (Ok (la_revocations l), w2)
    /\ resolve_launcher_epoch (keyset_epoch_path (pr_state_dir p)) (make_keyset (pr_provider p) (pr_tls p)) (la_revocations l) epoch_now
         (epoch_window (pr_file p)) w2 = (Ok epoch, w3)
    /\ la_manager l = pr_manager p
    /\ keyset (app_service (la_app l)) = make_keyset (pr_provider p) (pr_tls p) epoch
    /\ workload_keyset_digest (keyset (app_service (la_app l))) = Ok (svc_workload_keyset_digest (app_service (la_app l))).
Proof.
  unfold launch. intros (p & w1 & Hp & Hl)%launch_bind_Ok.
  apply launch_bind_Ok in Hl as (revs & w2 & Hrev%launch_io_Ok & Hl).
  apply launch_bind_Ok in Hl as (? & ? & [_ ->]%launch_lift_Ok & Hl).
  apply launch_bind_Ok in Hl as (epoch & w3 & Hepoch%launch_io_Ok & Hl).
  apply launch_bind_Ok in Hl as (svc & ? & [Hsvc ->]%launch_lift_Ok & Hl).
  do 2 (apply launch_bind_Ok in Hl as (? & ? & _ & Hl)). injection Hl as <- _. cbn [la_app app_service la_manager la_revocations].
  destruct (new_inner _ _) as [svc'|] eqn:Hn in Hsvc; [|done]. injection Hsvc as ->.
  apply launched_keyset in Hn as [Hks Hdig]. exists p, w1, w2, w3, epoch. repeat split; assumption.
Qed.

(** The files the epoch is resolved from are those the state directory held. *)
Lemma prepare_files env w p w' name : prepare env w = (Ok p, w') -> name <> "upstreams.json" ->
  files w' !! (pr_state_dir p, name) = files w !! (pr_state_dir p, name).
Proof.
  intros Hp Hne. pose proof (leaves_prepare env (pr_state_dir p) name Hne w _ eq_refl) as Hs. by rewrite Hp in Hs.
Qed.

Lemma resolved_unrevoked ks revs path now window w0 w epoch w' :
  resolve_launcher_epoch path (with_epoch ks) revs now window w = (Ok epoch, w') -> files w !! path = files w0 !! path ->
  wf_keyset ks -> is_u64 now -> 0 <= window ->
  (forall previous, on_disk path w0 previous ->
    (forall p, previous = Some p -> wf_persisted p)
    /\ 0 <= start_version previous /\ start_version previous + Z.of_nat (length (statements revs)) + 4 <= u64_max) ->
  (exists d, workload_keyset_digest (with_epoch ks epoch) = Ok d /\ is_revoked revs d = false)
  \/ exists e1 e2, value_collision (WorkloadKeyset_value (with_epoch ks e1)) (WorkloadKeyset_value (with_epoch ks e2)).
Proof.
  intros Hepoch Hsame Hwf Hnow Hwin Hrec.
  destruct (resolve_launcher_epoch_Ok _ _ _ _ _ _ _ _ Hepoch) as (fp & previous & w4 & resolved & _ & Hload & _).
  apply load_settled in Hload as [Hdisk _].
  assert (Hdisk0 : on_disk path w0 previous) by (by eapply on_disk_file).
  destruct (Hrec _ Hdisk0) as (Hprev & Hv).
  assert (Hok : launch_ok ks revs now window previous) by by split.
  destruct (launcher_never_serves_revoked _ _ _ _ _ _ _ _ _ Hdisk Hok Hepoch) as [(d & Hd & Hun)|(_ & c1 & c2 & _ & _ & _ & Hc)]; eauto.
Qed.

(** C12: a gateway that has started serves a keyset that was not revoked before it
    started: the revocations it enforces are those its state directory held,
    and none of them names the digest of the keyset the service was assembled
    with, whatever failed on the way, short of a SHA-256 collision between two
    epochs of that keyset. *)
Theorem launch_serves_unrevoked `{!LauncherLaws} locks env epoch_now compact_now w l w' :
  launch locks env epoch_now compact_now w = (Ok l, w') ->
  let svc := app_service (la_app l) in
  let dir := (m_path (la_manager l)).1 in
  wf_keyset (keyset svc) -> is_u64 epoch_now -> epoch_record_ok dir (la_revocations l) w ->
  (open_store (revocations_path dir) (settled w)).1 = Ok (la_revocations l)
  /\ (is_keyset_revoked svc (la_revocations l) = false
      \/ exists e1 e2, value_collision (WorkloadKeyset_value (with_epoch (keyset svc) e1)) (WorkloadKeyset_value (with_epoch (keyset svc) e2))).
Proof.
  intros (p & w1 & w2 & w3 & epoch & Hp & Hrev & Hepoch & Hm & Hks & Hdig)%launch_Ok svc dir Hwf Hnow Hrec.
  subst svc dir. pose proof (prepare_Ok _ _ _ _ Hp) as [Hpath Hwin]. rewrite Hm, Hpath in *. cbn [fst upstream_config_path] in *.
  apply open_store_settled in Hrev as [Hrev Hfiles]. split.
  { rewrite <- Hrev. symmetry. apply open_store_file. by eapply prepare_files. }
  rewrite (make_keyset_epoch _ _ epoch), <- Hks in Hepoch.
  destruct (resolved_unrevoked _ _ _ _ _ w _ _ _ Hepoch) as [(d & Hd & Hun)|]; try done; [| |by right].
  { rewrite Hfiles. by eapply prepare_files. }
  left. unfold is_keyset_revoked. rewrite Hks, <- make_keyset_epoch, <- Hks, Hdig in Hd. by injection Hd as ->.
Qed.

(** ** Source provenance *)

(** The commit a gateway reports is a full hexadecimal hash, and the provenance it
    starts with is one the service accepts. *)
Lemma parse_provenance_Ok path text sp : parse_provenance path text = Ok sp ->
  (exists commit, repo_commit sp = Some commit /\ (String.length commit = 40 \/ String.length commit = 64)%nat
     /\ string_forallb is_ascii_hexdigit commit = true)
  /\ exists url, repo_url sp = Some url.
Proof.
  unfold parse_provenance. destruct (fold_left _ _ _) as [url commit]. intros Hp. apply result_bind_Ok in Hp as (u & _ & Hp).
  apply result_bind_Ok in Hp as (c & _ & Hp). apply result_bind_Ok in Hp as ([] & Hv%map_err_Ok & Hp).
  injection Hp as <-. cbn. split; [|eauto]. exists c. split; [done|]. unfold validate_git_launcher_commit_sha in Hv.
  destruct (_ && _) eqn:Eb in Hv; [|done]. apply andb_true_iff in Eb as [Hl%orb_true_iff Hh]. split; [|done].
  by rewrite !Nat.eqb_eq in Hl.
Qed.

(** ** TLS keys *)

(** [key] is published for the certificate of [entry], read from [w]. *)
Definition published (w : World) (entry : TlsDomainCertificateEntry) (key : TlsSpki) : Prop :=
  exists d bytes der spki,
    normalize_config_domain (tls_domain entry) = Ok d
    /\ files w !! path_of (str_trim (certificate_path entry)) = Some bytes
    /\ leaf_certificate_der bytes = Ok der /\ x509_spki der = Ok spki
    /\ key = {| domain := Some d; spki_sha256_hex := hex_encode (sha256 spki) |}.

Lemma read_bytes_Ok path w t w' : read_bytes path w = (Ok t, w') -> files w !! path = Some t /\ files w' = files w.
Proof.
  unfold read_bytes, with_fault. destruct (faults w) as [|[f|] fs]; [|done|];
    destruct (files w !! path); cbn; try done; intros E; by injection E as -> <-.
Qed.

Lemma tls_spki_Ok path w key w' : tls_spki_from_cert_path path w = (Ok key, w') ->
  (exists bytes der spki, files w !! path_of path = Some bytes /\ leaf_certificate_der bytes = Ok der /\ x509_spki der = Ok spki
     /\ key = {| domain := None; spki_sha256_hex := hex_encode (sha256 spki) |})
  /\ files w' = files w.
Proof.
  unfold tls_spki_from_cert_path. intros (bytes & w1 & Hb%launch_io_Ok & Hk)%launch_bind_Ok. apply read_bytes_Ok in Hb as [Hb Hw].
  apply launch_bind_Ok in Hk as (der & ? & [Hd%map_err_Ok ->]%launch_lift_Ok & Hk).
  apply launch_bind_Ok in Hk as (spki & ? & [Hs%map_err_Ok ->]%launch_lift_Ok & Hk). injection Hk as <- <-.
  split; [|done]. by exists bytes, der, spki.
Qed.

Lemma parse_entries_Ok entries domains w keys w' : parse_entries entries domains w = (Ok keys, w') ->
  Forall2 (published w) entries keys /\ NoDup (map domain keys) /\ (forall key d, key ∈ keys -> domain key = Some d -> d ∉ domains).
Proof.
  revert domains w keys w'. induction entries as [|entry entries IH]; intros domains w keys w'; cbn [parse_entries].
  { intros Hk. injection Hk as <- _. split; [constructor|]. split; [constructor|]. by intros key d ?%elem_of_nil. }
  intros Hk. apply launch_bind_Ok in Hk as (d & ? & [Hd ->]%launch_lift_Ok & Hk).
  apply launch_bind_Ok in Hk as (? & ? & [Hdup ->]%launch_lift_Ok & Hk). case_bool_decide as Hnd; [done|].
  apply launch_bind_Ok in Hk as (? & ? & [_ ->]%launch_lift_Ok & Hk).
  apply launch_bind_Ok in Hk as (key & w1 & Hkey & Hk). apply launch_bind_Ok in Hk as (keys' & w2 & Hrest & Hk).
  injection Hk as <- _. apply tls_spki_Ok in Hkey as [(bytes & der & spki & Hf & Hder & Hspki & ->) Hw].
  destruct (IH _ _ _ _ Hrest) as (Hall & Hdist & Hfresh). split_and!.
  - constructor; [by exists d, bytes, der, spki|]. eapply Forall2_impl; [exact Hall|]. unfold published. by rewrite Hw.
  - cbn. constructor; [|done]. intros (key & Heq & Hin)%list_elem_of_fmap. apply (Hfresh _ _ Hin (eq_sym Heq)). by left.
  - intros key d' [->|Hin]%elem_of_cons Hd'; [by injection Hd' as ->|]. intros Hin'. apply (Hfresh _ _ Hin Hd'). by right.
Qed.

Lemma normalize_same raw d : normalize_config_domain raw = Ok d -> normalize_downstream_domain raw = Some d.
Proof. unfold normalize_config_domain, normalize_downstream_domain. cbn zeta. destruct (_ || _); by intros [= ->]. Qed.

Lemma find_domain keys key d : NoDup (map domain keys) -> key ∈ keys -> domain key = Some d ->
  List.find (fun k => bool_decide (domain k = Some d)) keys = Some key.
Proof.
  intros Hnd. induction keys as [|k keys IH]; [by intros ?%elem_of_nil|]. apply NoDup_cons in Hnd as [Hk Hnd].
  intros Hin Hd. cbn. case_bool_decide as Heq.
  - apply elem_of_cons in Hin as [->|Hin]; [done|]. destruct Hk. rewrite Heq, <- Hd. by apply list_elem_of_fmap_2.
  - apply elem_of_cons in Hin as [->|Hin]; [done|]. by apply IH.
Qed.

(** What precedes the certificates reads files only. *)
Lemma prepare_tls env w p w' : prepare env w = (Ok p, w') ->
  exists w1 w2, (forall path, files w1 !! path = files w !! path)
    /\ resolve_tls_public_keys (domain_certificates (pr_file p)) w1 = (Ok (pr_tls p), w2).
Proof.
  unfold prepare. intros (path & w1 & [_ ->]%launch_lift_Ok & Hp)%launch_bind_Ok.
  apply launch_bind_Ok in Hp as (file & w2 & Hfile & Hp). apply launch_bind_Ok in Hp as (dir & ? & [_ ->]%launch_lift_Ok & Hp).
  apply launch_bind_Ok in Hp as (? & w3 & Hdir & Hp). apply launch_bind_Ok in Hp as (sp & w4 & Hsp & Hp).
  apply launch_bind_Ok in Hp as (tls & w5 & Htls & Hp). do 3 (apply launch_bind_Ok in Hp as (? & ? & _ & Hp)).
  injection Hp as <- _. exists w4, w5. split; [|exact Htls]. intros q.
  pose proof (leaves_provenance (fun _ => True) w3 q I) as Hf1. rewrite Hsp in Hf1. cbn in Hf1. rewrite Hf1.
  pose proof (leaves_mkdir (fun _ => True) (fun e => LInvalidInput ("failed to create gateway state directory " +:+ dir +:+ ": " +:+ message e))
    dir w2 q I) as Hf2. rewrite Hdir in Hf2. cbn in Hf2. rewrite Hf2.
  assert (Hf3 : leaves (fun _ => True) (load_gateway_config path)).
  { apply leaves_bind; [apply leaves_read|intros; apply leaves_pure]. }
  specialize (Hf3 w q I). by rewrite Hfile in Hf3.
Qed.

(** The TLS keys a gateway vouches for are those of the certificates its
    configuration lists: once it has started, the report for a configured domain,
    however the host is spelled, is bound to the SHA-256 of the public key in that
    domain's certificate file, and no domain is listed twice. *)
Theorem launch_binds_domains locks env epoch_now compact_now w l w' :
  launch locks env epoch_now compact_now w = (Ok l, w') ->
  exists p w1, prepare env w = (Ok p, w1) /\
    forall entry host d, entry ∈ domain_certificates (pr_file p) ->
      normalize_config_domain (tls_domain entry) = Ok d -> normalize_downstream_domain host = Some d ->
      requires_host_for_downstream_tls_binding (app_service (la_app l)) = true
      /\ exists bytes der spki, files w !! path_of (str_trim (certificate_path entry)) = Some bytes
         /\ leaf_certificate_der bytes = Ok der /\ x509_spki der = Ok spki
         /\ downstream_tls_binding (app_service (la_app l)) host
            = Some ({{ "domain" ≔ Str d; "spki_sha256" ≔ Str (hex_encode (sha256 spki)) }}).
Proof.
  intros (p & w1 & w2 & w3 & epoch & Hp & _ & _ & _ & Hks & _)%launch_Ok. exists p, w1. split; [done|].
  intros entry host d Hin Hd Hhost. destruct (prepare_tls _ _ _ _ Hp) as (w4 & w5 & Hsame & Htls).
  unfold resolve_tls_public_keys in Htls. destruct (domain_certificates (pr_file p)) as [|e es]; [by apply elem_of_nil in Hin|].
  apply launch_bind_Ok in Htls as (keys & w6 & Hkeys & Htls). injection Htls as Htls _.
  unfold parse_domain_cert_entries in Hkeys. apply launch_bind_Ok in Hkeys as (keys' & w7 & Hkeys & Hne).
  apply parse_entries_Ok in Hkeys as (Hall & Hnd & _). assert (keys' = keys) as ->.
  { destruct keys'; [done|]. by injection Hne as <- _. }
  apply list_elem_of_lookup in Hin as [i Hi]. destruct (Forall2_lookup_l _ _ _ _ _ Hall Hi) as (key & Hkey & Hpub).
  destruct Hpub as (d' & bytes & der & spki & Hd' & Hf & Hder & Hspki & ->). rewrite Hd in Hd'. injection Hd' as <-.
  apply list_elem_of_lookup_2 in Hkey as Hmem. split.
  - unfold requires_host_for_downstream_tls_binding. rewrite Hks, <- Htls. cbn [tls_public_keys make_keyset default].
    apply existsb_exists. eexists. split; [by apply list_elem_of_In|]. by apply bool_decide_eq_true_2.
  - exists bytes, der, spki. rewrite <- Hsame. split_and!; try done. unfold downstream_tls_binding. rewrite Hhost. cbn [mbind option_bind].
    unfold tls_key_for. rewrite Hks, <- Htls. cbn [tls_public_keys make_keyset default from_option].
    change (id keys) with keys. by rewrite (find_domain keys _ d Hnd Hmem eq_refl).
Qed.

(** ** Seeding *)

Lemma read_to_string_settled path fs w : files w !! path = fs ->
  read_to_string path (settled w) = (match fs with
                                     | Some t => if valid_utf8b t then Ok t else Err not_utf8
                                     | None => Err not_found
                                     end, settled w).
Proof. unfold read_to_string, with_fault, settled. cbn. intros ->. by destruct fs. Qed.

(** Without a fault an empty target is given the seed, and the manager loads it. *)
Lemma seed_then_load target seed text config w :
  (files w !! target = None \/ exists t, files w !! target = Some t /\ valid_utf8b t = true /\ is_blank t = true) ->
  files w !! path_of seed = Some text -> valid_utf8b text = true -> parse_config_text text = Ok config ->
  exists w', seed_upstream_config_if_empty target (Some seed) (settled w) = (Ok tt, settled w')
    /\ files w' !! target = Some text /\ read_config_file target (settled w') = (Ok config, settled w').
Proof.
  intros Htarget Hseed Hutf Hparse. set (w' := {| files := <[target := text]> (files w); faults := [] |}).
  assert (Hlook : files w' !! target = Some text) by apply lookup_insert_eq. exists w'. split; [|split; [done|]].
  - unfold seed_upstream_config_if_empty, mbind, launch_bind, target_has_config. destruct Htarget as [Ht|(t & Ht & Hu & Hb)].
    all: rewrite (read_to_string_settled _ _ _ Ht); rewrite ?Hu, ?Hb; cbn [kind not_found negb].
    all: unfold launch_io at 1; rewrite (read_to_string_settled _ _ _ Hseed), Hutf; cbn [map_err]; unfold launch_lift; rewrite Hparse; reflexivity.
  - unfold read_config_file. rewrite (read_to_string_settled _ _ _ Hlook), Hutf. by rewrite Hparse.
Qed.

(** Seeding is not atomic: when the write of the seed fails after a part that is
    not blank and is no valid configuration, the start fails, and so does every
    later one, which takes the torn file for a configuration, does not seed again,
    and cannot parse it. *)
Theorem torn_seed_blocks_start target seed text config f e m :
  m !! target = None -> m !! path_of seed = Some text -> valid_utf8b text = true -> parse_config_text text = Ok config ->
  let part := String.substring 0 (fault_written f) text in
  valid_utf8b part = true -> is_blank part = false -> config_from_str part = Err e ->
  exists torn,
    seed_upstream_config_if_empty target (Some seed) {| files := m; faults := [None; None; None; Some f] |} = (Err (LIo (fault_error f)), settled torn)
    /\ seed_upstream_config_if_empty target (Some seed) (settled torn) = (Ok tt, settled torn)
    /\ launch_manager target (settled torn) = (Err (LConfig (InvalidConfig (InvalidJson e))), settled torn).
Proof.
  intros Ht Hseed Hutf Hparse part Hpu Hpb Hcodec. set (torn := {| files := <[target := part]> m; faults := [] |}).
  assert (Hlook : files torn !! target = Some part) by apply lookup_insert_eq. exists torn. split_and!.
  - unfold seed_upstream_config_if_empty, mbind, launch_bind, target_has_config, read_to_string, with_fault, launch_io. cbn [faults files].
    rewrite Ht. cbn [kind not_found files faults]. rewrite Hseed, Hutf. cbn [map_err]. unfold launch_lift. rewrite Hparse. reflexivity.
  - unfold seed_upstream_config_if_empty, mbind, launch_bind, target_has_config.
    rewrite (read_to_string_settled _ _ _ Hlook), Hpu. by rewrite Hpb.
  - unfold launch_manager, manager_load, read_config_file. rewrite (read_to_string_settled _ _ _ Hlook), Hpu.
    unfold parse_config_text. by rewrite Hpb, Hcodec.
Qed.
End Assemble.

(** ** Witnesses *)

Module DemoLauncher.
Import DemoDstack.
#[export] Existing Instances demo_serde demo_debug Upstream.demo_http demo_transport demo_build Revocation.demo_codec epoch_codec.
#[export] Existing Instances SessionStore.demo_base64 demo_log_codec.

(** A configuration text is the empty list or does not parse. *)
#[export] Instance configs : ConfigCodec := {|
  to_vec_pretty _ := Ok "[]"; to_value _ := Ok (Arr []);
  config_from_str t := if String.eqb t "[]" then Ok [] else Err "EOF" |}.

#[export] Instance libs : LauncherLibs := {|
  gateway_config_from_str _ := Ok {|
    g_bind := None; g_state_dir := Some " /state "; upstream_config_seed_path := Some "/etc/seed.json"; g_admin_token := Some "root";
    g_api_token := None; keyset_epoch_window_seconds := Some 3600;
    domain_certificates := [{| tls_domain := "Example.com."; certificate_path := "/certs/a.der" |}];
    dstack_endpoint := None; g_middleware := None |};
  pem_certs _ := Ok []; x509_spki der := Ok der; config_error_text _ := "config" |}.

#[export] Instance launcher_laws : LauncherLaws.
Proof. intros text file win [= <-] [= <-]. done. Qed.

Definition base : gmap Path string :=
  {[ ("/etc", "gateway.json") := "{}"; ("/etc", "seed.json") := "[]"; ("/certs", "a.der") := "cert" ]}.

Definition start (m : gmap Path string) : result LaunchError Launched * World :=
  launch (fun _ => tt) ∅ (Some " /etc/gateway.json ") 1000 1000 {| files := m; faults := [] |}.

Definition digest_of (r : result LaunchError (Launched (V := unit))) : string :=
  match r with Ok l => svc_workload_keyset_digest (app_service (la_app l)) | Err _ => "" end.

(** The keyset the first start served has been revoked since. *)
Definition revoked : gmap Path string :=
  match to_string_pretty [demo_statement (digest_of (start base).1)] with
  | Ok t => <[("/state", "revocations.json") := t +:+ newline]> base
  | Err _ => base
  end.

(** What the second start serves: its second epoch, under the one revocation. *)
Definition keyset_utf8b (ks : WorkloadKeyset) : bool :=
  let material := public_key (workload_identity ks) in
  valid_utf8b (pk_algo material) && valid_utf8b (pk_public_key_hex material)
  && forallb (fun k => valid_utf8b (key_id k) && valid_utf8b (algo k) && valid_utf8b (public_key_hex k))
       (receipt_signing_keys ks ++ e2ee_public_keys ks)
  && forallb (fun t => valid_utf8b (default "" (domain t)) && valid_utf8b (spki_sha256_hex t)) (tls_public_keys ks).

Lemma keyset_utf8b_wf ks : keyset_utf8b ks = true -> subject (workload_identity ks) = None \/ subject (workload_identity ks) = Some "leviathan:ai-gateway" ->
  wf_epoch (keyset_epoch ks) -> wf_keyset ks.
Proof.
  unfold keyset_utf8b. rewrite !andb_true_iff, forallb_app, andb_true_iff, !forallb_forall. intros [[[Ha Hh] [Hr He]] Ht] Hs Hep.
  assert (Hkeys : forall l, (forall k, In k l -> valid_utf8b (key_id k) && valid_utf8b (algo k) && valid_utf8b (public_key_hex k) = true) ->
    Forall wf_keyed l).
  { intros l Hl. apply Forall_forall. intros k Hin. specialize (Hl k). rewrite !andb_true_iff in Hl.
    destruct Hl as [[??]?]; [by apply list_elem_of_In|]. by split_and!; apply valid_utf8b_sound. }
  split; [|done|by apply Hkeys..|].
  - split; [split; by apply valid_utf8b_sound|]. destruct Hs as [->| ->]; [done|]. by apply valid_utf8b_sound.
  - apply Forall_forall. intros t Hin. specialize (Ht t). rewrite andb_true_iff in Ht. destruct Ht as [Hd Hx]; [by apply list_elem_of_In|].
    split; [|by apply valid_utf8b_sound]. destruct (domain t); [by apply valid_utf8b_sound|done].
Qed.

Definition second_start (l : Launched (V := unit)) : bool :=
  let ks := keyset (app_service (la_app l)) in
  keyset_utf8b ks && bool_decide (subject (workload_identity ks) = Some "leviathan:ai-gateway")
  && (version (keyset_epoch ks) =? 2) && (not_after (keyset_epoch ks) =? 4600)
  && bool_decide ((m_path (la_manager l)).1 = "/state") && Nat.eqb (length (statements (la_revocations l))) 1.

Definition is_second_start (r : result LaunchError (Launched (V := unit)) * World) : bool :=
  match r.1 with Ok l => second_start l | Err _ => false end.

Lemma second_start_true : is_second_start (start revoked) = true.
Proof. vm_compute. reflexivity. Qed.

Lemma started_Ok (r : result LaunchError (Launched (V := unit)) * World) :
  is_second_start r = true -> exists l w', r = (Ok l, w') /\ second_start l = true.
Proof. unfold is_second_start. destruct r as [[l|e] w']; [|discriminate]. intros Hs. by exists l, w'. Qed.

Lemma no_epoch previous : on_disk (keyset_epoch_path "/state") {| files := revoked; faults := [] |} previous -> previous = None.
Proof. unfold on_disk. vm_compute. by intros [= <-]. Qed.

Lemma launch_serves_unrevoked_witness :
  exists l, (start revoked).1 = Ok l
  /\ version (keyset_epoch (keyset (app_service (la_app l)))) = 2
  /\ (is_keyset_revoked (app_service (la_app l)) (la_revocations l) = false
      \/ exists e1 e2, value_collision (WorkloadKeyset_value (with_epoch (keyset (app_service (la_app l))) e1))
                                       (WorkloadKeyset_value (with_epoch (keyset (app_service (la_app l))) e2))).
Proof.
  destruct (started_Ok (start revoked) second_start_true) as (l & w' & E & Hs).
  unfold second_start in Hs. rewrite !andb_true_iff, !bool_decide_eq_true, !Z.eqb_eq, Nat.eqb_eq in Hs.
  destruct Hs as [[[[[Hutf Hsub] Hver] Hnot] Hdir] Hrevs]. exists l. split; [exact (f_equal fst E)|]. split; [exact Hver|].
  refine (proj2 (launch_serves_unrevoked (fun _ => tt) ∅ _ 1000 _ _ l w' E _ _ _)).
  - apply keyset_utf8b_wf; [exact Hutf|by right|]. unfold wf_epoch, is_u64. rewrite Hver, Hnot. vm_compute. repeat split; discriminate.
  - vm_compute. split; discriminate.
  - intros previous Hd. rewrite Hdir in Hd. rewrite (no_epoch _ Hd), Hrevs. split; [discriminate|]. vm_compute. split; discriminate.
Defined.

Lemma launch_binds_domains_witness :
  exists l v, (start revoked).1 = Ok l /\ downstream_tls_binding (app_service (la_app l)) "EXAMPLE.com" = Some v.
Proof.
  destruct (started_Ok (start revoked) second_start_true) as (l & w' & E & _).
  destruct (launch_binds_domains (fun _ => tt) ∅ _ _ _ _ l w' E) as (p & w1 & Hp & Hb).
  assert (Hf : domain_certificates (pr_file p) = [{| tls_domain := "Example.com."; certificate_path := "/certs/a.der" |}]).
  { apply (f_equal (fun r => match r.1 with Ok q => domain_certificates (pr_file q) | Err _ => [] end)) in Hp. cbn [fst] in Hp.
    rewrite <- Hp. vm_compute. reflexivity. }
  rewrite Hf in Hb.
  destruct (Hb {| tls_domain := "Example.com."; certificate_path := "/certs/a.der" |} "EXAMPLE.com" "example.com" ltac:(by left)
    ltac:(vm_compute; reflexivity) ltac:(vm_compute; reflexivity)) as (_ & bytes & der & spki & _ & _ & _ & Hbind).
  exists l. eexists. split; [exact (f_equal fst E)|exact Hbind].
Defined.

Lemma torn_seed_blocks_start_witness :
  exists torn, launch_manager ("/state", "upstreams.json") (settled torn) = (Err (LConfig (InvalidConfig (InvalidJson "EOF"))), settled torn).
Proof.
  destruct (torn_seed_blocks_start ("/state", "upstreams.json") "/etc/seed.json" "[]" [] (mkFault "disk full" 1) "EOF" base)
    as (torn & _ & _ & Hl); [vm_compute; reflexivity..|]. exists torn. exact Hl.
Defined.
End DemoLauncher.
