(* ===== verification/RelyingParty.v ===== *)
(** * The relying party

    Model of [examples/verify_aci_artifacts.rs]: the program with which a client
    checks what a gateway gave it, a report, a receipt and an attested session,
    following the levels of the specification.  The theorems run it against the
    gateway of this development: what [Service.v], [Forward.v] and [Dstack.v]
    issue is what this program accepts.  The command line is a list of arguments
    and standard output the values printed; [serde_json], base64 and the
    signature schemes are parameters. *)
From S2P Require Import Prelude StrOps Json Serde Canonical Identity Fs Revocation Receipt ReceiptStore Session SessionStore.
From S2P Require Import Upstream UpstreamConfig AciVerifier Verifiers Claims E2ee E2eeFields Service Forward Access Dstack.
Import Types.

Record Args := {
  a_report_path : string;
  a_receipt_path : string;
  a_session_path : option string;
  a_nonce : option string;
  a_request_body_path : option string;
  a_response_body_path : option string;
  a_skip_freshness : bool;
}.

Definition Args_default : Args := {|
  a_report_path := ""; a_receipt_path := ""; a_session_path := None; a_nonce := None; a_request_body_path := None;
  a_response_body_path := None; a_skip_freshness := false |}.

(** What ends the program early: the usage text, with status 0, or an error. *)
Inductive Stop := ShowUsage | Fail (message : string).

(** The value of a flag, written into the arguments. *)
Definition flag_setter (flag : string) : option (string -> Args -> Args) :=
  if String.eqb flag "--report" then Some (fun v a =>
    {| a_report_path := v; a_receipt_path := a_receipt_path a; a_session_path := a_session_path a; a_nonce := a_nonce a;
       a_request_body_path := a_request_body_path a; a_response_body_path := a_response_body_path a; a_skip_freshness := a_skip_freshness a |})
  else if String.eqb flag "--receipt" then Some (fun v a =>
    {| a_report_path := a_report_path a; a_receipt_path := v; a_session_path := a_session_path a; a_nonce := a_nonce a;
       a_request_body_path := a_request_body_path a; a_response_body_path := a_response_body_path a; a_skip_freshness := a_skip_freshness a |})
  else if String.eqb flag "--session" then Some (fun v a =>
    {| a_report_path := a_report_path a; a_receipt_path := a_receipt_path a; a_session_path := Some v; a_nonce := a_nonce a;
       a_request_body_path := a_request_body_path a; a_response_body_path := a_response_body_path a; a_skip_freshness := a_skip_freshness a |})
  else if String.eqb flag "--nonce" then Some (fun v a =>
    {| a_report_path := a_report_path a; a_receipt_path := a_receipt_path a; a_session_path := a_session_path a; a_nonce := Some v;
       a_request_body_path := a_request_body_path a; a_response_body_path := a_response_body_path a; a_skip_freshness := a_skip_freshness a |})
  else if String.eqb flag "--request-body" then Some (fun v a =>
    {| a_report_path := a_report_path a; a_receipt_path := a_receipt_path a; a_session_path := a_session_path a; a_nonce := a_nonce a;
       a_request_body_path := Some v; a_response_body_path := a_response_body_path a; a_skip_freshness := a_skip_freshness a |})
  else if String.eqb flag "--response-body" then Some (fun v a =>
    {| a_report_path := a_report_path a; a_receipt_path := a_receipt_path a; a_session_path := a_session_path a; a_nonce := a_nonce a;
       a_request_body_path := a_request_body_path a; a_response_body_path := Some v; a_skip_freshness := a_skip_freshness a |})
  else None.

Definition skip_freshness (a : Args) : Args :=
  {| a_report_path := a_report_path a; a_receipt_path := a_receipt_path a; a_session_path := a_session_path a; a_nonce := a_nonce a;
     a_request_body_path := a_request_body_path a; a_response_body_path := a_response_body_path a; a_skip_freshness := true |}.

Fixpoint parse_loop (argv : list string) (args : Args) : result Stop Args :=
  match argv with
  | [] => Ok args
  | arg :: rest =>
      match flag_setter arg with
      | Some set =>
          match rest with
          | [] => Err (Fail (arg +:+ " requires a value"))
          | v :: rest => parse_loop rest (set v args)
          end
      | None =>
          if String.eqb arg "--skip-freshness" then parse_loop rest (skip_freshness args)
          else if String.eqb arg "--help" || String.eqb arg "-h" then Err ShowUsage
          else Err (Fail ("unknown argument: " +:+ arg))
      end
  end.

(** [argv] is what follows the program's name. *)
Definition parse_args (argv : list string) : result Stop Args :=
  args ← parse_loop argv Args_default;
  if String.eqb (a_report_path args) "" then Err (Fail "--report is required")
  else if String.eqb (a_receipt_path args) "" then Err (Fail "--receipt is required")
  else Ok args.

(** ** JSON *)

Definition field_str (value : Value) (key : string) : option string := get value key ≫= as_str.

Definition receipt_events (receipt : Value) : list Value := default [] (get receipt "event_log" ≫= as_array).

Definition event_by_type (receipt : Value) (event_type : string) : option Value :=
  find (fun event => bool_decide (field_str event "type" = Some event_type)) (receipt_events receipt).

Definition transparency_consistent (receipt : Value) : bool :=
  let hash event_type := event_by_type receipt event_type ≫= fun e => field_str e "body_hash" in
  let rewritten := match hash "request.received", hash "request.forwarded" with
                   | Some received, Some forwarded => negb (String.eqb received forwarded)
                   | _, _ => false
                   end in
  negb rewritten || bool_decide (is_Some (event_by_type receipt "transparency.request_modified")).

(** The receipt without [signature.value]. *)
Definition unsigned (receipt : Value) : Value :=
  match receipt with
  | Obj m =>
      match map_get "signature" m with
      | Some (Obj sig) => Obj (map_insert "signature" (Obj (map_remove "value" sig)) m)
      | _ => receipt
      end
  | _ => receipt
  end.

Record SessionAudit := {
  sa_session_id : string;
  recomputed_session_id : string;
  session_id_matches : bool;
  evidence_digest_valid : bool;
  referenced_by_receipt : bool;
}.

Definition SessionAudit_is_ok (a : SessionAudit) : bool :=
  session_id_matches a && evidence_digest_valid a && referenced_by_receipt a.

Definition SessionAudit_value (a : SessionAudit) : Value :=
  {{ "session_id" ≔ Str (sa_session_id a); "recomputed_session_id" ≔ Str (recomputed_session_id a);
     "session_id_matches" ≔ Bool (session_id_matches a); "evidence_digest_valid" ≔ Bool (evidence_digest_valid a);
     "referenced_by_receipt" ≔ Bool (referenced_by_receipt a) }}.

(** The texts of errors of the libraries. *)
Class AuditText : Type := {
  report_error_text : AciReportValidationError -> string;
  canonical_error_text : CanonicalError -> string;
}.

Section Audit.
Context `{Digest} `{AciVerifier.Crypto} `{CurveLibs} `{!Signers} `{VerifierLibs} `{SerdeJson} `{Base64} `{AuditText}.

Definition verify_receipt (receipt : Value) (report : AttestationReport) : result string bool :=
  signature ← ok_or (get receipt "signature") "receipt missing signature";
  kid ← ok_or (field_str signature "key_id") "receipt signature missing key_id";
  receipt_key ← ok_or (find (fun key => String.eqb (key_id key) kid) (receipt_signing_keys (workload_keyset (attestation report))))
                  ("receipt signature key_id " +:+ debug kid +:+ " is not in the attested keyset");
  value_hex ← ok_or (field_str signature "value") "receipt signature missing value";
  sig ← map_err (fun e => "invalid receipt signature hex: " +:+ e) (hex_decode value_hex);
  canonical ← map_err (fun e => "failed to canonicalize receipt: " +:+ canonical_error_text e) (canonicalize (unsigned receipt));
  Ok (verify_receipt_signature receipt_key canonical sig).

Definition recompute_session_id (record : Value) : result string string :=
  let required key := ok_or (get record key) ("session record missing " +:+ debug key) in
  let optional key := default Null (get record key) in
  upstream_name ← required "upstream_name";
  verifier_id ← required "verifier_id";
  channel_binding ← required "channel_binding";
  claims ← required "claims";
  let material := {{ "upstream_name" ≔ upstream_name; "endpoint" ≔ optional "endpoint"; "verifier_id" ≔ verifier_id;
                     "identity" ≔ optional "identity"; "channel_binding" ≔ channel_binding; "claims" ≔ claims;
                     "evidence_digest" ≔ default Null (get record "evidence" ≫= fun evidence => get evidence "digest") }} in
  digest ← map_err (fun e => "failed to canonicalize session material: " +:+ canonical_error_text e) (jcs_sha256_hex material);
  Ok ("as_" +:+ strip_sha256 digest).

Definition evidence_digest_matches (evidence : option Value) : bool :=
  match evidence with
  | None => true
  | Some evidence =>
      match field_str evidence "digest", field_str evidence "data" with
      | Some digest, Some data_uri =>
          match after_first ";base64," data_uri with
          | None => true
          | Some b64 => match base64_decode b64 with
                        | Some bytes => String.eqb (sha256_hex bytes) digest
                        | None => false
                        end
          end
      | _, _ => true
      end
  end.

Definition audit_session (record receipt : Value) : result string SessionAudit :=
  id ← ok_or (field_str record "session_id") "session record missing string session_id";
  recomputed ← recompute_session_id record;
  Ok {| sa_session_id := id; recomputed_session_id := recomputed; session_id_matches := String.eqb recomputed id;
        evidence_digest_valid := evidence_digest_matches (get record "evidence");
        referenced_by_receipt :=
          existsb (fun event => bool_decide (field_str event "type" = Some "upstream.verified")
                                && bool_decide (field_str event "session_id" = Some id)) (receipt_events receipt) |}.

(** ** The program *)

Definition Audit (A : Type) : Type := World -> result string A * World.

#[export] Instance audit_ret : MRet Audit := fun A a w => (Ok a, w).
#[export] Instance audit_bind : MBind Audit := fun A B f m w =>
  match m w with (Ok a, w') => f a w' | (Err e, w') => (Err e, w') end.
Definition audit_lift {A} (r : result string A) : Audit A := fun w => (r, w).

Definition read_file (what path : string) : Audit string := fun w =>
  let '(r, w) := read_bytes (path_of path) w in (map_err (fun e => "failed to read " +:+ what +:+ path +:+ ": " +:+ message e) r, w).

Definition read_json_file (path : string) : Audit Value :=
  bytes ← read_file "" path; audit_lift (map_err (fun e => "failed to parse JSON " +:+ path +:+ ": " +:+ e) (from_slice bytes)).

Definition compare_body_hash (path : string) (receipt : Value) (event_type field : string) : Audit bool :=
  body ← read_file "body " path;
  event ← audit_lift (ok_or (event_by_type receipt event_type) ("receipt missing " +:+ event_type +:+ " event"));
  mret (bool_decide (field_str event field = Some (sha256_hex body))).

(** [Option::map(..).transpose()?] *)
Definition audit_opt {A B} (o : option A) (f : A -> Audit B) : Audit (option B) :=
  match o with None => mret None | Some a => b ← f a; mret (Some b) end.

Definition compare_response (receipt : Value) (path : string) : Audit bool :=
  body ← read_file "response body " path;
  event ← audit_lift (ok_or (event_by_type receipt "response.returned") "receipt missing response.returned event");
  mret (bool_decide (field_str event "cleartext_hash" = Some (sha256_hex body))
        || bool_decide (field_str event "wire_hash" = Some (sha256_hex body))).

Definition opt_str_value (o : option string) : Value := from_opt_str o.
Definition opt_bool_value (o : option bool) : Value := match o with Some b => Bool b | None => Null end.

Definition upstream_event_summary (event : Value) : Value :=
  {{ "seq" ≔ default Null (get event "seq");
     "result" ≔ from_opt_str (field_str event "result");
     "upstream_name" ≔ from_opt_str (field_str event "upstream_name");
     "provider_type" ≔ from_opt_str (field_str event "provider_type");
     "model_id" ≔ from_opt_str (field_str event "model_id");
     "url_origin" ≔ from_opt_str (field_str event "url_origin");
     "verifier_id" ≔ from_opt_str (field_str event "verifier_id");
     "required" ≔ opt_bool_value (get event "required" ≫= as_bool);
     "reason" ≔ from_opt_str (field_str event "reason");
     "session_id" ≔ from_opt_str (field_str event "session_id");
     "channel_binding_count" ≔ from_u64 (match get event "channel_bindings" ≫= as_array with
                                         | Some l => Z.of_nat (length l) | None => 0 end);
     "claims" ≔ default Null (get event "claims") }}.

Definition upstream_events (receipt : Value) : list Value :=
  map upstream_event_summary
    (List.filter (fun event => bool_decide (field_str event "type" = Some "upstream.verified")) (receipt_events receipt)).

Definition transparency_events (receipt : Value) : list Value :=
  map (fun event => {{ "seq" ≔ default Null (get event "seq"); "type" ≔ from_opt_str (field_str event "type") }})
    (List.filter (fun event => match field_str event "type" with Some t => starts_with "transparency." t | None => false end)
       (receipt_events receipt)).

(** Everything between the arguments and the exit status: the verdict and the
    summary that is printed.  [clock] is the system time, or why it is before
    the epoch. *)
Definition audit (args : Args) (clock : result string Z) : Audit (bool * Value) :=
  report_bytes ← read_file "report " (a_report_path args);
  report ← audit_lift (map_err (fun e => "failed to parse report JSON: " +:+ e) (parse_report report_bytes));
  raw ← read_json_file (a_receipt_path args);
  let receipt := default raw (get raw "receipt") in
  now ← audit_lift (if a_skip_freshness args then Ok (fetched_at (freshness (attestation report)))
                    else map_err (fun e => "system time is before UNIX_EPOCH: " +:+ e) clock);
  validated ← audit_lift (map_err (fun e => "ACI report binding failed: " +:+ report_error_text e)
                (validate_aci_report_binding report (a_nonce args) now (Some report_bytes)));
  let identity_match := bool_decide (field_str receipt "workload_id" = Some (v_workload_id validated))
                        && bool_decide (field_str receipt "workload_keyset_digest" = Some (v_workload_keyset_digest validated)) in
  signature_valid ← audit_lift (verify_receipt receipt report);
  request_valid ← audit_opt (a_request_body_path args) (fun path => compare_body_hash path receipt "request.received" "body_hash");
  response_valid ← audit_opt (a_response_body_path args) (compare_response receipt);
  session_audit ← audit_opt (a_session_path args) (fun path =>
    record ← read_json_file path; audit_lift (audit_session record receipt));
  let verified := identity_match && signature_valid && default true request_valid && default true response_valid
                  && transparency_consistent receipt && match session_audit with Some a => SessionAudit_is_ok a | None => true end in
  mret (verified,
    {{ "verified" ≔ Bool verified;
       "report_binding_valid" ≔ Bool true;
       "identity_match" ≔ Bool identity_match;
       "receipt_signature_valid" ≔ Bool signature_valid;
       "request_hash_valid" ≔ opt_bool_value request_valid;
       "response_hash_valid" ≔ opt_bool_value response_valid;
       "transparency_consistent" ≔ Bool (transparency_consistent receipt);
       "workload_id" ≔ Str (v_workload_id validated);
       "workload_keyset_digest" ≔ Str (v_workload_keyset_digest validated);
       "receipt_id" ≔ from_opt_str (field_str receipt "receipt_id");
       "chat_id" ≔ default Null (get receipt "chat_id");
       "requested_model" ≔ default Null (get receipt "model");
       "upstream_events" ≔ Arr (upstream_events receipt);
       "transparency_events" ≔ Arr (transparency_events receipt);
       "session_audit" ≔ match session_audit with Some a => SessionAudit_value a | None => Null end }}).

(** The values printed, and the error of the program. *)
Definition run (argv : list string) (clock : result string Z) (w : World) : list Value * result Stop unit :=
  match parse_args argv with
  | Err stop => ([], Err stop)
  | Ok args =>
      match (audit args clock w).1 with
      | Err e => ([], Err (Fail e))
      | Ok (verified, summary) => ([summary], if verified then Ok tt else Err (Fail "ACI artifact verification failed"))
      end
  end.

(** ** Reading a receipt back *)

(** The fields of an event that survive in its JSON form. *)
Definition plain_event (e : ReceiptEvent) : Prop :=
  exists m, fields e = Obj m /\ NoDup (["seq"; "type"] ++ map_keys m).

Lemma plain_event_value e m : fields e = Obj m -> NoDup (["seq"; "type"] ++ map_keys m) ->
  ReceiptEvent_value e = Obj ([("seq", from_u64 (seq e)); ("type", Str (event_type e))] ++ m).
Proof. intros Hf Hnd. unfold ReceiptEvent_value. rewrite Hf. cbn [map_insert String.eqb Ascii.eqb Bool.eqb]. by rewrite fold_insert_fresh. Qed.

Lemma event_value_type e : plain_event e -> field_str (ReceiptEvent_value e) "type" = Some (event_type e).
Proof. intros (m & Hf & Hnd). by rewrite (plain_event_value _ _ Hf Hnd). Qed.

Lemma event_value_field e k : plain_event e -> k <> "seq" -> k <> "type" -> field_str (ReceiptEvent_value e) k = field_str (fields e) k.
Proof.
  intros (m & Hf & Hnd) Hs Ht. rewrite (plain_event_value _ _ Hf Hnd), Hf. unfold field_str. cbn.
  destruct (String.eqb_spec k "seq"); [done|]. by destruct (String.eqb_spec k "type").
Qed.

Lemma receipt_value_events r b : receipt_events (Receipt_value r b) = map ReceiptEvent_value (event_log r).
Proof. done. Qed.

(** A field of the first event of a type, in a log. *)
Definition log_field (log : list (string * Value)) (ty k : string) : option string :=
  find (fun e => bool_decide (e.1 = ty)) log ≫= fun e => field_str e.2 k.

Lemma find_event l ty : Forall plain_event l ->
  find (fun event => bool_decide (field_str event "type" = Some ty)) (map ReceiptEvent_value l)
  = ReceiptEvent_value <$> find (fun e => bool_decide (event_type e = ty)) l.
Proof.
  induction 1 as [|e l He Hl IH]; [done|]. cbn [map find]. rewrite (event_value_type e He).
  destruct (decide (event_type e = ty)) as [->|Hne].
  - by rewrite !bool_decide_eq_true_2 by done.
  - rewrite !bool_decide_eq_false_2; [done|done|congruence].
Qed.

Lemma find_log l ty :
  find (fun e => bool_decide (e.1 = ty)) (log_of l)
  = (fun e => (event_type e, fields e)) <$> find (fun e => bool_decide (event_type e = ty)) l.
Proof. induction l as [|e l IH]; [done|]. cbn. by case_bool_decide. Qed.

Lemma event_field r b ty k : Forall plain_event (event_log r) -> k <> "seq" -> k <> "type" ->
  (event_by_type (Receipt_value r b) ty ≫= fun e => field_str e k) = log_field (log_of (event_log r)) ty k.
Proof.
  intros Hp Hs Ht. unfold event_by_type, log_field. rewrite receipt_value_events, find_event, find_log by done.
  destruct (find _ (event_log r)) as [e|] eqn:E; [|done]. cbn. apply event_value_field; try done.
  apply find_some in E as [Hin _]. rewrite Forall_forall in Hp. apply Hp. by apply list_elem_of_In.
Qed.

Lemma event_present r b ty : Forall plain_event (event_log r) ->
  (exists e, event_by_type (Receipt_value r b) ty = Some e /\ forall k, k <> "seq" -> k <> "type" ->
     field_str e k = log_field (log_of (event_log r)) ty k) <-> ty ∈ map fst (log_of (event_log r)).
Proof.
  intros Hp. split.
  - intros (e & He & _). unfold event_by_type in He. rewrite receipt_value_events, find_event in He by done.
    apply fmap_Some in He as (ev & (Hin & <-%bool_decide_eq_true)%find_some & _). unfold log_of. rewrite map_map.
    by apply (list_elem_of_fmap_2 (fun e => (event_type e, fields e).1)), list_elem_of_In.
  - intros Hin. destruct (event_by_type (Receipt_value r b) ty) as [e|] eqn:E.
    + exists e. split; [done|]. intros k Hs Ht. pose proof (event_field r b ty k Hp Hs Ht) as Hf. by rewrite E in Hf.
    + unfold event_by_type in E. rewrite receipt_value_events, find_event in E by done.
      destruct (find _ (event_log r)) eqn:Ef in E; [done|]. unfold log_of in Hin. rewrite map_map in Hin.
      apply list_elem_of_fmap in Hin as (ev & -> & Hev%list_elem_of_In). apply (find_none _ _ Ef) in Hev.
      by rewrite bool_decide_eq_true_2 in Hev.
Qed.

(** The event logs of this gateway have plain events. *)
Definition plain_log (log : list (string * Value)) : Prop :=
  Forall (fun e => exists m, e.2 = Obj m /\ NoDup (["seq"; "type"] ++ map_keys m)) log.

Lemma plain_log_events l : plain_log (log_of l) -> Forall plain_event l.
Proof. unfold plain_log, log_of. by rewrite Forall_fmap. Qed.

Lemma insert_plain k (v : Value) m : k <> "seq" -> k <> "type" ->
  NoDup (["seq"; "type"] ++ map_keys m) -> NoDup (["seq"; "type"] ++ map_keys (map_insert k v m)).
Proof.
  rewrite !NoDup_app. intros Hs Ht (Hn & Hd & Hm). split; [done|]. split; [|by apply map_insert_nodup].
  intros x Hx. rewrite map_keys_insert. case_decide; [by apply Hd|]. rewrite not_elem_of_app. split; [by apply Hd|].
  intros ->%list_elem_of_singleton. by apply elem_of_cons in Hx as [->| ->%list_elem_of_singleton].
Qed.

Lemma exchange_log_plain req p event recorded resp cb wb : plain_log (exchange_log req p event recorded resp cb wb).
Proof.
  assert (Hm : forall k b1 b2, plain_log (modified k b1 b2)).
  { intros k b1 b2. unfold modified. destruct (String.eqb b1 b2); repeat constructor. eexists. split; [done|].
    by apply (bool_decide_eq_true_1 _). }
  assert (Ho : forall ty m, bool_decide (NoDup (["seq"; "type"] ++ map_keys m)) = true -> plain_log [(ty, Obj m)]).
  { intros ty m Hb. repeat constructor. eexists. split; [done|]. by apply bool_decide_eq_true in Hb. }
  unfold exchange_log, request_log, plain_log. cbn zeta. rewrite !Forall_app. split_and!.
  - by apply Ho.
  - destruct (ctx_target_route_id _); [|constructor]. apply (Forall_app _ [_] [_]). by split; apply Ho.
  - by apply Ho.
  - apply Hm.
  - constructor; [|constructor]. eexists. split; [done|]. apply insert_plain; [done|done|]. unfold upstream_fields.
    destruct recorded as [[id cl]|]; [do 2 (apply insert_plain; [done|done|])|]; by apply (bool_decide_eq_true_1 _).
  - apply Hm.
  - by apply Ho.
Qed.

(** ** What the gateway issues is accepted *)

Lemma unsigned_receipt r : unsigned (Receipt_value r true) = Receipt_value r false.
Proof. reflexivity. Qed.

(** The session id of a record is recomputed from what is served of it. *)
Lemma recompute_served s id : content_id s = Ok id -> recompute_session_id (AttestedSession_value s) = Ok id.
Proof.
  unfold content_id, ContentMaterial_value, recompute_session_id, AttestedSession_value, EvidenceRef_value.
  destruct (s_endpoint s), (identity s), (digest (s_evidence s)), (data_uri (s_evidence s));
    cbn -[jcs_sha256_hex strip_sha256]; (destruct (jcs_sha256_hex _) as [d|]; [|done]);
    cbn -[strip_sha256]; by intros [= <-].
Qed.

Lemma evidence_served s : evidence_digest_matches (get (AttestedSession_value s) "evidence") = digest_matches_data (s_evidence s).
Proof.
  unfold AttestedSession_value, EvidenceRef_value, evidence_digest_matches, digest_matches_data.
  destruct (s_endpoint s), (identity s), (digest (s_evidence s)), (data_uri (s_evidence s)); reflexivity.
Qed.

(** The receipt cites the session. *)
Definition cites (r : Receipt.Receipt) (id : string) : Prop :=
  exists fields, (EVENT_UPSTREAM_VERIFIED, fields) ∈ log_of (event_log r) /\ field_str fields "session_id" = Some id.

Lemma audit_served_session r s : Forall plain_event (event_log r) -> content_id s = Ok (session_id s) ->
  digest_matches_data (s_evidence s) = true -> cites r (session_id s) ->
  exists a, audit_session (AttestedSession_value s) (Receipt_value r true) = Ok a /\ SessionAudit_is_ok a = true.
Proof.
  intros Hp Hid Hev (fs & Hin & Hc). unfold audit_session. change (field_str (AttestedSession_value s) "session_id") with (Some (session_id s)).
  cbn [ok_or mbind result_bind]. rewrite (recompute_served _ _ Hid). cbn [mbind result_bind]. eexists. split; [done|].
  unfold SessionAudit_is_ok. cbn [session_id_matches evidence_digest_valid referenced_by_receipt].
  rewrite String.eqb_refl, evidence_served, Hev. cbn [andb]. rewrite receipt_value_events. apply existsb_exists.
  apply list_elem_of_fmap in Hin as (e & Heq & He). injection Heq as Hty ->. exists (ReceiptEvent_value e).
  rewrite Forall_forall in Hp. split; [by apply in_map, list_elem_of_In|].
  rewrite event_value_type, <- Hty, event_value_field by (done || auto). rewrite Hc.
  by rewrite !bool_decide_eq_true_2.
Qed.

(** The log of an exchange is consistent. *)
Lemma exchange_transparent r req p event recorded resp cb wb :
  log_of (event_log r) = exchange_log req p event recorded resp cb wb -> transparency_consistent (Receipt_value r true) = true.
Proof.
  intros Hlog. assert (Hp : Forall plain_event (event_log r)) by (apply plain_log_events; rewrite Hlog; apply exchange_log_plain).
  unfold transparency_consistent. cbn zeta. rewrite !event_field by done. rewrite Hlog.
  assert (Hr : log_field (exchange_log req p event recorded resp cb wb) "request.received" "body_hash" = Some (sha256_hex (received_body req)))
    by done.
  assert (Hf : log_field (exchange_log req p event recorded resp cb wb) "request.forwarded" "body_hash"
               = Some (sha256_hex (req_body (p_request p)))).
  { unfold log_field, exchange_log, request_log. by destruct (ctx_target_route_id _). }
  rewrite Hr, Hf. destruct (String.eqb_spec (received_body req) (req_body (p_request p))) as [->|Hne].
  { by rewrite String.eqb_refl. }
  apply orb_true_iff. right. apply bool_decide_eq_true_2.
  destruct (proj2 (event_present r true "transparency.request_modified" Hp)) as (e & -> & _); [|done].
  rewrite Hlog. unfold exchange_log, request_log, modified. destruct (String.eqb_spec (received_body req) (req_body (p_request p))); [done|].
  rewrite !map_app, !elem_of_app. left. do 3 right. by left.
Qed.

(** The log names the bytes of both bodies. *)
Lemma exchange_hashes r req p event recorded resp cb wb :
  log_of (event_log r) = exchange_log req p event recorded resp cb wb ->
  (exists e, event_by_type (Receipt_value r true) "request.received" = Some e
     /\ field_str e "body_hash" = Some (sha256_hex (received_body req)))
  /\ exists e, event_by_type (Receipt_value r true) "response.returned" = Some e /\ field_str e "wire_hash" = Some (sha256_hex wb).
Proof.
  intros Hlog. assert (Hp : Forall plain_event (event_log r)) by (apply plain_log_events; rewrite Hlog; apply exchange_log_plain).
  split.
  - destruct (proj2 (event_present r true "request.received" Hp)) as (e & He & Hk).
    { rewrite Hlog. by left. }
    exists e. split; [done|]. by rewrite Hk, Hlog.
  - destruct (proj2 (event_present r true "response.returned" Hp)) as (e & He & Hk).
    { rewrite Hlog. unfold exchange_log. rewrite !map_app, !elem_of_app. do 3 right. by left. }
    exists e. split; [done|]. rewrite Hk, Hlog by done. unfold log_field, exchange_log, request_log, modified, transparency_event_type.
    destruct (ctx_target_route_id _), (String.eqb (received_body req) _), (String.eqb (resp_body resp) wb); reflexivity.
Qed.

Lemma audit_bind_Ok {A B} (m : Audit A) (f : A -> Audit B) w a : m w = (Ok a, w) -> (m ≫= f) w = f a w.
Proof. unfold mbind, audit_bind. by intros ->. Qed.

Lemma read_file_Ok what path w text : files w !! path_of path = Some text -> read_file what path (settled w) = (Ok text, settled w).
Proof. unfold read_file, read_bytes, with_fault, settled. cbn. by intros ->. Qed.

Lemma read_json_Ok path w text v : files w !! path_of path = Some text -> from_slice text = Ok v ->
  read_json_file path (settled w) = (Ok v, settled w).
Proof. intros Hf Hv. unfold read_json_file. rewrite (audit_bind_Ok _ _ _ _ (read_file_Ok _ _ _ _ Hf)). unfold audit_lift. by rewrite Hv. Qed.

(** The artifacts a client keeps of an exchange, as files: the report, the receipt
    as it is served by either endpoint, both bodies, and a session the receipt
    cites. *)
Record artifacts (args : Args) (w : World) (report : AttestationReport) (r : Receipt.Receipt) (request response : string) : Prop := {
  art_report : exists text, files w !! path_of (a_report_path args) = Some text /\ parse_report text = Ok report;
  art_receipt : exists text raw, files w !! path_of (a_receipt_path args) = Some text /\ from_slice text = Ok raw
    /\ (raw = Receipt_value r true \/ get raw "receipt" = Some (Receipt_value r true));
  art_request path : a_request_body_path args = Some path -> files w !! path_of path = Some request;
  art_response path : a_response_body_path args = Some path -> files w !! path_of path = Some response;
  art_session path : a_session_path args = Some path ->
    exists text s, files w !! path_of path = Some text /\ from_slice text = Ok (AttestedSession_value s)
      /\ content_id s = Ok (session_id s) /\ digest_matches_data (s_evidence s) = true /\ cites r (session_id s);
}.

(** What receipts need of a key provider. *)
Class ReceiptKeyLaws `{KeyProvider} : Prop := {
  receipt_key_verifies key bytes sig : key ∈ receipt_keys -> sign_receipt (key_id key) bytes = Ok sig ->
    verify_receipt_signature key bytes sig = true;
  receipt_key_ids key key' : key ∈ receipt_keys -> key' ∈ receipt_keys -> key_id key = key_id key' -> key = key';
}.

Section Exchange.
Context `{KeyProvider} `{!SignerLaws} `{!ReceiptKeyLaws} `{!HexLaws} `{E2eeKeys} `{Quoter}.
Context {V S Env : Type} `{SessionStoreOps S}.
Context `{UpstreamVerifier V (Shared S Env Rng)} `{!Outside (Shared S Env Rng)}.

Lemma issued_receipt_verifies b kid r report : finalize b kid = Ok r ->
  receipt_signing_keys (workload_keyset (attestation report)) = receipt_keys -> verify_receipt (Receipt_value r true) report = Ok true.
Proof.
  intros (bytes & sig & k & Hb & Hs & Hsig & Hk & Hid & _)%finalize_signs Hkeys. unfold verify_receipt.
  change (get (Receipt_value r true) "signature") with
    (Some ({{ "algo" ≔ Str (sig_algo (signature r)); "key_id" ≔ Str (sig_key_id (signature r)); "value" ≔ Str (sig_value_hex (signature r)) }})).
  cbn [ok_or mbind result_bind field_str get map_get as_str String.eqb Ascii.eqb Bool.eqb option_bind]. rewrite Hkeys, Hsig.
  cbn [sig_key_id sig_value_hex].
  destruct (find (fun key => String.eqb (key_id key) kid) receipt_keys) as [k'|] eqn:Ef.
  2: { apply list_elem_of_In in Hk. apply (find_none _ _ Ef) in Hk. rewrite Hid, String.eqb_refl in Hk. done. }
  apply find_some in Ef as [Hk'%list_elem_of_In Hid'%String.eqb_eq].
  assert (k' = k) as -> by (apply receipt_key_ids; [done|done|congruence]).
  cbn [ok_or mbind result_bind]. rewrite hex_decode_encode. cbn [map_err mbind result_bind]. rewrite unsigned_receipt.
  unfold canonical_bytes_for_signing in Hb. apply map_err_Ok in Hb. rewrite Hb. cbn [map_err mbind result_bind]. f_equal.
  apply receipt_key_verifies; [done|]. by rewrite Hid.
Qed.

Lemma audit_opt_Ok {A B} (o : option A) (f : A -> Audit B) (P : B -> Prop) w :
  (forall a, o = Some a -> exists b, f a w = (Ok b, w) /\ P b) ->
  exists ob, audit_opt o f w = (Ok ob, w) /\ forall b, ob = Some b -> P b.
Proof.
  destruct o as [a|]; intros Ha; [|by exists None]. destruct (Ha a eq_refl) as (b & Hb & HP). exists (Some b).
  cbn. rewrite (audit_bind_Ok _ _ _ _ Hb). split; [done|]. by intros b' [= <-].
Qed.

Lemma default_true (o : option bool) : (forall b, o = Some b -> b = true) -> default true o = true.
Proof. destruct o; cbn; auto. Qed.

(** The receipt of an exchange: its log, its workload, its signature. *)
Lemma exchange_issued (svc : AciService V) req s res s' :
  forward_chat_completion_request svc req s = (Ok res, s') ->
  r_workload_id (fr_receipt res) = svc_workload_id svc
  /\ r_workload_keyset_digest (fr_receipt res) = svc_workload_keyset_digest svc
  /\ (exists b, finalize b (default_receipt_key_id svc) = Ok (fr_receipt res))
  /\ exists p event recorded resp cb,
       log_of (event_log (fr_receipt res)) = exchange_log req p event recorded resp cb (upstream_body res).
Proof.
  unfold forward_chat_completion_request. intros ([[p event] resp] & s1 & _ & Hk)%svc_bind_Ok.
  unfold finish_exchange in Hk. destruct (client_response req resp) as [[cs cb] hs].
  apply svc_bind_Ok in Hk as (wb & s2 & _ & Hk). apply svc_bind_Ok in Hk as (r & s3 & Hrec & Hk).
  apply svc_bind_Ok in Hk as (u & s4 & _ & Hk). injection Hk as <- _. cbn [fr_receipt upstream_body].
  destruct (exchange_receipt_workload _ _ _ _ _ _ _ _ _ _ Hrec) as (Hw & Hd & Hfin).
  destruct (exchange_receipt_log _ _ _ _ _ _ _ _ _ _ Hrec) as (_ & sealed & _ & Hlog). eauto 12.
Qed.

Lemma artifact_receipt r (raw : Value) : raw = Receipt_value r true \/ get raw "receipt" = Some (Receipt_value r true) ->
  default raw (get raw "receipt") = Receipt_value r true.
Proof. by intros [->| ->]. Qed.

Lemma request_matches args w report r req p event recorded resp cb wb :
  artifacts args w report r (received_body req) wb -> log_of (event_log r) = exchange_log req p event recorded resp cb wb ->
  exists ob, audit_opt (a_request_body_path args)
      (fun path => compare_body_hash path (Receipt_value r true) "request.received" "body_hash") (settled w) = (Ok ob, settled w)
    /\ forall b, ob = Some b -> b = true.
Proof.
  intros Ha Hlog. apply audit_opt_Ok. intros path Hpath. exists true. split; [|done]. unfold compare_body_hash.
  rewrite (audit_bind_Ok _ _ _ _ (read_file_Ok _ _ _ _ (art_request _ _ _ _ _ _ Ha path Hpath))).
  destruct (exchange_hashes _ _ _ _ _ _ _ _ Hlog) as [(e & -> & He) _].
  unfold mbind, audit_bind, audit_lift. cbn [ok_or]. rewrite He. by rewrite bool_decide_eq_true_2.
Qed.

Lemma response_matches args w report r req p event recorded resp cb wb :
  artifacts args w report r (received_body req) wb -> log_of (event_log r) = exchange_log req p event recorded resp cb wb ->
  exists ob, audit_opt (a_response_body_path args) (compare_response (Receipt_value r true)) (settled w) = (Ok ob, settled w)
    /\ forall b, ob = Some b -> b = true.
Proof.
  intros Ha Hlog. apply audit_opt_Ok. intros path Hpath. exists true. split; [|done]. unfold compare_response.
  rewrite (audit_bind_Ok _ _ _ _ (read_file_Ok _ _ _ _ (art_response _ _ _ _ _ _ Ha path Hpath))).
  destruct (exchange_hashes _ _ _ _ _ _ _ _ Hlog) as [_ (e & -> & He)].
  unfold mbind, audit_bind, audit_lift. cbn [ok_or]. rewrite He, (bool_decide_eq_true_2 (Some _ = Some _)) by done. by rewrite orb_true_r.
Qed.

Lemma session_audited args w report r request response :
  artifacts args w report r request response -> Forall plain_event (event_log r) ->
  exists oa, audit_opt (a_session_path args) (fun path =>
      record ← read_json_file path; audit_lift (audit_session record (Receipt_value r true))) (settled w) = (Ok oa, settled w)
    /\ forall a, oa = Some a -> SessionAudit_is_ok a = true.
Proof.
  intros Ha Hp. apply audit_opt_Ok. intros path Hpath.
  destruct (art_session _ _ _ _ _ _ Ha path Hpath) as (text & s & Hf & Hv & Hid & Hev & Hc).
  destruct (audit_served_session r s Hp Hid Hev Hc) as (a & Haud & Hok). exists a. split; [|done].
  rewrite (audit_bind_Ok _ _ _ _ (read_json_Ok _ _ _ _ Hf Hv)). unfold audit_lift. by rewrite Haud.
Qed.

(** Every check of the program succeeds on what the service issued. *)
Lemma audit_accepts (v : option V) cfg svc store t nonce dom report req s res s' args now w :
  new_inner v cfg = Ok svc -> attestation_report_for_domain svc store t nonce dom = Ok report ->
  t <= now < t + freshness_seconds cfg -> is_u64 (t + freshness_seconds cfg) ->
  forward_chat_completion_request svc req s = (Ok res, s') ->
  artifacts args w report (fr_receipt res) (received_body req) (upstream_body res) -> a_nonce args = nonce ->
  exists summary, audit args (Ok now) (settled w) = (Ok (true, summary), settled w) /\ get summary "verified" = Some (Bool true).
Proof.
  intros Hn Hr Hnow Hu Hx Ha Hnonce. destruct (report_names _ _ _ _ _ _ Hr) as [Hks Hft].
  destruct (report_self_validates _ _ _ _ _ _ _ _ Hn Hr) as [_ Hval].
  destruct (exchange_issued _ _ _ _ _ Hx) as (Hwid & Hdig & (b & Hfin) & p & event & recorded & resp & cb & Hlog).
  assert (Hp : Forall plain_event (event_log (fr_receipt res))) by (apply plain_log_events; rewrite Hlog; apply exchange_log_plain).
  destruct (request_matches _ _ _ _ _ _ _ _ _ _ _ Ha Hlog) as (rq & Erq & Hrq).
  destruct (response_matches _ _ _ _ _ _ _ _ _ _ _ Ha Hlog) as (rs & Ers & Hrs).
  destruct (session_audited _ _ _ _ _ _ Ha Hp) as (sa & Esa & Hsa).
  destruct (art_report _ _ _ _ _ _ Ha) as (rtext & Hrf & Hrp). destruct (art_receipt _ _ _ _ _ _ Ha) as (text & raw & Hf & Hraw & Hshape).
  set (now' := if a_skip_freshness args then t else now).
  destruct (Hval now' (Some rtext)) as (validated & Hv & Hvd & Hvw); [unfold now'; destruct (a_skip_freshness args); lia|done|].
  assert (Hsig : verify_receipt (Receipt_value (fr_receipt res) true) report = Ok true).
  { eapply issued_receipt_verifies; [done|]. by rewrite Hks, (new_inner_keyset _ _ _ Hn). }
  unfold audit. rewrite (audit_bind_Ok _ _ _ _ (read_file_Ok _ _ _ _ Hrf)). rewrite (audit_bind_Ok _ _ _ report) by (unfold audit_lift; by rewrite Hrp).
  rewrite (audit_bind_Ok _ _ _ _ (read_json_Ok _ _ _ _ Hf Hraw)). cbn zeta. rewrite (artifact_receipt _ _ Hshape).
  rewrite (audit_bind_Ok _ _ _ now') by (unfold audit_lift, now'; rewrite Hft; by destruct (a_skip_freshness args)).
  rewrite (audit_bind_Ok _ _ _ validated) by (unfold audit_lift; by rewrite Hnonce, Hv).
  rewrite (audit_bind_Ok _ _ _ true) by (unfold audit_lift; by rewrite Hsig).
  rewrite (audit_bind_Ok _ _ _ _ Erq), (audit_bind_Ok _ _ _ _ Ers), (audit_bind_Ok _ _ _ _ Esa).
  assert (Hid : bool_decide (field_str (Receipt_value (fr_receipt res) true) "workload_id" = Some (v_workload_id validated))
    && bool_decide (field_str (Receipt_value (fr_receipt res) true) "workload_keyset_digest" = Some (v_workload_keyset_digest validated)) = true).
  { rewrite Hvw, Hvd, <- Hwid, <- Hdig. by rewrite !bool_decide_eq_true_2. }
  rewrite Hid, (default_true _ Hrq), (default_true _ Hrs), (exchange_transparent _ _ _ _ _ _ _ _ Hlog).
  assert (Hs : match sa with Some a => SessionAudit_is_ok a | None => true end = true) by (destruct sa; auto).
  rewrite Hs. eexists. split; reflexivity.
Qed.
End Exchange.

(** C22: a client can check what it was given: for a gateway with the dstack
    provider, the verification program, run with the report served for its nonce,
    the receipt of any buffered completion, and any of the two bodies and a
    session the receipt cites, prints a summary that says verified and exits
    with success, at any time while the report is fresh, or with the freshness
    check skipped. *)
Theorem audit_accepts_exchange `{!SignersLaws} `{DstackSdk} `{Keccak} {V S Env : Type} `{SessionStoreOps S}
    `{UpstreamVerifier V (Shared S Env Rng)} `{!Outside (Shared S Env Rng)}
    client config p (v : option V) cfg svc store t nonce dom report req s res s' argv args now w :
  from_client client config = Ok p -> cfg_receipt_key_id config <> cfg_ed25519_receipt_key_id config ->
  @new_inner _ (dstack_keys p) (dstack_e2ee p) V v cfg = Ok svc ->
  @attestation_report_for_domain _ (dstack_keys p) (dstack_e2ee p) (dstack_quoter p) V svc store t nonce dom = Ok report ->
  t <= now < t + freshness_seconds cfg -> is_u64 (t + freshness_seconds cfg) ->
  forward_chat_completion_request (H3 := dstack_keys p) svc req s = (Ok res, s') ->
  parse_args argv = Ok args -> artifacts args w report (fr_receipt res) (received_body req) (upstream_body res) -> a_nonce args = nonce ->
  exists summary, run argv (Ok now) (settled w) = ([summary], Ok tt) /\ get summary "verified" = Some (Bool true).
Proof.
  intros Hp Hne Hn Hr Hnow Hu Hx Hargs Ha Hnonce.
  assert (Hlaws : @ReceiptKeyLaws (dstack_keys p)).
  { split; [|intros key key'; by eapply receipt_key_unique]. intros key bytes sig Hk Hs.
    destruct (receipt_sign_verifies _ _ _ key bytes Hp Hne Hk) as (sig' & Hs' & Hv). cbn in Hs. rewrite Hs' in Hs. by injection Hs as <-. }
  destruct (audit_accepts _ _ _ _ _ _ _ _ _ _ _ _ _ _ _ Hn Hr Hnow Hu Hx Ha Hnonce) as (summary & Haud & Hget).
  exists summary. unfold run. by rewrite Hargs, Haud.
Qed.
End Audit.

(** ** Witness *)

Module DemoRelyingParty.
Import DemoDstack.
#[export] Existing Instances demo_serde DemoForward.outside SessionStore.demo_base64.

Abbreviation service :=
  (@new_inner _ (dstack_keys provider) (dstack_e2ee provider) StaticUpstreamVerifier (Some {| static_event := demo_event |}) DemoService.cfg).

Definition served_report : AttestationReport :=
  match service ≫= fun svc =>
    @attestation_report_for_domain _ (dstack_keys provider) (dstack_e2ee provider) (dstack_quoter provider) _ svc in_memory 1000 (Some "n") None
  with Ok r => r | Err _ => DemoService.report end.

#[export] Instance verifier_libs : VerifierLibs := {|
  parse_event_log _ := Ok []; parse_report _ := Ok served_report; debug s := s; url_host _ := Ok None; collateral := unit;
  get_collateral _ _ := Ok tt; dcap_verify _ _ _ := Err ""; display _ := "" |}.
#[export] Instance texts : AuditText := {| report_error_text _ := "binding"; canonical_error_text _ := "canonical" |}.

Abbreviation exchange svc :=
  (forward_chat_completion_request (H3 := dstack_keys provider) (V := StaticUpstreamVerifier) svc DemoForward.request DemoForward.init).

Definition receipt_text : string :=
  match service with
  | Ok svc => match (exchange svc).1 with
              | Ok res => match to_vec (Receipt_value (fr_receipt res) true) with Ok t => t | Err _ => "" end
              | Err _ => ""
              end
  | Err _ => ""
  end.

Definition kept : World := {|
  files := {[ ("/a", "report") := "{}"; ("/a", "receipt") := receipt_text; ("/a", "request") := "hi"; ("/a", "response") := "{}" ]};
  faults := [] |}.

Definition argv : list string :=
  ["--report"; "/a/report"; "--receipt"; "/a/receipt"; "--nonce"; "n"; "--request-body"; "/a/request"; "--response-body"; "/a/response"].

Definition is_ok_with {E A} (r : result E A) (f : A -> bool) : bool := match r with Ok a => f a | Err _ => false end.

Lemma is_ok_with_true {E A} (r : result E A) f : is_ok_with r f = true -> exists a, r = Ok a /\ f a = true.
Proof. destruct r as [a|]; [by exists a|done]. Qed.

(** What the demonstration rests on, as one computation. *)
Abbreviation ready :=
  (is_ok_with service (fun svc =>
    is_ok_with (exchange svc).1 (fun res =>
         is_ok_with (from_slice receipt_text) (fun v => bool_decide (v = Receipt_value (fr_receipt res) true))
         && String.eqb (upstream_body res) "{}")
    && is_ok_with (@attestation_report_for_domain _ (dstack_keys provider) (dstack_e2ee provider) (dstack_quoter provider) _ svc in_memory
                     1000 (Some "n") None) (fun _ => true))).

Lemma ready_true : ready = true.
Proof. vm_compute. reflexivity. Qed.

Definition args : Args :=
  {| a_report_path := "/a/report"; a_receipt_path := "/a/receipt"; a_session_path := None; a_nonce := Some "n";
     a_request_body_path := Some "/a/request"; a_response_body_path := Some "/a/response"; a_skip_freshness := false |}.

(** The files are looked up whatever the receipt's text is. *)
Lemma kept_files (t : string) :
  let m : gmap Path string := {[ ("/a", "report") := "{}"; ("/a", "receipt") := t; ("/a", "request") := "hi"; ("/a", "response") := "{}" ]} in
  m !! path_of "/a/report" = Some "{}" /\ m !! path_of "/a/receipt" = Some t /\ m !! path_of "/a/request" = Some "hi"
  /\ m !! path_of "/a/response" = Some "{}".
Proof. cbn zeta. split_and!; reflexivity. Qed.

Lemma kept_artifacts report r :
  served_report = report -> from_slice receipt_text = Ok (Receipt_value r true) -> artifacts args kept report r "hi" "{}".
Proof.
  intros Hserved Hv. destruct (kept_files receipt_text) as (Hreport & Hreceipt & Hrequest & Hresponse). split.
  - exists "{}". split; [exact Hreport|]. rewrite <- Hserved. reflexivity.
  - exists receipt_text, (Receipt_value r true). split; [exact Hreceipt|]. split; [exact Hv|]. by left.
  - intros path [= <-]. exact Hrequest.
  - intros path [= <-]. exact Hresponse.
  - discriminate.
Qed.

Lemma is_served svc report : service = Ok svc ->
  @attestation_report_for_domain _ (dstack_keys provider) (dstack_e2ee provider) (dstack_quoter provider) _ svc in_memory 1000 (Some "n") None
    = Ok report -> served_report = report.
Proof. intros Hn Hr. unfold served_report. rewrite Hn. cbn [mbind result_bind]. rewrite Hr. reflexivity. Qed.

Lemma audit_accepts_exchange_witness : exists summary, run argv (Ok 1500) (settled kept) = ([summary], Ok tt).
Proof.
  destruct (is_ok_with_true _ _ ready_true) as (svc & Hn & Hready).
  apply andb_true_iff in Hready as [Hx Hr]. apply is_ok_with_true in Hx as (res & Hres & Hx). apply andb_true_iff in Hx as [Ht Hbody].
  apply is_ok_with_true in Ht as (v & Hv & ->%bool_decide_eq_true). apply String.eqb_eq in Hbody.
  apply is_ok_with_true in Hr as (report & Hr & _).
  pose proof (kept_artifacts _ _ (is_served _ _ Hn Hr) Hv) as Hkept. rewrite <- Hbody in Hkept at 1.
  destruct (exchange svc) as [r s'] eqn:Ex. cbn [fst] in Hres. subst r.
  destruct (audit_accepts_exchange client DstackAciProviderConfig_default provider (Some {| static_event := demo_event |}) DemoService.cfg svc
    in_memory 1000 (Some "n") None report DemoForward.request DemoForward.init res s' argv args 1500 kept
    provider_ok ltac:(discriminate) Hn Hr ltac:(split; vm_compute; [discriminate|reflexivity]) ltac:(split; vm_compute; discriminate)
    Ex eq_refl Hkept eq_refl) as (summary & Hrun & _). exists summary. exact Hrun.
Defined.
End DemoRelyingParty.
