(* ===== verification/KmsRoot.v ===== *)
(** * The KMS root of a report

    Model of [examples/dstack_kms_root_from_report.rs]: the tool with which an
    operator reads the root key to accept off a report, and its agreement with
    the verifier of [AciVerifier.v]. *)
From S2P Require Import Prelude StrOps Json Canonical Identity AciVerifier E2ee Service Dstack.
Import Types.

(** [serde_json::from_str] at a list of values. *)
Class EventValues : Type := parse_event_values : string -> result string (list Value).

Definition as_u64 (v : Value) : option Z := match v with Num (PosInt n) => Some n | _ => None end.

Section Root.
Context `{Digest} `{AciVerifier.Crypto} `{VerifierLibs} `{EventValues}.

Definition is_event (name : string) (event : Value) : bool :=
  bool_decide ((get event "imr" ≫= as_u64) = Some 3) && bool_decide (get_str event "event" = Some name).

(** [take_while] no system-ready event, then [find] the app id. *)
Fixpoint first_app_id (events : list Value) : option Value :=
  match events with
  | [] => None
  | e :: events => if is_event "system-ready" e then None else if is_event "app-id" e then Some e else first_app_id events
  end.

Definition app_id_from_report (report : AttestationReport) : result string string :=
  event_log ← ok_or (get_str (att_evidence (attestation report)) "event_log") "missing event_log";
  events ← parse_event_values event_log;
  app_id ← ok_or (first_app_id events) "missing app-id event";
  payload ← ok_or (get_str app_id "event_payload") "app-id event missing event_payload";
  decode_hex payload.

Definition nth_signature (chain : list Value) (i : nat) : result string string :=
  s ← ok_or (match chain !! i with Some v => as_str v | None => None end)
        ("signature_chain[" +:+ z_to_string (Z.of_nat i) +:+ "] is not a string");
  decode_hex s.

Definition kms_root_from_report (report : AttestationReport) (app_id : string) : result string string :=
  key_custody ← ok_or (get (att_evidence (attestation report)) "key_custody") "missing key_custody";
  _ ← (if bool_decide (get_str key_custody "provider" = Some "dstack-kms") then Ok tt else Err "key_custody provider is not dstack-kms");
  keys ← ok_or (match get key_custody "keys" with Some v => as_array v | None => None end) "missing key_custody keys";
  identity ← ok_or (List.find (fun key => bool_decide (get_str key "role" = Some "identity")) keys) "missing identity key custody";
  public_key_ ← ok_or (get_str identity "public_key") "identity key custody missing public_key";
  _ ← (if String.eqb public_key_ (pk_public_key_hex (public_key (workload_identity (workload_keyset (attestation report))))) then Ok tt
       else Err "identity key custody does not match report workload identity");
  purpose ← ok_or (get_str identity "purpose") "identity key custody missing purpose";
  chain ← ok_or (match get identity "signature_chain" with Some v => as_array v | None => None end)
            "identity key custody missing signature_chain";
  _ ← (if Nat.eqb (length chain) 2 then Ok tt
       else Err ("identity key custody signature_chain must contain 2 signatures, got " +:+ z_to_string (Z.of_nat (length chain))));
  purpose_signature ← nth_signature chain 0;
  app_signature ← nth_signature chain 1;
  compressed ← compressed_k256_public_key_hex public_key_;
  app_public_key ← recover_k256_public_key (purpose +:+ ":" +:+ compressed) purpose_signature;
  root ← recover_k256_public_key ("dstack-kms-issued" +:+ ":" +:+ app_id +:+ app_public_key) app_signature;
  Ok (hex_encode root).

(** What the tool does with the text on its standard input: the lines it prints. *)
Definition print_kms_root (input : string) : result string (list string) :=
  report ← parse_report input;
  app_id ← app_id_from_report report;
  root ← kms_root_from_report report app_id;
  Ok ["workload_id=" +:+ rep_workload_id report; "app_id=" +:+ hex_encode app_id; "kms_root_public_key=" +:+ root].

(** ** Agreement with the verifier *)

(** A typed event is read off the object its text denotes.  The derived
    [Deserialize] also reads an event off an array of its fields, of which the tool
    finds none; and it skips fields it does not know, which may hold what is no
    [Value], such as a number out of range. *)
Definition reads (v : Value) (e : DstackEventLog) : Prop :=
  (get v "imr" ≫= as_u64) = Some (imr e) /\ get_str v "event" = Some (event e) /\ get_str v "event_payload" = Some (event_payload e).

Definition is_object (v : Value) : Prop := exists m, v = Obj m.

Class EventValuesLaws : Prop :=
  typed_events t events vs : parse_event_log t = Ok events -> parse_event_values t = Ok vs -> Forall is_object vs -> Forall2 reads vs events.

(** A recovered key is given in compressed form, which parses to itself. *)
Class RecoveryLaws : Prop :=
  recovered_compressed m sig v key : k256_recover_keccak m sig v = Ok key -> k256_from_encoded_point key = Ok key.

Lemma is_event_reads name v e : reads v e -> is_event name v = (imr e =? 3) && String.eqb (event e) name.
Proof.
  intros (Hi & He & _). unfold is_event. rewrite Hi, He. f_equal.
  - destruct (Z.eqb_spec (imr e) 3) as [->|]; [by apply bool_decide_eq_true_2|]. apply bool_decide_eq_false_2. congruence.
  - destruct (String.eqb_spec (event e) name) as [->|]; [by apply bool_decide_eq_true_2|]. apply bool_decide_eq_false_2. congruence.
Qed.

Lemma first_app_id_reads vs events e : Forall2 reads vs events -> find_app_id events = Some e -> exists v, first_app_id vs = Some v /\ reads v e.
Proof.
  induction 1 as [|v e' vs events Hr Hall IH]; [done|]. cbn. rewrite !(is_event_reads _ _ _ Hr). unfold is_system_ready, is_app_id.
  destruct (_ && _); [done|]. destruct (_ && _); [|done]. intros [= ->]. eauto.
Qed.

Lemma chain_signature_iff chain i s : chain_signature chain i = Ok s <-> nth_signature chain i = Ok s.
Proof.
  unfold chain_signature, nth_signature. destruct (chain !! i) as [v|]; [|done]. destruct (as_str v); [|done]. cbn.
  by rewrite map_err_Ok.
Qed.

Lemma recovered_key message sig key : recover_k256_public_key message sig = Ok key ->
  exists v, k256_recover_keccak message (String.substring 0 64 sig) v = Ok key.
Proof.
  unfold recover_k256_public_key. destruct (negb _); [done|]. cbn zeta. destruct (negb _); [done|].
  intros (? & _ & Hr%map_err_Ok)%result_bind_Ok. eauto.
Qed.

(** Both sides fail. *)
Ltac refute := split; [discriminate|intros (? & ? & _); discriminate].

(** The verifier's custody check is the tool's root, looked up in the policy. *)
Lemma custody_is_root report app_id policy :
  verify_dstack_kms_identity_custody report app_id policy = Ok tt
  <-> exists root, kms_root_from_report report app_id = Ok root /\ root ∈ accepted_kms_root_public_keys policy.
Proof.
  unfold verify_dstack_kms_identity_custody, kms_root_from_report.
  destruct (get _ "key_custody") as [custody|]; cbn [ok_or mbind result_bind]; [|refute].
  destruct (get_str custody "provider") as [provider|]; cbn [ok_or mbind result_bind]; [|refute].
  destruct (String.eqb_spec provider "dstack-kms") as [->|Hne]; cbn [unless mbind result_bind].
  2: { rewrite bool_decide_eq_false_2 by congruence. refute. }
  rewrite bool_decide_eq_true_2 by done. cbn [mbind result_bind].
  destruct (match get custody "keys" with Some v => as_array v | None => None end) as [keys|]; cbn [ok_or mbind result_bind]; [|refute].
  destruct (List.find _ keys) as [identity|]; cbn [ok_or mbind result_bind]; [|refute].
  destruct (get_str identity "public_key") as [pk|]; cbn [ok_or mbind result_bind]; [|refute].
  destruct (String.eqb pk _); cbn [unless mbind result_bind]; [|refute].
  destruct (get_str identity "purpose") as [purpose|]; cbn [ok_or mbind result_bind]; [|refute].
  destruct (match get identity "signature_chain" with Some v => as_array v | None => None end) as [chain|]; cbn [ok_or mbind result_bind]; [|refute].
  destruct (Nat.eqb (length chain) 2); cbn [unless mbind result_bind]; [|refute].
  split.
  - intros (s1 & Hs1%chain_signature_iff & Hc)%result_bind_Ok. apply result_bind_Ok in Hc as (s2 & Hs2%chain_signature_iff & Hc).
    apply result_bind_Ok in Hc as (c & Hk%map_err_Ok & Hc). apply result_bind_Ok in Hc as (a & Ha%map_err_Ok & Hc).
    apply result_bind_Ok in Hc as (r & Hr%map_err_Ok & Hin). exists (hex_encode r).
    rewrite Hs1. cbn [mbind result_bind]. rewrite Hs2. cbn [mbind result_bind]. rewrite Hk. cbn [mbind result_bind].
    rewrite Ha. cbn [mbind result_bind]. rewrite Hr. split; [done|]. unfold unless in Hin. by case_bool_decide.
  - intros (root & Hc & Hin). apply result_bind_Ok in Hc as (s1 & Hs1%chain_signature_iff & Hc).
    apply result_bind_Ok in Hc as (s2 & Hs2%chain_signature_iff & Hc). apply result_bind_Ok in Hc as (c & Hk & Hc).
    apply result_bind_Ok in Hc as (a & Ha & Hc). apply result_bind_Ok in Hc as (r & Hr & [= <-]).
    rewrite Hs1. cbn [mbind result_bind]. rewrite Hs2. cbn [mbind result_bind]. rewrite Hk. cbn [map_err mbind result_bind].
    rewrite Ha. cbn [map_err mbind result_bind]. rewrite Hr. cbn [map_err mbind result_bind]. unfold unless. by rewrite bool_decide_eq_true_2.
Qed.

(** C18: the root the tool prints is the one to accept: for a report whose event log
    is a JSON array of objects and is accepted by the verifier, the tool reads the
    same app id off it; the verifier's
    custody check succeeds under a policy exactly when the tool finds a root and
    the policy has it; and a policy configured with the printed root, alone or
    among others, has it. *)
Theorem kms_root_agrees `{!EventValuesLaws} `{!RecoveryLaws} `{!HexLaws} report quote app_id log vs :
  get_str (att_evidence (attestation report)) "event_log" = Some log -> parse_event_values log = Ok vs -> Forall is_object vs ->
  verify_dstack_event_log_and_app_id (att_evidence (attestation report)) quote = Ok app_id ->
  app_id_from_report report = Ok app_id
  /\ (forall policy, verify_dstack_kms_identity_custody report app_id policy = Ok tt
       <-> exists root, kms_root_from_report report app_id = Ok root /\ root ∈ accepted_kms_root_public_keys policy)
  /\ forall root ids digests roots policy, kms_root_from_report report app_id = Ok root -> root ∈ roots ->
       policy_new ids digests roots = Ok policy -> verify_dstack_kms_identity_custody report app_id policy = Ok tt.
Proof.
  intros Htext Hvalues Hobj Hlog. split; [|split; [intros policy; apply custody_is_root|]].
  - unfold verify_dstack_event_log_and_app_id in Hlog. unfold app_id_from_report.
    rewrite Htext in *. cbn [ok_or mbind result_bind] in *. rewrite Hvalues. cbn [mbind result_bind].
    apply result_bind_Ok in Hlog as (events & Hev%map_err_Ok & Hlog). apply result_bind_Ok in Hlog as (rtmr & _ & Hlog).
    apply result_bind_Ok in Hlog as (q & _ & Hlog). apply result_bind_Ok in Hlog as (? & _ & Hlog).
    apply result_bind_Ok in Hlog as (e & He & Hlog%map_err_Ok). destruct (find_app_id events) as [e'|] eqn:Ef; [|done]. injection He as ->.
    pose proof (typed_events _ _ _ Hev Hvalues Hobj) as Hvs.
    destruct (first_app_id_reads _ _ _ Hvs Ef) as (v & -> & (_ & _ & Hpay)). cbn [ok_or mbind result_bind]. by rewrite Hpay.
  - intros root ids digests roots policy Hroot Hin Hp. apply custody_is_root. exists root. split; [done|].
    unfold policy_new in Hp. apply result_bind_Ok in Hp as (set & Hset & Hp). apply result_bind_Ok in Hp as (? & _ & Hp).
    apply result_bind_Ok in Hp as (? & _ & [= <-]). cbn.
    assert (Hc : compressed_k256_public_key_hex root = Ok root).
    { unfold kms_root_from_report in Hroot. repeat (apply result_bind_Ok in Hroot as (? & ? & Hroot)). injection Hroot as <-.
      match goal with Hr : recover_k256_public_key ("dstack-kms-issued" +:+ _) _ = Ok ?k |- _ => destruct (recovered_key _ _ _ Hr) as [v Hk] end.
      unfold compressed_k256_public_key_hex, decode_hex. rewrite hex_encode_digits, hex_decode_encode. cbn [mbind result_bind].
      by rewrite (recovered_compressed _ _ _ _ Hk). }
    revert set Hset. induction roots as [|r roots IH]; intros set; [by apply elem_of_nil in Hin|]. cbn [compress_keys].
    intros (c & Hcr%map_err_Ok & (cs & Hcs & [= <-])%result_bind_Ok)%result_bind_Ok.
    apply elem_of_cons in Hin as [->|Hin]; [|set_solver]. rewrite Hc in Hcr. injection Hcr as <-. set_solver.
Qed.
End Root.

(** ** Witness *)

Module DemoKmsRoot.
#[export] Existing Instances Demo.digest32 Demo.crypto Demo.libs DemoService.hex_laws.
Definition demo_values (t : string) : list Value :=
  [{{ "imr" ≔ from_u64 3; "digest" ≔ Str "00"; "event" ≔ Str "app-id"; "event_payload" ≔ Str t }}].

#[export] Instance values : EventValues := fun t => Ok (demo_values t).

#[export] Instance values_laws : EventValuesLaws.
Proof. intros t events vs [= <-] [= <-] _. repeat constructor. Qed.

#[export] Instance recovery : RecoveryLaws.
Proof. intros m sig v key [= <-]. done. Qed.

Definition quoted : QuoteReport := TD10 "" (zeros 48).

Lemma kms_root_agrees_witness :
  exists app_id root policy, app_id_from_report (Demo.report "n" "aa") = Ok app_id
    /\ kms_root_from_report (Demo.report "n" "aa") app_id = Ok root /\ policy_new ["w"] [] [root] = Ok policy
    /\ verify_dstack_kms_identity_custody (Demo.report "n" "aa") app_id policy = Ok tt.
Proof.
  destruct (verify_dstack_event_log_and_app_id (att_evidence (attestation (Demo.report "n" "aa"))) quoted) as [app_id|] eqn:E;
    [|vm_compute in E; discriminate].
  destruct (get_str (att_evidence (attestation (Demo.report "n" "aa"))) "event_log") as [log|] eqn:El; [|vm_compute in El; discriminate].
  destruct (kms_root_agrees (Demo.report "n" "aa") quoted app_id log (demo_values log) El eq_refl ltac:(repeat constructor; by eexists) E) as (Hid & _ & Hroot).
  destruct (kms_root_from_report (Demo.report "n" "aa") app_id) as [root|] eqn:Er;
    [|vm_compute in E; injection E as <-; vm_compute in Er; discriminate].
  destruct (policy_new ["w"] [] [root]) as [policy|] eqn:Ep;
    [|vm_compute in E; injection E as <-; vm_compute in Er; injection Er as <-; vm_compute in Ep; discriminate].
  exists app_id, root, policy. split; [exact Hid|]. split; [exact Er|]. split; [exact Ep|].
  apply (Hroot root ["w"] [] [root] policy eq_refl ltac:(by left) Ep).
Defined.
End DemoKmsRoot.
